(* ===== verification/_CoqProject ===== *)
-Q . S2P
Prelude.v
BitField.v
Addresses.v
PhysAlloc.v
VirtAlloc.v
Frames.v
PageEntry.v
Paging.v
PagingTree.v
MapRange.v
UnmapRange.v
PagingIter.v
Spaces.v
PhysBuffer.v
Heap.v
HeapSpec.v
HeapAlloc.v
HeapHistory.v
MsgQueue.v
MsgQueueLin.v
LinkedList.v
LinkedListSpec.v
ConcMap.v
RegPath.v
RegSpec.v
Locks.v
LocksSpec.v
BlockCache.v
BlockCacheSpec.v
Error.v
Process.v
ProcMem.v
ProcWorld.v
ProcQueues.v
QueueIds.v
Fat.v
CacheVolume.v
FatSpec.v
Dtb.v
DtbSpec.v
Gic.v
GicSpec.v
Executor.v
ExecutorSpec.v
Sched.v
SchedSpec.v
Nvme.v
NvmeRings.v
NvmeData.v
Kernel.v
KernelThreads.v
KernelSpec.v
KernelCommands.v
KernelTasks.v
KernelProps.v
TimeSlice.v
KernelInterrupts.v
Spawn.v
SpawnSpec.v
ProcessStart.v
Pcie.v
PcieSpec.v
NvmeSetup.v
Tlb.v
NvmeOpen.v
NvmeOpenSpec.v
Interrupts.v
ExceptionEntry.v
Startup.v
Kapi.v
