(* ===== verification/Prelude.v ===== *)
(** * k: a verification of the kernel's memory, processes, storage and devices

    k is a kernel for 64-bit ARM written in Rust.  This library translates its code into
    definitions that can be run, and proves what makes them correct.  Sources are named
    relative to [src/].

    ** The program, and where its parts are

    Memory ([kernel/src/memory/]).  The physical allocator hands out frames, page tables map
    them, an allocator hands out virtual addresses, and physical buffers and the heap are built
    on the three.
    - [Addresses]: addresses and memory errors.  [PhysAlloc], [VirtAlloc]: the allocators.
    - [Frames]: what page tables need of an allocator of frames (class [FrameAllocator]).
    - [PageEntry], [Paging], [PagingTree]: entries, tables in memory and the trees they form;
      [translate] is the MMU.  [MapRange], [UnmapRange], [PagingIter]: the operations against it.
    - [Spaces], [PhysBuffer]: address spaces and physical buffers.  [Tlb]: cached translations.
    - [Heap], [HeapSpec], [HeapAlloc], [HeapHistory]: the kernel heap in the words of its memory.

    Data structures ([kernel/src/ds/], [kapi/src/queue.rs], [kernel/src/registry/]).
    - [MsgQueue], [MsgQueueLin]: the lock-free queues between kernel and user space.
    - [LinkedList], [LinkedListSpec], [ConcMap]: the linked list and the sharded hash map.
    - [RegPath], [RegSpec]: paths and the registry.  [Dtb], [DtbSpec]: the device tree.

    Tasks ([kernel/src/tasks/]): [Locks], [LocksSpec] (semaphores and locks), [Executor],
    [ExecutorSpec] (the executor and its wakers).

    Processes ([kernel/src/process/], [kernel/src/exception/handlers.rs]).
    - [Sched], [SchedSpec]: threads, the scheduler and the context switch.
    - [Process], [ProcMem], [ProcWorld], [ProcQueues], [QueueIds]: memory and queues of processes.
    - [Kernel]: threads, processes, tasks, commands, system calls and exceptions in one state,
      the record [Kernel] of the components' states; [KernelThreads], [KernelSpec],
      [KernelCommands], [KernelTasks], [KernelInterrupts], [KernelProps]: its invariant
      [kernel_wf] and what its operations do.
    - [Spawn], [SpawnSpec], [ProcessStart]: loading a binary and starting a process.
      [Error]: errors and codes.

    Storage ([kernel/src/storage/], [kernel/src/fs/]).
    - [BlockCache], [BlockCacheSpec], [CacheVolume]: the block cache over a block store.
    - [Fat], [FatSpec]: the FAT file system over any [Volume], which the cache is.
    - [Nvme], [NvmeRings], [NvmeData]: NVMe commands, queues and transfers.
    - [NvmeSetup], [NvmeOpen], [NvmeOpenSpec]: an NVMe controller from its reset to an open
      namespace.

    Devices ([kernel/src/exception/gic/], [kernel/src/bus/pcie/], [kernel/src/timer.rs]).
    - [Gic], [GicSpec]: the interrupt controller and message signalled interrupts.
    - [Pcie], [PcieSpec]: the bus, its scan and MSI-X.
    - [TimeSlice]: the timer, and time slicing of [kernel/src/init.rs].
    - [Interrupts]: masks, guards and locks.  [ExceptionEntry]: saving and restoring registers.
    - [Startup]: boot options and other pieces of [kernel/src/init.rs].  [Kapi]: the wrappers of
      system calls in user space ([kapi/src/system_calls.rs]).

    ** How code is modelled

    A function of the source is a definition of the same name in the monad [M] of this file:
    the state of its component, and a result, a Rust error or a stop.  Integers are [Z]; the
    arithmetic of the source is checked ([uadd], [usub], [umul]) or wraps as it is written.
    Panics, accesses to memory that is not there ([Undefined]) and loops that have used up
    their fuel ([OutOfFuel]) are different stops, and a theorem that gives [Ok] excludes all of
    them.  Concurrent code is a relation whose steps are the atomic accesses, over sequentially
    consistent memory.

    Code outside the repository is a class or an argument with its documented behaviour as
    laws: [BitField] and [BitVec] (bit ranges and bit slices), [BigEndian] (byte order),
    [ArrayQueue] and [SegQueue] (queues), [Utf16], the ELF parser, hash functions.  Device
    registers are [Mmio] and [Bus], with what the hardware does stated where it is used
    ([GicHardware], [controller]).  Instances in the files show that the laws can hold.
    Interfaces between parts of the kernel are classes too: [FrameAllocator], [BlockStore],
    [Volume]; for [File], with the registry that opens one, [Spawn] takes arguments.  What an
    NVMe controller makes of a command, and how long it takes, are arguments of [NvmeOpen], and
    the JSON parser of [Startup].

    Helpers that translate some lines of a longer function are part of that function's model.

    ** What is shown

    - Memory: [map_range] and [unmap_range] change the MMU's translation exactly as asked;
      iterating over a table enumerates it; live allocations are disjoint in every history;
      the kernel's half of the addresses is never translated by a stale entry of the TLB.
    - Processes: whatever processes do with their memory and queues, they stay isolated; the
      invariant of the whole kernel is kept by its steps; exits, kills, page faults, commands,
      watches and timer interrupts have their effects; segments are loaded where they belong, and
      a new process gets its queues, its stack and its thread.
      Isolation is a statement about page tables: [user_translations_shared] shows that
      translations cached for one process serve the next.
    - Concurrency: the message queue is linearizable, reader/writer locks exclude, the executor
      keeps its tasks and polls what is woken (but may starve what is only spawned), scheduling is
      round robin and fair; locks taken under a guard never make an interrupt's handler wait.
    - Storage: rings deliver commands and completions, the cache behaves as its device while
      no write hits a clean chunk, directories and files read as the volume's bytes say.
    - Devices: flags of interrupts, message interrupts, the bus scan, MSI-X entries, time slices;
      an NVMe controller is configured and a namespace opened as the controller's answers say.
    - Where the code falls short of what it means to do, a theorem says so (for example
      [reopen_breaks_store], [exception_overwrites_stack] and [segment_tail_lost]).

    ** Fuel and bounds

    Loops of the source that are not structural take fuel.  Where it can be computed the
    definition passes enough: the number of pages of a range, of blocks that fit in the heap, of
    nodes of a list, of bits of the bitmap, of bytes of a device tree's structure block.
    Elsewhere it is an argument, and theorems ask for at least what the data needs: the leaf
    entries of a page table, the records of a directory, the clusters of a file, the
    interrupts that are pending, 64 blocks for a list of capabilities (there are 64 offsets),
    the reads a controller takes to become ready, the looks at a queue before an answer is there.

    Some theorems are about part of the inputs.
    - Mapped ranges have blocks aligned as the MMU needs ([blocks_aligned], [alloc_aligned]).  This
      says nothing of fewer than 512 pages; larger ones, such as the stacks of main threads, need
      frames and addresses that agree modulo 2 MiB (1 GiB) where they agree modulo 1 MiB (16 MiB),
      which is what the code checks.  Unmapped ranges are whole blocks and pages ([mapped_exactly]).
    - Processes free only what they were given ([mem_step]).  [reserve] does not start where a
      larger free block starts ([no_front]).  The heap's alignments are at most 256 ([layout_ok]).
    - The queues of tasks have room for what is woken or spawned, and completion queues for the
      answers; where they do not, the code panics.  [commands_answered] and [kernel_type_safe] are
      about commands that end at once ([simple], [enabled]).
    - [image_loaded] is about segments of fewer than 512 pages, apart, inside the file, that start
      at a page or have no part beyond the file's.  [process_started] is about tables that are
      ready, with an image in them or not.
    - Block stores have no short transfers ([FullTransfers]), and blocks of 64 to 1024 bytes.
      Clusters of files and directories are below 2^15 ([dir_ok]).
    - Devices on the bus have headers of type 0 and capabilities without a cycle ([bus_ok]).
    - The linked list and the cache run one operation at a time.  Names of paths and files are
      ASCII.  The NVMe theorems are about the first 62 admin commands, because the driver exchanges
      the sizes of the two rings; of code under guards, only the nesting of guards and of one lock
      is kept.

    ** Not modelled

    - Assembly, apart from the entry to and return from an exception, the wrappers of system calls
      and what TLB instructions do: start-up, the table of vectors, MMU control.
    - [OnceCell]s around global state; spin locks other than in [Interrupts].
    - Reference counts: a thread that is in no list stays in the arena.
    - Log output, with the register reads that only serve it; the UART; [WriteLog] only logs.
    - [kmain] and [finish_boot], which call modelled components in order.
    - Weak memory; [todo!] functions other than as panics; the ITS, which is only [todo!];
      the user programs [init] and [api_tests]. *)
From stdpp Require Export base tactics option list list_numbers numbers gmap.
From Stdlib Require Export ZArith Lia.
#[export] Set Warnings "-clear-no-such-hyp".
Open Scope Z_scope.

(** ** Results of kernel code

    The kernel is built with the debug profile only (Makefile, [TARGET_DIR]), so
    integer overflow, slice indexing out of range, [unwrap] on [None], failed
    [assert!]s, [todo!] and [panic!] all end in a panic.  A computation of the
    model therefore returns a value, returns a Rust [Err], or stops. *)

Inductive stop :=
  | Panic       (* the panic handler runs: the kernel halts *)
  | Undefined   (* the source would dereference memory it may not *)
  | OutOfFuel.  (* the model's loop bound was too small *)

Inductive res (S E A : Type) :=
  | Ok (a : A) (s : S)
  | Err (e : E) (s : S)
  | Stop (w : stop).
Arguments Ok {S E A} a s.
Arguments Err {S E A} e s.
Arguments Stop {S E A} w.

(** State passing with Rust's [Result]: an [Err] keeps the state reached so far. *)
Definition M (S E A : Type) : Type := S → res S E A.

#[export] Instance M_ret S E : MRet (M S E) := λ A a s, Ok a s.
#[export] Instance M_bind S E : MBind (M S E) := λ A B f m s,
  match m s with
  | Ok a s' => f a s'
  | Err e s' => Err e s'
  | Stop w => Stop w
  end.

Definition throw {S E A} (e : E) : M S E A := λ s, Err e s.
Definition panic {S E A} : M S E A := λ _, Stop Panic.
Definition undefined {S E A} : M S E A := λ _, Stop Undefined.
Definition out_of_fuel {S E A} : M S E A := λ _, Stop OutOfFuel.
Definition get {S E} : M S E S := λ s, Ok s s.
Definition put {S E} (s : S) : M S E unit := λ _, Ok tt s.

(** A pure computation that panics ([None]) inside a stateful one. *)
Definition lift {S E A} (o : option A) : M S E A :=
  match o with Some a => mret a | None => panic end.
(** [assert!(b)]. *)
Definition assert {S E} (b : bool) : M S E unit := if b then mret tt else panic.

(** [for x in l { f(x) }] *)
Fixpoint for_each {S E A} (f : A → M S E unit) (l : list A) : M S E unit :=
  match l with
  | [] => mret tt
  | x :: l' => f x;; for_each f l'
  end.

Lemma bind_unfold {S E A B} (m : M S E A) (k : A → M S E B) s :
  (m ≫= k) s = match m s with Ok a s' => k a s' | Err e s' => Err e s' | Stop w => Stop w end.
Proof. done. Qed.

Lemma for_each_app {S E A} (f : A → M S E unit) l1 l2 s :
  for_each f (l1 ++ l2) s = (for_each f l1;; for_each f l2) s.
Proof.
  revert s. induction l1 as [|x l1 IH]; intros s; [done|]. cbn [app for_each]. rewrite !bind_unfold.
  destruct (f x s) as [[] s'|e s'|w]; [|done|done]. rewrite IH. by rewrite bind_unfold.
Qed.

Lemma bind_Ok {S E A B} (m : M S E A) (k : A → M S E B) s b s'' :
  (m ≫= k) s = Ok b s'' ↔ ∃ a s', m s = Ok a s' ∧ k a s' = Ok b s''.
Proof.
  unfold mbind, M_bind. destruct (m s); split; try naive_solver.
Qed.

Lemma bind_Err {S E A B} (m : M S E A) (k : A → M S E B) s e s'' :
  (m ≫= k) s = Err e s'' ↔
  m s = Err e s'' ∨ ∃ a s', m s = Ok a s' ∧ k a s' = Err e s''.
Proof.
  unfold mbind, M_bind. destruct (m s); split; try naive_solver.
Qed.

Lemma bind_run {S E A B} (m : M S E A) (k : A → M S E B) s a s' :
  m s = Ok a s' → (m ≫= k) s = k a s'.
Proof. intros H. unfold mbind, M_bind. by rewrite H. Qed.

Lemma lift_Ok {S E A} (o : option A) (s s' : S) a :
  lift (E:=E) o s = Ok a s' ↔ o = Some a ∧ s' = s.
Proof. destruct o; cbv; naive_solver. Qed.

Lemma lift_Some {S E A} (a : A) (s : S) : lift (E:=E) (Some a) s = Ok a s.
Proof. done. Qed.

(** A computation "returns" when it ends in [Ok] or [Err]: it neither panics nor
    touches memory it may not, and the loop bounds of the model sufficed. *)
Definition returns {S E A} (r : res S E A) : Prop :=
  match r with Stop _ => False | _ => True end.

(** A computation "ends" when the loop bounds of the model sufficed: it returns or stops the way
    the source does. *)
Definition ends {S E A} (r : res S E A) : Prop := r ≠ Stop OutOfFuel.

Lemma bind_ends {S E A B} (m : M S E A) (k : A → M S E B) s :
  ends (m s) → (∀ a s', m s = Ok a s' → ends (k a s')) → ends ((m ≫= k) s).
Proof. unfold ends, mbind, M_bind. destruct (m s); naive_solver. Qed.

Lemma lift_ends {S E A} (o : option A) (s : S) : ends (lift (E:=E) o s).
Proof. by destruct o. Qed.

Lemma assert_ends {S E} b (s : S) : ends (assert (E:=E) b s).
Proof. by destruct b. Qed.

Create HintDb ends.
#[export] Hint Resolve lift_ends assert_ends : ends.
#[export] Hint Extern 1 (ends (mret _ _)) => done : ends.
#[export] Hint Extern 1 (ends (get _)) => done : ends.
#[export] Hint Extern 1 (ends (put _ _)) => done : ends.
#[export] Hint Extern 1 (ends (throw _ _)) => done : ends.
#[export] Hint Extern 1 (ends (panic _)) => done : ends.

Definition is_ok {S E A} (r : res S E A) : bool := match r with Ok _ _ => true | _ => false end.

(** ** Machine integers

    [usize] and [u64] are integers in [0, 2^64).  Plain [+], [-], [*] are checked
    (debug profile), the [wrapping_*] and [saturating_*] methods are written out. *)

Abbreviation U64 := 18446744073709551616.

Definition is_usize (z : Z) : Prop := 0 ≤ z < U64.
#[export] Instance is_usize_dec z : Decision (is_usize z).
Proof. unfold is_usize. apply _. Defined.

Definition uadd (a b : Z) : option Z := if a + b <? U64 then Some (a + b) else None.
Definition usub (a b : Z) : option Z := if b <=? a then Some (a - b) else None.
Definition umul (a b : Z) : option Z := if a * b <? U64 then Some (a * b) else None.
Definition wrapping_add (a b : Z) : Z := (a + b) mod U64.
Definition saturating_add (a b : Z) : Z := Z.min (a + b) (U64 - 1).
(** [saturating_add_signed]: clamps at both ends. *)
Definition saturating_add_signed (a b : Z) : Z := Z.max 0 (Z.min (a + b) (U64 - 1)).
(** [usize::div_ceil]. *)
Definition div_ceil (a b : Z) : Z := if a mod b =? 0 then a / b else a / b + 1.

Lemma uadd_Some a b c : uadd a b = Some c ↔ c = a + b ∧ a + b < U64.
Proof. unfold uadd. destruct (Z.ltb_spec (a + b) U64); naive_solver lia. Qed.
Lemma usub_Some a b c : usub a b = Some c ↔ c = a - b ∧ b ≤ a.
Proof. unfold usub. destruct (Z.leb_spec b a); naive_solver lia. Qed.
Lemma umul_Some a b c : umul a b = Some c ↔ c = a * b ∧ a * b < U64.
Proof. unfold umul. destruct (Z.ltb_spec (a * b) U64); naive_solver lia. Qed.

Lemma uadd_ok a b : a + b < U64 → uadd a b = Some (a + b).
Proof. intros. by apply uadd_Some. Qed.
Lemma usub_ok a b : b ≤ a → usub a b = Some (a - b).
Proof. intros. by apply usub_Some. Qed.
Lemma umul_ok a b : a * b < U64 → umul a b = Some (a * b).
Proof. intros. by apply umul_Some. Qed.

Lemma wrapping_add_small a b : 0 ≤ a + b < U64 → wrapping_add a b = a + b.
Proof. intros. unfold wrapping_add. by rewrite Z.mod_small. Qed.

Lemma div_ceil_spec a b : 0 < b → b * (div_ceil a b - 1) < a ≤ b * div_ceil a b.
Proof.
  intros Hb. unfold div_ceil.
  pose proof (Z.div_mod a b ltac:(lia)). pose proof (Z.mod_pos_bound a b Hb).
  destruct (Z.eqb_spec (a mod b) 0); nia.
Qed.

Lemma div_ceil_mul k b : 0 < b → div_ceil (k * b) b = k.
Proof. intros. unfold div_ceil. by rewrite Z.mod_mul, Z.div_mul by lia. Qed.

Lemma div_ceil_nonneg a b : 0 < b → 0 ≤ a → 0 ≤ div_ceil a b.
Proof. intros Hb Ha. pose proof (div_ceil_spec a b Hb). nia. Qed.

(** [lia] with quotients and remainders by constants. *)
Ltac dlia := Z.to_euclidean_division_equations; lia.

(** ** Slices

    [l[a..b]] panics unless [a <= b <= l.len()]. *)
Definition range_ok {A} (l : list A) (a b : Z) : bool :=
  (a <=? b) && (b <=? Z.of_nat (length l)).

Definition slice {A} (l : list A) (a b : Z) : option (list A) :=
  if range_ok l a b then Some (take (Z.to_nat (b - a)) (drop (Z.to_nat a) l)) else None.

(** [l[a..b].fill(v)]. *)
Definition fill_range {A} (l : list A) (a b : Z) (v : A) : option (list A) :=
  if range_ok l a b then
    Some (take (Z.to_nat a) l ++ replicate (Z.to_nat (b - a)) v ++ drop (Z.to_nat b) l)
  else None.

(** [l[a..b].copy_from_slice(src)], which also panics when the lengths differ. *)
Definition copy_into {A} (l : list A) (a b : Z) (src : list A) : option (list A) :=
  if range_ok l a b && (Z.of_nat (length src) =? b - a) then
    Some (take (Z.to_nat a) l ++ src ++ drop (Z.to_nat b) l)
  else None.

Lemma range_ok_true {A} (l : list A) a b :
  range_ok l a b = true ↔ a ≤ b ≤ Z.of_nat (length l).
Proof. unfold range_ok. rewrite andb_true_iff, Z.leb_le, Z.leb_le. done. Qed.

Section slice_lemmas.

Context {A : Type}.
Implicit Types (l : list A) (a b : Z) (v : A).

Lemma fill_range_Some l a b v : a ≤ b ≤ Z.of_nat (length l) →
  ∃ l', fill_range l a b v = Some l'.
Proof. intros H. unfold fill_range. rewrite (proj2 (range_ok_true _ _ _) H). eauto. Qed.

Lemma fill_range_spec l a b v l' : 0 ≤ a → fill_range l a b v = Some l' →
  a ≤ b ≤ Z.of_nat (length l) ∧ length l' = length l ∧
  ∀ k, l' !! k = if decide (a ≤ Z.of_nat k < b) then Some v else l !! k.
Proof.
  unfold fill_range. intros Ha.
  destruct (range_ok l a b) eqn:Hr; [|done]. intros [= <-].
  apply range_ok_true in Hr. split; [done|]. split.
  { rewrite !length_app, length_take, length_replicate, length_drop. lia. }
  intros k. case_decide as Hk.
  - rewrite lookup_app_r by (rewrite length_take; lia).
    rewrite lookup_app_l by (rewrite length_take, length_replicate; lia).
    apply lookup_replicate_2. rewrite length_take. lia.
  - destruct (decide (Z.of_nat k < a)).
    + rewrite lookup_app_l by (rewrite length_take; lia).
      rewrite lookup_take by lia. by rewrite decide_True by lia.
    + rewrite lookup_app_r by (rewrite length_take; lia).
      rewrite lookup_app_r by (rewrite length_take, length_replicate; lia).
      rewrite lookup_drop, length_take, length_replicate. f_equal. lia.
Qed.

Lemma slice_spec l a b l' : 0 ≤ a → slice l a b = Some l' →
  a ≤ b ≤ Z.of_nat (length l) ∧ Z.of_nat (length l') = b - a ∧
  ∀ k, Z.of_nat k < b - a → l' !! k = l !! (Z.to_nat a + k)%nat.
Proof.
  unfold slice. intros Ha.
  destruct (range_ok l a b) eqn:Hr; [|done]. intros [= <-].
  apply range_ok_true in Hr. split; [done|]. split.
  { rewrite length_take, length_drop. lia. }
  intros k Hk. rewrite lookup_take by lia. rewrite decide_True by lia.
  by rewrite lookup_drop.
Qed.
End slice_lemmas.

(** ** Automation

    [inv_run] takes apart a run of the state monad that ended in [Ok]. *)
Ltac inv_run :=
  repeat match goal with
  | H : (_ ≫= _) _ = Ok _ _ |- _ =>
      let a := fresh "v" in let s := fresh "st" in let H1 := fresh "Hrun" in
      apply bind_Ok in H as (a & s & H1 & H); cbn beta in H
  | H : lift _ _ = Ok _ _ |- _ => apply lift_Ok in H as [H ->]
  | H : mret _ _ = Ok _ _ |- _ => injection H as H; subst
  | H : get _ = Ok _ _ |- _ => injection H as H; subst
  | H : put _ _ = Ok _ _ |- _ => injection H as H; subst
  | H : throw _ _ = Ok _ _ |- _ => discriminate H
  | H : panic _ = Ok _ _ |- _ => discriminate H
  | H : undefined _ = Ok _ _ |- _ => discriminate H
  | H : out_of_fuel _ = Ok _ _ |- _ => discriminate H
  | H : uadd _ _ = Some _ |- _ => apply uadd_Some in H as [-> H]
  | H : usub _ _ = Some _ |- _ => apply usub_Some in H as [-> H]
  | H : umul _ _ = Some _ |- _ => apply umul_Some in H as [-> H]
  end.

(** [ends_steps] walks through the binds of a computation that is to end. *)
Ltac ends_steps :=
  repeat (apply bind_ends; [eauto with ends|intros ? ? ?]); eauto with ends.

(** [run] executes the binds at the head of a goal whose steps are known. *)
Ltac arith_step :=
  first [apply uadd_Some | apply usub_Some | apply umul_Some];
  split; [reflexivity | lia].
Ltac run_step :=
  erewrite bind_run by
    first [ reflexivity
          | eassumption
          | apply lift_Ok; split; [first [eassumption | arith_step] | reflexivity] ];
  cbv beta iota.
Ltac run := repeat run_step.
