(* ===== verification/BitField.v ===== *)
(** The [bitfield] crate's bit ranges, as an interface.

    [bitfield!] (used by the page table entries, the heap block headers, the
    cache metadata and the register types) expands to the crate's
    [bit_range(msb, lsb)] and [set_bit_range(msb, lsb, value)].  The crate is not
    part of the repository, so the model takes these two operations as a
    parameter, with the documented behaviour as laws: the getter returns the bits
    [msb..lsb] as a number, the setter replaces exactly those bits and ignores
    the bits of the value that do not fit. *)
From S2P Require Import Prelude.
From Stdlib Require Import Btauto.

Class BitField := {
  bit_range : Z → Z → Z → Z;             (* word msb lsb *)
  set_bit_range : Z → Z → Z → Z → Z;     (* word msb lsb value *)
  bit_range_law x msb lsb i : 0 ≤ lsb ≤ msb → 0 ≤ i →
    Z.testbit (bit_range x msb lsb) i = (i <=? msb - lsb) && Z.testbit x (i + lsb);
  set_bit_range_law x msb lsb v i : 0 ≤ lsb ≤ msb → 0 ≤ i →
    Z.testbit (set_bit_range x msb lsb v) i =
      if (lsb <=? i) && (i <=? msb) then Z.testbit v (i - lsb) else Z.testbit x i;
}.

(** The single-bit accessors the macro generates for a one-bit field. *)
Definition bit `{BitField} (x n : Z) : bool := Z.testbit (bit_range x n n) 0.
Definition set_bit `{BitField} (x n : Z) (b : bool) : Z := set_bit_range x n n (Z.b2z b).

(** The laws determine both operations; this is the instance used for closed
    computations. *)
Definition mask (msb lsb : Z) : Z := Z.shiftl (Z.ones (msb - lsb + 1)) lsb.

Definition concrete_bit_field : BitField.
Proof.
  refine {| bit_range x msb lsb := Z.land (Z.shiftr x lsb) (Z.ones (msb - lsb + 1));
            set_bit_range x msb lsb v :=
              Z.lor (Z.ldiff x (mask msb lsb)) (Z.land (Z.shiftl v lsb) (mask msb lsb)) |}.
  - intros x msb lsb i Hr Hi. rewrite Z.land_spec, Z.shiftr_spec by lia.
    rewrite Z.testbit_ones by lia. rewrite andb_comm. f_equal. lia.
  - intros x msb lsb v i Hr Hi. unfold mask.
    rewrite Z.lor_spec, Z.land_spec, Z.ldiff_spec, !Z.shiftl_spec by lia.
    destruct (Z.leb_spec lsb i).
    + rewrite Z.testbit_ones by lia.
      replace (0 <=? i - lsb) with true by lia. cbn.
      replace (i - lsb <? msb - lsb + 1) with (i <=? msb) by lia.
      destruct (i <=? msb); cbn; btauto.
    + rewrite !(Z.testbit_neg_r _ (i - lsb)) by lia. cbn. btauto.
Defined.

Section laws.

Context `{BF : BitField}.

Lemma bit_range_div_mod x msb lsb : 0 ≤ lsb ≤ msb →
  bit_range x msb lsb = (x / 2 ^ lsb) mod 2 ^ (msb - lsb + 1).
Proof.
  intros Hr. apply Z.bits_inj'. intros i Hi.
  rewrite bit_range_law by lia.
  destruct (Z.leb_spec i (msb - lsb)); cbn.
  - rewrite Z.mod_pow2_bits_low by lia. by rewrite Z.div_pow2_bits by lia.
  - by rewrite Z.mod_pow2_bits_high by lia.
Qed.

Lemma bit_range_bound x msb lsb : 0 ≤ lsb ≤ msb →
  0 ≤ bit_range x msb lsb < 2 ^ (msb - lsb + 1).
Proof.
  intros. rewrite bit_range_div_mod by done. apply Z.mod_pos_bound.
  apply Z.pow_pos_nonneg; lia.
Qed.

Lemma get_set_same x msb lsb v : 0 ≤ lsb ≤ msb →
  bit_range (set_bit_range x msb lsb v) msb lsb = v mod 2 ^ (msb - lsb + 1).
Proof.
  intros Hr. apply Z.bits_inj'. intros i Hi.
  rewrite bit_range_law, set_bit_range_law by lia.
  destruct (Z.leb_spec i (msb - lsb)); cbn.
  - rewrite Z.mod_pow2_bits_low by lia.
    replace ((lsb <=? i + lsb) && (i + lsb <=? msb)) with true by lia.
    f_equal. lia.
  - by rewrite Z.mod_pow2_bits_high by lia.
Qed.

Lemma get_set_other x msb lsb v msb' lsb' : 0 ≤ lsb ≤ msb → 0 ≤ lsb' ≤ msb' →
  msb' < lsb ∨ msb < lsb' →
  bit_range (set_bit_range x msb lsb v) msb' lsb' = bit_range x msb' lsb'.
Proof.
  intros Hr Hr' Hd. apply Z.bits_inj'. intros i Hi.
  rewrite !bit_range_law by lia.
  destruct (Z.leb_spec i (msb' - lsb')); cbn; [|done].
  rewrite set_bit_range_law by lia.
  by replace ((lsb <=? i + lsb') && (i + lsb' <=? msb)) with false by lia.
Qed.

Lemma bit_testbit x n : 0 ≤ n → bit x n = Z.testbit x n.
Proof. intros. unfold bit. rewrite bit_range_law by lia. replace (0 <=? n - n) with true by lia. done. Qed.

Lemma bit_set_range_other x msb lsb v n : 0 ≤ lsb ≤ msb → 0 ≤ n → n < lsb ∨ msb < n →
  bit (set_bit_range x msb lsb v) n = bit x n.
Proof. intros. unfold bit. by rewrite get_set_other by lia. Qed.

Lemma bit_set_bit_same x n b : 0 ≤ n → bit (set_bit x n b) n = b.
Proof.
  intros. unfold bit, set_bit. rewrite get_set_same by lia.
  replace (n - n + 1) with 1 by lia. by destruct b.
Qed.

Lemma bit_set_bit_other x n n' b : 0 ≤ n → 0 ≤ n' → n ≠ n' → bit (set_bit x n b) n' = bit x n'.
Proof. intros. apply bit_set_range_other; lia. Qed.

Lemma range_set_bit_other x n b msb lsb : 0 ≤ n → 0 ≤ lsb ≤ msb → n < lsb ∨ msb < n →
  bit_range (set_bit x n b) msb lsb = bit_range x msb lsb.
Proof. intros. apply get_set_other; lia. Qed.

Lemma bit_0 n : 0 ≤ n → bit 0 n = false.
Proof. intros. rewrite bit_testbit by done. apply Z.testbit_0_l. Qed.

Lemma bits_bound x n : 0 ≤ n → (∀ i, n ≤ i → Z.testbit x i = false) → 0 ≤ x < 2 ^ n.
Proof.
  intros Hn Hx. assert (x = x mod 2 ^ n) as ->.
  { apply Z.bits_inj'. intros i Hi. destruct (Z.lt_ge_cases i n).
    - by rewrite Z.mod_pow2_bits_low by lia.
    - rewrite Z.mod_pow2_bits_high by lia. by apply Hx. }
  apply Z.mod_pos_bound, Z.pow_pos_nonneg; lia.
Qed.

Lemma set_bit_range_bound x msb lsb v n : 0 ≤ lsb ≤ msb → msb < n → 0 ≤ x < 2 ^ n →
  0 ≤ set_bit_range x msb lsb v < 2 ^ n.
Proof.
  intros Hr Hn Hx. apply bits_bound; [lia|]. intros i Hi.
  rewrite set_bit_range_law by lia.
  replace ((lsb <=? i) && (i <=? msb)) with false by lia.
  destruct (decide (x = 0)) as [->|]; [apply Z.testbit_0_l|].
  apply Z.bits_above_log2; [lia|]. apply Z.log2_lt_pow2; [lia|].
  apply Z.lt_le_trans with (2 ^ n); [lia|]. apply Z.pow_le_mono_r; lia.
Qed.

Lemma set_bit_bound x k b n : 0 ≤ k < n → 0 ≤ x < 2 ^ n → 0 ≤ set_bit x k b < 2 ^ n.
Proof. intros. apply set_bit_range_bound; lia. Qed.
End laws.

(** Field accessors over a constructed word: push a getter through the setters. *)
Create Rewrite HintDb bits.
#[export] Hint Rewrite @get_set_same @bit_set_bit_same @get_set_other @bit_set_bit_other
  @range_set_bit_other @bit_set_range_other @bit_0 using lia : bits.
