(* ===== verification/Addresses.v ===== *)
(** Physical and virtual addresses and the memory errors: [kernel/src/memory/mod.rs],
    with the mapping errors of [kernel/src/memory/paging.rs].

    [PhysicalAddress] and [VirtualAddress] are transparent wrappers of [usize];
    both are integers here, with the checked, wrapping or saturating arithmetic
    of each method written out. *)
From S2P Require Import Prelude.
From Stdlib Require Strings.String.
Export Strings.String.StringSyntax.
Abbreviation string := String.string.
Open Scope Z_scope.

Definition PAGE_SIZE : Z := 4 * 1024.
(** Start of the canonical (identity) mapping of physical memory. *)
Definition CANONICAL : Z := 0xffff000000000000.

(** [lia] with the page size known. *)
Ltac plia := unfold PAGE_SIZE in *; lia.
Ltac pdlia := unfold PAGE_SIZE in *; dlia.
Ltac pnia := unfold PAGE_SIZE in *; nia.

Inductive MapError :=
  | RangeAlreadyMapped (virt_start page_count collision : Z)
  | MapRangeBadVirtualBase (reason : string) (virt_start : Z)
  | InsufficentMapSpace (page_count virt_start : Z)
  | InvalidTag
  | CopyFromUnmapped (last_valid : option Z) (remaining_bytes : Z).

Arguments MapRangeBadVirtualBase reason%_string_scope virt_start.

Inductive MemoryError :=
  | OutOfMemory
  | InsufficentForAllocation (size : Z)
  | Map (source : MapError).

Module PhysicalAddress.

Definition to_virtual_canonical (self : Z) : option Z := uadd self CANONICAL.
Definition is_page_aligned (self : Z) : bool := Z.land self (PAGE_SIZE - 1) =? 0.
Definition add (self byte_offset : Z) : Z := saturating_add self byte_offset.
Definition offset (self byte_offset : Z) : Z := saturating_add_signed self byte_offset.
End PhysicalAddress.

Module VirtualAddress.

Definition to_parts (self : Z) : Z * Z * Z * Z * Z * Z :=
  let tag := Z.shiftr (Z.land 0xffff000000000000 self) 48 in
  let lv0_index := Z.shiftr (Z.land (Z.shiftl 0x1ff 39) self) 39 in
  let lv1_index := Z.shiftr (Z.land (Z.shiftl 0x1ff 30) self) 30 in
  let lv2_index := Z.shiftr (Z.land (Z.shiftl 0x1ff 21) self) 21 in
  let lv3_index := Z.shiftr (Z.land (Z.shiftl 0x1ff 12) self) 12 in
  let page_offset := Z.land self 0xfff in
  (tag, lv0_index, lv1_index, lv2_index, lv3_index, page_offset).

Definition from_parts (tag l0 l1 l2 l3 offset : Z) : option Z :=
  if (tag <=? 0xffff) && (l0 <=? 0x1ff) && (l1 <=? 0x1ff) && (l2 <=? 0x1ff)
     && (l3 <=? 0x1ff) && (offset <=? 0x3ff)
  then Some (Z.lor (Z.lor (Z.lor (Z.lor (Z.lor (Z.shiftl tag 48) (Z.shiftl l0 39))
               (Z.shiftl l1 30)) (Z.shiftl l2 21)) (Z.shiftl l3 12)) offset)
  else None.

Definition to_physical_canonical (self : Z) : option Z := usub self CANONICAL.
(** [wrapping_add_signed] *)
Definition offset (self byte_offset : Z) : Z := wrapping_add self byte_offset.
Definition add (self byte_offset : Z) : Z := wrapping_add self byte_offset.
(** [<*mut u8>::align_offset], which panics unless the alignment is a power of two. *)
Definition align_offset (self alignment : Z) : option Z :=
  if alignment =? 2 ^ Z.log2 alignment then Some ((- self) mod alignment) else None.
End VirtualAddress.

(** *** The parts of an address as digits *)

Lemma field_div_mod a n k : 0 ≤ n → 0 ≤ k →
  Z.shiftr (Z.land (Z.shiftl (Z.ones k) n) a) n = (a / 2 ^ n) mod 2 ^ k.
Proof.
  intros. rewrite Z.shiftr_land, Z.shiftr_shiftl_l by lia.
  replace (n - n) with 0 by lia. rewrite Z.shiftl_0_r, Z.land_comm, Z.land_ones by lia.
  by rewrite Z.shiftr_div_pow2 by lia.
Qed.

Lemma to_parts_digits a : 0 ≤ a < U64 →
  VirtualAddress.to_parts a =
    (a / 2 ^ 48, (a / 2 ^ 39) mod 512, (a / 2 ^ 30) mod 512, (a / 2 ^ 21) mod 512,
     (a / 2 ^ 12) mod 512, a mod 4096).
Proof.
  intros Ha. unfold VirtualAddress.to_parts.
  change 0xffff000000000000 with (Z.shiftl (Z.ones 16) 48).
  change 0x1ff with (Z.ones 9). rewrite !field_div_mod by lia.
  change 0xfff with (Z.ones 12). rewrite Z.land_ones by lia.
  change (2 ^ 9) with 512. change (2 ^ 12) with 4096.
  rewrite (Z.mod_small (a / 2 ^ 48)); [done|].
  split; [apply Z.div_pos; lia|]. apply Z.div_lt_upper_bound; lia.
Qed.

(** Disjoint bit fields: or is sum. *)
Lemma lor_add a b n : 0 ≤ n → a mod 2 ^ n = 0 → 0 ≤ b < 2 ^ n → Z.lor a b = a + b.
Proof.
  intros Hn Ha Hb. rewrite Z.add_nocarry_lxor, Z.lxor_lor; [done|..];
    apply Z.bits_inj'; intros i Hi; rewrite Z.land_spec, Z.bits_0;
    (destruct (Z.lt_ge_cases i n);
      [rewrite <- (Z.mod_pow2_bits_low a n) by lia; by rewrite Ha, Z.bits_0|
       rewrite <- (Z.mod_small b (2 ^ n)) by lia;
       rewrite Z.mod_pow2_bits_high by lia; apply andb_false_r]).
Qed.

Lemma from_parts_sum tag l0 l1 l2 l3 offset :
  0 ≤ tag ≤ 0xffff → 0 ≤ l0 < 512 → 0 ≤ l1 < 512 → 0 ≤ l2 < 512 → 0 ≤ l3 < 512 →
  0 ≤ offset < 1024 →
  VirtualAddress.from_parts tag l0 l1 l2 l3 offset =
    Some (tag * 2 ^ 48 + l0 * 2 ^ 39 + l1 * 2 ^ 30 + l2 * 2 ^ 21 + l3 * 2 ^ 12 + offset).
Proof.
  intros. unfold VirtualAddress.from_parts.
  replace ((tag <=? 65535) && (l0 <=? 511) && (l1 <=? 511) && (l2 <=? 511)
       && (l3 <=? 511) && (offset <=? 1023)) with true by lia.
  f_equal. rewrite !Z.shiftl_mul_pow2 by lia.
  rewrite (lor_add _ (l0 * 2 ^ 39) 48) by dlia.
  rewrite (lor_add _ (l1 * 2 ^ 30) 39) by dlia.
  rewrite (lor_add _ (l2 * 2 ^ 21) 30) by dlia.
  rewrite (lor_add _ (l3 * 2 ^ 12) 21) by dlia.
  by rewrite (lor_add _ offset 12) by dlia.
Qed.

(** The digits determine the address. *)
Lemma digits_sum a : 0 ≤ a →
  a = a / 2 ^ 48 * 2 ^ 48 + (a / 2 ^ 39) mod 512 * 2 ^ 39 + (a / 2 ^ 30) mod 512 * 2 ^ 30
      + (a / 2 ^ 21) mod 512 * 2 ^ 21 + (a / 2 ^ 12) mod 512 * 2 ^ 12 + a mod 4096.
Proof. intros. dlia. Qed.

Lemma to_parts_bounds a t l0 l1 l2 l3 o : 0 ≤ a < U64 →
  VirtualAddress.to_parts a = (t, l0, l1, l2, l3, o) →
  0 ≤ t ≤ 0xffff ∧ 0 ≤ l0 < 512 ∧ 0 ≤ l1 < 512 ∧ 0 ≤ l2 < 512 ∧ 0 ≤ l3 < 512 ∧ 0 ≤ o < 4096.
Proof.
  intros Ha. rewrite to_parts_digits by done. intros [= <- <- <- <- <- <-]. dlia.
Qed.

(** *** Ranges of pages

    A range is its base address and its number of pages.  How often a list of ranges
    covers an address is what the allocators are specified with: it does not depend on the
    order of the list, and ranges are disjoint when no address is covered twice. *)
Definition covers (p : Z) (r : Z * Z) : Z :=
  if decide (r.1 ≤ p < r.1 + r.2 * PAGE_SIZE) then 1 else 0.
Definition cover_count (l : list (Z * Z)) (p : Z) : Z :=
  foldr (λ r acc, covers p r + acc) 0 l.

Arguments covers : simpl never.
Arguments cover_count : simpl never.

Definition ranges_disjoint (l : list (Z * Z)) : Prop :=
  ∀ i j a n b m, i ≠ j → l !! i = Some (a, n) → l !! j = Some (b, m) →
    a + n * PAGE_SIZE ≤ b ∨ b + m * PAGE_SIZE ≤ a.

Lemma covers_bound p r : 0 ≤ covers p r ≤ 1.
Proof. unfold covers. case_decide; lia. Qed.

Lemma covers_empty p a : covers p (a, 0) = 0.
Proof. unfold covers. cbn. case_decide; lia. Qed.

Lemma covers_split p a n m : 0 ≤ n → 0 ≤ m →
  covers p (a, n + m) = covers p (a, n) + covers p (a + n * PAGE_SIZE, m).
Proof. intros. unfold covers. cbn. repeat case_decide; pnia. Qed.

Lemma cover_count_nil p : cover_count [] p = 0.
Proof. done. Qed.
Lemma cover_count_cons r l p : cover_count (r :: l) p = covers p r + cover_count l p.
Proof. done. Qed.

Lemma cover_count_nonneg l p : 0 ≤ cover_count l p.
Proof. induction l as [|r l IH]; [done|]. rewrite cover_count_cons. pose proof (covers_bound p r). lia. Qed.

Lemma cover_count_app l k p : cover_count (l ++ k) p = cover_count l p + cover_count k p.
Proof. induction l as [|r l IH]; [done|]. rewrite <- app_comm_cons, !cover_count_cons, IH. lia. Qed.

Lemma cover_count_lookup l i r p : l !! i = Some r → covers p r ≤ cover_count l p.
Proof.
  intros H. apply list_elem_of_split_length in H as (l1 & l2 & -> & _).
  rewrite cover_count_app, cover_count_cons.
  pose proof (cover_count_nonneg l1 p). pose proof (cover_count_nonneg l2 p). lia.
Qed.

Lemma cover_count_two l i j r r' p : i ≠ j → l !! i = Some r → l !! j = Some r' →
  covers p r + covers p r' ≤ cover_count l p.
Proof.
  intros Hij Hi Hj. apply list_elem_of_split_length in Hi as (l1 & l2 & -> & ->).
  rewrite cover_count_app, cover_count_cons.
  pose proof (cover_count_nonneg l1 p). pose proof (cover_count_nonneg l2 p).
  destruct (decide (j < length l1)%nat).
  - rewrite lookup_app_l in Hj by lia. pose proof (cover_count_lookup _ _ _ p Hj). lia.
  - rewrite lookup_app_r in Hj by lia.
    destruct (j - length l1)%nat as [|k] eqn:Hk; [lia|]. cbn in Hj.
    pose proof (cover_count_lookup _ _ _ p Hj). lia.
Qed.

Lemma disjoint_of_cover l : Forall (λ r, 1 ≤ r.2) l → (∀ p, cover_count l p ≤ 1) →
  ranges_disjoint l.
Proof.
  intros Hn Hc i j a n b m Hij Hi Hj.
  pose proof (proj1 (Forall_lookup _ _) Hn _ _ Hi) as Hna.
  pose proof (proj1 (Forall_lookup _ _) Hn _ _ Hj) as Hnb. cbn in *.
  pose proof (cover_count_two _ _ _ _ _ (Z.max a b) Hij Hi Hj) as H2.
  specialize (Hc (Z.max a b)). unfold covers in H2. cbn in H2. repeat case_decide; plia.
Qed.

(** Taking a virtual address apart with [to_parts] and putting it together again
    with [from_parts] gives the address back when its page offset is below 0x400;
    for the other three quarters of every page the assertion
    [offset <= 0x3ff] panics although a page offset goes up to 0xfff. *)
Theorem from_parts_to_parts (a : Z) : is_usize a →
  (let '(tag, l0, l1, l2, l3, o) := VirtualAddress.to_parts a in
   VirtualAddress.from_parts tag l0 l1 l2 l3 o)
  = if a mod PAGE_SIZE <? 0x400 then Some a else None.
Proof.
  intros Ha. destruct (VirtualAddress.to_parts a) as [[[[[t l0] l1] l2] l3] o] eqn:Hp.
  destruct (to_parts_bounds a t l0 l1 l2 l3 o Ha Hp) as (Ht & H0 & H1 & H2 & H3 & Ho).
  rewrite to_parts_digits in Hp by done. injection Hp as <- <- <- <- <- <-.
  change PAGE_SIZE with 4096. destruct (Z.ltb_spec (a mod 4096) 0x400).
  - rewrite from_parts_sum by lia. by rewrite <- digits_sum by (destruct Ha; lia).
  - unfold VirtualAddress.from_parts.
    replace (a mod 4096 <=? 1023) with false by lia. by rewrite andb_false_r.
Qed.

Example from_parts_to_parts_witness :
  is_usize 0xffff000040201004 ∧
  (let '(tag, l0, l1, l2, l3, o) := VirtualAddress.to_parts 0xffff000040201004 in
   VirtualAddress.from_parts tag l0 l1 l2 l3 o)
  = if 0xffff000040201004 mod PAGE_SIZE <? 0x400 then Some 0xffff000040201004 else None.
Proof. split; [vm_compute; split; congruence | apply (from_parts_to_parts 0xffff000040201004); vm_compute; split; congruence]. Defined.
