(* ===== verification/PhysAlloc.v ===== *)
(** The physical page allocator: [kernel/src/memory/physical_memory_allocator.rs].

    The allocator is a bitmap with one bit per page of RAM ([bitvec]'s [BitSlice],
    a slice of booleans).  [alloc_contig] is a nest of loops over one shared
    iterator; the iterator is the pair of the next index and the bits left. *)
From S2P Require Import Prelude Addresses.

Record PhysicalMemoryAllocator := {
  allocated_pages : list bool;
  memory_start : Z;
  memory_length : Z;
}.

Definition set_pages (p : PhysicalMemoryAllocator) (l : list bool) : PhysicalMemoryAllocator :=
  {| allocated_pages := l; memory_start := memory_start p; memory_length := memory_length p |}.

Abbreviation PMA := (M PhysicalMemoryAllocator MemoryError).

(** *** The loops *)

(** [allocated_pages.iter_mut().enumerate()] *)
Definition PageIter : Type := Z * list bool.

(** "skip until an empty page": the index found and the iterator after it. *)
Fixpoint skip_allocated (i : Z) (bits : list bool) : option (Z * PageIter) :=
  match bits with
  | [] => None
  | true :: rest => skip_allocated (i + 1) rest
  | false :: rest => Some (i, (i + 1, rest))
  end.

(** "check to see if there are enough pages here": [for _ in 0..n]. *)
Inductive run_check :=
  | Enough                   (* the loop ran to its end *)
  | TooSmall (pi : PageIter) (* [continue 'top] *)
  | NoMorePages.             (* [pi.next()] is [None] *)

Fixpoint check_run (n : nat) (i : Z) (bits : list bool) : run_check :=
  match n with
  | O => Enough
  | S n' =>
      match bits with
      | [] => NoMorePages
      | true :: rest => TooSmall (i + 1, rest)
      | false :: rest => check_run n' (i + 1) rest
      end
  end.

(** The ['top] loop: where the run starts, or why there is none. *)
Inductive search :=
  | Exhausted            (* [Err(OutOfMemory)] *)
  | NotEnough            (* [Err(InsufficentForAllocation)] *)
  | Underflow            (* [page_count - 1] with no page asked for *)
  | Found (start_index : Z).

Fixpoint find_run (fuel : nat) (page_count : Z) (pi : PageIter) : option search :=
  match fuel with
  | O => None
  | S fuel' =>
      match skip_allocated pi.1 pi.2 with
      | None => Some Exhausted
      | Some (start_index, pi') =>
          match usub page_count 1 with
          | None => Some Underflow
          | Some n =>
              match check_run (Z.to_nat n) pi'.1 pi'.2 with
              | NoMorePages => Some NotEnough
              | TooSmall pi'' => find_run fuel' page_count pi''
              | Enough => Some (Found start_index)
              end
          end
      end
  end.

(** "mark them as allocated and return" *)
Definition mark_allocated (start_index page_count : Z) : PMA Z :=
  s ← get;
  e ← lift (uadd start_index page_count);
  pages ← lift (fill_range (allocated_pages s) start_index e true);
  put (set_pages s pages);;
  off ← lift (umul start_index PAGE_SIZE);
  lift (uadd (memory_start s) off).

Definition alloc_contig (page_count : Z) : PMA Z :=
  s ← get;
  match find_run (S (length (allocated_pages s))) page_count (0, allocated_pages s) with
  | None => out_of_fuel
  | Some Exhausted => throw OutOfMemory
  | Some Underflow => panic
  | Some NotEnough =>
      size ← lift (umul page_count PAGE_SIZE);
      throw (InsufficentForAllocation size)
  | Some (Found start_index) => mark_allocated start_index page_count
  end.

Definition alloc : PMA Z := alloc_contig 1.

(** The loop of [try_alloc_contig], [for i in ..]: the number of pages to take, or
    [None] when the pages run out. *)
Fixpoint probe_run (desired_page_count : Z) (n : nat) (i : Z) (bits : list bool) : option Z :=
  match n with
  | O => Some desired_page_count
  | S n' =>
      match bits with
      | [] => None
      | true :: _ => Some (i + 1)
      | false :: rest => probe_run desired_page_count n' (i + 1) rest
      end
  end.

Definition try_alloc_contig (desired_page_count : Z) : PMA (Z * Z) :=
  s ← get;
  match skip_allocated 0 (allocated_pages s) with
  | None => throw OutOfMemory
  | Some (start_index, pi) =>
      n ← lift (usub desired_page_count 1);
      match probe_run desired_page_count (Z.to_nat n) 0 pi.2 with
      | None =>
          size ← lift (umul desired_page_count PAGE_SIZE);
          throw (InsufficentForAllocation size)
      | Some actual_page_count =>
          addr ← mark_allocated start_index actual_page_count;
          mret (addr, actual_page_count)
      end
  end.

Definition free_pages (base_address page_count : Z) : PMA unit :=
  s ← get;
  off ← lift (usub base_address (memory_start s));
  let page_index := div_ceil off PAGE_SIZE in
  e ← lift (uadd page_index page_count);
  (* the double free check only logs *)
  _ ← lift (slice (allocated_pages s) page_index e);
  pages ← lift (fill_range (allocated_pages s) page_index e false);
  put (set_pages s pages).

Definition free (base_address : Z) : PMA unit := free_pages base_address 1.

(** [init], from the values read from the device tree ([memory_start],
    [memory_length], [size_of_blob]) and the linker symbols [__kernel_start] and
    [__kernel_end]; [None] is a panic. *)
Definition init (memory_start memory_length size_of_blob kernel_start_sym kernel_end_sym : Z)
    : option PhysicalMemoryAllocator :=
  kernel_start ← usub kernel_start_sym CANONICAL;
  kernel_end ← usub kernel_end_sym CANONICAL;
  let padding := if kernel_end mod 8 =? 0 then 0 else 8 - kernel_end mod 8 in
  let allocated_pages := replicate (Z.to_nat (memory_length / PAGE_SIZE)) false in
  let dtb_len_pages := size_of_blob / PAGE_SIZE in
  allocated_pages ← fill_range allocated_pages 0 dtb_len_pages true;
  ks ← usub kernel_start memory_start;
  let kernel_start_pages := div_ceil ks PAGE_SIZE in
  ke ← usub kernel_end memory_start;
  let kernel_end_pages := div_ceil ke PAGE_SIZE in
  _ ← usub kernel_end_pages kernel_start_pages;
  allocated_pages ← fill_range allocated_pages kernel_start_pages kernel_end_pages true;
  e ← uadd kernel_end_pages (div_ceil (memory_length / PAGE_SIZE / 8 + padding) PAGE_SIZE);
  allocated_pages ← fill_range allocated_pages kernel_end_pages e true;
  Some {| allocated_pages := allocated_pages; memory_start := memory_start;
          memory_length := memory_length |}.

(** ** Specification *)

(** Pages [i..i+n] exist and are free. *)
Definition free_run (l : list bool) (i n : Z) : Prop :=
  ∀ k : nat, i ≤ Z.of_nat k < i + n → l !! k = Some false.

(** The bitmap after pages [i..i+n] were given the value [b]. *)
Definition updated_run (l l' : list bool) (i n : Z) (b : bool) : Prop :=
  length l' = length l ∧
  ∀ k : nat, l' !! k = if decide (i ≤ Z.of_nat k < i + n) then Some b else l !! k.

(** RAM is page aligned, its pages have a bit each, and its addresses are [usize]s. *)
Record pma_wf (s : PhysicalMemoryAllocator) : Prop := {
  wf_length : Z.of_nat (length (allocated_pages s)) = memory_length s / PAGE_SIZE;
  wf_start : memory_start s mod PAGE_SIZE = 0;
  wf_nonneg : 0 ≤ memory_start s ∧ 0 ≤ memory_length s;
  wf_end : memory_start s + memory_length s ≤ U64 - 1;
}.

(** *** The loops, described by the bits they pass over *)

Lemma skip_allocated_spec bits i :
  match skip_allocated i bits with
  | None => ∃ m, bits = replicate m true
  | Some (j, (i', rest)) =>
      ∃ m, bits = replicate m true ++ false :: rest ∧ j = i + Z.of_nat m ∧ i' = j + 1
  end.
Proof.
  revert i. induction bits as [|[] bits IH]; intros i; cbn.
  - by exists O.
  - specialize (IH (i + 1)). destruct (skip_allocated (i + 1) bits) as [[j [i' rest]]|].
    + destruct IH as (m & -> & -> & ->). exists (S m). split_and!; [done|lia..].
    + destruct IH as (m & ->). by exists (S m).
  - exists O. split_and!; [done|lia..].
Qed.

Lemma check_run_spec n bits i :
  match check_run n i bits with
  | Enough => ∃ rest, bits = replicate n false ++ rest
  | TooSmall (i', rest) =>
      ∃ m, (m < n)%nat ∧ bits = replicate m false ++ true :: rest ∧ i' = i + Z.of_nat m + 1
  | NoMorePages => ∃ m, (m < n)%nat ∧ bits = replicate m false
  end.
Proof.
  revert i bits. induction n as [|n IH]; intros i bits; cbn; [by exists bits|].
  destruct bits as [|[] bits].
  - exists O. split; [lia|done].
  - exists O. split_and!; [lia|done|lia].
  - specialize (IH (i + 1) bits). destruct (check_run n (i + 1) bits) as [|[i' rest]|].
    + destruct IH as (rest & ->). by exists rest.
    + destruct IH as (m & ? & -> & ->). exists (S m). split_and!; [lia|done|lia].
    + destruct IH as (m & ? & ->). exists (S m). split_and!; [lia|done].
Qed.

Lemma probe_run_spec d n bits i :
  match probe_run d n i bits with
  | None => ∃ m, (m < n)%nat ∧ bits = replicate m false
  | Some c =>
      (c = d ∧ ∃ rest, bits = replicate n false ++ rest) ∨
      (∃ m rest, (m < n)%nat ∧ bits = replicate m false ++ true :: rest ∧
                 c = i + Z.of_nat m + 1)
  end.
Proof.
  revert i bits. induction n as [|n IH]; intros i bits; cbn; [left; eauto|].
  destruct bits as [|[] bits].
  - exists O. split; [lia|done].
  - right. exists O, bits. split_and!; [lia|done|lia].
  - specialize (IH (i + 1) bits). destruct (probe_run d n (i + 1) bits) as [c|].
    + destruct IH as [(-> & rest & ->) | (m & rest & ? & -> & ->)]; [left; eauto|].
      right. exists (S m), rest. split_and!; [lia|done|lia].
    + destruct IH as (m & ? & ->). exists (S m). split_and!; [lia|done].
Qed.

(** *** Runs of free pages *)

Lemma not_free_run l i n (q : nat) :
  i ≤ Z.of_nat q < i + n → l !! q ≠ Some false → ¬ free_run l i n.
Proof. intros Hq Hl Hr. by apply Hl, Hr. Qed.

(** The bitmap around the point the search has reached. *)
Lemma lookup_mid {A} (pre : list A) x n y rest :
  (pre ++ replicate n x ++ y :: rest) !! (length pre + n)%nat = Some y.
Proof.
  rewrite lookup_app_r by lia. replace (length pre + n - length pre)%nat with n by lia.
  by rewrite lookup_app_r, length_replicate, Nat.sub_diag by (rewrite length_replicate; lia).
Qed.

Lemma lookup_run {A} (pre : list A) x n rest (k : nat) :
  (length pre ≤ k < length pre + n)%nat → (pre ++ replicate n x ++ rest) !! k = Some x.
Proof.
  intros Hk. rewrite lookup_app_r by lia.
  rewrite lookup_app_l by (rewrite length_replicate; lia). apply lookup_replicate_2. lia.
Qed.

Lemma free_run_mid pre n rest :
  free_run (pre ++ replicate n false ++ rest) (Z.of_nat (length pre)) (Z.of_nat n).
Proof. intros k Hk. apply lookup_run. lia. Qed.

(** Nothing that starts inside allocated pages is free. *)
Lemma no_run_in_allocated pre m rest n j :
  1 ≤ n → Z.of_nat (length pre) ≤ j < Z.of_nat (length pre + m) →
  ¬ free_run (pre ++ replicate m true ++ rest) j n.
Proof.
  intros Hn Hj. apply (not_free_run _ _ _ (Z.to_nat j)); [lia|].
  rewrite lookup_run by lia. congruence.
Qed.

Definition no_run_before (l : list bool) (i n : Z) : Prop :=
  ∀ j, 0 ≤ j < i → ¬ free_run l j n.

Lemma no_run_ge l i n j : 1 ≤ n → Z.of_nat (length l) < i + n → i ≤ j → 0 ≤ i → ¬ free_run l j n.
Proof.
  intros Hn Hl Hj Hi. apply (not_free_run _ _ _ (Z.to_nat (j + n - 1))); [lia|].
  rewrite lookup_ge_None_2 by lia. congruence.
Qed.

Lemma no_run_before_allocated l pre m rest n :
  1 ≤ n → l = pre ++ replicate m true ++ rest →
  no_run_before l (Z.of_nat (length pre)) n → no_run_before l (Z.of_nat (length pre + m)) n.
Proof.
  intros Hn -> Hno j Hj. destruct (Z.lt_ge_cases j (Z.of_nat (length pre))).
  - apply Hno. lia.
  - apply no_run_in_allocated; lia.
Qed.

(** A run that was cut short by an allocated page: no start up to that page fits. *)
Lemma no_run_before_short l pre m rest n :
  Z.of_nat m < n → l = pre ++ replicate m false ++ true :: rest →
  no_run_before l (Z.of_nat (length pre)) n →
  no_run_before l (Z.of_nat (length pre + m + 1)) n.
Proof.
  intros Hm -> Hno j Hj. destruct (Z.lt_ge_cases j (Z.of_nat (length pre))).
  - apply Hno. lia.
  - apply (not_free_run _ _ _ (length pre + m)%nat); [lia|]. rewrite lookup_mid. congruence.
Qed.

Lemma no_run_all l i n : 1 ≤ n → 0 ≤ i → Z.of_nat (length l) < i + n →
  no_run_before l i n → ∀ j, 0 ≤ j → ¬ free_run l j n.
Proof.
  intros Hn Hi Hl Hno j Hj. destruct (Z.lt_ge_cases j i); [apply Hno; lia|].
  by eapply no_run_ge.
Qed.

Definition search_ok (l : list bool) (n : Z) (r : option search) : Prop :=
  match r with
  | Some (Found i) => 0 ≤ i ∧ free_run l i n ∧ no_run_before l i n
  | Some Exhausted | Some NotEnough => ∀ j, 0 ≤ j → ¬ free_run l j n
  | Some Underflow | None => False
  end.

Lemma found_run pre m n rest : 1 ≤ n →
  free_run (pre ++ replicate m true ++ false :: replicate (Z.to_nat (n - 1)) false ++ rest)
    (Z.of_nat (length pre) + Z.of_nat m) n.
Proof.
  intros Hn. rewrite (app_assoc pre).
  replace (false :: replicate (Z.to_nat (n - 1)) false ++ rest)
    with (replicate (Z.to_nat n) false ++ rest).
  - pose proof (free_run_mid (pre ++ replicate m true) (Z.to_nat n) rest) as Hr.
    rewrite length_app, length_replicate, Nat2Z.inj_add, Z2Nat.id in Hr by lia. exact Hr.
  - replace (Z.to_nat n) with (S (Z.to_nat (n - 1))) by lia. done.
Qed.

(** The ['top] loop finds the first run, and the bitmap's length bounds its rounds. *)
Lemma find_run_spec fuel l pre bits n :
  1 ≤ n → (length bits < fuel)%nat → l = pre ++ bits →
  no_run_before l (Z.of_nat (length pre)) n →
  search_ok l n (find_run fuel n (Z.of_nat (length pre), bits)).
Proof.
  intros Hn. revert pre bits. induction fuel as [|fuel IH]; intros pre bits Hf Hl Hno; [lia|].
  cbn [find_run fst snd]. pose proof (skip_allocated_spec bits (Z.of_nat (length pre))) as Hs.
  destruct (skip_allocated _ bits) as [[st [i rest]]|]; cbn [fst snd].
  - destruct Hs as (m & -> & -> & ->).
    apply (no_run_before_allocated _ _ m (false :: rest)) in Hno; [|done..].
    replace (usub n 1) with (Some (n - 1)) by (symmetry; apply usub_Some; lia).
    pose proof (check_run_spec (Z.to_nat (n - 1)) rest (Z.of_nat (length pre) + Z.of_nat m + 1))
      as Hc.
    destruct (check_run _ _ rest) as [|[i' rest']|].
    + destruct Hc as (rest' & ->). cbn. rewrite Nat2Z.inj_add in Hno.
      split; [lia|]. split; [|done]. rewrite Hl. by apply found_run.
    + destruct Hc as (m' & Hm' & -> & ->).
      set (pre' := (pre ++ replicate m true) ++ replicate (S m') false ++ [true]).
      assert (length pre' = length pre + m + S m' + 1)%nat as Hlen.
      { unfold pre'. rewrite !length_app, !length_replicate. cbn. lia. }
      replace (_ + 1) with (Z.of_nat (length pre')) by lia.
      apply IH; [| rewrite Hl; unfold pre'; by rewrite <- !app_assoc |].
      * rewrite !length_app in Hf. cbn in Hf. rewrite length_app in Hf. cbn in Hf. lia.
      * rewrite Hlen. rewrite <- (length_replicate m true), <- length_app in Hno |- *.
        apply (no_run_before_short _ _ _ rest'); [lia| |exact Hno].
        rewrite Hl. by rewrite <- !app_assoc.
    + destruct Hc as (m' & Hm' & ->). cbn. eapply no_run_all; [done| | |exact Hno]; [lia|].
      rewrite Hl, !length_app, length_replicate. cbn. rewrite length_replicate. lia.
  - destruct Hs as (m & ->). cbn. apply (no_run_all _ (Z.of_nat (length pre + m))); [lia..| |].
    + rewrite Hl, length_app, length_replicate. lia.
    + apply (no_run_before_allocated _ _ m []); [done| |exact Hno]. by rewrite app_nil_r.
Qed.

(** *** The operations *)

Lemma free_run_in_range l i n : 1 ≤ n → 0 ≤ i → free_run l i n → i + n ≤ Z.of_nat (length l).
Proof.
  intros Hn Hi Hr. specialize (Hr (Z.to_nat (i + n - 1)) ltac:(lia)).
  apply lookup_lt_Some in Hr. lia.
Qed.

Lemma wf_index s i : pma_wf s → 0 ≤ i ≤ Z.of_nat (length (allocated_pages s)) →
  i < U64 ∧ i * PAGE_SIZE < U64 ∧ memory_start s + i * PAGE_SIZE < U64.
Proof. intros [Hl _ Hn He] Hi. pdlia. Qed.

Lemma mark_allocated_spec s i n : pma_wf s → 0 ≤ i → 0 ≤ n →
  i + n ≤ Z.of_nat (length (allocated_pages s)) →
  ∃ l', mark_allocated i n s = Ok (memory_start s + i * PAGE_SIZE) (set_pages s l') ∧
        updated_run (allocated_pages s) l' i n true.
Proof.
  intros Hwf Hi Hn Hr. destruct (fill_range_Some (allocated_pages s) i (i + n) true) as [l' Hl'];
    [lia|].
  pose proof (wf_index s (i + n) Hwf ltac:(lia)). pose proof (wf_index s i Hwf ltac:(lia)).
  exists l'. split; [|by apply fill_range_spec in Hl' as (_ & ? & ?)].
  unfold mark_allocated. run. apply lift_Ok. split; [arith_step|done].
Qed.

Lemma updated_run_wf s l' i n b : pma_wf s → updated_run (allocated_pages s) l' i n b →
  pma_wf (set_pages s l').
Proof. intros [Hl Ha Hn He] [Hlen _]. split; cbn; try done. by rewrite Hlen. Qed.

(** What a call of [alloc_contig] may do. *)
Definition first_fit (s : PhysicalMemoryAllocator) (n a : Z) (s' : PhysicalMemoryAllocator) : Prop :=
  ∃ i l', a = memory_start s + i * PAGE_SIZE ∧ 0 ≤ i ∧
    free_run (allocated_pages s) i n ∧ no_run_before (allocated_pages s) i n ∧
    s' = set_pages s l' ∧ updated_run (allocated_pages s) l' i n true.

Lemma alloc_contig_search s n : 1 ≤ n →
  search_ok (allocated_pages s) n
    (find_run (S (length (allocated_pages s))) n (0, allocated_pages s)).
Proof. intros Hn. apply (find_run_spec _ _ [] _ n); [done|lia|done|]. intros j Hj. cbn in Hj. lia. Qed.

Lemma alloc_contig_found s n i : pma_wf s → 1 ≤ n →
  find_run (S (length (allocated_pages s))) n (0, allocated_pages s) = Some (Found i) →
  ∃ a s', alloc_contig n s = Ok a s' ∧ first_fit s n a s'.
Proof.
  intros Hwf Hn Hf. pose proof (alloc_contig_search s n Hn) as Ho. rewrite Hf in Ho.
  destruct Ho as (Hi & Hr & Hno).
  destruct (mark_allocated_spec s i n Hwf Hi ltac:(lia)) as (l' & Hm & Hu).
  { by apply free_run_in_range. }
  eexists _, _. split; [|by exists i, l']. unfold alloc_contig. run. by rewrite Hf.
Qed.

Lemma find_run_Found fuel n pi i : find_run fuel n pi = Some (Found i) → 1 ≤ n.
Proof.
  destruct fuel; cbn; [done|]. destruct (skip_allocated _ _) as [[]|]; [|done].
  destruct (usub n 1) eqn:Hu; [|done]. apply usub_Some in Hu. lia.
Qed.

Lemma alloc_contig_Ok s n a s' : pma_wf s → alloc_contig n s = Ok a s' →
  1 ≤ n ∧ first_fit s n a s'.
Proof.
  intros Hwf H. destruct (find_run (S (length (allocated_pages s))) n (0, allocated_pages s))
    as [[| | |i]|] eqn:Hf; unfold alloc_contig in H;
    (erewrite bind_run in H by done); rewrite Hf in H; inv_run.
  pose proof (find_run_Found _ _ _ _ Hf) as Hn.
  destruct (alloc_contig_found s n i Hwf Hn Hf) as (a' & s'' & Ha & Hff).
  unfold alloc_contig in Ha. erewrite bind_run in Ha by done. rewrite Hf in Ha.
  rewrite H in Ha. injection Ha as <- <-. done.
Qed.

Lemma first_fit_wf s n a s' : pma_wf s → first_fit s n a s' → pma_wf s'.
Proof. intros Hwf (i & l' & _ & _ & _ & _ & -> & Hu). by eapply updated_run_wf. Qed.

Lemma free_pages_spec s i n : pma_wf s → 0 ≤ i → 0 ≤ n →
  i + n ≤ Z.of_nat (length (allocated_pages s)) →
  ∃ l', free_pages (memory_start s + i * PAGE_SIZE) n s = Ok tt (set_pages s l') ∧
        updated_run (allocated_pages s) l' i n false.
Proof.
  intros Hwf Hi Hn Hr. destruct (fill_range_Some (allocated_pages s) i (i + n) false) as [l' Hl'];
    [lia|].
  pose proof (wf_index s (i + n) Hwf ltac:(lia)). pose proof (wf_index s i Hwf ltac:(lia)).
  exists l'. split; [|by apply fill_range_spec in Hl' as (_ & ? & ?)].
  assert (∃ b, slice (allocated_pages s) i (i + n) = Some b) as [b Hb].
  { unfold slice. rewrite (proj2 (range_ok_true _ i (i + n))) by lia. eauto. }
  unfold free_pages. erewrite bind_run by done.
  assert (lift (E:=MemoryError) (usub (memory_start s + i * PAGE_SIZE) (memory_start s)) s
          = Ok (i * PAGE_SIZE) s) as Hs.
  { apply lift_Ok. split; [|done]. apply usub_Some. pose proof (wf_nonneg s Hwf). plia. }
  erewrite bind_run by exact Hs. rewrite div_ceil_mul by plia. run. done.
Qed.

Lemma updated_run_undo l l1 l2 i n : free_run l i n →
  updated_run l l1 i n true → updated_run l1 l2 i n false → l2 = l.
Proof.
  intros Hr [_ H1] [_ H2]. apply list_eq. intros k. rewrite H2, H1.
  case_decide as Hk; [|done]. by rewrite Hr.
Qed.

(** *** Clients of the allocator

    The ranges handed out and not yet returned, as a history variable. *)
Inductive pma_step :
    PhysicalMemoryAllocator * list (Z * Z) → PhysicalMemoryAllocator * list (Z * Z) → Prop :=
  | step_alloc s live n a s' :
      alloc_contig n s = Ok a s' → pma_step (s, live) (s', (a, n) :: live)
  | step_try_alloc s live d a n s' :
      try_alloc_contig d s = Ok (a, n) s' → pma_step (s, live) (s', (a, n) :: live)
  | step_free s live1 a n live2 s' :
      free_pages a n s = Ok tt s' →
      pma_step (s, live1 ++ (a, n) :: live2) (s', live1 ++ live2).

Definition page_bit (s : PhysicalMemoryAllocator) (p : Z) : Z :=
  if decide (memory_start s ≤ p ∧
             allocated_pages s !! Z.to_nat ((p - memory_start s) / PAGE_SIZE) = Some true)
  then 1 else 0.

(** A live range lies in RAM. *)
Definition range_in (s : PhysicalMemoryAllocator) (r : Z * Z) : Prop :=
  ∃ i, r.1 = memory_start s + i * PAGE_SIZE ∧ 0 ≤ i ∧ 1 ≤ r.2 ∧
       i + r.2 ≤ Z.of_nat (length (allocated_pages s)).

Record live_inv (s : PhysicalMemoryAllocator) (live : list (Z * Z)) : Prop := {
  li_wf : pma_wf s;
  li_in : Forall (range_in s) live;
  li_cover : ∀ p, cover_count live p ≤ page_bit s p;
}.

(** The bit of an address after pages [i..i+n] were given the value [b]. *)
Lemma page_bit_updated s l' i n b p : 0 ≤ i → updated_run (allocated_pages s) l' i n b →
  page_bit (set_pages s l') p =
    if decide (memory_start s + i * PAGE_SIZE ≤ p < memory_start s + i * PAGE_SIZE + n * PAGE_SIZE)
    then Z.b2z b else page_bit s p.
Proof.
  intros Hi [_ Hu]. unfold page_bit. cbn. rewrite Hu.
  set (k := Z.to_nat ((p - memory_start s) / PAGE_SIZE)).
  destruct (decide (memory_start s ≤ p)).
  2: { rewrite !decide_False by (intros ?; plia). done. }
  destruct (decide (_ ≤ p < _)) as [Hp|Hp].
  - assert (i ≤ Z.of_nat k < i + n) by (unfold k; pdlia).
    rewrite (decide_True (P := i ≤ Z.of_nat k < i + n)) by done.
    destruct b; [by apply decide_True|by apply decide_False; intros []].
  - assert (¬ (i ≤ Z.of_nat k < i + n)) by (unfold k; pdlia).
    by rewrite (decide_False (P := i ≤ Z.of_nat k < i + n)) by done.
Qed.

Lemma range_in_set_pages s l' r : length l' = length (allocated_pages s) →
  range_in s r → range_in (set_pages s l') r.
Proof. intros Hl (i & ? & ? & ? & ?). exists i. cbn. rewrite Hl. done. Qed.

(** Taking a free run keeps the live ranges apart. *)
Lemma live_inv_alloc s live i n l' : live_inv s live → 0 ≤ i → 1 ≤ n →
  free_run (allocated_pages s) i n → updated_run (allocated_pages s) l' i n true →
  live_inv (set_pages s l') ((memory_start s + i * PAGE_SIZE, n) :: live).
Proof.
  intros [Hwf Hin Hc] Hi Hn Hr Hu. split.
  - by eapply updated_run_wf.
  - constructor.
    + exists i. cbn. destruct Hu as [-> _]. split_and!; [done..|]. by apply free_run_in_range.
    + eapply Forall_impl; [exact Hin|]. intros r. apply range_in_set_pages, Hu.
  - intros p. rewrite (page_bit_updated _ _ _ _ _ _ Hi Hu), cover_count_cons. unfold covers. cbn.
    specialize (Hc p). case_decide as Hp; [|lia].
    assert (page_bit s p = 0) as H0; [|cbn; lia].
    unfold page_bit. apply decide_False. intros [? Hb].
    rewrite Hr in Hb by pdlia. done.
Qed.

Lemma live_inv_free s live1 live2 a n s' : live_inv s (live1 ++ (a, n) :: live2) →
  free_pages a n s = Ok tt s' → live_inv s' (live1 ++ live2).
Proof.
  intros [Hwf Hin Hc] Hf. apply Forall_app in Hin as [Hin1 [Ha Hin2]%Forall_cons].
  destruct Ha as (i & Ha & Hi & Hn & Hr). cbn in *. subst a.
  destruct (free_pages_spec s i n) as (l' & Hf' & Hu); [done|lia..|].
  rewrite Hf in Hf'. injection Hf' as ->. split.
  - by eapply updated_run_wf.
  - apply Forall_app. split; (eapply Forall_impl; [eassumption|]);
      intros r; apply range_in_set_pages, Hu.
  - intros p. rewrite (page_bit_updated _ _ _ _ _ _ Hi Hu). specialize (Hc p).
    rewrite cover_count_app in *. rewrite cover_count_cons in Hc. unfold covers in Hc. cbn in Hc.
    case_decide as Hp; cbn; [|lia]. unfold page_bit in Hc. case_decide; lia.
Qed.

(** *** [try_alloc_contig] and [init] *)

Definition first_free (l : list bool) (i : Z) : Prop :=
  0 ≤ i ∧ l !! Z.to_nat i = Some false ∧ ∀ k : nat, Z.of_nat k < i → l !! k = Some true.

Lemma first_free_mid m rest : first_free (replicate m true ++ false :: rest) (Z.of_nat m).
Proof.
  split; [lia|]. split.
  - rewrite Nat2Z.id. apply (lookup_mid [] true m false rest).
  - intros k Hk. apply (lookup_run [] true m (false :: rest)). cbn. lia.
Qed.

(** What a call of [try_alloc_contig] may do: take the free run at the first free page,
    up to the length wanted; when that run is too short and ends where RAM ends, fail.
    A count of zero, or one whose size in bytes does not fit a [usize], may panic. *)
Definition first_run (s : PhysicalMemoryAllocator) (d : Z)
    (r : res PhysicalMemoryAllocator MemoryError (Z * Z)) : Prop :=
  let l := allocated_pages s in
  match r with
  | Ok (a, c) s' =>
      ∃ i l', a = memory_start s + i * PAGE_SIZE ∧ first_free l i ∧ 1 ≤ c ≤ d ∧
        free_run l i c ∧ (c = d ∨ l !! Z.to_nat (i + c) = Some true) ∧
        s' = set_pages s l' ∧ updated_run l l' i c true
  | Err OutOfMemory s' => s' = s ∧ ∀ k b, l !! k = Some b → b = true
  | Err (InsufficentForAllocation size) s' =>
      s' = s ∧ size = d * PAGE_SIZE ∧
      ∃ i, first_free l i ∧ free_run l i (Z.of_nat (length l) - i) ∧ Z.of_nat (length l) - i < d
  | Stop Panic => d < 1 ∨ U64 ≤ d * PAGE_SIZE
  | Err (Map _) _ | Stop _ => False
  end.

Lemma try_alloc_taken s i c d : pma_wf s → first_free (allocated_pages s) i → 1 ≤ c ≤ d →
  free_run (allocated_pages s) i c →
  (c = d ∨ allocated_pages s !! Z.to_nat (i + c) = Some true) →
  first_run s d ((addr ← mark_allocated i c; mret (addr, c)) s).
Proof.
  intros Hwf [Hi Hff] Hc Hr Hmax.
  destruct (mark_allocated_spec s i c Hwf Hi ltac:(lia)) as (l' & Hm & Hu).
  { apply free_run_in_range; [lia|done..]. }
  erewrite bind_run by exact Hm. exists i, l'. repeat (split; [done|]). done.
Qed.

Lemma try_alloc_contig_run s d : pma_wf s → first_run s d (try_alloc_contig d s).
Proof.
  intros Hwf. unfold try_alloc_contig. erewrite bind_run by done.
  pose proof (skip_allocated_spec (allocated_pages s) 0) as Hs.
  destruct (skip_allocated 0 (allocated_pages s)) as [[i [i' rest]]|]; cbn [fst snd].
  - destruct Hs as (m & Hl & -> & _).
    destruct (usub d 1) as [d'|] eqn:Hd.
    2: { left. unfold usub in Hd. destruct (Z.leb_spec 1 d); [done|lia]. }
    apply usub_Some in Hd as [-> Hd]. erewrite bind_run by done.
    pose proof (first_free_mid m rest) as Hff. rewrite <- Hl in Hff.
    pose proof (probe_run_spec d (Z.to_nat (d - 1)) rest 0) as Hp.
    destruct (probe_run d _ 0 rest) as [c|].
    + destruct Hp as [(-> & rest' & ->) | (m' & rest' & Hm' & -> & ->)];
        apply try_alloc_taken; try done; try lia; rewrite Hl.
      * apply (found_run [] m d rest'). lia.
      * pose proof (found_run [] m (0 + Z.of_nat m' + 1) (true :: rest') ltac:(lia)) as Hr.
        by replace (Z.to_nat (0 + Z.of_nat m' + 1 - 1)) with m' in Hr by lia.
      * right. pose proof (lookup_mid (replicate m true) false (S m') true rest') as Hb.
        rewrite length_replicate in Hb.
        by replace (Z.to_nat _) with (m + S m')%nat by lia.
    + destruct Hp as (m' & Hm' & ->).
      destruct (umul d PAGE_SIZE) as [sz|] eqn:Hov.
      2: { right. unfold umul in Hov. destruct (Z.ltb_spec (d * PAGE_SIZE) U64); [done|lia]. }
      apply umul_Some in Hov as [-> Hov]. erewrite bind_run by done. cbn. split; [done|]. split; [done|].
      exists (Z.of_nat m). split; [done|]. rewrite Hl at 1 2 3.
      rewrite length_app, length_replicate. cbn [length]. rewrite length_replicate.
      split; [|lia].
      pose proof (found_run [] m (Z.of_nat m' + 1) [] ltac:(lia)) as Hr.
      rewrite app_nil_r in Hr. replace (Z.to_nat (Z.of_nat m' + 1 - 1)) with m' in Hr by lia.
      cbn in Hr. by replace (Z.of_nat (m + S m') - Z.of_nat m) with (Z.of_nat m' + 1) by lia.
  - destruct Hs as (m & Hl). cbn. split; [done|]. intros k b. rewrite Hl.
    by intros [-> _]%lookup_replicate_1.
Qed.

Lemma live_inv_step c c' : pma_step c c' → live_inv c.1 c.2 → live_inv c'.1 c'.2.
Proof.
  intros Hst Hinv. destruct Hst as [s live n a s' Ha|s live d a n s' Ha|s live1 a n live2 s' Hf].
  - apply alloc_contig_Ok in Ha as (Hn & i & l' & -> & Hi & Hr & _ & -> & Hu); [|apply Hinv].
    by apply live_inv_alloc.
  - pose proof (try_alloc_contig_run s d (li_wf _ _ Hinv)) as Ho. rewrite Ha in Ho.
    destruct Ho as (i & l' & -> & [Hi _] & Hn & Hr & _ & -> & Hu).
    apply live_inv_alloc; try done. lia.
  - by eapply live_inv_free.
Qed.

Lemma live_inv_steps c c' : rtc pma_step c c' → live_inv c.1 c.2 → live_inv c'.1 c'.2.
Proof. induction 1; [done|]. eauto using live_inv_step. Qed.

Lemma page_bit_bound s p : 0 ≤ page_bit s p ≤ 1.
Proof. unfold page_bit. case_decide; lia. Qed.

(** The bitmap [init] builds: the fills in order. *)
Lemma init_inv ms len blob ks ke p : init ms len blob ks ke = Some p →
  let ks' := ks - CANONICAL in let ke' := ke - CANONICAL in
  let padding := if ke' mod 8 =? 0 then 0 else 8 - ke' mod 8 in
  let bitmap := div_ceil (len / PAGE_SIZE / 8 + padding) PAGE_SIZE in
  let ksp := div_ceil (ks' - ms) PAGE_SIZE in let kep := div_ceil (ke' - ms) PAGE_SIZE in
  ms ≤ ks' ∧ ms ≤ ke' ∧ memory_start p = ms ∧ memory_length p = len ∧
  ∃ l1 l2, fill_range (replicate (Z.to_nat (len / PAGE_SIZE)) false) 0 (blob / PAGE_SIZE) true
             = Some l1 ∧
           fill_range l1 ksp kep true = Some l2 ∧
           fill_range l2 kep (kep + bitmap) true = Some (allocated_pages p).
Proof.
  unfold init. intros H.
  repeat (apply bind_Some in H as (? & ? & H); inv_run).
  injection H as <-. cbn. split_and!; try done. eauto.
Qed.

Lemma fill_range_true l a b l' k : 0 ≤ a → fill_range l a b true = Some l' →
  l !! k = Some true ∨ a ≤ Z.of_nat k < b → l' !! k = Some true.
Proof. intros Ha (_ & _ & ->)%fill_range_spec [H|H]; [case_decide; done|by rewrite decide_True|done]. Qed.

(** ** Properties *)

(** [alloc_contig] always returns.  It hands out the first run of [page_count] free
    pages and marks exactly those pages; it fails, leaving the bitmap alone, only when
    there is no such run anywhere. *)
Theorem alloc_contig_first_fit (s : PhysicalMemoryAllocator) (n : Z) :
  pma_wf s → 1 ≤ n → n * PAGE_SIZE < U64 →
  match alloc_contig n s with
  | Ok a s' => first_fit s n a s' ∧ pma_wf s'
  | Err e s' =>
      s' = s ∧ (∀ j, 0 ≤ j → ¬ free_run (allocated_pages s) j n) ∧
      (e = OutOfMemory ∨ e = InsufficentForAllocation (n * PAGE_SIZE))
  | Stop _ => False
  end.
Proof.
  intros Hwf Hn Hov. pose proof (alloc_contig_search s n Hn) as Ho.
  destruct (find_run _ n _) as [[| | |i]|] eqn:Hf; cbn in Ho; try done.
  1-2: unfold alloc_contig; run; rewrite Hf; run; cbn; auto.
  destruct (alloc_contig_found s n i Hwf Hn Hf) as (a & s' & -> & Hff).
  split; [done|]. by eapply first_fit_wf.
Qed.

Definition small_pma : PhysicalMemoryAllocator :=
  {| allocated_pages := [true; false; true; false; false; false];
     memory_start := 0x40000000; memory_length := 6 * 4096 |}.

Lemma small_pma_wf : pma_wf small_pma.
Proof. split; vm_compute; intuition congruence. Qed.

Definition small_pma' : PhysicalMemoryAllocator :=
  set_pages small_pma [true; false; true; true; true; false].

Example alloc_contig_first_fit_witness :
  alloc_contig 2 small_pma = Ok 0x40003000 small_pma' ∧
  first_fit small_pma 2 0x40003000 small_pma'.
Proof.
  assert (alloc_contig 2 small_pma = Ok 0x40003000 small_pma') as E by (vm_compute; reflexivity).
  pose proof (alloc_contig_first_fit small_pma 2 small_pma_wf ltac:(lia) ltac:(reflexivity)) as H.
  rewrite E in H. split; [exact E|exact (proj1 H)].
Defined.

(** Returning a range to the allocator undoes its allocation exactly. *)
Theorem free_pages_alloc_contig (s s' : PhysicalMemoryAllocator) (n a : Z) :
  pma_wf s → alloc_contig n s = Ok a s' → free_pages a n s' = Ok tt s.
Proof.
  intros Hwf Ha. pose proof Ha as (Hn & i & l' & -> & Hi & Hr & _ & -> & Hu)%alloc_contig_Ok;
    [|done].
  pose proof (free_run_in_range _ _ _ Hn Hi Hr) as Hin. pose proof Hu as [Hlen _].
  destruct (free_pages_spec (set_pages s l') i n) as (l2 & Hf & Hu2);
    [by eapply updated_run_wf|done|lia|cbn; lia|].
  cbn in Hf, Hu2. rewrite Hf. rewrite (updated_run_undo _ _ _ _ _ Hr Hu Hu2). by destruct s.
Qed.

Example free_pages_alloc_contig_witness :
  alloc_contig 2 small_pma = Ok 0x40003000 small_pma' ∧
  free_pages 0x40003000 2 small_pma' = Ok tt small_pma.
Proof.
  assert (alloc_contig 2 small_pma = Ok 0x40003000 small_pma') as E by (vm_compute; reflexivity).
  split; [exact E|]. exact (free_pages_alloc_contig small_pma small_pma' 2 0x40003000 small_pma_wf E).
Defined.

(** Whatever sequence of allocations and frees of live ranges a client performs, two
    live ranges never share an address, and every live range is page aligned RAM. *)
Theorem pma_live_disjoint (s0 s : PhysicalMemoryAllocator) (live : list (Z * Z)) :
  pma_wf s0 → rtc pma_step (s0, []) (s, live) →
  pma_wf s ∧ ranges_disjoint live ∧
  ∀ a n, (a, n) ∈ live →
    a mod PAGE_SIZE = 0 ∧ 1 ≤ n ∧
    memory_start s ≤ a ∧ a + n * PAGE_SIZE ≤ memory_start s + memory_length s.
Proof.
  intros Hwf Hst. destruct (live_inv_steps _ _ Hst) as [Hwf' Hin Hc].
  { split; [done|constructor|]. intros p. apply page_bit_bound. }
  cbn in *. split; [done|]. split.
  - apply disjoint_of_cover.
    + eapply Forall_impl; [exact Hin|]. by intros r (i & _ & _ & ? & _).
    + intros p. pose proof (page_bit_bound s p). specialize (Hc p). lia.
  - intros a n Hel. rewrite Forall_forall in Hin.
    destruct (Hin _ Hel) as (i & Ha & Hi & Hn & Hr). cbn in *. subst a.
    destruct Hwf' as [Hl Hal [Hs Hml] He]. split; [|pdlia].
    by rewrite Z.mod_add by pdlia.
Qed.

Example pma_live_disjoint_witness :
  ∃ s live, rtc pma_step (small_pma, []) (s, live) ∧ length live = 2%nat ∧
            ranges_disjoint live.
Proof.
  assert (∃ s live, rtc pma_step (small_pma, []) (s, live) ∧ length live = 2%nat)
    as (s & live & Hst & Hl).
  { eexists _, _. split.
    - eapply rtc_l; [apply (step_alloc _ _ 1); vm_compute; reflexivity|].
      eapply rtc_l; [apply (step_try_alloc _ _ 2); vm_compute; reflexivity|]. apply rtc_refl.
    - reflexivity. }
  exists s, live. split; [exact Hst|]. split; [exact Hl|].
  apply (pma_live_disjoint small_pma s live small_pma_wf Hst).
Defined.

(** [try_alloc_contig] takes the run at the first free page, cut to the length wanted,
    and reports how long it is.  It fails although pages are free exactly when that run is
    too short and ends at the end of RAM. *)
Theorem try_alloc_contig_first_run (s : PhysicalMemoryAllocator) (d : Z) :
  pma_wf s → first_run s d (try_alloc_contig d s).
Proof. apply try_alloc_contig_run. Qed.

Example try_alloc_contig_first_run_witness : first_run small_pma 3 (try_alloc_contig 3 small_pma).
Proof. apply (try_alloc_contig_first_run small_pma 3 small_pma_wf). Defined.

(** After [init] the kernel image, the allocator's own bitmap behind it and the whole
    pages of the device tree blob are marked, so that no allocation returns them. *)
Theorem init_reserves (ms len blob ks ke : Z) (p : PhysicalMemoryAllocator) :
  init ms len blob ks ke = Some p →
  0 ≤ ms → 0 ≤ blob → ms mod PAGE_SIZE = 0 → 0 ≤ len → ms + len < U64 →
  (ks - CANONICAL) mod PAGE_SIZE = 0 →
  let padding := (- ke) mod 8 in
  pma_wf p ∧
  ∀ a, ks - CANONICAL ≤ a < ke - CANONICAL + padding + len / PAGE_SIZE / 8 ∨
       ms ≤ a < ms + blob / PAGE_SIZE * PAGE_SIZE →
    page_bit p a = 1.
Proof.
  intros H Hms Hblob Hal Hlen Hend Hks padding. apply init_inv in H.
  cbv zeta in H. destruct H as (H1 & H2 & Hs & Hl & l1 & l2 & Hf1 & Hf2 & Hf3).
  set (padding' := if _ =? 0 then _ else _) in *.
  assert (padding' = padding) as Hpad.
  { unfold padding', padding, CANONICAL. destruct (Z.eqb_spec ((ke - 0xffff000000000000) mod 8) 0); dlia. }
  pose proof (div_ceil_spec (ks - CANONICAL - ms) PAGE_SIZE ltac:(plia)) as Dks.
  pose proof (div_ceil_spec (ke - CANONICAL - ms) PAGE_SIZE ltac:(plia)) as Dke.
  pose proof (div_ceil_spec (len / PAGE_SIZE / 8 + padding') PAGE_SIZE ltac:(plia)) as Dbm.
  assert (0 ≤ padding' < 8) by (rewrite Hpad; unfold padding; dlia).
  assert (0 ≤ len / PAGE_SIZE / 8) by pdlia.
  set (ksp := div_ceil (ks - CANONICAL - ms) PAGE_SIZE) in *.
  set (kep := div_ceil (ke - CANONICAL - ms) PAGE_SIZE) in *.
  set (bm := div_ceil _ PAGE_SIZE) in *.
  assert (0 ≤ ksp ∧ 0 ≤ kep) as [Hk1 Hk2] by (unfold ksp, kep; split; apply div_ceil_nonneg; plia).
  assert (length (allocated_pages p) = Z.to_nat (len / PAGE_SIZE)) as Hlp.
  { pose proof Hf1 as (_ & E1 & _)%fill_range_spec; [|done].
    pose proof Hf2 as (_ & E2 & _)%fill_range_spec; [|done].
    pose proof Hf3 as (_ & E3 & _)%fill_range_spec; [|done].
    by rewrite E3, E2, E1, length_replicate. }
  split; [split; rewrite ?Hs, ?Hl, ?Hlp; try done; pdlia|].
  intros a Ha. unfold page_bit. rewrite Hs. apply decide_True.
  set (k := Z.to_nat ((a - ms) / PAGE_SIZE)).
  assert (ms ≤ a) by lia. split; [done|].
  apply (fill_range_true _ _ _ _ k Hk2 Hf3).
  destruct (decide (kep ≤ Z.of_nat k)); [destruct Ha|left]; [right|left|].
  - subst k. clearbody padding' ksp kep bm. pdlia.
  - apply (fill_range_true _ _ _ _ k Hk1 Hf2). left.
    apply (fill_range_true _ _ _ _ k (Z.le_refl 0) Hf1). right. subst k. pdlia.
  - apply (fill_range_true _ _ _ _ k Hk1 Hf2). destruct Ha.
    + right. subst k. clearbody padding' ksp kep bm. pdlia.
    + left. apply (fill_range_true _ _ _ _ k (Z.le_refl 0) Hf1). right. subst k. pdlia.
Qed.

(** 128 KiB of RAM at 0x40000000, a two page device tree, the kernel in pages 8 to 10. *)
Example init_reserves_witness :
  ∃ p, init 0x40000000 0x20000 0x2100 0xffff000040008000 0xffff00004000a804 = Some p ∧
       page_bit p 0x40009123 = 1 ∧ page_bit p 0x40001000 = 1.
Proof.
  eexists. split; [vm_compute; reflexivity|].
  split; eapply (init_reserves 0x40000000 0x20000 0x2100 0xffff000040008000 0xffff00004000a804);
    first [vm_compute; reflexivity | vm_compute; congruence
          | left; vm_compute; split; congruence | right; vm_compute; split; congruence].
Defined.
