(* ===== verification/VirtAlloc.v ===== *)
(** The virtual address allocator: [kernel/src/memory/virtual_address_allocator.rs].

    The free list is a [LinkedList] of blocks walked with a cursor; it is a list here, and
    each walk is a [Fixpoint] over it that returns the list after the walk's edit. *)
From S2P Require Import Prelude Addresses.
From Stdlib Require Import Sorting.Sorted.

Record FreeBlock := {
  address : Z;
  size : Z;
}.

Record VirtualAddressAllocator := {
  free_list : list FreeBlock;
}.

Abbreviation VAA := (M VirtualAddressAllocator MemoryError).

Definition START_ADDRESS : Z := 0xffff000100000000.
Definition TOTAL_SIZE : Z := 0x010000000000 / PAGE_SIZE.

Definition new (start_address total_size_in_pages : Z) : VirtualAddressAllocator :=
  {| free_list := [{| address := start_address; size := total_size_in_pages |}] |}.

(** The loop of [reserve]: [None] is a panic, [Some None] the loop's end without a block. *)
Fixpoint reserve_loop (start_address page_count end_address : Z) (l : list FreeBlock)
    : option (option (list FreeBlock)) :=
  match l with
  | [] => Some None
  | block :: rest =>
      block_size ← umul (size block) PAGE_SIZE;
      let block_end := VirtualAddress.add (address block) block_size in
      if (address block <=? start_address) && (end_address <=? block_end) then
        if address block =? start_address then
          if size block =? page_count then Some (Some rest)
          else
            size' ← usub (size block) page_count;
            Some (Some ({| address := VirtualAddress.add (address block) page_count;
                           size := size' |} :: rest))
        else if block_end =? end_address then
          size' ← usub (size block) page_count;
          Some (Some ({| address := address block; size := size' |} :: rest))
        else
          before ← usub start_address (address block);
          after ← usub block_end end_address;
          Some (Some ({| address := address block; size := div_ceil before PAGE_SIZE |}
                      :: {| address := end_address; size := div_ceil after PAGE_SIZE |}
                      :: rest))
      else if end_address <=? address block then Some None
      else
        r ← reserve_loop start_address page_count end_address rest;
        Some (option_map (cons block) r)
  end.

Definition reserve (start_address page_count : Z) : VAA unit :=
  s ← get;
  bytes ← lift (umul page_count PAGE_SIZE);
  let end_address := VirtualAddress.add start_address bytes in
  r ← lift (reserve_loop start_address page_count end_address (free_list s));
  match r with
  | Some l => put {| free_list := l |}
  | None => throw (InsufficentForAllocation page_count)
  end.

(** The loop of [alloc]. *)
Fixpoint alloc_loop (page_count : Z) (l : list FreeBlock) : option (option (Z * list FreeBlock)) :=
  match l with
  | [] => Some None
  | block :: rest =>
      if page_count <=? size block then
        let addr := address block in
        if size block =? page_count then Some (Some (addr, rest))
        else
          bytes ← umul PAGE_SIZE page_count;
          size' ← usub (size block) page_count;
          Some (Some (addr, {| address := VirtualAddress.add (address block) bytes;
                               size := size' |} :: rest))
      else
        r ← alloc_loop page_count rest;
        Some (option_map (λ '(a, l'), (a, block :: l')) r)
  end.

Definition alloc (page_count : Z) : VAA Z :=
  s ← get;
  r ← lift (alloc_loop page_count (free_list s));
  match r with
  | Some (a, l) => put {| free_list := l |};; mret a
  | None => throw OutOfMemory
  end.

(** The loop of [free]: [Some None] when it ends without merging. *)
Fixpoint free_loop (addr page_count end_address : Z) (l : list FreeBlock)
    : option (option (list FreeBlock)) :=
  match l with
  | [] => Some None
  | block :: rest =>
      bytes ← umul PAGE_SIZE (size block);
      let back := VirtualAddress.add (address block) bytes in
      if end_address =? address block then
        size' ← uadd (size block) page_count;
        Some (Some ({| address := addr; size := size' |} :: rest))
      else if addr =? back then
        size' ← uadd (size block) page_count;
        Some (Some ({| address := address block; size := size' |} :: rest))
      else if addr <? address block then Some None
      else
        r ← free_loop addr page_count end_address rest;
        Some (option_map (cons block) r)
  end.

Definition free (addr page_count : Z) : VAA unit :=
  s ← get;
  bytes ← lift (umul PAGE_SIZE page_count);
  let end_address := VirtualAddress.add addr bytes in
  r ← lift (free_loop addr page_count end_address (free_list s));
  put {| free_list :=
    match r with
    | Some l => l
    | None => free_list s ++ [{| address := addr; size := page_count |}]
    end |}.

(** ** Specification

    The allocator stands for the addresses its blocks cover. *)
Definition range_of (b : FreeBlock) : Z * Z := (address b, size b).
Definition free_cover (s : VirtualAddressAllocator) (p : Z) : Z :=
  cover_count (map range_of (free_list s)) p.

(** A block lies below the top of the address space. *)
Definition block_wf (b : FreeBlock) : Prop :=
  0 ≤ address b ∧ 0 ≤ size b ∧ address b + size b * PAGE_SIZE < U64.
Definition vaa_wf (s : VirtualAddressAllocator) : Prop := Forall block_wf (free_list s).

Lemma block_wf_bytes b : block_wf b →
  umul (size b) PAGE_SIZE = Some (size b * PAGE_SIZE) ∧
  umul PAGE_SIZE (size b) = Some (size b * PAGE_SIZE) ∧
  VirtualAddress.add (address b) (size b * PAGE_SIZE) = address b + size b * PAGE_SIZE.
Proof.
  intros (? & ? & ?). split_and!; [apply umul_Some; plia..|].
  apply wrapping_add_small. plia.
Qed.

(** The addresses of one block, split in front of its last [n] pages or after its first. *)
Lemma block_split b n p : 0 ≤ n ≤ size b →
  covers p (range_of b) =
    covers p (address b, n) + covers p (address b + n * PAGE_SIZE, size b - n).
Proof. intros. unfold range_of. rewrite <- covers_split by lia. do 2 f_equal. lia. Qed.

Lemma alloc_loop_spec n l : 0 ≤ n → Forall block_wf l →
  match alloc_loop n l with
  | None => False
  | Some None => Forall (λ b, size b < n) l
  | Some (Some (a, l')) =>
      Forall block_wf l' ∧
      (∀ p, cover_count (map range_of l') p + covers p (a, n) = cover_count (map range_of l) p) ∧
      ∃ pre b post, l = pre ++ b :: post ∧ a = address b ∧ n ≤ size b ∧
                    Forall (λ b, size b < n) pre
  end.
Proof.
  intros Hn. induction 1 as [|b l Hb Hl IH]; cbn; [constructor|].
  destruct (Z.leb_spec n (size b)) as [Hle|Hgt].
  - pose proof Hb as (? & ? & ?). destruct (Z.eqb_spec (size b) n) as [Heq|Hne]; cbn.
    + split; [done|]. split; [|by exists [], b, l].
      intros p. rewrite cover_count_cons. unfold range_of. rewrite Heq. lia.
    + replace (umul PAGE_SIZE n) with (Some (n * PAGE_SIZE)) by (symmetry; apply umul_Some; plia).
      replace (usub (size b) n) with (Some (size b - n)) by (symmetry; apply usub_Some; lia).
      cbn. unfold VirtualAddress.add. rewrite wrapping_add_small by plia.
      split; [constructor; [split_and!; cbn; plia|done]|].
      split; [|by exists [], b, l].
      intros p. rewrite !cover_count_cons, (block_split b n p) by lia. unfold range_of; cbn. lia.
  - destruct (alloc_loop n l) as [[[a l']|]|]; cbn; [|by constructor|done].
    destruct IH as (Hw & Hc & pre & b' & post & -> & -> & Hn' & Hpre).
    split; [by constructor|]. split.
    + intros p. rewrite !cover_count_cons. specialize (Hc p). lia.
    + exists (b :: pre), b', post. split_and!; try done. by constructor.
Qed.

Lemma free_loop_spec a n l : 0 ≤ a → 0 ≤ n → a + n * PAGE_SIZE < U64 → Forall block_wf l →
  match free_loop a n (a + n * PAGE_SIZE) l with
  | None => False
  | Some None => True
  | Some (Some l') =>
      Forall block_wf l' ∧
      ∀ p, cover_count (map range_of l') p = cover_count (map range_of l) p + covers p (a, n)
  end.
Proof.
  intros Ha Hn Hend. induction 1 as [|b l Hb Hl IH]; cbn; [done|].
  destruct (block_wf_bytes b Hb) as (_ & -> & Hback). cbn. rewrite Hback.
  pose proof Hb as (? & ? & ?).
  replace (uadd (size b) n) with (Some (size b + n)) by (symmetry; apply uadd_Some; plia).
  destruct (Z.eqb_spec (a + n * PAGE_SIZE) (address b)) as [Heq|]; cbn.
  - split; [constructor; [split_and!; cbn; plia|done]|]. intros p. rewrite !cover_count_cons.
    unfold range_of. cbn. rewrite (Z.add_comm (size b)), covers_split, Heq by lia. lia.
  - destruct (Z.eqb_spec a (address b + size b * PAGE_SIZE)) as [Heq|]; cbn.
    + split; [constructor; [split_and!; cbn; plia|done]|]. intros p. rewrite !cover_count_cons.
      unfold range_of. cbn. rewrite covers_split, Heq by lia. lia.
    + destruct (a <? address b); [done|].
      destruct (free_loop _ _ _ l) as [[l'|]|]; cbn; [|done|done].
      destruct IH as [Hw Hc]. split; [by constructor|].
      intros p. rewrite !cover_count_cons, Hc. lia.
Qed.

Lemma alloc_Ok s n a s' : vaa_wf s → 0 ≤ n → alloc n s = Ok a s' →
  vaa_wf s' ∧ ∀ p, free_cover s' p + covers p (a, n) = free_cover s p.
Proof.
  intros Hwf Hn H. unfold alloc in H. inv_run.
  pose proof (alloc_loop_spec n (free_list st) Hn Hwf) as Hs. rewrite Hrun0 in Hs.
  destruct v0 as [[a' l']|]; inv_run. destruct Hs as (Hw & Hc & _). by split.
Qed.

Lemma free_run_spec s a n : vaa_wf s → 0 ≤ a → 0 ≤ n → a + n * PAGE_SIZE < U64 →
  ∃ s', free a n s = Ok tt s' ∧ vaa_wf s' ∧
    ∀ p, free_cover s' p = free_cover s p + covers p (a, n).
Proof.
  intros Hwf Ha Hn Hend. unfold free. run_step.
  assert (umul PAGE_SIZE n = Some (n * PAGE_SIZE)) as Hu by (apply umul_Some; plia).
  rewrite Hu. run_step. unfold VirtualAddress.add. rewrite wrapping_add_small by plia.
  pose proof (free_loop_spec a n _ Ha Hn Hend Hwf) as Hs.
  destruct (free_loop a n _ _) as [r|]; [|done]. run_step.
  eexists. split; [done|]. unfold free_cover. destruct r as [l'|]; [done|]. cbn. split.
  - apply Forall_app. split; [done|]. repeat constructor; cbn; plia.
  - intros p. rewrite map_app, cover_count_app. cbn. rewrite cover_count_cons, cover_count_nil.
    unfold range_of. cbn. lia.
Qed.

(** *** [reserve] *)

Definition block_aligned (b : FreeBlock) : Prop := address b mod PAGE_SIZE = 0.
(** The order of the list that [reserve] relies on. *)
Definition sorted_blocks (l : list FreeBlock) : Prop :=
  StronglySorted (λ b c, address b + size b * PAGE_SIZE ≤ address c) l.
Definition contains (b : FreeBlock) (a n : Z) : Prop :=
  address b ≤ a ∧ a + n * PAGE_SIZE ≤ address b + size b * PAGE_SIZE.

(** Cutting the range out of the block that contains it. *)
Lemma reserve_here a n b l : block_wf b → block_aligned b → a mod PAGE_SIZE = 0 → 1 ≤ n →
  contains b a n → (address b = a → size b = n) → Forall block_wf l →
  ∃ l', reserve_loop a n (a + n * PAGE_SIZE) (b :: l) = Some (Some l') ∧ Forall block_wf l' ∧
    ∀ p, cover_count (map range_of l') p + covers p (a, n) = cover_count (map range_of (b :: l)) p.
Proof.
  intros Hb Hal Haa Hn [Hlo Hhi] Hfront Hl. unfold block_aligned in Hal. cbn [reserve_loop].
  destruct (block_wf_bytes b Hb) as (-> & _ & Hback). cbn [mbind option_bind]. rewrite Hback.
  pose proof Hb as (? & ? & ?).
  replace ((address b <=? a) && _) with true by lia.
  destruct (Z.eqb_spec (address b) a) as [Heq|Hne].
  { rewrite Hfront by done. replace (n =? n) with true by lia. eexists. split; [done|].
    split; [done|]. intros p. cbn. rewrite cover_count_cons. unfold range_of.
    rewrite (Hfront Heq), Heq. lia. }
  destruct (Z.eqb_spec (address b + size b * PAGE_SIZE) (a + n * PAGE_SIZE)) as [Hend|Hend].
  { rewrite (proj2 (usub_Some _ _ (size b - n))) by pnia.
    eexists. split; [done|]. split; [constructor; [split_and!; cbn; pnia|done]|].
    intros p. cbn. rewrite !cover_count_cons, (block_split b (size b - n)) by pnia.
    unfold range_of. cbn. replace (address b + (size b - n) * PAGE_SIZE) with a by lia.
    replace (size b - (size b - n)) with n by lia. lia. }
  rewrite !(proj2 (usub_Some _ _ _)) by (split; [done|lia]). cbn [mbind option_bind].
  set (k := (a - address b) / PAGE_SIZE).
  replace (a - address b) with (k * PAGE_SIZE) by (unfold k; pdlia).
  replace (address b + size b * PAGE_SIZE - (a + n * PAGE_SIZE))
    with ((size b - k - n) * PAGE_SIZE) by (unfold k; pdlia).
  rewrite !div_ceil_mul by plia. eexists. split; [done|].
  assert (a = address b + k * PAGE_SIZE) as Ha by (unfold k; pdlia).
  assert (0 ≤ k ∧ 0 ≤ size b - k - n) as [? ?] by (unfold k; pdlia).
  split; [repeat (constructor; [split_and!; cbn; plia|]); done|].
  intros p. cbn. rewrite !cover_count_cons, (block_split b k), Ha by lia.
  pose proof (covers_split p (address b + k * PAGE_SIZE) n (size b - k - n)) as Hsp.
  replace (n + (size b - k - n)) with (size b - k) in Hsp by lia.
  unfold range_of. cbn. lia.
Qed.

Lemma reserve_loop_spec a n l b : Forall block_wf l → Forall block_aligned l → sorted_blocks l →
  a mod PAGE_SIZE = 0 → 1 ≤ n → b ∈ l → contains b a n → (address b = a → size b = n) →
  ∃ l', reserve_loop a n (a + n * PAGE_SIZE) l = Some (Some l') ∧ Forall block_wf l' ∧
    ∀ p, cover_count (map range_of l') p + covers p (a, n) = cover_count (map range_of l) p.
Proof.
  intros Hwf Hal Hs Haa Hn Hel Hc Hfront.
  induction Hs as [|c l Hs IH Hhd]; [set_solver|].
  apply Forall_cons in Hwf as [Hcw Hwf]. apply Forall_cons in Hal as [Hca Hal].
  apply elem_of_cons in Hel as [->|Hel]; [by apply reserve_here|].
  destruct (IH Hwf Hal Hel) as (l' & Hl' & Hw & Hcov).
  rewrite Forall_forall in Hhd. specialize (Hhd _ Hel). destruct Hc as [Hlo Hhi].
  cbn [reserve_loop]. destruct (block_wf_bytes c Hcw) as (-> & _ & Hback).
  cbn [mbind option_bind]. rewrite Hback. pose proof Hcw as (? & ? & ?).
  replace ((address c <=? a) && _) with false by plia.
  replace (a + n * PAGE_SIZE <=? address c) with false by plia.
  rewrite Hl'. eexists. split; [done|]. cbn. split; [by constructor|].
  intros p. rewrite !cover_count_cons. specialize (Hcov p). lia.
Qed.

(** A successful [reserve] takes exactly the range, if no larger block starts where it starts. *)
Definition no_front (a n : Z) (l : list FreeBlock) : Prop := Forall (λ b, address b = a → size b = n) l.

Lemma reserve_loop_Ok a n l l' : a mod PAGE_SIZE = 0 → 1 ≤ n → Forall block_wf l → Forall block_aligned l →
  no_front a n l → reserve_loop a n (a + n * PAGE_SIZE) l = Some (Some l') →
  Forall block_wf l' ∧ Forall block_aligned l' ∧
  ∀ p, cover_count (map range_of l') p + covers p (a, n) = cover_count (map range_of l) p.
Proof.
  intros Ha Hn. revert l'. induction l as [|b l IH]; intros l'; [done|].
  intros [Hb Hl]%Forall_cons [Hba Hla]%Forall_cons [Hfb Hfl]%Forall_cons Hrun.
  destruct (block_wf_bytes b Hb) as (Hbytes & _ & Hback). pose proof Hrun as Hrun'. cbn [reserve_loop] in Hrun'.
  rewrite Hbytes in Hrun'. cbn [mbind option_bind] in Hrun'. rewrite Hback in Hrun'.
  destruct ((address b <=? a) && (a + n * PAGE_SIZE <=? address b + size b * PAGE_SIZE)) eqn:Ein.
  - destruct (reserve_here a n b l Hb Hba Ha Hn) as (l2 & Hl2 & Hw & Hcov); [split; lia|done|done|].
    rewrite Hrun in Hl2. injection Hl2 as <-. split; [done|]. split; [|done].
    destruct (Z.eqb_spec (address b) a) as [Heq|].
    { rewrite (Hfb Heq), Z.eqb_refl in Hrun'. by injection Hrun' as <-. }
    destruct (_ =? _).
    + destruct (usub (size b) n); cbn in Hrun'; [|done]. injection Hrun' as <-. by constructor.
    + destruct (usub a (address b)); cbn in Hrun'; [|done]. destruct (usub _ _); cbn in Hrun'; [|done].
      injection Hrun' as <-. repeat constructor; [done| |done]. unfold block_aligned. cbn. by rewrite Z.mod_add by plia.
  - destruct (a + n * PAGE_SIZE <=? address b); [done|].
    destruct (reserve_loop a n (a + n * PAGE_SIZE) l) as [[r|]|] eqn:Er; cbn in Hrun'; [|done|done].
    injection Hrun' as <-. destruct (IH r Hl Hla Hfl eq_refl) as (H1 & H2 & H3). split_and!; [by constructor..|].
    intros p. cbn. rewrite !cover_count_cons. specialize (H3 p). lia.
Qed.

Lemma reserve_Ok s a n s' : vaa_wf s → Forall block_aligned (free_list s) → 0 ≤ a → a mod PAGE_SIZE = 0 → 1 ≤ n →
  a + n * PAGE_SIZE < U64 → no_front a n (free_list s) → reserve a n s = Ok tt s' →
  vaa_wf s' ∧ Forall block_aligned (free_list s') ∧ ∀ p, free_cover s' p + covers p (a, n) = free_cover s p.
Proof.
  intros Hwf Hal Ha0 Ha Hn Hend Hf H. unfold reserve in H. erewrite bind_run in H by done.
  erewrite bind_run in H by (apply lift_Ok; split; [apply umul_Some; split; [done|plia]|done]).
  cbv zeta in H. unfold VirtualAddress.add in H. rewrite wrapping_add_small in H by plia.
  apply bind_Ok in H as (r & s1 & [Hr ->]%lift_Ok & H). destruct r as [l|]; [|done]. injection H as <-.
  by apply (reserve_loop_Ok a n (free_list s) l).
Qed.

Lemma alloc_loop_aligned n l a l' : 0 ≤ n → Forall block_wf l → Forall block_aligned l →
  alloc_loop n l = Some (Some (a, l')) → a mod PAGE_SIZE = 0 ∧ Forall block_aligned l'.
Proof.
  intros Hn. revert l'. induction l as [|b l IH]; intros l'; cbn; [done|].
  intros [Hb Hl]%Forall_cons [Hba Hla]%Forall_cons. destruct Hb as (? & ? & ?).
  destruct (Z.leb_spec n (size b)).
  - destruct (size b =? n); [intros [= <- <-]; done|].
    rewrite umul_ok, usub_ok by plia. cbn. intros [= <- <-]. split; [done|]. constructor; [|done].
    unfold block_aligned, VirtualAddress.add in *. cbn. rewrite wrapping_add_small by plia.
    rewrite Z.mul_comm, Z.mod_add by plia. done.
  - destruct (alloc_loop n l) as [[[a0 l0]|]|]; cbn; [|done|done]. intros [= <- <-].
    destruct (IH l0 Hl Hla eq_refl) as [? ?]. split; [done|]. by constructor.
Qed.

Lemma alloc_aligned s n a s' : vaa_wf s → 0 ≤ n → Forall block_aligned (free_list s) → alloc n s = Ok a s' →
  a mod PAGE_SIZE = 0 ∧ Forall block_aligned (free_list s').
Proof.
  intros Hwf Hn Hal H. unfold alloc in H. erewrite bind_run in H by done.
  apply bind_Ok in H as (r & s1 & [Hr ->]%lift_Ok & H). destruct r as [[a' l]|]; [|done]. injection H as <- <-.
  by apply (alloc_loop_aligned n (free_list s)).
Qed.

Lemma free_loop_aligned a n e l l' : a mod PAGE_SIZE = 0 → Forall block_aligned l →
  free_loop a n e l = Some (Some l') → Forall block_aligned l'.
Proof.
  intros Ha. revert l'. induction l as [|b l IH]; intros l'; cbn; [done|].
  intros [Hb Hl]%Forall_cons. destruct (umul PAGE_SIZE (size b)); cbn; [|done].
  destruct (e =? address b); [destruct (uadd _ _); cbn; [|done]; intros [= <-]; by constructor|].
  destruct (a =? _); [destruct (uadd _ _); cbn; [|done]; intros [= <-]; by constructor|].
  destruct (a <? address b); [done|].
  destruct (free_loop a n e l) as [[l0|]|]; cbn; [|done|done]. intros [= <-].
  constructor; [done|by apply IH].
Qed.

Lemma free_aligned s a n s' : a mod PAGE_SIZE = 0 → Forall block_aligned (free_list s) → free a n s = Ok tt s' →
  Forall block_aligned (free_list s').
Proof.
  intros Ha Hal H. unfold free in H. erewrite bind_run in H by done.
  apply bind_Ok in H as (bytes & s1 & [Hb ->]%lift_Ok & H). cbv zeta in H.
  apply bind_Ok in H as (r & s2 & [Hl ->]%lift_Ok & H). injection H as <-. cbn. destruct r as [l'|].
  - by eapply free_loop_aligned.
  - apply Forall_app. split; [done|]. by repeat constructor.
Qed.

(** A call that fails changes nothing. *)
Lemma alloc_Err s n e s' : alloc n s = Err e s' → s' = s.
Proof.
  unfold alloc. erewrite bind_run by done. rewrite bind_unfold. unfold lift.
  destruct (alloc_loop n (free_list s)) as [[[a l]|]|]; [done| |done]. by intros [= _ <-].
Qed.
Lemma reserve_Err s a n e s' : reserve a n s = Err e s' → s' = s.
Proof.
  unfold reserve. erewrite bind_run by done. rewrite bind_unfold. unfold lift at 1.
  destruct (umul n PAGE_SIZE); [|done]. cbn [mret M_ret]. cbv beta iota zeta. rewrite bind_unfold. unfold lift.
  destruct (reserve_loop _ _ _ _) as [[l|]|]; [done| |done]. by intros [= _ <-].
Qed.

(** *** Clients of the allocator

    The ranges handed out and not yet returned, as a history variable.  A client asks for
    at least one page, reserves ranges of whole pages that end below the top of the address space,
    not at the start of a larger free block ([reserve_front_overlaps] shows what happens there),
    and returns what it was given. *)
Inductive vaa_step :
    VirtualAddressAllocator * list (Z * Z) → VirtualAddressAllocator * list (Z * Z) → Prop :=
  | vstep_alloc s live n a s' :
      1 ≤ n → alloc n s = Ok a s' → vaa_step (s, live) (s', (a, n) :: live)
  | vstep_reserve s live a n s' : 0 ≤ a → a mod PAGE_SIZE = 0 → 1 ≤ n → a + n * PAGE_SIZE < U64 →
      no_front a n (free_list s) → reserve a n s = Ok tt s' → vaa_step (s, live) (s', (a, n) :: live)
  | vstep_fail s live s' e : (∃ n, alloc n s = Err e s') ∨ (∃ a n, reserve a n s = Err e s') →
      vaa_step (s, live) (s', live)
  | vstep_free s live1 a n live2 s' :
      free a n s = Ok tt s' → vaa_step (s, live1 ++ (a, n) :: live2) (s', live1 ++ live2).

(** Free and live ranges together are the range the allocator was created with. *)
Record vaa_inv (base total : Z) (s : VirtualAddressAllocator) (live : list (Z * Z)) : Prop := {
  vi_wf : vaa_wf s;
  vi_aligned : Forall block_aligned (free_list s);
  vi_pos : Forall (λ r, 1 ≤ r.2 ∧ r.1 mod PAGE_SIZE = 0) live;
  vi_cover : ∀ p, free_cover s p + cover_count live p = covers p (base, total);
}.

Lemma free_cover_nonneg s p : 0 ≤ free_cover s p.
Proof. apply cover_count_nonneg. Qed.

(** A covered range lies inside the managed one. *)
Lemma range_inside base total a n : 1 ≤ n →
  (∀ p, covers p (a, n) ≤ covers p (base, total)) →
  base ≤ a ∧ a + n * PAGE_SIZE ≤ base + total * PAGE_SIZE.
Proof.
  intros Hn Hc. pose proof (Hc a) as H1. pose proof (Hc (a + n * PAGE_SIZE - 1)) as H2.
  unfold covers in *. cbn in *. repeat case_decide; pnia.
Qed.

Lemma vaa_live_inside base total s live a n : vaa_inv base total s live → (a, n) ∈ live →
  1 ≤ n ∧ base ≤ a ∧ a + n * PAGE_SIZE ≤ base + total * PAGE_SIZE.
Proof.
  intros [_ _ Hpos Hc] Hel. rewrite Forall_forall in Hpos. destruct (Hpos _ Hel) as [Hn _].
  split; [done|]. apply range_inside; [done|]. intros p.
  apply list_elem_of_lookup_1 in Hel as [i Hi].
  pose proof (cover_count_lookup _ _ _ p Hi). pose proof (free_cover_nonneg s p).
  specialize (Hc p). lia.
Qed.

Lemma vaa_inv_step base total c c' : 0 ≤ base → base + total * PAGE_SIZE < U64 →
  vaa_step c c' → vaa_inv base total c.1 c.2 → vaa_inv base total c'.1 c'.2.
Proof.
  intros Hb Ht Hst Hinv. pose proof Hinv as [Hwf Hal Hpos Hc].
  destruct Hst as [s live n a s' Hn Ha|s live a n s' Ha0 Ham Hn Hend Hf Hr|s live s' e He|s live1 a n live2 s' Hf]; cbn in *.
  - destruct (alloc_aligned s n a s' Hwf ltac:(lia) Hal Ha) as [Ham Hal'].
    apply alloc_Ok in Ha as [Hwf' Hc']; [|done|lia]. split; [done|done|by constructor|].
    intros p. rewrite cover_count_cons. specialize (Hc p). specialize (Hc' p). lia.
  - destruct (reserve_Ok s a n s' Hwf Hal Ha0 Ham Hn Hend Hf Hr) as (Hwf' & Hal' & Hc').
    split; [done|done|by constructor|]. intros p. rewrite cover_count_cons. specialize (Hc p). specialize (Hc' p). lia.
  - assert (s' = s) as -> by (destruct He as [[n He]|(a & n & He)]; [by eapply alloc_Err|by eapply reserve_Err]). done.
  - destruct (vaa_live_inside base total s (live1 ++ (a, n) :: live2) a n Hinv) as (Hn & Hlo & Hhi);
      [set_solver|].
    destruct (free_run_spec s a n) as (s'' & Hf' & Hwf' & Hc'); [done|lia..|].
    rewrite Hf in Hf'. injection Hf' as <-.
    apply Forall_app in Hpos as [Hp1 [[_ Ham] Hp2]%Forall_cons].
    split; [done|by eapply free_aligned|by apply Forall_app|]. intros p. specialize (Hc p).
    rewrite cover_count_app, cover_count_cons in Hc. rewrite Hc', cover_count_app. lia.
Qed.

Lemma vaa_inv_steps base total c c' : 0 ≤ base → base + total * PAGE_SIZE < U64 →
  rtc vaa_step c c' → vaa_inv base total c.1 c.2 → vaa_inv base total c'.1 c'.2.
Proof. intros ? ?. induction 1; [done|]. eauto using vaa_inv_step. Qed.

Lemma vaa_inv_new base total : 0 ≤ base → base mod PAGE_SIZE = 0 → 0 ≤ total → base + total * PAGE_SIZE < U64 →
  vaa_inv base total (new base total) [].
Proof.
  intros. split; [|by repeat constructor|constructor|].
  - constructor; [split_and!; cbn; lia|constructor].
  - intros p. unfold free_cover. cbn. by rewrite cover_count_cons, !cover_count_nil, !Z.add_0_r.
Qed.

(** ** Properties *)

(** C11: from a fresh allocator of page aligned addresses, over every sequence of allocations,
    reservations and frees, failed ones too, the ranges that the client holds are pairwise
    disjoint and inside the managed range, and the free blocks cover exactly the rest, each
    address once; returning any of them succeeds.  Allocations are of at least one page;
    reservations are page aligned, end below the top of the address space, and do not start
    where a larger free block starts, since there [reserve] advances the block by bytes instead
    of pages; only ranges that are held are freed. *)
Theorem vaa_live_disjoint (base total : Z) (s : VirtualAddressAllocator) (live : list (Z * Z)) :
  0 ≤ base → base mod PAGE_SIZE = 0 → 0 ≤ total → base + total * PAGE_SIZE < U64 →
  rtc vaa_step (new base total, []) (s, live) →
  ranges_disjoint live ∧
  (∀ a n, (a, n) ∈ live → base ≤ a ∧ a + n * PAGE_SIZE ≤ base + total * PAGE_SIZE ∧ a mod PAGE_SIZE = 0) ∧
  (∀ p, free_cover s p = covers p (base, total) - cover_count live p) ∧
  ∀ a n, (a, n) ∈ live → ∃ s', free a n s = Ok tt s'.
Proof.
  intros Hb Hba Ht He Hst.
  pose proof (vaa_inv_steps base total _ _ Hb He Hst (vaa_inv_new base total Hb Hba Ht He)) as Hinv.
  cbn in Hinv. pose proof Hinv as [Hwf _ Hpos Hc]. split_and!.
  - apply disjoint_of_cover; [eapply Forall_impl; [exact Hpos|]; cbn; tauto|]. intros p. specialize (Hc p).
    pose proof (covers_bound p (base, total)). pose proof (free_cover_nonneg s p). lia.
  - intros a n Hel. rewrite Forall_forall in Hpos. destruct (Hpos _ Hel) as [_ Ham].
    by apply (vaa_live_inside base total s live a n) in Hel as (_ & ? & ?).
  - intros p. specialize (Hc p). lia.
  - intros a n Hel. apply (vaa_live_inside base total s live a n) in Hel as (Hn & Hlo & Hhi); [|done].
    destruct (free_run_spec s a n) as (s' & Hf & _); [done|lia..|]. by exists s'.
Qed.

Example vaa_live_disjoint_witness :
  ∃ s live, rtc vaa_step (new START_ADDRESS TOTAL_SIZE, []) (s, live) ∧ length live = 3%nat ∧
            ranges_disjoint live.
Proof.
  assert (∃ s live, rtc vaa_step (new START_ADDRESS TOTAL_SIZE, []) (s, live) ∧
                    length live = 3%nat) as (s & live & Hst & Hl).
  { eexists _, _. split.
    - eapply rtc_l; [apply (vstep_alloc _ _ 4); [lia|vm_compute; reflexivity]|].
      eapply rtc_l; [apply (vstep_alloc _ _ 1); [lia|vm_compute; reflexivity]|].
      eapply rtc_l; [apply (vstep_free _ [_] _ _ []); vm_compute; reflexivity|].
      eapply rtc_l; [apply (vstep_reserve _ _ (START_ADDRESS + 0x20000) 2); [vm_compute; congruence|reflexivity|lia
        |reflexivity|repeat constructor; vm_compute; congruence|vm_compute; reflexivity]|].
      eapply rtc_l; [apply (vstep_alloc _ _ 3); [lia|vm_compute; reflexivity]|]. apply rtc_refl.
    - reflexivity. }
  exists s, live. split; [exact Hst|]. split; [exact Hl|].
  apply (vaa_live_disjoint START_ADDRESS TOTAL_SIZE s live); [vm_compute; congruence..|exact Hst].
Defined.

(** [alloc] returns the start of the first block that is large enough, takes exactly the
    range from the free addresses, and fails only when every block is too small. *)
Theorem alloc_first_fit (s : VirtualAddressAllocator) (n : Z) : vaa_wf s → 0 ≤ n →
  match alloc n s with
  | Ok a s' =>
      vaa_wf s' ∧ (∀ p, free_cover s' p + covers p (a, n) = free_cover s p) ∧
      ∃ pre b post, free_list s = pre ++ b :: post ∧ a = address b ∧ n ≤ size b ∧
                    Forall (λ b, size b < n) pre
  | Err e s' => e = OutOfMemory ∧ s' = s ∧ Forall (λ b, size b < n) (free_list s)
  | Stop _ => False
  end.
Proof.
  intros Hwf Hn. pose proof (alloc_loop_spec n (free_list s) Hn Hwf) as Hs.
  unfold alloc. run_step. destruct (alloc_loop n (free_list s)) as [[[a l]|]|]; [| |done]; run_step.
  - run_step. destruct Hs as (? & ? & ?). by split_and!.
  - by split_and!.
Qed.

Example alloc_first_fit_witness :
  ∃ s', alloc 3 (new START_ADDRESS TOTAL_SIZE) = Ok START_ADDRESS s' ∧ vaa_wf s'.
Proof.
  assert (vaa_wf (new START_ADDRESS TOTAL_SIZE)) as Hwf.
  { constructor; [vm_compute; intuition congruence|constructor]. }
  pose proof (alloc_first_fit _ 3 Hwf ltac:(lia)) as H.
  destruct (alloc 3 (new START_ADDRESS TOTAL_SIZE)) as [a s'| |] eqn:E;
    [|vm_compute in E; congruence|vm_compute in E; congruence].
  exists s'. split; [vm_compute in E |- *; congruence|apply H].
Defined.

(** [reserve] of a range inside a free block takes exactly that range from the free
    addresses when the list is sorted and the range is the whole block or does not start
    where the block starts. *)
Theorem reserve_exact (s : VirtualAddressAllocator) (b : FreeBlock) (a n : Z) :
  vaa_wf s → Forall block_aligned (free_list s) → sorted_blocks (free_list s) →
  a mod PAGE_SIZE = 0 → 1 ≤ n → b ∈ free_list s → contains b a n → (address b = a → size b = n) →
  ∃ s', reserve a n s = Ok tt s' ∧ vaa_wf s' ∧
    ∀ p, free_cover s' p + covers p (a, n) = free_cover s p.
Proof.
  intros Hwf Hal Hs Haa Hn Hel Hc Hf. pose proof Hwf as Hb. unfold vaa_wf in Hb.
  rewrite Forall_forall in Hb. destruct (Hb _ Hel) as (? & ? & ?). pose proof Hc as [? ?].
  destruct (reserve_loop_spec a n (free_list s) b) as (l' & Hl' & Hw & Hcov); try done.
  unfold reserve. run_step. erewrite bind_run.
  2: { apply lift_Ok. split; [apply umul_Some; split; [done|plia]|done]. }
  cbv zeta. unfold VirtualAddress.add. rewrite wrapping_add_small by plia.
  rewrite Hl'. run_step. by eexists.
Qed.

Example reserve_exact_witness :
  ∃ s', reserve (START_ADDRESS + 0x5000) 2 (new START_ADDRESS TOTAL_SIZE) = Ok tt s' ∧
        length (free_list s') = 2%nat ∧ vaa_wf s'.
Proof.
  set (b := {| address := START_ADDRESS; size := TOTAL_SIZE |}).
  destruct (reserve_exact (new START_ADDRESS TOTAL_SIZE) b (START_ADDRESS + 0x5000) 2)
    as (s' & E & Hwf & _).
  - constructor; [vm_compute; intuition congruence|constructor].
  - constructor; [vm_compute; reflexivity|constructor].
  - repeat constructor.
  - reflexivity.
  - lia.
  - left.
  - vm_compute; intuition congruence.
  - vm_compute; congruence.
  - exists s'. split; [exact E|]. split; [|exact Hwf]. vm_compute in E. injection E as <-. reflexivity.
Defined.

(** [reserve] at the start of a larger block moves the block's start by [page_count]
    bytes instead of pages: the very next allocation returns an unaligned address inside
    the reserved range. *)
Theorem reserve_front_overlaps (base total n : Z) :
  0 ≤ base → base mod PAGE_SIZE = 0 → base + total * PAGE_SIZE < U64 → 1 ≤ n < total → n < PAGE_SIZE →
  ∃ s1 a s2, reserve base n (new base total) = Ok tt s1 ∧ alloc 1 s1 = Ok a s2 ∧
    a mod PAGE_SIZE ≠ 0 ∧ base < a < base + n * PAGE_SIZE.
Proof.
  intros Hb Hal He Hn Hlt.
  exists {| free_list := [{| address := base + n; size := total - n |}] |}, (base + n).
  assert (∀ s, free_list s = [{| address := base + n; size := total - n |}] →
    ∃ s2, alloc 1 s = Ok (base + n) s2) as Halloc.
  { intros s Hs. unfold alloc. run_step. rewrite Hs. cbn [alloc_loop address size].
    replace (1 <=? total - n) with true by lia.
    destruct (Z.eqb_spec (total - n) 1); [run_step; run_step; eexists; done|].
    rewrite (proj2 (usub_Some (total - n) 1 _)) by (split; [done|lia]).
    change (umul PAGE_SIZE 1) with (Some 4096). cbn [mbind option_bind].
    run_step. run_step. eexists. done. }
  destruct (Halloc {| free_list := [{| address := base + n; size := total - n |}] |}) as [s2 Hs2];
    [done|].
  exists s2. split; [|split; [exact Hs2|pdlia]].
  unfold reserve, new. run_step. erewrite bind_run.
  2: { apply lift_Ok. split; [apply umul_Some; split; [done|plia]|done]. }
  cbn [free_list reserve_loop address size].
  rewrite (proj2 (umul_Some total PAGE_SIZE _)) by (split; [done|plia]). cbn [mbind option_bind].
  unfold VirtualAddress.add. rewrite !wrapping_add_small by plia.
  replace ((base <=? base) && _) with true by plia. rewrite Z.eqb_refl.
  replace (total =? n) with false by lia.
  rewrite (proj2 (usub_Some total n _)) by (split; [done|lia]). run_step. done.
Qed.

Example reserve_front_overlaps_witness :
  ∃ s1 a s2, reserve START_ADDRESS 2 (new START_ADDRESS TOTAL_SIZE) = Ok tt s1 ∧
    alloc 1 s1 = Ok a s2 ∧ a mod PAGE_SIZE ≠ 0 ∧
    START_ADDRESS < a < START_ADDRESS + 2 * PAGE_SIZE.
Proof.
  apply (reserve_front_overlaps START_ADDRESS TOTAL_SIZE 2); vm_compute; intuition congruence.
Defined.
