(* ===== verification/Frames.v ===== *)
(** What the page tables rely on the physical memory allocator for, as an interface,
    and the proof that [PhysicalMemoryAllocator] provides it. *)
From S2P Require Import Prelude Addresses PhysAlloc.

(** A source of page frames: [alloc] returns a frame nobody holds, [free] takes back a
    frame that is held, and neither affects another frame. *)
Class FrameAllocator (A : Type) := {
  fa_alloc : M A MemoryError Z;
  fa_free : Z → M A MemoryError unit;
  fa_wf : A → Prop;
  fa_allocated : A → Z → Prop;
  fa_alloc_returns a : fa_wf a → returns (fa_alloc a);
  fa_alloc_Err a e a' : fa_wf a → fa_alloc a = Err e a' → a' = a;
  fa_alloc_Ok a p a' : fa_wf a → fa_alloc a = Ok p a' →
    fa_wf a' ∧ p mod PAGE_SIZE = 0 ∧ 0 ≤ p < 2 ^ 48 ∧ ¬ fa_allocated a p ∧
    ∀ q, q mod PAGE_SIZE = 0 → (fa_allocated a' q ↔ fa_allocated a q ∨ q = p);
  fa_free_Ok a p : fa_wf a → fa_allocated a p → p mod PAGE_SIZE = 0 →
    ∃ a', fa_free p a = Ok tt a' ∧ fa_wf a' ∧
      ∀ q, q mod PAGE_SIZE = 0 → (fa_allocated a' q ↔ fa_allocated a q ∧ q ≠ p);
}.

(** The physical memory allocator, for RAM below 2^48. *)
Definition frames_wf (s : PhysicalMemoryAllocator) : Prop :=
  pma_wf s ∧ memory_start s + memory_length s ≤ 2 ^ 48.
Definition frame_allocated (s : PhysicalMemoryAllocator) (p : Z) : Prop := page_bit s p = 1.

Lemma alloc_contig_cases s n : pma_wf s → 1 ≤ n → n * PAGE_SIZE < U64 →
  (∃ a s', alloc_contig n s = Ok a s' ∧ first_fit s n a s') ∨
  (∃ e, alloc_contig n s = Err e s).
Proof.
  intros Hwf Hn Hov. pose proof (alloc_contig_search s n Hn) as Ho.
  destruct (find_run _ n _) as [[| | |i]|] eqn:Hf; cbn in Ho; try done.
  - right. unfold alloc_contig. run. rewrite Hf. by eexists.
  - right. unfold alloc_contig. run. rewrite Hf. run. by eexists.
  - left. by eapply alloc_contig_found.
Qed.

Lemma free_run_one l i : 0 ≤ i → free_run l i 1 → l !! Z.to_nat i = Some false.
Proof. intros Hi Hr. apply Hr. lia. Qed.

(** Addresses of the same page, for page aligned ones, are equal. *)
Lemma aligned_in_page p q : p mod PAGE_SIZE = 0 → q mod PAGE_SIZE = 0 →
  p ≤ q < p + 1 * PAGE_SIZE → q = p.
Proof. intros. pdlia. Qed.

Lemma page_bit_one s l' i b q : 0 ≤ i → updated_run (allocated_pages s) l' i 1 b →
  memory_start s mod PAGE_SIZE = 0 → q mod PAGE_SIZE = 0 →
  page_bit (set_pages s l') q =
    if decide (q = memory_start s + i * PAGE_SIZE) then Z.b2z b else page_bit s q.
Proof.
  intros Hi Hu Hal Hq. rewrite (page_bit_updated _ _ _ _ _ _ Hi Hu).
  do 2 case_decide; try done; exfalso; pdlia.
Qed.

Lemma pma_alloc_Ok s p s' : frames_wf s → PhysAlloc.alloc s = Ok p s' →
  frames_wf s' ∧ p mod PAGE_SIZE = 0 ∧ 0 ≤ p < 2 ^ 48 ∧ ¬ frame_allocated s p ∧
  ∀ q, q mod PAGE_SIZE = 0 → (frame_allocated s' q ↔ frame_allocated s q ∨ q = p).
Proof.
  intros [Hwf Hend] H. pose proof (alloc_contig_Ok s 1 p s' Hwf H) as (_ & Hff).
  pose proof (first_fit_wf _ _ _ _ Hwf Hff) as Hwf'.
  destruct Hff as (i & l' & -> & Hi & Hr & _ & -> & Hu).
  pose proof (free_run_in_range _ i 1 ltac:(done) Hi Hr) as Hin.
  destruct Hwf as [Hl Hal [Hs Hml] He]. split; [by split|].
  split; [by rewrite Z.mod_add by plia|]. split; [pdlia|].
  unfold frame_allocated. split.
  - unfold page_bit. rewrite decide_False; [done|]. intros [_ Hb].
    replace (memory_start s + i * PAGE_SIZE - memory_start s) with (i * PAGE_SIZE) in Hb by lia.
    rewrite Z.div_mul in Hb by plia. by rewrite (free_run_one _ _ Hi Hr) in Hb.
  - intros q Hq. rewrite (page_bit_one _ _ _ _ _ Hi Hu Hal Hq). case_decide; cbn; naive_solver.
Qed.

Lemma pma_free_Ok s p : frames_wf s → frame_allocated s p → p mod PAGE_SIZE = 0 →
  ∃ s', PhysAlloc.free p s = Ok tt s' ∧ frames_wf s' ∧
    ∀ q, q mod PAGE_SIZE = 0 → (frame_allocated s' q ↔ frame_allocated s q ∧ q ≠ p).
Proof.
  intros [Hwf Hend] Hp Hal. unfold frame_allocated, page_bit in Hp.
  case_decide as Hb; [|done]. destruct Hb as [Hlo Hb]. apply lookup_lt_Some in Hb.
  pose proof Hwf as [Hl Hsa [Hs Hml] He]. set (i := (p - memory_start s) / PAGE_SIZE) in *.
  assert (0 ≤ i) by (unfold i; pdlia).
  assert (p = memory_start s + i * PAGE_SIZE) as Hpi by (unfold i; pdlia).
  destruct (free_pages_spec s i 1) as (l' & Hf & Hu); [done|lia..|].
  exists (set_pages s l'). rewrite <- Hpi in Hf. split; [done|].
  split; [split; [by eapply updated_run_wf|done]|].
  intros q Hq. unfold frame_allocated. rewrite (page_bit_one _ _ _ _ _ ltac:(done) Hu Hsa Hq).
  rewrite <- Hpi. case_decide; cbn; naive_solver.
Qed.

#[export] Instance pma_frame_allocator : FrameAllocator PhysicalMemoryAllocator.
Proof.
  refine {| fa_alloc := PhysAlloc.alloc; fa_free := PhysAlloc.free; fa_wf := frames_wf;
            fa_allocated := frame_allocated |}.
  - intros s [Hwf _]. unfold PhysAlloc.alloc.
    destruct (alloc_contig_cases s 1 Hwf) as [(a & s' & -> & _) | (e & ->)]; done.
  - intros s e s' [Hwf _] H. unfold PhysAlloc.alloc in H.
    destruct (alloc_contig_cases s 1 Hwf) as [(a & s'' & E & _) | (e' & E)]; [done|done|..];
      rewrite E in H; naive_solver.
  - apply pma_alloc_Ok.
  - apply pma_free_Ok.
Defined.
