(* ===== verification/PageEntry.v ===== *)
(** Page table entries: the [PageTableEntry] bit field of
    [kernel/src/memory/paging.rs], its constructors and the accessors that
    interpret an entry at a level of the tree. *)
From S2P Require Import Prelude BitField Addresses.

(** [PageTableEntry(u64)] *)
Abbreviation PageTableEntry := Z (only parsing).

Record PageTableEntryOptions := {
  read_only : bool;
  el0_access : bool;
}.

Section entries.
Context `{BF : BitField}.
Implicit Types e : PageTableEntry.

(** *** The fields of [bitfield! { struct PageTableEntry(u64) }] that the code uses *)
Definition entry_address e : Z := bit_range e 47 12.
Definition set_address e (v : Z) : PageTableEntry := set_bit_range e 47 12 v.
Definition af e : bool := bit e 10.
Definition set_af e (b : bool) : PageTableEntry := set_bit e 10 b.
Definition ap_read_only e : bool := bit e 7.
Definition set_ap_read_only e (b : bool) : PageTableEntry := set_bit e 7 b.
Definition ap_el0_access e : bool := bit e 6.
Definition set_ap_el0_access e (b : bool) : PageTableEntry := set_bit e 6 b.
Definition get_type e : bool := bit e 1.
Definition set_type e (b : bool) : PageTableEntry := set_bit e 1 b.
Definition valid e : bool := bit e 0.
Definition set_valid e (b : bool) : PageTableEntry := set_bit e 0 b.

(** *** Constructors *)
Definition table_desc (table_ptr : Z) : PageTableEntry :=
  let e := 0 in
  let e := set_valid e true in
  let e := set_type e true in
  set_address e (Z.shiftr table_ptr 12).

Definition block_entry (base_address : Z) (level : Z) : option PageTableEntry :=
  let aligned :=
    if level =? 1 then Z.land base_address 0xffffff =? 0
    else if level =? 2 then Z.land base_address 0xfffff =? 0
    else false in
  if aligned then
    let e := 0 in
    let e := set_valid e true in
    let e := set_type e false in
    let e := set_af e true in
    Some (set_address e (Z.shiftr base_address 12))
  else None.

Definition page_entry (base_address : Z) : PageTableEntry :=
  let e := 0 in
  let e := set_valid e true in
  let e := set_type e true in
  let e := set_af e true in
  set_address e (Z.shiftr base_address 12).

Definition invalid : PageTableEntry := 0.

(** *** Interpretation at a level *)
Definition table_phy_addr e : option Z :=
  if negb (valid e) || negb (get_type e) then None
  else Some (Z.shiftl (entry_address e) 12).

(** The pointer to the next table is its physical address in the identity mapping.  The
    address field has 36 bits, so [to_virtual_canonical] does not overflow
    ([table_ref_total]) and the pointer is not null. *)
Definition table_ref e (lvl : Z) : option Z :=
  if 3 <=? lvl then None
  else a ← table_phy_addr e; PhysicalAddress.to_virtual_canonical a.

Definition base_address e (lvl : Z) : option Z :=
  if negb (valid e) || ((lvl <? 3) && get_type e) || ((3 <=? lvl) && negb (get_type e)) then None
  else Some (Z.shiftl (entry_address e) 12).

Definition apply (self : PageTableEntryOptions) (entry : PageTableEntry) : PageTableEntry :=
  set_ap_el0_access (set_ap_read_only entry (read_only self)) (el0_access self).

(** ** What the accessors read from a constructed entry *)

Lemma table_ref_total e lvl : lvl < 3 →
  table_ref e lvl = if valid e && get_type e then Some (entry_address e * PAGE_SIZE + CANONICAL)
                    else None.
Proof.
  intros Hl. unfold table_ref, table_phy_addr. replace (3 <=? lvl) with false by lia.
  destruct (valid e), (get_type e); cbn; try done.
  unfold PhysicalAddress.to_virtual_canonical. rewrite Z.shiftl_mul_pow2 by lia.
  apply uadd_Some. pose proof (bit_range_bound e 47 12 ltac:(lia)).
  unfold entry_address, CANONICAL, PAGE_SIZE in *. lia.
Qed.

Lemma table_ref_None e lvl : 3 ≤ lvl → table_ref e lvl = None.
Proof. intros. unfold table_ref. by replace (3 <=? lvl) with true by lia. Qed.

Lemma shift_address_page a : 0 ≤ a < 2 ^ 48 → a mod PAGE_SIZE = 0 →
  Z.shiftr a 12 mod 2 ^ 36 * PAGE_SIZE = a.
Proof. intros Ha Hal. rewrite Z.shiftr_div_pow2 by lia. pdlia. Qed.

Ltac entry := unfold table_desc, page_entry, apply, valid, get_type, entry_address, ap_read_only,
  ap_el0_access, af, set_valid, set_type, set_address, set_af, set_ap_read_only,
  set_ap_el0_access; autorewrite with bits; try done.

Lemma table_desc_valid p : valid (table_desc p) = true.
Proof. entry. Qed.
Lemma table_desc_type p : get_type (table_desc p) = true.
Proof. entry. Qed.
Lemma table_desc_address p : entry_address (table_desc p) = Z.shiftr p 12 mod 2 ^ 36.
Proof. entry. Qed.

Lemma page_entry_valid p : valid (page_entry p) = true.
Proof. entry. Qed.
Lemma page_entry_type p : get_type (page_entry p) = true.
Proof. entry. Qed.
Lemma page_entry_address p : entry_address (page_entry p) = Z.shiftr p 12 mod 2 ^ 36.
Proof. entry. Qed.

Lemma block_entry_fields p lvl e : block_entry p lvl = Some e →
  valid e = true ∧ get_type e = false ∧ entry_address e = Z.shiftr p 12 mod 2 ^ 36.
Proof.
  unfold block_entry. destruct (if lvl =? 1 then _ else _); [|done].
  intros [= <-]. split_and!; entry.
Qed.

Lemma apply_valid o e : valid (apply o e) = valid e.
Proof. entry. Qed.
Lemma apply_type o e : get_type (apply o e) = get_type e.
Proof. entry. Qed.
Lemma apply_address o e : entry_address (apply o e) = entry_address e.
Proof. entry. Qed.
Lemma apply_read_only o e : ap_read_only (apply o e) = read_only o.
Proof. entry. Qed.
Lemma apply_el0_access o e : ap_el0_access (apply o e) = el0_access o.
Proof. entry. Qed.

Lemma invalid_valid : valid invalid = false.
Proof. unfold valid, invalid. by rewrite bit_0. Qed.

(** Following a table descriptor leads to the table it was made for. *)
Lemma table_ref_table_desc p lvl : lvl < 3 → 0 ≤ p < 2 ^ 48 → p mod PAGE_SIZE = 0 →
  table_ref (table_desc p) lvl = Some (p + CANONICAL).
Proof.
  intros. rewrite table_ref_total by done.
  rewrite table_desc_valid, table_desc_type, table_desc_address. cbn [andb].
  by rewrite shift_address_page.
Qed.

Lemma table_ref_invalid e lvl : valid e = false → table_ref e lvl = None.
Proof.
  intros Hv. unfold table_ref, table_phy_addr. rewrite Hv. by destruct (3 <=? lvl).
Qed.

Lemma table_ref_block e lvl : get_type e = false → table_ref e lvl = None.
Proof.
  intros Hv. unfold table_ref, table_phy_addr. rewrite Hv. cbn. rewrite orb_true_r.
  by destruct (3 <=? lvl).
Qed.

(** The alignment that [block_entry] checks, in bytes. *)
Lemma block_entry_aligned p lvl e : block_entry p lvl = Some e →
  (lvl = 1 ∧ p mod 2 ^ 24 = 0) ∨ (lvl = 2 ∧ p mod 2 ^ 20 = 0).
Proof.
  unfold block_entry. change 0xffffff with (Z.ones 24). change 0xfffff with (Z.ones 20).
  rewrite !Z.land_ones by lia.
  destruct (Z.eqb_spec lvl 1); [destruct (Z.eqb_spec (p mod 2 ^ 24) 0); [auto|done]|].
  destruct (Z.eqb_spec lvl 2); [destruct (Z.eqb_spec (p mod 2 ^ 20) 0); [auto|done]|done].
Qed.
End entries.

Arguments valid {BF} e : simpl never.
Arguments get_type {BF} e : simpl never.
Arguments entry_address {BF} e : simpl never.
Arguments ap_read_only {BF} e : simpl never.
Arguments ap_el0_access {BF} e : simpl never.
Arguments table_ref {BF} e lvl : simpl never.
Arguments base_address {BF} e lvl : simpl never.
Arguments table_desc {BF} table_ptr : simpl never.
Arguments page_entry {BF} base_address : simpl never.
Arguments block_entry {BF} base_address level : simpl never.
Arguments apply {BF} self entry : simpl never.

#[export] Hint Rewrite @table_desc_valid @table_desc_type @table_desc_address @page_entry_valid
  @page_entry_type @page_entry_address @apply_valid @apply_type @apply_address
  @apply_read_only @apply_el0_access @invalid_valid : bits.
