(* ===== verification/Paging.v ===== *)
(** Page tables: [PageTable] of [kernel/src/memory/paging.rs].

    The tables live in physical memory and are accessed through the identity mapping;
    the model keeps them as a map from the pointer of a [LevelTable] to its 512 entries.
    Reading or writing through a pointer that has no table is [Undefined].  The frames
    for new tables come from a [FrameAllocator]. *)
From S2P Require Import Prelude BitField Addresses Frames PageEntry.

(** [LevelTable = [PageTableEntry; 512]] *)
Abbreviation LevelTable := (list PageTableEntry) (only parsing).

(** What [write_bytes(table_ptr, 0, 1)] leaves. *)
Definition zero_table : LevelTable := replicate 512 0.
Arguments zero_table : simpl never.

Lemma zero_table_lookup j e : zero_table !! j = Some e → e = 0.
Proof. by intros [-> _]%lookup_replicate_1. Qed.
Lemma zero_table_length : length zero_table = 512%nat.
Proof. done. Qed.

Record PageTable := {
  high_addresses : bool;
  asid : Z;
  level0_table : Z;       (* the [NonNull<LevelTable>] *)
  level0_phy_addr : Z;
}.

Record MappedRegion := {
  base_phys_addr : Z;
  base_virt_addr : Z;
  page_count : Z;
}.

(** The memory the page tables are in, the allocator, and the roots of the tables whose
    [modified] flag is set. *)
Record Tables (A : Type) := {
  tables : gmap Z LevelTable;
  frames : A;
  modified : gset Z;
}.
Arguments tables {A} _.
Arguments frames {A} _.
Arguments modified {A} _.
Arguments Build_Tables {A} _ _ _.

Abbreviation PT A := (M (Tables A) MemoryError).

Definition idx (va : Z) : list nat :=
  let '(_, i0, i1, i2, i3, _) := VirtualAddress.to_parts va in
  [Z.to_nat i0; Z.to_nat i1; Z.to_nat i2; Z.to_nat i3].

Arguments idx : simpl never.

Definition tag_ok (high : bool) (tag : Z) : bool :=
  if high then tag =? 0xffff else tag =? 0.

Section paging.
Context `{BF : BitField} {A : Type} `{FA : !FrameAllocator A}.

Definition read_entry (table : Z) (i : Z) : PT A PageTableEntry :=
  s ← get;
  match tables s !! table with
  | None => undefined
  | Some t => lift (t !! Z.to_nat i)
  end.

Definition write_entry (table : Z) (i : Z) (e : PageTableEntry) : PT A unit :=
  s ← get;
  match tables s !! table with
  | None => undefined
  | Some t =>
      _ ← lift (t !! Z.to_nat i);
      put (Build_Tables (<[table := <[Z.to_nat i := e]> t]> (tables s)) (frames s) (modified s))
  end.

Definition set_modified (self : PageTable) : PT A unit :=
  s ← get;
  put (Build_Tables (tables s) (frames s) ({[level0_phy_addr self]} ∪ modified s)).

(** A call of the frame allocator. *)
Definition with_frames {B} (f : M A MemoryError B) : PT A B := λ s,
  match f (frames s) with
  | Ok b a => Ok b (Build_Tables (tables s) a (modified s))
  | Err e a => Err e (Build_Tables (tables s) a (modified s))
  | Stop w => Stop w
  end.

Definition allocate_table : PT A Z :=
  new_page_phy_addr ← with_frames fa_alloc;
  table_ptr ← lift (PhysicalAddress.to_virtual_canonical new_page_phy_addr);
  s ← get;
  put (Build_Tables (<[table_ptr := zero_table]> (tables s)) (frames s) (modified s));;
  mret new_page_phy_addr.

Definition empty (high : bool) (id : Z) : PT A PageTable :=
  phy ← allocate_table;
  ptr ← lift (PhysicalAddress.to_virtual_canonical phy);
  mret {| high_addresses := high; asid := id; level0_table := ptr; level0_phy_addr := phy |}.

(** One round of the [for] over the levels 0 to 2 in [map_range]: where page [page_index]
    goes, or the size of the block that was installed ([continue 'top]). *)
Inductive descent :=
  | Descended (table : Z)
  | MappedBlock (large_block_size : Z).

Fixpoint descend (phy_start page_count page_index : Z) (options : PageTableEntryOptions)
    (levels : list (Z * Z * bool * Z)) (table : Z) : PT A descent :=
  match levels with
  | [] => mret (Descended table)
  | (lvl, i, can_allocate_large_block, large_block_size) :: levels' =>
      e ← read_entry table i;
      match table_ref e lvl with
      | Some existing_table =>
          descend phy_start page_count page_index options levels' existing_table
      | None =>
          assert (negb (valid e));;
          block ←
            (if can_allocate_large_block then
               left ← lift (usub page_count page_index);
               if large_block_size <=? left then
                 off ← lift (umul page_index PAGE_SIZE);
                 pa ← lift (uadd phy_start off);
                 mret (block_entry pa lvl)
               else mret None
             else mret None);
          match block with
          | Some b =>
              write_entry table i (apply options b);;
              mret (MappedBlock large_block_size)
          | None =>
              new_table ← allocate_table;
              write_entry table i (table_desc new_table);;
              next ← lift (table_ref (table_desc new_table) lvl);
              descend phy_start page_count page_index options levels' next
          end
      end
  end.

(** One round of ['top] in [map_range]: the new [page_index]. *)
Definition map_page (self : PageTable) (phy_start virt_start page_count : Z)
    (options : PageTableEntryOptions) (page_index : Z) : PT A Z :=
  off ← lift (umul page_index PAGE_SIZE);
  page_start ← lift (uadd virt_start off);
  let '(tag, i0, i1, i2, i3, po) := VirtualAddress.to_parts page_start in
  d ← descend phy_start page_count page_index options
        [(0, i0, false, 0);
         (1, i1, (i2 =? 0) && (i3 =? 0), 512 * 512);
         (2, i2, i3 =? 0, 512)]
        (level0_table self);
  match d with
  | MappedBlock n => lift (uadd page_index n)
  | Descended table =>
      pa ← lift (uadd phy_start off);
      write_entry table i3 (apply options (page_entry pa));;
      lift (uadd page_index 1)
  end.

Fixpoint map_loop (fuel : nat) (self : PageTable) (phy_start virt_start page_count : Z)
    (options : PageTableEntryOptions) (page_index : Z) : PT A unit :=
  if page_index <? page_count then
    match fuel with
    | O => out_of_fuel
    | S fuel' =>
        page_index' ← map_page self phy_start virt_start page_count options page_index;
        map_loop fuel' self phy_start virt_start page_count options page_index'
    end
  else mret tt.

Definition map_range (self : PageTable) (phy_start virt_start page_count : Z)
    (overwrite : bool) (options : PageTableEntryOptions) : PT A unit :=
  let '(tag, _, _, _, _, page_offset) := VirtualAddress.to_parts virt_start in
  if negb (page_offset =? 0) then
    throw (Map (MapRangeBadVirtualBase
      "starting virtual address for mapping range must be at a page boundary" virt_start))
  else if negb (tag_ok (high_addresses self) tag) then
    throw (Map (MapRangeBadVirtualBase
      "starting virtual address for mapping range must match tag for page table" virt_start))
  else if negb overwrite then panic (* todo!() *)
  else
    map_loop (Z.to_nat page_count) self phy_start virt_start page_count options 0;;
    set_modified self.

Definition identity (high : bool) (start_addr page_count id : Z)
    (options : PageTableEntryOptions) : PT A PageTable :=
  p ← empty high id;
  map_range p start_addr start_addr page_count true options;;
  mret p.

(** One round of ['top] in [unmap_range_custom]: how far [page_index] advances and the
    region [process_region] was called with, if any. *)
Fixpoint unmap_page (page_addr : Z) (levels : list (Z * Z * Z)) (table : Z)
    : PT A (Z * list MappedRegion) :=
  match levels with
  | [] => mret (0, [])
  | (lvl, i, block_size) :: levels' =>
      e ← read_entry table i;
      match table_ref e lvl with
      | Some existing_table => unmap_page page_addr levels' existing_table
      | None =>
          assert (negb (block_size =? 0));;
          let regions :=
            match base_address e lvl with
            | Some base => [{| base_virt_addr := page_addr; base_phys_addr := base;
                               page_count := block_size |}]
            | None => []
            end in
          write_entry table i invalid;;
          mret (block_size, regions)
      end
  end.

(** [for (lvl, i, block_size) in ...], also used by [physical_address_of]. *)
Definition walk_levels (va : Z) : list (Z * Z * Z) :=
  let '(tag, i0, i1, i2, i3, po) := VirtualAddress.to_parts va in
  [(0, i0, 0); (1, i1, 512 * 512); (2, i2, 512); (3, i3, 1)].

Fixpoint unmap_loop (fuel : nat) (self : PageTable) (virt_start page_count page_index : Z)
    : PT A (list MappedRegion) :=
  if page_index <? page_count then
    match fuel with
    | O => out_of_fuel
    | S fuel' =>
        off ← lift (umul page_index PAGE_SIZE);
        page_addr ← lift (uadd virt_start off);
        '(n, regions) ← unmap_page page_addr (walk_levels page_addr) (level0_table self);
        page_index' ← lift (uadd page_index n);
        rest ← unmap_loop fuel' self virt_start page_count page_index';
        mret (regions ++ rest)
    end
  else mret [].

(** [unmap_range_custom], returning the regions [process_region] is called with in order. *)
Definition unmap_range_custom (self : PageTable) (virt_start page_count : Z)
    : PT A (list MappedRegion) :=
  regions ← unmap_loop (Z.to_nat page_count) self virt_start page_count 0;
  set_modified self;;
  mret regions.

Definition unmap_range (self : PageTable) (virt_start page_count : Z) : PT A unit :=
  unmap_range_custom self virt_start page_count;;
  mret tt.

Fixpoint lookup_page (po : Z) (levels : list (Z * Z * Z)) (table : Z) : PT A (option Z) :=
  match levels with
  | [] => panic (* unreachable!() *)
  | (lvl, i, _) :: levels' =>
      e ← read_entry table i;
      match table_ref e lvl with
      | Some existing_table => lookup_page po levels' existing_table
      | None =>
          match base_address e lvl with
          | Some addr => pa ← lift (uadd addr po); mret (Some pa)
          | None => mret None
          end
      end
  end.

Definition physical_address_of (self : PageTable) (virt : Z) : PT A (option Z) :=
  let '(tag, _, _, _, _, po) := VirtualAddress.to_parts virt in
  if tag_ok (high_addresses self) tag then
    lookup_page po (walk_levels virt) (level0_table self)
  else mret None.

(** [drop_table], by depth: there are four levels. *)
Fixpoint drop_table (depth : nat) (lvl table table_phy : Z) : PT A unit :=
  match depth with
  | O => out_of_fuel
  | S depth' =>
      s ← get;
      match tables s !! table with
      | None => undefined
      | Some t =>
          for_each (λ e : PageTableEntry,
            match table_ref e lvl with
            | Some table' =>
                phy' ← lift (table_phy_addr e);
                drop_table depth' (lvl + 1) table' phy'
            | None => mret tt
            end) t;;
          with_frames (fa_free table_phy)
      end
  end.

Definition drop_PageTable (self : PageTable) : PT A unit :=
  drop_table 4 0 (level0_table self) (level0_phy_addr self).
End paging.
