(* ===== verification/PagingTree.v ===== *)
(** The trees that page tables form in memory: what a path of indices leads to, the
    translation the MMU performs, and how a write to one entry changes both.

    [forest_wf] is the invariant of all page tables of the kernel together: every
    reachable table is in memory, belongs to an allocated frame, and is reached along one
    path from one root only. *)
From S2P Require Import Prelude BitField Addresses Frames PageEntry Paging.

Section tree.
Context `{BF : BitField}.
Implicit Types (T : gmap Z LevelTable) (π ρ : list nat).

(** *** Following a path *)

Definition entry T (p : Z) (i : nat) : option PageTableEntry := t ← T !! p; t !! i.
Definition step T (p lvl : Z) (i : nat) : option Z := e ← entry T p i; table_ref e lvl.

Fixpoint follow T (p lvl : Z) π : option Z :=
  match π with
  | [] => Some p
  | i :: π' => q ← step T p lvl i; follow T q (lvl + 1) π'
  end.

(** The entry a walk along [π] ends at, and its level. *)
Fixpoint walk T (p lvl : Z) π : option (Z * PageTableEntry) :=
  match π with
  | [] => None
  | i :: π' =>
      e ← entry T p i;
      match table_ref e lvl with
      | Some q => walk T q (lvl + 1) π'
      | None => Some (lvl, e)
      end
  end.

(** A walk that ends at a valid entry. *)
Definition leaf T (root : Z) π : option (Z * PageTableEntry) :=
  '(lvl, e) ← walk T root 0 π; if valid e then Some (lvl, e) else None.

(** *** The MMU

    The stage 1 walk of the architecture for a 4 KiB granule and 48-bit addresses: a leaf
    at level 1 or 2 is a block, at level 3 a page; a leaf at level 0 and a level 3 entry
    of type 0 fault.  The low bits of a block's output address are those of the input. *)
Definition span (lvl : Z) : Z := 2 ^ (39 - 9 * lvl).

Definition translate T (high : bool) (root va : Z) : option (Z * bool * bool) :=
  let '(tag, _, _, _, _, _) := VirtualAddress.to_parts va in
  if tag_ok high tag then
    '(lvl, e) ← leaf T root (idx va);
    if (lvl =? 0) || ((lvl =? 3) && negb (get_type e)) then None
    else Some (entry_address e * PAGE_SIZE / span lvl * span lvl + va mod span lvl,
               ap_read_only e, ap_el0_access e)
  else None.

Lemma follow_app T p lvl π ρ :
  follow T p lvl (π ++ ρ) = q ← follow T p lvl π; follow T q (lvl + Z.of_nat (length π)) ρ.
Proof.
  revert p lvl. induction π as [|i π IH]; intros p lvl; cbn [app follow length].
  - cbn. by rewrite Z.add_0_r.
  - destruct (step T p lvl i) as [q|]; [|done]. cbn. rewrite IH.
    by replace (lvl + 1 + Z.of_nat (length π)) with (lvl + Z.of_nat (S (length π))) by lia.
Qed.

Lemma follow_snoc T p lvl π i :
  follow T p lvl (π ++ [i]) = q ← follow T p lvl π; step T q (lvl + Z.of_nat (length π)) i.
Proof.
  rewrite follow_app. destruct (follow T p lvl π) as [q|]; [|done]. cbn.
  by destruct (step T q _ i).
Qed.

(** There are no tables below level 3. *)
Lemma follow_length T p π q : follow T p 0 π = Some q → (length π ≤ 3)%nat.
Proof.
  intros H. destruct (decide (length π ≤ 3)%nat) as [|Hl]; [done|exfalso].
  rewrite <- (take_drop 3 π) in H. destruct (drop 3 π) as [|i ρ] eqn:Hd.
  { apply (f_equal length) in Hd. rewrite length_drop in Hd. cbn in Hd. lia. }
  rewrite follow_app in H. destruct (follow T p 0 (take 3 π)) as [r|]; [|done].
  cbn [mbind option_bind follow] in H.
  assert (length (take 3 π) = 3)%nat as Ht by (rewrite length_take; lia). rewrite Ht in H.
  unfold step in H. destruct (entry T r i) as [e|]; [|done]. cbn [mbind option_bind] in H.
  by rewrite table_ref_None in H by lia.
Qed.

Lemma walk_app T p lvl π ρ q : follow T p lvl π = Some q →
  walk T p lvl (π ++ ρ) = walk T q (lvl + Z.of_nat (length π)) ρ.
Proof.
  revert p lvl. induction π as [|i π IH]; intros p lvl; cbn [app follow walk length].
  - intros [= ->]. by rewrite Z.add_0_r.
  - unfold step. destruct (entry T p i) as [e|]; [|done]. cbn.
    destruct (table_ref e lvl) as [r|]; [|done]. cbn. intros H. rewrite (IH _ _ H).
    by replace (lvl + 1 + Z.of_nat (length π)) with (lvl + Z.of_nat (S (length π))) by lia.
Qed.

(** *** The invariant *)

Context {A : Type} `{FA : !FrameAllocator A}.
Implicit Types (R : Z → Prop) (s : Tables A).

Record forest_wf R s : Prop := {
  fw_frames : fa_wf (frames s);
  fw_table : ∀ r π p, R r → follow (tables s) r 0 π = Some p →
    ∃ t, tables s !! p = Some t ∧ length t = 512%nat;
  fw_inj : ∀ r r' π π' p, R r → R r' →
    follow (tables s) r 0 π = Some p → follow (tables s) r' 0 π' = Some p → r = r' ∧ π = π';
  fw_alloc : ∀ r π p, R r → follow (tables s) r 0 π = Some p →
    (p - CANONICAL) mod PAGE_SIZE = 0 ∧ fa_allocated (frames s) (p - CANONICAL);
}.

Definition same_leaves R T T' : Prop := ∀ r π, R r → leaf T' r π = leaf T r π.

Lemma same_leaves_trans R T1 T2 T3 :
  same_leaves R T1 T2 → same_leaves R T2 T3 → same_leaves R T1 T3.
Proof. intros H1 H2 r π Hr. by rewrite H2, H1. Qed.
End tree.

Arguments leaf {BF} T root π : simpl never.
Arguments translate {BF} T high root va : simpl never.

#[export] Instance same_leaves_refl `{BF : BitField} R : Reflexive (same_leaves R).
Proof. by intros T r π. Qed.

(** ** Writing one entry *)

Lemma snoc_not_prefix {B} (π : list B) i : ¬ (π ++ [i]) `prefix_of` π.
Proof. intros H%prefix_length. rewrite length_app in H. cbn in H. lia. Qed.

Lemma prefix_snoc_iff {B} (π ρ : list B) (i : B) : (π ++ [i]) `prefix_of` ρ →
  ∃ σ, ρ = π ++ i :: σ.
Proof. intros [σ ->]. exists σ. by rewrite <- app_assoc. Qed.

Section write.
Context `{BF : BitField} (R : Z → Prop) (T : gmap Z LevelTable).
Context (r : Z) (π : list nat) (p : Z) (t : LevelTable) (i : nat) (e' : PageTableEntry).
Context (Hr : R r) (Hp : follow T r 0 π = Some p).
Context (Ht : T !! p = Some t) (Hi : (i < length t)%nat).
Context (Hinj : ∀ r1 r2 π1 π2 q, R r1 → R r2 →
  follow T r1 0 π1 = Some q → follow T r2 0 π2 = Some q → r1 = r2 ∧ π1 = π2).

Local Abbreviation T' := (<[p := <[i := e']> t]> T).

Lemma entry_write q j :
  entry T' q j = if decide (q = p ∧ j = i) then Some e' else entry T q j.
Proof.
  unfold entry. destruct (decide (q = p)) as [->|Hq].
  - rewrite lookup_insert_eq, Ht. cbn. destruct (decide (j = i)) as [->|Hj].
    + rewrite list_lookup_insert_eq by done. by rewrite decide_True.
    + rewrite list_lookup_insert_ne by done. by rewrite decide_False by tauto.
  - rewrite lookup_insert_ne by done. by rewrite decide_False by tauto.
Qed.

(** An entry on another path keeps its value. *)
Lemma entry_write_other r' ρ q j : R r' → follow T r' 0 ρ = Some q →
  ¬ (r' = r ∧ ρ ++ [j] = π ++ [i]) → entry T' q j = entry T q j.
Proof.
  intros Hr' Hq Hne. rewrite entry_write. apply decide_False. intros [-> ->].
  destruct (Hinj r' r ρ π p Hr' Hr Hq Hp) as [-> ->]. by apply Hne.
Qed.

Lemma follow_write_other r' ρ : R r' → ¬ (r' = r ∧ (π ++ [i]) `prefix_of` ρ) →
  follow T' r' 0 ρ = follow T r' 0 ρ.
Proof.
  intros Hr'. induction ρ as [|j ρ IH] using rev_ind; [done|]. intros Hne.
  rewrite !follow_snoc, IH.
  2: { intros [? [σ ->]]. apply Hne. split; [done|]. exists (σ ++ [j]). by rewrite app_assoc. }
  destruct (follow T r' 0 ρ) as [q|] eqn:Hq; [|done]. cbn. unfold step.
  rewrite (entry_write_other r' ρ q j); [done..|].
  intros [-> Heq]. apply Hne. split; [done|]. by rewrite Heq.
Qed.

Lemma follow_write_self : follow T' r 0 π = Some p.
Proof. rewrite follow_write_other; [done..|]. intros [_ H]. by apply snoc_not_prefix in H. Qed.

Lemma walk_write_other r' ρ q σ : R r' → follow T r' 0 ρ = Some q →
  ¬ (r' = r ∧ (π ++ [i]) `prefix_of` (ρ ++ σ)) →
  walk T' q (Z.of_nat (length ρ)) σ = walk T q (Z.of_nat (length ρ)) σ.
Proof.
  intros Hr'. revert ρ q. induction σ as [|j σ IH]; intros ρ q Hq Hne; cbn; [done|].
  rewrite (entry_write_other r' ρ q j); [|done..|].
  2: { intros [-> Heq]. apply Hne. split; [done|]. exists σ. by rewrite <- Heq, <- app_assoc. }
  destruct (entry T q j) as [e|] eqn:He; [|done]. cbn.
  destruct (table_ref e _) as [q'|] eqn:Href; [|done].
  specialize (IH (ρ ++ [j]) q'). rewrite length_app, Nat2Z.inj_add in IH. apply IH.
  - rewrite follow_snoc, Hq. cbn. unfold step. rewrite He. cbn. by rewrite Z.add_0_l in *.
  - by rewrite <- app_assoc.
Qed.

Lemma leaf_write_other r' ρ : R r' → ¬ (r' = r ∧ (π ++ [i]) `prefix_of` ρ) →
  leaf T' r' ρ = leaf T r' ρ.
Proof.
  intros Hr' Hne. unfold leaf.
  pose proof (walk_write_other r' [] r' ρ Hr' eq_refl Hne) as Hw.
  change (walk T' r' 0 ρ = walk T r' 0 ρ) in Hw. by rewrite Hw.
Qed.

Lemma walk_write_self σ :
  walk T' r 0 (π ++ i :: σ) =
    match table_ref e' (Z.of_nat (length π)) with
    | Some q => walk T' q (Z.of_nat (length π) + 1) σ
    | None => Some (Z.of_nat (length π), e')
    end.
Proof.
  rewrite (walk_app T' r 0 π (i :: σ) p follow_write_self). cbn [walk].
  rewrite entry_write, decide_True by done. cbn. by rewrite Z.add_0_l.
Qed.

Lemma step_write_self : step T' p (Z.of_nat (length π)) i = table_ref e' (Z.of_nat (length π)).
Proof. unfold step. by rewrite entry_write, decide_True. Qed.

(** The tables a tree reaches after a leaf was written are among those it reached. *)
Lemma follow_write_leaf r' ρ q : table_ref e' (Z.of_nat (length π)) = None →
  R r' → follow T' r' 0 ρ = Some q → follow T r' 0 ρ = Some q.
Proof.
  intros Hleaf Hr' Hq. destruct (decide (r' = r ∧ (π ++ [i]) `prefix_of` ρ)) as [[-> Hpre]|].
  - exfalso. apply prefix_snoc_iff in Hpre as [σ ->].
    rewrite follow_app, follow_write_self in Hq. cbn in Hq. rewrite Z.add_0_l in Hq.
    by rewrite step_write_self, Hleaf in Hq.
  - by rewrite <- (follow_write_other r' ρ).
Qed.
End write.

(** ** The invariant under the three kinds of update *)

Section updates.
Context `{BF : BitField} {A : Type} `{FA : !FrameAllocator A} (R : Z → Prop).
Implicit Types (s : Tables A) (T : gmap Z LevelTable) (π ρ : list nat).

Lemma lookup_write T p t i e' q tq :
  T !! p = Some t → T !! q = Some tq →
  ∃ tq', <[p := <[i := e']> t]> T !! q = Some tq' ∧ length tq' = length tq.
Proof.
  intros Hp Hq. destruct (decide (q = p)) as [->|Hne].
  - exists (<[i := e']> t). rewrite lookup_insert_eq. split; [done|].
    rewrite length_insert. congruence.
  - exists tq. by rewrite lookup_insert_ne.
Qed.

(** A leaf replaces whatever the path led to. *)
Lemma forest_write_leaf s r π p t i e' : forest_wf R s → R r →
  follow (tables s) r 0 π = Some p → tables s !! p = Some t → (i < length t)%nat →
  table_ref e' (Z.of_nat (length π)) = None →
  let T' := <[p := <[i := e']> t]> (tables s) in
  forest_wf R (Build_Tables T' (frames s) (modified s)) ∧
  ∀ r' ρ, R r' → leaf T' r' ρ =
    if decide (r' = r ∧ (π ++ [i]) `prefix_of` ρ)
    then (if valid e' then Some (Z.of_nat (length π), e') else None)
    else leaf (tables s) r' ρ.
Proof.
  intros [Hf Htab Hinj Hal] Hr Hp Ht Hi Hleaf T'.
  assert (∀ r' ρ q, R r' → follow T' r' 0 ρ = Some q → follow (tables s) r' 0 ρ = Some q) as Hfol.
  { intros r' ρ q. apply (follow_write_leaf R (tables s) r π p t i e' Hr Hp Ht Hi Hinj); done. }
  split; [split; cbn|].
  - done.
  - intros r' ρ q Hr' Hq. destruct (Htab r' ρ q Hr' (Hfol _ _ _ Hr' Hq)) as (tq & Htq & Hlen).
    destruct (lookup_write (tables s) p t i e' q tq Ht Htq) as (tq' & ? & ?).
    exists tq'. split; [done|congruence].
  - intros r1 r2 π1 π2 q H1 H2 Hq1 Hq2. eapply Hinj; eauto.
  - intros r' ρ q Hr' Hq. eapply Hal; eauto.
  - intros r' ρ Hr'. case_decide as Hd.
    + destruct Hd as [-> [σ ->]%prefix_snoc_iff]. unfold leaf.
      unfold T'. rewrite (walk_write_self R (tables s) r π p t i e' Hr Hp Ht Hi Hinj σ), Hleaf.
      done.
    + by apply (leaf_write_other R (tables s) r π p t i e' Hr Hp Ht Hi Hinj).
Qed.

(** A table that no path leads to may change freely. *)
Section fresh.
Context (T : gmap Z LevelTable) (q : Z) (t : LevelTable).
Context (Hfresh : ∀ r ρ, R r → follow T r 0 ρ ≠ Some q).

Lemma entry_fresh r ρ p i : R r → follow T r 0 ρ = Some p → entry (<[q := t]> T) p i = entry T p i.
Proof.
  intros Hr Hp. unfold entry. rewrite lookup_insert_ne; [done|].
  intros <-. by eapply Hfresh.
Qed.

Lemma follow_fresh r ρ : R r → follow (<[q := t]> T) r 0 ρ = follow T r 0 ρ.
Proof.
  intros Hr. induction ρ as [|j ρ IH] using rev_ind; [done|].
  rewrite !follow_snoc, IH. destruct (follow T r 0 ρ) as [p|] eqn:Hp; [|done].
  cbn. unfold step. by rewrite (entry_fresh r ρ p j).
Qed.

Lemma walk_fresh r ρ p σ : R r → follow T r 0 ρ = Some p →
  walk (<[q := t]> T) p (Z.of_nat (length ρ)) σ = walk T p (Z.of_nat (length ρ)) σ.
Proof.
  intros Hr. revert ρ p. induction σ as [|j σ IH]; intros ρ p Hp; cbn; [done|].
  rewrite (entry_fresh r ρ p j) by done. destruct (entry T p j) as [e|] eqn:He; [|done]. cbn.
  destruct (table_ref e _) as [p'|] eqn:Href; [|done].
  specialize (IH (ρ ++ [j]) p'). rewrite length_app, Nat2Z.inj_add in IH. apply IH.
  rewrite follow_snoc, Hp. cbn. unfold step. rewrite He. cbn. by rewrite Z.add_0_l in *.
Qed.

Lemma leaf_fresh r ρ : R r → leaf (<[q := t]> T) r ρ = leaf T r ρ.
Proof.
  intros Hr. unfold leaf. pose proof (walk_fresh r [] r ρ Hr eq_refl) as Hw.
  change (walk (<[q := t]> T) r 0 ρ = walk T r 0 ρ) in Hw. by rewrite Hw.
Qed.
End fresh.

(** The frame the allocator returns is on no path. *)
Lemma alloc_fresh s pa a' : forest_wf R s → fa_alloc (frames s) = Ok pa a' →
  ∀ r ρ, R r → follow (tables s) r 0 ρ ≠ Some (pa + CANONICAL).
Proof.
  intros [Hf _ _ Hal] Ha r ρ Hr Hq. destruct (Hal r ρ _ Hr Hq) as [_ Hb].
  replace (pa + CANONICAL - CANONICAL) with pa in Hb by lia.
  by apply fa_alloc_Ok in Ha as (_ & _ & _ & Hn & _).
Qed.

Lemma forest_new_frame s pa a' t : forest_wf R s → fa_alloc (frames s) = Ok pa a' →
  forest_wf R (Build_Tables (<[pa + CANONICAL := t]> (tables s)) a' (modified s)).
Proof.
  intros Hwf Ha. pose proof (alloc_fresh s pa a' Hwf Ha) as Hfr.
  destruct Hwf as [Hf Htab Hinj Hal].
  destruct (fa_alloc_Ok _ _ _ Hf Ha) as (Hf' & _ & _ & _ & Hgrow). split; cbn.
  - done.
  - intros r ρ q Hr Hq. rewrite follow_fresh in Hq by done.
    destruct (Htab r ρ q Hr Hq) as (tq & Htq & ?). exists tq.
    rewrite lookup_insert_ne; [done|]. intros <-. by eapply Hfr.
  - intros r1 r2 π1 π2 q H1 H2. rewrite !follow_fresh by done. by apply Hinj.
  - intros r ρ q Hr Hq. rewrite follow_fresh in Hq by done.
    destruct (Hal r ρ q Hr Hq) as [Hm Hb]. split; [done|]. apply Hgrow; [done|]. by left.
Qed.

(** Linking an empty table in place of an invalid entry. *)
Section link.
Context (T : gmap Z LevelTable) (r : Z) (π : list nat) (p : Z) (t : LevelTable) (i : nat).
Context (e : PageTableEntry) (pa : Z).
Context (Hr : R r) (Hp : follow T r 0 π = Some p) (Ht : T !! p = Some t) (He : t !! i = Some e).
Context (Hinv : valid e = false) (Hpa : 0 ≤ pa < 2 ^ 48) (Hal : pa mod PAGE_SIZE = 0).
Context (Hlvl : (length π < 3)%nat).
Context (Hinj : ∀ r1 r2 π1 π2 q, R r1 → R r2 →
  follow T r1 0 π1 = Some q → follow T r2 0 π2 = Some q → r1 = r2 ∧ π1 = π2).
Local Abbreviation q := (pa + CANONICAL).
Context (Hq : T !! q = Some zero_table) (Hfresh : ∀ r ρ, R r → follow T r 0 ρ ≠ Some q).
Local Abbreviation T' := (<[p := <[i := table_desc pa]> t]> T).

Lemma link_index : (i < length t)%nat.
Proof. by eapply lookup_lt_Some. Qed.

Lemma link_entry_new j e1 : entry T' q j = Some e1 → e1 = 0.
Proof.
  unfold entry. rewrite lookup_insert_ne.
  - rewrite Hq. cbn. apply zero_table_lookup.
  - intros ->. by eapply Hfresh.
Qed.

Lemma link_follow_new : follow T' r 0 (π ++ [i]) = Some q.
Proof.
  rewrite follow_snoc, (follow_write_self R T r π p t i _ Hr Hp Ht link_index Hinj). cbn.
  rewrite Z.add_0_l, (step_write_self T π p t i _ Ht link_index).
  apply table_ref_table_desc; [lia|done..].
Qed.

Lemma link_follow r' ρ x : R r' → follow T' r' 0 ρ = Some x →
  follow T r' 0 ρ = Some x ∨ r' = r ∧ ρ = π ++ [i] ∧ x = q.
Proof.
  intros Hr' Hx. destruct (decide (r' = r ∧ (π ++ [i]) `prefix_of` ρ)) as [[-> [σ ->]]|Hne].
  - rewrite follow_app, link_follow_new in Hx. cbn [mbind option_bind] in Hx.
    destruct σ as [|j σ].
    + right. rewrite app_nil_r. by injection Hx as <-.
    + exfalso. cbn [follow] in Hx. unfold step in Hx.
      destruct (entry T' q j) as [e1|] eqn:He1; [|done]. apply link_entry_new in He1 as ->.
      cbn [mbind option_bind] in Hx. by rewrite table_ref_invalid in Hx by (by rewrite invalid_valid).
  - left. by rewrite <- (follow_write_other R T r π p t i (table_desc pa) Hr Hp Ht link_index Hinj r' ρ).
Qed.

Lemma leaf_new_table lvl σ : ∀ l e1, walk T' q lvl σ = Some (l, e1) → valid e1 = false.
Proof.
  intros l e1. destruct σ as [|j σ]; cbn; [done|].
  destruct (entry T' q j) as [e2|] eqn:He2; [|done]. apply link_entry_new in He2 as ->. cbn.
  rewrite table_ref_invalid by apply invalid_valid. intros [= <- <-]. apply invalid_valid.
Qed.

Lemma link_same_leaves : same_leaves R T T'.
Proof.
  intros r' ρ Hr'. destruct (decide (r' = r ∧ (π ++ [i]) `prefix_of` ρ)) as [[-> Hpre]|Hne].
  2: { by apply (leaf_write_other R T r π p t i _ Hr Hp Ht link_index Hinj). }
  apply prefix_snoc_iff in Hpre as [σ ->]. unfold leaf.
  rewrite (walk_write_self R T r π p t i _ Hr Hp Ht link_index Hinj σ).
  rewrite table_ref_table_desc by (done || lia).
  rewrite (walk_app T r 0 π (i :: σ) p Hp). cbn [walk]. unfold entry. rewrite Ht. cbn.
  rewrite He. cbn. rewrite table_ref_invalid by done. cbn. rewrite Hinv.
  destruct (walk T' q _ σ) as [[l e1]|] eqn:Hw; [|done]. cbn.
  by rewrite (leaf_new_table _ _ _ _ Hw).
Qed.
End link.

Lemma forest_link s r π p t i e pa a' :
  forest_wf R s → R r → follow (tables s) r 0 π = Some p → tables s !! p = Some t →
  t !! i = Some e → valid e = false → (length π < 3)%nat → fa_alloc (frames s) = Ok pa a' →
  let T1 := <[pa + CANONICAL := zero_table]> (tables s) in
  let T' := <[p := <[i := table_desc pa]> t]> T1 in
  T1 !! p = Some t ∧ forest_wf R (Build_Tables T' a' (modified s)) ∧
  same_leaves R (tables s) T' ∧ follow T' r 0 (π ++ [i]) = Some (pa + CANONICAL).
Proof.
  intros Hwf Hr Hp Ht He Hv Hl Ha T1 T'.
  pose proof (alloc_fresh s pa a' Hwf Ha) as Hfr.
  pose proof (forest_new_frame s pa a' zero_table Hwf Ha) as [Hf1 Htab1 Hinj1 Hal1].
  pose proof (fa_alloc_Ok _ _ _ (fw_frames _ _ Hwf) Ha) as (_ & Hpal & Hpa & _ & Hgrow).
  cbn in *. fold T1 in Htab1, Hinj1, Hal1.
  assert (T1 !! p = Some t) as Ht1.
  { unfold T1. rewrite lookup_insert_ne; [done|]. intros <-. by eapply Hfr. }
  assert (follow T1 r 0 π = Some p) as Hp1 by (unfold T1; by rewrite follow_fresh).
  assert (T1 !! (pa + CANONICAL) = Some zero_table) as Hq1 by apply lookup_insert_eq.
  assert (∀ r ρ, R r → follow T1 r 0 ρ ≠ Some (pa + CANONICAL)) as Hfr1.
  { intros. unfold T1. rewrite follow_fresh by done. by apply Hfr. }
  assert (∀ r' ρ x, R r' → follow T' r' 0 ρ = Some x →
    follow T1 r' 0 ρ = Some x ∨ r' = r ∧ ρ = π ++ [i] ∧ x = pa + CANONICAL) as Hfol.
  { intros. by eapply link_follow. }
  split; [done|]. split; [split; cbn|split].
  - done.
  - intros r' ρ x Hr' Hx.
    assert (∃ tx, T1 !! x = Some tx ∧ length tx = 512%nat) as (tx & Htx & Hlx).
    { destruct (Hfol _ _ _ Hr' Hx) as [?|(-> & -> & ->)]; [eauto|].
      by exists zero_table. }
    destruct (lookup_write T1 p t i (table_desc pa) x tx Ht1 Htx) as (tx' & ? & ?).
    exists tx'. split; [done|congruence].
  - intros r1 r2 π1 π2 x H1 H2 Hx1 Hx2.
    destruct (Hfol _ _ _ H1 Hx1) as [?|(-> & -> & ->)], (Hfol _ _ _ H2 Hx2) as [?|(-> & -> & Heq)];
      subst; [by eapply Hinj1|by destruct (Hfr1 _ π1 H1)|by destruct (Hfr1 _ π2 H2)|done].
  - intros r' ρ x Hr' Hx. destruct (Hfol _ _ _ Hr' Hx) as [?|(-> & -> & ->)]; [eauto|].
    replace (pa + CANONICAL - CANONICAL) with pa by lia. split; [done|].
    apply Hgrow; [done|by right].
  - eapply same_leaves_trans; [|by eapply link_same_leaves].
    intros r' ρ Hr'. unfold T1. by apply leaf_fresh.
  - by eapply link_follow_new.
Qed.
End updates.
