(* ===== verification/MapRange.v ===== *)
(** [PageTable::map_range] against the MMU: which translations it creates. *)
From S2P Require Import Prelude BitField Addresses Frames PageEntry Paging PagingTree.

Section map_range.
Context `{BF : BitField} {A : Type} `{FA : !FrameAllocator A} (R : Z → Prop).
Implicit Types (s : Tables A) (T : gmap Z LevelTable) (π ρ : list nat).

(** *** Running the primitives *)

Lemma read_entry_run s table i t e : tables s !! table = Some t → t !! Z.to_nat i = Some e →
  read_entry table i s = Ok e s.
Proof. intros Ht He. unfold read_entry. run_step. rewrite Ht, He. done. Qed.

Lemma write_entry_run s table i t e e' : tables s !! table = Some t → t !! Z.to_nat i = Some e →
  write_entry table i e' s =
    Ok tt (Build_Tables (<[table := <[Z.to_nat i := e']> t]> (tables s)) (frames s) (modified s)).
Proof. intros Ht He. unfold write_entry. run_step. rewrite Ht, He. run_step. done. Qed.

Lemma allocate_table_run s : fa_wf (frames s) →
  match fa_alloc (frames s) with
  | Ok pa a' => allocate_table s =
      Ok pa (Build_Tables (<[pa + CANONICAL := zero_table]> (tables s)) a' (modified s))
  | Err e a' => allocate_table s = Err e s
  | Stop _ => False
  end.
Proof.
  intros Hf. pose proof (fa_alloc_returns _ Hf) as Hret. unfold allocate_table, with_frames.
  destruct (fa_alloc (frames s)) as [pa a'|e a'|w] eqn:Ha; [| |done].
  - destruct (fa_alloc_Ok _ _ _ Hf Ha) as (_ & _ & Hpa & _).
    unfold mbind, M_bind. rewrite Ha. unfold PhysicalAddress.to_virtual_canonical.
    rewrite (proj2 (uadd_Some pa CANONICAL _)) by (split; [done|unfold CANONICAL; lia]). done.
  - unfold mbind, M_bind. rewrite Ha. rewrite (fa_alloc_Err _ _ _ Hf Ha). by destruct s.
Qed.

(** *** One level of the descent *)

Definition updated_leaf T T' (r : Z) π (lvl : Z) (e : PageTableEntry) : Prop :=
  ∀ r' ρ, R r' → leaf T' r' ρ =
    if decide (r' = r ∧ π `prefix_of` ρ) then Some (lvl, e) else leaf T r' ρ.

Context (r phy_start page_count page_index : Z) (options : PageTableEntryOptions).
Context (Hr : R r) (Hindex : 0 ≤ page_index < page_count) (Hphy : 0 ≤ phy_start).
Context (Hend : phy_start + page_count * PAGE_SIZE ≤ 2 ^ 48).
Local Abbreviation pa := (phy_start + page_index * PAGE_SIZE).
Local Abbreviation desc := (descend phy_start page_count page_index options).

Inductive level_outcome s π lvl i (can : bool) size levels (r0 : res (Tables A) MemoryError descent)
    : Prop :=
  | lo_down s1 table1 : forest_wf R s1 → same_leaves R (tables s) (tables s1) →
      follow (tables s1) r 0 (π ++ [i]) = Some table1 → r0 = desc levels table1 s1 →
      level_outcome s π lvl i can size levels r0
  | lo_block s1 b : can = true → size ≤ page_count - page_index → block_entry pa lvl = Some b →
      forest_wf R s1 → updated_leaf (tables s) (tables s1) r (π ++ [i]) lvl (apply options b) →
      r0 = Ok (MappedBlock size) s1 → level_outcome s π lvl i can size levels r0
  | lo_err e s1 : forest_wf R s1 → same_leaves R (tables s) (tables s1) → r0 = Err e s1 →
      level_outcome s π lvl i can size levels r0
  | lo_stop e : valid e = true → (∀ σ, leaf (tables s) r (π ++ i :: σ) = Some (lvl, e)) →
      r0 = Stop Panic → level_outcome s π lvl i can size levels r0.

Lemma page_address_run s : lift (E:=MemoryError) (umul page_index PAGE_SIZE) s
    = Ok (page_index * PAGE_SIZE) s ∧
  lift (E:=MemoryError) (uadd phy_start (page_index * PAGE_SIZE)) s = Ok pa s.
Proof.
  split; apply lift_Ok; (split; [|done]); [apply umul_Some|apply uadd_Some]; plia.
Qed.

Lemma descend_level s π table (lvl i : Z) can size levels : forest_wf R s →
  follow (tables s) r 0 π = Some table → lvl = Z.of_nat (length π) → lvl < 3 → 0 ≤ i < 512 →
  level_outcome s π lvl (Z.to_nat i) can size levels
    (desc ((lvl, i, can, size) :: levels) table s).
Proof.
  intros Hwf Hfol Hl Hl3 Hi. destruct (fw_table _ _ Hwf r π table Hr Hfol) as (t & Ht & Hlen).
  destruct (lookup_lt_is_Some_2 t (Z.to_nat i)) as [e He]; [lia|].
  cbn [descend]. erewrite bind_run by (by eapply read_entry_run).
  destruct (table_ref e lvl) as [next|] eqn:Href.
  { apply (lo_down _ _ _ _ _ _ _ _ s next); [done|done| |done].
    rewrite follow_snoc, Hfol. cbn. unfold step, entry. rewrite Ht. cbn. rewrite He. cbn.
    by rewrite Z.add_0_l, <- Hl. }
  destruct (valid e) eqn:Hv.
  { apply (lo_stop _ _ _ _ _ _ _ _ e); [done| |done]. intros σ. unfold leaf.
    rewrite (walk_app _ _ _ _ _ _ Hfol). cbn [walk]. unfold entry. rewrite Ht. cbn.
    rewrite He. cbn. rewrite Z.add_0_l, <- Hl, Href. cbn. by rewrite Hv. }
  erewrite bind_run by done.
  set (block := if can then _ else _).
  assert (∃ ob, block s = Ok ob s ∧ ∀ b, ob = Some b →
    can = true ∧ size ≤ page_count - page_index ∧ block_entry pa lvl = Some b) as (ob & Hob & Hb).
  { unfold block. destruct can; [|by eexists]. run_step.
    destruct (Z.leb_spec size (page_count - page_index)); [|by eexists].
    destruct (page_address_run s) as [H1 H2].
    erewrite bind_run by exact H1. erewrite bind_run by exact H2. by eexists. }
  erewrite bind_run by exact Hob. destruct ob as [b|].
  - destruct (Hb b eq_refl) as (-> & Hsz & Hbe). destruct (block_entry_fields _ _ _ Hbe) as (Hbv & Hbt & _).
    destruct (forest_write_leaf R s r π table t (Z.to_nat i) (apply options b)) as [Hwf' Hleaf];
      [done..|lia|by apply table_ref_block; rewrite apply_type|].
    eapply lo_block; [done|done|exact Hbe|exact Hwf'| |].
    + intros r' ρ Hr'. cbn. rewrite (Hleaf r' ρ Hr'), apply_valid, Hbv, <- Hl. done.
    + by erewrite bind_run by (by eapply write_entry_run).
  - pose proof (allocate_table_run s (fw_frames _ _ Hwf)) as Hal.
    destruct (fa_alloc (frames s)) as [new a'|err a'|w] eqn:Ha; [| |done].
    + destruct (forest_link R s r π table t (Z.to_nat i) e new a') as (Ht1 & Hwf' & Hsame & Hnew);
        [done..|lia|done|].
      eapply lo_down; [exact Hwf'|exact Hsame|exact Hnew|].
      erewrite bind_run by exact Hal. erewrite bind_run by (eapply write_entry_run; [exact Ht1|exact He]).
      destruct (fa_alloc_Ok _ _ _ (fw_frames _ _ Hwf) Ha) as (_ & Hpal & Hpa & _).
      erewrite bind_run; [done|]. by rewrite table_ref_table_desc.
    + eapply lo_err; [exact Hwf|done|]. unfold mbind, M_bind. by rewrite Hal.
Qed.

(** *** One round of ['top] *)

Context (self : PageTable) (virt_start : Z) (Hself : level0_table self = r).
Context (Hvirt : 0 ≤ virt_start) (Hvend : virt_start + page_index * PAGE_SIZE < U64).
Local Abbreviation va := (virt_start + page_index * PAGE_SIZE).

(** What the new entry says. *)
Record entry_ok (lvl : Z) (e : PageTableEntry) : Prop := {
  eo_valid : valid e = true;
  eo_type : get_type e = (lvl =? 3);
  eo_address : entry_address e * PAGE_SIZE = pa;
  eo_read_only : ap_read_only e = read_only options;
  eo_el0_access : ap_el0_access e = el0_access options;
  eo_aligned : lvl = 1 ∧ pa mod 2 ^ 24 = 0 ∨ lvl = 2 ∧ pa mod 2 ^ 20 = 0 ∨ lvl = 3;
}.

(** The pages a leaf of a level maps. *)
Definition block_pages (lvl : Z) : Z := 512 ^ (3 - lvl).

Inductive page_outcome s (r0 : res (Tables A) MemoryError Z) : Prop :=
  | po_ok s1 lvl e : 1 ≤ lvl ≤ 3 → block_pages lvl ≤ page_count - page_index →
      va mod (block_pages lvl * PAGE_SIZE) = 0 → entry_ok lvl e → forest_wf R s1 →
      updated_leaf (tables s) (tables s1) r (take (Z.to_nat lvl + 1) (idx va)) lvl e →
      r0 = Ok (page_index + block_pages lvl) s1 → page_outcome s r0
  | po_err e s1 : forest_wf R s1 → same_leaves R (tables s) (tables s1) → r0 = Err e s1 →
      page_outcome s r0
  | po_stop lvl e : lvl < 3 → leaf (tables s) r (idx va) = Some (lvl, e) →
      r0 = Stop Panic → page_outcome s r0.

Lemma updated_leaf_same T T1 T2 π lvl e : same_leaves R T T1 →
  updated_leaf T1 T2 r π lvl e → updated_leaf T T2 r π lvl e.
Proof. intros Hs Hu r' ρ Hr'. rewrite Hu by done. case_decide; [done|]. by apply Hs. Qed.

Lemma pa_bound : 0 ≤ pa < 2 ^ 48.
Proof. plia. Qed.

Lemma block_entry_ok lvl b : phy_start mod PAGE_SIZE = 0 → block_entry pa lvl = Some b →
  entry_ok lvl (apply options b).
Proof.
  intros Hal Hb. pose proof (block_entry_aligned _ _ _ Hb) as Ha.
  destruct (block_entry_fields _ _ _ Hb) as (Hv & Ht & Had).
  split; rewrite ?apply_valid, ?apply_type, ?apply_address, ?apply_read_only, ?apply_el0_access;
    try done.
  - rewrite Ht. destruct Ha as [[-> _]|[-> _]]; done.
  - rewrite Had. apply shift_address_page; [apply pa_bound|pdlia].
  - naive_solver.
Qed.

Lemma page_entry_ok : phy_start mod PAGE_SIZE = 0 → entry_ok 3 (apply options (page_entry pa)).
Proof.
  intros Hal. split; autorewrite with bits; try done; [|auto].
  apply shift_address_page; [apply pa_bound|pdlia].
Qed.

(** The three levels in sequence. *)
Section descent.
Context (i0 i1 i2 i3 : Z).
Context (B0 : 0 ≤ i0 < 512) (B1 : 0 ≤ i1 < 512) (B2 : 0 ≤ i2 < 512).
Local Abbreviation path := [Z.to_nat i0; Z.to_nat i1; Z.to_nat i2; Z.to_nat i3].
Local Abbreviation level0 := (0, i0, false, 0).
Local Abbreviation level1 := (1, i1, (i2 =? 0) && (i3 =? 0), 512 * 512).
Local Abbreviation level2 := (2, i2, i3 =? 0, 512).

Inductive descent_outcome s (r0 : res (Tables A) MemoryError descent) : Prop :=
  | do_table s1 table : forest_wf R s1 → same_leaves R (tables s) (tables s1) →
      follow (tables s1) r 0 (take 3 path) = Some table → r0 = Ok (Descended table) s1 →
      descent_outcome s r0
  | do_block s1 lvl b : lvl = 1 ∧ i2 = 0 ∧ i3 = 0 ∨ lvl = 2 ∧ i3 = 0 →
      block_pages lvl ≤ page_count - page_index → block_entry pa lvl = Some b → forest_wf R s1 →
      updated_leaf (tables s) (tables s1) r (take (Z.to_nat lvl + 1) path) lvl (apply options b) →
      r0 = Ok (MappedBlock (block_pages lvl)) s1 → descent_outcome s r0
  | do_err e s1 : forest_wf R s1 → same_leaves R (tables s) (tables s1) → r0 = Err e s1 →
      descent_outcome s r0
  | do_stop lvl e : lvl < 3 → leaf (tables s) r path = Some (lvl, e) → r0 = Stop Panic →
      descent_outcome s r0.

Lemma descent_outcome_same s s1 r0 : same_leaves R (tables s) (tables s1) →
  descent_outcome s1 r0 → descent_outcome s r0.
Proof.
  intros Hs [s2 t2 ? H2 ? ->|s2 lvl b ? ? ? ? Hu ->|e s2 ? H2 ->|lvl e ? Hl ->].
  - eapply do_table; [done|by eapply same_leaves_trans|done|done].
  - eapply do_block; [done..|by eapply updated_leaf_same|done].
  - eapply do_err; [done|by eapply same_leaves_trans|done].
  - eapply do_stop; [done| |done]. by rewrite <- (Hs r _ Hr).
Qed.

Lemma descend_2 s table : forest_wf R s →
  follow (tables s) r 0 [Z.to_nat i0; Z.to_nat i1] = Some table →
  descent_outcome s (desc [level2] table s).
Proof.
  intros Hwf Hf. destruct (descend_level s _ table 2 i2 (i3 =? 0) 512 [] Hwf Hf)
    as [s1 t1 ? ? ? ->|s1 b Hc ? ? ? ? ->|e s1 ? ? ->|e ? Hl ->]; [done|done|lia|..].
  - by eapply do_table.
  - apply (do_block _ _ s1 2 b); try done. right. lia.
  - by eapply do_err.
  - eapply do_stop; [|exact (Hl [Z.to_nat i3])|done]. lia.
Qed.

Lemma descend_1 s table : forest_wf R s → follow (tables s) r 0 [Z.to_nat i0] = Some table →
  descent_outcome s (desc [level1; level2] table s).
Proof.
  intros Hwf Hf. destruct (descend_level s _ table 1 i1 ((i2 =? 0) && (i3 =? 0)) (512 * 512)
    [level2] Hwf Hf) as [s1 t1 ? ? ? ->|s1 b Hc ? ? ? ? ->|e s1 ? ? ->|e ? Hl ->];
    [done|done|lia|..].
  - eapply descent_outcome_same; [done|]. by apply descend_2.
  - apply (do_block _ _ s1 1 b); try done. left. lia.
  - by eapply do_err.
  - eapply do_stop; [|exact (Hl [Z.to_nat i2; Z.to_nat i3])|done]. lia.
Qed.

Lemma descend_spec s : forest_wf R s → descent_outcome s (desc [level0; level1; level2] r s).
Proof.
  intros Hwf. destruct (descend_level s [] r 0 i0 false 0 [level1; level2] Hwf eq_refl)
    as [s1 t1 ? ? ? ->|s1 b Hc ? ? ? ? ->|e s1 ? ? ->|e ? Hl ->]; [done|done|lia|..].
  - eapply descent_outcome_same; [done|]. by apply descend_1.
  - done.
  - by eapply do_err.
  - eapply do_stop; [|exact (Hl [Z.to_nat i1; Z.to_nat i2; Z.to_nat i3])|done]. lia.
Qed.
End descent.

Lemma map_page_spec s : forest_wf R s → phy_start mod PAGE_SIZE = 0 → virt_start mod PAGE_SIZE = 0 →
  page_outcome s (map_page self phy_start virt_start page_count options page_index s).
Proof.
  intros Hwf Hal Hval. unfold map_page. destruct (page_address_run s) as [H1 H2].
  erewrite bind_run by exact H1.
  erewrite bind_run by (apply lift_Ok; split; [apply uadd_Some; split; [done|lia]|done]).
  pose proof (to_parts_digits va) as Hd.
  destruct (VirtualAddress.to_parts va) as [[[[[tag i0] i1] i2] i3] po] eqn:Hparts.
  destruct (to_parts_bounds va tag i0 i1 i2 i3 po) as (_ & B0 & B1 & B2 & B3 & _);
    [plia|done|].
  assert (idx va = [Z.to_nat i0; Z.to_nat i1; Z.to_nat i2; Z.to_nat i3]) as Hidx
    by (unfold idx; by rewrite Hparts).
  specialize (Hd ltac:(plia)). injection Hd as _ _ _ E2 E3 _. rewrite Hself.
  rewrite bind_unfold. destruct (descend_spec i0 i1 i2 i3 B0 B1 B2 s Hwf)
    as [s1 table Hwf1 Hs1 Hf1 ->|s1 lvl b Hlvl Hn Hb Hwf1 Hu ->|e s1 ? ? ->|lvl e ? Hl ->].
  - destruct (fw_table _ _ Hwf1 r _ table Hr Hf1) as (t & Ht & Hlen).
    destruct (lookup_lt_is_Some_2 t (Z.to_nat i3)) as [e He]; [lia|].
    erewrite bind_run by (apply page_address_run).
    erewrite bind_run by (by eapply write_entry_run).
    destruct (forest_write_leaf R s1 r _ table t (Z.to_nat i3) (apply options (page_entry pa))
      Hwf1 Hr Hf1 Ht) as [Hwf2 Hleaf]; [lia|by apply table_ref_None|].
    eapply (po_ok _ _ _ 3); [lia|..|].
    + change (block_pages 3) with 1. lia.
    + change (block_pages 3) with 1. pdlia.
    + by apply page_entry_ok.
    + exact Hwf2.
    + apply (updated_leaf_same _ (tables s1)); [done|]. intros r' ρ Hr'. rewrite Hidx.
      cbn [tables]. rewrite (Hleaf r' ρ Hr'), apply_valid, page_entry_valid. done.
    + apply lift_Ok. split; [|done]. apply uadd_Some. split; [done|]. plia.
  - eapply (po_ok _ _ _ lvl); [lia|done| |by apply block_entry_ok|exact Hwf1|by rewrite Hidx|].
    + destruct Hlvl as [(-> & -> & ->)|(-> & ->)].
      * change (block_pages 1) with 262144. pdlia.
      * change (block_pages 2) with 512. pdlia.
    + apply lift_Ok. split; [|done]. apply uadd_Some. split; [done|].
      destruct Hlvl as [(-> & _)|(-> & _)]; plia.
  - by eapply po_err.
  - eapply po_stop; [done|by rewrite Hidx|done].
Qed.
End map_range.

(** ** Paths and addresses *)

Lemma idx_digits va : is_usize va →
  idx va = [Z.to_nat ((va / 2 ^ 39) mod 512); Z.to_nat ((va / 2 ^ 30) mod 512);
            Z.to_nat ((va / 2 ^ 21) mod 512); Z.to_nat ((va / 2 ^ 12) mod 512)].
Proof. intros Hva. unfold idx. by rewrite to_parts_digits. Qed.

Definition tag_of (va : Z) : Z := va / 2 ^ 48.

Lemma prefix_take_iff {B} (k : nat) (l l' : list B) : (k ≤ length l)%nat →
  take k l `prefix_of` l' ↔ take k l' = take k l.
Proof.
  intros Hl. split.
  - intros [σ ->]. rewrite take_app_le by (rewrite length_take; lia).
    rewrite take_take. f_equal. lia.
  - intros <-. apply prefix_take.
Qed.

(** The digit below the next one up. *)
Lemma digit_step a n m : 0 ≤ n → m = n + 9 → a / 2 ^ n = 512 * (a / 2 ^ m) + (a / 2 ^ n) mod 512 ∧
  0 ≤ (a / 2 ^ n) mod 512 < 512.
Proof.
  intros Hn ->. split; [|apply Z.mod_pos_bound; lia].
  rewrite Z.pow_add_r, <- Z.div_div by lia. change (2 ^ 9) with 512. apply Z.div_mod. lia.
Qed.

(** Under one tag, sharing the first [lvl + 1] indices is lying in the same block. *)
Lemma idx_prefix_iff lvl va va' : is_usize va → is_usize va' → tag_of va' = tag_of va →
  1 ≤ lvl ≤ 3 →
  take (Z.to_nat lvl + 1) (idx va) `prefix_of` idx va' ↔ va' / span lvl = va / span lvl.
Proof.
  intros Hva Hva' Htag Hl. unfold tag_of, is_usize, span in *.
  rewrite prefix_take_iff by (rewrite idx_digits by done; cbn; lia).
  rewrite !idx_digits by done.
  pose proof (digit_step va 39 48 ltac:(lia) ltac:(lia)). pose proof (digit_step va' 39 48 ltac:(lia) ltac:(lia)).
  pose proof (digit_step va 30 39 ltac:(lia) ltac:(lia)). pose proof (digit_step va' 30 39 ltac:(lia) ltac:(lia)).
  pose proof (digit_step va 21 30 ltac:(lia) ltac:(lia)). pose proof (digit_step va' 21 30 ltac:(lia) ltac:(lia)).
  pose proof (digit_step va 12 21 ltac:(lia) ltac:(lia)). pose proof (digit_step va' 12 21 ltac:(lia) ltac:(lia)).
  assert (lvl = 1 ∨ lvl = 2 ∨ lvl = 3) as [-> | [-> | ->] ] by lia.
  - change (2 ^ (39 - 9 * 1)) with (2 ^ 30). change (Z.to_nat 1 + 1)%nat with 2%nat. cbn [take].
    split; [intros [= E0 E1]; lia|intros Heq; repeat (apply (f_equal2 cons); [lia|]); done].
  - change (2 ^ (39 - 9 * 2)) with (2 ^ 21). change (Z.to_nat 2 + 1)%nat with 3%nat. cbn [take].
    split; [intros [= E0 E1 E2]; lia|intros Heq; repeat (apply (f_equal2 cons); [lia|]); done].
  - change (2 ^ (39 - 9 * 3)) with (2 ^ 12). change (Z.to_nat 3 + 1)%nat with 4%nat. cbn [take].
    split; [intros [= E0 E1 E2 E3]; lia|intros Heq; repeat (apply (f_equal2 cons); [lia|]); done].
Qed.

Lemma span_pages lvl : 1 ≤ lvl ≤ 3 → span lvl = block_pages lvl * PAGE_SIZE.
Proof. intros. assert (lvl = 1 ∨ lvl = 2 ∨ lvl = 3) as [-> | [-> | ->] ] by lia; done. Qed.

Lemma span_pos lvl : 0 ≤ lvl ≤ 3 → 0 < span lvl.
Proof. intros. unfold span. apply Z.pow_pos_nonneg; lia. Qed.

Lemma same_block_iff sp va va' : 0 < sp → va mod sp = 0 →
  va' / sp = va / sp ↔ va ≤ va' < va + sp.
Proof.
  intros Hs Hm. pose proof (Z.div_mod va sp ltac:(lia)). pose proof (Z.div_mod va' sp ltac:(lia)).
  pose proof (Z.mod_pos_bound va' sp Hs). split; intros; nia.
Qed.

(** ** The loop *)

Lemma page_usize virt_start page_count j : 0 ≤ virt_start < U64 →
  virt_start + page_count * PAGE_SIZE ≤ (tag_of virt_start + 1) * 2 ^ 48 → 0 ≤ j < page_count →
  is_usize (virt_start + j * PAGE_SIZE) ∧ tag_of (virt_start + j * PAGE_SIZE) = tag_of virt_start.
Proof. intros Hv He Hj. unfold is_usize, tag_of in *. pdlia. Qed.

(** What [block_entry] checks is enough for the blocks of a mapping: see
    [map_range_misaligned_block] for what happens otherwise. *)
Definition blocks_aligned (phy_start virt_start page_count : Z) : Prop :=
  (page_count < 512 ∨ (phy_start - virt_start) mod 2 ^ 20 ≠ 0 ∨
   (phy_start - virt_start) mod 2 ^ 21 = 0) ∧
  (page_count < 512 * 512 ∨ (phy_start - virt_start) mod 2 ^ 24 ≠ 0 ∨
   (phy_start - virt_start) mod 2 ^ 30 = 0).

#[export] Instance blocks_aligned_dec phy_start virt_start page_count :
  Decision (blocks_aligned phy_start virt_start page_count).
Proof. unfold blocks_aligned. apply _. Defined.

(** Fewer pages than a block has. *)
Lemma small_aligned phy_start virt_start page_count : page_count < 512 →
  blocks_aligned phy_start virt_start page_count.
Proof. intros Hn. split; left; lia. Qed.

Section loop.
Context `{BF : BitField} {A : Type} `{FA : !FrameAllocator A} (R : Z → Prop).
Context (self : PageTable) (phy_start virt_start page_count : Z) (options : PageTableEntryOptions).
Context (Hr : R (level0_table self)).
Context (Hphy : 0 ≤ phy_start) (Hend : phy_start + page_count * PAGE_SIZE ≤ 2 ^ 48).
Context (Hpal : phy_start mod PAGE_SIZE = 0).
Context (Hvirt : 0 ≤ virt_start) (Hval : virt_start mod PAGE_SIZE = 0).
Context (Hvend : virt_start + page_count * PAGE_SIZE ≤ (tag_of virt_start + 1) * 2 ^ 48).
Context (Htop : virt_start < U64).
Context (Hblocks : blocks_aligned phy_start virt_start page_count).
Implicit Types (s : Tables A) (T : gmap Z LevelTable).
Local Abbreviation r := (level0_table self).

(** The leaf found for [va] says that it is mapped as wanted. *)
Definition leaf_maps (lf : option (Z * PageTableEntry)) (va : Z) : Prop :=
  ∃ lvl e, lf = Some (lvl, e) ∧ 1 ≤ lvl ≤ 3 ∧ get_type e = (lvl =? 3) ∧
    ap_read_only e = read_only options ∧ ap_el0_access e = el0_access options ∧
    entry_address e * PAGE_SIZE / span lvl * span lvl + va mod span lvl
      = phy_start + (va - virt_start).

(** Pages [a..k] were mapped and nothing else changed. *)
Definition mapped T T' (a k : Z) : Prop := ∀ r' va, R r' → is_usize va →
  (r' = r → tag_of va = tag_of virt_start) →
  if decide (r' = r ∧ virt_start + a * PAGE_SIZE ≤ va < virt_start + k * PAGE_SIZE)
  then leaf_maps (leaf T' r' (idx va)) va
  else leaf T' r' (idx va) = leaf T r' (idx va).

Lemma mapped_none T a : mapped T T a a.
Proof. intros r' va _ _ _. rewrite decide_False by lia. done. Qed.

Lemma mapped_same T T' a : same_leaves R T T' → mapped T T' a a.
Proof. intros Hs r' va Hr' _ _. rewrite decide_False by lia. by apply Hs. Qed.

Lemma mapped_trans T1 T2 T3 a k m : a ≤ k ≤ m → mapped T1 T2 a k → mapped T2 T3 k m →
  mapped T1 T3 a m.
Proof.
  intros Hk H1 H2 r' va Hr' Hva Htag. specialize (H1 r' va Hr' Hva Htag).
  specialize (H2 r' va Hr' Hva Htag).
  destruct (decide (r' = r ∧ virt_start + k * PAGE_SIZE ≤ va < _)) as [Hd|Hd].
  - rewrite decide_True by plia. done.
  - rewrite H2. destruct (decide (r' = r ∧ _ ≤ va < virt_start + k * PAGE_SIZE)) as [Hd'|Hd'].
    + rewrite decide_True by plia. done.
    + rewrite decide_False by plia. done.
Qed.

(** The physical address of a block the round installs is aligned like the block. *)
Lemma block_pa_aligned lvl k : 1 ≤ lvl ≤ 3 → block_pages lvl ≤ page_count - k → 0 ≤ k →
  (virt_start + k * PAGE_SIZE) mod (block_pages lvl * PAGE_SIZE) = 0 →
  (let pa := phy_start + k * PAGE_SIZE in
   lvl = 1 ∧ pa mod 2 ^ 24 = 0 ∨ lvl = 2 ∧ pa mod 2 ^ 20 = 0 ∨ lvl = 3) →
  (phy_start + k * PAGE_SIZE) mod span lvl = 0.
Proof.
  intros Hl Hn Hk Hva Hpa. rewrite <- span_pages in Hva by done. cbv zeta in Hpa.
  assert (phy_start + k * PAGE_SIZE
          = virt_start + k * PAGE_SIZE + (phy_start - virt_start)) as E by lia.
  set (d := phy_start - virt_start) in *. set (v := virt_start + k * PAGE_SIZE) in *.
  destruct Hblocks as [H2 H1]. fold d in H1, H2.
  destruct Hpa as [[-> Hpa]|[[-> Hpa]| ->]]; rewrite E in *.
  - change (span 1) with (2 ^ 30) in *. change (block_pages 1) with 262144 in Hn. clearbody d v.
    destruct H1 as [?|[?|?]]; [lia|exfalso|]; dlia.
  - change (span 2) with (2 ^ 21) in *. change (block_pages 2) with 512 in Hn. clearbody d v.
    destruct H2 as [?|[?|?]]; [lia|exfalso|]; dlia.
  - rewrite <- E. change (span 3) with 4096. pdlia.
Qed.

Lemma round_mapped T T' lvl e k : 1 ≤ lvl ≤ 3 → 0 ≤ k → block_pages lvl ≤ page_count - k →
  (virt_start + k * PAGE_SIZE) mod (block_pages lvl * PAGE_SIZE) = 0 →
  entry_ok phy_start k options lvl e →
  updated_leaf R T T' r (take (Z.to_nat lvl + 1) (idx (virt_start + k * PAGE_SIZE))) lvl e →
  mapped T T' k (k + block_pages lvl).
Proof.
  intros Hl Hk Hn Hva He Hu r' va Hr' Hus Htag. rewrite (Hu r' (idx va) Hr').
  pose proof (block_pa_aligned lvl k Hl Hn Hk Hva (eo_aligned _ _ _ _ _ He)) as Hpa.
  rewrite <- span_pages in Hva by done. pose proof (span_pos lvl ltac:(lia)) as Hsp.
  assert (virt_start + (k + block_pages lvl) * PAGE_SIZE = virt_start + k * PAGE_SIZE + span lvl)
    as Hspan by (rewrite span_pages by done; lia).
  assert (0 < block_pages lvl) by (unfold block_pages; apply Z.pow_pos_nonneg; lia).
  assert (is_usize (virt_start + k * PAGE_SIZE)) as Hus'.
  { split; [plia|]. unfold tag_of in Hvend. pdlia. }
  assert (tag_of (virt_start + k * PAGE_SIZE) = tag_of virt_start) as Htag'.
  { unfold tag_of in *. pdlia. }
  rewrite Hspan. destruct (decide (r' = r)) as [->|Hne].
  2: { rewrite !decide_False by tauto. done. }
  pose proof (idx_prefix_iff lvl _ va Hus' Hus ltac:(rewrite Htag, Htag'; done) Hl) as Hpre.
  rewrite (same_block_iff (span lvl) _ va Hsp Hva) in Hpre.
  destruct (decide (virt_start + k * PAGE_SIZE ≤ va < virt_start + k * PAGE_SIZE + span lvl))
    as [Hin|Hout].
  - rewrite !decide_True by tauto. exists lvl, e. destruct He as [Hv Ht Ha Hro Hel _].
    split_and!; [done|lia|lia|done|done|done|]. rewrite Ha.
    pose proof (Z.div_mod (phy_start + k * PAGE_SIZE) (span lvl) ltac:(lia)).
    pose proof (Z.div_mod va (span lvl) ltac:(lia)).
    pose proof (proj2 (same_block_iff (span lvl) _ va Hsp Hva) Hin).
    pose proof (Z.div_mod (virt_start + k * PAGE_SIZE) (span lvl) ltac:(lia)). nia.
  - rewrite !decide_False by tauto. done.
Qed.

(** What [map_range] may do from page [k] on. *)
Definition loop_outcome s (k : Z) (r0 : res (Tables A) MemoryError unit) : Prop :=
  match r0 with
  | Ok _ s' => forest_wf R s' ∧ mapped (tables s) (tables s') k page_count
  | Err _ s' => forest_wf R s' ∧ ∃ m, k ≤ m ≤ page_count ∧ mapped (tables s) (tables s') k m
  | Stop w => w = Panic ∧ ∃ j lvl e, k ≤ j < page_count ∧ lvl < 3 ∧
      leaf (tables s) r (idx (virt_start + j * PAGE_SIZE)) = Some (lvl, e)
  end.

Lemma loop_outcome_step s s1 k m r0 : 0 ≤ k → k < m ≤ page_count →
  mapped (tables s) (tables s1) k m → loop_outcome s1 m r0 → loop_outcome s k r0.
Proof.
  intros Hk Hm Hmap. destruct r0 as [[] s'|e s'|w]; cbn.
  - intros [Hwf H2]. split; [done|]. apply (mapped_trans _ (tables s1) _ k m); [lia|done..].
  - intros [Hwf (m' & Hm' & H2)]. split; [done|]. exists m'. split; [lia|].
    apply (mapped_trans _ (tables s1) _ k m); [lia|done..].
  - intros [-> (j & lvl & e & Hj & Hl & Hleaf)]. split; [done|]. exists j, lvl, e.
    split_and!; [lia|lia|done|]. destruct (page_usize virt_start page_count j ltac:(done) Hvend ltac:(lia)) as [Hus Htag].
    specialize (Hmap r _ Hr Hus (λ _, Htag)). rewrite decide_False in Hmap by plia. congruence.
Qed.

Lemma map_loop_spec fuel s k : forest_wf R s → 0 ≤ k → page_count - k ≤ Z.of_nat fuel →
  k ≤ page_count →
  loop_outcome s k (map_loop fuel self phy_start virt_start page_count options k s).
Proof.
  revert s k. induction fuel as [|fuel IH]; intros s k Hwf Hk Hfuel Hle; cbn [map_loop].
  - replace (k <? page_count) with false by lia. split; [done|].
    replace k with page_count by lia. apply mapped_none.
  - destruct (Z.ltb_spec k page_count) as [Hlt|].
    2: { split; [done|]. replace k with page_count by lia. apply mapped_none. }
    rewrite bind_unfold. destruct (page_usize virt_start page_count k ltac:(done) Hvend ltac:(lia)) as [[? ?] _].
    destruct (map_page_spec R r phy_start page_count k options Hr ltac:(lia) Hphy Hend self
      virt_start eq_refl Hvirt ltac:(done) s Hwf Hpal Hval)
      as [s1 lvl e Hl Hn Hva He Hwf1 Hu ->|e s1 Hwf1 Hs ->|lvl e Hl Hleaf ->].
    + assert (0 < block_pages lvl) by (unfold block_pages; apply Z.pow_pos_nonneg; lia).
      eapply loop_outcome_step; [done| |by eapply round_mapped|]; [lia|].
      apply IH; [done|lia..].
    + split; [done|]. exists k. split; [lia|]. by apply mapped_same.
    + split; [done|]. exists k, lvl, e. split_and!; [lia..|done].
Qed.

Lemma translate_mapped T T' a k r' high va : mapped T T' a k → R r' → is_usize va →
  tag_ok (high_addresses self) (tag_of virt_start) = true →
  (r' = r → high = high_addresses self) → 0 ≤ a → k ≤ page_count →
  translate T' high r' va =
    if decide (r' = r ∧ virt_start + a * PAGE_SIZE ≤ va < virt_start + k * PAGE_SIZE)
    then Some (phy_start + (va - virt_start), read_only options, el0_access options)
    else translate T high r' va.
Proof.
  intros Hmap Hr' Hva Htv Hhigh Ha Hk. unfold translate.
  pose proof (to_parts_digits va Hva) as Hd.
  destruct (VirtualAddress.to_parts va) as [[[[[tag i0] i1] i2] i3] po].
  injection Hd as -> _ _ _ _ _. fold (tag_of va).
  assert (r' = r → tag_ok high (tag_of va) = true → tag_of va = tag_of virt_start) as Htag.
  { intros Heq. rewrite (Hhigh Heq). revert Htv. unfold tag_ok.
    destruct (high_addresses self); intros; lia. }
  destruct (tag_ok high (tag_of va)) eqn:Hok.
  - specialize (Hmap r' va Hr' Hva (λ H, Htag H eq_refl)). case_decide as Hd.
    + destruct Hmap as (lvl & e & -> & Hl & Ht & Hro & Hel & Hout). cbn.
      replace (lvl =? 0) with false by lia. rewrite Ht, Hro, Hel, Hout.
      by destruct (lvl =? 3).
    + by rewrite Hmap.
  - rewrite decide_False; [done|]. intros [Heq Hin].
    assert (tag_of va = tag_of virt_start) as Heq'.
    { unfold tag_of in *. pdlia. }
    rewrite (Hhigh Heq), Heq' in Hok. congruence.
Qed.
End loop.

(** ** A new page table *)

Section empty_table.
Context `{BF : BitField} {A : Type} `{FA : !FrameAllocator A} (R : Z → Prop).
Implicit Types (s : Tables A) (T : gmap Z LevelTable).

Definition with_root (root : Z) : Z → Prop := λ x, R x ∨ x = root.

Lemma zero_step T q lvl i : T !! q = Some zero_table → step T q lvl i = None.
Proof.
  intros Hq. unfold step, entry. rewrite Hq. cbn.
  destruct (zero_table !! i) as [e|] eqn:He; [|done]. apply zero_table_lookup in He as ->. cbn.
  apply table_ref_invalid, invalid_valid.
Qed.

Lemma zero_follow T q ρ x : T !! q = Some zero_table → follow T q 0 ρ = Some x → ρ = [] ∧ x = q.
Proof.
  intros Hq. destruct ρ as [|i ρ]; cbn [follow]; [naive_solver|]. by rewrite zero_step.
Qed.

Lemma zero_leaf T q ρ : T !! q = Some zero_table → leaf T q ρ = None.
Proof.
  intros Hq. unfold leaf. destruct ρ as [|i ρ]; [done|]. cbn [walk]. unfold entry. rewrite Hq. cbn.
  destruct (zero_table !! i) as [e|] eqn:He; [|done]. apply zero_table_lookup in He as ->. cbn.
  rewrite table_ref_invalid by apply invalid_valid. cbn. by rewrite invalid_valid.
Qed.

Lemma forest_new_root s pa a' : forest_wf R s → fa_alloc (frames s) = Ok pa a' →
  forest_wf (with_root (pa + CANONICAL))
    (Build_Tables (<[pa + CANONICAL := zero_table]> (tables s)) a' (modified s)).
Proof.
  intros Hwf Ha. set (q := pa + CANONICAL). set (T' := <[q := zero_table]> (tables s)).
  pose proof (alloc_fresh R s pa a' Hwf Ha) as Hfr. fold q in Hfr.
  destruct (fa_alloc_Ok _ _ _ (fw_frames _ _ Hwf) Ha) as (_ & Hal & _ & _ & Hgrow).
  destruct (forest_new_frame R s pa a' zero_table Hwf Ha) as [Hf Htab Hinj Hall].
  fold q T' in Htab, Hinj, Hall.
  assert (T' !! q = Some zero_table) as Hq by apply lookup_insert_eq.
  assert (∀ r ρ, R r → follow T' r 0 ρ ≠ Some q) as Hfr'.
  { intros r ρ Hr. unfold T'. rewrite (follow_fresh R) by done. by apply Hfr. }
  cbn [tables frames modified] in *. split; cbn [tables frames modified].
  - done.
  - intros r ρ p [Hr| ->] Hp; [by eapply Htab|].
    apply zero_follow in Hp as [_ ->]; [|done]. by exists zero_table.
  - intros r r' π π' p [Hr| ->] [Hr'| ->] Hp Hp'; [by eapply Hinj|..].
    + apply zero_follow in Hp' as [-> ->]; [|done]. by destruct (Hfr' r π Hr).
    + apply zero_follow in Hp as [-> ->]; [|done]. by destruct (Hfr' r' π' Hr').
    + apply zero_follow in Hp as [-> ->]; [|done]. by apply zero_follow in Hp' as [-> _].
  - intros r ρ p [Hr| ->] Hp; [by eapply Hall|].
    apply zero_follow in Hp as [_ ->]; [|done]. unfold q.
    replace (pa + CANONICAL - CANONICAL) with pa by lia. split; [done|].
    apply Hgrow; [done|by right].
Qed.

Lemma empty_run s high id : forest_wf R s →
  match empty high id s with
  | Ok p s' =>
      high_addresses p = high ∧ asid p = id ∧ ¬ R (level0_table p) ∧
      level0_table p = level0_phy_addr p + CANONICAL ∧
      tables s' !! level0_table p = Some zero_table ∧
      forest_wf (with_root (level0_table p)) s' ∧ same_leaves R (tables s) (tables s')
  | Err _ s' => s' = s
  | Stop _ => False
  end.
Proof.
  intros Hwf. unfold empty. rewrite bind_unfold.
  pose proof (allocate_table_run s (fw_frames _ _ Hwf)) as Hal.
  destruct (fa_alloc (frames s)) as [pa a'|e a'|w] eqn:Ha; [rewrite Hal|by rewrite Hal|done].
  destruct (fa_alloc_Ok _ _ _ (fw_frames _ _ Hwf) Ha) as (_ & _ & Hpa & _).
  pose proof (alloc_fresh R s pa a' Hwf Ha) as Hfr.
  unfold PhysicalAddress.to_virtual_canonical.
  rewrite (proj2 (uadd_Some pa CANONICAL _)) by (split; [done|unfold CANONICAL; lia]).
  run_step. cbn [mret M_ret high_addresses asid level0_table level0_phy_addr].
  split_and!; [done|done| |done|apply lookup_insert_eq|by apply forest_new_root|].
  - intros Hr. by apply (Hfr _ [] Hr).
  - intros r ρ Hr. by apply (leaf_fresh R).
Qed.
End empty_table.

(** The checks in front of the loop. *)
Lemma map_range_unfold `{BF : BitField} {A : Type} `{FA : !FrameAllocator A} (self : PageTable)
    phy_start virt_start count options :
  is_usize virt_start → virt_start mod PAGE_SIZE = 0 →
  tag_ok (high_addresses self) (tag_of virt_start) = true →
  map_range self phy_start virt_start count true options =
    (map_loop (Z.to_nat count) self phy_start virt_start count options 0;; set_modified self).
Proof.
  intros Hv Hval Htag. pose proof (to_parts_digits virt_start Hv) as Hd. unfold map_range.
  destruct (VirtualAddress.to_parts virt_start) as [[[[[tag i0] i1] i2] i3] po].
  injection Hd as -> _ _ _ _ ->. fold (tag_of virt_start). rewrite Htag.
  change PAGE_SIZE with 4096 in Hval. by rewrite Hval.
Qed.

(** ** Properties *)

Section properties.
Context `{BF : BitField} {A : Type} `{FA : !FrameAllocator A} (R : Z → Prop).
Implicit Types (s : Tables A).

(** C1: [map_range] against the MMU. When it succeeds, exactly the addresses of the range
    translate to the given physical memory with the given permissions, and every other address
    of this and of every other page table translates as before. When it runs out of frames, a
    prefix of the range was mapped. It panics only on a block that is already mapped inside the
    range. Ranges of 512 pages or more are ones whose physical and virtual addresses agree
    modulo 2 MiB (1 GiB) where they agree modulo 1 MiB (16 MiB) and a block of that size is used
    ([blocks_aligned]): the code checks only the latter, and [map_range_misaligned_block] shows
    what happens otherwise. *)
Theorem map_range_translates s (self : PageTable) (phy_start virt_start count : Z)
    (options : PageTableEntryOptions) :
  forest_wf R s → R (level0_table self) →
  0 ≤ phy_start → phy_start mod PAGE_SIZE = 0 → phy_start + count * PAGE_SIZE ≤ 2 ^ 48 →
  is_usize virt_start → virt_start mod PAGE_SIZE = 0 → 0 ≤ count →
  tag_ok (high_addresses self) (tag_of virt_start) = true →
  virt_start + count * PAGE_SIZE ≤ (tag_of virt_start + 1) * 2 ^ 48 →
  blocks_aligned phy_start virt_start count →
  let mapped_to k s' := ∀ root high va, R root → is_usize va →
    (root = level0_table self → high = high_addresses self) →
    translate (tables s') high root va =
      if decide (root = level0_table self ∧ virt_start ≤ va < virt_start + k * PAGE_SIZE)
      then Some (phy_start + (va - virt_start), read_only options, el0_access options)
      else translate (tables s) high root va in
  match map_range self phy_start virt_start count true options s with
  | Ok _ s' => forest_wf R s' ∧ mapped_to count s' ∧ level0_phy_addr self ∈ modified s'
  | Err _ s' => forest_wf R s' ∧ ∃ k, 0 ≤ k ≤ count ∧ mapped_to k s'
  | Stop w => w = Panic ∧ ∃ j lvl e, 0 ≤ j < count ∧ lvl < 3 ∧
      leaf (tables s) (level0_table self) (idx (virt_start + j * PAGE_SIZE)) = Some (lvl, e)
  end.
Proof.
  intros Hwf Hr Hp0 Hpal Hpe [Hv0 Hv1] Hval Hc Htag Hve Hbl mapped_to.
  rewrite map_range_unfold by done.
  pose proof (map_loop_spec R self phy_start virt_start count options Hr Hp0 Hpe Hpal Hv0 Hval
    Hve Hv1 Hbl (Z.to_nat count) s 0 Hwf ltac:(lia) ltac:(lia) ltac:(lia)) as Ho.
  rewrite bind_unfold.
  assert (∀ k s', k ≤ count →
    mapped R self phy_start virt_start options (tables s) (tables s') 0 k → mapped_to k s') as Hto.
  { intros k s' Hk Hm root high va Hroot Hva Hh.
    erewrite (translate_mapped R self phy_start virt_start count options) by (eassumption || done).
    by rewrite Z.mul_0_l, Z.add_0_r. }
  destruct (map_loop _ self _ _ _ _ _ s) as [[] s'|e s'|w].
  - destruct Ho as [[Hf Ht Hi Ha] Hm]. unfold set_modified. run_step. cbn.
    split; [done|]. split; [by apply (Hto count s')|set_solver].
  - destruct Ho as [Hf (m & Hm & Hmap)]. split; [done|]. exists m. split; [done|].
    apply (Hto m s'); [lia|done].
  - done.
Qed.

(** A new page table maps nothing, shares no table with the others and leaves their
    translations alone. *)
Theorem empty_maps_nothing s (high : bool) (id : Z) : forest_wf R s →
  match empty high id s with
  | Ok p s' =>
      forest_wf (with_root R (level0_table p)) s' ∧ ¬ R (level0_table p) ∧
      (∀ h va, translate (tables s') h (level0_table p) va = None) ∧
      ∀ root h va, R root → translate (tables s') h root va = translate (tables s) h root va
  | Err _ s' => s' = s
  | Stop _ => False
  end.
Proof.
  intros Hwf. pose proof (empty_run R s high id Hwf) as H.
  destruct (empty high id s) as [p s'|e s'|w]; [|done..].
  destruct H as (_ & _ & Hn & _ & Hz & Hwf' & Hs). split_and!; [done..| |].
  - intros h va. unfold translate. destruct (VirtualAddress.to_parts va) as [[[[[tag ?] ?] ?] ?] ?].
    destruct (tag_ok h tag); [|done]. by rewrite zero_leaf.
  - intros root h va Hr. unfold translate.
    destruct (VirtualAddress.to_parts va) as [[[[[tag ?] ?] ?] ?] ?].
    destruct (tag_ok h tag); [|done]. by rewrite (Hs root (idx va) Hr).
Qed.
End properties.

(** *** Witnesses *)

(** Some 5 MiB of free RAM and no page table yet. *)
Definition demo_tables : Tables PhysAlloc.PhysicalMemoryAllocator :=
  {| tables := ∅;
     frames := {| PhysAlloc.allocated_pages := replicate 1200 false;
                  PhysAlloc.memory_start := 0x40000000; PhysAlloc.memory_length := 0x4b0000 |};
     modified := ∅ |}.
Definition demo_options : PageTableEntryOptions := {| read_only := true; el0_access := false |}.

Lemma demo_wf `{BF : BitField} : forest_wf (λ _, False) demo_tables.
Proof.
  split; [|done..]. split; [|done]. split; vm_compute; intuition congruence.
Qed.

#[local] Existing Instance concrete_bit_field.

Example empty_maps_nothing_witness :
  ∃ p s', empty true 7 demo_tables = Ok p s' ∧ ∀ va, translate (tables s') true (level0_table p) va = None.
Proof.
  assert (is_ok (empty true 7 demo_tables) = true) as E by (vm_compute; reflexivity).
  pose proof (empty_maps_nothing _ demo_tables true 7 demo_wf) as H.
  destruct (empty true 7 demo_tables) as [p s'|e s'|w]; [|discriminate E|discriminate E].
  exists p, s'. split; [reflexivity|]. intros va. apply H.
Defined.

(** Two pages at 0x1000 of a fresh table for low addresses. *)
Example map_range_translates_witness :
  ∃ p s', (p ← empty false 1; map_range p 0x40005000 0x1000 2 true demo_options;; mret p)
            demo_tables = Ok p s' ∧
          translate (tables s') false (level0_table p) 0x2345 = Some (0x40006345, true, false).
Proof.
  assert (is_ok ((p ← empty false 1; map_range p 0x40005000 0x1000 2 true demo_options;; mret p)
            demo_tables) = true) as E by (vm_compute; reflexivity).
  rewrite bind_unfold in *. pose proof (empty_run (λ _, False) demo_tables false 1 demo_wf) as H.
  destruct (empty false 1 demo_tables) as [p s1|e s1|w]; [|discriminate E|discriminate E].
  destruct H as (Hh & _ & _ & _ & _ & Hwf & _).
  pose proof (map_range_translates (with_root (λ _, False) (level0_table p)) s1 p 0x40005000 0x1000 2
    demo_options Hwf (or_intror eq_refl)) as H. rewrite Hh in H.
  specialize (H ltac:(lia) ltac:(reflexivity) ltac:(vm_compute; congruence)
    ltac:(vm_compute; split; congruence) ltac:(reflexivity) ltac:(lia) ltac:(reflexivity)
    ltac:(vm_compute; congruence) ltac:(vm_compute; intuition congruence)).
  rewrite bind_unfold in *.
  destruct (map_range p _ _ _ _ _ s1) as [u s2|e s2|w]; [|discriminate E|discriminate E].
  exists p, s2. split; [reflexivity|]. destruct H as (_ & H & _).
  rewrite (H (level0_table p) false 0x2345 (or_intror eq_refl)); [|vm_compute; split; congruence|auto].
  rewrite decide_True; [reflexivity|split; [reflexivity|vm_compute; split; congruence]].
Defined.

(** [block_entry] accepts a 2 MiB block at a physical address that is only aligned to
    1 MiB: [map_range] of 2 MiB from 0x40100000 succeeds, and the MMU then reads from
    0x40000000. *)
Theorem map_range_misaligned_block :
  ∃ p s', (p ← empty false 1; map_range p 0x40100000 0x200000 512 true demo_options;; mret p)
            demo_tables = Ok p s' ∧
          translate (tables s') false (level0_table p) 0x200000 = Some (0x40000000, true, false).
Proof.
  assert (match (p ← empty false 1; map_range p 0x40100000 0x200000 512 true demo_options;; mret p)
                  demo_tables with
          | Ok p s' => bool_decide (translate (tables s') false (level0_table p) 0x200000
                                    = Some (0x40000000, true, false))
          | _ => false end = true) as E by (vm_compute; reflexivity).
  destruct ((p ← empty false 1; _) demo_tables) as [p s'|e s'|w]; [|discriminate E|discriminate E].
  exists p, s'. split; [reflexivity|]. by apply bool_decide_eq_true in E.
Qed.
