(* ===== verification/UnmapRange.v ===== *)
(** [PageTable::unmap_range], [physical_address_of] and [Drop] against the MMU. *)
From S2P Require Import Prelude BitField Addresses Frames PageEntry Paging PagingTree MapRange.

(** The list a [for (lvl, i, block_size) in ...] loop goes over, from level [lvl] on. *)
Definition block_size (lvl : Z) : Z := if lvl =? 0 then 0 else block_pages lvl.

Fixpoint levels_from (lvl : Z) (σ : list Z) : list (Z * Z * Z) :=
  match σ with
  | [] => []
  | i :: σ' => (lvl, i, block_size lvl) :: levels_from (lvl + 1) σ'
  end.

Definition zidx (va : Z) : list Z :=
  let '(_, i0, i1, i2, i3, _) := VirtualAddress.to_parts va in [i0; i1; i2; i3].

Lemma walk_levels_from va : walk_levels va = levels_from 0 (zidx va).
Proof.
  unfold walk_levels, zidx. by destruct (VirtualAddress.to_parts va) as [[[[[? ?] ?] ?] ?] ?].
Qed.

Lemma idx_zidx va : idx va = map Z.to_nat (zidx va).
Proof. unfold idx, zidx. by destruct (VirtualAddress.to_parts va) as [[[[[? ?] ?] ?] ?] ?]. Qed.

Lemma zidx_bounds va : is_usize va → Forall (λ i, 0 ≤ i < 512) (zidx va).
Proof.
  intros Hva. unfold zidx.
  destruct (VirtualAddress.to_parts va) as [[[[[t i0] i1] i2] i3] o] eqn:E.
  apply to_parts_bounds in E; [|done]. repeat constructor; lia.
Qed.

Lemma zidx_length va : length (zidx va) = 4%nat.
Proof. unfold zidx. by destruct (VirtualAddress.to_parts va) as [[[[[? ?] ?] ?] ?] ?]. Qed.

Section walks.
Context `{BF : BitField} {A : Type} `{FA : !FrameAllocator A} (R : Z → Prop).
Implicit Types (s : Tables A) (T : gmap Z LevelTable) (π ρ : list nat).

(** Where a walk along [path] ends: entry [i] of the table [p] that [ρ] leads to. *)
Record walk_end s (r : Z) (path ρ : list nat) (i : Z) (p : Z) (t : LevelTable)
    (e : PageTableEntry) : Prop := {
  we_prefix : ρ ++ [Z.to_nat i] `prefix_of` path;
  we_follow : follow (tables s) r 0 ρ = Some p;
  we_table : tables s !! p = Some t;
  we_entry : t !! Z.to_nat i = Some e;
  we_ref : table_ref e (Z.of_nat (length ρ)) = None;
  we_length : (length ρ ≤ 3)%nat;
  we_walk : walk (tables s) r 0 path = Some (Z.of_nat (length ρ), e);
}.

Local Abbreviation last_level ρ i :=
  [(Z.of_nat (length ρ), i, block_size (Z.of_nat (length ρ)))].

(** Every walk of four indices ends at an entry, and the loops of [unmap_range_custom] and
    [physical_address_of] get there. *)
Lemma walk_ends s r π table σ : forest_wf R s → R r →
  follow (tables s) r 0 π = Some table → (length π + length σ = 4)%nat →
  Forall (λ i, 0 ≤ i < 512) σ → σ ≠ [] →
  ∃ ρ i p t e, walk_end s r (π ++ map Z.to_nat σ) ρ i p t e ∧
    (∀ va, unmap_page va (levels_from (Z.of_nat (length π)) σ) table s
           = unmap_page va (last_level ρ i) p s) ∧
    (∀ po, lookup_page po (levels_from (Z.of_nat (length π)) σ) table s
           = lookup_page po (last_level ρ i) p s).
Proof.
  intros Hwf Hr. revert π table. induction σ as [|i σ IH]; intros π table Hp Hlen Hb Hne; [done|].
  apply Forall_cons in Hb as [Hi Hb]. cbn [length] in Hlen.
  destruct (fw_table _ _ Hwf r π table Hr Hp) as (t & Ht & Htl).
  destruct (lookup_lt_is_Some_2 t (Z.to_nat i)) as [e He]; [lia|].
  destruct (table_ref e (Z.of_nat (length π))) as [q|] eqn:Href.
  - assert (follow (tables s) r 0 (π ++ [Z.to_nat i]) = Some q) as Hq.
    { rewrite follow_snoc, Hp. cbn. unfold step, entry. rewrite Ht. cbn. rewrite He. cbn.
      by rewrite Z.add_0_l. }
    destruct (IH (π ++ [Z.to_nat i]) q Hq) as (ρ & j & p & t' & e' & Hw & Hun & Hlk).
    + rewrite length_app. cbn. lia.
    + done.
    + intros ->. cbn in Hlen. by rewrite table_ref_None in Href by lia.
    + rewrite <- app_assoc in Hw. rewrite length_app, Nat2Z.inj_add in Hun, Hlk.
      exists ρ, j, p, t', e'. split; [done|]. cbn [levels_from unmap_page lookup_page].
      split; intros; (erewrite bind_run by (by eapply read_entry_run)); rewrite Href; auto.
  - exists π, i, table, t, e. split; [split; try done|].
    + exists (map Z.to_nat σ). by rewrite <- app_assoc.
    + lia.
    + rewrite (walk_app _ _ _ _ _ _ Hp), Z.add_0_l. cbn [walk map]. unfold entry.
      rewrite Ht. cbn. rewrite He. cbn. by rewrite Href.
    + cbn [levels_from unmap_page lookup_page].
      split; intros; rewrite !(bind_run _ _ _ _ _ (read_entry_run s table i t e Ht He)), Href; done.
Qed.

Lemma walk_ends_va s r va : forest_wf R s → R r → is_usize va →
  ∃ ρ i p t e, walk_end s r (idx va) ρ i p t e ∧
    (∀ va', unmap_page va' (walk_levels va) r s = unmap_page va' (last_level ρ i) p s) ∧
    (∀ po, lookup_page po (walk_levels va) r s = lookup_page po (last_level ρ i) p s).
Proof.
  intros Hwf Hr Hva. rewrite walk_levels_from, idx_zidx.
  destruct (walk_ends s r [] r (zidx va) Hwf Hr eq_refl (zidx_length va) (zidx_bounds va Hva))
    as (ρ & i & p & t & e & ? & ? & ?); [|by exists ρ, i, p, t, e].
  intros H. pose proof (zidx_length va) as Hl. by rewrite H in Hl.
Qed.

Lemma walk_end_leaf s r path ρ i p t e : walk_end s r path ρ i p t e →
  leaf (tables s) r path = if valid e then Some (Z.of_nat (length ρ), e) else None.
Proof. intros [_ _ _ _ _ _ Hw]. unfold leaf. by rewrite Hw. Qed.

Lemma walk_end_take s r va ρ i p t e : walk_end s r (idx va) ρ i p t e →
  ρ ++ [Z.to_nat i] = take (Z.to_nat (Z.of_nat (length ρ)) + 1) (idx va).
Proof.
  intros [[σ ->] _ _ _ _ _ _]. rewrite Nat2Z.id. rewrite take_app_le.
  - rewrite take_ge; [done|]. rewrite length_app. cbn. lia.
  - rewrite length_app. cbn. lia.
Qed.
End walks.

(** ** [unmap_range] *)

(** [a..b] is a sequence of whole mapped blocks and pages, as ranges are that were mapped at once.
    The code takes other ranges, too, and drops all of a block that it meets part of. *)
Inductive mapped_exactly `{BF : BitField} (T : gmap Z LevelTable) (r : Z)
    : Z → Z → list MappedRegion → Prop :=
  | me_nil a : mapped_exactly T r a a []
  | me_cons a b lvl e regions : leaf T r (idx a) = Some (lvl, e) → 1 ≤ lvl ≤ 3 →
      get_type e = (lvl =? 3) → a mod span lvl = 0 → mapped_exactly T r (a + span lvl) b regions →
      mapped_exactly T r a b
        ({| base_virt_addr := a; base_phys_addr := entry_address e * PAGE_SIZE;
            page_count := block_pages lvl |} :: regions).

(** The physical address of a block is aligned like the block. *)
Definition region_aligned (g : MappedRegion) : Prop :=
  base_phys_addr g mod (page_count g * PAGE_SIZE) = 0.

Section unmap.
Context `{BF : BitField} {A : Type} `{FA : !FrameAllocator A} (R : Z → Prop).
Context (self : PageTable) (virt_start count : Z).
Context (Hr : R (level0_table self)) (Hv0 : 0 ≤ virt_start < U64).
Context (Hvend : virt_start + count * PAGE_SIZE ≤ (tag_of virt_start + 1) * 2 ^ 48).
Implicit Types (s : Tables A) (T : gmap Z LevelTable).
Local Abbreviation r := (level0_table self).
Local Abbreviation vend := (virt_start + count * PAGE_SIZE).

Lemma mapped_exactly_le T a b regions : mapped_exactly T r a b regions → a ≤ b.
Proof.
  induction 1 as [|a b lvl e regions _ Hl _ _ _ IH]; [lia|].
  pose proof (span_pos lvl ltac:(lia)). lia.
Qed.

(** The addresses in [a..b] were unmapped and nothing else changed. *)
Definition unmapped T T' (a b : Z) : Prop := ∀ r' va, R r' → is_usize va →
  (r' = r → tag_of va = tag_of virt_start) →
  leaf T' r' (idx va) = if decide (r' = r ∧ a ≤ va < b) then None else leaf T r' (idx va).

Lemma in_range_usize va : virt_start ≤ va < vend → is_usize va ∧ tag_of va = tag_of virt_start.
Proof. intros H. unfold is_usize, tag_of in *. pdlia. Qed.

Lemma mapped_exactly_ext T T' a b regions : mapped_exactly T r a b regions →
  (∀ va, a ≤ va < b → leaf T' r (idx va) = leaf T r (idx va)) →
  mapped_exactly T' r a b regions.
Proof.
  induction 1 as [|a b lvl e regions Hl Hlv Ht Hm H IH]; intros Hext; [constructor|].
  pose proof (mapped_exactly_le _ _ _ _ H). pose proof (span_pos lvl ltac:(lia)).
  econstructor; try done.
  - by rewrite Hext by lia.
  - apply IH. intros va Hva. apply Hext. lia.
Qed.

Lemma unmap_round s a lvl e : forest_wf R s → virt_start ≤ a → a + span lvl ≤ vend →
  leaf (tables s) r (idx a) = Some (lvl, e) → 1 ≤ lvl ≤ 3 → get_type e = (lvl =? 3) →
  a mod span lvl = 0 →
  ∃ s1, unmap_page a (walk_levels a) r s =
      Ok (block_pages lvl, [{| base_virt_addr := a; base_phys_addr := entry_address e * PAGE_SIZE;
                               page_count := block_pages lvl |}]) s1 ∧
    forest_wf R s1 ∧ modified s1 = modified s ∧ frames s1 = frames s ∧
    unmapped (tables s) (tables s1) a (a + span lvl).
Proof.
  intros Hwf Ha Hae Hleaf Hl Ht Hm. pose proof (span_pos lvl ltac:(lia)) as Hsp.
  destruct (in_range_usize a ltac:(lia)) as [Hus Htag].
  destruct (walk_ends_va R s r a Hwf Hr Hus) as (ρ & i & p & t & e' & Hw & Hun & _).
  rewrite (walk_end_leaf _ _ _ _ _ _ _ _ Hw) in Hleaf. destruct (valid e') eqn:Hv; [|done].
  injection Hleaf as Hlen ->. pose proof (walk_end_take _ _ _ _ _ _ _ _ Hw) as Htake.
  destruct Hw as [_ Hf Htab Hent Href _ _]. rewrite Hlen in *.
  destruct (forest_write_leaf R s r ρ p t (Z.to_nat i) invalid Hwf Hr Hf Htab) as [Hwf1 Hl1].
  { by eapply lookup_lt_Some. }
  { apply table_ref_invalid, invalid_valid. }
  eexists. split; [|split; [exact Hwf1|split; [done|split; [done|]]]].
  - rewrite Hun. cbn [unmap_page].
    erewrite bind_run by (by eapply read_entry_run). rewrite Href.
    assert (block_size lvl = block_pages lvl) as Hbs
      by (unfold block_size; by replace (lvl =? 0) with false by lia).
    assert (0 < block_pages lvl) by (unfold block_pages; apply Z.pow_pos_nonneg; lia).
    rewrite Hbs. replace (block_pages lvl =? 0) with false by lia. erewrite bind_run by done.
    assert (base_address e lvl = Some (entry_address e * PAGE_SIZE)) as ->.
    { unfold base_address. rewrite Hv, Ht. rewrite Z.shiftl_mul_pow2 by lia.
      destruct (Z.eqb_spec lvl 3); [by replace (3 <=? lvl) with true by lia; replace (lvl <? 3) with false by lia|].
      replace (3 <=? lvl) with false by lia. by rewrite andb_false_r. }
    erewrite bind_run by (by eapply write_entry_run). done.
  - intros r' va Hr' Hva Htag'. cbn [tables]. rewrite (Hl1 r' (idx va) Hr').
    rewrite Htake, invalid_valid. destruct (decide (r' = r)) as [->|Hne].
    2: { rewrite !decide_False by tauto. done. }
    pose proof (idx_prefix_iff lvl a va Hus Hva ltac:(by rewrite Htag, Htag') Hl) as Hpre.
    rewrite (same_block_iff (span lvl) a va Hsp Hm) in Hpre.
    destruct (decide (a ≤ va < a + span lvl)); [rewrite !decide_True by tauto; done|].
    rewrite !decide_False by tauto. done.
Qed.

Lemma unmapped_trans T1 T2 T3 a b c : a ≤ b ≤ c → unmapped T1 T2 a b → unmapped T2 T3 b c →
  unmapped T1 T3 a c.
Proof.
  intros Hb H1 H2 r' va Hr' Hva Htag. rewrite (H2 r' va Hr' Hva Htag), (H1 r' va Hr' Hva Htag).
  destruct (decide (r' = r)) as [->|].
  - destruct (decide (b ≤ va < c)).
    + rewrite !decide_True by lia. done.
    + rewrite (decide_False (P := r = r ∧ b ≤ va < c)) by lia.
      destruct (decide (a ≤ va < b)).
      * rewrite !decide_True by lia. done.
      * rewrite !decide_False by lia. done.
  - rewrite !decide_False by tauto. done.
Qed.

Lemma unmap_loop_run fuel s k regions : forest_wf R s → 0 ≤ k → count - k ≤ Z.of_nat fuel →
  mapped_exactly (tables s) r (virt_start + k * PAGE_SIZE) vend regions →
  ∃ s', unmap_loop fuel self virt_start count k s = Ok regions s' ∧ forest_wf R s' ∧
    modified s' = modified s ∧ frames s' = frames s ∧
    unmapped (tables s) (tables s') (virt_start + k * PAGE_SIZE) vend.
Proof.
  revert s k regions. induction fuel as [|fuel IH]; intros s k regions Hwf Hk Hf Hme.
  all: inversion Hme as [a Ha1 Ha2|a b lvl e regions' Hl Hlv Ht Hm Hrest Ha1 Ha2]; subst.
  all: try (exists s; cbn [unmap_loop]; replace (k <? count) with false by plia;
    split_and!; try done; intros r' va _ _ _; rewrite decide_False by plia; done).
  all: pose proof (mapped_exactly_le _ _ _ _ Hrest); pose proof (span_pos lvl ltac:(lia));
    pose proof (span_pages lvl Hlv) as Hspp.
  { exfalso. plia. }
  destruct (unmap_round s (virt_start + k * PAGE_SIZE) lvl e Hwf) as (s1 & Hrun & Hwf1 & Hm1 & Hf1 & Hu1);
    [plia|lia|done..|].
  assert (virt_start + (k + block_pages lvl) * PAGE_SIZE
          = virt_start + k * PAGE_SIZE + span lvl) as Hnext by lia.
  assert (0 < block_pages lvl) by plia.
  destruct (IH s1 (k + block_pages lvl) regions') as (s2 & Hrun2 & Hwf2 & Hm2 & Hf2 & Hu2);
    [done|lia|lia| |].
  { rewrite Hnext. eapply mapped_exactly_ext; [exact Hrest|]. intros va Hva.
    destruct (in_range_usize va ltac:(plia)) as [Hus Htag].
    by rewrite (Hu1 r va Hr Hus (λ _, Htag)), decide_False by lia. }
  exists s2. split_and!; [|done|congruence|congruence|].
  - cbn [unmap_loop]. replace (k <? count) with true by plia.
    destruct (in_range_usize (virt_start + k * PAGE_SIZE) ltac:(plia)) as [[_ ?] _].
    erewrite bind_run.
    2: { apply lift_Ok. split; [apply umul_Some; split; [done|plia]|done]. }
    erewrite bind_run.
    2: { apply lift_Ok. split; [apply uadd_Some; split; [done|plia]|done]. }
    erewrite bind_run by exact Hrun. cbv beta iota. erewrite bind_run.
    2: { apply lift_Ok. split; [apply uadd_Some; split; [done|]|done]. unfold tag_of in *. pdlia. }
    erewrite bind_run by exact Hrun2. done.
  - rewrite Hnext in Hu2. eapply unmapped_trans; [|exact Hu1|exact Hu2]. lia.
Qed.
End unmap.

(** ** What [map_range] leaves is what [unmap_range] expects *)

Section roundtrip.
Context `{BF : BitField} {A : Type} `{FA : !FrameAllocator A} (R : Z → Prop).
Context (self : PageTable) (phy_start virt_start count : Z) (options : PageTableEntryOptions).
Context (Hr : R (level0_table self)).
Context (Hphy : 0 ≤ phy_start) (Hend : phy_start + count * PAGE_SIZE ≤ 2 ^ 48).
Context (Hpal : phy_start mod PAGE_SIZE = 0).
Context (Hvirt : 0 ≤ virt_start) (Hval : virt_start mod PAGE_SIZE = 0).
Context (Hvend : virt_start + count * PAGE_SIZE ≤ (tag_of virt_start + 1) * 2 ^ 48).
Context (Htop : virt_start < U64).
Context (Hblocks : blocks_aligned phy_start virt_start count).
Implicit Types (s : Tables A).
Local Abbreviation r := (level0_table self).

Lemma map_loop_exact fuel s k s' : forest_wf R s → 0 ≤ k → count - k ≤ Z.of_nat fuel → k ≤ count →
  map_loop fuel self phy_start virt_start count options k s = Ok tt s' →
  ∃ regions, mapped_exactly (tables s') r (virt_start + k * PAGE_SIZE)
               (virt_start + count * PAGE_SIZE) regions ∧ Forall region_aligned regions.
Proof.
  revert s k. induction fuel as [|fuel IH]; intros s k Hwf Hk Hf Hle; cbn [map_loop].
  { replace (k <? count) with false by lia. intros [= <-]. replace k with count by lia.
    eexists. by split; constructor. }
  destruct (Z.ltb_spec k count) as [Hlt|].
  2: { intros [= <-]. replace k with count by lia. eexists. by split; constructor. }
  rewrite bind_unfold.
  destruct (page_usize virt_start count k ltac:(done) Hvend ltac:(lia)) as [[? Hlt64] Htag].
  destruct (map_page_spec R r phy_start count k options Hr ltac:(lia) Hphy Hend self
    virt_start eq_refl Hvirt ltac:(done) s Hwf Hpal Hval)
    as [s1 lvl e Hl Hn Hva He Hwf1 Hu ->|e s1 Hwf1 Hs ->|lvl e Hl Hleaf ->]; [|done..].
  intros Hrun. assert (0 < block_pages lvl) by (unfold block_pages; apply Z.pow_pos_nonneg; lia).
  destruct (IH s1 (k + block_pages lvl) Hwf1) as (regions & Hme & Hal); [lia..|exact Hrun|].
  pose proof (span_pages lvl Hl) as Hspan.
  replace (virt_start + (k + block_pages lvl) * PAGE_SIZE)
    with (virt_start + k * PAGE_SIZE + span lvl) in Hme by lia.
  assert (region_aligned {| base_virt_addr := virt_start + k * PAGE_SIZE;
    base_phys_addr := entry_address e * PAGE_SIZE; page_count := block_pages lvl |}) as Hag.
  { unfold region_aligned. cbn [base_phys_addr page_count]. rewrite (eo_address _ _ _ _ _ He), <- Hspan.
    by apply (block_pa_aligned phy_start virt_start count); [..|apply He]. }
  eexists. split; [|by apply Forall_cons].
  eapply (me_cons _ _ _ _ lvl e); [|done|apply He|by rewrite Hspan|exact Hme].
  pose proof (map_loop_spec R self phy_start virt_start count options Hr Hphy Hend Hpal Hvirt Hval
    Hvend Htop Hblocks fuel s1 (k + block_pages lvl) Hwf1 ltac:(lia) ltac:(lia) ltac:(lia)) as Ho.
  rewrite Hrun in Ho. destruct Ho as [_ Hm].
  specialize (Hm r (virt_start + k * PAGE_SIZE) Hr ltac:(done) (λ _, Htag)).
  rewrite decide_False in Hm by plia.
  rewrite Hm, (Hu r _ Hr). apply decide_True. split; [done|]. apply prefix_take.
Qed.
End roundtrip.

(** ** Translations *)

Section translations.
Context `{BF : BitField}.
Implicit Types (T : gmap Z LevelTable).

Lemma translate_ext T T' high root va : leaf T' root (idx va) = leaf T root (idx va) →
  translate T' high root va = translate T high root va.
Proof.
  intros Hl. unfold translate. rewrite Hl. done.
Qed.

Lemma translate_no_leaf T high root va : leaf T root (idx va) = None →
  translate T high root va = None.
Proof.
  intros Hl. unfold translate. rewrite Hl.
  destruct (VirtualAddress.to_parts va) as [[[[[tag ?] ?] ?] ?] ?]. by destruct (tag_ok high tag).
Qed.

Lemma translate_bad_tag T high root va : is_usize va → tag_ok high (tag_of va) = false →
  translate T high root va = None.
Proof.
  intros Hva Ht. unfold translate. pose proof (to_parts_digits va Hva) as Hd.
  destruct (VirtualAddress.to_parts va) as [[[[[tag ?] ?] ?] ?] ?]. injection Hd as -> _ _ _ _ _.
  fold (tag_of va). by rewrite Ht.
Qed.

Lemma tag_ok_unique high t t' : tag_ok high t = true → tag_ok high t' = true → t = t'.
Proof. unfold tag_ok. destruct high; intros; lia. Qed.

Lemma translate_unmapped R self virt_start T T' b root high va :
  unmapped R self virt_start T T' virt_start b →
  tag_ok (high_addresses self) (tag_of virt_start) = true →
  R root → is_usize va → (root = level0_table self → high = high_addresses self) →
  translate T' high root va =
    if decide (root = level0_table self ∧ virt_start ≤ va < b) then None
    else translate T high root va.
Proof.
  intros Hu Htv Hroot Hva Hh. destruct (tag_ok high (tag_of va)) eqn:Hok.
  2: { rewrite !translate_bad_tag by done. by case_decide. }
  specialize (Hu root va Hroot Hva).
  assert (root = level0_table self → tag_of va = tag_of virt_start) as Htag.
  { intros Heq. rewrite (Hh Heq) in Hok. by eapply tag_ok_unique. }
  specialize (Hu Htag). case_decide; [by apply translate_no_leaf|by apply translate_ext].
Qed.
End translations.

(** ** Properties *)

Section properties.
Context `{BF : BitField} {A : Type} `{FA : !FrameAllocator A} (R : Z → Prop).
Implicit Types (s : Tables A).

(** C10: when the range is made of whole mapped blocks and pages, [unmap_range_custom] reports
    exactly those regions, in order, and afterwards the MMU faults on the range and translates
    every other address, also of the other page tables, as before. Of a range that ends inside a
    block the code would drop the whole block. *)
Theorem unmap_range_exact s (self : PageTable) (virt_start count : Z) (regions : list MappedRegion) :
  forest_wf R s → R (level0_table self) → is_usize virt_start → 0 ≤ count →
  tag_ok (high_addresses self) (tag_of virt_start) = true →
  virt_start + count * PAGE_SIZE ≤ (tag_of virt_start + 1) * 2 ^ 48 →
  mapped_exactly (tables s) (level0_table self) virt_start (virt_start + count * PAGE_SIZE) regions →
  ∃ s', unmap_range_custom self virt_start count s = Ok regions s' ∧ forest_wf R s' ∧
    frames s' = frames s ∧
    ∀ root high va, R root → is_usize va →
      (root = level0_table self → high = high_addresses self) →
      translate (tables s') high root va =
        if decide (root = level0_table self ∧ virt_start ≤ va < virt_start + count * PAGE_SIZE)
        then None else translate (tables s) high root va.
Proof.
  intros Hwf Hr Hv Hc Htag Hve Hme.
  destruct (unmap_loop_run R self virt_start count Hr Hv Hve (Z.to_nat count) s 0 regions Hwf)
    as (s1 & Hrun & [Hf Ht Hi Ha] & _ & Hfr & Hu); [lia|lia|by rewrite Z.mul_0_l, Z.add_0_r|].
  rewrite Z.mul_0_l, Z.add_0_r in Hu.
  eexists. split; [|split; [|split]].
  - unfold unmap_range_custom, set_modified. erewrite bind_run by exact Hrun.
    erewrite bind_run by done. done.
  - by split.
  - done.
  - intros root high va Hroot Hva Hh. cbn [tables]. by eapply translate_unmapped.
Qed.

(** Unmapping what [map_range] mapped into unmapped addresses restores every
    translation of every page table. *)
Theorem unmap_map_roundtrip s s1 (self : PageTable) (phy_start virt_start count : Z)
    (options : PageTableEntryOptions) :
  forest_wf R s → R (level0_table self) →
  0 ≤ phy_start → phy_start mod PAGE_SIZE = 0 → phy_start + count * PAGE_SIZE ≤ 2 ^ 48 →
  is_usize virt_start → virt_start mod PAGE_SIZE = 0 → 0 ≤ count →
  tag_ok (high_addresses self) (tag_of virt_start) = true →
  virt_start + count * PAGE_SIZE ≤ (tag_of virt_start + 1) * 2 ^ 48 →
  blocks_aligned phy_start virt_start count →
  (∀ va, virt_start ≤ va < virt_start + count * PAGE_SIZE →
     translate (tables s) (high_addresses self) (level0_table self) va = None) →
  map_range self phy_start virt_start count true options s = Ok tt s1 →
  ∃ s2, unmap_range self virt_start count s1 = Ok tt s2 ∧
    ∀ root high va, R root → is_usize va →
      (root = level0_table self → high = high_addresses self) →
      translate (tables s2) high root va = translate (tables s) high root va.
Proof.
  intros Hwf Hr Hp0 Hpal Hpe Hv Hval Hc Htag Hve Hbl Hnone Hmap. pose proof Hv as [Hv0 Hv1].
  rewrite map_range_unfold in Hmap by done.
  apply bind_Ok in Hmap as ([] & sm & Hloop & Hset). injection Hset as <-.
  destruct (map_loop_exact R self phy_start virt_start count options Hr Hp0 Hpe Hpal Hv0 Hval Hve
    Hv1 Hbl (Z.to_nat count) s 0 sm Hwf ltac:(lia) ltac:(lia) ltac:(lia) Hloop) as (regions & Hme & Hal).
  pose proof (map_loop_spec R self phy_start virt_start count options Hr Hp0 Hpe Hpal Hv0 Hval
    Hve Hv1 Hbl (Z.to_nat count) s 0 Hwf ltac:(lia) ltac:(lia) ltac:(lia)) as Ho.
  rewrite Hloop in Ho. destruct Ho as [[Hf Ht Hi Ha] Hm]. rewrite Z.mul_0_l, Z.add_0_r in Hme.
  set (s1 := Build_Tables _ _ _).
  destruct (unmap_loop_run R self virt_start count Hr Hv Hve (Z.to_nat count) s1 0 regions)
    as (s2 & Hrun & _ & _ & _ & Hu); [by split|lia|lia|by rewrite Z.mul_0_l, Z.add_0_r|].
  rewrite Z.mul_0_l, Z.add_0_r in Hu. eexists. split.
  - unfold unmap_range, unmap_range_custom, set_modified.
    erewrite bind_run; [done|]. erewrite bind_run by exact Hrun. erewrite bind_run by done. done.
  - intros root high va Hroot Hva Hh. cbn [tables].
    erewrite (translate_unmapped R self virt_start _ _ _ root high va Hu) by done.
    change (tables s1) with (tables sm).
    erewrite (translate_mapped R self phy_start virt_start count options) by (eassumption || done).
    rewrite Z.mul_0_l, Z.add_0_r. case_decide as Hin; [|done].
    destruct Hin as [Heq Hin]. rewrite Heq, (Hh Heq). by rewrite Hnone.
Qed.

(** [physical_address_of] agrees with the MMU for pages.  For a block it ignores the
    bits of the address below the block other than the page offset, so it agrees only on
    the first page of the block. *)
Theorem physical_address_of_mmu s (self : PageTable) (va : Z) :
  forest_wf R s → R (level0_table self) → is_usize va →
  ∃ o, physical_address_of self va s = Ok o s ∧
  ∀ pa ro el0, translate (tables s) (high_addresses self) (level0_table self) va = Some (pa, ro, el0) →
    ∃ lvl e, leaf (tables s) (level0_table self) (idx va) = Some (lvl, e) ∧ 1 ≤ lvl ≤ 3 ∧
      o = Some (entry_address e * PAGE_SIZE + va mod PAGE_SIZE) ∧
      (lvl = 3 → o = Some pa) ∧
      ((entry_address e * PAGE_SIZE) mod span lvl = 0 →
         o = Some pa ↔ va mod span lvl < PAGE_SIZE).
Proof.
  intros Hwf Hr Hva. unfold physical_address_of, translate.
  pose proof (to_parts_digits va Hva) as Hd.
  destruct (VirtualAddress.to_parts va) as [[[[[tag i0] i1] i2] i3] po].
  injection Hd as -> _ _ _ _ ->.
  destruct (tag_ok (high_addresses self) (va / 2 ^ 48)); [|by exists None].
  destruct (walk_ends_va R s _ va Hwf Hr Hva) as (ρ & i & p & t & e & Hw & _ & Hlk).
  rewrite Hlk, (walk_end_leaf _ _ _ _ _ _ _ _ Hw). clear Hlk.
  destruct Hw as [_ _ Htab Hent Href Hlen _]. set (lvl := Z.of_nat (length ρ)) in *.
  cbn [lookup_page]. erewrite bind_run by (by eapply read_entry_run). rewrite Href.
  pose proof (bit_range_bound e 47 12 ltac:(lia)) as Hb. fold (entry_address e) in Hb.
  unfold base_address. rewrite Z.shiftl_mul_pow2 by lia. change (2 ^ 12) with PAGE_SIZE.
  destruct (valid e) eqn:Hv; cbn [negb orb]; [|by exists None].
  destruct (((lvl <? 3) && get_type e) || ((3 <=? lvl) && negb (get_type e))) eqn:Hty.
  { exists None. split; [done|]. intros pa ro el0 Htr. exfalso. cbn in Htr.
    destruct (get_type e) eqn:Hg; [|destruct (Z.eqb_spec lvl 3); [|lia]].
    - rewrite table_ref_total, Hv, Hg in Href by lia. done.
    - by rewrite orb_true_r in Htr. }
  exists (Some (entry_address e * PAGE_SIZE + va mod PAGE_SIZE)). split.
  { erewrite bind_run; [done|]. apply lift_Ok. split; [|done]. apply uadd_Some.
    change (va mod 4096) with (va mod PAGE_SIZE). split; [done|]. unfold PAGE_SIZE. dlia. }
  intros pa ro el0 Htr. cbn in Htr. destruct ((lvl =? 0) || _) eqn:H0; [done|].
  injection Htr as <- <- <-. exists lvl, e. split; [done|]. split; [lia|]. split; [done|].
  pose proof (span_pos lvl ltac:(lia)) as Hsp. split.
  - intros Hl3. rewrite Hl3. change (span 3) with PAGE_SIZE. do 2 f_equal. pdlia.
  - intros Hal.
    assert (entry_address e * PAGE_SIZE / span lvl * span lvl = entry_address e * PAGE_SIZE) as ->.
    { pose proof (Z.div_mod (entry_address e * PAGE_SIZE) (span lvl) ltac:(lia)). lia. }
    assert (va mod span lvl mod PAGE_SIZE = va mod PAGE_SIZE) as Hmm.
    { rewrite span_pages by lia. rewrite Z.mul_comm. apply Z.mod_mod_divide. apply Z.divide_factor_l. }
    pose proof (Z.mod_pos_bound va (span lvl) Hsp).
    pose proof (Z.mod_pos_bound va PAGE_SIZE ltac:(plia)). split; [intros [= Heq]; lia|].
    intros Hlt. do 2 f_equal. rewrite <- Hmm. apply Z.mod_small. lia.
Qed.
End properties.

(** ** [Drop] *)

Section drop.
Context `{BF : BitField} {A : Type} `{FA : !FrameAllocator A}.
Implicit Types (s : Tables A) (T : gmap Z LevelTable) (ρ : list nat).

(** The tables at and below table [p] of level [lvl], and below its entries from [k] on. *)
Definition below T (p lvl x : Z) : Prop := ∃ ρ, follow T p lvl ρ = Some x.
Definition below_from T (p lvl : Z) (k : nat) (x : Z) : Prop :=
  ∃ i ρ, (k ≤ i)%nat ∧ follow T p lvl (i :: ρ) = Some x.

(** A subtree whose tables are in memory, in allocated frames, and not shared. *)
Record subtree_wf s (p lvl : Z) : Prop := {
  sw_table : ∀ x, below (tables s) p lvl x → ∃ t, tables s !! x = Some t ∧ length t = 512%nat;
  sw_inj : ∀ ρ ρ' x, follow (tables s) p lvl ρ = Some x → follow (tables s) p lvl ρ' = Some x →
    ρ = ρ';
  sw_alloc : ∀ x, below (tables s) p lvl x →
    (x - CANONICAL) mod PAGE_SIZE = 0 ∧ fa_allocated (frames s) (x - CANONICAL);
}.

(** The frames of the tables in [P] were freed and nothing else changed. *)
Record freed s s' (P : Z → Prop) : Prop := {
  fr_tables : tables s' = tables s;
  fr_modified : modified s' = modified s;
  fr_wf : fa_wf (frames s');
  fr_allocated : ∀ q, q mod PAGE_SIZE = 0 →
    (fa_allocated (frames s') q ↔ fa_allocated (frames s) q ∧ ¬ P (q + CANONICAL));
}.

Lemma below_step T p lvl i q x : step T p lvl i = Some q → below T q (lvl + 1) x →
  ∃ ρ, follow T p lvl (i :: ρ) = Some x.
Proof. intros Hs [ρ Hρ]. exists ρ. cbn. by rewrite Hs. Qed.

Lemma subtree_step s p lvl i q : subtree_wf s p lvl → step (tables s) p lvl i = Some q →
  subtree_wf s q (lvl + 1).
Proof.
  intros [Ht Hi Ha] Hs. split.
  - intros x Hx. destruct (below_step _ _ _ _ _ _ Hs Hx) as [ρ Hρ]. apply Ht. by eexists.
  - intros ρ ρ' x H1 H2. assert (i :: ρ = i :: ρ') as [=]; [|done].
    apply (Hi _ _ x); cbn; rewrite Hs; done.
  - intros x Hx. destruct (below_step _ _ _ _ _ _ Hs Hx) as [ρ Hρ]. apply Ha. by eexists.
Qed.

(** A subtree keeps its invariant when frames outside it are freed. *)
Lemma subtree_freed s s' P p lvl : subtree_wf s p lvl → freed s s' P →
  (∀ x, below (tables s) p lvl x → ¬ P x) → subtree_wf s' p lvl.
Proof.
  intros [Ht Hi Ha] [E _ _ Hal] Hd. rewrite <- E in *. split; [done..|].
  intros x Hx. destruct (Ha x Hx) as [Hm Hb]. split; [done|]. apply Hal; [done|].
  split; [done|]. replace (x - CANONICAL + CANONICAL) with x by lia. by apply Hd.
Qed.

Lemma freed_trans s1 s2 s3 P Q S' : freed s1 s2 P → freed s2 s3 Q →
  (∀ x, S' x ↔ P x ∨ Q x) → freed s1 s3 S'.
Proof.
  intros [E1 M1 W1 A1] [E2 M2 W2 A2] HS. split; [congruence..|done|].
  intros q Hq. rewrite A2, A1, HS by done. tauto.
Qed.

Lemma freed_none s : fa_wf (frames s) → freed s s (λ _, False).
Proof. intros. split; [done..|]. tauto. Qed.

Lemma table_phy_of_ref e lvl x : table_ref e lvl = Some x → table_phy_addr e = Some (x - CANONICAL).
Proof.
  intros H. destruct (Z.lt_ge_cases lvl 3); [|by rewrite table_ref_None in H].
  rewrite table_ref_total in H by done. unfold table_phy_addr.
  destruct (valid e), (get_type e); try done. injection H as <-. cbn.
  rewrite Z.shiftl_mul_pow2 by lia. change (2 ^ 12) with PAGE_SIZE. f_equal. lia.
Qed.

Lemma below_from_step T p lvl k x :
  below_from T p lvl k x ↔
    (∃ q, step T p lvl k = Some q ∧ below T q (lvl + 1) x) ∨ below_from T p lvl (S k) x.
Proof.
  split.
  - intros (i & ρ & Hi & Hf). destruct (decide (i = k)) as [->|Hne].
    + left. cbn in Hf. destruct (step T p lvl k) as [q|]; [|done]. exists q. split; [done|].
      by exists ρ.
    + right. exists i, ρ. split; [lia|done].
  - intros [(q & Hs & ρ & Hρ)|(i & ρ & Hi & Hf)].
    + exists k, ρ. split; [lia|]. cbn. by rewrite Hs.
    + exists i, ρ. split; [lia|done].
Qed.

Lemma below_split T p lvl x : below T p lvl x ↔ below_from T p lvl 0 x ∨ x = p.
Proof.
  split.
  - intros [[|i ρ] H]; [right; by injection H|]. left. exists i, ρ. split; [lia|done].
  - intros [(i & ρ & _ & H)| ->]; [by exists (i :: ρ)|by exists []].
Qed.

(** The loop over the entries from [k] on, given how a subtree is dropped. *)
Lemma drop_entries_run (f : PageTableEntry → PT A unit) p lvl (t : LevelTable) :
  (∀ s e, fa_wf (frames s) → tables s !! p = Some t → table_ref e lvl = None → f e s = Ok tt s) →
  (∀ s e q, fa_wf (frames s) → table_ref e lvl = Some q → subtree_wf s q (lvl + 1) →
     ∃ s', f e s = Ok tt s' ∧ freed s s' (below (tables s) q (lvl + 1))) →
  ∀ es k s, drop k t = es → tables s !! p = Some t → fa_wf (frames s) →
    (∀ x, below_from (tables s) p lvl k x → ∃ t, tables s !! x = Some t ∧ length t = 512%nat) →
    (∀ ρ ρ' x, follow (tables s) p lvl ρ = Some x → follow (tables s) p lvl ρ' = Some x → ρ = ρ') →
    (∀ x, below_from (tables s) p lvl k x →
       (x - CANONICAL) mod PAGE_SIZE = 0 ∧ fa_allocated (frames s) (x - CANONICAL)) →
    ∃ s', for_each f es s = Ok tt s' ∧ freed s s' (below_from (tables s) p lvl k).
Proof.
  intros Hnone Hsub. induction es as [|e es IH]; intros k s Hes Ht Hf Htab Hinj Hal.
  - exists s. split; [done|]. split; [done..|]. intros q Hq. split; [|tauto].
    intros Ha. split; [done|]. intros (i & ρ & Hi & Hx). cbn in Hx. unfold step, entry in Hx.
    rewrite Ht in Hx. cbn in Hx.
    assert (length t ≤ k)%nat by (apply (f_equal length) in Hes; rewrite length_drop in Hes; cbn in Hes; lia).
    by rewrite lookup_ge_None_2 in Hx by lia.
  - assert (t !! k = Some e) as He.
    { rewrite <- (Nat.add_0_r k), <- lookup_drop, Hes. done. }
    assert (drop (S k) t = es) as Hes'.
    { replace (S k) with (k + 1)%nat by lia. rewrite <- drop_drop, Hes. done. }
    assert (step (tables s) p lvl k = table_ref e lvl) as Hst.
    { unfold step, entry. rewrite Ht. cbn. by rewrite He. }
    cbn [for_each]. destruct (table_ref e lvl) as [q|] eqn:Href.
    + assert (∀ x, below (tables s) q (lvl + 1) x → below_from (tables s) p lvl k x) as Hin.
      { intros x Hx. apply below_from_step. left. by exists q. }
      assert (∀ x, below (tables s) q (lvl + 1) x → ¬ below_from (tables s) p lvl (S k) x) as Hdis.
      { intros x Hx (i & ρ & Hi & Hρ). destruct (below_step _ _ _ _ _ _ Hst Hx) as [ρ' Hρ'].
        assert (i :: ρ = k :: ρ') as [= -> _] by (by eapply Hinj). lia. }
      assert (subtree_wf s q (lvl + 1)) as Hsw.
      { split; [eauto| |eauto]. intros ρ ρ' x H1 H2. assert (k :: ρ = k :: ρ') as [=]; [|done].
        apply (Hinj _ _ x); cbn; rewrite Hst; done. }
      destruct (Hsub s e q Hf Href Hsw) as (s1 & Hrun & Hfr). pose proof Hfr as [E1 _ W1 A1].
      assert (∀ x, below_from (tables s) p lvl (S k) x → below_from (tables s) p lvl k x) as Hmono.
      { intros x Hx. apply below_from_step. by right. }
      destruct (IH (S k) s1 Hes') as (s2 & Hrun2 & Hfr2); rewrite ?E1; try done; [eauto| |].
      { intros x Hx. destruct (Hal x (Hmono x Hx)) as [Hm Ha]. split; [done|]. apply A1; [done|].
        split; [done|]. replace (x - CANONICAL + CANONICAL) with x by lia. intros Hx'. by eapply Hdis. }
      exists s2. rewrite (bind_run _ _ _ _ _ Hrun). split; [done|].
      eapply freed_trans; [exact Hfr|exact Hfr2|]. intros x. rewrite E1, below_from_step, Hst.
      naive_solver.
    + assert (∀ x, below_from (tables s) p lvl k x ↔ below_from (tables s) p lvl (S k) x) as Hsame.
      { intros x. rewrite below_from_step, Hst. naive_solver. }
      destruct (IH (S k) s Hes') as (s2 & Hrun2 & Hfr2); try done; [by setoid_rewrite <- Hsame..|].
      exists s2. rewrite (bind_run _ _ _ _ _ (Hnone s e Hf Ht Href)). split; [done|].
      destruct Hfr2 as [? ? ? Ha]. split; [done..|]. intros x Hx. by rewrite Ha, Hsame.
Qed.

Lemma drop_table_run depth lvl p s : Z.of_nat depth = 4 - lvl → 0 ≤ lvl ≤ 3 →
  fa_wf (frames s) → subtree_wf s p lvl →
  ∃ s', drop_table depth lvl p (p - CANONICAL) s = Ok tt s' ∧ freed s s' (below (tables s) p lvl).
Proof.
  revert lvl p s. induction depth as [|depth IH]; intros lvl p s Hd Hl Hf Hsw; [lia|].
  destruct Hsw as [Htab Hinj Hal].
  assert (below (tables s) p lvl p) as Hself by (by exists []).
  destruct (Htab p Hself) as (t & Ht & Hlen).
  assert (∀ x, below_from (tables s) p lvl 0 x → below (tables s) p lvl x) as Hin.
  { intros x Hx. apply below_split. by left. }
  cbn [drop_table]. erewrite bind_run by done. rewrite Ht.
  destruct (drop_entries_run (λ e : PageTableEntry,
      match table_ref e lvl with
      | Some table' => phy' ← lift (table_phy_addr e); drop_table depth (lvl + 1) table' phy'
      | None => mret tt
      end) p lvl t) with (es := t) (k := 0%nat) (s := s) as (s1 & Hrun & Hfr); try done; [| |eauto|eauto|].
  - intros s1 e _ _ Href. by rewrite Href.
  - intros s1 e q Hf1 Href Hsw. rewrite Href, (table_phy_of_ref _ _ _ Href). run_step.
    destruct (Z.lt_ge_cases lvl 3); [|by rewrite table_ref_None in Href]. apply IH; [lia|lia|done..].
  - erewrite bind_run by exact Hrun. pose proof Hfr as [E1 M1 W1 A1].
    destruct (Hal p Hself) as [Hpm Hpa].
    destruct (fa_free_Ok (frames s1) (p - CANONICAL)) as (a' & Hfree & Wa & Aa); [done| |done|].
    { apply A1; [done|]. split; [done|]. replace (p - CANONICAL + CANONICAL) with p by lia.
      intros (i & ρ & _ & Hx). assert (i :: ρ = []) as [=]. by eapply Hinj. }
    unfold with_frames. rewrite Hfree. eexists. split; [done|]. split; cbn; [done..|].
    intros q Hq. rewrite Aa, A1 by done. rewrite below_split.
    assert (q + CANONICAL = p ↔ q = p - CANONICAL) by lia. naive_solver.
Qed.
End drop.

Section drop_property.
Context `{BF : BitField} {A : Type} `{FA : !FrameAllocator A} (R : Z → Prop).
Implicit Types (s : Tables A).

Lemma forest_subtree s r : forest_wf R s → R r → subtree_wf s r 0.
Proof.
  intros [Hf Ht Hi Ha] Hr. split.
  - intros x [ρ Hρ]. by eapply Ht.
  - intros ρ ρ' x H1 H2. by destruct (Hi r r ρ ρ' x Hr Hr H1 H2).
  - intros x [ρ Hρ]. by eapply Ha.
Qed.

(** Dropping a page table frees the frame of each of its tables, once, and no other
    frame; the other page tables stay well formed and translate as before. *)
Theorem drop_frees_tables s (self : PageTable) : forest_wf R s → R (level0_table self) →
  level0_table self = level0_phy_addr self + CANONICAL →
  ∃ s', drop_PageTable self s = Ok tt s' ∧
    forest_wf (λ r, R r ∧ r ≠ level0_table self) s' ∧ tables s' = tables s ∧
    ∀ q, q mod PAGE_SIZE = 0 →
      (fa_allocated (frames s') q ↔
       fa_allocated (frames s) q ∧ ¬ below (tables s) (level0_table self) 0 (q + CANONICAL)).
Proof.
  intros Hwf Hr Hself. pose proof (forest_subtree s _ Hwf Hr) as Hsw.
  destruct (drop_table_run 4 0 (level0_table self) s) as (s' & Hrun & [E M W Hal]);
    [lia|lia|apply Hwf|done|].
  unfold drop_PageTable. replace (level0_phy_addr self) with (level0_table self - CANONICAL) by lia.
  exists s'. split; [done|]. split; [|done]. destruct Hwf as [_ Ht Hi Ha].
  split; rewrite ?E.
  - done.
  - intros r π p [Hr' _]. by apply Ht.
  - intros r r' π π' p [Hr1 _] [Hr2 _]. by apply Hi.
  - intros r π p [Hr' Hne] Hp. destruct (Ha r π p Hr' Hp) as [Hm Hall]. split; [done|].
    apply Hal; [done|]. split; [done|]. replace (p - CANONICAL + CANONICAL) with p by lia.
    intros [ρ Hρ]. by destruct (Hi r (level0_table self) π ρ p Hr' Hr Hp Hρ).
Qed.
End drop_property.

(** *** Witnesses *)

Lemma map_range_exact `{BF : BitField} {A : Type} `{FA : !FrameAllocator A} (R : Z → Prop)
    (s s1 : Tables A) self phy_start virt_start count options :
  forest_wf R s → R (level0_table self) →
  0 ≤ phy_start → phy_start mod PAGE_SIZE = 0 → phy_start + count * PAGE_SIZE ≤ 2 ^ 48 →
  is_usize virt_start → virt_start mod PAGE_SIZE = 0 → 0 ≤ count →
  tag_ok (high_addresses self) (tag_of virt_start) = true →
  virt_start + count * PAGE_SIZE ≤ (tag_of virt_start + 1) * 2 ^ 48 →
  blocks_aligned phy_start virt_start count →
  map_range self phy_start virt_start count true options s = Ok tt s1 →
  forest_wf R s1 ∧ ∃ regions, mapped_exactly (tables s1) (level0_table self) virt_start
                                (virt_start + count * PAGE_SIZE) regions ∧ Forall region_aligned regions.
Proof.
  intros Hwf Hr Hp0 Hpal Hpe Hv Hval Hc Htag Hve Hbl Hmap. pose proof Hv as [Hv0 Hv1].
  rewrite map_range_unfold in Hmap by done.
  apply bind_Ok in Hmap as ([] & sm & Hloop & Hset). injection Hset as <-.
  destruct (map_loop_exact R self phy_start virt_start count options Hr Hp0 Hpe Hpal Hv0 Hval Hve
    Hv1 Hbl (Z.to_nat count) s 0 sm Hwf ltac:(lia) ltac:(lia) ltac:(lia) Hloop) as (regions & Hme & Hal).
  pose proof (map_loop_spec R self phy_start virt_start count options Hr Hp0 Hpe Hpal Hv0 Hval
    Hve Hv1 Hbl (Z.to_nat count) s 0 Hwf ltac:(lia) ltac:(lia) ltac:(lia)) as Ho.
  rewrite Hloop in Ho. destruct Ho as [[Hf Ht Hi Ha] _]. rewrite Z.mul_0_l, Z.add_0_r in Hme.
  split; [by split|by exists regions].
Qed.

#[local] Existing Instance concrete_bit_field.

Definition demo_root (p : PageTable) : Z → Prop := with_root (λ _, False) (level0_table p).
Definition demo_map (p : PageTable) : PT PhysAlloc.PhysicalMemoryAllocator unit :=
  map_range p 0x40005000 0x1000 2 true demo_options.

(** A fresh table, and the same table with two pages mapped at 0x1000. *)
Lemma demo_ready : ∃ p s0 s, empty false 1 demo_tables = Ok p s0 ∧ demo_map p s0 = Ok tt s ∧
  high_addresses p = false ∧ level0_table p = level0_phy_addr p + CANONICAL ∧
  forest_wf (demo_root p) s0 ∧ forest_wf (demo_root p) s ∧
  (∀ va, translate (tables s0) false (level0_table p) va = None) ∧
  ∃ regions, mapped_exactly (tables s) (level0_table p) 0x1000 0x3000 regions.
Proof.
  assert (is_ok ((p ← empty false 1; demo_map p) demo_tables) = true) as E by (vm_compute; done).
  rewrite bind_unfold in E. pose proof (empty_run (λ _, False) demo_tables false 1 demo_wf) as H.
  destruct (empty false 1 demo_tables) as [p s0|e s0|w]; [|discriminate E|discriminate E].
  destruct H as (Hh & _ & _ & Hl & Hz & Hwf & _).
  destruct (demo_map p s0) as [[] s|e s|w] eqn:Em; [|discriminate E|discriminate E].
  unfold demo_map in Em.
  destruct (map_range_exact (demo_root p) s0 s p 0x40005000 0x1000 2 demo_options Hwf
    (or_intror eq_refl)) as (Hwf' & regions & Hme & _); [rewrite ?Hh; vm_compute; intuition congruence ..|exact Em|].
  exists p, s0, s. split_and!; try done; [|by exists regions]. intros va. by apply translate_no_leaf, zero_leaf.
Qed.

Example unmap_range_exact_witness :
  ∃ p (s s' : Tables PhysAlloc.PhysicalMemoryAllocator) regions,
    unmap_range_custom p 0x1000 2 s = Ok regions s' ∧
    mapped_exactly (tables s) (level0_table p) 0x1000 0x3000 regions ∧
    translate (tables s') false (level0_table p) 0x2345 = None.
Proof.
  destruct demo_ready as (p & s0 & s & _ & _ & Hh & _ & _ & Hwf & _ & regions & Hme).
  destruct (unmap_range_exact (demo_root p) s p 0x1000 2 regions Hwf (or_intror eq_refl))
    as (s' & Hrun & _ & _ & Htr); rewrite ?Hh; [vm_compute; intuition congruence ..|exact Hme|].
  exists p, s, s', regions. split; [exact Hrun|]. split; [exact Hme|].
  rewrite (Htr (level0_table p) false 0x2345 (or_intror eq_refl)); [|vm_compute; split; congruence|auto].
  apply decide_True. split; [reflexivity|vm_compute; split; congruence].
Defined.

Example unmap_map_roundtrip_witness :
  ∃ p s0 s s2,
    demo_map p s0 = Ok tt s ∧ unmap_range p 0x1000 2 s = Ok tt s2 ∧
    translate (tables s2) false (level0_table p) 0x1abc = None.
Proof.
  destruct demo_ready as (p & s0 & s & _ & Hm & Hh & _ & Hwf & _ & Hnone & _).
  destruct (unmap_map_roundtrip (demo_root p) s0 s p 0x40005000 0x1000 2 demo_options Hwf
    (or_intror eq_refl)) as (s2 & Hrun & Htr); rewrite ?Hh;
    [vm_compute; intuition congruence ..|intros; apply Hnone|exact Hm|].
  exists p, s0, s, s2. split; [exact Hm|]. split; [exact Hrun|].
  rewrite (Htr (level0_table p) false 0x1abc (or_intror eq_refl));
    [apply Hnone|vm_compute; split; congruence|auto].
Defined.

Example physical_address_of_mmu_witness :
  ∃ p (s : Tables PhysAlloc.PhysicalMemoryAllocator) o, physical_address_of p 0x1abc s = Ok o s.
Proof.
  destruct demo_ready as (p & s0 & s & _ & _ & _ & _ & _ & Hwf & _).
  destruct (physical_address_of_mmu (demo_root p) s p 0x1abc Hwf (or_intror eq_refl))
    as (o & Ho & _); [vm_compute; split; congruence|].
  exists p, s, o. exact Ho.
Defined.

Example drop_frees_tables_witness :
  ∃ p (s s' : Tables PhysAlloc.PhysicalMemoryAllocator),
    drop_PageTable p s = Ok tt s' ∧ ¬ fa_allocated (frames s') (level0_phy_addr p).
Proof.
  destruct demo_ready as (p & s0 & s & _ & _ & _ & Hl & _ & Hwf & _).
  destruct (drop_frees_tables (demo_root p) s p Hwf (or_intror eq_refl) Hl)
    as (s' & Hrun & _ & _ & Hal).
  exists p, s, s'. split; [exact Hrun|]. intros Ha. apply Hal in Ha as [_ Hn].
  - apply Hn. exists []. cbn. by rewrite Hl.
  - destruct (fw_alloc _ _ Hwf (level0_table p) [] _ (or_intror eq_refl) eq_refl) as [Hm _].
    by replace (level0_phy_addr p) with (level0_table p - CANONICAL) by (rewrite Hl; lia).
Defined.

(** Where no level 3 table exists, [unmap_range] advances by a whole block from the page
    it looks at, also when that page is not the first of the block: unmapping the two pages
    around a block boundary leaves the second one mapped. *)
Theorem unmap_range_skips_after_hole :
  ∃ p s', (p ← empty false 1;
           map_range p 0x40005000 0x200000 1 true demo_options;;
           unmap_range p 0x1ff000 2;; mret p) demo_tables = Ok p s' ∧
          translate (tables s') false (level0_table p) 0x200000 = Some (0x40005000, true, false).
Proof.
  assert (match (p ← empty false 1; map_range p 0x40005000 0x200000 1 true demo_options;;
                 unmap_range p 0x1ff000 2;; mret p) demo_tables with
          | Ok p s' => bool_decide (translate (tables s') false (level0_table p) 0x200000
                                    = Some (0x40005000, true, false))
          | _ => false end = true) as E by (vm_compute; reflexivity).
  destruct ((p ← empty false 1; _) demo_tables) as [p s'|e s'|w]; [|discriminate E|discriminate E].
  exists p, s'. split; [reflexivity|]. by apply bool_decide_eq_true in E.
Qed.
