(* ===== verification/PagingIter.v ===== *)
(** Reading a page table back: [PageTableIter], the iterator over the mapped regions of
    [kernel/src/memory/paging.rs], and [mapped_copy_from], which copies memory through a
    page table that is not the active one.

    The iterator walks the tree of tables with an explicit stack.  Its correctness is that
    it visits the leaves of the tree in order of address, each once, and then stops: the
    leaves still to visit are a list computed from the stack, and [next_entry] takes off the
    head of that list. *)
From S2P Require Import Prelude BitField Addresses Frames PageEntry Paging PagingTree MapRange.
From S2P Require Import UnmapRange.
From Stdlib Require Import Sorting.Sorted.

(** [stack: SmallVec<[(&LevelTable, usize); 4]>], the top first.  The iterator holds the
    lock of the table, so the tables it borrows do not change. *)
Abbreviation Stack := (list (LevelTable * Z)).

Record PageTableIter := {
  stack : Stack;
  itag : Z;
}.

Section iter.
Context `{BF : BitField} (T : gmap Z LevelTable).

Definition current_entry (st : Stack) : option PageTableEntry :=
  '(t, i) ← head st; t !! Z.to_nat i.

(** [(self.stack.len().saturating_sub(1)) as u8] *)
Definition lvl (st : Stack) : Z := Z.of_nat (length st - 1).

Definition current_entry_span (st : Stack) : option Z :=
  match lvl st with
  | 0 => Some (512 * 512 * 512 * PAGE_SIZE)
  | 1 => Some (512 * 512 * PAGE_SIZE)
  | 2 => Some (512 * PAGE_SIZE)
  | 3 => Some PAGE_SIZE
  | _ => None
  end.

(** [None] is a panic, or a table pointer that leads nowhere. *)
Fixpoint follow_tree (indices : list Z) (st : Stack) : option Stack :=
  match (e ← current_entry st; if valid e then table_ref e (lvl st) else None) with
  | None => Some st
  | Some p =>
      match indices with
      | [] => None
      | i :: indices' => t ← T !! p; follow_tree indices' ((t, i) :: st)
      end
  end.

Definition starting_at (self : PageTable) (indices : Z * Z * Z * Z) : option PageTableIter :=
  let '(i0, i1, i2, i3) := indices in
  t ← T !! level0_table self;
  st ← follow_tree [i1; i2; i3] [(t, i0)];
  Some {| stack := st; itag := if high_addresses self then 0xffff else 0 |}.

Definition iter (self : PageTable) : option PageTableIter := starting_at self (0, 0, 0, 0).

Definition stack_index (st : Stack) (k : nat) : Z :=
  match reverse st !! k with Some (_, i) => i | None => 0 end.
Definition current_va_from_stack (it : PageTableIter) : option Z :=
  let st := stack it in
  VirtualAddress.from_parts (itag it) (stack_index st 0) (stack_index st 1)
    (stack_index st 2) (stack_index st 3) 0.

Fixpoint next_entry (st : Stack) : option Stack :=
  ces ← current_entry_span st;
  match st with
  | [] => Some []
  | (ct, ci) :: st' =>
      ci' ← uadd ci 1;
      st1 ← (if Z.of_nat (length ct) <=? ci' then next_entry st' else Some ((ct, ci') :: st'));
      follow_tree [0; 0; 0] st1
  end.

Abbreviation IM := (M PageTableIter Empty_set).

Definition set_stack (it : PageTableIter) (st : Stack) : PageTableIter :=
  {| stack := st; itag := itag it |}.

Fixpoint move_to_next_valid_map_entry (fuel : nat) : IM unit :=
  it ← get;
  match current_entry (stack it) with
  | None => mret tt
  | Some e =>
      if valid e then mret tt
      else
        match fuel with
        | O => out_of_fuel
        | S fuel' =>
            st ← lift (next_entry (stack it));
            put (set_stack it st);;
            move_to_next_valid_map_entry fuel'
        end
  end.

(** [<PageTableIter as Iterator>::next] *)
Definition next (fuel : nat) : IM (option MappedRegion) :=
  move_to_next_valid_map_entry fuel;;
  it ← get;
  match current_entry (stack it) with
  | None => mret None
  | Some ce =>
      base ← lift (base_address ce (lvl (stack it)));
      va ← lift (current_va_from_stack it);
      span ← lift (current_entry_span (stack it));
      st ← lift (next_entry (stack it));
      put (set_stack it st);;
      mret (Some {| base_phys_addr := base; base_virt_addr := va; page_count := span / PAGE_SIZE |})
  end.

(** [for region in page_table.iter()], collecting the regions. *)
Fixpoint collect (fuel : nat) : IM (list MappedRegion) :=
  r ← next fuel;
  match r, fuel with
  | None, _ => mret []
  | Some _, O => out_of_fuel
  | Some region, S fuel' => rest ← collect fuel'; mret (region :: rest)
  end.

(** *** [mapped_copy_from]

    [mem] is the memory as the kernel reads it: a byte for each canonical address. *)
Context (mem : Z → Z).

Definition from_raw_parts (ptr len : Z) : list Z :=
  map (λ k, mem (ptr + Z.of_nat k)) (seq 0 (Z.to_nat len)).

Abbreviation CM := (M (list Z) MemoryError).

Definition unmapped (last_valid : option Z) (remaining_bytes : Z) : MemoryError :=
  Map (CopyFromUnmapped last_valid remaining_bytes).

(** [dst[a..b].copy_from_slice(from_raw_parts(ptr, len))] *)
Definition copy_to_dst (a b ptr len : Z) : CM unit :=
  dst ← get;
  dst' ← lift (copy_into dst a b (from_raw_parts ptr len));
  put dst'.

Fixpoint copy_loop (fuel : nat) (it : PageTableIter) (offset next_start : Z) : CM unit :=
  dst ← get;
  let dst_len := Z.of_nat (length dst) in
  match next fuel it with
  | Stop w => λ _, Stop w
  | Err e _ => match e with end
  | Ok None _ =>
      remaining ← lift (usub dst_len offset);
      throw (unmapped (Some next_start) remaining)
  | Ok (Some region) it' =>
      left ← lift (usub dst_len offset);
      if left =? 0 then mret tt
      else if negb (base_virt_addr region =? next_start) then
        throw (unmapped (Some next_start) left)
      else
        bytes ← lift (umul (page_count region) PAGE_SIZE);
        let len := Z.min bytes left in
        ptr ← lift (PhysicalAddress.to_virtual_canonical (base_phys_addr region));
        offset' ← lift (uadd offset len);
        copy_to_dst offset offset' ptr len;;
        match fuel with
        | O => out_of_fuel
        | S fuel' =>
            copy_loop fuel' it' offset' (VirtualAddress.add (base_virt_addr region) bytes)
        end
  end.

Definition mapped_copy_from (fuel : nat) (self : PageTable) (src_start : Z) : CM unit :=
  let '(tag, i0, i1, i2, i3, po) := VirtualAddress.to_parts src_start in
  if negb (tag_ok (high_addresses self) tag) then throw (Map InvalidTag)
  else
    dst ← get;
    let dst_len := Z.of_nat (length dst) in
    i ← lift (starting_at self (i0, i1, i2, i3));
    match next fuel i with
    | Stop w => λ _, Stop w
    | Err e _ => match e with end
    | Ok None _ => throw (unmapped None dst_len)
    | Ok (Some first) i' =>
        if negb (VirtualAddress.add (base_virt_addr first) po =? src_start) then
          throw (unmapped None dst_len)
        else
          bytes ← lift (umul (page_count first) PAGE_SIZE);
          left ← lift (usub bytes po);
          let offset := Z.min left dst_len in
          ptr ← lift (PhysicalAddress.to_virtual_canonical (base_phys_addr first));
          copy_to_dst 0 offset (VirtualAddress.add ptr po) offset;;
          copy_loop fuel i' offset (VirtualAddress.add (base_virt_addr first) bytes)
    end.
End iter.

(** ** The leaves of a tree in order

    A leaf is the path of indices that leads to it and its entry. *)
Section leaves.
Context `{BF : BitField} (T : gmap Z LevelTable).
Implicit Types (ρ π : list nat) (t : LevelTable) (e : PageTableEntry) (st : Stack).

Fixpoint node (d : nat) ρ e : list (list nat * PageTableEntry) :=
  match table_ref e (Z.of_nat (length ρ - 1)) with
  | None => [(ρ, e)]
  | Some q =>
      match d, T !! q with
      | S d', Some t => concat (imap (λ i, node d' (ρ ++ [i])) t)
      | _, _ => []
      end
  end.

(** The leaves below the entries of a table from index [k] on; [d] is the number of levels
    below the table. *)
Definition row (d : nat) ρ t (k : nat) : list (list nat * PageTableEntry) :=
  concat (imap (λ i, node d (ρ ++ [(k + i)%nat])) (drop k t)).

Lemma row_step d ρ t k e : t !! k = Some e → row d ρ t k = node d (ρ ++ [k]) e ++ row d ρ t (S k).
Proof.
  intros H. unfold row. rewrite (drop_S _ _ _ H). cbn [imap concat]. rewrite Nat.add_0_r.
  f_equal. f_equal. apply imap_ext. intros i x _. cbn. by rewrite Nat.add_succ_r.
Qed.

Lemma row_end d ρ t k : (length t ≤ k)%nat → row d ρ t k = [].
Proof. intros H. unfold row. by rewrite drop_ge. Qed.

Lemma row_split d ρ t k : (k ≤ length t)%nat →
  ∃ l, row d ρ t 0 = l ++ row d ρ t k ∧ (k = 0%nat → l = []).
Proof.
  induction k as [|k IH]; intros Hk; [by exists []|]. destruct IH as (l & -> & _); [lia|].
  destruct (lookup_lt_is_Some_2 t k) as [x Hx]; [lia|].
  exists (l ++ node d (ρ ++ [k]) x). rewrite (row_step _ _ _ _ _ Hx). by rewrite app_assoc.
Qed.

Lemma node_table d ρ e q t : table_ref e (Z.of_nat (length ρ - 1)) = Some q → T !! q = Some t →
  node (S d) ρ e = row d ρ t 0.
Proof. intros He Ht. cbn. by rewrite He, Ht. Qed.

Lemma node_leaf d ρ e : table_ref e (Z.of_nat (length ρ - 1)) = None → node d ρ e = [(ρ, e)].
Proof. intros He. destruct d; cbn; by rewrite He. Qed.

(** *** The leaves a stack has still to visit *)

Definition path st : list nat := reverse (map (λ x, Z.to_nat x.2) st).

Lemma path_cons t i st : path ((t, i) :: st) = path st ++ [Z.to_nat i].
Proof. unfold path. by rewrite map_cons, reverse_cons. Qed.
Lemma path_length st : length (path st) = length st.
Proof. unfold path. by rewrite length_reverse, length_map. Qed.

Fixpoint after st : list (list nat * PageTableEntry) :=
  match st with
  | [] => []
  | (t, i) :: st' => row (3 - length st') (path st') t (S (Z.to_nat i)) ++ after st'
  end.

Definition remaining st : list (list nat * PageTableEntry) :=
  match current_entry st with
  | None => []
  | Some e => node (4 - length st) (path st) e ++ after st
  end.

(** *** Stacks that describe a path in the tree *)

Context (root : Z).
Context (Htab : ∀ π p, follow T root 0 π = Some p → ∃ t, T !! p = Some t ∧ length t = 512%nat).

Fixpoint good st : Prop :=
  match st with
  | [] => True
  | (t, i) :: st' =>
      (∃ p, follow T root 0 (path st') = Some p ∧ T !! p = Some t) ∧ 0 ≤ i < 512 ∧ good st'
  end.

(** [follow_tree] has nothing to follow. *)
Definition settled st : Prop :=
  match current_entry st with Some e => table_ref e (lvl st) = None | None => True end.

Lemma table_ref_valid e l q : table_ref e l = Some q → valid e = true.
Proof.
  unfold table_ref, table_phy_addr. destruct (3 <=? l); [done|]. by destruct (valid e).
Qed.

Lemma good_entry t i st : good ((t, i) :: st) →
  ∃ e, current_entry ((t, i) :: st) = Some e ∧ t !! Z.to_nat i = Some e ∧ length t = 512%nat.
Proof.
  intros [(p & Hp & Ht) [Hi _]]. destruct (Htab _ _ Hp) as (t' & Ht' & Hl).
  assert (t' = t) as -> by congruence. destruct (lookup_lt_is_Some_2 t (Z.to_nat i)) as [e He]; [lia|].
  by exists e.
Qed.

Lemma good_length st : good st → (length st ≤ 4)%nat.
Proof.
  destruct st as [|[t i] st]; [cbn; lia|]. intros [(p & Hp & _) _].
  apply follow_length in Hp. rewrite path_length in Hp. cbn. lia.
Qed.

Lemma lvl_cons t i st : lvl ((t, i) :: st) = Z.of_nat (length st).
Proof. unfold lvl. cbn. by rewrite Nat.sub_0_r. Qed.

(** The table an entry refers to is the next one of the path. *)
Lemma good_push t i st e q t' j : good ((t, i) :: st) → t !! Z.to_nat i = Some e →
  table_ref e (Z.of_nat (length st)) = Some q → T !! q = Some t' → 0 ≤ j < 512 →
  good ((t', j) :: (t, i) :: st).
Proof.
  intros Hg He Hq Ht' Hj. split; [|done]. exists q. split; [|done].
  rewrite path_cons, follow_snoc. destruct Hg as [(p & -> & Ht) _]. cbn.
  unfold step, entry. rewrite path_length, Ht. cbn. by rewrite He.
Qed.

Lemma good_table t i st e q : good ((t, i) :: st) → t !! Z.to_nat i = Some e →
  table_ref e (Z.of_nat (length st)) = Some q → ∃ t', T !! q = Some t' ∧ length t' = 512%nat.
Proof.
  intros [(p & Hp & Ht) _] He Hq. apply (Htab (path st ++ [Z.to_nat i])).
  rewrite follow_snoc, Hp. cbn. unfold step, entry. rewrite path_length, Ht. cbn. by rewrite He.
Qed.

Lemma settled_remaining t i st e : t !! Z.to_nat i = Some e → settled ((t, i) :: st) →
  remaining ((t, i) :: st) = (path ((t, i) :: st), e) :: after ((t, i) :: st).
Proof.
  intros He Hs. unfold remaining, settled, current_entry in *. cbn [head mbind option_bind] in *.
  rewrite He in *. rewrite node_leaf; [done|]. rewrite path_length. done.
Qed.

Lemma follow_tree_settled ks st : settled st → follow_tree T ks st = Some st.
Proof.
  intros H. unfold settled in H. destruct ks; cbn; destruct (current_entry st) as [e|]; cbn; try done;
    rewrite H; by destruct (valid e).
Qed.

(** One step down: what lies left of index [j] of the next table is skipped. *)
Lemma remaining_push t i st e q t' j : good ((t, i) :: st) → t !! Z.to_nat i = Some e →
  table_ref e (Z.of_nat (length st)) = Some q → T !! q = Some t' → 0 ≤ j < 512 →
  ∃ l, remaining ((t, i) :: st) = l ++ remaining ((t', j) :: (t, i) :: st) ∧ (j = 0 → l = []).
Proof.
  intros Hg He Hq Ht' Hj. pose proof (good_push t i st e q t' j Hg He Hq Ht' Hj) as Hg'.
  destruct (good_entry _ _ _ Hg') as (e' & Hce' & He' & Hlen').
  destruct (good_entry _ _ _ Hg) as (e1 & Hce & He1 & _). assert (e1 = e) as -> by congruence.
  assert (length st < 3)%nat as Hlt.
  { destruct (decide (length st < 3)%nat); [done|]. by rewrite table_ref_None in Hq by lia. }
  destruct (row_split (2 - length st) (path ((t, i) :: st)) t' (Z.to_nat j)) as (l & Hl & Hz); [lia|].
  exists l. split; [|intros ->; by apply Hz]. unfold remaining. rewrite Hce, Hce'. cbn [length after].
  replace (4 - S (length st))%nat with (S (2 - length st)) by lia.
  rewrite (node_table _ _ _ q t'); [|by rewrite path_length; cbn; rewrite Nat.sub_0_r|done].
  rewrite Hl, (row_step _ _ _ _ _ He'), (path_cons t' j).
  replace (4 - S (S (length st)))%nat with (2 - length st)%nat by lia.
  replace (3 - S (length st))%nat with (2 - length st)%nat by lia. by rewrite <- !app_assoc.
Qed.

(** Going down along [ks]: what is skipped lies to the left of the new position. *)
Lemma follow_tree_spec ks t i st : good ((t, i) :: st) → (3 ≤ length ks + length st)%nat →
  Forall (λ j, 0 ≤ j < 512) ks →
  ∃ st' pre, follow_tree T ks ((t, i) :: st) = Some st' ∧ st' ≠ [] ∧ good st' ∧ settled st' ∧
    remaining ((t, i) :: st) = pre ++ remaining st' ∧
    (Forall (λ j, j = 0) ks → pre = []) ∧
    path st' `prefix_of` path ((t, i) :: st) ++ map Z.to_nat ks.
Proof.
  revert t i st. induction ks as [|j ks IH]; intros t i st Hg Hl Hj;
    destruct (good_entry t i st Hg) as (e & Hce & He & _);
    destruct (table_ref e (Z.of_nat (length st))) as [q|] eqn:Hq.
  1: { rewrite table_ref_None in Hq by (cbn in Hl; lia). done. }
  2: { destruct (good_table t i st e q Hg He Hq) as (t' & Ht' & _).
    apply Forall_cons in Hj as [Hj His].
    destruct (IH t' j _ (good_push t i st e q t' j Hg He Hq Ht' Hj))
      as (st' & pre & Hf & Hne & Hgs & Hs & Hr & Hz & Hp); [cbn in *; lia|done|].
    destruct (remaining_push t i st e q t' j Hg He Hq Ht' Hj) as (l & Hl' & Hl0).
    exists st', (l ++ pre). split_and!; try done.
    - cbn [follow_tree]. rewrite Hce, lvl_cons. cbn. by rewrite (table_ref_valid _ _ _ Hq), Hq, Ht'.
    - by rewrite Hl', Hr, app_assoc.
    - intros [-> Hz']%Forall_cons. by rewrite (Hl0 eq_refl), (Hz Hz').
    - rewrite path_cons in Hp. cbn [map]. by rewrite <- app_assoc in Hp. }
  all: assert (settled ((t, i) :: st)) as Hs by (unfold settled; by rewrite Hce, lvl_cons).
  all: exists ((t, i) :: st), []; rewrite follow_tree_settled by done; split_and!; try done.
  all: by eexists.
Qed.

Lemma span_defined st : (length st ≤ 4)%nat → current_entry_span st = Some (span (lvl st)).
Proof. intros H. unfold current_entry_span, lvl. by destruct st as [|? [|? [|? [|? [|? ?]]]]]; cbn in H; try lia. Qed.

(** [next_entry] drops the current leaf. *)
Lemma next_entry_spec st : good st →
  ∃ st', next_entry T st = Some st' ∧ good st' ∧ settled st' ∧ remaining st' = after st.
Proof.
  induction st as [|[t i] st IH]; intros Hg; [by exists []|].
  destruct (good_entry t i st Hg) as (e & _ & He & Hlen). pose proof (good_length _ Hg) as Hl4.
  cbn [next_entry]. rewrite span_defined by done. cbn [mbind option_bind after].
  pose proof Hg as [Hp [Hi Hgs]]. rewrite uadd_ok by lia. cbn [mbind option_bind]. rewrite Hlen.
  destruct (Z.leb_spec (Z.of_nat 512) (i + 1)) as [Hle|Hlt].
  - destruct (IH Hgs) as (st1 & -> & Hg1 & Hs1 & Hr1). cbn [mbind option_bind].
    rewrite follow_tree_settled by done. exists st1. split_and!; try done.
    by rewrite row_end by lia.
  - cbn [mbind option_bind].
    assert (good ((t, i + 1) :: st)) as Hg1 by (split; [done|]; split; [lia|done]).
    destruct (follow_tree_spec [0; 0; 0] t (i + 1) st Hg1) as (st' & pre & Hf & _ & Hgs' & Hs & Hr & Hz & _).
    { cbn. lia. } { repeat constructor; lia. }
    exists st'. split_and!; try done. rewrite Hz in Hr by (repeat constructor). cbn [app] in Hr.
    rewrite <- Hr. destruct (good_entry _ _ _ Hg1) as (e' & Hce & He' & _).
    unfold remaining. rewrite Hce. cbn [length after]. rewrite path_cons.
    replace (4 - S (length st))%nat with (3 - length st)%nat by lia.
    replace (Z.to_nat (i + 1)) with (S (Z.to_nat i)) in * by lia.
    by rewrite (row_step _ _ _ _ _ He'), app_assoc.
Qed.

(** *** Leaves and walks *)

(** [x] is a leaf of the tree: the entry at the end of its path is not a table. *)
Definition at_leaf (x : list nat * PageTableEntry) : Prop :=
  ∃ π i p, x.1 = π ++ [i] ∧ follow T root 0 π = Some p ∧ entry T p i = Some x.2 ∧
    table_ref x.2 (Z.of_nat (length π)) = None.

Lemma entry_follow π p i e q : follow T root 0 π = Some p → entry T p i = Some e →
  table_ref e (Z.of_nat (length π)) = Some q → follow T root 0 (π ++ [i]) = Some q.
Proof. intros Hp He Hq. rewrite follow_snoc, Hp. cbn. unfold step. by rewrite He. Qed.

Lemma row_forall (P : list nat * PageTableEntry → Prop) d ρ t k :
  (∀ i e, t !! i = Some e → Forall P (node d (ρ ++ [i]) e)) → Forall P (row d ρ t k).
Proof.
  intros H. unfold row. apply Forall_concat, Forall_lookup. intros i l.
  rewrite list_lookup_imap, lookup_drop. destruct (t !! (k + i)%nat) as [e|] eqn:He; [|done].
  intros [= <-]. by apply H.
Qed.

Lemma node_leaves d π i p e : follow T root 0 π = Some p → entry T p i = Some e →
  Forall at_leaf (node d (π ++ [i]) e).
Proof.
  revert π i p e. induction d as [|d IH]; intros π i p e Hp He;
    (destruct (table_ref e (Z.of_nat (length π))) as [q|] eqn:Hq;
     [|rewrite node_leaf by (rewrite length_app, Nat.add_sub; done);
       apply Forall_singleton; by exists π, i, p]).
  - cbn. rewrite length_app, Nat.add_sub, Hq. constructor.
  - destruct (Htab _ _ (entry_follow π p i e q Hp He Hq)) as (t & Ht & _).
    rewrite (node_table _ _ _ q t); [|by rewrite length_app, Nat.add_sub|done].
    apply row_forall. intros j e' He'. apply (IH _ _ q); [by eapply entry_follow|].
    unfold entry. by rewrite Ht.
Qed.

Lemma row_leaves d π p t k : follow T root 0 π = Some p → T !! p = Some t →
  Forall at_leaf (row d π t k).
Proof.
  intros Hp Ht. apply row_forall. intros i e He. apply (node_leaves _ _ _ p); [done|].
  unfold entry. by rewrite Ht.
Qed.

Lemma after_leaves st : good st → Forall at_leaf (after st).
Proof.
  induction st as [|[t i] st IH]; [constructor|]. intros [(p & Hp & Ht) [Hi Hg]].
  cbn [after]. apply Forall_app. split; [by apply (row_leaves _ _ p)|by apply IH].
Qed.

Lemma remaining_leaves st : good st → Forall at_leaf (remaining st).
Proof.
  intros Hg. destruct st as [|[t i] st]; [constructor|].
  destruct (good_entry _ _ _ Hg) as (e & Hce & He & _). unfold remaining. rewrite Hce.
  apply Forall_app. split; [|by apply after_leaves].
  destruct Hg as [(p & Hp & Ht) _]. rewrite path_cons. apply (node_leaves _ _ _ p); [done|].
  unfold entry. by rewrite Ht.
Qed.

Lemma follow_indices π p : follow T root 0 π = Some p → Forall (λ i, (i < 512)%nat) π.
Proof.
  revert p. induction π as [|i π IH] using rev_ind; [constructor|]. intros p.
  rewrite follow_snoc. destruct (follow T root 0 π) as [q|] eqn:Hq; [|done]. cbn. unfold step, entry.
  destruct (Htab _ _ Hq) as (t & -> & Hl). cbn. destruct (t !! i) as [e|] eqn:He; [|done]. intros _.
  apply Forall_app. split; [by eapply IH|]. apply lookup_lt_Some in He. apply Forall_singleton. lia.
Qed.

Lemma at_leaf_path x : at_leaf x → (1 ≤ length x.1 ≤ 4)%nat ∧ Forall (λ i, (i < 512)%nat) x.1.
Proof.
  intros (π & i & p & -> & Hp & He & _). pose proof (follow_length _ _ _ _ Hp).
  rewrite length_app. cbn. split; [lia|]. apply Forall_app. split; [by eapply follow_indices|].
  unfold entry in He. destruct (Htab _ _ Hp) as (t & Ht & Hl). rewrite Ht in He. cbn in He.
  apply lookup_lt_Some in He. apply Forall_singleton. lia.
Qed.

Lemma at_leaf_walk x σ : at_leaf x →
  walk T root 0 (x.1 ++ σ) = Some (Z.of_nat (length x.1 - 1), x.2).
Proof.
  intros (π & i & p & -> & Hp & He & Href). rewrite <- app_assoc.
  rewrite (walk_app _ _ _ _ _ p) by done. cbn. rewrite Z.add_0_l, He. cbn. rewrite Href.
  rewrite length_app. cbn. by rewrite Nat.add_sub.
Qed.

(** *** Leaves and addresses *)

Context (tag : Z) (Htag : 0 ≤ tag ≤ 0xffff).

Fixpoint path_offset (l : Z) ρ : Z :=
  match ρ with
  | [] => 0
  | i :: ρ' => Z.of_nat i * span l + path_offset (l + 1) ρ'
  end.
(** The first address below a path. *)
Definition va_of ρ : Z := tag * 2 ^ 48 + path_offset 0 ρ.

Lemma path_offset_snoc l ρ i :
  path_offset l (ρ ++ [i]) = path_offset l ρ + Z.of_nat i * span (l + Z.of_nat (length ρ)).
Proof.
  revert l. induction ρ as [|j ρ IH]; intros l; cbn [app path_offset length].
  - change (Z.of_nat 0) with 0. rewrite !Z.add_0_r. lia.
  - rewrite IH. replace (l + 1 + Z.of_nat (length ρ)) with (l + Z.of_nat (S (length ρ))) by lia. lia.
Qed.
Lemma va_of_snoc ρ i : va_of (ρ ++ [i]) = va_of ρ + Z.of_nat i * span (Z.of_nat (length ρ)).
Proof. unfold va_of. rewrite path_offset_snoc, Z.add_0_l. lia. Qed.

Lemma span_up l : 0 ≤ l ≤ 3 → 512 * span (l + 1) = span l.
Proof.
  intros. unfold span. change 512 with (2 ^ 9). rewrite <- Z.pow_add_r by lia. f_equal. lia.
Qed.

Lemma digit_of_range va p q (a : nat) : 0 < p → (a < 512)%nat →
  (512 * q + Z.of_nat a) * p ≤ va < (512 * q + Z.of_nat a + 1) * p →
  Z.to_nat ((va / p) mod 512) = a.
Proof.
  intros Hp Ha Hva. rewrite <- (Z.div_unique_pos va p (512 * q + Z.of_nat a)
    (va - (512 * q + Z.of_nat a) * p)) by lia.
  rewrite Z.add_comm, Z.mul_comm, Z.mod_add, Z.mod_small by lia. lia.
Qed.

(** Addresses below a path have its indices. *)
Lemma idx_of_path ρ va : (1 ≤ length ρ ≤ 4)%nat → Forall (λ i, (i < 512)%nat) ρ →
  va_of ρ ≤ va < va_of ρ + span (Z.of_nat (length ρ - 1)) → is_usize va →
  ρ `prefix_of` idx va.
Proof.
  intros Hl Hi Hva Hu. rewrite idx_digits by done. unfold va_of in *.
  destruct ρ as [|a [|b [|c [|d [|? ?]]]]]; cbn in Hl; try lia;
    repeat (apply Forall_cons in Hi as [? Hi]); cbn [path_offset length Nat.sub] in Hva;
    change (span 0) with (2 ^ 39) in Hva; change (span (0 + 1)) with (2 ^ 30) in Hva;
    change (span (0 + 1 + 1)) with (2 ^ 21) in Hva; change (span (0 + 1 + 1 + 1)) with (2 ^ 12) in Hva;
    rewrite (digit_of_range va (2 ^ 39) tag a);
    rewrite ?(digit_of_range va (2 ^ 30) (512 * tag + Z.of_nat a) b);
    rewrite ?(digit_of_range va (2 ^ 21) (512 * (512 * tag + Z.of_nat a) + Z.of_nat b) c);
    rewrite ?(digit_of_range va (2 ^ 12)
                (512 * (512 * (512 * tag + Z.of_nat a) + Z.of_nat b) + Z.of_nat c) d).
  all: try (by eexists). all: try lia.
  all: change (span (Z.of_nat 0)) with (2 ^ 39) in Hva; change (span (Z.of_nat 1)) with (2 ^ 30) in Hva;
    change (span (Z.of_nat 2)) with (2 ^ 21) in Hva; change (span (Z.of_nat 3)) with (2 ^ 12) in Hva.
  all: lia.
Qed.

(** The leaves of [l] are side by side from [a] to [b]. *)
Fixpoint chain (a : Z) (l : list (list nat * PageTableEntry)) (b : Z) : Prop :=
  match l with
  | [] => a = b
  | (ρ, e) :: l' => va_of ρ = a ∧ chain (a + span (Z.of_nat (length ρ - 1))) l' b
  end.

Lemma path_chain_app a l1 l2 b c : chain a l1 b → chain b l2 c → chain a (l1 ++ l2) c.
Proof.
  revert a. induction l1 as [|[ρ e] l1 IH]; intros a; cbn; [by intros ->|].
  intros [-> H1] H2. split; [done|by apply IH].
Qed.

Lemma row_chain_of d π p t k : follow T root 0 π = Some p → T !! p = Some t →
  (∀ i e, entry T p i = Some e → chain (va_of (π ++ [i])) (node d (π ++ [i]) e)
                                   (va_of (π ++ [i]) + span (Z.of_nat (length π)))) →
  (k ≤ 512)%nat →
  chain (va_of (π ++ [k])) (row d π t k) (va_of π + 512 * span (Z.of_nat (length π))).
Proof.
  intros Hp Ht Hnode Hk. destruct (Htab _ _ Hp) as (t' & Ht' & Hlen).
  assert (t' = t) as -> by congruence. clear Ht'.
  remember (512 - k)%nat as n eqn:Hn. revert k Hk Hn. induction n as [|n IH]; intros k Hk Hn.
  - rewrite row_end by lia. assert (k = 512%nat) as -> by lia. cbn [chain]. rewrite va_of_snoc. lia.
  - destruct (lookup_lt_is_Some_2 t k) as [e He]; [lia|]. rewrite (row_step _ _ _ _ _ He).
    eapply path_chain_app; [apply Hnode; unfold entry; by rewrite Ht|].
    replace (va_of (π ++ [k]) + span (Z.of_nat (length π))) with (va_of (π ++ [S k]))
      by (rewrite !va_of_snoc; lia).
    apply IH; lia.
Qed.

Lemma node_chain d π i p e : (d + length π = 3)%nat → follow T root 0 π = Some p →
  entry T p i = Some e →
  chain (va_of (π ++ [i])) (node d (π ++ [i]) e) (va_of (π ++ [i]) + span (Z.of_nat (length π))).
Proof.
  revert π i p e. induction d as [|d IH]; intros π i p e Hd Hp He;
    (destruct (table_ref e (Z.of_nat (length π))) as [q|] eqn:Hq;
     [|rewrite node_leaf by (rewrite length_app, Nat.add_sub; done); cbn [chain];
       rewrite length_app, Nat.add_sub; done]).
  - by rewrite table_ref_None in Hq by lia.
  - pose proof (entry_follow π p i e q Hp He Hq) as Hq'.
    destruct (Htab _ _ Hq') as (t & Ht & _).
    rewrite (node_table _ _ _ q t); [|by rewrite length_app, Nat.add_sub|done].
    pose proof (row_chain_of d (π ++ [i]) q t 0 Hq' Ht) as Hr.
    rewrite (va_of_snoc (π ++ [i]) 0), Z.add_0_r, length_app in Hr. cbn [length] in Hr.
    rewrite Nat2Z.inj_add, span_up in Hr by lia. apply Hr; [|lia].
    intros j e' He'. pose proof (IH (π ++ [i]) j q e') as H. rewrite length_app in H.
    rewrite Nat2Z.inj_add in H. apply H; [cbn; lia|done|done].
Qed.

Lemma row_chain d π p t k : (d + length π = 3)%nat → follow T root 0 π = Some p →
  T !! p = Some t → (k ≤ 512)%nat →
  chain (va_of (π ++ [k])) (row d π t k) (va_of π + 512 * span (Z.of_nat (length π))).
Proof.
  intros Hd Hp Ht Hk. apply (row_chain_of _ _ p); [done|done| |done].
  intros i e He. by apply (node_chain _ _ _ p).
Qed.

Definition top : Z := (tag + 1) * 2 ^ 48.

Lemma after_chain t i st : good ((t, i) :: st) →
  chain (va_of (path ((t, i) :: st)) + span (Z.of_nat (length st))) (after ((t, i) :: st)) top.
Proof.
  revert t i. induction st as [|[t' i'] st IH]; intros t i Hg;
    pose proof (good_length _ Hg) as Hl; pose proof Hg as [(p & Hp & Ht) [Hi Hg']];
    rewrite path_cons; cbn [after]; rewrite va_of_snoc, path_length.
  - pose proof (row_chain 3 [] p t (S (Z.to_nat i)) ltac:(done) Hp Ht ltac:(lia)) as Hr.
    rewrite app_nil_r. rewrite va_of_snoc in Hr. cbn [length Nat.sub] in *.
    unfold top, va_of in *. cbn [path_offset] in *. change (span (Z.of_nat 0)) with (2 ^ 39) in *.
    change (path []) with (@nil nat) in *. cbn [path_offset].
    replace (tag * 2 ^ 48 + 0 + Z.of_nat (Z.to_nat i) * 2 ^ 39 + 2 ^ 39)
      with (tag * 2 ^ 48 + 0 + Z.of_nat (S (Z.to_nat i)) * 2 ^ 39) by lia.
    by replace ((tag + 1) * 2 ^ 48) with (tag * 2 ^ 48 + 0 + 512 * 2 ^ 39) by lia.
  - eapply path_chain_app; [|by apply IH]. cbn [length] in *.
    pose proof (row_chain (3 - S (length st)) (path ((t', i') :: st)) p t (S (Z.to_nat i))) as Hr.
    rewrite path_length in Hr. cbn [length] in Hr. specialize (Hr ltac:(lia) Hp Ht ltac:(lia)).
    rewrite va_of_snoc, path_length in Hr. cbn [length] in Hr.
    rewrite (Nat2Z.inj_succ (length st)), (Nat2Z.inj_succ (Z.to_nat i)) in Hr.
    rewrite (Nat2Z.inj_succ (length st)). unfold Z.succ in *.
    rewrite (span_up (Z.of_nat (length st))) in Hr by lia.
    by replace (va_of (path ((t', i') :: st)) + Z.of_nat (Z.to_nat i) * span (Z.of_nat (length st) + 1)
       + span (Z.of_nat (length st) + 1)) with
      (va_of (path ((t', i') :: st)) + (Z.of_nat (Z.to_nat i) + 1) * span (Z.of_nat (length st) + 1)) by lia.
Qed.

Lemma remaining_chain t i st : good ((t, i) :: st) →
  chain (va_of (path ((t, i) :: st))) (remaining ((t, i) :: st)) top.
Proof.
  intros Hg. destruct (good_entry _ _ _ Hg) as (e & Hce & He & _).
  pose proof (good_length _ Hg) as Hl. unfold remaining. rewrite Hce.
  eapply path_chain_app; [|by apply after_chain]. destruct Hg as [(p & Hp & Ht) _].
  pose proof (node_chain (3 - length st) (path st) (Z.to_nat i) p e) as H.
  rewrite path_length in H. rewrite path_cons. apply H; [cbn in Hl; lia|done|].
  unfold entry. by rewrite Ht.
Qed.

(** *** The iterator *)

Definition region (x : list nat * PageTableEntry) : MappedRegion :=
  {| base_phys_addr := entry_address x.2 * PAGE_SIZE; base_virt_addr := va_of x.1;
     page_count := span (Z.of_nat (length x.1 - 1)) / PAGE_SIZE |}.
Definition regions (l : list (list nat * PageTableEntry)) : list MappedRegion :=
  map region (filter (λ x, valid x.2 = true) l).

(** The valid entry is a block or a page. *)
Definition usable (x : list nat * PageTableEntry) : Prop :=
  length x.1 = 4%nat → valid x.2 = true → get_type x.2 = true.

Record iter_at (it : PageTableIter) (l : list (list nat * PageTableEntry)) : Prop := {
  ia_good : good (stack it);
  ia_settled : settled (stack it);
  ia_remaining : remaining (stack it) = l;
  ia_tag : itag it = tag;
}.

Lemma good_indices st : good st → Forall (λ x : LevelTable * Z, 0 ≤ x.2 < 512) st.
Proof. induction st as [|[t i] st IH]; [constructor|]. intros (_ & Hi & Hg). constructor; [done|by apply IH]. Qed.

Lemma current_va st : good st →
  current_va_from_stack {| stack := st; itag := tag |} = Some (va_of (path st)).
Proof.
  intros Hg. pose proof (good_length _ Hg) as Hl. pose proof (good_indices _ Hg) as Hi.
  unfold current_va_from_stack, stack_index. cbn [stack itag].
  destruct st as [|[t0 i0] [|[t1 i1] [|[t2 i2] [|[t3 i3] [|? ?]]]]]; cbn in Hl; try lia; clear Hg;
    repeat (apply Forall_cons in Hi as [? Hi]); cbn [snd] in *;
    cbn [reverse rev_append lookup list_lookup];
    rewrite from_parts_sum by lia; unfold va_of, path; cbn [map reverse rev_append snd path_offset];
    change (span 0) with (2 ^ 39); change (span (0 + 1)) with (2 ^ 30);
    change (span (0 + 1 + 1)) with (2 ^ 21); change (span (0 + 1 + 1 + 1)) with (2 ^ 12); f_equal; lia.
Qed.

(** Taking the head leaf off. *)
Lemma iter_advance it x l : iter_at it (x :: l) →
  current_entry (stack it) = Some x.2 ∧ x.1 = path (stack it) ∧
  lvl (stack it) = Z.of_nat (length x.1 - 1) ∧ at_leaf x ∧
  ∃ st, next_entry T (stack it) = Some st ∧ iter_at (set_stack it st) l.
Proof.
  intros [Hg Hs Hr Ht]. pose proof (remaining_leaves _ Hg) as Hal. rewrite Hr in Hal.
  apply Forall_cons in Hal as [Hx _]. destruct (next_entry_spec _ Hg) as (st' & Hn & Hg' & Hs' & Hr').
  destruct (stack it) as [|[t i] st]; [done|].
  destruct (good_entry _ _ _ Hg) as (e & Hce & He & _).
  rewrite (settled_remaining _ _ _ e) in Hr by done. injection Hr as <- <-. cbn [fst snd].
  rewrite path_length. split_and!; try done. by exists st'.
Qed.

Lemma iter_end it : iter_at it [] → current_entry (stack it) = None.
Proof.
  intros [Hg Hs Hr Ht]. destruct (stack it) as [|[t i] st]; [done|].
  destruct (good_entry _ _ _ Hg) as (e & Hce & He & _).
  by rewrite (settled_remaining _ _ _ e) in Hr by done.
Qed.

Lemma move_spec fuel it l : iter_at it l → (length l ≤ fuel)%nat →
  ∃ it' pre l', move_to_next_valid_map_entry T fuel it = Ok tt it' ∧ iter_at it' l' ∧
    l = pre ++ l' ∧ regions l' = regions l ∧
    match l' with [] => True | x :: _ => valid x.2 = true end.
Proof.
  revert it l. induction fuel as [|fuel IH]; intros it l Hit Hf; destruct l as [|x l].
  1, 3: exists it, [], []; pose proof (iter_end it Hit) as Hc; cbn [move_to_next_valid_map_entry];
    erewrite bind_run by done; rewrite Hc; done.
  - cbn in Hf. lia.
  - destruct (iter_advance it x l Hit) as (Hc & _ & _ & _ & st & Hn & Hit').
    cbn [move_to_next_valid_map_entry]. erewrite bind_run by done. rewrite Hc.
    destruct (valid x.2) eqn:Hv.
    + exists it, [], (x :: l). done.
    + destruct (IH (set_stack it st) l Hit') as (it' & pre & l' & Hm & Hi & -> & Hr & Hh);
        [cbn in Hf; lia|].
      exists it', (x :: pre), l'. rewrite Hn. erewrite bind_run by done. erewrite bind_run by done.
      split_and!; try done. rewrite Hr. unfold regions. rewrite filter_cons_False; [done|congruence].
Qed.

Lemma usable_base x : at_leaf x → usable x → valid x.2 = true →
  base_address x.2 (Z.of_nat (length x.1 - 1)) = Some (entry_address x.2 * PAGE_SIZE).
Proof.
  intros Hx Hu Hv. pose proof (at_leaf_path x Hx) as [Hl _].
  destruct Hx as (π & i & p & Hπ & _ & _ & Href). rewrite Hπ in Hl |- *.
  rewrite length_app in Hl |- *. cbn in Hl |- *. rewrite Nat.add_sub.
  unfold base_address. rewrite Hv, Z.shiftl_mul_pow2 by lia. cbn [negb orb].
  destruct (Z.ltb_spec (Z.of_nat (length π)) 3).
  - rewrite table_ref_total, Hv in Href by lia. destruct (get_type x.2); [done|]. cbn.
    by replace (3 <=? Z.of_nat (length π)) with false by lia.
  - rewrite (Hu ltac:(rewrite Hπ, length_app; cbn; lia) Hv). by rewrite andb_false_r.
Qed.

Lemma next_spec fuel it l : iter_at it l → Forall usable l → (length l ≤ fuel)%nat →
  ∃ it' pre l', l = pre ++ l' ∧ iter_at it' l' ∧
    ((regions l = [] ∧ l' = [] ∧ next T fuel it = Ok None it') ∨
     (∃ x r, pre = r ++ [x] ∧ valid x.2 = true ∧ regions l = region x :: regions l' ∧
        next T fuel it = Ok (Some (region x)) it')).
Proof.
  intros Hit Hu Hf. destruct (move_spec fuel it l Hit Hf) as (it1 & pre & l1 & Hm & Hi & Hl & Hr & Hv).
  unfold next. destruct l1 as [|x l1].
  - exists it1, pre, []. split; [done|]. split; [done|]. left. split; [by rewrite <- Hr|]. split; [done|].
    erewrite bind_run by done. erewrite bind_run by done. by rewrite (iter_end it1 Hi).
  - destruct (iter_advance it1 x l1 Hi) as (Hc & Hp & Hlv & Hx & st & Hn & Hit').
    exists (set_stack it1 st), (pre ++ [x]), l1. split; [by rewrite <- app_assoc|]. split; [done|]. right.
    exists x, pre. split; [done|]. split; [done|]. split.
    { rewrite <- Hr. unfold regions. by rewrite filter_cons_True. }
    erewrite bind_run by done. erewrite bind_run by done. rewrite Hc, Hlv.
    rewrite usable_base; [|done| |done].
    2: { rewrite Hl in Hu. apply Forall_app in Hu as [_ Hu]. by apply Forall_cons in Hu as [? _]. }
    erewrite bind_run by done. pose proof Hi as [Hg _ _ Ht].
    replace it1 with {| stack := stack it1; itag := tag |} by (rewrite <- Ht; by destruct it1).
    rewrite current_va by done. erewrite bind_run by done. cbn [stack].
    rewrite span_defined by (by apply good_length). erewrite bind_run by done.
    rewrite Hn. erewrite bind_run by done. unfold region. rewrite Hp, Hlv, Hp. cbn. done.
Qed.

Lemma collect_spec fuel it l : iter_at it l → Forall usable l → (length l ≤ fuel)%nat →
  ∃ it', collect T fuel it = Ok (regions l) it'.
Proof.
  revert it l. induction fuel as [|fuel IH]; intros it l Hit Hu Hf;
    destruct (next_spec _ it l Hit Hu Hf)
      as (it1 & pre & l1 & -> & Hi & [(Hr & -> & Hn) | (x & r & -> & Hv & Hr & Hn)]);
    cbn [collect]; erewrite bind_run by exact Hn; rewrite Hr.
  - by exists it1.
  - rewrite !length_app in Hf. cbn in Hf. lia.
  - by exists it1.
  - destruct (IH it1 l1 Hi) as (it' & Hc).
    + by apply Forall_app in Hu as [_ Hu].
    + rewrite !length_app in Hf. cbn in Hf. lia.
    + exists it'. by erewrite bind_run by exact Hc.
Qed.

Definition tree_leaves : list (list nat * PageTableEntry) :=
  match T !! root with Some t => row 3 [] t 0 | None => [] end.

Lemma starting_at_spec (self : PageTable) i0 i1 i2 i3 : level0_table self = root →
  (if high_addresses self then 0xffff else 0) = tag →
  Forall (λ j, 0 ≤ j < 512) [i0; i1; i2; i3] →
  ∃ it pre x l, starting_at T self (i0, i1, i2, i3) = Some it ∧ iter_at it (x :: l) ∧
    tree_leaves = pre ++ x :: l ∧ (i0 = 0 → i1 = 0 → i2 = 0 → i3 = 0 → pre = []) ∧
    x.1 `prefix_of` [Z.to_nat i0; Z.to_nat i1; Z.to_nat i2; Z.to_nat i3] ∧
    chain (va_of x.1) (x :: l) top.
Proof.
  intros Hroot Ht [Hi0 His]%Forall_cons. unfold starting_at, tree_leaves. rewrite Hroot, Ht.
  destruct (Htab [] root eq_refl) as (t & Hr & Hlen). rewrite Hr. cbn [mbind option_bind].
  assert (good [(t, i0)]) as Hg by (split; [by exists root|done]).
  destruct (follow_tree_spec [i1; i2; i3] t i0 [] Hg) as (st & pre & Hf & Hne & Hg' & Hs & Hrem & Hz & Hp);
    [done|done|].
  destruct (good_entry _ _ _ Hg) as (e & Hce & He & _).
  destruct (row_split 3 [] t (Z.to_nat i0)) as (l0 & Hl0 & Hz0); [lia|].
  rewrite Hf. cbn [mbind option_bind]. destruct st as [|[t' i'] st]; [done|].
  destruct (good_entry _ _ _ Hg') as (e' & _ & He' & _).
  exists {| stack := (t', i') :: st; itag := tag |}, (l0 ++ pre), (path ((t', i') :: st), e'),
    (after ((t', i') :: st)).
  pose proof (settled_remaining _ _ _ _ He' Hs) as Hsr. split_and!.
  - done.
  - by split.
  - rewrite Hl0, <- app_assoc. f_equal. rewrite <- Hsr, <- Hrem, (row_step _ _ _ _ _ He).
    unfold remaining. rewrite Hce. cbn [after length]. by rewrite app_nil_r.
  - intros -> -> -> ->. rewrite Hz0 by done. by rewrite Hz by (repeat constructor).
  - exact Hp.
  - rewrite <- Hsr. by apply remaining_chain.
Qed.

Lemma tree_leaves_at : Forall at_leaf tree_leaves.
Proof.
  unfold tree_leaves. destruct (Htab [] root eq_refl) as (t & Hr & _). rewrite Hr.
  by apply (row_leaves _ _ root).
Qed.

(** *** Regions and translation *)

Lemma va_of_mod ρ : (length ρ ≤ 4)%nat → va_of ρ mod span (Z.of_nat (length ρ) - 1) = 0.
Proof.
  induction ρ as [|i ρ IH] using rev_ind; intros Hl.
  - unfold va_of. cbn [path_offset]. rewrite Z.add_0_r. apply Z.mod_mul. done.
  - rewrite length_app in Hl |- *. cbn in Hl |- *. specialize (IH ltac:(lia)).
    rewrite va_of_snoc. replace (Z.of_nat (length ρ + 1) - 1) with (Z.of_nat (length ρ)) by lia.
    rewrite Z.mod_add by (pose proof (span_pos (Z.of_nat (length ρ))); lia).
    assert (span (Z.of_nat (length ρ) - 1) = 512 * span (Z.of_nat (length ρ))) as Hsp.
    { destruct ρ as [|j ρ]; [done|]. cbn [length] in *. rewrite <- span_up by lia. do 2 f_equal. lia. }
    apply Z.mod_divide in IH; [|rewrite Hsp; pose proof (span_pos (Z.of_nat (length ρ))); lia].
    destruct IH as [z ->]. rewrite Hsp, Z.mul_assoc. apply Z.mod_mul.
    pose proof (span_pos (Z.of_nat (length ρ))). lia.
Qed.

Lemma span_region x : at_leaf x →
  page_count (region x) * PAGE_SIZE = span (Z.of_nat (length x.1 - 1)) ∧
  0 < span (Z.of_nat (length x.1 - 1)).
Proof.
  intros [[H1 H2] _]%at_leaf_path. unfold region. cbn [page_count].
  assert (length x.1 - 1 ≤ 3)%nat as Hl by lia.
  destruct (length x.1 - 1)%nat as [|[|[|[|n]]]]; [done..|lia].
Qed.

(** What the list of regions says of an address. *)
Fixpoint region_address (rs : list MappedRegion) (va : Z) : option Z :=
  match rs with
  | [] => None
  | r :: rs' =>
      if (base_virt_addr r <=? va) && (va <? base_virt_addr r + page_count r * PAGE_SIZE)
      then Some (base_phys_addr r + (va - base_virt_addr r))
      else region_address rs' va
  end.

Definition leaf_address (va : Z) : option Z :=
  '(l, e) ← leaf T root (idx va); Some (entry_address e * PAGE_SIZE + va mod span l).

Lemma leaf_inside x va : at_leaf x → is_usize va →
  va_of x.1 ≤ va < va_of x.1 + span (Z.of_nat (length x.1 - 1)) →
  leaf T root (idx va) = (if valid x.2 then Some (Z.of_nat (length x.1 - 1), x.2) else None) ∧
  va mod span (Z.of_nat (length x.1 - 1)) = va - va_of x.1.
Proof.
  intros Hx Hu Hva. pose proof (at_leaf_path x Hx) as [Hl Hi]. split.
  - destruct (idx_of_path x.1 va Hl Hi Hva Hu) as [σ Hσ]. unfold leaf. rewrite Hσ.
    by rewrite at_leaf_walk.
  - pose proof (va_of_mod x.1 ltac:(lia)) as Hm.
    replace (Z.of_nat (length x.1) - 1) with (Z.of_nat (length x.1 - 1)) in Hm by lia.
    set (sp := span _) in *. apply Z.mod_divide in Hm; [|lia]. destruct Hm as [z Hz].
    symmetry. apply (Z.mod_unique_pos _ _ z); lia.
Qed.

Lemma regions_cons x l : regions (x :: l) = if valid x.2 then region x :: regions l else regions l.
Proof.
  unfold regions. destruct (valid x.2) eqn:Hv.
  - by rewrite filter_cons_True.
  - by rewrite filter_cons_False by congruence.
Qed.

Lemma chain_le a l b : chain a l b → Forall at_leaf l → a ≤ b.
Proof.
  revert a. induction l as [|[ρ e] l IH]; intros a; cbn [chain]; [lia|].
  intros [_ Hc] [Hx Hl]%Forall_cons. pose proof (span_region _ Hx) as [_ Hp]. cbn [fst] in Hp.
  specialize (IH _ Hc Hl). lia.
Qed.

Lemma chain_bounds a l b x : chain a l b → Forall at_leaf l → x ∈ l →
  a ≤ va_of x.1 ∧ va_of x.1 + span (Z.of_nat (length x.1 - 1)) ≤ b.
Proof.
  revert a. induction l as [|[ρ e] l IH]; intros a; [by intros _ _ ?%elem_of_nil|].
  cbn [chain]. intros [Ha Hc] [Hx Hl]%Forall_cons [->|Hin]%elem_of_cons; cbn [fst].
  - pose proof (chain_le _ _ _ Hc Hl). lia.
  - destruct (IH _ Hc Hl Hin) as [? ?]. pose proof (span_region _ Hx) as [_ Hp]. cbn [fst] in Hp. lia.
Qed.

(** No region of a chain covers an address outside it. *)
Lemma region_address_outside a l b va : chain a l b → Forall at_leaf l → va < a ∨ b ≤ va →
  region_address (regions l) va = None.
Proof.
  intros Hc Hl Hva. assert (∀ x, x ∈ l → va < va_of x.1 ∨
    va_of x.1 + span (Z.of_nat (length x.1 - 1)) ≤ va) as Hout.
  { intros x Hx. destruct (chain_bounds _ _ _ _ Hc Hl Hx). lia. }
  clear Hc Hva. induction l as [|x l IH]; [done|]. apply Forall_cons in Hl as [Hx Hl].
  rewrite regions_cons. destruct (valid x.2); [|by apply IH; [|intros; apply Hout; right]].
  cbn [region_address]. pose proof (span_region _ Hx) as [-> _]. cbn [region base_virt_addr].
  destruct (Hout x) as [?|?]; [by left|..].
  - replace (va_of x.1 <=? va) with false by lia. apply IH; [done|]. intros; apply Hout; by right.
  - replace (va <? _) with false by lia. rewrite andb_false_r. apply IH; [done|].
    intros; apply Hout; by right.
Qed.

Lemma region_address_chain a l b va : chain a l b → Forall at_leaf l → is_usize va →
  a ≤ va < b → region_address (regions l) va = leaf_address va.
Proof.
  revert a. induction l as [|[ρ e] l IH]; intros a; cbn [chain]; [lia|].
  intros [Ha Hc] [Hx Hl]%Forall_cons Hu Hva. pose proof (span_region _ Hx) as [Hsz Hp].
  rewrite regions_cons. cbn [fst snd] in *.
  destruct (decide (va < a + span (Z.of_nat (length ρ - 1)))) as [Hin|Hnin].
  - destruct (leaf_inside _ va Hx Hu) as [Hlf Hm]; [cbn; lia|]. cbn [fst snd] in *.
    unfold leaf_address. rewrite Hlf. destruct (valid e) eqn:Hv; cbn [mbind option_bind].
    + cbn [region_address]. rewrite Hsz. unfold region. cbn [base_virt_addr base_phys_addr fst snd].
      replace ((va_of ρ <=? va) && _) with true by lia. by rewrite Hm.
    + eapply region_address_outside; [done..|]. lia.
  - rewrite <- (IH _ Hc Hl Hu) by lia. destruct (valid e); [|done]. cbn [region_address].
    rewrite Hsz. unfold region. cbn [base_virt_addr fst].
    replace (va <? _) with false by lia. by rewrite andb_false_r.
Qed.

Definition region_before (r r' : MappedRegion) : Prop :=
  base_virt_addr r + page_count r * PAGE_SIZE ≤ base_virt_addr r'.

Lemma regions_sorted a l b : chain a l b → Forall at_leaf l → StronglySorted region_before (regions l).
Proof.
  revert a. induction l as [|[ρ e] l IH]; intros a; cbn [chain]; [constructor|].
  intros [Ha Hc] [Hx Hl]%Forall_cons. pose proof (span_region _ Hx) as [Hsz Hp].
  rewrite regions_cons. cbn [snd]. destruct (valid e); [|by eapply IH]. constructor; [by eapply IH|].
  apply Forall_forall. intros r. unfold regions. intros (y & -> & Hy)%list_elem_of_fmap.
  apply list_elem_of_filter in Hy as [_ Hy]. destruct (chain_bounds _ _ _ _ Hc Hl Hy) as [Hb _].
  unfold region_before. rewrite Hsz. cbn [region base_virt_addr fst] in *. lia.
Qed.
End leaves.

(** ** The iterator enumerates the mapping *)

Section enumerate.
Context `{BF : BitField} {A : Type} `{FA : !FrameAllocator A} (R : Z → Prop) (s : Tables A).
Context (self : PageTable) (Hwf : forest_wf R s) (Hr : R (level0_table self)).
Local Abbreviation T := (tables s).
Local Abbreviation root := (level0_table self).
Local Abbreviation tag := (if high_addresses self then 0xffff else 0).

(** The leaves [map_range] makes: blocks at levels 1 and 2 and pages, each aligned to its size. *)
Definition leaves_ok : Prop := ∀ va l e, is_usize va → leaf T root (idx va) = Some (l, e) →
  1 ≤ l ∧ (l = 3 → get_type e = true) ∧ (entry_address e * PAGE_SIZE) mod span l = 0.

Definition tree_size : nat := length (tree_leaves T root).

Lemma tables_exist π p : follow T root 0 π = Some p → ∃ t, T !! p = Some t ∧ length t = 512%nat.
Proof. apply (fw_table _ _ Hwf). done. Qed.

Lemma tag_range : 0 ≤ tag ≤ 0xffff.
Proof. destruct (high_addresses self); lia. Qed.

Lemma all_leaves : Forall (at_leaf T root) (tree_leaves T root).
Proof. apply tree_leaves_at, tables_exist. Qed.

Lemma iter_starts : ∃ it, iter T self = Some it ∧ iter_at T root tag it (tree_leaves T root) ∧
  chain tag (tag * 2 ^ 48) (tree_leaves T root) (top tag).
Proof.
  destruct (starting_at_spec T root tables_exist tag self 0 0 0 0 eq_refl eq_refl)
    as (it & pre & x & l & Hs & Hi & Hl & Hz & Hp & Hc); [repeat constructor; lia|].
  exists it. rewrite Hl, Hz by done. split; [done|]. split; [done|]. cbn [app].
  replace (tag * 2 ^ 48) with (va_of tag x.1); [done|].
  assert (at_leaf T root x) as Hx.
  { pose proof all_leaves as Ha. rewrite Hl, Hz in Ha by done. by apply Forall_cons in Ha as [? _]. }
  apply at_leaf_path in Hx as [Hlen _]; [|apply tables_exist]. unfold va_of.
  destruct Hp as [σ Hσ]. destruct x.1 as [|a [|b [|c [|d [|? ?]]]]]; cbn in Hlen; try lia;
    cbn in Hσ; simplify_eq; cbn; lia.
Qed.

Lemma leaves_usable : leaves_ok → Forall (usable) (tree_leaves T root).
Proof.
  intros Hok. destruct iter_starts as (it & _ & _ & Hc). pose proof all_leaves as Ha.
  apply Forall_forall. intros x Hx Hlen Hv. pose proof (proj1 (Forall_forall _ _) Ha x Hx) as Hat.
  destruct (chain_bounds T root tables_exist tag _ _ _ x Hc Ha Hx) as [Hlo Hhi].
  pose proof (span_region T root tables_exist tag x Hat) as [_ Hpos]. pose proof tag_range as Htag.
  assert (is_usize (va_of tag x.1)) as Hu by (unfold top in Hhi; split; lia).
  destruct (leaf_inside T root tables_exist tag x _ Hat Hu) as [Hlf _]; [lia|].
  rewrite Hv, Hlen in Hlf. by destruct (Hok _ _ _ Hu Hlf) as (_ & Hty & _); [apply Hty].
Qed.

Lemma tag_ok_iff va : is_usize va → tag_ok (high_addresses self) (va / 2 ^ 48) = true ↔
  tag * 2 ^ 48 ≤ va < top tag.
Proof. intros Hu. unfold tag_ok, top, is_usize in *. destruct (high_addresses self); dlia. Qed.

Lemma leaf_level va l e : is_usize va → leaf T root (idx va) = Some (l, e) → l ≤ 3.
Proof.
  intros Hu. unfold leaf. destruct (walk T root 0 (idx va)) as [[l' e']|] eqn:Hw; [|done].
  cbn. destruct (valid e'); [|done]. intros [= -> ->].
  rewrite idx_digits in Hw by done. cbn [walk] in Hw.
  repeat match type of Hw with
  | context [entry ?X ?p ?i] => destruct (entry X p i); cbn [mbind option_bind] in Hw; [|done]
  | context [match ?o with Some _ => _ | None => _ end] => destruct o
  end; naive_solver lia.
Qed.

(** The translation as the leaf gives it. *)
Lemma translate_leaf_address va : leaves_ok → is_usize va →
  tag_ok (high_addresses self) (va / 2 ^ 48) = true →
  option_map (λ x, x.1.1) (translate T (high_addresses self) root va) = leaf_address T root va.
Proof.
  intros Hok Hu Htag. unfold translate, leaf_address.
  pose proof (to_parts_digits va Hu) as Hd.
  destruct (VirtualAddress.to_parts va) as [[[[[t i0] i1] i2] i3] po]. injection Hd as -> _ _ _ _ _.
  rewrite Htag. destruct (leaf T root (idx va)) as [[l e]|] eqn:Hlf; [|done].
  destruct (Hok va l e Hu Hlf) as (H1 & H3 & Hal). cbn [mbind option_bind].
  replace (l =? 0) with false by lia.
  assert ((l =? 3) && negb (get_type e) = false) as ->.
  { destruct (Z.eqb_spec l 3) as [E|]; [|done]. by rewrite (H3 E). }
  cbn. do 2 f_equal. rewrite Z.mul_comm. symmetry. apply Z.div_exact; [|done].
  pose proof (leaf_level va l e Hu Hlf). pose proof (span_pos l ltac:(lia)). lia.
Qed.

(** C30: iterating over the mapped regions of a page table ends, within as many steps as the
    tree has leaf entries, and yields regions in increasing order of address that do not
    overlap and that say of every address exactly what the MMU does: it is mapped if and
    only if a region covers it, and then to the physical address that region gives. *)
Theorem page_table_iter_enumerates (fuel : nat) : leaves_ok → (tree_size ≤ fuel)%nat →
  ∃ it it' rs, iter T self = Some it ∧ collect T fuel it = Ok rs it' ∧
    StronglySorted region_before rs ∧
    ∀ va, is_usize va →
      option_map (λ x, x.1.1) (translate T (high_addresses self) root va) = region_address rs va.
Proof.
  intros Hok Hf. destruct iter_starts as (it & Hit & Hi & Hc). pose proof all_leaves as Ha.
  destruct (collect_spec T root tables_exist tag tag_range fuel it _ Hi (leaves_usable Hok) Hf)
    as (it' & Hcol).
  exists it, it', (regions tag (tree_leaves T root)). split; [done|]. split; [done|]. split.
  { by eapply regions_sorted; [apply tables_exist|..]. }
  intros va Hu. destruct (tag_ok (high_addresses self) (va / 2 ^ 48)) eqn:Ht.
  - rewrite translate_leaf_address by done. symmetry.
    eapply region_address_chain; [apply tables_exist|done..|]. by apply tag_ok_iff.
  - erewrite region_address_outside; [|apply tables_exist|done..|].
    + unfold translate. pose proof (to_parts_digits va Hu) as Hd.
      destruct (VirtualAddress.to_parts va) as [[[[[t i0] i1] i2] i3] po].
      injection Hd as -> _ _ _ _ _. by rewrite Ht.
    + destruct (decide (tag * 2 ^ 48 ≤ va < top tag)) as [H|H]; [|lia].
      apply tag_ok_iff in H; [congruence|done].
Qed.

(** ** Copying through the table *)

Context (mem : Z → Z).

Lemma raw_parts_lookup ptr len k : 0 ≤ Z.of_nat k < len →
  from_raw_parts mem ptr len !! k = Some (mem (ptr + Z.of_nat k)).
Proof.
  intros Hk. unfold from_raw_parts. rewrite list_lookup_fmap, lookup_seq_lt by lia. done.
Qed.
Lemma raw_parts_length ptr len : 0 ≤ len → Z.of_nat (length (from_raw_parts mem ptr len)) = len.
Proof. intros. unfold from_raw_parts. rewrite length_map, length_seq. lia. Qed.

Lemma copy_to_dst_run a b ptr len (dst : list Z) : 0 ≤ a → b = a + len → 0 ≤ len →
  b ≤ Z.of_nat (length dst) →
  ∃ dst', copy_to_dst mem a b ptr len dst = Ok tt dst' ∧ length dst' = length dst ∧
    ∀ k, dst' !! k = if decide (a ≤ Z.of_nat k < b) then Some (mem (ptr + (Z.of_nat k - a))) else dst !! k.
Proof.
  intros Ha -> Hl Hb. unfold copy_to_dst, copy_into. erewrite bind_run by done.
  rewrite (proj2 (range_ok_true dst a (a + len)) ltac:(lia)), raw_parts_length by done.
  replace (len =? a + len - a) with true by lia. cbn [andb]. erewrite bind_run by done.
  eexists. split; [done|].
  pose proof (raw_parts_length ptr len Hl) as Hrl.
  split; [rewrite !length_app, length_take, length_drop; lia|]. intros k. case_decide as Hk.
  - rewrite lookup_app_r by (rewrite length_take; lia).
    rewrite lookup_app_l by (rewrite length_take; lia).
    rewrite length_take, Nat.min_l by lia. rewrite raw_parts_lookup by lia. do 3 f_equal. lia.
  - destruct (decide (Z.of_nat k < a)).
    + rewrite lookup_app_l by (rewrite length_take; lia). rewrite lookup_take. by rewrite decide_True by lia.
    + rewrite lookup_app_r by (rewrite length_take; lia).
      rewrite lookup_app_r by (rewrite length_take; lia).
      rewrite lookup_drop, length_take. f_equal. lia.
Qed.

Local Abbreviation va_of := (va_of tag).
Local Abbreviation top := (top tag).
Local Abbreviation regions := (regions tag).
Local Abbreviation at_leaf := (at_leaf T root).
Local Abbreviation leaf_address := (leaf_address T root).

Lemma regions_app l1 l2 : regions (l1 ++ l2) = regions l1 ++ regions l2.
Proof. unfold PagingIter.regions. by rewrite filter_app, map_app. Qed.

(** The leaf that covers an address. *)
Lemma leaf_of_address a l va : chain tag a l top → Forall at_leaf l → is_usize va → a ≤ va < top →
  ∃ x, x ∈ l ∧ va_of x.1 ≤ va < va_of x.1 + span (Z.of_nat (length x.1 - 1)).
Proof.
  revert a. induction l as [|[ρ e] l IH]; intros a; cbn [chain]; [lia|].
  intros [Ha Hc] [Hx Hl]%Forall_cons Hu Hva.
  destruct (decide (va < a + span (Z.of_nat (length ρ - 1)))).
  - exists (ρ, e). split; [by left|]. cbn. lia.
  - destruct (IH _ Hc Hl Hu) as (x & Hin & H); [lia|]. exists x. split; [by right|done].
Qed.

(** [leaves_ok] can be checked on the leaves of the tree. *)
Definition leaf_okb (x : list nat * PageTableEntry) : bool :=
  let l := Z.of_nat (length x.1 - 1) in
  negb (valid x.2) ||
  ((1 <=? l) && (negb (l =? 3) || get_type x.2) && ((entry_address x.2 * PAGE_SIZE) mod span l =? 0)).

Lemma digit_mod_tag n t va : 0 ≤ n ≤ 39 → ((t * 2 ^ 48 + va mod 2 ^ 48) / 2 ^ n) mod 512 = (va / 2 ^ n) mod 512.
Proof.
  intros Hn. change 512 with (2 ^ 9). apply Z.bits_inj'. intros i Hi.
  destruct (Z.lt_ge_cases i 9); [|by rewrite !Z.mod_pow2_bits_high by lia].
  rewrite !Z.mod_pow2_bits_low, !Z.div_pow2_bits by lia.
  rewrite <- (Z.mod_pow2_bits_low (t * 2 ^ 48 + va mod 2 ^ 48) 48) by lia.
  rewrite Z.add_comm, Z.mod_add, Z.mod_mod by lia. by rewrite Z.mod_pow2_bits_low by lia.
Qed.

Lemma idx_mod_tag va : is_usize va → idx (tag * 2 ^ 48 + va mod 2 ^ 48) = idx va ∧
  tag * 2 ^ 48 ≤ tag * 2 ^ 48 + va mod 2 ^ 48 < top ∧ is_usize (tag * 2 ^ 48 + va mod 2 ^ 48).
Proof.
  intros Hu. pose proof (Z.mod_pos_bound va (2 ^ 48) ltac:(done)) as Hm. pose proof tag_range as Ht.
  assert (is_usize (tag * 2 ^ 48 + va mod 2 ^ 48)) as Hu' by (unfold is_usize; lia).
  split; [|split; [unfold PagingIter.top; lia|done]]. rewrite !idx_digits by done.
  rewrite !digit_mod_tag by lia. done.
Qed.

Lemma leaves_ok_check : forallb leaf_okb (tree_leaves T root) = true → leaves_ok.
Proof.
  intros Hb va l e Hu Hlf. destruct (idx_mod_tag va Hu) as (Hidx & Hr' & Hu'). rewrite <- Hidx in Hlf.
  destruct iter_starts as (it & _ & _ & Hc). pose proof all_leaves as Ha.
  destruct (leaf_of_address _ _ _ Hc Ha Hu' Hr') as (x & Hx & Hin).
  destruct (leaf_inside T root tables_exist tag x _ (proj1 (Forall_forall _ _) Ha x Hx) Hu' Hin) as [Hl _].
  rewrite Hlf in Hl. rewrite forallb_forall in Hb. apply list_elem_of_In in Hx. specialize (Hb x Hx).
  unfold leaf_okb in Hb. destruct (valid x.2); [|done]. injection Hl as -> ->. cbn [negb orb] in Hb.
  apply andb_true_iff in Hb as [[H1 H2]%andb_true_iff H3]. split; [by apply Z.leb_le|]. split; [|by apply Z.eqb_eq].
  intros E. rewrite E in H2. done.
Qed.

(** The first region the iterator finds is the first valid leaf. *)
Lemma next_region it l fuel : iter_at T root tag it l → Forall usable l → (length l ≤ fuel)%nat →
  (∃ it', (∀ x, x ∈ l → valid x.2 = false) ∧ next T fuel it = Ok None it') ∨
  (∃ it' r x l', l = r ++ x :: l' ∧ (∀ y, y ∈ r → valid y.2 = false) ∧ valid x.2 = true ∧
     iter_at T root tag it' l' ∧ next T fuel it = Ok (Some (region tag x)) it').
Proof.
  assert (∀ l, regions l = [] → ∀ x, x ∈ l → valid x.2 = false) as Hnil.
  { intros l0 H x Hx. destruct (valid x.2) eqn:Hv; [|done].
    assert (region tag x ∈ regions l0) as Hin; [|rewrite H in Hin; by apply elem_of_nil in Hin].
    apply list_elem_of_fmap. exists x. split; [done|]. by apply list_elem_of_filter. }
  intros Hi Hu Hf. destruct (next_spec T root tables_exist tag tag_range fuel it l Hi Hu Hf)
    as (it' & pre & l' & Hl & Hi' & [(Hn & _ & Hnx) | (x & r & -> & Hv & Hreg & Hnx)]).
  - left. exists it'. split; [by apply Hnil|done].
  - right. exists it', r, x, l'. rewrite <- app_assoc in Hl. split_and!; try done. apply Hnil.
    rewrite Hl, regions_app in Hreg. cbn [app] in Hreg. rewrite regions_cons, Hv in Hreg.
    apply (f_equal length) in Hreg. rewrite length_app in Hreg.
    apply length_zero_iff_nil. cbn in Hreg. lia.
Qed.

Lemma leaf_address_in x va : at_leaf x → is_usize va →
  va_of x.1 ≤ va < va_of x.1 + span (Z.of_nat (length x.1 - 1)) →
  leaf_address va = if valid x.2 then Some (entry_address x.2 * PAGE_SIZE + (va - va_of x.1)) else None.
Proof.
  intros Hx Hu Hva. destruct (leaf_inside T root tables_exist tag x va Hx Hu Hva) as [Hl Hm].
  unfold PagingIter.leaf_address. rewrite Hl. destruct (valid x.2); cbn [mbind option_bind]; [|done].
  by rewrite Hm.
Qed.

Lemma top_usize : top ≤ U64.
Proof. pose proof tag_range. unfold PagingIter.top. lia. Qed.

(** The part of a leaf's region that is copied. *)
Lemma va_of_page x : at_leaf x → va_of x.1 mod PAGE_SIZE = 0 ∧
  PAGE_SIZE ≤ span (Z.of_nat (length x.1 - 1)).
Proof.
  intros Hx. pose proof (at_leaf_path T root tables_exist x Hx) as [Hl _].
  pose proof (va_of_mod tag x.1 ltac:(lia)) as Hm.
  assert (Z.of_nat (length x.1) - 1 = Z.of_nat (length x.1 - 1)) as Heq by lia. rewrite Heq in Hm.
  assert (length x.1 - 1 ≤ 3)%nat as Hl3 by lia. clear Heq Hl.
  destruct (length x.1 - 1)%nat as [|[|[|[|n]]]]; [..|lia]; cbn in Hm; split; try done;
    unfold span in Hm; cbn in Hm; pdlia.
Qed.

Lemma region_ptr x : at_leaf x →
  umul (page_count (region tag x)) PAGE_SIZE = Some (span (Z.of_nat (length x.1 - 1))) ∧
  PhysicalAddress.to_virtual_canonical (base_phys_addr (region tag x))
    = Some (entry_address x.2 * PAGE_SIZE + CANONICAL).
Proof.
  intros Hx. destruct (span_region T root tables_exist tag x Hx) as [Hsp Hpos].
  pose proof (at_leaf_path T root tables_exist x Hx) as [Hl _]. split.
  - rewrite umul_ok; [by rewrite Hsp|]. rewrite Hsp. unfold span.
    apply (Z.le_lt_trans _ (2 ^ 39)); [apply Z.pow_le_mono_r; lia|lia].
  - unfold PhysicalAddress.to_virtual_canonical. apply uadd_ok. cbn [region base_phys_addr].
    pose proof (bit_range_bound x.2 47 12 ltac:(lia)). unfold entry_address, CANONICAL, PAGE_SIZE. lia.
Qed.

Lemma chain_head_unique a r x l : chain tag a (r ++ x :: l) top → Forall at_leaf (r ++ x :: l) →
  va_of x.1 = a → r = [].
Proof.
  intros Hc Ha Hx. destruct r as [|[ρ e] r]; [done|]. cbn [app chain] in Hc. destruct Hc as [Hρ Hc].
  cbn [app] in Ha. apply Forall_cons in Ha as [Hat Ha].
  destruct (chain_bounds T root tables_exist tag _ _ _ x Hc Ha) as [Hlo _]; [set_solver|].
  pose proof (span_region T root tables_exist tag _ Hat) as [_ Hpos]. cbn [fst] in Hpos. lia.
Qed.

(** The bytes from [offset] on are what the table maps, and the others are kept. *)
Definition copied (src offset : Z) (dst dst' : list Z) : Prop :=
  length dst' = length dst ∧ (∀ k, Z.of_nat k < offset → dst' !! k = dst !! k) ∧
  ∀ k, offset ≤ Z.of_nat k < Z.of_nat (length dst) →
    tag * 2 ^ 48 ≤ src + Z.of_nat k < top ∧
    ∃ pa, leaf_address (src + Z.of_nat k) = Some pa ∧ dst' !! k = Some (mem (pa + CANONICAL)).

(** The range is mapped and a region begins after it. *)
Definition copyable (src offset n : Z) (l : list (list nat * PageTableEntry)) : Prop :=
  (∀ k, offset ≤ k < n → leaf_address (src + k) ≠ None) ∧
  ∃ x, x ∈ l ∧ valid x.2 = true ∧ src + n ≤ va_of x.1.

Definition copy_outcome (src offset : Z) l (dst : list Z) (r : res (list Z) MemoryError unit) : Prop :=
  match r with
  | Ok _ dst' => copied src offset dst dst'
  | Err e dst' => (∃ lv rem, e = unmapped lv rem) ∧ ¬ copyable src offset (Z.of_nat (length dst)) l
  | Stop _ => False
  end.

(** One region is copied, then the rest. *)
Lemma copy_outcome_step src offset len ptr x l dst dst1 r : at_leaf x → valid x.2 = true →
  0 ≤ offset → 0 ≤ len → offset + len ≤ Z.of_nat (length dst) → length dst1 = length dst →
  va_of x.1 ≤ src + offset → src + offset + len ≤ va_of x.1 + span (Z.of_nat (length x.1 - 1)) →
  va_of x.1 < src + Z.of_nat (length dst) →
  tag * 2 ^ 48 ≤ va_of x.1 ∧ va_of x.1 + span (Z.of_nat (length x.1 - 1)) ≤ top →
  ptr = entry_address x.2 * PAGE_SIZE + CANONICAL + (src + offset - va_of x.1) →
  (∀ k, dst1 !! k = if decide (offset ≤ Z.of_nat k < offset + len)
                    then Some (mem (ptr + (Z.of_nat k - offset))) else dst !! k) →
  copy_outcome src (offset + len) l dst1 r → copy_outcome src offset (x :: l) dst r.
Proof.
  intros Hx Hv Ho Hl Hb Hlen Hlo Hhi Hend Hu -> Hd Hout.
  pose proof top_usize as Htop. pose proof tag_range as Htag. destruct r as [[] dst'|e dst'|w]; [| |done].
  - destruct Hout as (H1 & H2 & H3). split; [congruence|]. split.
    + intros k Hk. rewrite H2, Hd by lia. by rewrite decide_False by lia.
    + intros k Hk. destruct (decide (Z.of_nat k < offset + len)) as [Hin|Hin].
      * split; [lia|]. rewrite (leaf_address_in x), Hv; [|done|unfold is_usize; lia|lia].
        eexists. split; [done|]. rewrite H2, Hd by lia. rewrite decide_True by lia. do 2 f_equal. lia.
      * apply H3. lia.
  - destruct Hout as [He Hn]. split; [done|]. rewrite Hlen in Hn. intros [Hm (y & Hy & Hvy & Hye)].
    apply Hn. split; [intros k Hk; apply Hm; lia|]. exists y. split; [|done].
    apply elem_of_cons in Hy as [->|Hy]; [lia|done].
Qed.

Lemma copy_loop_spec fuel it l a src offset dst : iter_at T root tag it l → chain tag a l top →
  Forall at_leaf l → Forall usable l → (length l ≤ fuel)%nat → Z.of_nat (length dst) < U64 →
  0 ≤ offset ≤ Z.of_nat (length dst) → (offset < Z.of_nat (length dst) → a = src + offset) →
  tag * 2 ^ 48 ≤ a →
  copy_outcome src offset l dst (copy_loop T mem fuel it offset (a mod U64) dst).
Proof.
  revert it l a offset dst. induction fuel as [|fuel IH];
    intros it l a offset dst Hi Hc Ha Hu Hf Hn Ho Hsrc H0;
    destruct (next_region it l _ Hi Hu Hf)
      as [(it' & Hnone & Hnx) | (it' & r & x & l' & -> & Hr0 & Hv & Hi' & Hnx)];
    cbn [copy_loop]; erewrite bind_run by done; rewrite Hnx; rewrite usub_ok by lia;
    (erewrite bind_run by done); cbv beta.
  1, 3: split; [by eexists _, _|]; intros [_ (y & Hy & Hvy & _)]; rewrite (Hnone y Hy) in Hvy; done.
  1: { rewrite length_app in Hf. cbn in Hf. lia. }
  destruct (Z.eqb_spec (Z.of_nat (length dst) - offset) 0) as [Hz|Hz].
  { split; [done|]. split; [done|]. intros k Hk. lia. }
  specialize (Hsrc ltac:(lia)). pose proof top_usize as Htop. pose proof tag_range as Htag.
  assert (at_leaf x) as Hx by (apply Forall_app in Ha as [_ Ha]; by apply Forall_cons in Ha as [? _]).
  destruct (chain_bounds T root tables_exist tag _ _ _ x Hc Ha) as [Hlo Hhi]; [set_solver|].
  pose proof (span_region T root tables_exist tag x Hx) as [_ Hpos].
  rewrite (Z.mod_small a) by lia. cbn [region base_virt_addr].
  destruct (Z.eqb_spec (va_of x.1) a) as [Hxa|Hxa]; cbn [negb].
  2: { split; [by eexists _, _|]. intros [Hm _]. apply (Hm offset ltac:(lia)).
    destruct r as [|[ρ e] r]; [cbn [app chain] in Hc; destruct x; by destruct Hc|].
    cbn [app chain] in Hc. destruct Hc as [Hρ Hc]. cbn [app] in Ha. apply Forall_cons in Ha as [Hat Ha].
    pose proof (span_region T root tables_exist tag _ Hat) as [_ Hp]. cbn [fst] in Hp.
    destruct (chain_bounds T root tables_exist tag _ _ _ x Hc Ha) as [Hlo' _]; [set_solver|].
    rewrite (leaf_address_in (ρ, e)); [|done|unfold is_usize; lia|cbn; lia].
    by rewrite (Hr0 (ρ, e)) by set_solver. }
  pose proof (chain_head_unique _ _ _ _ Hc Ha Hxa) as ->. cbn [app] in *.
  destruct (region_ptr x Hx) as [-> ->]. do 2 (erewrite bind_run by done).
  set (len := Z.min (span (Z.of_nat (length x.1 - 1))) (Z.of_nat (length dst) - offset)).
  rewrite uadd_ok by lia. erewrite bind_run by done.
  destruct (copy_to_dst_run offset (offset + len) (entry_address x.2 * PAGE_SIZE + CANONICAL) len dst)
    as (dst1 & Hrun & Hlen1 & Hd); [lia..|].
  erewrite bind_run by exact Hrun.
  apply Forall_cons in Ha as [_ Ha]. apply Forall_cons in Hu as [_ Hu].
  eapply (copy_outcome_step src offset len (entry_address x.2 * PAGE_SIZE + CANONICAL) x l' dst dst1);
    [done|done|lia|lia|lia|done|lia|lia|lia|lia|lia|exact Hd|].
  destruct x as [ρ e]. cbn [chain fst] in *. destruct Hc as [_ Hc].
  unfold VirtualAddress.add, wrapping_add. rewrite Hxa.
  apply IH; try done; cbn in Hf; lia.
Qed.

Lemma path_range x src : at_leaf x → is_usize src → tag * 2 ^ 48 ≤ src < top →
  x.1 `prefix_of` idx src → va_of x.1 ≤ src < va_of x.1 + span (Z.of_nat (length x.1 - 1)).
Proof.
  intros Hx Hu Ht [σ Hσ]. pose proof (at_leaf_path T root tables_exist x Hx) as [Hl _].
  rewrite idx_digits in Hσ by done. unfold PagingIter.va_of, PagingIter.top in *.
  destruct Hu as [Hu _]. pose proof (digits_sum src Hu) as Hd.
  assert (src / 2 ^ 48 = tag) as Htag by dlia. rewrite Htag in Hd.
  pose proof (Z.mod_pos_bound (src / 2 ^ 39) 512). pose proof (Z.mod_pos_bound (src / 2 ^ 30) 512).
  pose proof (Z.mod_pos_bound (src / 2 ^ 21) 512). pose proof (Z.mod_pos_bound (src / 2 ^ 12) 512).
  pose proof (Z.mod_pos_bound src 4096).
  destruct x.1 as [|a [|b [|c [|d [|? ?]]]]]; cbn in Hl; try lia; cbn [app] in Hσ;
    cbn [path_offset length Nat.sub Z.add]; injection Hσ; intros; subst;
    change (span 0) with (2 ^ 39); change (span (0 + 1)) with (2 ^ 30);
    change (span (0 + 1 + 1)) with (2 ^ 21);
    change (span (0 + 1 + 1 + 1)) with (2 ^ 12); change (span (Z.of_nat 0)) with (2 ^ 39);
    change (span (Z.of_nat 1)) with (2 ^ 30); change (span (Z.of_nat 2)) with (2 ^ 21);
    change (span (Z.of_nat 3)) with (2 ^ 12).
  all: lia.
Qed.

(** A copy that must succeed: [src] lies in the first page of the region that maps it, the
    whole range is mapped, and another region begins after it. *)
Definition copy_ready (src n : Z) : Prop :=
  0 < n ∧
  (∃ l e, leaf T root (idx src) = Some (l, e) ∧ src mod span l < PAGE_SIZE) ∧
  (∀ k, 0 ≤ k < n → translate T (high_addresses self) root (src + k) ≠ None) ∧
  ∃ va l e, is_usize va ∧ tag_ok (high_addresses self) (va / 2 ^ 48) = true ∧
    leaf T root (idx va) = Some (l, e) ∧ src + n ≤ va - va mod span l.

Lemma translate_leaf va : translate T (high_addresses self) root va ≠ None → leaf_address va ≠ None.
Proof.
  unfold translate, PagingIter.leaf_address.
  destruct (VirtualAddress.to_parts va) as [[[[[t i0] i1] i2] i3] po].
  destruct (tag_ok (high_addresses self) t); [|done]. by destruct (leaf T root (idx va)) as [[l e]|].
Qed.

Lemma copy_ready_copyable src n x l : copy_ready src n → is_usize src → at_leaf x →
  Forall at_leaf l → chain tag (va_of x.1 + span (Z.of_nat (length x.1 - 1))) l top →
  tag * 2 ^ 48 ≤ va_of x.1 → va_of x.1 ≤ src < va_of x.1 + span (Z.of_nat (length x.1 - 1)) →
  copyable src 0 n l ∧ valid x.2 = true ∧ src - va_of x.1 < PAGE_SIZE.
Proof.
  intros (Hn & (lv & e & Hlf & Hpg) & Hm & va & lv' & e' & Hu' & Ht' & Hlf' & Hend) Hu Hx Hl Hc Htag Hin.
  destruct (leaf_inside T root tables_exist tag x src Hx Hu Hin) as [Hlx Hmx].
  rewrite Hlf in Hlx. destruct (valid x.2) eqn:Hv; [|done]. injection Hlx as -> ->.
  split; [|split; [done|lia]]. split; [intros k Hk; by apply translate_leaf, Hm|].
  apply tag_ok_iff in Ht'; [|done].
  assert (va_of x.1 + span (Z.of_nat (length x.1 - 1)) ≤ va) as Hge.
  { destruct (Z.lt_ge_cases va (va_of x.1 + span (Z.of_nat (length x.1 - 1)))) as [Hlt|]; [|lia].
    exfalso. pose proof (leaf_level va lv' e' Hu' Hlf') as Hl3.
    destruct (Z.lt_ge_cases va (va_of x.1)) as [Hb|Hb].
    - assert (0 < span lv') as Hsp by (unfold span; apply Z.pow_pos_nonneg; lia).
      pose proof (Z.mod_pos_bound va _ Hsp). lia.
    - destruct (leaf_inside T root tables_exist tag x va Hx Hu' ltac:(lia)) as [Hlx' Hmx'].
      rewrite Hlf', Hv in Hlx'. injection Hlx' as -> ->. lia. }
  destruct (leaf_of_address _ _ va Hc Hl Hu') as (y & Hy & Hyin); [lia|].
  exists y. pose proof (proj1 (Forall_forall _ _) Hl y Hy) as Haty.
  destruct (leaf_inside T root tables_exist tag y va Haty Hu' Hyin) as [Hly Hmy].
  rewrite Hlf' in Hly. destruct (valid y.2); [|done]. injection Hly as -> ->.
  split_and!; [done|done|lia].
Qed.

(** Where the iterator starts for [src]: at the leaf that covers it. *)
Record starts_at (src : Z) (it : PageTableIter) (x : list nat * PageTableEntry) l : Prop := {
  sa_iter : iter_at T root tag it (x :: l);
  sa_leaves : Forall at_leaf (x :: l);
  sa_usable : Forall usable (x :: l);
  sa_length : (length (x :: l) ≤ tree_size)%nat;
  sa_low : tag * 2 ^ 48 ≤ va_of x.1;
  sa_in : va_of x.1 ≤ src < va_of x.1 + span (Z.of_nat (length x.1 - 1));
  sa_chain : chain tag (va_of x.1 + span (Z.of_nat (length x.1 - 1))) l top;
}.

Lemma copy_start src i0 i1 i2 i3 : is_usize src → tag * 2 ^ 48 ≤ src < top → leaves_ok →
  idx src = [Z.to_nat i0; Z.to_nat i1; Z.to_nat i2; Z.to_nat i3] →
  Forall (λ j, 0 ≤ j < 512) [i0; i1; i2; i3] →
  ∃ it x l, starting_at T self (i0, i1, i2, i3) = Some it ∧ starts_at src it x l.
Proof.
  intros Hu Ht Hok Hidx Hi.
  destruct (starting_at_spec T root tables_exist tag self i0 i1 i2 i3 eq_refl eq_refl Hi)
    as (it & pre & x & l & Hs & Hit & Hl & _ & Hpre & Hc).
  exists it, x, l. split; [done|]. rewrite <- Hidx in Hpre.
  pose proof all_leaves as Ha. pose proof (leaves_usable Hok) as Hus. rewrite Hl in Ha, Hus.
  apply Forall_app in Ha as [_ Ha]. apply Forall_app in Hus as [_ Hus].
  pose proof Ha as [Hx Hal]%Forall_cons. split; try done.
  - unfold tree_size. rewrite Hl, length_app. lia.
  - destruct iter_starts as (? & _ & _ & Hca). apply (chain_bounds T root tables_exist tag _ _ _ x Hca);
      [apply all_leaves|]. rewrite Hl. set_solver.
  - by apply path_range.
  - destruct x. by destruct Hc.
Qed.

(** The first region, then the loop. *)
Lemma first_copy fuel src (dst : list Z) it x l po : starts_at src it x l → is_usize src → po = src mod PAGE_SIZE →
  (tree_size ≤ fuel)%nat → Z.of_nat (length dst) < U64 →
  match next T fuel it with
  | Ok (Some first) it' =>
      if VirtualAddress.add (base_virt_addr first) po =? src then
        first = region tag x ∧ valid x.2 = true ∧ iter_at T root tag it' l ∧ src = va_of x.1 + po
      else ¬ copy_ready src (Z.of_nat (length dst))
  | Ok None _ => ¬ copy_ready src (Z.of_nat (length dst))
  | _ => False
  end.
Proof.
  intros [Hit Ha Hus Hlen Hlow Hin Hc] Hu -> Hf Hn. pose proof Ha as [Hx Hal]%Forall_cons.
  assert (¬ copy_ready src (Z.of_nat (length dst)) ∨ valid x.2 = true ∧ src - va_of x.1 < PAGE_SIZE)
    as Hready.
  { destruct (decide (valid x.2 = true ∧ src - va_of x.1 < PAGE_SIZE)) as [|Hno]; [by right|].
    left. intros Hr'. by destruct (copy_ready_copyable src _ x l Hr' Hu Hx Hal Hc Hlow Hin) as (_ & ?). }
  pose proof top_usize as Htop. pose proof tag_range as Htag.
  pose proof (Z.mod_pos_bound src PAGE_SIZE ltac:(done)) as Hpo.
  destruct (next_region it (x :: l) fuel Hit Hus ltac:(lia))
    as [(it' & Hnone & ->) | (it' & r & y & l' & Hl & Hr0 & Hv & Hi' & ->)].
  { destruct Hready as [|[Hvx _]]; [done|]. by rewrite (Hnone x (list_elem_of_here _ _)) in Hvx. }
  cbn [region base_virt_addr].
  assert (at_leaf y) as Hy by (rewrite Hl in Ha; apply Forall_app in Ha as [_ Ha];
    by apply Forall_cons in Ha as [? _]).
  pose proof (va_of_page y Hy) as [Hpg Hge].
  assert (va_of y.1 + span (Z.of_nat (length y.1 - 1)) ≤ top ∧
    (y = x ∨ va_of x.1 + span (Z.of_nat (length x.1 - 1)) ≤ va_of y.1)) as [Hyt Hyx].
  { assert (y ∈ x :: l) as [->|Hyl]%elem_of_cons by (rewrite Hl; set_solver).
    - split; [by apply (chain_le T root tables_exist tag _ _ _ Hc)|by left].
    - destruct (chain_bounds T root tables_exist tag _ _ _ y Hc Hal Hyl). split; [done|by right]. }
  unfold VirtualAddress.add. rewrite wrapping_add_small by (destruct Hyx as [->|]; lia).
  destruct r as [|z r]; cbn [app] in Hl; injection Hl as Hz ->.
  - subst y. destruct (Z.eqb_spec (va_of x.1 + src mod PAGE_SIZE) src) as [|Hne]; [done|].
    destruct Hready as [|[_ Hlt]]; [done|]. exfalso. apply Hne. clear -Hpg Hlt Hin. pdlia.
  - subst z. assert (valid x.2 = false) as Hvx by (apply Hr0; by left).
    destruct Hyx as [->|Hyx]; [congruence|].
    destruct (Z.eqb_spec (va_of y.1 + src mod PAGE_SIZE) src); [lia|].
    destruct Hready as [|[? _]]; [done|congruence].
Qed.

(** What follows once the first region is known. *)
Lemma copy_rest fuel src dst it it' x l po len : starts_at src it x l → is_usize src →
  (tree_size ≤ fuel)%nat → Z.of_nat (length dst) < U64 → 0 ≤ po < PAGE_SIZE →
  valid x.2 = true → iter_at T root tag it' l → src = va_of x.1 + po →
  len = Z.min (span (Z.of_nat (length x.1 - 1)) - po) (Z.of_nat (length dst)) →
  match (copy_to_dst mem 0 len (VirtualAddress.add (entry_address x.2 * PAGE_SIZE + CANONICAL) po) len;;
         copy_loop T mem fuel it' len
           (VirtualAddress.add (va_of x.1) (span (Z.of_nat (length x.1 - 1))))) dst with
  | Ok _ dst' => copied src 0 dst dst'
  | Err e dst' => (∃ lv rem, e = unmapped lv rem) ∧ ¬ copy_ready src (Z.of_nat (length dst))
  | Stop _ => False
  end.
Proof.
  intros [_ Ha Hus Hlen Hlow Hin Hc] Hu Hf Hn Hpo Hv Hi' Hsrc Hl.
  pose proof Ha as [Hx Hal]%Forall_cons. pose proof Hus as [_ Husl]%Forall_cons.
  pose proof (va_of_page x Hx) as [Hpg Hge].
  pose proof top_usize as Htop. pose proof tag_range as Htag.
  pose proof (chain_le T root tables_exist tag _ _ _ Hc Hal) as Hxt.
  assert (VirtualAddress.add (entry_address x.2 * PAGE_SIZE + CANONICAL) po
    = entry_address x.2 * PAGE_SIZE + CANONICAL + po) as ->.
  { apply wrapping_add_small. pose proof (bit_range_bound x.2 47 12 ltac:(lia)).
    unfold entry_address, CANONICAL, PAGE_SIZE in *. lia. }
  destruct (copy_to_dst_run 0 len (entry_address x.2 * PAGE_SIZE + CANONICAL + po) len dst)
    as (dst1 & Hrun & Hlen1 & Hd1); [lia..|].
  erewrite bind_run by exact Hrun.
  unfold VirtualAddress.add, wrapping_add.
  pose proof (copy_loop_spec fuel it' l (va_of x.1 + span (Z.of_nat (length x.1 - 1))) src len dst1
    Hi' Hc Hal Husl) as Hloop.
  rewrite Hlen1 in Hloop. specialize (Hloop ltac:(cbn in Hlen; lia) Hn ltac:(lia) ltac:(lia) ltac:(lia)).
  set (r := copy_loop _ _ _ _ _ _ _) in *.
  destruct (decide (length dst = 0%nat)) as [Hz|Hnz].
  { destruct r as [[] dst'|e dst'|w]; [| |done].
    - destruct Hloop as (H4 & _). split; [congruence|]. split; intros k Hk; lia.
    - destruct Hloop as [He _]. split; [done|]. intros [? _]. lia. }
  assert (copy_outcome src 0 (x :: l) dst r) as Hall.
  { eapply (copy_outcome_step src 0 len (entry_address x.2 * PAGE_SIZE + CANONICAL + po) x l dst dst1);
      [done|done|lia|lia|lia|done|lia|lia|lia|lia|lia| |by rewrite Z.add_0_l].
    intros k. rewrite Hd1. by rewrite Z.add_0_l. }
  destruct r as [[] dst'|e dst'|w]; [done| |done]. destruct Hall as [He Hnc]. split; [done|].
  intros Hready. apply Hnc.
  destruct (copy_ready_copyable src _ x l Hready Hu Hx Hal Hc Hlow Hin) as ([Hm (y & Hy & Hrest)] & _).
  split; [done|]. exists y. split; [by right|done].
Qed.

Lemma mapped_copy_outcome fuel src dst : is_usize src →
  tag_ok (high_addresses self) (src / 2 ^ 48) = true → leaves_ok → (tree_size ≤ fuel)%nat →
  Z.of_nat (length dst) < U64 →
  match mapped_copy_from T mem fuel self src dst with
  | Ok _ dst' => copied src 0 dst dst'
  | Err e dst' => (∃ lv rem, e = unmapped lv rem) ∧ ¬ copy_ready src (Z.of_nat (length dst))
  | Stop _ => False
  end.
Proof.
  intros Hu Ht Hok Hf Hn. unfold mapped_copy_from.
  pose proof (to_parts_digits src Hu) as Hd. pose proof (idx_digits src Hu) as Hidx.
  destruct (VirtualAddress.to_parts src) as [[[[[t i0] i1] i2] i3] po] eqn:Hp.
  destruct (to_parts_bounds _ _ _ _ _ _ _ Hu Hp) as (_ & H0 & H1 & H2 & H3 & Hpo).
  injection Hd as -> Hi0 Hi1 Hi2 Hi3 Hpo'. rewrite <- Hi0, <- Hi1, <- Hi2, <- Hi3 in Hidx.
  rewrite Ht. cbn [negb]. erewrite bind_run by done. apply tag_ok_iff in Ht; [|done].
  destruct (copy_start src i0 i1 i2 i3 Hu Ht Hok Hidx) as (it & x & l & -> & Hsa);
    [by rewrite !Forall_cons|].
  erewrite bind_run by done. pose proof (first_copy fuel src dst it x l po Hsa Hu Hpo' Hf Hn) as Hfirst.
  destruct (next T fuel it) as [[first|] it'|[]|w]; [| |done].
  2: { split; [by eexists _, _|done]. }
  destruct (Z.eqb_spec (VirtualAddress.add (base_virt_addr first) po) src) as [Heq|Hne]; cbn [negb].
  2: { split; [by eexists _, _|done]. }
  destruct Hfirst as (-> & Hv & Hi' & Hsrc). pose proof Hsa as [_ [Hx _]%Forall_cons _ _ _ _ _].
  destruct (region_ptr x Hx) as [-> ->]. pose proof (va_of_page x Hx) as [Hpg Hge].
  erewrite bind_run by done. rewrite usub_ok by plia. do 2 (erewrite bind_run by done).
  by eapply copy_rest.
Qed.

(** Copying through a page table either fills the whole buffer with the bytes that the
    MMU would read at the same addresses through that table, or reports the range as
    unmapped; it never panics.  It reports a range that is in fact mapped only when the
    range begins inside a block (after the block's first page) or when no other region is
    mapped after it. *)
Theorem mapped_copy_reads (fuel : nat) (src : Z) (dst : list Z) : leaves_ok → (tree_size ≤ fuel)%nat →
  is_usize src → tag_ok (high_addresses self) (src / 2 ^ 48) = true → Z.of_nat (length dst) < U64 →
  match mapped_copy_from T mem fuel self src dst with
  | Ok _ dst' =>
      length dst' = length dst ∧
      ∀ k, (k < length dst)%nat → ∃ pa ro el0,
        translate T (high_addresses self) root (src + Z.of_nat k) = Some (pa, ro, el0) ∧
        dst' !! k = Some (mem (pa + CANONICAL))
  | Err e dst' => (∃ lv rem, e = unmapped lv rem) ∧ ¬ copy_ready src (Z.of_nat (length dst))
  | Stop _ => False
  end.
Proof.
  intros Hok Hf Hu Ht Hn. pose proof (mapped_copy_outcome fuel src dst Hu Ht Hok Hf Hn) as Ho.
  destruct (mapped_copy_from T mem fuel self src dst) as [[] dst'|e dst'|w]; [|done|done].
  destruct Ho as (Hl & _ & Hk). split; [done|]. intros k Hlt.
  destruct (Hk k ltac:(lia)) as (Hr' & pa & Hla & Hd).
  pose proof top_usize. pose proof tag_range.
  assert (is_usize (src + Z.of_nat k)) as Huk by (unfold is_usize; lia).
  pose proof (translate_leaf_address _ Hok Huk (proj2 (tag_ok_iff _ Huk) Hr')) as Htr.
  rewrite Hla in Htr. destruct (translate _ _ _ _) as [[[pa' ro] el0]|]; [|done].
  injection Htr as ->. by exists pa, ro, el0.
Qed.
End enumerate.

(** *** Witnesses *)

#[local] Existing Instance concrete_bit_field.

(** The table with two pages at 0x1000 mapped. *)
Lemma demo_iter : ∃ p (s : Tables PhysAlloc.PhysicalMemoryAllocator),
  forest_wf (demo_root p) s ∧ high_addresses p = false ∧ leaves_ok s p ∧
  (tree_size s p ≤ 3000)%nat ∧
  is_ok (mapped_copy_from (tables s) (λ a, a mod 256) 3000 p 0x1ffc [0; 0; 0; 0]) = true.
Proof.
  destruct demo_ready as (p & s0 & s & He & Hm & Hh & _ & _ & Hwf & _).
  exists p, s. split; [done|]. split; [done|].
  assert (match (p ← empty false 1; demo_map p;; mret p) demo_tables with
          | Ok p s => forallb leaf_okb (tree_leaves (tables s) (level0_table p)) &&
              (length (tree_leaves (tables s) (level0_table p)) <=? 3000)%nat &&
              is_ok (mapped_copy_from (tables s) (λ a, a mod 256) 3000 p 0x1ffc [0; 0; 0; 0])
          | _ => false end = true) as E by (vm_compute; reflexivity).
  erewrite bind_run in E by exact He. erewrite bind_run in E by exact Hm. cbn [mret M_ret] in E.
  apply andb_true_iff in E as [[E1 E2]%andb_true_iff E3].
  split; [|split; [|done]].
  - eapply leaves_ok_check; [exact Hwf|by right|exact E1].
  - by apply Nat.leb_le in E2.
Qed.

Example page_table_iter_enumerates_witness :
  ∃ p (s : Tables PhysAlloc.PhysicalMemoryAllocator) it it' rs,
    iter (tables s) p = Some it ∧ collect (tables s) 3000 it = Ok rs it' ∧
    option_map (λ x, x.1.1) (translate (tables s) (high_addresses p) (level0_table p) 0x2345)
      = region_address rs 0x2345.
Proof.
  destruct demo_iter as (p & s & Hwf & _ & Hok & Hsz & _).
  destruct (page_table_iter_enumerates (demo_root p) s p Hwf (or_intror eq_refl) 3000 Hok Hsz)
    as (it & it' & rs & H1 & H2 & _ & H4).
  exists p, s, it, it', rs. split; [exact H1|]. split; [exact H2|]. apply H4. vm_compute; split; congruence.
Defined.

Example mapped_copy_reads_witness :
  ∃ p (s : Tables PhysAlloc.PhysicalMemoryAllocator) dst' pa ro el0,
    mapped_copy_from (tables s) (λ a, a mod 256) 3000 p 0x1ffc [0; 0; 0; 0] = Ok tt dst' ∧
    translate (tables s) (high_addresses p) (level0_table p) (0x1ffc + Z.of_nat 3) = Some (pa, ro, el0) ∧
    dst' !! 3%nat = Some ((pa + CANONICAL) mod 256).
Proof.
  destruct demo_iter as (p & s & Hwf & Hh & Hok & Hsz & Ho).
  pose proof (mapped_copy_reads (demo_root p) s p Hwf (or_intror eq_refl) (λ a, a mod 256) 3000 0x1ffc
    [0; 0; 0; 0] Hok Hsz) as H.
  rewrite Hh in H. specialize (H ltac:(vm_compute; split; congruence) ltac:(reflexivity) ltac:(reflexivity)).
  destruct (mapped_copy_from _ _ _ _ _ _) as [[] dst'|e dst'|w] eqn:Em; [|discriminate Ho|discriminate Ho].
  destruct H as [_ H]. destruct (H 3%nat ltac:(cbn; lia)) as (pa & ro & el0 & H1 & H2).
  rewrite <- Hh in H1. exists p, s, dst', pa, ro, el0. split; [exact Em|]. split; [exact H1|exact H2].
Defined.

(** Two pages at 0x1000 and a block of 2 MiB at 0x200000, in a table with nothing behind. *)
Definition demo_block (p : PageTable) : PT PhysAlloc.PhysicalMemoryAllocator unit :=
  map_range p 0x40005000 0x1000 2 true demo_options;;
  map_range p 0x40200000 0x200000 512 true demo_options.

(** [mapped_copy_from] refuses ranges that are mapped.  The check that everything was
    copied comes only when a further region is found: a copy of the last bytes mapped in the
    table fills the buffer and still returns [CopyFromUnmapped] with 0 bytes remaining.  And a
    range that begins in the second page of a block is refused outright, as if nothing were
    mapped there. *)
Theorem mapped_copy_rejects_mapped :
  ∃ p s1 s2 dst',
    (p ← empty false 1; demo_map p;; mret p) demo_tables = Ok p s1 ∧
    translate (tables s1) false (level0_table p) 0x2000 = Some (0x40006000, true, false) ∧
    mapped_copy_from (tables s1) (λ a, a mod 256) 3000 p 0x2001 [0; 0]
      = Err (unmapped (Some 0x3000) 0) dst' ∧ dst' = [1; 2] ∧
    (p ← empty false 1; demo_block p;; mret p) demo_tables = Ok p s2 ∧
    translate (tables s2) false (level0_table p) 0x201000 = Some (0x40201000, true, false) ∧
    mapped_copy_from (tables s2) (λ a, a mod 256) 3000 p 0x201000 [0; 0]
      = Err (unmapped None 2) [0; 0].
Proof.
  eexists _, _, _, _. split; [vm_compute; reflexivity|]. split; [vm_compute; reflexivity|].
  split; [vm_compute; reflexivity|]. split; [reflexivity|]. split; [vm_compute; reflexivity|].
  split; [vm_compute; reflexivity|]. vm_compute; reflexivity.
Qed.
