(* ===== verification/Spaces.v ===== *)
(** Address spaces: a page table together with the allocator of its virtual addresses, over
    the one physical memory allocator of the kernel.

    This is what physical buffers and process memory are specified with.  [reserved X] is
    the physical memory allocator seen by the page tables while the frames [X] hold data:
    the same operations, with a stronger contract (a new table never lands in [X]).  The
    theorems on [map_range] are proved for any [FrameAllocator], so they hold for it. *)
From S2P Require Import Prelude BitField Addresses PhysAlloc VirtAlloc Frames PageEntry Paging.
From S2P Require Import PagingTree MapRange UnmapRange.

Abbreviation Frames := PhysicalMemoryAllocator (only parsing).

(** ** Frames that hold data *)

Section reserved.
Context (X : Z → Prop).

Definition reserved_wf (a : PhysicalMemoryAllocator) : Prop :=
  frames_wf a ∧ ∀ q, X q → q mod PAGE_SIZE = 0 ∧ frame_allocated a q.

#[local] Obligation Tactic := idtac.
#[program] Definition reserved : FrameAllocator PhysicalMemoryAllocator :=
  {| fa_alloc := PhysAlloc.alloc; fa_free := PhysAlloc.free; fa_wf := reserved_wf;
     fa_allocated := λ a q, frame_allocated a q ∧ ¬ X q |}.
Next Obligation. intros a [Hwf _]. exact (@fa_alloc_returns _ pma_frame_allocator a Hwf). Qed.
Next Obligation. intros a e a' [Hwf _]. exact (@fa_alloc_Err _ pma_frame_allocator a e a' Hwf). Qed.
Next Obligation.
  intros a p a' [Hwf HX] Ha.
  destruct (@fa_alloc_Ok _ pma_frame_allocator a p a' Hwf Ha) as (Hwf' & Hal & Hp & Hn & Hiff).
  split; [split; [done|]; intros q Hq; destruct (HX q Hq); split; [done|]; apply Hiff; [done|by left]|].
  split; [done|]. split; [done|]. split; [naive_solver|]. intros q Hq. cbn in *. rewrite (Hiff q Hq).
  split; [naive_solver|]. intros [?| ->]; [naive_solver|]. split; [by right|].
  intros HXp. by destruct (HX p HXp).
Qed.
Next Obligation.
  intros a p [Hwf HX] [Hp HXp] Hal.
  destruct (@fa_free_Ok _ pma_frame_allocator a p Hwf Hp Hal) as (a' & Hf & Hwf' & Hiff).
  exists a'. split; [done|]. split.
  - split; [done|]. intros q Hq. destruct (HX q Hq). split; [done|]. apply Hiff; [done|].
    split; [done|]. by intros ->.
  - intros q Hq. cbn in *. rewrite (Hiff q Hq). tauto.
Qed.
End reserved.

(** The operations of the page tables are those of the plain allocator. *)
Lemma map_range_reserved `{BF : BitField} X :
  @map_range BF _ pma_frame_allocator = @map_range BF _ (reserved X).
Proof. reflexivity. Qed.

(** A run of pages. *)
Definition frames_of (a n : Z) : Z → Prop := λ q, q mod PAGE_SIZE = 0 ∧ a ≤ q < a + n * PAGE_SIZE.

(** Taking a free run of pages out of the allocator. *)
Lemma take_run s i n l' : frames_wf s → 0 ≤ i → 1 ≤ n → free_run (allocated_pages s) i n →
  updated_run (allocated_pages s) l' i n true →
  let a := memory_start s + i * PAGE_SIZE in
  frames_wf (set_pages s l') ∧ a mod PAGE_SIZE = 0 ∧ 0 ≤ a ∧ a + n * PAGE_SIZE ≤ 2 ^ 48 ∧
  (∀ q, frames_of a n q → ¬ frame_allocated s q) ∧
  (∀ q, q mod PAGE_SIZE = 0 →
    (frame_allocated (set_pages s l') q ↔ frame_allocated s q ∨ frames_of a n q)).
Proof.
  intros [Hwf Hend] Hi Hn Hr Hu a. pose proof (free_run_in_range _ i n Hn Hi Hr) as Hin.
  pose proof Hwf as [Hl Hal [Hs Hml] He]. split; [split; [by eapply updated_run_wf|done]|].
  unfold a. split; [by rewrite Z.mod_add by plia|]. split; [plia|]. split; [pdlia|]. split.
  - intros q [Hq Hrange]. unfold frame_allocated, page_bit. rewrite decide_False; [done|].
    intros [_ Hb]. rewrite Hr in Hb; [done|]. pdlia.
  - intros q Hq. unfold frame_allocated. rewrite (page_bit_updated _ _ _ _ _ _ Hi Hu).
    unfold frames_of. case_decide; cbn; naive_solver.
Qed.

Lemma alloc_contig_frames s n a s' : frames_wf s → alloc_contig n s = Ok a s' →
  1 ≤ n ∧ frames_wf s' ∧ a mod PAGE_SIZE = 0 ∧ 0 ≤ a ∧ a + n * PAGE_SIZE ≤ 2 ^ 48 ∧
  (∀ q, frames_of a n q → ¬ frame_allocated s q) ∧
  (∀ q, q mod PAGE_SIZE = 0 → (frame_allocated s' q ↔ frame_allocated s q ∨ frames_of a n q)).
Proof.
  intros Hwf H. destruct (alloc_contig_Ok s n a s' (proj1 Hwf) H) as
    (Hn & i & l' & -> & Hi & Hr & _ & -> & Hu). split; [done|]. by apply take_run.
Qed.

Lemma try_alloc_contig_frames s d a n s' : frames_wf s → try_alloc_contig d s = Ok (a, n) s' →
  1 ≤ n ≤ d ∧ frames_wf s' ∧ a mod PAGE_SIZE = 0 ∧ 0 ≤ a ∧ a + n * PAGE_SIZE ≤ 2 ^ 48 ∧
  (∀ q, frames_of a n q → ¬ frame_allocated s q) ∧
  (∀ q, q mod PAGE_SIZE = 0 → (frame_allocated s' q ↔ frame_allocated s q ∨ frames_of a n q)).
Proof.
  intros Hwf H. pose proof (try_alloc_contig_run s d (proj1 Hwf)) as Ho. rewrite H in Ho.
  destruct Ho as (i & l' & -> & (Hi & _) & Hc & Hr & _ & -> & Hu). split; [done|].
  apply take_run; [done..|lia|done|done].
Qed.

(** ** Page tables next to data *)

Section forests.
Context `{BF : BitField} (R : Z → Prop).
Implicit Types (s : Tables PhysicalMemoryAllocator) (T : gmap Z LevelTable) (X F : Z → Prop).
Implicit Types (pt : PageTable) (v : VirtualAddressAllocator).

(** The page tables with the roots [R] are well formed, and [X] are allocated frames that
    hold no table. *)
Definition forest X s : Prop := @forest_wf BF _ (reserved X) R s.

Definition set_frames s (a : PhysicalMemoryAllocator) : Tables PhysicalMemoryAllocator :=
  Build_Tables (tables s) a (modified s).

Lemma forest_frames X s : forest X s → frames_wf (frames s).
Proof. intros [[H _] _ _ _]. done. Qed.
Lemma forest_data X s q : forest X s → X q → q mod PAGE_SIZE = 0 ∧ frame_allocated (frames s) q.
Proof. intros [[_ H] _ _ _]. apply H. Qed.

(** New data goes where there was nothing. *)
Lemma forest_take X F s a' : forest X s → frames_wf a' →
  (∀ q, F q → q mod PAGE_SIZE = 0 ∧ ¬ frame_allocated (frames s) q) →
  (∀ q, q mod PAGE_SIZE = 0 → (frame_allocated a' q ↔ frame_allocated (frames s) q ∨ F q)) →
  forest (λ q, X q ∨ F q) (set_frames s a').
Proof.
  intros [[Hf HX] Ht Hi Ha] Hf' HF Hiff. split; cbn in *.
  - split; [done|]. intros q [Hq|Hq].
    + destruct (HX q Hq). split; [done|]. apply Hiff; [done|by left].
    + destruct (HF q Hq). split; [done|]. apply Hiff; [done|by right].
  - done.
  - done.
  - intros r π p Hr Hp. destruct (Ha r π p Hr Hp) as [Hm [Hal HnX]]. split; [done|].
    split; [apply Hiff; [done|by left]|]. intros [?|HFp]; [done|]. by destruct (HF _ HFp).
Qed.

(** Forgetting that frames hold data, and freeing them. *)
Lemma forest_give X X' F s a' : forest X s → frames_wf a' → (∀ q, X' q → X q ∧ ¬ F q) →
  (∀ q, F q → X q) →
  (∀ q, q mod PAGE_SIZE = 0 → (frame_allocated a' q ↔ frame_allocated (frames s) q ∧ ¬ F q)) →
  forest X' (set_frames s a').
Proof.
  intros [[Hf HX] Ht Hi Ha] Hf' HX' HF Hiff. split; cbn in *.
  - split; [done|]. intros q Hq. destruct (HX' q Hq) as [Hx Hnf]. destruct (HX q Hx).
    split; [done|]. by apply Hiff.
  - done.
  - done.
  - intros r π p Hr Hp. destruct (Ha r π p Hr Hp) as [Hm [Hal HnX]]. split; [done|].
    split; [apply Hiff; naive_solver|]. intros Hq. by destruct (HX' _ Hq).
Qed.

Lemma forest_weaken X X' s : forest X s → (∀ q, X' q → X q) → forest X' s.
Proof.
  intros H HX. destruct s as [T a m]. apply (forest_give X X' (λ _, False) _ a H); [|naive_solver..].
  by apply forest_frames in H.
Qed.
End forests.

(** ** One address space *)

Section space.
Context `{BF : BitField}.
Implicit Types (T : gmap Z LevelTable) (pt : PageTable) (v : VirtualAddressAllocator).

(** The free addresses are page aligned runs of the half of the address space the table is
    for, and none of them is mapped. *)
Record space_ok pt v T : Prop := {
  so_wf : vaa_wf v;
  so_aligned : Forall block_aligned (free_list v);
  so_once : ∀ p, free_cover v p ≤ 1;
  so_free : ∀ p, 1 ≤ free_cover v p → is_usize p ∧
    tag_ok (high_addresses pt) (tag_of p) = true ∧ leaf T (level0_table pt) (idx p) = None;
}.

(** A run of addresses that is set aside. *)
Record taken_range pt v (a n : Z) : Prop := {
  tr_usize : is_usize a;
  tr_aligned : a mod PAGE_SIZE = 0;
  tr_tag : tag_ok (high_addresses pt) (tag_of a) = true;
  tr_end : a + n * PAGE_SIZE ≤ (tag_of a + 1) * 2 ^ 48;
  tr_top : a + n * PAGE_SIZE < U64;
  tr_taken : ∀ p, a ≤ p < a + n * PAGE_SIZE → free_cover v p = 0;
}.

(** And that is not mapped. *)
Definition fresh_range pt v T (a n : Z) : Prop :=
  taken_range pt v a n ∧ ∀ p, a ≤ p < a + n * PAGE_SIZE → leaf T (level0_table pt) (idx p) = None.

Lemma taken_in pt v a n p : taken_range pt v a n → a ≤ p < a + n * PAGE_SIZE →
  is_usize p ∧ tag_of p = tag_of a.
Proof. intros [[Hu0 Hu1] _ _ He _ _] Hp. unfold is_usize, tag_of in *. pdlia. Qed.

Lemma space_alloc pt v T n : space_ok pt v T → 1 ≤ n →
  (∃ a v', VirtAlloc.alloc n v = Ok a v' ∧ space_ok pt v' T ∧ fresh_range pt v' T a n ∧
     ∀ p, free_cover v' p + covers p (a, n) = free_cover v p) ∨
  VirtAlloc.alloc n v = Err OutOfMemory v.
Proof.
  intros [Hwf Hal Honce Hfree] Hn. unfold VirtAlloc.alloc. erewrite bind_run by done.
  pose proof (alloc_loop_spec n (free_list v) ltac:(lia) Hwf) as Hs.
  destruct (alloc_loop n (free_list v)) as [[[a l]|]|] eqn:He; [| |done].
  2: { right. erewrite bind_run by done. done. }
  left. exists a, {| free_list := l |}. split; [by do 2 run_step|].
  destruct Hs as (Hw & Hc & Hb).
  destruct (alloc_loop_aligned n _ a l ltac:(lia) Hwf Hal He) as [Haa Hal'].
  assert (∀ p, free_cover {| free_list := l |} p + covers p (a, n) = free_cover v p) as Hcov by done.
  assert (∀ p, a ≤ p < a + n * PAGE_SIZE → free_cover v p = 1 ∧ free_cover {| free_list := l |} p = 0)
    as Hin.
  { intros p Hp. specialize (Hcov p). specialize (Honce p).
    pose proof (free_cover_nonneg {| free_list := l |} p). unfold covers in Hcov. cbn in Hcov.
    rewrite decide_True in Hcov by done. lia. }
  split; [split|split; [split; [split|]|done]].
  - done.
  - done.
  - intros p. specialize (Hcov p). specialize (Honce p). pose proof (covers_bound p (a, n)). lia.
  - intros p Hp. apply Hfree. specialize (Hcov p). pose proof (covers_bound p (a, n)). lia.
  - apply Hfree. destruct (Hin a ltac:(plia)). lia.
  - done.
  - apply Hfree. destruct (Hin a ltac:(plia)). lia.
  - destruct (Hfree a) as (_ & Ht1 & _); [destruct (Hin a ltac:(plia)); lia|].
    destruct (Hfree (a + n * PAGE_SIZE - 1)) as (_ & Ht2 & _);
      [destruct (Hin (a + n * PAGE_SIZE - 1) ltac:(plia)); lia|].
    pose proof (tag_ok_unique _ _ _ Ht1 Ht2) as Heq. unfold tag_of in *. dlia.
  - destruct Hb as (pre & b & post & Hl & -> & Hnb & _). unfold vaa_wf in Hwf. rewrite Hl in Hwf.
    apply Forall_app in Hwf as [_ [(? & ? & ?) _]%Forall_cons]. plia.
  - intros p Hp. by destruct (Hin p Hp).
  - intros p Hp. apply Hfree. destruct (Hin p Hp). lia.
Qed.

Lemma fresh_split pt v T a n k : fresh_range pt v T a n → 0 ≤ k ≤ n → 0 ≤ n →
  fresh_range pt v T a k ∧ (k < n → fresh_range pt v T (a + k * PAGE_SIZE) (n - k)).
Proof.
  intros [[[Hu0 Hu1] Hal Ht He Htop Hta] Hun] Hk Hn. split.
  - split; [split; [done..|plia|plia|]|]; intros p Hp; [apply Hta|apply Hun]; plia.
  - intros Hlt. assert (tag_of (a + k * PAGE_SIZE) = tag_of a) as Htag by (unfold tag_of in *; pdlia).
    split; [split; rewrite ?Htag|]; try done.
    + unfold is_usize, tag_of in *. pdlia.
    + by rewrite Z.mod_add by plia.
    + plia.
    + plia.
    + intros p Hp. apply Hta. plia.
    + intros p Hp. apply Hun. plia.
Qed.

(** Giving addresses back that are not mapped. *)
Lemma space_free pt v T a n : space_ok pt v T → 1 ≤ n → fresh_range pt v T a n →
  ∃ v', VirtAlloc.free a n v = Ok tt v' ∧ space_ok pt v' T ∧
    ∀ p, free_cover v' p = free_cover v p + covers p (a, n).
Proof.
  intros [Hwf Hal Honce Hfree] Hn [[[Hu0 Hu1] Haa Ht He Hend Hta] Hun].
  destruct (free_run_spec v a n Hwf Hu0 ltac:(lia) Hend) as (v' & Hrun & Hwf' & Hc).
  exists v'. split; [done|]. split; [|done]. split.
  - done.
  - unfold VirtAlloc.free in Hrun. erewrite bind_run in Hrun by done.
    apply bind_Ok in Hrun as (bytes & s1 & [Hb ->]%lift_Ok & Hrun). cbv zeta in Hrun.
    apply bind_Ok in Hrun as (r & s2 & [Hl ->]%lift_Ok & [= <-]). destruct r as [l'|]; cbn.
    + by eapply free_loop_aligned.
    + apply Forall_app. split; [done|]. by repeat constructor.
  - intros p. rewrite Hc. unfold covers. cbn. specialize (Honce p). case_decide as Hp; [|lia].
    rewrite Hta by done. lia.
  - intros p. rewrite Hc. unfold covers. cbn. case_decide as Hp; [|rewrite Z.add_0_r; apply Hfree].
    intros _. assert (tag_of p = tag_of a) as Htp by (unfold tag_of in *; pdlia).
    split; [unfold is_usize; lia|]. rewrite Htp. split; [done|]. by apply Hun.
Qed.
End space.

(** ** Mapping and unmapping in an address space *)

Section spaces.
Context `{BF : BitField} (R : Z → Prop).
Implicit Types (s : Tables PhysicalMemoryAllocator) (T : gmap Z LevelTable) (X F : Z → Prop).
Implicit Types (pt : PageTable) (v : VirtualAddressAllocator).
Local Abbreviation forest := (forest R).

(** Mapping frames at addresses that were set aside. *)
Lemma map_fresh X s pt v pa va n options : forest X s → R (level0_table pt) →
  fresh_range pt v (tables s) va n → 0 ≤ pa → pa mod PAGE_SIZE = 0 → pa + n * PAGE_SIZE ≤ 2 ^ 48 →
  0 ≤ n → blocks_aligned pa va n →
  match map_range pt pa va n true options s with
  | Ok _ s' => forest X s' ∧ mapped R pt pa va options (tables s) (tables s') 0 n ∧
      ∃ regions, mapped_exactly (tables s') (level0_table pt) va (va + n * PAGE_SIZE) regions ∧
        Forall region_aligned regions
  | Err _ s' => forest X s' ∧ ∃ k, 0 ≤ k ≤ n ∧ mapped R pt pa va options (tables s) (tables s') 0 k
  | Stop _ => False
  end.
Proof.
  intros Hf Hr [[[Hv0 Hv1] Hval Htag Hve _ _] Hun] Hp0 Hpal Hpe Hn Hbl.
  rewrite (map_range_reserved X).
  pose proof (@map_range_exact BF _ (reserved X) R s) as Hexact.
  specialize (λ s1, Hexact s1 pt pa va n options Hf Hr Hp0 Hpal Hpe (conj Hv0 Hv1) Hval ltac:(lia)
    Htag Hve Hbl).
  pose proof (@map_loop_spec BF _ (reserved X) R pt pa va n options Hr Hp0 Hpe Hpal Hv0 Hval
    Hve Hv1 Hbl (Z.to_nat n) s 0 Hf ltac:(lia) ltac:(lia) ltac:(lia)) as Ho.
  rewrite map_range_unfold in Hexact by done. rewrite map_range_unfold by done.
  rewrite bind_unfold in Hexact. rewrite bind_unfold.
  destruct (map_loop _ _ _ _ _ _ _ s) as [[] s1|e s1|w]; [| |].
  - destruct Ho as [_ Hm]. destruct (Hexact _ eq_refl) as [Hf1 Hme]. by split_and!.
  - destruct Ho as [Hf1 (k & Hk & Hm)]. split; [done|]. by exists k.
  - destruct Ho as [_ (j & lvl & e & Hj & _ & Hl)]. rewrite Hun in Hl by plia. done.
Qed.

(** What the MMU does with the new addresses, and with the others. *)
Lemma translate_fresh pt v pa va options T T' n k p : mapped R pt pa va options T T' 0 k →
  R (level0_table pt) → taken_range pt v va n → 0 ≤ k ≤ n → va ≤ p < va + k * PAGE_SIZE →
  translate T' (high_addresses pt) (level0_table pt) p
    = Some (pa + (p - va), read_only options, el0_access options).
Proof.
  intros Hm Hr Htk Hk Hp. destruct (taken_in _ _ _ _ p Htk) as [Hu Ht]; [plia|].
  specialize (Hm (level0_table pt) p Hr Hu (λ _, Ht)). rewrite decide_True in Hm by (split; [done|lia]).
  destruct Hm as (l & e & Hl & Hlv & Hty & Hro & Hel & Hout). unfold translate.
  pose proof (to_parts_digits p Hu) as Hd.
  destruct (VirtualAddress.to_parts p) as [[[[[t i0] i1] i2] i3] po]. injection Hd as -> _ _ _ _ _.
  fold (tag_of p). rewrite Ht, (tr_tag _ _ _ _ Htk), Hl. cbn [mbind option_bind].
  replace (l =? 0) with false by lia. rewrite Hty, Hro, Hel, Hout. by destruct (l =? 3).
Qed.

Lemma mapped_leaf_other pt v pa va options T T' n r p : mapped R pt pa va options T T' 0 n →
  R r → taken_range pt v va n → is_usize p → (r = level0_table pt → tag_of p = tag_of va) →
  ¬ (r = level0_table pt ∧ va ≤ p < va + n * PAGE_SIZE) →
  leaf T' r (idx p) = leaf T r (idx p).
Proof.
  intros Hm Hr Htk Hu Ht Hn. specialize (Hm r p Hr Hu Ht). rewrite decide_False in Hm; [done|].
  rewrite Z.mul_0_l, Z.add_0_r. done.
Qed.

Lemma space_mapped pt' v T T' pt pa va options k : space_ok pt' v T → R (level0_table pt') →
  mapped R pt pa va options T T' 0 k → tag_ok (high_addresses pt) (tag_of va) = true →
  (level0_table pt' = level0_table pt → high_addresses pt' = high_addresses pt ∧
     ∀ p, va ≤ p < va + k * PAGE_SIZE → free_cover v p = 0) →
  space_ok pt' v T'.
Proof.
  intros [Hwf Hal Honce Hfree] Hr Hm Ht Hsame. split; try done. intros p Hp.
  destruct (Hfree p Hp) as (Hu & Htp & Hl). split; [done|]. split; [done|].
  specialize (Hm (level0_table pt') p Hr Hu).
  assert (level0_table pt' = level0_table pt → tag_of p = tag_of va) as Htag.
  { intros Heq. destruct (Hsame Heq) as [Hh _]. rewrite Hh in Htp. by eapply tag_ok_unique. }
  specialize (Hm Htag). rewrite decide_False in Hm; [by rewrite Hm|].
  intros [Heq Hin]. destruct (Hsame Heq) as [_ Hno]. rewrite Z.mul_0_l, Z.add_0_r in Hin.
  rewrite (Hno p Hin) in Hp. lia.
Qed.

(** Another range set aside stays unmapped. *)
Lemma fresh_mapped pt' v T T' pt pa va options k a n : fresh_range pt' v T a n → R (level0_table pt') →
  mapped R pt pa va options T T' 0 k → tag_ok (high_addresses pt) (tag_of va) = true →
  (level0_table pt' = level0_table pt → high_addresses pt' = high_addresses pt ∧
     (a + n * PAGE_SIZE ≤ va ∨ va + k * PAGE_SIZE ≤ a)) →
  fresh_range pt' v T' a n.
Proof.
  intros [Htk Hun] Hr Hm Htv Hsame. split; [done|]. intros p Hp.
  destruct (taken_in _ _ _ _ _ Htk Hp) as [Hu Htp]. pose proof (tr_tag _ _ _ _ Htk) as Ht.
  specialize (Hm (level0_table pt') p Hr Hu).
  assert (level0_table pt' = level0_table pt → tag_of p = tag_of va) as Htag.
  { intros Heq. destruct (Hsame Heq) as [Hh _]. rewrite Htp. rewrite Hh in Ht. by eapply tag_ok_unique. }
  specialize (Hm Htag). rewrite decide_False in Hm; [by rewrite Hm, Hun|].
  intros [Heq Hin]. destruct (Hsame Heq) as [_ Hno]. lia.
Qed.

Lemma unmap_mapped X s pt va n regions : forest X s → R (level0_table pt) → is_usize va → 0 ≤ n →
  va + n * PAGE_SIZE ≤ (tag_of va + 1) * 2 ^ 48 →
  mapped_exactly (tables s) (level0_table pt) va (va + n * PAGE_SIZE) regions →
  ∃ s', unmap_range_custom pt va n s = Ok regions s' ∧ forest X s' ∧ frames s' = frames s ∧
    unmapped R pt va (tables s) (tables s') va (va + n * PAGE_SIZE).
Proof.
  intros Hf Hr Hv Hn Hve Hme.
  destruct (@unmap_loop_run BF _ (reserved X) R pt va n Hr Hv Hve (Z.to_nat n) s 0 regions Hf)
    as (s1 & Hrun & [Hw Ht Hi Ha] & _ & Hfr & Hu); [lia|lia|by rewrite Z.mul_0_l, Z.add_0_r|].
  rewrite Z.mul_0_l, Z.add_0_r in Hu. eexists. split.
  - unfold unmap_range_custom, set_modified. erewrite bind_run by exact Hrun.
    erewrite bind_run by done. done.
  - split; [by split|]. done.
Qed.

Lemma unmapped_leaf pt va T T' b r p : unmapped R pt va T T' va b → R r → is_usize p →
  (r = level0_table pt → tag_of p = tag_of va) →
  leaf T r (idx p) = None → leaf T' r (idx p) = None.
Proof. intros Hu Hr Hp Ht Hl. rewrite (Hu r p Hr Hp Ht). by case_decide. Qed.

Lemma space_unmapped pt' v T T' pt va b : space_ok pt' v T → R (level0_table pt') →
  unmapped R pt va T T' va b → tag_ok (high_addresses pt) (tag_of va) = true →
  (level0_table pt' = level0_table pt → high_addresses pt' = high_addresses pt) →
  space_ok pt' v T'.
Proof.
  intros [Hwf Hal Honce Hfree] Hr Hm Ht Hsame. split; try done. intros p Hp.
  destruct (Hfree p Hp) as (Hu & Htp & Hl). split; [done|]. split; [done|].
  eapply unmapped_leaf; [done..| |done]. intros Heq. rewrite (Hsame Heq) in Htp. by eapply tag_ok_unique.
Qed.

End spaces.

Lemma free_pages_frames s a n : frames_wf s → 1 ≤ n → a mod PAGE_SIZE = 0 →
  (∀ q, frames_of a n q → frame_allocated s q) →
  ∃ s', free_pages a n s = Ok tt s' ∧ frames_wf s' ∧
    ∀ q, q mod PAGE_SIZE = 0 → (frame_allocated s' q ↔ frame_allocated s q ∧ ¬ frames_of a n q).
Proof.
  intros [Hwf Hend] Hn Hal Hall. pose proof Hwf as [Hl Hsa [Hs Hml] He].
  assert (∀ k, 0 ≤ k < n → memory_start s ≤ a + k * PAGE_SIZE ∧
    (a + k * PAGE_SIZE - memory_start s) / PAGE_SIZE < Z.of_nat (length (allocated_pages s))) as Hin.
  { intros k Hk. assert (frame_allocated s (a + k * PAGE_SIZE)) as Hb.
    { apply Hall. split; [by rewrite Z.mod_add by plia|plia]. }
    unfold frame_allocated, page_bit in Hb. case_decide as Hd; [|done]. destruct Hd as [Hlo Hlk].
    apply lookup_lt_Some in Hlk. lia. }
  destruct (Hin 0 ltac:(lia)) as [Hlo _]. destruct (Hin (n - 1) ltac:(lia)) as [_ Hhi].
  set (i := (a - memory_start s) / PAGE_SIZE).
  assert (a = memory_start s + i * PAGE_SIZE) as Hai by (unfold i; pdlia).
  assert (0 ≤ i) as Hi0 by (unfold i; pdlia).
  destruct (free_pages_spec s i n) as (l' & Hf & Hu); [done|lia|lia| |].
  { replace (a + (n - 1) * PAGE_SIZE - memory_start s) with ((i + n - 1) * PAGE_SIZE) in Hhi by lia.
    rewrite Z.div_mul in Hhi by plia. lia. }
  exists (set_pages s l'). rewrite Hai. split; [done|].
  split; [split; [by eapply updated_run_wf|done]|]. intros q Hq. unfold frame_allocated.
  rewrite (page_bit_updated _ _ _ _ _ _ Hi0 Hu). unfold frames_of. case_decide; cbn; naive_solver.
Qed.
