(* ===== verification/PhysBuffer.v ===== *)
(** Physical buffers: [PhysicalBuffer] of [kernel/src/memory/physical_buffer.rs], memory that
    is contiguous both physically and in the kernel's address space, used for DMA and as
    scratch space.  It is the composition of the physical memory allocator, the kernel's
    virtual address allocator and the kernel's page table. *)
From S2P Require Import Prelude BitField Addresses PhysAlloc VirtAlloc Frames PageEntry Paging.
From S2P Require Import PagingTree MapRange UnmapRange Spaces.

(** The kernel's memory management: the page tables of everyone with the physical memory
    allocator, and the kernel's own virtual address allocator. *)
Record KernelMem := {
  ktabs : Tables PhysicalMemoryAllocator;
  kva : VirtualAddressAllocator;
}.

Abbreviation KM := (M KernelMem MemoryError).

(** A call of a component on its part of the state. *)
Definition with_tabs {A} (f : PT PhysicalMemoryAllocator A) : KM A := λ k,
  match f (ktabs k) with
  | Ok a t => Ok a {| ktabs := t; kva := kva k |}
  | Err e t => Err e {| ktabs := t; kva := kva k |}
  | Stop w => Stop w
  end.
Definition with_pma {A} (f : PMA A) : KM A := with_tabs (with_frames f).
Definition with_kva {A} (f : VAA A) : KM A := λ k,
  match f (kva k) with
  | Ok a v => Ok a {| ktabs := ktabs k; kva := v |}
  | Err e v => Err e {| ktabs := ktabs k; kva := v |}
  | Stop w => Stop w
  end.
(** [Result::expect] *)
Definition expect_ok {A} (f : KM A) : KM A := λ k,
  match f k with Ok a k' => Ok a k' | Err _ _ => Stop Panic | Stop w => Stop w end.

Record PhysicalBuffer := {
  phy_addr : Z;
  vir_addr : Z;
  pb_page_count : Z;
}.

Section buffers.
Context `{BF : BitField}.
(** [paging::kernel_table()] *)
Context (kernel_table : PageTable).

Definition alloc (page_count : Z) (page_table_options : PageTableEntryOptions) : KM PhysicalBuffer :=
  base_address_phy ← with_pma (alloc_contig page_count);
  base_address_vir ← with_kva (VirtAlloc.alloc page_count);
  expect_ok (with_tabs (map_range kernel_table base_address_phy base_address_vir page_count true
                          page_table_options));;
  mret {| phy_addr := base_address_phy; vir_addr := base_address_vir; pb_page_count := page_count |}.

Definition len (self : PhysicalBuffer) : option Z := umul (pb_page_count self) PAGE_SIZE.

Definition unmap_virtual (self : PhysicalBuffer) : KM unit :=
  with_tabs (unmap_range kernel_table (vir_addr self) (pb_page_count self));;
  with_kva (VirtAlloc.free (vir_addr self) (pb_page_count self)).

(** [unmap]: the physical pages stay allocated. *)
Definition unmap (self : PhysicalBuffer) : KM (Z * Z) :=
  unmap_virtual self;; mret (phy_addr self, pb_page_count self).

Definition drop_buffer (self : PhysicalBuffer) : KM unit :=
  unmap_virtual self;; with_pma (free_pages (phy_addr self) (pb_page_count self)).
End buffers.

(** ** Buffers in use

    The history: the buffers that are alive and the runs of frames that [unmap] handed over
    to the caller. *)
Section live.
Context `{BF : BitField} (kernel_table : PageTable).

(** A client asks for at least one page.  The run of frames and the addresses that [alloc] takes
    lie so that the blocks that [map_range] makes of them are right; runs of fewer than 512 pages
    always do. *)
Inductive buffer_step : KernelMem * list PhysicalBuffer * list (Z * Z) →
    KernelMem * list PhysicalBuffer * list (Z * Z) → Prop :=
  | bs_alloc k live kept n options b k' : 1 ≤ n → n * PAGE_SIZE < U64 →
      blocks_aligned (phy_addr b) (vir_addr b) n → alloc kernel_table n options k = Ok b k' →
      buffer_step (k, live, kept) (k', b :: live, kept)
  | bs_fail k live kept n options e k' : 1 ≤ n → n * PAGE_SIZE < U64 →
      alloc kernel_table n options k = Err e k' → buffer_step (k, live, kept) (k', live, kept)
  | bs_drop k live1 b live2 kept k' : drop_buffer kernel_table b k = Ok tt k' →
      buffer_step (k, live1 ++ b :: live2, kept) (k', live1 ++ live2, kept)
  | bs_unmap k live1 b live2 kept r k' : unmap kernel_table b k = Ok r k' →
      buffer_step (k, live1 ++ b :: live2, kept) (k', live1 ++ live2, r :: kept).

Context (R : Z → Prop) (Hr : R (level0_table kernel_table)).
(** Frames that hold other data. *)
Context (Y : Z → Prop).
Local Abbreviation root := (level0_table kernel_table).
Local Abbreviation high := (high_addresses kernel_table).
Implicit Types (b : PhysicalBuffer) (k : KernelMem) (live : list PhysicalBuffer).

Definition phys_of b : Z * Z := (phy_addr b, pb_page_count b).
Definition virt_of b : Z * Z := (vir_addr b, pb_page_count b).
(** The runs of frames that are handed out. *)
Definition runs live (kept : list (Z * Z)) : list (Z * Z) := map phys_of live ++ kept.
Definition data live kept : Z → Prop :=
  λ q, Y q ∨ ∃ r, r ∈ runs live kept ∧ frames_of r.1 r.2 q.

(** The buffer is mapped where it says. *)
Record buffer_ok k b : Prop := {
  bk_taken : taken_range kernel_table (kva k) (vir_addr b) (pb_page_count b);
  bk_mapped : ∃ regions, mapped_exactly (tables (ktabs k)) root (vir_addr b)
                           (vir_addr b + pb_page_count b * PAGE_SIZE) regions;
  bk_translates : ∀ d, 0 ≤ d < pb_page_count b * PAGE_SIZE → ∃ ro el0,
    translate (tables (ktabs k)) high root (vir_addr b + d) = Some (phy_addr b + d, ro, el0);
}.

Record buffers_inv k live kept : Prop := {
  bi_forest : forest R (data live kept) (ktabs k);
  bi_space : space_ok kernel_table (kva k) (tables (ktabs k));
  bi_runs : Forall (λ r : Z * Z, 1 ≤ r.2 ∧ r.1 mod PAGE_SIZE = 0) (runs live kept);
  bi_once : ∀ p, cover_count (runs live kept) p ≤ 1;
  bi_other : ∀ q, Y q → cover_count (runs live kept) q = 0;
  bi_addresses : ∀ p, free_cover (kva k) p + cover_count (map virt_of live) p ≤ 1;
  bi_live : Forall (buffer_ok k) live;
}.

Lemma cover_count_pos l p : 1 ≤ cover_count l p → ∃ r, r ∈ l ∧ r.1 ≤ p < r.1 + r.2 * PAGE_SIZE.
Proof.
  induction l as [|r l IH]; [by rewrite cover_count_nil|]. rewrite cover_count_cons. intros H.
  destruct (decide (r.1 ≤ p < r.1 + r.2 * PAGE_SIZE)) as [Hin|Hout].
  - exists r. split; [by left|done].
  - unfold covers in H. rewrite decide_False in H by done.
    destruct (IH ltac:(lia)) as (r' & ? & ?). exists r'. split; [by right|done].
Qed.

(** New frames are apart from the ones handed out. *)
Lemma runs_fresh k live kept a n s' : buffers_inv k live kept →
  alloc_contig n (frames (ktabs k)) = Ok a s' →
  (∀ p, cover_count ((a, n) :: runs live kept) p ≤ 1) ∧
  ∀ q, Y q → cover_count ((a, n) :: runs live kept) q = 0.
Proof.
  intros [Hf _ Hruns Honce Hother _ _] Ha.
  destruct (alloc_contig_frames _ _ _ _ (forest_frames _ _ _ Hf) Ha) as (_ & _ & Hal & _ & _ & Hno & _).
  split.
  2: { intros q Hq. rewrite cover_count_cons, Hother by done. unfold covers. cbn.
    rewrite decide_False; [done|]. intros Hin.
    destruct (forest_data _ _ _ q Hf) as [Hqa Hqf]; [by left|]. by apply (Hno q). }
  intros p. rewrite cover_count_cons. specialize (Honce p). pose proof (cover_count_nonneg (runs live kept) p).
  unfold covers. cbn. case_decide as Hp; [|lia].
  destruct (decide (1 ≤ cover_count (runs live kept) p)) as [Hc|]; [|lia].
  destruct (cover_count_pos _ _ Hc) as (r & Hr' & Hin). exfalso.
  rewrite Forall_forall in Hruns. destruct (Hruns r Hr') as [_ Hra].
  apply (Hno (p - p mod PAGE_SIZE)); [split; pdlia|].
  apply (forest_data _ _ _ _ Hf). right. exists r. split; [done|]. split; pdlia.
Qed.

(** A buffer stays what it is when other addresses are mapped or unmapped. *)
Lemma buffer_ok_keep k k' b : buffer_ok k b →
  (∀ p, vir_addr b ≤ p < vir_addr b + pb_page_count b * PAGE_SIZE →
    free_cover (kva k') p = 0 ∧
    leaf (tables (ktabs k')) root (idx p) = leaf (tables (ktabs k)) root (idx p)) →
  buffer_ok k' b.
Proof.
  intros [[Hu Hal Ht He Htop Hta] [regions Hme] Htr] Hk. split.
  - split; try done. intros p Hp. by apply Hk.
  - exists regions. eapply (mapped_exactly_ext kernel_table); [exact Hme|]. intros p Hp. by apply Hk.
  - intros d Hd. destruct (Htr d Hd) as (ro & el0 & H). exists ro, el0. rewrite <- H.
    apply translate_ext. apply Hk. lia.
Qed.

Lemma data_cons b live kept q :
  data (b :: live) kept q ↔ data live kept q ∨ frames_of (phy_addr b) (pb_page_count b) q.
Proof.
  unfold data, runs. cbn [map app]. split.
  - intros [?|(r & [->|Hr']%elem_of_cons & Hq)]; [naive_solver|by right|]. left. right. by exists r.
  - intros [[?|(r & Hr' & Hq)]|Hq]; [by left|right; exists r; split; [by right|done]|].
    right. exists (phys_of b). split; [by left|done].
Qed.

(** What [alloc] is going to map. *)
Definition buffer_aligned (n : Z) (k : KernelMem) : Prop :=
  ∀ pa a' va v', alloc_contig n (frames (ktabs k)) = Ok pa a' → VirtAlloc.alloc n (kva k) = Ok va v' →
    blocks_aligned pa va n.

Lemma small_buffer n k : n < 512 → buffer_aligned n k.
Proof. intros Hn pa a' va v' _ _. by apply small_aligned. Qed.

(** The mapping step of [alloc]. *)
Lemma map_buffer k live kept n options a va s' v' : buffers_inv k live kept → 1 ≤ n → blocks_aligned a va n →
  alloc_contig n (frames (ktabs k)) = Ok a s' → VirtAlloc.alloc n (kva k) = Ok va v' →
  match map_range kernel_table a va n true options (set_frames (ktabs k) s') with
  | Ok _ s2 => buffers_inv {| ktabs := s2; kva := v' |}
                 ({| phy_addr := a; vir_addr := va; pb_page_count := n |} :: live) kept
  | Err _ _ => True
  | Stop _ => False
  end.
Proof.
  intros Hinv Hn Hbl Ha Hv. pose proof (runs_fresh k live kept a n s' Hinv Ha) as [Hfresh Hfresho].
  pose proof Hinv as [Hf Hsp Hruns Honce Hother Haddr Hlive].
  destruct (alloc_contig_frames _ _ _ _ (forest_frames _ _ _ Hf) Ha)
    as (_ & Hwf' & Hal & Ha0 & Hae & Hno & Hiff).
  destruct (space_alloc _ _ _ n Hsp ltac:(lia)) as [(va' & v'' & Hv' & Hsp' & [Htk Hun] & Hcov)|Hv'];
    rewrite Hv in Hv'; [injection Hv' as <- <-|done].
  assert (forest R (λ q, data live kept q ∨ frames_of a n q) (set_frames (ktabs k) s')) as Hf1.
  { apply (forest_take R (data live kept) (frames_of a n)); try done.
    intros q Hq. split; [apply Hq|by apply Hno]. }
  pose proof (map_fresh R _ _ kernel_table v' a va n options Hf1 Hr (conj Htk Hun) Ha0 Hal Hae
    ltac:(lia) Hbl) as Ho.
  destruct (map_range _ _ _ _ _ _ _) as [[] s2|e s2|w]; [|done|done].
  destruct Ho as (Hf2 & Hm & regions & Hme & _). split; cbn [ktabs kva].
  - eapply forest_weaken; [exact Hf2|]. intros q. by rewrite data_cons.
  - eapply space_mapped; [exact Hsp'|done|exact Hm|apply Htk|]. intros _. split; [done|apply Htk].
  - unfold runs. cbn [map app]. constructor; [cbn; split; [lia|done]|done].
  - exact Hfresh.
  - exact Hfresho.
  - intros p. cbn [map]. rewrite cover_count_cons. specialize (Hcov p). specialize (Haddr p).
    unfold virt_of at 1. cbn. lia.
  - constructor.
    + split; cbn; [done|by exists regions|]. intros d Hd. eexists _, _.
      rewrite (translate_fresh R kernel_table v' a va options _ _ n n) by (done || lia).
      do 3 f_equal. lia.
    + eapply Forall_impl; [exact Hlive|]. intros b' Hb'.
      eapply buffer_ok_keep; [exact Hb'|]. cbn. intros p Hp.
      pose proof (tr_taken _ _ _ _ (bk_taken _ _ Hb') p Hp) as H0.
      destruct (taken_in _ _ _ _ _ (bk_taken _ _ Hb') Hp) as [Hu Htg]. specialize (Hcov p).
      pose proof (free_cover_nonneg v' p). pose proof (covers_bound p (va, n)). split; [lia|].
      change (tables (ktabs k)) with (tables (set_frames (ktabs k) s')).
      eapply mapped_leaf_other; [exact Hm|done|exact Htk|done| |].
      * intros _. rewrite Htg. eapply tag_ok_unique; [apply (bk_taken _ _ Hb')|apply Htk].
      * intros [_ Hin]. unfold covers in Hcov. cbn in Hcov. rewrite decide_True in Hcov by done. lia.
Qed.

Lemma alloc_outcome k live kept n options : buffers_inv k live kept → 1 ≤ n → n * PAGE_SIZE < U64 → buffer_aligned n k →
  match alloc kernel_table n options k with
  | Ok b k' => buffers_inv k' (b :: live) kept
  | Err _ k' => buffers_inv k' live kept
  | Stop w => w = Panic
  end.
Proof.
  intros Hinv Hn Hov Hbl. pose proof Hinv as [Hf Hsp Hruns Honce Hother Haddr Hlive]. unfold alloc.
  pose proof (forest_frames _ _ _ Hf) as Hfw. rewrite bind_unfold. unfold with_pma, with_tabs, with_frames.
  destruct (alloc_contig_cases (frames (ktabs k)) n (proj1 Hfw) Hn Hov)
    as [(a & s' & Ha & _) | (e & ->)].
  2: { destruct k as [[]]. done. }
  rewrite Ha. cbn [ktabs kva]. rewrite bind_unfold. unfold with_kva. cbn [ktabs kva].
  destruct (space_alloc _ _ _ n Hsp ltac:(lia)) as [(va & v' & Hv & _)|Hv]; rewrite Hv.
  - pose proof (map_buffer k live kept n options a va s' v' Hinv Hn (Hbl _ _ _ _ Ha Hv) Ha Hv) as Hmap.
    unfold set_frames in Hmap. rewrite bind_unfold. unfold expect_ok. cbn [ktabs kva].
    by destruct (map_range _ _ _ _ _ _ _) as [[] s2|e s2|w].
  - destruct (alloc_contig_frames _ _ _ _ Hfw Ha) as (_ & Hwf' & Hal & Ha0 & Hae & Hno & Hiff).
    split; cbn [ktabs kva]; try done.
    2: { eapply Forall_impl; [exact Hlive|]. intros b Hb. by eapply buffer_ok_keep;
           [|intros p Hp; split; [apply (bk_taken _ _ Hb)|]]. }
    eapply (forest_weaken R (λ q, data live kept q ∨ frames_of a n q));
      [|naive_solver].
    apply (forest_take R (data live kept) (frames_of a n) (ktabs k) s'); try done.
    intros q Hq. split; [apply Hq|by apply Hno].
Qed.

(** *** Giving a buffer up *)

Lemma runs_middle live1 b live2 kept : runs (live1 ++ b :: live2) kept
  = map phys_of live1 ++ phys_of b :: map phys_of live2 ++ kept.
Proof. unfold runs. rewrite map_app. cbn [map]. by rewrite <- app_assoc. Qed.

Lemma cover_remove l1 r l2 p : cover_count (l1 ++ r :: l2) p = cover_count (l1 ++ l2) p + covers p r.
Proof. rewrite !cover_count_app, cover_count_cons. lia. Qed.

(** Two buffers have no address in common. *)
Lemma addresses_apart k live1 b live2 b' p :
  (∀ p, free_cover (kva k) p + cover_count (map virt_of (live1 ++ b :: live2)) p ≤ 1) →
  b' ∈ live1 ++ live2 → vir_addr b' ≤ p < vir_addr b' + pb_page_count b' * PAGE_SIZE →
  ¬ vir_addr b ≤ p < vir_addr b + pb_page_count b * PAGE_SIZE.
Proof.
  intros Haddr Hb' Hp Hin. specialize (Haddr p). rewrite map_app in Haddr. cbn [map] in Haddr.
  rewrite cover_remove, <- map_app in Haddr. pose proof (free_cover_nonneg (kva k) p).
  apply list_elem_of_lookup_1 in Hb' as [i Hi].
  pose proof (cover_count_lookup (map virt_of (live1 ++ live2)) i (virt_of b') p) as Hc.
  rewrite list_lookup_fmap, Hi in Hc. specialize (Hc eq_refl). unfold covers, virt_of in *.
  cbn in *. rewrite decide_True in Hc by done. rewrite decide_True in Haddr by done. lia.
Qed.

(** The state after [unmap_virtual]: the frames are still reserved. *)
Lemma unmap_virtual_run k live1 b live2 kept : buffers_inv k (live1 ++ b :: live2) kept →
  ∃ k', unmap_virtual kernel_table b k = Ok tt k' ∧
    buffers_inv k' (live1 ++ live2) (phys_of b :: kept).
Proof.
  intros [Hf Hsp Hruns Honce Hother Haddr Hlive]. apply Forall_app in Hlive as [Hl1 [Hb Hl2]%Forall_cons].
  rewrite runs_middle in Hruns. pose proof Hruns as [_ [[Hn _] _]%Forall_cons]%Forall_app. cbn in Hn.
  pose proof Hb as [Htk [regions Hme] _].
  destruct (unmap_mapped R _ _ kernel_table (vir_addr b) (pb_page_count b) regions Hf Hr)
    as (s1 & Hrun & Hf1 & Hfr & Hu); [apply Htk|lia|apply Htk|done|].
  assert (space_ok kernel_table (kva k) (tables s1)) as Hsp1.
  { eapply space_unmapped; [exact Hsp|done|exact Hu|apply Htk|done]. }
  assert (fresh_range kernel_table (kva k) (tables s1) (vir_addr b) (pb_page_count b)) as Hfresh.
  { split; [done|]. intros p Hp. destruct (taken_in _ _ _ _ p Htk Hp) as [Hup Htp].
    rewrite (Hu root p Hr Hup (λ _, Htp)). by rewrite decide_True. }
  destruct (space_free _ _ _ _ _ Hsp1 Hn Hfresh) as (v' & Hfree & Hsp2 & Hcov).
  exists {| ktabs := s1; kva := v' |}. split.
  { unfold unmap_virtual, unmap_range, with_tabs, with_kva. rewrite bind_unfold.
    rewrite bind_unfold, Hrun. cbn [mret M_ret ktabs kva]. by rewrite Hfree. }
  assert (∀ p, cover_count (runs (live1 ++ live2) (phys_of b :: kept)) p
             = cover_count (runs (live1 ++ b :: live2) kept) p) as Hcount.
  { intros p. rewrite runs_middle, cover_remove. unfold runs. rewrite map_app.
    rewrite !cover_count_app, cover_count_cons. lia. }
  split; cbn [ktabs kva].
  - eapply forest_weaken; [exact Hf1|]. intros q. unfold data. rewrite runs_middle. unfold runs.
    rewrite map_app. intros [HY|(r & Hr' & Hq)]; [by left|]. right. exists r. split; [|done].
    rewrite !elem_of_app, !elem_of_cons in *. rewrite elem_of_app. tauto.
  - done.
  - unfold runs. rewrite map_app. rewrite !Forall_app, !Forall_cons in *. rewrite Forall_app in Hruns.
    tauto.
  - intros p. by rewrite Hcount.
  - intros q Hq. rewrite Hcount. by apply Hother.
  - intros p. specialize (Haddr p). rewrite map_app in Haddr. cbn [map] in Haddr.
    rewrite cover_remove in Haddr. rewrite map_app, Hcov. change (virt_of b) with (vir_addr b, pb_page_count b) in Haddr. lia.
  - apply Forall_forall. intros b' Hb'.
    assert (buffer_ok k b') as Hok by (rewrite Forall_forall in Hl1, Hl2; set_solver).
    eapply buffer_ok_keep; [exact Hok|]. cbn [ktabs kva]. intros p Hp.
    destruct (taken_in _ _ _ _ _ (bk_taken _ _ Hok) Hp) as [Hup Htp].
    pose proof (addresses_apart k live1 b live2 b' p Haddr Hb' Hp) as Hout. split.
    + rewrite Hcov. unfold covers. cbn. rewrite decide_False by done.
      by rewrite (tr_taken _ _ _ _ (bk_taken _ _ Hok) p Hp).
    + rewrite (Hu root p Hr Hup); [by rewrite decide_False by tauto|]. intros _. rewrite Htp.
      eapply tag_ok_unique; [apply (bk_taken _ _ Hok)|apply Htk].
Qed.

(** Freeing a run that was handed over. *)
Lemma release_run k live r kept : buffers_inv k live (r :: kept) →
  ∃ k', with_pma (free_pages r.1 r.2) k = Ok tt k' ∧ buffers_inv k' live kept.
Proof.
  intros [Hf Hsp Hruns Honce Hother Haddr Hlive].
  assert (∀ p, cover_count (runs live (r :: kept)) p = cover_count (runs live kept) p + covers p r)
    as Hcount by (intros p; apply cover_remove).
  pose proof Hruns as [_ [[Hn Hal] _]%Forall_cons]%Forall_app.
  destruct (free_pages_frames (frames (ktabs k)) r.1 r.2 (forest_frames _ _ _ Hf) Hn Hal)
    as (a' & Hfree & Hwf' & Hiff).
  { intros q Hq. apply (forest_data _ _ _ _ Hf). right. exists r. split; [|done].
    apply elem_of_app. right. by left. }
  exists {| ktabs := set_frames (ktabs k) a'; kva := kva k |}. split.
  { unfold with_pma, with_tabs, with_frames. by rewrite Hfree. }
  assert (∀ q, data live kept q → data live (r :: kept) q ∧ ¬ frames_of r.1 r.2 q) as Hsub.
  { assert (∀ q, frames_of r.1 r.2 q → covers q r = 1) as Hcr.
    { intros q [_ Hq]. unfold covers. by rewrite decide_True. }
    intros q [HY|(r' & Hr' & Hq)].
    - split; [by left|]. intros Hin. specialize (Hother q HY). rewrite Hcount, (Hcr q Hin) in Hother.
      pose proof (cover_count_nonneg (runs live kept) q). lia.
    - split; [right; exists r'; split; [|done]; unfold runs in *; set_solver|]. intros Hin.
      specialize (Honce q). rewrite Hcount, (Hcr q Hin) in Honce.
      apply list_elem_of_lookup_1 in Hr' as [i Hi].
      pose proof (cover_count_lookup _ i r' q Hi) as Hc. destruct Hq as [_ Hq]. unfold covers in Hc.
      rewrite decide_True in Hc by done. lia. }
  split; cbn [ktabs kva set_frames tables]; try done.
  - eapply (forest_give R _ _ (frames_of r.1 r.2)); [exact Hf|done|exact Hsub| |exact Hiff].
    intros q Hq. right. exists r. split; [|done]. apply elem_of_app. right. by left.
  - apply Forall_app in Hruns as [H1 [_ H2]%Forall_cons]. by apply Forall_app.
  - intros p. specialize (Honce p). rewrite Hcount in Honce. pose proof (covers_bound p r). lia.
  - intros q Hq. specialize (Hother q Hq). rewrite Hcount in Hother. pose proof (covers_bound q r).
    pose proof (cover_count_nonneg (runs live kept) q). lia.
  - eapply Forall_impl; [exact Hlive|]. intros b Hb. by eapply buffer_ok_keep;
      [|intros p Hp; split; [apply (bk_taken _ _ Hb)|]].
Qed.

Lemma drop_buffer_run k live1 b live2 kept : buffers_inv k (live1 ++ b :: live2) kept →
  ∃ k', drop_buffer kernel_table b k = Ok tt k' ∧ buffers_inv k' (live1 ++ live2) kept.
Proof.
  intros Hinv. destruct (unmap_virtual_run _ _ _ _ _ Hinv) as (k1 & H1 & Hinv1).
  destruct (release_run _ _ _ _ Hinv1) as (k2 & H2 & Hinv2). exists k2. split; [|done].
  unfold drop_buffer. erewrite bind_run by exact H1. exact H2.
Qed.

Lemma allocated_aligned n options k b k' : alloc kernel_table n options k = Ok b k' →
  blocks_aligned (phy_addr b) (vir_addr b) n → buffer_aligned n k.
Proof.
  unfold alloc. intros H Hbl pa a' va v' Ha Hv. rewrite bind_unfold in H.
  unfold with_pma, with_tabs at 1, with_frames in H. rewrite Ha in H. rewrite bind_unfold in H.
  unfold with_kva in H. cbn [ktabs kva] in H. rewrite Hv, bind_unfold in H.
  destruct (expect_ok _ _) as [[] k2|e k2|w]; [|done|done]. by injection H as <- _.
Qed.
(** When [alloc] fails nothing was mapped. *)
Lemma failed_aligned n options k e k' : alloc kernel_table n options k = Err e k' → buffer_aligned n k.
Proof.
  unfold alloc. intros H pa a' va v' Ha Hv. exfalso. rewrite bind_unfold in H.
  unfold with_pma, with_tabs at 1, with_frames in H. rewrite Ha in H. rewrite bind_unfold in H.
  unfold with_kva in H. cbn [ktabs kva] in H. rewrite Hv, bind_unfold in H. unfold expect_ok in H.
  by destruct (with_tabs _ _).
Qed.

Definition buffers_ok (c : KernelMem * list PhysicalBuffer * list (Z * Z)) : Prop :=
  buffers_inv c.1.1 c.1.2 c.2.

Lemma buffer_step_inv c c' : buffer_step c c' → buffers_ok c → buffers_ok c'.
Proof.
  intros Hst Hinv. unfold buffers_ok in *.
  destruct Hst as [k live kept n o b k' Hn Hov Hal Ha|k live kept n o e k' Hn Hov Ha
                  |k live1 b live2 kept k' Hd|k live1 b live2 kept r k' Hu]; cbn [fst snd] in *.
  - pose proof (alloc_outcome _ _ _ n o Hinv Hn Hov (allocated_aligned _ _ _ _ _ Ha Hal)) as Ho. by rewrite Ha in Ho.
  - pose proof (alloc_outcome _ _ _ n o Hinv Hn Hov (failed_aligned _ _ _ _ _ Ha)) as Ho. by rewrite Ha in Ho.
  - destruct (drop_buffer_run _ _ _ _ _ Hinv) as (k2 & H2 & Hinv2). rewrite Hd in H2.
    by injection H2 as <-.
  - destruct (unmap_virtual_run _ _ _ _ _ Hinv) as (k1 & H1 & Hinv1). unfold unmap in Hu.
    erewrite bind_run in Hu by exact H1. injection Hu as <- <-. exact Hinv1.
Qed.

Lemma buffer_steps_inv c c' : rtc buffer_step c c' → buffers_ok c → buffers_ok c'.
Proof. induction 1; [done|]. eauto using buffer_step_inv. Qed.

(** Before the first buffer *)
Lemma no_buffers k : forest R Y (ktabs k) → space_ok kernel_table (kva k) (tables (ktabs k)) → buffers_inv k [] [].
Proof.
  intros Hf Hsp. split; cbn; try done.
  - eapply forest_weaken; [exact Hf|]. intros q [?|(r & Hr' & _)]; [done|]. by apply elem_of_nil in Hr'.
  - intros p. rewrite cover_count_nil, Z.add_0_r. apply Hsp.
Qed.

(** C29: whatever sequence of allocations (failed ones too), drops and unmaps of physical
    buffers the kernel performs: every buffer in use is mapped, byte for byte, to its own
    frames; no two buffers, nor the frames handed over by [unmap] or holding other data, share
    a frame, and no two buffers share an address; none of those frames holds a page table;
    and dropping any buffer in use succeeds.  Allocations are of any number of pages from one;
    those of 512 pages or more are ones whose frames and addresses agree modulo 2 MiB (1 GiB)
    when they agree modulo 1 MiB (16 MiB), which is all that [map_range] checks for a block. *)
Theorem phys_buffers_live k0 k live kept :
  forest R Y (ktabs k0) → space_ok kernel_table (kva k0) (tables (ktabs k0)) →
  rtc buffer_step (k0, [], []) (k, live, kept) →
  (∀ b d, b ∈ live → 0 ≤ d < pb_page_count b * PAGE_SIZE → ∃ ro el0,
     translate (tables (ktabs k)) high root (vir_addr b + d) = Some (phy_addr b + d, ro, el0)) ∧
  ranges_disjoint (map phys_of live ++ kept) ∧ ranges_disjoint (map virt_of live) ∧
  forest R (data live kept) (ktabs k) ∧
  ∀ b, b ∈ live → ∃ k', drop_buffer kernel_table b k = Ok tt k'.
Proof.
  intros Hf Hsp Hst. assert (buffers_ok (k0, [], [])) as H0 by by apply no_buffers.
  pose proof (buffer_steps_inv _ _ Hst H0) as Hinv. unfold buffers_ok in Hinv. cbn in Hinv.
  pose proof Hinv as [Hf' _ Hruns Honce _ Haddr Hlive]. rewrite Forall_forall in Hlive. split_and!.
  - intros b d Hb Hd. by apply (bk_translates _ _ (Hlive b Hb)).
  - apply disjoint_of_cover; [|done]. eapply Forall_impl; [exact Hruns|]. cbn. tauto.
  - apply disjoint_of_cover.
    + apply Forall_app in Hruns as [Hr' _]. rewrite Forall_fmap in Hr'. rewrite Forall_fmap.
      eapply Forall_impl; [exact Hr'|]. cbn. tauto.
    + intros p. specialize (Haddr p). pose proof (free_cover_nonneg (kva k) p). lia.
  - done.
  - intros b Hb. apply list_elem_of_split in Hb as (l1 & l2 & ->).
    destruct (drop_buffer_run _ _ _ _ _ Hinv) as (k' & ? & _). by exists k'.
Qed.
End live.

(** *** Witnesses *)

#[local] Existing Instance concrete_bit_field.

Lemma demo_forest : forest (λ _, False) (λ _, False) demo_tables.
Proof. split; [|done..]. split; [|done]. apply demo_wf. Qed.

(** A kernel with an empty table for high addresses and the addresses of the kernel free. *)
Lemma demo_kernel : ∃ kt s, empty true 0 demo_tables = Ok kt s ∧ high_addresses kt = true ∧
  forest (with_root (λ _, False) (level0_table kt)) (λ _, False) s ∧
  space_ok kt (new START_ADDRESS TOTAL_SIZE) (tables s).
Proof.
  assert (is_ok (empty true 0 demo_tables) = true) as E by (vm_compute; reflexivity).
  pose proof (@empty_run _ _ (reserved (λ _, False)) (λ _, False) demo_tables true 0 demo_forest) as H.
  change (@empty _ (reserved (λ _, False))) with (@empty _ pma_frame_allocator) in H.
  destruct (empty true 0 demo_tables) as [kt s|e s|w]; [|discriminate E|discriminate E].
  destruct H as (Hh & _ & _ & _ & Hz & Hwf & _). exists kt, s. split_and!; try done. split.
  - constructor; [vm_compute; intuition congruence|constructor].
  - constructor; [vm_compute; reflexivity|constructor].
  - intros p. unfold free_cover. cbn. rewrite cover_count_cons, cover_count_nil.
    pose proof (covers_bound p (START_ADDRESS, TOTAL_SIZE)). cbn. unfold range_of. cbn. lia.
  - intros p. unfold free_cover. cbn. rewrite cover_count_cons, cover_count_nil.
    unfold covers, range_of. cbn. case_decide as Hp; [|lia]. intros _. rewrite Hh.
    unfold is_usize, tag_ok, tag_of, START_ADDRESS, TOTAL_SIZE in *. split; [pdlia|].
    split; [pdlia|]. by apply zero_leaf.
Qed.

Definition demo_use (kt : PageTable) : KM (PhysicalBuffer * PhysicalBuffer) :=
  a ← alloc kt 512 demo_options; b ← alloc kt 1 demo_options; mret (a, b).

Example phys_buffers_live_witness :
  ∃ kt k0 k a b, rtc (buffer_step kt) (k0, [], []) (k, [b; a], []) ∧
    (∃ ro el0, translate (tables (ktabs k)) (high_addresses kt) (level0_table kt) (vir_addr a + 0x1f1010)
                 = Some (phy_addr a + 0x1f1010, ro, el0)) ∧
    ranges_disjoint [phys_of b; phys_of a].
Proof.
  destruct demo_kernel as (kt & s & He & _ & Hf & Hsp).
  assert (match (kt ← empty true 0; mret kt) demo_tables with
          | Ok kt s => match demo_use kt {| ktabs := s; kva := new START_ADDRESS TOTAL_SIZE |} with
                       | Ok (a, b) _ => (pb_page_count a =? 512) && negb ((phy_addr a - vir_addr a) mod 2 ^ 20 =? 0) | _ => false end
          | _ => false end = true) as E by (vm_compute; reflexivity).
  erewrite bind_run in E by exact He. cbn [mret M_ret] in E. unfold demo_use in E.
  set (k0 := {| ktabs := s; kva := new START_ADDRESS TOTAL_SIZE |}) in *.
  rewrite bind_unfold in E. destruct (alloc kt 512 demo_options k0) as [a k1|e k1|w] eqn:E1;
    [|discriminate E|discriminate E].
  rewrite bind_unfold in E. destruct (alloc kt 1 demo_options k1) as [b k2|e k2|w] eqn:E2;
    [|discriminate E|discriminate E]. apply andb_true_iff in E as [E Ea].
  apply Z.eqb_eq in E. apply negb_true_iff, Z.eqb_neq in Ea.
  assert (rtc (buffer_step kt) (k0, [], []) (k2, [b; a], [])) as Hst.
  { eapply rtc_l; [eapply (bs_alloc kt _ _ _ 512); [lia|reflexivity|split; [right; left; exact Ea|left; lia]|exact E1]|].
    eapply rtc_l; [eapply (bs_alloc kt _ _ _ 1); [lia|reflexivity|apply small_aligned; lia|exact E2]|]. apply rtc_refl. }
  destruct (phys_buffers_live kt (with_root (λ _, False) (level0_table kt)) (or_intror eq_refl)
    (λ _, False) k0 k2 [b; a] [] Hf Hsp Hst) as (Htr & Hdis & _).
  exists kt, k0, k2, a, b. split; [exact Hst|]. split; [|exact Hdis].
  apply Htr; [right; left|rewrite E; vm_compute; split; congruence].
Defined.
