(* ===== verification/Heap.v ===== *)
(** The kernel heap: [kernel/src/memory/heap.rs].

    The free blocks of the heap are a doubly linked list whose nodes are stored in the free
    memory itself.  The model has that memory: a map from addresses to 64-bit words, which
    may be accessed inside the mapped heap only ([Undefined] elsewhere).  A
    [FreeBlockHeader] at [p] is the words [size], [next], [prev] at [p], [p+8], [p+16]; an
    [AllocatedBlockHeader] is one word.  The null pointer is 0. *)
From S2P Require Import Prelude BitField Addresses PhysAlloc Frames PageEntry Paging.

Definition KERNEL_HEAP_START : Z := 0xffffff0000000000.
Definition INIT_SIZE : Z := 8.

(** [size_of::<AllocatedBlockHeader>()], [size_of] and [align_of] of [FreeBlockHeader]. *)
Definition ALLOC_HEADER : Z := 8.
Definition FREE_HEADER : Z := 24.
Definition FREE_ALIGN : Z := 8.

Record Layout := {
  layout_size : Z;
  layout_align : Z;
}.

Record FreeBlock := {
  fb_address : Z;
  fb_size : Z;
}.

Inductive BlockAdjacency := Before | After | NotAdjacent.

(** The [FreeList], the heap's memory, and what growing the heap works on: the kernel page
    table and the physical memory allocator. *)
Record Heap := {
  mem : gmap Z Z;
  head : Z;
  tail : Z;
  heap_size_in_bytes : Z;
  initialized : bool;
  kernel_memory : Tables PhysicalMemoryAllocator;
}.

(** No function of the heap returns an [Err]: they return or panic. *)
Abbreviation HM := (M Heap Empty_set).

Definition set_mem (h : Heap) (m : gmap Z Z) : Heap :=
  Build_Heap m (head h) (tail h) (heap_size_in_bytes h) (initialized h) (kernel_memory h).
Definition set_head (h : Heap) (p : Z) : Heap :=
  Build_Heap (mem h) p (tail h) (heap_size_in_bytes h) (initialized h) (kernel_memory h).
Definition set_tail (h : Heap) (p : Z) : Heap :=
  Build_Heap (mem h) (head h) p (heap_size_in_bytes h) (initialized h) (kernel_memory h).
Definition set_heap_size (h : Heap) (n : Z) : Heap :=
  Build_Heap (mem h) (head h) (tail h) n (initialized h) (kernel_memory h).
Definition set_kernel (h : Heap) (k : Tables PhysicalMemoryAllocator) : Heap :=
  Build_Heap (mem h) (head h) (tail h) (heap_size_in_bytes h) (initialized h) k.

(** *** Memory *)

Definition in_heap (h : Heap) (a : Z) : bool :=
  (KERNEL_HEAP_START <=? a) && (a + 8 <=? KERNEL_HEAP_START + heap_size_in_bytes h).
Definition word (m : gmap Z Z) (a : Z) : Z := default 0 (m !! a).

Definition load (a : Z) : HM Z :=
  h ← get; if in_heap h a then mret (word (mem h) a) else undefined.
Definition store (a v : Z) : HM unit :=
  h ← get; if in_heap h a then put (set_mem h (<[a := v]> (mem h))) else undefined.

(** The fields of a [FreeBlockHeader] *)
Definition size_of_block (p : Z) : Z := p.
Definition next_of (p : Z) : Z := p + 8.
Definition prev_of (p : Z) : Z := p + 16.

(** [.expect(..)] *)
Definition expect {A} (m : M Heap MemoryError A) : HM A := λ h,
  match m h with
  | Ok a h' => Ok a h'
  | Err _ _ => Stop Panic
  | Stop w => Stop w
  end.

(** A call that works on the kernel page table or the physical memory allocator. *)
Definition with_kernel {A} (m : M (Tables PhysicalMemoryAllocator) MemoryError A)
    : M Heap MemoryError A := λ h,
  match m (kernel_memory h) with
  | Ok a k => Ok a (set_kernel h k)
  | Err e k => Err e (set_kernel h k)
  | Stop w => Stop w
  end.

(** *** Free blocks *)

Definition new_FreeBlock (address size : Z) : option FreeBlock :=
  off ← VirtualAddress.align_offset address FREE_ALIGN;
  if off =? 0 then Some {| fb_address := address; fb_size := size |} else None.

Definition check_adjacency (self other : FreeBlock) : BlockAdjacency :=
  if VirtualAddress.add (fb_address self) (fb_size self) =? fb_address other then Before
  else if fb_address self =? VirtualAddress.add (fb_address other) (fb_size other) then After
  else NotAdjacent.

(** *** The cursor: its [current] pointer is threaded through *)

Definition check_ptr (ptr : Z) : HM unit :=
  h ← get;
  if ptr =? 0 then mret tt
  else
    heap_end ← lift (uadd KERNEL_HEAP_START (heap_size_in_bytes h));
    assert ((KERNEL_HEAP_START <=? ptr) && (ptr <=? heap_end)).

Definition cursor : HM Z :=
  h ← get; check_ptr (head h);; mret (head h).

Definition current (cur : Z) : HM (option FreeBlock) :=
  if cur =? 0 then mret None
  else
    size ← load (size_of_block cur);
    b ← lift (new_FreeBlock cur size);
    mret (Some b).

Definition move_next (cur : Z) : HM Z :=
  cur' ← (if cur =? 0 then mret cur else load (next_of cur));
  check_ptr cur';;
  mret cur'.

Definition update (f : Heap → Heap) : HM unit := h ← get; put (f h).

(** [if let Some(next) = next.as_mut() { assert_eq!(next.prev, cur); next.prev = prev }] *)
Definition relink_next (cur prev next : Z) : HM unit :=
  if next =? 0 then mret tt
  else
    np ← load (prev_of next);
    assert (np =? cur);;
    store (prev_of next) prev.

(** The arms of [remove_current]: removed block is the head; is in the middle. *)
Definition unlink_head (cur next : Z) : HM unit :=
  h ← get;
  assert (cur =? head h);;
  update (λ h, set_head h next);;
  check_ptr next;;
  relink_next cur 0 next;;
  h ← get;
  if tail h =? cur then update (λ h, set_tail h (head h)) else mret tt.

Definition unlink_middle (cur prev next : Z) : HM unit :=
  check_ptr next;;
  relink_next cur prev next;;
  store (next_of prev) next;;
  h ← get;
  if tail h =? cur then update (λ h, set_tail h prev) else mret tt.

Definition remove_current (cur : Z) : HM (Z * option FreeBlock) :=
  if cur =? 0 then mret (cur, None)
  else
    prev ← load (prev_of cur);
    check_ptr prev;;
    next ← load (next_of cur);
    (if prev =? 0 then unlink_head cur next else unlink_middle cur prev next);;
    size ← load (size_of_block cur);
    b ← lift (new_FreeBlock cur size);
    mret (next, Some b).

(** The arms of [insert_before_current], with the size already written: the cursor is at the
    head; is past the end; is in the middle. *)
Definition insert_at_head (p : Z) : HM unit :=
  h ← get;
  store (next_of p) (head h);;
  store (prev_of p) 0;;
  (if head h =? 0 then mret tt else store (prev_of (head h)) p);;
  (if tail h =? 0 then update (λ h, set_tail h p) else mret tt);;
  update (λ h, set_head h p).

Definition insert_at_end (p : Z) : HM unit :=
  h ← get;
  check_ptr (tail h);;
  if tail h =? 0 then
    (* the list is empty *)
    assert (head h =? 0);;
    update (λ h, set_tail (set_head h p) p);;
    store (next_of p) 0;;
    store (prev_of p) 0
  else
    old_next ← load (next_of (tail h));
    assert (old_next =? 0);;
    store (next_of (tail h)) p;;
    store (next_of p) 0;;
    store (prev_of p) (tail h);;
    update (λ h, set_tail h p).

Definition insert_in_middle (cur p : Z) : HM unit :=
  store (next_of p) cur;;
  prev ← load (prev_of cur);
  store (prev_of p) prev;;
  (if prev =? 0 then mret tt else store (next_of prev) p);;
  store (prev_of cur) p.

Definition insert_before_current (cur : Z) (new_block : FreeBlock) : HM unit :=
  assert (negb (fb_size new_block =? 0));;
  let p := fb_address new_block in
  check_ptr p;;
  assert (negb (p =? 0));;
  store (size_of_block p) (fb_size new_block);;
  h ← get;
  if cur =? head h then insert_at_head p
  else if cur =? 0 then insert_at_end p
  else insert_in_middle cur p.

Definition extend_current (cur change_in_size : Z) : HM unit :=
  if cur =? 0 then mret tt
  else
    size ← load (size_of_block cur);
    size' ← lift (uadd size change_in_size);
    store (size_of_block cur) size'.

(** *** [KernelGlobalAlloc] *)

Section alloc.
Context `{BF : BitField} (kernel_table : PageTable).

(** [AllocatedBlockHeader] *)
Definition new_AllocatedBlockHeader (size padding : Z) : Z :=
  (* [padding as u8] *)
  set_bit_range (set_bit_range 0 55 0 size) 63 56 (padding mod 256).
Definition header_size (w : Z) : Z := bit_range w 55 0.
Definition padding_size (w : Z) : Z := bit_range w 63 56.

Definition default_options : PageTableEntryOptions := {| read_only := false; el0_access := false |}.

Definition map_heap_pages (virt pages : Z) : HM unit :=
  phys ← expect (with_kernel (with_frames (alloc_contig pages)));
  expect (with_kernel (map_range kernel_table phys virt pages true default_options)).

(** [FreeList::init] *)
Definition init_free_list (initial_size_in_bytes : Z) : HM unit :=
  h ← get;
  assert (head h =? 0);;
  (* the pages are mapped, so the memory of the first header is there *)
  update (λ h, set_heap_size h initial_size_in_bytes);;
  update (λ h, set_head h KERNEL_HEAP_START);;
  store (size_of_block KERNEL_HEAP_START) initial_size_in_bytes;;
  store (next_of KERNEL_HEAP_START) 0;;
  store (prev_of KERNEL_HEAP_START) 0;;
  update (λ h, set_tail h (head h)).

Definition init : HM unit :=
  h ← get;
  put (Build_Heap (mem h) (head h) (tail h) (heap_size_in_bytes h) true (kernel_memory h));;
  assert (negb (initialized h));;
  map_heap_pages KERNEL_HEAP_START INIT_SIZE;;
  init_free_list (INIT_SIZE * PAGE_SIZE).

Definition ensure_init : HM unit :=
  h ← get; if initialized h then mret tt else init.

(** The number of free blocks cannot exceed this. *)
Definition max_blocks (h : Heap) : nat := S (Z.to_nat (heap_size_in_bytes h / FREE_HEADER)).

Definition required_size (layout : Layout) (address : Z) : option Z :=
  off ← VirtualAddress.align_offset (VirtualAddress.add address ALLOC_HEADER) (layout_align layout);
  a ← uadd (layout_size layout) ALLOC_HEADER;
  uadd a off.

Fixpoint find_loop (fuel : nat) (layout : Layout) (cur : Z) : HM (option FreeBlock) :=
  block ← current cur;
  match block with
  | None => mret None
  | Some b =>
      match fuel with
      | O => out_of_fuel
      | S fuel' =>
          required ← lift (required_size layout (fb_address b));
          if required <=? fb_size b then
            '(_, removed) ← remove_current cur;
            mret removed
          else
            cur' ← move_next cur;
            find_loop fuel' layout cur'
      end
  end.

Definition find_suitable_free_block (layout : Layout) : HM (option FreeBlock) :=
  ensure_init;;
  h ← get;
  cur ← cursor;
  find_loop (max_blocks h) layout cur.

Fixpoint add_loop (fuel : nat) (new_block : FreeBlock) (cur : Z) : HM unit :=
  block ← current cur;
  match block with
  | None => insert_before_current cur new_block
  | Some b =>
      match fuel with
      | O => out_of_fuel
      | S fuel' =>
          match check_adjacency new_block b with
          | Before =>
              '(cur', _) ← remove_current cur;
              size ← lift (uadd (fb_size new_block) (fb_size b));
              insert_before_current cur' {| fb_address := fb_address new_block; fb_size := size |}
          | After => extend_current cur (fb_size new_block)
          | NotAdjacent =>
              if fb_address new_block <? fb_address b then insert_before_current cur new_block
              else
                cur' ← move_next cur;
                add_loop fuel' new_block cur'
          end
      end
  end.

Definition add_free_block (new_block : FreeBlock) : HM unit :=
  h ← get;
  cur ← cursor;
  add_loop (max_blocks h) new_block cur.

Definition increase_heap_size (layout : Layout) : HM unit :=
  h ← get;
  larger ← lift (uadd (heap_size_in_bytes h) (heap_size_in_bytes h / 2));
  let num_new_pages := div_ceil (Z.max larger (layout_size layout)) PAGE_SIZE in
  phys ← expect (with_kernel (with_frames (alloc_contig num_new_pages)));
  old_heap_end ← lift (uadd KERNEL_HEAP_START (heap_size_in_bytes h));
  expect (with_kernel (map_range kernel_table phys old_heap_end num_new_pages true default_options));;
  bytes ← lift (umul num_new_pages PAGE_SIZE);
  new_size ← lift (uadd (heap_size_in_bytes h) bytes);
  update (λ h, set_heap_size h new_size);;
  b ← lift (new_FreeBlock old_heap_end bytes);
  add_free_block b.

(** The part of [alloc] after a block was found. *)
Definition alloc_from (layout : Layout) (block : FreeBlock) : HM Z :=
  padding_before ← lift (VirtualAddress.align_offset
    (VirtualAddress.add (fb_address block) ALLOC_HEADER) (layout_align layout));
  a ← lift (uadd ALLOC_HEADER padding_before);
  b ← lift (uadd a (layout_size layout));
  let req0 := Z.max b FREE_HEADER in
  off ← lift (VirtualAddress.align_offset (VirtualAddress.add (fb_address block) req0) FREE_ALIGN);
  req_block_size ← lift (uadd req0 off);
  rest ← lift (usub (fb_size block) req_block_size);
  actual_block_size ←
    (if FREE_HEADER <? rest then
       extra ← lift (new_FreeBlock (VirtualAddress.add (fb_address block) req_block_size) rest);
       add_free_block extra;;
       mret req_block_size
     else mret (fb_size block));
  assert (FREE_HEADER <=? actual_block_size);;
  let padded_address := VirtualAddress.add (fb_address block) padding_before in
  assert (negb (padded_address =? 0));;
  store padded_address (new_AllocatedBlockHeader actual_block_size padding_before);;
  mret (VirtualAddress.add padded_address ALLOC_HEADER).

(** [alloc], by the number of times it may grow the heap. *)
Fixpoint alloc (retries : nat) (layout : Layout) : HM Z :=
  found ← find_suitable_free_block layout;
  match found with
  | Some block => alloc_from layout block
  | None =>
      increase_heap_size layout;;
      match retries with
      | O => out_of_fuel
      | S retries' => alloc retries' layout
      end
  end.

Definition dealloc (ptr : Z) (layout : Layout) : HM unit :=
  if ptr =? 0 then mret tt
  else
    let header := VirtualAddress.offset ptr (- ALLOC_HEADER) in
    w ← load header;
    let block_size := header_size w in
    let block_address := VirtualAddress.offset header (- padding_size w) in
    assert (layout_size layout <=? block_size);;
    b ← lift (new_FreeBlock block_address block_size);
    add_free_block b.
End alloc.
