(* ===== verification/HeapSpec.v ===== *)
(** The heap's free list in memory: the representation invariant and what the cursor
    operations do to the list it represents. *)
From S2P Require Import Prelude BitField Addresses PhysAlloc Frames PageEntry Paging Heap.
From Stdlib Require Import Sorting.Sorted.

(** A block is its address and its size in bytes. *)
Abbreviation block := (Z * Z)%type (only parsing).

(** *** Chains of headers

    [dseg m prev p bs q]: starting at [p], whose predecessor is [prev], the headers in
    memory link the blocks [bs] and the last one points to [q]. *)
Fixpoint dseg (m : gmap Z Z) (prev p : Z) (bs : list block) (q : Z) : Prop :=
  match bs with
  | [] => p = q
  | (a, sz) :: bs' =>
      p = a ∧ word m (size_of_block a) = sz ∧ word m (prev_of a) = prev ∧
      dseg m a (word m (next_of a)) bs' q
  end.

Definition last_addr (prev : Z) (bs : list block) : Z := default prev (fst <$> last bs).
Definition first_addr (bs : list block) : Z := match bs with [] => 0 | (a, _) :: _ => a end.

(** The words of a list of headers. *)
Definition header_word (bs : list block) (x : Z) : Prop :=
  ∃ a sz, (a, sz) ∈ bs ∧ (x = size_of_block a ∨ x = next_of a ∨ x = prev_of a).

Lemma last_addr_cons prev b bs : last_addr prev (b :: bs) = last_addr b.1 bs.
Proof. unfold last_addr. destruct bs as [|c bs]; [done|]. rewrite last_cons_cons. by destruct (last (c :: bs)) eqn:E; [|apply last_None in E]. Qed.

Lemma last_addr_snoc prev bs b : last_addr prev (bs ++ [b]) = b.1.
Proof. unfold last_addr. by rewrite last_snoc. Qed.

Lemma dseg_app m prev p l1 l2 q :
  dseg m prev p (l1 ++ l2) q ↔ ∃ r, dseg m prev p l1 r ∧ dseg m (last_addr prev l1) r l2 q.
Proof.
  revert prev p. induction l1 as [|[a sz] l1 IH]; intros prev p; cbn.
  - naive_solver.
  - rewrite IH, (last_addr_cons prev (a, sz)). naive_solver.
Qed.

Lemma dseg_frame m m' prev p bs q : (∀ x, header_word bs x → word m' x = word m x) →
  dseg m prev p bs q → dseg m' prev p bs q.
Proof.
  revert prev p. induction bs as [|[a sz] bs IH]; intros prev p Hm; cbn; [done|].
  intros (-> & Hs & Hp & Hd).
  assert (∀ x, x = size_of_block a ∨ x = next_of a ∨ x = prev_of a → word m' x = word m x) as Ha.
  { intros x Hx. apply Hm. exists a, sz. split; [left|done]. }
  rewrite !Ha by auto. split_and!; [done..|]. apply IH; [|done].
  intros x (b & sb & Hel & Hx). apply Hm. exists b, sb. split; [by right|done].
Qed.

Lemma dseg_first m prev p bs : dseg m prev p bs 0 → p = first_addr bs.
Proof. destruct bs as [|[a sz] bs]; cbn; naive_solver. Qed.

(** *** Memory *)

Lemma word_insert_eq m a v : word (<[a := v]> m) a = v.
Proof. unfold word. by rewrite lookup_insert_eq. Qed.
Lemma word_insert_ne m a b v : a ≠ b → word (<[a := v]> m) b = word m b.
Proof. intros. unfold word. by rewrite lookup_insert_ne. Qed.

(** *** The invariant *)

Definition block_ok (heap_size : Z) (b : block) : Prop :=
  KERNEL_HEAP_START ≤ b.1 ∧ b.1 + b.2 ≤ KERNEL_HEAP_START + heap_size ∧
  b.1 mod 8 = 0 ∧ b.2 mod 8 = 0 ∧ FREE_HEADER ≤ b.2.

Definition sorted_blocks (bs : list block) : Prop :=
  StronglySorted (λ b c : block, b.1 + b.2 ≤ c.1) bs.

Record heap_rep (h : Heap) (bs : list block) : Prop := {
  hr_list : dseg (mem h) 0 (head h) bs 0;
  hr_tail : tail h = last_addr 0 bs;
  hr_sorted : sorted_blocks bs;
  hr_blocks : Forall (block_ok (heap_size_in_bytes h)) bs;
  hr_size : 0 ≤ heap_size_in_bytes h ∧ KERNEL_HEAP_START + heap_size_in_bytes h < U64;
  hr_size_aligned : heap_size_in_bytes h mod 8 = 0;
  hr_init : initialized h = true;
}.

(** Everything but the free list and the words in [P] stayed. *)
Record frame (P : Z → Prop) (h h' : Heap) : Prop := {
  fr_mem : ∀ x, ¬ P x → word (mem h') x = word (mem h) x;
  fr_size : heap_size_in_bytes h' = heap_size_in_bytes h;
  fr_init : initialized h' = initialized h;
  fr_kernel : kernel_memory h' = kernel_memory h;
}.

Lemma sorted_app_inv bs1 bs2 : sorted_blocks (bs1 ++ bs2) →
  sorted_blocks bs1 ∧ sorted_blocks bs2 ∧
  ∀ b c, b ∈ bs1 → c ∈ bs2 → b.1 + b.2 ≤ c.1.
Proof.
  unfold sorted_blocks. induction bs1 as [|b bs1 IH]; cbn; intros H.
  - split_and!; [constructor|done|set_solver].
  - inversion H as [|x l Hs Hf]; subst. destruct (IH Hs) as (H1 & H2 & H3).
    rewrite Forall_app in Hf. destruct Hf as [Hf1 Hf2]. rewrite Forall_forall in Hf2.
    split_and!; [by constructor|done|].
    intros b' c [->|Hb]%elem_of_cons Hc; [by apply Hf2|by apply H3].
Qed.

Lemma sorted_app bs1 bs2 : sorted_blocks bs1 → sorted_blocks bs2 →
  (∀ b c, b ∈ bs1 → c ∈ bs2 → b.1 + b.2 ≤ c.1) → sorted_blocks (bs1 ++ bs2).
Proof.
  unfold sorted_blocks. induction 1 as [|b bs1 Hs IH Hf]; cbn; intros H2 H3; [done|].
  constructor; [apply IH; [done|set_solver]|]. apply Forall_app. split; [done|].
  apply Forall_forall. intros c Hc. apply H3; [left|done].
Qed.

(** Headers of blocks that do not overlap share no word. *)
Lemma header_apart (a b : block) x y : FREE_HEADER ≤ a.2 → FREE_HEADER ≤ b.2 →
  a.1 + a.2 ≤ b.1 ∨ b.1 + b.2 ≤ a.1 →
  a.1 ≤ x < a.1 + FREE_HEADER → b.1 ≤ y < b.1 + FREE_HEADER → x ≠ y.
Proof. unfold FREE_HEADER. lia. Qed.

(** *** Running the primitives *)

Lemma load_run h a : in_heap h a = true → load a h = Ok (word (mem h) a) h.
Proof. intros Ha. unfold load. run_step. by rewrite Ha. Qed.

Lemma store_run h a v : in_heap h a = true → store a v h = Ok tt (set_mem h (<[a := v]> (mem h))).
Proof. intros Ha. unfold store. run_step. by rewrite Ha. Qed.

Lemma update_run f h : update f h = Ok tt (f h).
Proof. done. Qed.

Lemma check_ptr_run h p : KERNEL_HEAP_START + heap_size_in_bytes h < U64 →
  p = 0 ∨ KERNEL_HEAP_START ≤ p ≤ KERNEL_HEAP_START + heap_size_in_bytes h →
  check_ptr p h = Ok tt h.
Proof.
  intros Hs Hp. unfold check_ptr. run_step. destruct (Z.eqb_spec p 0); [done|].
  erewrite bind_run by (apply lift_Ok; split; [apply uadd_Some; done|done]).
  unfold assert. by replace ((_ <=? p) && _) with true by lia.
Qed.

Lemma in_heap_block h b x : block_ok (heap_size_in_bytes h) b →
  b.1 ≤ x ≤ b.1 + FREE_HEADER - 8 → in_heap h x = true.
Proof. unfold block_ok, in_heap, FREE_HEADER. lia. Qed.

Lemma in_heap_fields h a sz : block_ok (heap_size_in_bytes h) (a, sz) →
  in_heap h (size_of_block a) = true ∧ in_heap h (next_of a) = true ∧ in_heap h (prev_of a) = true.
Proof.
  intros Hb. split_and!; apply (in_heap_block h (a, sz)); try done;
    unfold size_of_block, next_of, prev_of, FREE_HEADER; cbn; lia.
Qed.

Lemma block_ok_ptr h a sz : block_ok (heap_size_in_bytes h) (a, sz) →
  a ≠ 0 ∧ KERNEL_HEAP_START ≤ a ≤ KERNEL_HEAP_START + heap_size_in_bytes h.
Proof. unfold block_ok, FREE_HEADER, KERNEL_HEAP_START. cbn. lia. Qed.

Lemma align_offset_8 a : VirtualAddress.align_offset a FREE_ALIGN = Some ((- a) mod 8).
Proof. done. Qed.

Lemma new_FreeBlock_run a sz : a mod 8 = 0 →
  new_FreeBlock a sz = Some {| fb_address := a; fb_size := sz |}.
Proof.
  intros Ha. unfold new_FreeBlock. rewrite align_offset_8. cbn.
  by replace ((- a) mod 8) with 0 by dlia.
Qed.

(** Executes the steps of a cursor operation whose side conditions are in the context. *)
Ltac heap_step :=
  first [ erewrite bind_run by
            first [ eassumption
                  | apply update_run
                  | apply load_run; first [eassumption | assumption]
                  | apply store_run; first [eassumption | assumption]
                  | apply check_ptr_run; [cbn; assumption | cbn; auto with lia]
                  | reflexivity ] ];
  cbv beta iota.

Section fields.
Context (m : gmap Z Z).

Lemma field_ne a : size_of_block a ≠ next_of a ∧ size_of_block a ≠ prev_of a ∧ next_of a ≠ prev_of a.
Proof. unfold size_of_block, next_of, prev_of. lia. Qed.

(** Setting the [prev] of the first header of a chain. *)
Lemma dseg_set_first_prev prev prev' p a sz bs q :
  dseg m prev p ((a, sz) :: bs) q → ¬ header_word bs (prev_of a) →
  dseg (<[prev_of a := prev']> m) prev' p ((a, sz) :: bs) q.
Proof.
  cbn. intros (-> & Hs & Hp & Hd) Hn. destruct (field_ne a) as (? & ? & ?).
  rewrite word_insert_eq, !word_insert_ne by congruence. split_and!; [done..|].
  eapply dseg_frame; [|exact Hd]. intros x Hx. apply word_insert_ne. intros <-. done.
Qed.

(** Setting the [next] of the last header of a chain. *)
Lemma dseg_set_last_next prev p bs a sz q q' :
  dseg m prev p (bs ++ [(a, sz)]) q → ¬ header_word bs (next_of a) →
  dseg (<[next_of a := q']> m) prev p (bs ++ [(a, sz)]) q'.
Proof.
  rewrite !dseg_app. intros (r & H1 & H2) Hn. exists r. split.
  - eapply dseg_frame; [|exact H1]. intros x Hx. apply word_insert_ne. intros <-. done.
  - cbn in *. destruct H2 as (-> & Hs & Hp & Hd). destruct (field_ne a) as (? & ? & ?).
    rewrite word_insert_eq, !word_insert_ne by congruence. done.
Qed.

Lemma dseg_insert_frame prev p bs q x v : ¬ header_word bs x →
  dseg m prev p bs q → dseg (<[x := v]> m) prev p bs q.
Proof. intros Hn. apply dseg_frame. intros y Hy. apply word_insert_ne. by intros <-. Qed.
End fields.

(** A header outside the blocks of a list has no word in common with theirs. *)
Definition apart (c : block) (bs : list block) : Prop :=
  Forall (λ b : block, FREE_HEADER ≤ b.2 ∧ (b.1 + b.2 ≤ c.1 ∨ c.1 + c.2 ≤ b.1)) bs.

Lemma apart_header c bs x : apart c bs → FREE_HEADER ≤ c.2 →
  x = size_of_block c.1 ∨ x = next_of c.1 ∨ x = prev_of c.1 → ¬ header_word bs x.
Proof.
  unfold apart. rewrite Forall_forall. intros Ha Hc Hx (a & sz & Hel & Hy).
  destruct (Ha _ Hel) as [Hsz Hd]. cbn in *.
  unfold size_of_block, next_of, prev_of, FREE_HEADER in *. lia.
Qed.

Lemma sorted_apart pre c post hs : sorted_blocks (pre ++ c :: post) →
  Forall (block_ok hs) (pre ++ c :: post) → apart c pre ∧ apart c post.
Proof.
  intros Hs Hb. rewrite Forall_app, Forall_cons in Hb. destruct Hb as (Hb1 & Hc & Hb2).
  apply sorted_app_inv in Hs as (_ & Hs2 & H12). inversion Hs2 as [|x l _ Hf]; subst.
  unfold apart. rewrite !Forall_forall in *. split; intros b Hb.
  - split; [apply (Hb1 b Hb)|]. left. apply H12; [done|left].
  - split; [apply (Hb2 b Hb)|]. right. by apply Hf.
Qed.

(** *** [remove_current] *)

Definition set_first_prev (m : gmap Z Z) (post : list block) (v : Z) : gmap Z Z :=
  match post with [] => m | (b, _) :: _ => <[prev_of b := v]> m end.

Lemma unlink_next_run h post a v : Forall (block_ok (heap_size_in_bytes h)) post →
  dseg (mem h) a (first_addr post) post 0 →
  relink_next a v (first_addr post) h = Ok tt (set_mem h (set_first_prev (mem h) post v)).
Proof.
  intros Hb Hd. unfold relink_next.
  destruct post as [|[b sb] post]; cbn [first_addr set_first_prev].
  { by destruct h. }
  apply Forall_cons in Hb as [Hb _]. destruct (block_ok_ptr _ _ _ Hb) as [Hn _].
  destruct (in_heap_fields _ _ _ Hb) as (_ & _ & Hprev). destruct Hd as (_ & _ & Hp & _).
  replace (b =? 0) with false by lia. rewrite (bind_run _ _ _ _ _ (load_run h _ Hprev)).
  rewrite Hp, Z.eqb_refl. erewrite bind_run by done. by apply store_run.
Qed.

Lemma dseg_set_first_prev_list m a v p post hs : sorted_blocks post → Forall (block_ok hs) post →
  dseg m a p post 0 → dseg (set_first_prev m post v) v p post 0.
Proof.
  intros Hs Hb Hd. destruct post as [|[b sb] post]; [done|]. cbn [set_first_prev].
  eapply dseg_set_first_prev; [exact Hd|].
  destruct (sorted_apart [] (b, sb) post hs) as [_ Hap]; [done..|].
  apply (apart_header (b, sb)); [done| |cbn; auto].
  apply Forall_cons in Hb as [(_ & _ & _ & _ & Hb) _]. done.
Qed.

Lemma set_first_prev_frame m post v x : ¬ header_word post x →
  word (set_first_prev m post v) x = word m x.
Proof.
  destruct post as [|[b sb] post]; [done|]. cbn. intros Hn. apply word_insert_ne. intros <-.
  apply Hn. exists b, sb. split; [left|auto].
Qed.

Lemma header_word_app l1 l2 x : header_word (l1 ++ l2) x ↔ header_word l1 x ∨ header_word l2 x.
Proof. unfold header_word. set_solver. Qed.

Lemma last_addr_ne bs a prev : Forall (λ b : block, b.1 ≠ a) bs → prev ≠ a → last_addr prev bs ≠ a.
Proof.
  revert prev. induction bs as [|b bs IH]; intros prev Hf Hp; [done|].
  apply Forall_cons in Hf as [Hb Hf]. rewrite last_addr_cons. by apply IH.
Qed.

Lemma apart_addr_ne c bs : apart c bs → FREE_HEADER ≤ c.2 → Forall (λ b : block, b.1 ≠ c.1) bs.
Proof.
  intros Ha Hc. eapply Forall_impl; [exact Ha|]. intros b [Hb Hd]. cbn in *.
  unfold FREE_HEADER in *. lia.
Qed.

Lemma last_addr_app prev l1 l2 : last_addr prev (l1 ++ l2) = last_addr (last_addr prev l1) l2.
Proof.
  revert prev. induction l1 as [|b l1 IH]; intros prev; [done|].
  by rewrite <- app_comm_cons, !last_addr_cons, IH.
Qed.

(** What is known of the list around a block. *)
Record split_at (h : Heap) (pre : list block) (a sz : Z) (post : list block) : Prop := {
  sa_block : block_ok (heap_size_in_bytes h) (a, sz);
  sa_pre_ok : Forall (block_ok (heap_size_in_bytes h)) pre;
  sa_post_ok : Forall (block_ok (heap_size_in_bytes h)) post;
  sa_pre : dseg (mem h) 0 (head h) pre a;
  sa_size : word (mem h) (size_of_block a) = sz;
  sa_prev : word (mem h) (prev_of a) = last_addr 0 pre;
  sa_next : word (mem h) (next_of a) = first_addr post;
  sa_post : dseg (mem h) a (first_addr post) post 0;
  sa_pre_sorted : sorted_blocks pre;
  sa_post_sorted : sorted_blocks post;
  sa_order : ∀ b c, b ∈ pre → c ∈ post → b.1 + b.2 ≤ c.1;
  sa_apart_pre : apart (a, sz) pre;
  sa_apart_post : apart (a, sz) post;
}.

Lemma heap_rep_split h pre a sz post : heap_rep h (pre ++ (a, sz) :: post) →
  split_at h pre a sz post.
Proof.
  intros [Hl _ Hs Hb _ _ _]. destruct (sorted_apart _ _ _ _ Hs Hb) as [Ha1 Ha2].
  apply sorted_app_inv in Hs as (Hs1 & Hs2 & H12). inversion Hs2; subst.
  apply Forall_app in Hb as [Hb1 [Hb2 Hb3]%Forall_cons].
  apply dseg_app in Hl as (r & Hl1 & -> & Hsz & Hp & Hl2).
  pose proof (dseg_first _ _ _ _ Hl2) as Hn. rewrite Hn in Hl2.
  split; try done. intros b c Hb Hc. apply H12; [done|by right].
Qed.

Lemma rev_case {B} (l : list B) : l = [] ∨ ∃ l' x, l = l' ++ [x].
Proof. induction l as [|x l _] using rev_ind; [by left|right; by exists l, x]. Qed.

(** The predecessor in a non-empty prefix. *)
Lemma dseg_last m p pre pa psz q : dseg m 0 p (pre ++ [(pa, psz)]) q →
  last_addr 0 (pre ++ [(pa, psz)]) = pa.
Proof. intros _. by rewrite last_addr_snoc. Qed.

Lemma frame_update P h h' : (∀ x, ¬ P x → word (mem h') x = word (mem h) x) →
  heap_size_in_bytes h' = heap_size_in_bytes h → initialized h' = initialized h →
  kernel_memory h' = kernel_memory h → frame P h h'.
Proof. by split. Qed.

(** Once the two neighbours are linked, the list without the block is represented. *)
Lemma heap_rep_removed h h' pre a sz post :
  heap_rep h (pre ++ (a, sz) :: post) → heap_size_in_bytes h' = heap_size_in_bytes h →
  initialized h' = initialized h → dseg (mem h') 0 (head h') (pre ++ post) 0 →
  tail h' = last_addr 0 (pre ++ post) → heap_rep h' (pre ++ post).
Proof.
  intros Hrep Hsz Hin Hl Ht. destruct (heap_rep_split _ _ _ _ _ Hrep).
  destruct Hrep as [_ _ _ _ ? ? ?]. split; rewrite ?Hsz, ?Hin; try done.
  - by apply sorted_app.
  - by apply Forall_app.
Qed.

Lemma tail_is_removed h pre a sz post : heap_rep h (pre ++ (a, sz) :: post) →
  (tail h =? a) = match post with [] => true | _ => false end.
Proof.
  intros Hrep. destruct (heap_rep_split _ _ _ _ _ Hrep) as [Hb _ _ _ _ _ _ _ _ _ _ _ Hap].
  rewrite (hr_tail _ _ Hrep), last_addr_app, last_addr_cons.
  destruct post as [|c post]; [cbn; lia|]. apply Z.eqb_neq. rewrite last_addr_cons.
  apply apart_addr_ne in Hap; [|apply Hb]. apply Forall_cons in Hap as [Hc Hap].
  by apply last_addr_ne.
Qed.

Lemma first_addr_ptr h post : Forall (block_ok (heap_size_in_bytes h)) post →
  first_addr post = 0 ∨
  KERNEL_HEAP_START ≤ first_addr post ≤ KERNEL_HEAP_START + heap_size_in_bytes h.
Proof.
  intros Hb. destruct post as [|[b sb] post]; [by left|]. apply Forall_cons in Hb as [Hb _].
  right. by eapply block_ok_ptr.
Qed.

Lemma last_addr_ptr h pre : Forall (block_ok (heap_size_in_bytes h)) pre →
  last_addr 0 pre = 0 ∨
  KERNEL_HEAP_START ≤ last_addr 0 pre ≤ KERNEL_HEAP_START + heap_size_in_bytes h.
Proof.
  intros Hb. destruct (rev_case pre) as [->|(pre0 & [pa psz] & ->)]; [by left|].
  rewrite last_addr_snoc. apply Forall_app in Hb as [_ [Hb _]%Forall_cons].
  right. by eapply block_ok_ptr.
Qed.

Lemma unlink_head_run h a sz post : heap_rep h ((a, sz) :: post) →
  ∃ h', unlink_head a (first_addr post) h = Ok tt h' ∧ heap_rep h' post ∧
    frame (header_word post) h h'.
Proof.
  intros Hrep. pose proof (tail_is_removed h [] a sz post Hrep) as Htail.
  pose proof (heap_rep_split h [] a sz post Hrep) as
    [Hb _ Hpostok Hpre Hsz _ _ Hpost _ Hs2 _ _ Hap2].
  destruct (hr_size _ _ Hrep) as [_ Hend]. cbn in Hpre.
  unfold unlink_head. erewrite bind_run by done. rewrite Hpre, Z.eqb_refl.
  erewrite bind_run by done. rewrite (bind_run _ _ _ _ _ (update_run _ h)).
  erewrite bind_run by (apply check_ptr_run; [done|by apply first_addr_ptr]).
  erewrite bind_run by (by apply unlink_next_run). erewrite bind_run by done.
  cbn [tail set_mem set_head]. rewrite Htail.
  pose proof (dseg_set_first_prev_list _ _ 0 _ _ _ Hs2 Hpostok Hpost) as Hd.
  assert (tail h = last_addr 0 ((a, sz) :: post)) as Ht by apply Hrep.
  rewrite last_addr_cons in Ht.
  destruct post as [|c post]; (eexists; split; [apply update_run || done|]); (split; [|split]);
    try done; try (intros x Hx; by apply set_first_prev_frame).
  - by apply (heap_rep_removed h _ [] a sz []).
  - apply (heap_rep_removed h _ [] a sz (c :: post)); try done. cbn [tail set_mem set_head app].
    rewrite Ht. by rewrite !last_addr_cons.
Qed.

Lemma unlink_middle_run h pre pa psz a sz post :
  heap_rep h ((pre ++ [(pa, psz)]) ++ (a, sz) :: post) →
  ∃ h', unlink_middle a pa (first_addr post) h = Ok tt h' ∧
    heap_rep h' ((pre ++ [(pa, psz)]) ++ post) ∧
    frame (header_word ((pre ++ [(pa, psz)]) ++ post)) h h'.
Proof.
  intros Hrep. pose proof (tail_is_removed _ _ _ _ _ Hrep) as Htail.
  pose proof (heap_rep_split _ _ _ _ _ Hrep) as
    [Hb Hpreok Hpostok Hpre Hsz _ _ Hpost Hs1 Hs2 Hord _ _].
  destruct (hr_size _ _ Hrep) as [_ Hend].
  pose proof Hpreok as [_ [Hpa _]%Forall_cons]%Forall_app.
  destruct (in_heap_fields _ _ _ Hpa) as (_ & Hin & _).
  destruct (sorted_apart pre (pa, psz) [] (heap_size_in_bytes h)) as [Happ _]; [done..|].
  assert (apart (pa, psz) post) as Happost.
  { apply Forall_forall. intros c Hc. rewrite Forall_forall in Hpostok.
    split; [apply (Hpostok c Hc)|]. right. apply (Hord (pa, psz)); [set_solver|done]. }
  assert (∀ x, x = next_of pa → ¬ header_word pre x ∧ ¬ header_word post x) as Hnx.
  { intros x ->. split; (apply (apart_header (pa, psz)); [done|apply Hpa|cbn; auto]). }
  unfold unlink_middle.
  erewrite bind_run by (apply check_ptr_run; [done|by apply first_addr_ptr]).
  erewrite bind_run by (by apply unlink_next_run).
  erewrite bind_run by (by apply store_run). erewrite bind_run by done.
  cbn [tail set_mem set_head]. rewrite Htail.
  set (m1 := set_first_prev (mem h) post pa).
  assert (dseg m1 0 (head h) (pre ++ [(pa, psz)]) a) as Hd1.
  { eapply dseg_frame; [|exact Hpre]. intros x Hx. apply set_first_prev_frame.
    intros (c & sc & Hc & Hxc). destruct Hx as (b & sb & Hbl & Hxb).
    rewrite Forall_forall in Hpreok, Hpostok.
    pose proof (Hpreok _ Hbl) as (_ & _ & _ & _ & ?). pose proof (Hord _ _ Hbl Hc).
    cbn in *. unfold size_of_block, next_of, prev_of, FREE_HEADER in *. lia. }
  pose proof (dseg_set_first_prev_list _ _ pa _ _ _ Hs2 Hpostok Hpost) as Hd2.
  assert (dseg (<[next_of pa := first_addr post]> m1) 0 (head h) ((pre ++ [(pa, psz)]) ++ post) 0) as Hd.
  { rewrite dseg_app. exists (first_addr post). split.
    - eapply dseg_set_last_next; [exact Hd1|]. by apply Hnx.
    - rewrite last_addr_snoc. apply dseg_insert_frame; [by apply Hnx|done]. }
  assert (∀ x, ¬ header_word ((pre ++ [(pa, psz)]) ++ post) x →
    word (<[next_of pa := first_addr post]> m1) x = word (mem h) x) as Hfr.
  { intros x Hx. rewrite !header_word_app in Hx. rewrite word_insert_ne.
    - apply set_first_prev_frame. tauto.
    - intros <-. apply Hx. left. right. exists pa, psz. split; [set_solver|auto]. }
  assert (tail h = last_addr a post) as Ht.
  { rewrite (hr_tail _ _ Hrep), last_addr_app, last_addr_cons. done. }
  destruct post as [|c post]; (eexists; split; [apply update_run || done|]); (split; [|by split]);
    (eapply heap_rep_removed; [exact Hrep|done..|]); cbn [tail set_mem set_head set_tail];
    rewrite last_addr_app, last_addr_snoc; [done|].
  by rewrite Ht, !last_addr_cons.
Qed.

Lemma remove_current_run h pre a sz post : heap_rep h (pre ++ (a, sz) :: post) →
  ∃ h', remove_current a h = Ok (first_addr post, Some {| fb_address := a; fb_size := sz |}) h' ∧
    heap_rep h' (pre ++ post) ∧ frame (header_word (pre ++ post)) h h'.
Proof.
  intros Hrep. pose proof (heap_rep_split _ _ _ _ _ Hrep) as
    [Hb Hpreok Hpostok _ Hsz Hprev Hnext _ _ _ _ Hap1 Hap2].
  destruct (block_ok_ptr _ _ _ Hb) as [Hn0 _].
  destruct (in_heap_fields _ _ _ Hb) as (Hi1 & Hi2 & Hi3).
  destruct (hr_size _ _ Hrep) as [_ Hend].
  unfold remove_current. replace (a =? 0) with false by lia.
  rewrite (bind_run _ _ _ _ _ (load_run h _ Hi3)), Hprev.
  erewrite bind_run by (apply check_ptr_run; [done|by apply last_addr_ptr]).
  rewrite (bind_run _ _ _ _ _ (load_run h _ Hi2)), Hnext.
  assert (∃ h', (if last_addr 0 pre =? 0 then unlink_head a (first_addr post)
     else unlink_middle a (last_addr 0 pre) (first_addr post)) h = Ok tt h' ∧
    heap_rep h' (pre ++ post) ∧ frame (header_word (pre ++ post)) h h') as (h' & Hun & Hrep' & Hfr).
  { destruct (rev_case pre) as [->|(pre0 & [pa psz] & ->)].
    - by apply (unlink_head_run h a sz post).
    - rewrite last_addr_snoc. apply Forall_app in Hpreok as [_ [Hpa _]%Forall_cons].
      destruct (block_ok_ptr _ _ _ Hpa) as [Hpa0 _]. cbn [fst].
      replace (pa =? 0) with false by lia. by eapply unlink_middle_run. }
  erewrite bind_run by exact Hun. pose proof Hfr as [Hm Hs _ _].
  assert (word (mem h') (size_of_block a) = sz) as Hw.
  { rewrite Hm; [done|]. rewrite header_word_app.
    intros [Hx|Hx]; (eapply (apart_header (a, sz)) in Hx; [done|done|apply Hb|cbn; auto]). }
  erewrite bind_run.
  2: { apply load_run. unfold in_heap. rewrite Hs. exact Hi1. }
  rewrite Hw, new_FreeBlock_run by apply Hb. run_step. by eexists.
Qed.

(** *** [insert_before_current] *)

(** A new header and its links in place, the longer list is represented. *)
Lemma heap_rep_inserted h h' pre a sz post :
  heap_rep h (pre ++ post) → block_ok (heap_size_in_bytes h) (a, sz) →
  sorted_blocks (pre ++ (a, sz) :: post) →
  heap_size_in_bytes h' = heap_size_in_bytes h → initialized h' = initialized h →
  word (mem h') (size_of_block a) = sz → word (mem h') (prev_of a) = last_addr 0 pre →
  word (mem h') (next_of a) = first_addr post →
  dseg (mem h') 0 (head h') pre a → dseg (mem h') a (first_addr post) post 0 →
  tail h' = last_addr 0 (pre ++ (a, sz) :: post) → heap_rep h' (pre ++ (a, sz) :: post).
Proof.
  intros [_ _ _ Hb ? ? ?] Hok Hs Hsz Hin Hw1 Hw2 Hw3 Hd1 Hd2 Ht.
  split; rewrite ?Hsz, ?Hin; try done.
  - apply dseg_app. exists a. split; [done|]. cbn. rewrite Hw3. done.
  - apply Forall_app in Hb as [? ?]. apply Forall_app. split; [done|by constructor].
Qed.

(** The situation before an insertion. *)
Record gap (h : Heap) (pre : list block) (a sz : Z) (post : list block) : Prop := {
  gp_rep : heap_rep h (pre ++ post);
  gp_block : block_ok (heap_size_in_bytes h) (a, sz);
  gp_sorted : sorted_blocks (pre ++ (a, sz) :: post);
  gp_pre_ok : Forall (block_ok (heap_size_in_bytes h)) pre;
  gp_post_ok : Forall (block_ok (heap_size_in_bytes h)) post;
  gp_pre : dseg (mem h) 0 (head h) pre (first_addr post);
  gp_post : dseg (mem h) (last_addr 0 pre) (first_addr post) post 0;
  gp_apart_pre : apart (a, sz) pre;
  gp_apart_post : apart (a, sz) post;
  gp_size : word (mem h) (size_of_block a) = sz;
}.

Lemma apart_word c bs : apart c bs → FREE_HEADER ≤ c.2 →
  ¬ header_word bs (size_of_block c.1) ∧ ¬ header_word bs (next_of c.1) ∧
  ¬ header_word bs (prev_of c.1).
Proof. intros Ha Hc. split_and!; (eapply apart_header; [exact Ha|done|auto]). Qed.

(** Writing the header of a block outside a chain. *)
Ltac dseg_skip :=
  repeat match goal with
  | |- dseg (<[_ := _]> _) _ _ _ _ => apply dseg_insert_frame; [tauto|]
  end; try eassumption.

Lemma gap_facts h pre a sz post : gap h pre a sz post →
  a ≠ 0 ∧ in_heap h (size_of_block a) = true ∧ in_heap h (next_of a) = true ∧
  in_heap h (prev_of a) = true ∧
  (¬ header_word pre (size_of_block a) ∧ ¬ header_word pre (next_of a) ∧ ¬ header_word pre (prev_of a)) ∧
  (¬ header_word post (size_of_block a) ∧ ¬ header_word post (next_of a) ∧
   ¬ header_word post (prev_of a)).
Proof.
  intros [_ Hb _ _ _ _ _ H1 H2 _]. destruct (in_heap_fields _ _ _ Hb) as (? & ? & ?).
  split_and!; try done; try (by eapply block_ok_ptr);
    first [eapply (apart_word (a, sz) pre)|eapply (apart_word (a, sz) post)]; try done; apply Hb.
Qed.

Lemma insert_at_head_run h a sz post : gap h [] a sz post →
  ∃ h', insert_at_head a h = Ok tt h' ∧ heap_rep h' ((a, sz) :: post) ∧
    frame (header_word ((a, sz) :: post)) h h'.
Proof.
  intros Hg. destruct (gap_facts _ _ _ _ _ Hg) as (Ha0 & Hi1 & Hi2 & Hi3 & _ & Hn1 & Hn2 & Hn3).
  destruct Hg as [Hrep Hb Hs _ Hok Hhead Hpost _ _ Hsz]. cbn in Hrep, Hhead, Hpost.
  pose proof (hr_tail _ _ Hrep) as Htail.
  unfold insert_at_head. erewrite bind_run by done. rewrite Hhead.
  rewrite (bind_run _ _ _ _ _ (store_run h _ _ Hi2)).
  erewrite bind_run by (by apply store_run). cbn [mem set_mem].
  set (m2 := <[prev_of a := 0]> (<[next_of a := first_addr post]> (mem h))).
  assert (dseg m2 0 (first_addr post) post 0) as Hd2 by (unfold m2; dseg_skip).
  assert (sorted_blocks post) as Hsp by (by inversion Hs).
  destruct (field_ne a) as (? & ? & ?).
  assert ((if first_addr post =? 0 then mret tt else store (prev_of (first_addr post)) a)
    (set_mem h m2) = Ok tt (set_mem h (set_first_prev m2 post a))) as Hst.
  { destruct post as [|[b sb] post]; [done|]. cbn [first_addr set_first_prev].
    apply Forall_cons in Hok as [Hbk _]. destruct (block_ok_ptr _ _ _ Hbk) as [? _].
    destruct (in_heap_fields _ _ _ Hbk) as (_ & _ & Hp). replace (b =? 0) with false by lia.
    by apply (store_run (set_mem h m2)). }
  erewrite bind_run by exact Hst.
  assert (tail h = 0 ↔ post = []) as Htl.
  { rewrite Htail. split; [|by intros ->]. destruct (rev_case post) as [->|(l & [b sb] & ->)]; [done|].
    rewrite last_addr_snoc. apply Forall_app in Hok as [_ [Hbk _]%Forall_cons].
    by destruct (block_ok_ptr _ _ _ Hbk). }
  set (h3 := set_mem h (set_first_prev m2 post a)).
  assert ((if tail h =? 0 then update (λ h, set_tail h a) else mret tt) h3
    = Ok tt (set_tail h3 (last_addr a post))) as Ht.
  { destruct (Z.eqb_spec (tail h) 0) as [E|E].
    - apply Htl in E as ->. done.
    - destruct post as [|c post]; [tauto|]. rewrite !last_addr_cons in *. unfold h3.
      rewrite <- Htail. by destruct h. }
  erewrite bind_run by exact Ht. eexists. split; [apply update_run|].
  assert (∀ x, ¬ header_word post x → word (set_first_prev m2 post a) x = word m2 x) as Hsf
    by (intros; by apply set_first_prev_frame).
  split; [|split; try done].
  - apply (heap_rep_inserted h _ [] a sz post); try done; cbn [mem set_head set_tail set_mem h3].
    + rewrite Hsf by done. unfold m2. by rewrite !word_insert_ne by congruence.
    + rewrite Hsf by done. unfold m2. by rewrite word_insert_eq.
    + rewrite Hsf by done. unfold m2. by rewrite word_insert_ne, word_insert_eq by congruence.
    + by eapply dseg_set_first_prev_list.
    + cbn [tail set_head set_tail app]. by rewrite last_addr_cons.
  - intros x Hx. cbn [mem set_head set_tail set_mem h3].
    rewrite (header_word_app [(a, sz)] post) in Hx. rewrite Hsf by tauto.
    assert (∀ y, y = size_of_block a ∨ y = next_of a ∨ y = prev_of a → y ≠ x) as Hne.
    { intros y Hy ->. apply Hx. left. exists a, sz. split; [left|done]. }
    unfold m2. by rewrite !word_insert_ne by (apply Hne; auto).
Qed.

Lemma insert_at_end_run h pre pa psz a sz : gap h (pre ++ [(pa, psz)]) a sz [] →
  ∃ h', insert_at_end a h = Ok tt h' ∧ heap_rep h' ((pre ++ [(pa, psz)]) ++ [(a, sz)]) ∧
    frame (header_word ((pre ++ [(pa, psz)]) ++ [(a, sz)])) h h'.
Proof.
  intros Hg. destruct (gap_facts _ _ _ _ _ Hg) as (Ha0 & Hi1 & Hi2 & Hi3 & (Hn1 & Hn2 & Hn3) & _).
  destruct Hg as [Hrep Hb Hs Hok _ Hpre _ _ _ Hsz]. cbn [first_addr] in Hpre.
  rewrite app_nil_r in Hrep. pose proof (hr_tail _ _ Hrep) as Htail. rewrite last_addr_snoc in Htail.
  cbn [fst] in Htail. pose proof Hok as [_ [Hpa _]%Forall_cons]%Forall_app.
  destruct (block_ok_ptr _ _ _ Hpa) as [Hpa0 Hpap]. destruct (hr_size _ _ Hrep) as [_ Hend].
  destruct (in_heap_fields _ _ _ Hpa) as (_ & Hin & _).
  destruct (sorted_apart pre (pa, psz) [] (heap_size_in_bytes h)) as [Happ _];
    [by apply sorted_app_inv in Hs as (? & _)|done|].
  destruct (apart_word _ _ Happ) as (_ & Hnp & _); [apply Hpa|]. cbn [fst] in Hnp.
  unfold insert_at_end. erewrite bind_run by done. rewrite Htail.
  erewrite bind_run by (apply check_ptr_run; [done|by right]).
  replace (pa =? 0) with false by lia. rewrite (bind_run _ _ _ _ _ (load_run h _ Hin)).
  assert (word (mem h) (next_of pa) = 0) as Hnext.
  { apply dseg_app in Hpre as (r & _ & Hl). cbn in Hl. tauto. }
  rewrite Hnext. erewrite bind_run by done.
  rewrite (bind_run _ _ _ _ _ (store_run h _ _ Hin)).
  erewrite bind_run by (by apply store_run). erewrite bind_run by (by apply store_run).
  cbn [mem set_mem]. eexists. split; [apply update_run|].
  assert (∀ y, y = size_of_block a ∨ y = next_of a ∨ y = prev_of a → y ≠ next_of pa) as Hne.
  { intros y Hy ->. assert (header_word (pre ++ [(pa, psz)]) (next_of pa)) as Hh.
    { exists pa, psz. split; [set_solver|auto]. }
    destruct Hy as [E|[E|E]]; rewrite E in Hh; tauto. }
  destruct (field_ne a) as (? & ? & ?).
  split; [|split; try done].
  - apply (heap_rep_inserted h _ (pre ++ [(pa, psz)]) a sz []); try done;
      rewrite ?app_nil_r; try done; cbn [mem set_head set_tail set_mem head].
    + rewrite !word_insert_ne by (congruence || apply not_eq_sym, Hne; auto). done.
    + rewrite word_insert_eq, last_addr_snoc. done.
    + by rewrite word_insert_ne, word_insert_eq by congruence.
    + do 2 (apply dseg_insert_frame; [done|]). by eapply dseg_set_last_next.
    + cbn [tail set_tail set_mem]. by rewrite last_addr_snoc.
  - intros x Hx. cbn [mem set_head set_tail set_mem]. rewrite header_word_app in Hx.
    rewrite !word_insert_ne; [done|..]; intros <-; apply Hx.
    + left. exists pa, psz. split; [set_solver|auto].
    + right. exists a, sz. split; [left|auto].
    + right. exists a, sz. split; [left|auto].
Qed.

Lemma insert_in_middle_run h pre pa psz a sz b sb post :
  gap h (pre ++ [(pa, psz)]) a sz ((b, sb) :: post) →
  ∃ h', insert_in_middle b a h = Ok tt h' ∧
    heap_rep h' ((pre ++ [(pa, psz)]) ++ (a, sz) :: (b, sb) :: post) ∧
    frame (header_word ((pre ++ [(pa, psz)]) ++ (a, sz) :: (b, sb) :: post)) h h'.
Proof.
  intros Hg. destruct (gap_facts _ _ _ _ _ Hg)
    as (Ha0 & Hi1 & Hi2 & Hi3 & (Hn1 & Hn2 & Hn3) & Hm1 & Hm2 & Hm3).
  destruct Hg as [Hrep Hb Hs Hok Hokp Hpre Hpost _ _ Hsz]. cbn [first_addr] in *.
  rewrite last_addr_snoc in Hpost. cbn [fst] in Hpost.
  pose proof Hok as [_ [Hpa _]%Forall_cons]%Forall_app.
  pose proof Hokp as [Hbb _]%Forall_cons.
  destruct (block_ok_ptr _ _ _ Hpa) as [Hpa0 _].
  destruct (in_heap_fields _ _ _ Hpa) as (_ & Hin & _).
  destruct (in_heap_fields _ _ _ Hbb) as (_ & _ & Hib).
  pose proof (hr_sorted _ _ Hrep) as Hs0.
  destruct (sorted_apart pre (pa, psz) ((b, sb) :: post) (heap_size_in_bytes h)) as [Happ Hapq].
  { by rewrite <- app_assoc in Hs0. }
  { pose proof (hr_blocks _ _ Hrep) as Hbs. by rewrite <- app_assoc in Hbs. }
  destruct (sorted_apart (pre ++ [(pa, psz)]) (b, sb) post (heap_size_in_bytes h)) as [Hbpp Hbpq];
    [done|apply Hrep|].
  destruct (apart_word _ _ Happ) as (_ & Hnp & _); [apply Hpa|].
  destruct (apart_word _ _ Hapq) as (_ & Hnq & _); [apply Hpa|].
  destruct (apart_word _ _ Hbpp) as (_ & _ & Hbp); [apply Hbb|].
  destruct (apart_word _ _ Hbpq) as (_ & _ & Hbq); [apply Hbb|]. cbn [fst] in *.
  assert (word (mem h) (prev_of b) = pa) as Hprev by (cbn in Hpost; tauto).
  assert (header_word (pre ++ [(pa, psz)]) (next_of pa)) as Hhp.
  { exists pa, psz. split; [set_solver|auto]. }
  assert (header_word ((b, sb) :: post) (prev_of b)) as Hhb.
  { exists b, sb. split; [left|auto]. }
  unfold insert_in_middle. rewrite (bind_run _ _ _ _ _ (store_run h _ _ Hi2)).
  erewrite bind_run by (by apply load_run). cbn [mem set_mem].
  rewrite word_insert_ne, Hprev by (intros E; rewrite <- E in Hhb; tauto).
  erewrite bind_run by (by apply store_run). replace (pa =? 0) with false by lia.
  erewrite bind_run by (by apply store_run). cbn [mem set_mem].
  eexists. split; [by apply store_run|]. cbn [mem set_mem].
  destruct (field_ne a) as (? & ? & ?).
  assert (∀ y, y = size_of_block a ∨ y = next_of a ∨ y = prev_of a →
    y ≠ next_of pa ∧ y ≠ prev_of b) as Hne.
  { intros y Hy. split; intros ->; destruct Hy as [E|[E|E]]; rewrite E in *; tauto. }
  assert (next_of pa ≠ prev_of b) as Hpb by (intros E; rewrite E in Hhp; tauto).
  set (m2 := <[prev_of a := pa]> (<[next_of a := b]> (mem h))).
  split; [|split; try done].
  - apply (heap_rep_inserted h _ (pre ++ [(pa, psz)]) a sz ((b, sb) :: post)); try done;
      cbn [mem set_head set_tail set_mem head first_addr].
    + destruct (Hne (size_of_block a)) as [? ?]; [auto|]. unfold m2.
      by rewrite !word_insert_ne by congruence.
    + destruct (Hne (prev_of a)) as [? ?]; [auto|]. unfold m2.
      rewrite !(word_insert_ne _ _ (prev_of a)) by congruence.
      by rewrite word_insert_eq, last_addr_snoc.
    + destruct (Hne (next_of a)) as [? ?]; [auto|]. unfold m2.
      rewrite !(word_insert_ne _ _ (next_of a)) by congruence. by rewrite word_insert_eq.
    + apply dseg_insert_frame; [done|]. eapply dseg_set_last_next; [|done].
      unfold m2. dseg_skip.
    + eapply dseg_set_first_prev; [|done]. apply dseg_insert_frame; [done|].
      unfold m2. dseg_skip.
    + cbn [tail set_mem]. rewrite (hr_tail _ _ Hrep), !last_addr_app, !last_addr_cons. done.
  - intros x Hx. cbn [mem set_head set_tail set_mem]. rewrite !header_word_app in Hx.
    assert (∀ y, y = size_of_block a ∨ y = next_of a ∨ y = prev_of a → y ≠ x) as Hax.
    { intros y Hy <-. apply Hx. right. exists a, sz. split; [left|done]. }
    assert (next_of pa ≠ x) by (intros <-; rewrite header_word_app in Hhp; tauto).
    assert (prev_of b ≠ x).
    { intros <-. apply Hx. right. exists b, sb. split; [right; left|auto]. }
    unfold m2. by rewrite !word_insert_ne by (assumption || apply Hax; auto).
Qed.

Lemma insert_before_current_run h pre a sz post :
  heap_rep h (pre ++ post) → block_ok (heap_size_in_bytes h) (a, sz) →
  sorted_blocks (pre ++ (a, sz) :: post) →
  ∃ h', insert_before_current (first_addr post) {| fb_address := a; fb_size := sz |} h = Ok tt h' ∧
    heap_rep h' (pre ++ (a, sz) :: post) ∧ frame (header_word (pre ++ (a, sz) :: post)) h h'.
Proof.
  intros Hrep Hb Hs. destruct (block_ok_ptr _ _ _ Hb) as [Ha0 Hptr].
  destruct (in_heap_fields _ _ _ Hb) as (Hi1 & _ & _). destruct (hr_size _ _ Hrep) as [_ Hend].
  assert (apart (a, sz) pre ∧ apart (a, sz) post) as [Hap1 Hap2].
  { eapply sorted_apart; [exact Hs|]. pose proof (hr_blocks _ _ Hrep) as [? ?]%Forall_app.
    apply Forall_app. split; [done|by constructor]. }
  unfold insert_before_current. cbn [fb_size fb_address].
  replace (sz =? 0) with false by (destruct Hb as (_ & _ & _ & _ & Hsz); cbn in Hsz; unfold FREE_HEADER in Hsz; lia).
  erewrite bind_run by done. erewrite bind_run by (apply check_ptr_run; [done|by right]).
  replace (a =? 0) with false by lia. erewrite bind_run by done.
  rewrite (bind_run _ _ _ _ _ (store_run h _ sz Hi1)). erewrite bind_run by done.
  set (h1 := set_mem h _). change (head h1) with (head h).
  destruct (apart_word _ _ Hap1) as (Hw1 & _ & _); [apply Hb|].
  destruct (apart_word _ _ Hap2) as (Hw2 & _ & _); [apply Hb|]. cbn [fst] in Hw1, Hw2.
  pose proof (hr_list _ _ Hrep) as (r & Hd1 & Hd2)%dseg_app.
  pose proof (dseg_first _ _ _ _ Hd2) as ->.
  assert (gap h1 pre a sz post) as Hg.
  { pose proof (hr_blocks _ _ Hrep) as [? ?]%Forall_app. destruct Hrep as [Hl ? ? ? ? ? ?].
    split; try done; try (apply word_insert_eq); try (by apply dseg_insert_frame).
    split; try done. apply dseg_insert_frame; [|done]. rewrite header_word_app. tauto. }
  assert (∀ h', frame (header_word (pre ++ (a, sz) :: post)) h1 h' →
                frame (header_word (pre ++ (a, sz) :: post)) h h') as Hframe.
  { intros h' [Hm ? ? ?]. split; try done. intros x Hx. rewrite (Hm x Hx). unfold h1. cbn.
    apply word_insert_ne. intros <-. apply Hx. exists a, sz. split; [set_solver|auto]. }
  destruct (rev_case pre) as [->|(pre0 & [pa psz] & ->)].
  - cbn in Hd1. rewrite Hd1, Z.eqb_refl. destruct (insert_at_head_run h1 a sz post Hg) as (h' & ? & ? & ?).
    exists h'. split_and!; [done..|]. by apply Hframe.
  - pose proof (gp_pre_ok _ _ _ _ _ Hg) as Hok.
    assert (head h = first_addr (pre0 ++ [(pa, psz)])) as Hhd.
    { rewrite (dseg_first _ _ _ _ (hr_list _ _ Hrep)). by destruct pre0 as [|[]]. }
    assert (∃ p0 s0, (p0, s0) ∈ pre0 ++ [(pa, psz)] ∧ head h = p0) as (p0 & s0 & Hel & Hh0).
    { rewrite Hhd. destruct pre0 as [|[c sc] pre0]; cbn; [exists pa, psz|exists c, sc];
        (split; [left|done]). }
    rewrite Forall_forall in Hok. destruct (block_ok_ptr _ _ _ (Hok _ Hel)) as [Hp0 _].
    destruct post as [|[b sb] post]; cbn [first_addr].
    + replace (0 =? head h) with false by lia. rewrite Z.eqb_refl.
      destruct (insert_at_end_run h1 pre0 pa psz a sz Hg) as (h' & ? & ? & ?).
      exists h'. split_and!; [done..|]. by apply Hframe.
    + pose proof (gp_post_ok _ _ _ _ _ Hg) as [Hbb _]%Forall_cons.
      destruct (block_ok_ptr _ _ _ Hbb) as [Hb0 _].
      apply sorted_app_inv in Hs as (_ & _ & H12).
      pose proof (H12 (p0, s0) (b, sb) Hel ltac:(right; left)) as Hlt.
      destruct (Hok _ Hel) as (_ & _ & _ & _ & Hs0). cbn in Hlt, Hs0. unfold FREE_HEADER in Hs0.
      replace (b =? head h) with false by lia. replace (b =? 0) with false by lia.
      destruct (insert_in_middle_run h1 pre0 pa psz a sz b sb post Hg) as (h' & ? & ? & ?).
      exists h'. split_and!; [done..|]. by apply Hframe.
Qed.

(** *** Moving and growing *)

Lemma current_run h pre a sz post : heap_rep h (pre ++ (a, sz) :: post) →
  current a h = Ok (Some {| fb_address := a; fb_size := sz |}) h.
Proof.
  intros Hrep. destruct (heap_rep_split _ _ _ _ _ Hrep) as [Hb _ _ _ Hsz _ _ _ _ _ _ _ _].
  destruct (block_ok_ptr _ _ _ Hb) as [Ha0 _]. destruct (in_heap_fields _ _ _ Hb) as (Hi1 & _).
  unfold current. replace (a =? 0) with false by lia.
  rewrite (bind_run _ _ _ _ _ (load_run h _ Hi1)), Hsz, new_FreeBlock_run by apply Hb. done.
Qed.

Lemma move_next_run h pre a sz post : heap_rep h (pre ++ (a, sz) :: post) →
  move_next a h = Ok (first_addr post) h.
Proof.
  intros Hrep. destruct (heap_rep_split _ _ _ _ _ Hrep) as [Hb _ Hok _ _ _ Hn _ _ _ _ _ _].
  destruct (block_ok_ptr _ _ _ Hb) as [Ha0 _]. destruct (in_heap_fields _ _ _ Hb) as (_ & Hi2 & _).
  destruct (hr_size _ _ Hrep) as [_ Hend].
  unfold move_next. replace (a =? 0) with false by lia.
  rewrite (bind_run _ _ _ _ _ (load_run h _ Hi2)), Hn.
  erewrite bind_run by (apply check_ptr_run; [done|by apply first_addr_ptr]). done.
Qed.

Lemma cursor_run h bs : heap_rep h bs → cursor h = Ok (first_addr bs) h.
Proof.
  intros Hrep. pose proof (dseg_first _ _ _ _ (hr_list _ _ Hrep)) as Hh.
  destruct (hr_size _ _ Hrep) as [_ Hend]. unfold cursor. erewrite bind_run by done.
  rewrite Hh. erewrite bind_run by (apply check_ptr_run; [done|apply first_addr_ptr, Hrep]). done.
Qed.

Lemma extend_current_run h pre a sz post n : heap_rep h (pre ++ (a, sz) :: post) →
  0 ≤ n → block_ok (heap_size_in_bytes h) (a, sz + n) → sorted_blocks (pre ++ (a, sz + n) :: post) →
  ∃ h', extend_current a n h = Ok tt h' ∧ heap_rep h' (pre ++ (a, sz + n) :: post) ∧
    frame (header_word (pre ++ (a, sz + n) :: post)) h h'.
Proof.
  intros Hrep Hn Hb' Hs'. pose proof (heap_rep_split _ _ _ _ _ Hrep) as
    [Hb Hok1 Hok2 Hpre Hsz Hprev Hnext Hpost Hs1 Hs2 Hord Hap1 Hap2].
  destruct (block_ok_ptr _ _ _ Hb) as [Ha0 _]. destruct (in_heap_fields _ _ _ Hb) as (Hi1 & _ & _).
  destruct (hr_size _ _ Hrep) as [Hz Hend]. pose proof (hr_tail _ _ Hrep) as Ht.
  destruct (apart_word _ _ Hap1) as (Hw1 & _ & _); [apply Hb|].
  destruct (apart_word _ _ Hap2) as (Hw2 & _ & _); [apply Hb|]. cbn [fst] in Hw1, Hw2.
  destruct (field_ne a) as (? & ? & ?).
  unfold extend_current. replace (a =? 0) with false by lia.
  rewrite (bind_run _ _ _ _ _ (load_run h _ Hi1)), Hsz. erewrite bind_run.
  2: { apply lift_Ok. split; [apply uadd_Some; split; [done|]|done].
       destruct Hb' as (? & ? & _). cbn in *. unfold KERNEL_HEAP_START in *. lia. }
  eexists. split; [by apply store_run|]. split.
  - destruct Hrep as [_ _ _ _ ? ? ?]. split; try done; cbn [mem set_mem head tail].
    + apply dseg_app. exists a. split; [by apply dseg_insert_frame|]. cbn.
      rewrite word_insert_eq, !word_insert_ne by congruence. split_and!; [done..|].
      rewrite Hnext. by apply dseg_insert_frame.
    + rewrite Ht, !last_addr_app, !last_addr_cons. done.
    + apply Forall_app. split; [done|by constructor].
  - split; try done. intros x Hx. apply word_insert_ne. intros <-. apply Hx.
    exists a, (sz + n). split; [set_solver|auto].
Qed.

(** ** The free bytes *)

Definition in_block (b : block) (x : Z) : Prop := b.1 ≤ x < b.1 + b.2.
Definition in_blocks (bs : list block) (x : Z) : Prop := ∃ b, b ∈ bs ∧ in_block b x.

Lemma in_blocks_app l1 l2 x : in_blocks (l1 ++ l2) x ↔ in_blocks l1 x ∨ in_blocks l2 x.
Proof. unfold in_blocks. set_solver. Qed.
Lemma in_blocks_cons b l x : in_blocks (b :: l) x ↔ in_block b x ∨ in_blocks l x.
Proof. unfold in_blocks. set_solver. Qed.
Lemma in_blocks_nil x : in_blocks [] x ↔ False.
Proof. unfold in_blocks. set_solver. Qed.

Lemma header_in_blocks hs bs x : Forall (block_ok hs) bs → header_word bs x → in_blocks bs x.
Proof.
  rewrite Forall_forall. intros Hb (a & sz & Hel & Hx). exists (a, sz). split; [done|].
  destruct (Hb _ Hel) as (_ & _ & _ & _ & Hs).
  unfold in_block, size_of_block, next_of, prev_of, FREE_HEADER in *. cbn in *. lia.
Qed.

Lemma frame_weaken (P Q : Z → Prop) h h' : frame P h h' → (∀ x, P x → Q x) → frame Q h h'.
Proof. intros [Hm ? ? ?] Hpq. split; try done. intros x Hx. apply Hm. intros Hp. by apply Hx, Hpq. Qed.

Lemma frame_trans P Q h1 h2 h3 : frame P h1 h2 → frame Q h2 h3 → frame (λ x, P x ∨ Q x) h1 h3.
Proof.
  intros [M1 S1 I1 K1] [M2 S2 I2 K2]. split; [|congruence..].
  intros x Hx. rewrite M2, M1; [done|tauto..].
Qed.
