(* ===== verification/HeapAlloc.v ===== *)
(** [KernelGlobalAlloc]: what allocation and deallocation do to the free bytes and to the
    live blocks of the heap. *)
From S2P Require Import Prelude BitField Addresses PhysAlloc Frames PageEntry Paging Heap HeapSpec.
From Stdlib Require Import Sorting.Sorted.

(** *** [add_free_block] *)

Lemma heap_no_wrap h a sz : heap_size_in_bytes h + KERNEL_HEAP_START < U64 →
  block_ok (heap_size_in_bytes h) (a, sz) → VirtualAddress.add a sz = a + sz.
Proof.
  intros Hh (? & ? & ? & ? & Hs). cbn in *. apply wrapping_add_small.
  unfold FREE_HEADER, KERNEL_HEAP_START in *. lia.
Qed.

(** A single free block holds the bytes [a..a+sz]. *)
Definition has_room (bs : list block) (a sz : Z) : Prop :=
  ∃ b, b ∈ bs ∧ b.1 ≤ a ∧ a + sz ≤ b.1 + b.2.

(** What adding the block [(a, sz)] to the free list comes to. *)
Definition added (h : Heap) (bs : list block) (a sz : Z) (h' : Heap) : Prop :=
  ∃ bs', heap_rep h' bs' ∧ (∀ x, in_blocks bs' x ↔ in_blocks bs x ∨ in_block (a, sz) x) ∧
         frame (in_blocks bs') h h' ∧ has_room bs' a sz.

Lemma added_inserted h pre a sz post h' : heap_rep h' (pre ++ (a, sz) :: post) →
  frame (header_word (pre ++ (a, sz) :: post)) h h' → added h (pre ++ post) a sz h'.
Proof.
  intros Hrep Hf. exists (pre ++ (a, sz) :: post). split; [done|]. split_and!.
  - intros x. rewrite !in_blocks_app, in_blocks_cons. tauto.
  - eapply frame_weaken; [exact Hf|]. intros x. eapply header_in_blocks, hr_blocks, Hrep.
  - exists (a, sz). split; [set_solver|cbn; lia].
Qed.

Lemma sorted_snoc_cons (pre : list block) b post : sorted_blocks (pre ++ post) →
  Forall (λ c : block, c.1 + c.2 ≤ b.1) pre → Forall (λ c : block, b.1 + b.2 ≤ c.1) post →
  sorted_blocks (pre ++ b :: post).
Proof.
  intros Hs Hpre Hpost. apply sorted_app_inv in Hs as (Hs1 & Hs2 & H12).
  apply sorted_app; [done|by constructor|]. rewrite Forall_forall in Hpre.
  intros c d Hc [->|Hd]%elem_of_cons; [by apply Hpre|by apply H12].
Qed.

Lemma adjacency_run h (a sz b sb : Z) : heap_size_in_bytes h + KERNEL_HEAP_START < U64 →
  block_ok (heap_size_in_bytes h) (a, sz) → block_ok (heap_size_in_bytes h) (b, sb) →
  check_adjacency {| fb_address := a; fb_size := sz |} {| fb_address := b; fb_size := sb |} =
    if a + sz =? b then Before else if a =? b + sb then After else NotAdjacent.
Proof.
  intros Hh Ha Hb. unfold check_adjacency. cbn.
  by rewrite (heap_no_wrap h a sz Hh Ha), (heap_no_wrap h b sb Hh Hb).
Qed.

Lemma merged_ok hs a sz b sb : block_ok hs (a, sz) → block_ok hs (b, sb) → a + sz = b →
  block_ok hs (a, sz + sb).
Proof. unfold block_ok, FREE_HEADER. cbn. intros. dlia. Qed.

Lemma sorted_tail_bound (pre : list block) b post : sorted_blocks (pre ++ b :: post) →
  Forall (λ c : block, b.1 + b.2 ≤ c.1) post.
Proof. intros (_ & H & _)%sorted_app_inv. by inversion H. Qed.

Lemma sorted_without (pre : list block) b post : sorted_blocks (pre ++ b :: post) →
  sorted_blocks (pre ++ post).
Proof.
  intros (? & Hs2 & H12)%sorted_app_inv. inversion Hs2; subst.
  apply sorted_app; [done..|]. intros c d Hc Hd. apply H12; [done|by right].
Qed.

(** [BlockAdjacency::Before]: the block in the list is replaced by the merged one. *)
Lemma add_before_run h pre a sz b sb post : heap_rep h (pre ++ (b, sb) :: post) →
  block_ok (heap_size_in_bytes h) (a, sz) → a + sz = b → Forall (λ c : block, c.1 + c.2 ≤ a) pre →
  ∃ h', ('(cur', _) ← remove_current b;
         size ← lift (uadd sz sb);
         insert_before_current cur' {| fb_address := a; fb_size := size |}) h = Ok tt h' ∧
    added h (pre ++ (b, sb) :: post) a sz h'.
Proof.
  intros Hrep Hok Hab Hpre. pose proof (hr_sorted _ _ Hrep) as Hs.
  destruct (hr_size _ _ Hrep) as [Hz Hend].
  pose proof (hr_blocks _ _ Hrep) as [_ [Hbb _]%Forall_cons]%Forall_app.
  pose proof (sorted_tail_bound _ _ _ Hs) as Htb.
  pose proof (merged_ok _ _ _ _ _ Hok Hbb Hab) as Hmok.
  destruct (remove_current_run h pre b sb post Hrep) as (h1 & Hrm & Hrep1 & Hfr1).
  erewrite bind_run by exact Hrm. cbv beta iota. pose proof Hfr1 as [_ Hsz1 _ _].
  erewrite bind_run.
  2: { apply lift_Ok. split; [apply uadd_Some; split; [done|]|done].
       destruct Hmok as (? & ? & _). cbn in *. unfold KERNEL_HEAP_START in *. lia. }
  destruct (insert_before_current_run h1 pre a (sz + sb) post) as (h2 & Hins & Hrep2 & Hfr2).
  - done.
  - by rewrite Hsz1.
  - apply sorted_snoc_cons; [by eapply sorted_without|done|].
    eapply Forall_impl; [exact Htb|]. cbn. intros. lia.
  - exists h2. split; [done|]. exists (pre ++ (a, sz + sb) :: post). split; [done|]. split_and!.
    + intros x. rewrite !in_blocks_app, !in_blocks_cons. unfold in_block. cbn.
      destruct Hok as (_ & _ & _ & _ & Hs1), Hbb as (_ & _ & _ & _ & Hs2).
      unfold FREE_HEADER in *. cbn in *.
      assert (a ≤ x < a + (sz + sb) ↔ a ≤ x < a + sz ∨ b ≤ x < b + sb) by lia. tauto.
    + eapply frame_weaken; [by eapply frame_trans|]. intros x. cbn.
      intros [Hx|Hx]; (eapply header_in_blocks; [apply Hrep2|]); [|done].
      rewrite header_word_app in *. destruct Hx as [?|(c & sc & Hc & ?)]; [by left|right].
      exists c, sc. split; [by right|done].
    + exists (a, sz + sb). split; [set_solver|]. destruct Hbb as (_ & _ & _ & _ & Hs2).
      unfold FREE_HEADER in Hs2. cbn in *. lia.
Qed.

(** [BlockAdjacency::After]: the block in the list grows. *)
Lemma add_after_run h pre a sz b sb post : heap_rep h (pre ++ (b, sb) :: post) →
  block_ok (heap_size_in_bytes h) (a, sz) → a = b + sb → apart (a, sz) post →
  ∃ h', extend_current b sz h = Ok tt h' ∧ added h (pre ++ (b, sb) :: post) a sz h'.
Proof.
  intros Hrep Hok Hba Hap. pose proof (hr_sorted _ _ Hrep) as Hs.
  pose proof (hr_blocks _ _ Hrep) as [_ [Hbb _]%Forall_cons]%Forall_app.
  pose proof (sorted_tail_bound _ _ _ Hs) as Htb.
  pose proof (merged_ok _ _ _ _ _ Hbb Hok ltac:(lia)) as Hmok.
  destruct Hok as (_ & _ & _ & _ & Hs1), Hbb as (_ & _ & _ & _ & Hs2).
  unfold FREE_HEADER in *. cbn in *.
  destruct (extend_current_run h pre b sb post sz) as (h1 & Hext & Hrep1 & Hfr1); [done|lia|done| |].
  - apply sorted_snoc_cons; [by eapply sorted_without| |].
    + apply sorted_app_inv in Hs as (_ & _ & H12). apply Forall_forall. intros c Hc.
      apply (H12 c (b, sb)); [done|left].
    + unfold apart in Hap. rewrite Forall_forall in *. intros c Hc. pose proof (Htb c Hc).
      destruct (Hap c Hc). unfold FREE_HEADER in *. cbn in *. lia.
  - exists h1. split; [done|]. exists (pre ++ (b, sb + sz) :: post). split; [done|]. split_and!.
    + intros x. rewrite !in_blocks_app, !in_blocks_cons. unfold in_block. cbn.
      assert (b ≤ x < b + (sb + sz) ↔ b ≤ x < b + sb ∨ a ≤ x < a + sz) by lia. tauto.
    + eapply frame_weaken; [done|]. intros x. eapply header_in_blocks, Hrep1.
    + exists (b, sb + sz). split; [set_solver|cbn; lia].
Qed.

Lemma add_loop_run fuel h pre post a sz : heap_rep h (pre ++ post) →
  (length post ≤ fuel)%nat → block_ok (heap_size_in_bytes h) (a, sz) →
  apart (a, sz) post → Forall (λ c : block, c.1 + c.2 ≤ a) pre →
  ∃ h', add_loop fuel {| fb_address := a; fb_size := sz |} (first_addr post) h = Ok tt h' ∧
    added h (pre ++ post) a sz h'.
Proof.
  revert pre post. induction fuel as [|fuel IH]; intros pre post Hrep Hf Hok Hap Hpre;
    destruct post as [|[b sb] post]; cbn in Hf; try lia; cbn [first_addr add_loop].
  1,2: destruct (insert_before_current_run h pre a sz []) as (h' & Hrun & Hrep' & Hfr);
    [done|done|by apply sorted_snoc_cons; [apply Hrep|done|]|];
    exists h'; split; [exact Hrun|by apply added_inserted].
  erewrite bind_run by (by eapply current_run). cbn [fb_address fb_size].
  destruct (hr_size _ _ Hrep) as [Hz Hend]. pose proof (hr_sorted _ _ Hrep) as Hs.
  pose proof (hr_blocks _ _ Hrep) as [_ [Hbb _]%Forall_cons]%Forall_app.
  pose proof (sorted_tail_bound _ _ _ Hs) as Htb. cbn in Htb.
  apply Forall_cons in Hap as [[Hsb Hd] Hap]. cbn in Hsb, Hd.
  pose proof Hok as (_ & _ & _ & _ & Hsz). cbn in Hsz. unfold FREE_HEADER in Hsb, Hsz.
  rewrite (adjacency_run h) by (done || lia).
  destruct (Z.eqb_spec (a + sz) b) as [Hab|Hab]; [by apply add_before_run|].
  destruct (Z.eqb_spec a (b + sb)) as [Hba|Hba]; [by apply add_after_run|].
  destruct (Z.ltb_spec a b) as [Hlt|Hge].
  { destruct (insert_before_current_run h pre a sz ((b, sb) :: post)) as (h' & Hrun & Hrep' & Hfr).
    - done.
    - done.
    - apply sorted_snoc_cons; [done|done|]. constructor; [cbn; lia|].
      eapply Forall_impl; [exact Htb|]. cbn. intros. lia.
    - exists h'. split; [done|by apply added_inserted]. }
  erewrite bind_run by (by eapply move_next_run).
  destruct (IH (pre ++ [(b, sb)]) post) as (h' & Hrun & Had); rewrite <- ?app_assoc; try done.
  - lia.
  - apply Forall_app. split; [done|]. constructor; [|done]. cbn. lia.
  - exists h'. split; [done|]. by rewrite <- app_assoc in Had.
Qed.

Lemma blocks_length hs bs lo : sorted_blocks bs → Forall (block_ok hs) bs →
  Forall (λ b : block, lo ≤ b.1) bs → lo ≤ KERNEL_HEAP_START + hs →
  FREE_HEADER * Z.of_nat (length bs) ≤ KERNEL_HEAP_START + hs - lo.
Proof.
  intros Hs. revert lo. induction Hs as [|b bs Hs IH Hf]; intros lo Hb Hlo Hle; cbn [length].
  - unfold FREE_HEADER. lia.
  - apply Forall_cons in Hb as [(_ & Hhi & _ & _ & Hsz) Hb]. apply Forall_cons in Hlo as [Hlo _].
    specialize (IH (b.1 + b.2) Hb Hf Hhi). unfold FREE_HEADER in *. lia.
Qed.

Lemma max_blocks_enough h bs : heap_rep h bs → (length bs ≤ max_blocks h)%nat.
Proof.
  intros [_ _ Hs Hb [Hz Hend] _ _]. pose proof (blocks_length _ bs KERNEL_HEAP_START Hs Hb) as H.
  unfold max_blocks, FREE_HEADER in *.
  assert (24 * Z.of_nat (length bs) ≤ heap_size_in_bytes h); [|dlia].
  specialize (H ltac:(eapply Forall_impl; [exact Hb|]; by intros b (? & _)) ltac:(lia)). lia.
Qed.

Lemma add_free_block_run h bs a sz : heap_rep h bs → block_ok (heap_size_in_bytes h) (a, sz) →
  apart (a, sz) bs →
  ∃ h', add_free_block {| fb_address := a; fb_size := sz |} h = Ok tt h' ∧ added h bs a sz h'.
Proof.
  intros Hrep Hok Hap. unfold add_free_block. erewrite bind_run by done.
  erewrite bind_run by (by apply cursor_run).
  apply (add_loop_run (max_blocks h) h [] bs a sz); [done|by apply max_blocks_enough|done..].
Qed.

(** *** [find_suitable_free_block] *)

(** A [Layout]: the alignment is a power of two, here at most 256, and the size rounded up
    to it is at most [isize::MAX].  The code takes larger alignments, but keeps only the low byte
    of the padding that they need. *)
Definition layout_ok (layout : Layout) : Prop :=
  layout_align layout ∈ [1; 2; 4; 8; 16; 32; 64; 128; 256] ∧
  0 ≤ layout_size layout < 2 ^ 63 - 256.

Definition padding (layout : Layout) (a : Z) : Z := (- (a + ALLOC_HEADER)) mod layout_align layout.
Definition needed (layout : Layout) (a : Z) : Z := layout_size layout + ALLOC_HEADER + padding layout a.

Lemma padding_facts layout a : layout_ok layout → a mod 8 = 0 →
  VirtualAddress.align_offset (a + ALLOC_HEADER) (layout_align layout) = Some (padding layout a) ∧
  0 ≤ padding layout a < 256 ∧ padding layout a mod 8 = 0 ∧
  (a + padding layout a + ALLOC_HEADER) mod layout_align layout = 0.
Proof.
  intros [Hal _] Ha. unfold padding, VirtualAddress.align_offset, ALLOC_HEADER.
  repeat (apply elem_of_cons in Hal as [->|Hal]; [split; [done|]; dlia|]).
  by apply elem_of_nil in Hal.
Qed.

Lemma required_size_run h layout a sz : layout_ok layout → block_ok (heap_size_in_bytes h) (a, sz) →
  KERNEL_HEAP_START + heap_size_in_bytes h < U64 →
  required_size layout a = Some (needed layout a).
Proof.
  intros Hl Hb Hend. pose proof Hb as (? & ? & Ham & ? & ?). cbn in *.
  destruct (padding_facts layout a Hl Ham) as (Hoff & Hp & _ & _). destruct Hl as [_ Hsz].
  unfold required_size, needed, VirtualAddress.add, FREE_HEADER, ALLOC_HEADER, KERNEL_HEAP_START in *.
  rewrite wrapping_add_small by lia. rewrite Hoff. cbn.
  rewrite (proj2 (uadd_Some (layout_size layout) 8 _)) by (split; [done|lia]). cbn.
  apply uadd_Some. lia.
Qed.

Definition found (h : Heap) (layout : Layout) (bs : list block) (o : option FreeBlock) (h' : Heap)
    : Prop :=
  match o with
  | None => h' = h ∧ Forall (λ b : block, b.2 < needed layout b.1) bs
  | Some b => ∃ pre post, bs = pre ++ (fb_address b, fb_size b) :: post ∧
      Forall (λ b : block, b.2 < needed layout b.1) pre ∧
      needed layout (fb_address b) ≤ fb_size b ∧ heap_rep h' (pre ++ post) ∧
      frame (in_blocks (pre ++ post)) h h'
  end.

Lemma find_loop_run fuel h layout pre post : heap_rep h (pre ++ post) → (length post ≤ fuel)%nat →
  layout_ok layout → Forall (λ b : block, b.2 < needed layout b.1) pre →
  ∃ o h', find_loop fuel layout (first_addr post) h = Ok o h' ∧ found h layout (pre ++ post) o h'.
Proof.
  revert pre post. induction fuel as [|fuel IH]; intros pre post Hrep Hf Hl Hpre;
    destruct post as [|[b sb] post]; cbn in Hf; try lia; cbn [first_addr find_loop].
  1,2: exists None, h; split; [done|]; split; [done|by rewrite app_nil_r].
  erewrite bind_run by (by eapply current_run). cbn [fb_address fb_size].
  destruct (hr_size _ _ Hrep) as [Hz Hend].
  pose proof (hr_blocks _ _ Hrep) as [_ [Hbb _]%Forall_cons]%Forall_app.
  rewrite (required_size_run h layout b sb) by done. erewrite bind_run by done.
  destruct (Z.leb_spec (needed layout b) sb) as [Hle|Hgt].
  - destruct (remove_current_run h pre b sb post Hrep) as (h1 & Hrm & Hrep1 & Hfr1).
    erewrite bind_run by exact Hrm. cbv beta iota. eexists _, h1. split; [done|].
    exists pre, post. cbn. split_and!; try done.
    eapply frame_weaken; [done|]. intros x. eapply header_in_blocks, Hrep1.
  - erewrite bind_run by (by eapply move_next_run).
    destruct (IH (pre ++ [(b, sb)]) post) as (o & h' & Hrun & Ho); rewrite <- ?app_assoc; try done.
    + lia.
    + apply Forall_app. split; [done|by constructor].
    + exists o, h'. split; [done|]. by rewrite <- app_assoc in Ho.
Qed.

(** ** Live blocks *)

Section live.
Context `{BF : BitField} (kernel_table : PageTable).

(** An allocated block: where it is, and the padding in front of its header. *)
Record live_block := {
  lb_block : block;
  lb_padding : Z;
}.
(** The pointer [alloc] returned for it. *)
Definition lb_data (l : live_block) : Z := (lb_block l).1 + lb_padding l + ALLOC_HEADER.

Record live_ok (h : Heap) (l : live_block) : Prop := {
  lo_block : block_ok (heap_size_in_bytes h) (lb_block l);
  lo_padding : 0 ≤ lb_padding l < 256 ∧ lb_padding l mod 8 = 0;
  lo_inside : lb_data l ≤ (lb_block l).1 + (lb_block l).2;
  lo_header : word (mem h) ((lb_block l).1 + lb_padding l)
              = new_AllocatedBlockHeader (lb_block l).2 (lb_padding l);
}.

Definition disjoint_blocks (b c : block) : Prop := b.1 + b.2 ≤ c.1 ∨ c.1 + c.2 ≤ b.1.

(** Free and live blocks do not overlap and cover the heap. *)
Record heap_inv (h : Heap) (bs : list block) (live : list live_block) : Prop := {
  hi_rep : heap_rep h bs;
  hi_live : Forall (live_ok h) live;
  hi_apart : Forall (λ l, apart (lb_block l) bs) live;
  hi_disjoint : ForallOrdPairs (λ l l', disjoint_blocks (lb_block l) (lb_block l')) live;
  hi_cover : ∀ x, KERNEL_HEAP_START ≤ x < KERNEL_HEAP_START + heap_size_in_bytes h →
    in_blocks bs x ∨ in_blocks (map lb_block live) x;
}.

Lemma header_roundtrip hs b pad : block_ok hs b → KERNEL_HEAP_START + hs < U64 → 0 ≤ pad < 256 →
  header_size (new_AllocatedBlockHeader b.2 pad) = b.2 ∧
  padding_size (new_AllocatedBlockHeader b.2 pad) = pad.
Proof.
  intros (? & ? & _ & _ & Hs) Hend Hp. unfold header_size, padding_size, new_AllocatedBlockHeader.
  unfold FREE_HEADER, KERNEL_HEAP_START in *. split.
  - rewrite get_set_other, get_set_same by lia. apply Z.mod_small. lia.
  - rewrite get_set_same by lia. change (2 ^ (63 - 56 + 1)) with 256.
    rewrite !Z.mod_small; [done|lia|]. rewrite Z.mod_small; lia.
Qed.

(** A live header is not a free byte. *)
Lemma live_header_kept h l bs h' : live_ok h l → apart (lb_block l) bs →
  frame (in_blocks bs) h h' → live_ok h' l.
Proof.
  intros [Hb Hp Hin Hw] Hap [Hm Hs _ _]. split; rewrite ?Hs; try done.
  rewrite Hm; [done|]. intros (b & Hel & Hx). unfold apart in Hap. rewrite Forall_forall in Hap.
  destruct (Hap b Hel) as [_ Hd]. unfold in_block, lb_data, ALLOC_HEADER in *. lia.
Qed.

(** Blocks that share no byte are apart. *)
Lemma apart_of_bytes hs (c : block) bs : Forall (block_ok hs) bs → FREE_HEADER ≤ c.2 →
  (∀ x, in_block c x → ¬ in_blocks bs x) → apart c bs.
Proof.
  intros Hb Hc Hd. unfold apart. rewrite Forall_forall in *. intros b Hel.
  destruct (Hb b Hel) as (_ & _ & _ & _ & Hs). split; [done|].
  unfold FREE_HEADER in *. destruct (decide (b.1 + b.2 ≤ c.1)); [by left|].
  destruct (decide (c.1 + c.2 ≤ b.1)); [by right|]. exfalso.
  apply (Hd (Z.max b.1 c.1)); [unfold in_block; lia|]. exists b. split; [done|unfold in_block; lia].
Qed.

Lemma apart_bytes c bs x : apart c bs → in_block c x → ¬ in_blocks bs x.
Proof.
  intros Hap Hx (b & Hel & Hb). unfold apart in Hap. rewrite Forall_forall in Hap.
  destruct (Hap b Hel) as [_ Hd]. unfold in_block in *. lia.
Qed.

Lemma live_in_blocks live l x : l ∈ live → in_block (lb_block l) x → in_blocks (map lb_block live) x.
Proof. intros Hl Hx. exists (lb_block l). split; [|done]. by apply list_elem_of_fmap_2. Qed.

(** What is stored in the live blocks stays. *)
Definition keeps (live : list live_block) (h h' : Heap) : Prop :=
  ∀ x, in_blocks (map lb_block live) x → word (mem h') x = word (mem h) x.

Lemma keeps_trans live h1 h2 h3 : keeps live h1 h2 → keeps live h2 h3 → keeps live h1 h3.
Proof. intros H1 H2 x Hx. by rewrite (H2 x Hx), (H1 x Hx). Qed.

Lemma keeps_frame live bs h h' : Forall (λ l, apart (lb_block l) bs) live →
  frame (in_blocks bs) h h' → keeps live h h'.
Proof.
  intros Ha [Hm _ _ _] x (b & (l & -> & Hel)%list_elem_of_fmap & Hx). apply Hm.
  rewrite Forall_forall in Ha. by apply (apart_bytes (lb_block l)); [apply Ha|].
Qed.

(** A block that is neither free nor live yet. *)
Record pending (h : Heap) (bs : list block) (live : list live_block) (c : block) : Prop := {
  pd_rep : heap_rep h bs;
  pd_live : Forall (live_ok h) live;
  pd_apart : Forall (λ l, apart (lb_block l) bs) live;
  pd_disjoint : ForallOrdPairs (λ l l', disjoint_blocks (lb_block l) (lb_block l')) live;
  pd_free : ∀ x, in_block c x → ¬ in_blocks bs x ∧ ¬ in_blocks (map lb_block live) x;
  pd_cover : ∀ x, KERNEL_HEAP_START ≤ x < KERNEL_HEAP_START + heap_size_in_bytes h →
    in_blocks bs x ∨ in_blocks (map lb_block live) x ∨ in_block c x;
}.

Lemma pending_empty h bs live a : pending h bs live (a, 0) → heap_inv h bs live.
Proof.
  intros [Hr Hl Ha Hd Hf Hc]. split; try done. intros x Hx.
  destruct (Hc x Hx) as [?|[?|[? ?]]]; [by left|by right|cbn in *; lia].
Qed.

(** Giving the end of a pending block to the free list. *)
Lemma pending_add h bs live a s1 s2 : pending h bs live (a, s1 + s2) → 0 ≤ s1 →
  block_ok (heap_size_in_bytes h) (a + s1, s2) →
  ∃ h' bs', add_free_block {| fb_address := a + s1; fb_size := s2 |} h = Ok tt h' ∧
    pending h' bs' live (a, s1) ∧ heap_size_in_bytes h' = heap_size_in_bytes h ∧ keeps live h h' ∧
    has_room bs' (a + s1) s2.
Proof.
  intros [Hr Hl Ha Hd Hf Hc] Hs1 Hok. pose proof Hok as (_ & _ & _ & _ & Hs2). cbn in Hs2.
  assert (∀ x, in_block (a + s1, s2) x → in_block (a, s1 + s2) x) as Hin.
  { unfold in_block. cbn. intros. lia. }
  destruct (add_free_block_run h bs (a + s1) s2 Hr Hok) as (h' & Hrun & bs' & Hr' & Hb & Hfr & Hroom).
  { eapply apart_of_bytes; [apply Hr|done|]. intros x Hx. apply Hf, Hin, Hx. }
  exists h', bs'. split; [done|]. pose proof Hfr as [_ Hsz _ _].
  assert (Forall (λ l, apart (lb_block l) bs') live) as Ha'.
  { rewrite Forall_forall in *. intros l Hel. pose proof (Hl l Hel) as [Hlb _ _ _].
    eapply apart_of_bytes; [apply Hr'|apply Hlb|]. intros x Hx. rewrite Hb. intros [H|H].
    - by eapply apart_bytes; [apply Ha|..].
    - apply (proj2 (Hf x (Hin x H))). by eapply live_in_blocks. }
  split; [|split; [done|split; [by eapply keeps_frame|done]]]. split; try done.
  - rewrite Forall_forall in *. intros l Hel. eapply live_header_kept; [by apply Hl| |exact Hfr].
    by apply Ha'.
  - intros x Hx. assert (in_block (a, s1 + s2) x) as Hx'.
    { unfold in_block, FREE_HEADER in *. cbn in *. lia. }
    destruct (Hf x Hx'). split; [|done]. rewrite Hb. intros [?|Hx2]; [done|].
    unfold in_block in *. cbn in *. lia.
  - intros x Hx. rewrite Hsz in Hx. rewrite Hb.
    destruct (Hc x Hx) as [?|[?|H]]; [auto|auto|]. unfold in_block in *. cbn in *.
    destruct (decide (x < a + s1)); [right; right; lia|left; right; lia].
Qed.

(** Writing the header of a pending block makes it live. *)
Lemma pending_commit h bs live c pad : pending h bs live c → block_ok (heap_size_in_bytes h) c →
  0 ≤ pad < 256 → pad mod 8 = 0 → pad + ALLOC_HEADER ≤ c.2 →
  ∃ h', store (c.1 + pad) (new_AllocatedBlockHeader c.2 pad) h = Ok tt h' ∧
    heap_inv h' bs ({| lb_block := c; lb_padding := pad |} :: live) ∧
    heap_size_in_bytes h' = heap_size_in_bytes h ∧ keeps live h h'.
Proof.
  intros [Hr Hl Ha Hd Hf Hc] Hok Hp Hpm Hin. unfold ALLOC_HEADER in Hin.
  pose proof Hok as (Hlo & Hhi & _ & _ & Hsz).
  set (v := new_AllocatedBlockHeader c.2 pad). set (h' := set_mem h (<[c.1 + pad := v]> (mem h))).
  assert (∀ x, ¬ in_block c x → word (mem h') x = word (mem h) x) as Hm.
  { intros x Hx. apply word_insert_ne. intros <-. apply Hx. unfold in_block. lia. }
  assert (in_block c (c.1 + pad)) as Hhdr by (unfold in_block; lia).
  exists h'. split.
  { apply store_run. unfold in_heap. lia. }
  split; [|split; [done|]]; [split|].
  - destruct Hr as [Hli ? ? Hb ? ? ?]. split; try done. eapply dseg_frame; [|exact Hli].
    intros x Hx. apply Hm. intros Hx'. apply (proj1 (Hf x Hx')). by eapply header_in_blocks.
  - constructor; [split; try done|].
    + unfold lb_data, ALLOC_HEADER. cbn. lia.
    + cbn. apply word_insert_eq.
    + rewrite Forall_forall in *. intros l Hel. destruct (Hl l Hel) as [Hlb Hlp Hli Hlw].
      split; try done. rewrite Hm; [done|]. intros Hx. apply (proj2 (Hf _ Hx)).
      eapply live_in_blocks; [done|]. unfold in_block, lb_data, ALLOC_HEADER in *. lia.
  - constructor; [|done]. eapply apart_of_bytes; [apply Hr|done|]. intros x Hx. by apply Hf.
  - constructor; [|done]. rewrite Forall_forall. intros l Hel. cbn.
    rewrite Forall_forall in Hl. destruct (Hl l Hel) as [(_ & _ & _ & _ & Hlb) _ _ _].
    unfold disjoint_blocks, FREE_HEADER in *.
    destruct (decide (c.1 + c.2 ≤ (lb_block l).1)); [by left|].
    destruct (decide ((lb_block l).1 + (lb_block l).2 ≤ c.1)); [by right|]. exfalso.
    apply (proj2 (Hf (Z.max c.1 (lb_block l).1) ltac:(unfold in_block; lia))).
    eapply live_in_blocks; [done|unfold in_block; lia].
  - intros x Hx. cbn. rewrite in_blocks_cons. destruct (Hc x Hx) as [?|[?|?]]; tauto.
  - intros x Hx. apply Hm. intros Hx'. by apply (proj2 (Hf x Hx')).
Qed.

(** *** [alloc] from a block that was found *)

(** The block size [alloc] settles on: room for header, padding and data, at least a free
    header, rounded up to the alignment of headers. *)
Definition rounded (layout : Layout) (a : Z) : Z :=
  let req0 := Z.max (ALLOC_HEADER + padding layout a + layout_size layout) FREE_HEADER in
  req0 + (- (a + req0)) mod 8.

Lemma rounded_facts layout a sz : a mod 8 = 0 → sz mod 8 = 0 → FREE_HEADER ≤ sz →
  needed layout a ≤ sz → 0 ≤ layout_size layout → 0 ≤ padding layout a →
  needed layout a ≤ rounded layout a ≤ sz ∧ FREE_HEADER ≤ rounded layout a ∧
  rounded layout a mod 8 = 0.
Proof.
  unfold rounded, needed, FREE_HEADER, ALLOC_HEADER. intros Ha Hs Hsz Hn Hls Hp.
  set (p := padding layout a) in *. clearbody p.
  set (q := Z.max (8 + p + layout_size layout) 24).
  assert (q = 8 + p + layout_size layout ∨ q = 24) by (unfold q; lia).
  assert (24 ≤ q ∧ 8 + p + layout_size layout ≤ q) by (unfold q; lia).
  clearbody q. dlia.
Qed.

(** The sizes [alloc_from] computes. *)
Lemma alloc_from_sizes {B} h layout a sz (k : Z → Z → Z → HM B) : layout_ok layout →
  block_ok (heap_size_in_bytes h) (a, sz) → KERNEL_HEAP_START + heap_size_in_bytes h < U64 →
  needed layout a ≤ sz →
  (padding_before ← lift (VirtualAddress.align_offset
      (VirtualAddress.add a ALLOC_HEADER) (layout_align layout));
   x ← lift (uadd ALLOC_HEADER padding_before);
   y ← lift (uadd x (layout_size layout));
   let req0 := Z.max y FREE_HEADER in
   off ← lift (VirtualAddress.align_offset (VirtualAddress.add a req0) FREE_ALIGN);
   req ← lift (uadd req0 off);
   rest ← lift (usub sz req);
   k padding_before req rest) h
  = k (padding layout a) (rounded layout a) (sz - rounded layout a) h.
Proof.
  intros Hl Hb Hend Hn. pose proof Hb as (Hlo & Hhi & Ham & Hsm & Hsz). cbn in *.
  destruct (padding_facts layout a Hl Ham) as (Hoff & Hp & _ & _). destruct Hl as [_ Hls].
  destruct (rounded_facts layout a sz) as ((Hr1 & Hr2) & Hr3 & _); [done..|lia|lia|].
  unfold VirtualAddress.add. unfold needed, rounded, FREE_HEADER, ALLOC_HEADER, KERNEL_HEAP_START in *.
  rewrite (wrapping_add_small a 8) by lia. rewrite Hoff. run_step. run_step. run_step. cbv zeta.
  set (q := Z.max (8 + padding layout a + layout_size layout) 24) in *.
  assert (0 ≤ (- (a + q)) mod 8 < 8) by dlia.
  assert (q ≤ sz) by (unfold q; lia).
  rewrite (wrapping_add_small a q) by (unfold q in *; lia). rewrite align_offset_8. run_step.
  erewrite bind_run by (apply lift_Ok; split; [apply uadd_Some; split; [done|lia]|done]).
  erewrite bind_run by (apply lift_Ok; split; [apply usub_Some; split; [done|lia]|done]).
  done.
Qed.

Lemma alloc_from_run h bs live layout a sz : layout_ok layout → pending h bs live (a, sz) →
  block_ok (heap_size_in_bytes h) (a, sz) → needed layout a ≤ sz →
  ∃ h' bs' l, alloc_from layout {| fb_address := a; fb_size := sz |} h = Ok (lb_data l) h' ∧
    heap_inv h' bs' (l :: live) ∧ (lb_block l).1 = a ∧ lb_padding l = padding layout a ∧
    lb_data l + layout_size layout ≤ a + (lb_block l).2 ∧
    heap_size_in_bytes h' = heap_size_in_bytes h ∧ keeps live h h'.
Proof.
  intros Hl Hpd Hb Hn. pose proof Hb as (Hlo & Hhi & Ham & Hsm & Hsz). cbn in *.
  destruct (hr_size _ _ (pd_rep _ _ _ _ Hpd)) as [_ Hend].
  destruct (padding_facts layout a Hl Ham) as (_ & Hp & Hpm & _).
  pose proof Hl as [_ Hls].
  destruct (rounded_facts layout a sz) as ((Hr1 & Hr2) & Hr3 & Hr4); [done..|lia|lia|].
  unfold alloc_from. cbn [fb_address fb_size].
  rewrite (alloc_from_sizes h layout a sz) by done.
  assert (∃ h1 bs1 act, (if FREE_HEADER <? sz - rounded layout a then
       extra ← lift (new_FreeBlock (VirtualAddress.add a (rounded layout a)) (sz - rounded layout a));
       add_free_block extra;; mret (rounded layout a)
     else mret sz) h = Ok act h1 ∧ pending h1 bs1 live (a, act) ∧
    heap_size_in_bytes h1 = heap_size_in_bytes h ∧ keeps live h h1 ∧
    rounded layout a ≤ act ≤ sz ∧ act mod 8 = 0)
    as (h1 & bs1 & act & Hrun & Hpd1 & Hsz1 & Hk1 & Hact & Hactm).
  { destruct (Z.ltb_spec FREE_HEADER (sz - rounded layout a)) as [Hlt|Hge].
    - unfold VirtualAddress.add. unfold FREE_HEADER, KERNEL_HEAP_START in *.
      rewrite wrapping_add_small by lia. rewrite new_FreeBlock_run by dlia. run_step.
      replace sz with (rounded layout a + (sz - rounded layout a)) in Hpd by lia.
      destruct (pending_add _ _ _ _ _ _ Hpd) as (h1 & bs1 & Hadd & Hpd1 & Hs1 & Hk1 & _);
        [lia|unfold block_ok, FREE_HEADER, KERNEL_HEAP_START; cbn; dlia|].
      erewrite bind_run by exact Hadd. exists h1, bs1, (rounded layout a). split_and!; try done; lia.
    - exists h, bs, sz. split_and!; try done; lia. }
  erewrite bind_run by exact Hrun. unfold FREE_HEADER, needed, ALLOC_HEADER in *.
  unfold assert at 1. replace (24 <=? act) with true by lia. erewrite bind_run by done.
  unfold VirtualAddress.add. unfold KERNEL_HEAP_START in *.
  rewrite (wrapping_add_small a (padding layout a)) by lia.
  replace (a + padding layout a =? 0) with false by lia. erewrite bind_run by done.
  destruct (pending_commit h1 bs1 live (a, act) (padding layout a) Hpd1) as (h2 & Hst & Hinv & Hsz2 & Hk2);
    [|lia|done|unfold ALLOC_HEADER; cbn; lia|].
  { rewrite Hsz1. unfold block_ok, FREE_HEADER, KERNEL_HEAP_START. cbn. lia. }
  cbn [fst snd] in Hst. erewrite bind_run by exact Hst. rewrite wrapping_add_small by lia.
  exists h2, bs1, {| lb_block := (a, act); lb_padding := padding layout a |}.
  unfold lb_data, ALLOC_HEADER. cbn. split_and!; try done; [lia|by rewrite Hsz2|].
  by eapply keeps_trans.
Qed.

(** The block taken from the free list is pending. *)
Lemma found_pending h bs live layout b h' : heap_inv h bs live → found h layout bs (Some b) h' →
  ∃ bs', pending h' bs' live (fb_address b, fb_size b) ∧
    block_ok (heap_size_in_bytes h') (fb_address b, fb_size b) ∧
    needed layout (fb_address b) ≤ fb_size b ∧ heap_size_in_bytes h' = heap_size_in_bytes h ∧
    keeps live h h'.
Proof.
  intros [Hr Hl Ha Hd Hc] (pre & post & -> & _ & Hn & Hr' & Hfr). pose proof Hfr as [_ Hsz _ _].
  pose proof (heap_rep_split _ _ _ _ _ Hr) as [Hb _ _ _ _ _ _ _ _ _ _ Hap1 Hap2].
  assert (∀ x, in_blocks (pre ++ post) x →
    in_blocks (pre ++ (fb_address b, fb_size b) :: post) x) as Hsub.
  { intros x. rewrite !in_blocks_app, in_blocks_cons. tauto. }
  exists (pre ++ post). rewrite Hsz.
  assert (Forall (λ l, apart (lb_block l) (pre ++ post)) live) as Ha'.
  { eapply Forall_impl; [exact Ha|]. intros l. unfold apart.
    rewrite !Forall_app, Forall_cons. tauto. }
  split; [|split_and!; [done..|by eapply keeps_frame] ]. split; try done.
  - rewrite Forall_forall in *. intros l Hel. eapply live_header_kept; [by apply Hl|by apply Ha'|done].
  - intros x Hx. split.
    + rewrite in_blocks_app. intros [H|H]; [by eapply (apart_bytes _ pre)|by eapply (apart_bytes _ post)].
    + intros (c & (l & -> & Hel)%list_elem_of_fmap & Hx'). rewrite Forall_forall in Ha.
      eapply (apart_bytes (lb_block l)); [by apply Ha|done|]. rewrite in_blocks_app, in_blocks_cons. tauto.
  - intros x Hx. rewrite Hsz in Hx. specialize (Hc x Hx).
    rewrite in_blocks_app, in_blocks_cons in Hc. rewrite in_blocks_app. tauto.
Qed.

(** *** [find_suitable_free_block], [increase_heap_size] *)

Lemma find_suitable_run h bs layout : heap_rep h bs → layout_ok layout →
  ∃ o h', find_suitable_free_block kernel_table layout h = Ok o h' ∧ found h layout bs o h'.
Proof.
  intros Hrep Hl. unfold find_suitable_free_block, ensure_init. erewrite bind_run.
  2: { erewrite bind_run by done. by rewrite (hr_init _ _ Hrep). }
  erewrite bind_run by done. erewrite bind_run by (by apply cursor_run).
  apply (find_loop_run (max_blocks h) h layout [] bs); [done|by apply max_blocks_enough|done|done].
Qed.

(** New memory at the end of the heap is pending. *)
Lemma grown_pending h bs live k n : heap_inv h bs live → 0 ≤ n → n mod 8 = 0 →
  KERNEL_HEAP_START + heap_size_in_bytes h + n < U64 →
  pending (set_heap_size (set_kernel h k) (heap_size_in_bytes h + n)) bs live
    (KERNEL_HEAP_START + heap_size_in_bytes h, n).
Proof.
  intros [Hr Hl Ha Hd Hc] Hn Hnm Hend.
  assert (∀ b, block_ok (heap_size_in_bytes h) b → block_ok (heap_size_in_bytes h + n) b) as Hok.
  { unfold block_ok. intros b (? & ? & ? & ? & ?). lia. }
  assert (∀ b x, block_ok (heap_size_in_bytes h) b → in_block b x →
    x < KERNEL_HEAP_START + heap_size_in_bytes h) as Hlt.
  { unfold block_ok, in_block. intros. lia. }
  pose proof Hr as [H1 H2 H3 H4 [H5 H5'] H6 H7]. split; try done.
  - split; try done; cbn.
    + eapply Forall_impl; [exact H4|]. by apply Hok.
    + lia.
    + rewrite <- Z.add_mod_idemp_l, H6 by lia. done.
  - eapply Forall_impl; [exact Hl|]. intros l [? ? ? ?]. split; try done. by apply Hok.
  - intros x Hx. split.
    + intros (b & Hel & Hb). pose proof (proj1 (Forall_forall _ _) H4 b Hel) as Hbok.
      pose proof (Hlt b x Hbok Hb). unfold in_block in Hx. cbn in Hx. lia.
    + intros (c & (l & -> & Hel)%list_elem_of_fmap & Hb).
      pose proof (proj1 (Forall_forall _ _) Hl l Hel) as Hlok.
      pose proof (Hlt _ x (lo_block _ _ Hlok) Hb). unfold in_block in Hx. cbn in Hx. lia.
  - cbn. intros x Hx. destruct (decide (x < KERNEL_HEAP_START + heap_size_in_bytes h)).
    + destruct (Hc x) as [?|?]; [lia|auto|auto].
    + right. right. unfold in_block. cbn. lia.
Qed.

Definition new_pages (h : Heap) (layout : Layout) : Z :=
  div_ceil (Z.max (heap_size_in_bytes h + heap_size_in_bytes h / 2) (layout_size layout)) PAGE_SIZE.

Lemma with_kernel_frame {B} (m : M (Tables PhysicalMemoryAllocator) MemoryError B) h b h' :
  expect (with_kernel m) h = Ok b h' → ∃ k, h' = set_kernel h k.
Proof.
  unfold expect, with_kernel. destruct (m (kernel_memory h)); [|done..]. intros [= <- <-]. eauto.
Qed.

(** A successful call of [add_free_block] went through a pointer check. *)
Lemma check_ptr_Ok h p h' : check_ptr p h = Ok tt h' →
  h' = h ∧ (p = 0 ∨ KERNEL_HEAP_START + heap_size_in_bytes h < U64).
Proof.
  unfold check_ptr. intros H. apply bind_Ok in H as (h0 & ? & [= <- <-] & H).
  destruct (Z.eqb_spec p 0); [injection H as <-; auto|].
  apply bind_Ok in H as (e & ? & He & H). inv_run. subst.
  unfold assert in H. destruct (_ && _); [|done]. injection H as <-. auto.
Qed.

Lemma add_free_block_no_wrap h b h' : fb_address b ≠ 0 → add_free_block b h = Ok tt h' →
  KERNEL_HEAP_START + heap_size_in_bytes h < U64.
Proof.
  intros Hb H. unfold add_free_block in H. apply bind_Ok in H as (h0 & ? & [= <- <-] & H).
  apply bind_Ok in H as (cur & h1 & Hcur & H). unfold cursor in Hcur.
  apply bind_Ok in Hcur as (h0 & ? & [= <- <-] & Hcur).
  apply bind_Ok in Hcur as ([] & h2 & [-> Hc]%check_ptr_Ok & Hcur). injection Hcur as <- <-.
  destruct Hc as [Hc|?]; [|done]. rewrite Hc in H. unfold max_blocks in H. cbn [add_loop] in H.
  apply bind_Ok in H as (o & h2 & [= <- <-] & H). unfold insert_before_current in H.
  apply bind_Ok in H as ([] & h3 & Has & H).
  assert (h3 = h) as ->.
  { unfold assert in Has. destruct (negb _); [by injection Has as <-|done]. }
  apply bind_Ok in H as ([] & h4 & [-> Hp]%check_ptr_Ok & H). tauto.
Qed.

Lemma new_pages_bound h layout : INIT_SIZE * PAGE_SIZE ≤ heap_size_in_bytes h →
  0 ≤ layout_size layout →
  INIT_SIZE ≤ new_pages h layout ∧ layout_size layout ≤ new_pages h layout * PAGE_SIZE ∧
  heap_size_in_bytes h + heap_size_in_bytes h / 2 ≤ new_pages h layout * PAGE_SIZE.
Proof.
  intros Hmin Hs. unfold new_pages.
  set (m := Z.max (heap_size_in_bytes h + heap_size_in_bytes h / 2) (layout_size layout)).
  assert (heap_size_in_bytes h + heap_size_in_bytes h / 2 ≤ m ∧ layout_size layout ≤ m) by (unfold m; lia).
  pose proof (div_ceil_spec m PAGE_SIZE ltac:(plia)) as Hd. unfold INIT_SIZE in *. clearbody m. pdlia.
Qed.

Lemma increase_heap_size_Ok h bs live layout h' : heap_inv h bs live → layout_ok layout →
  INIT_SIZE * PAGE_SIZE ≤ heap_size_in_bytes h →
  increase_heap_size kernel_table layout h = Ok tt h' →
  ∃ bs', heap_inv h' bs' live ∧ keeps live h h' ∧
    heap_size_in_bytes h' = heap_size_in_bytes h + new_pages h layout * PAGE_SIZE ∧
    has_room bs' (KERNEL_HEAP_START + heap_size_in_bytes h) (new_pages h layout * PAGE_SIZE).
Proof.
  intros Hinv Hl Hmin H. unfold increase_heap_size in H.
  pose proof (new_pages_bound h layout Hmin ltac:(apply Hl)) as (Hn & _ & _).
  pose proof (hi_rep _ _ _ Hinv) as Hrep. pose proof (hr_size_aligned _ _ Hrep) as Hsal.
  apply bind_Ok in H as (h0 & ? & [= <- <-] & H).
  apply bind_Ok in H as (larger & ? & [[-> _]%uadd_Some ->]%lift_Ok & H). cbv zeta in H.
  change (div_ceil _ PAGE_SIZE) with (new_pages h layout) in *.
  set (n := new_pages h layout) in *. unfold INIT_SIZE in *. clearbody n.
  apply bind_Ok in H as (phys & h1 & [k1 ->]%with_kernel_frame & H).
  apply bind_Ok in H as (oend & ? & [[-> _]%uadd_Some ->]%lift_Ok & H).
  apply bind_Ok in H as ([] & h2 & [k2 ->]%with_kernel_frame & H).
  apply bind_Ok in H as (bytes & ? & [[-> _]%umul_Some ->]%lift_Ok & H).
  apply bind_Ok in H as (nsize & ? & [[-> _]%uadd_Some ->]%lift_Ok & H).
  apply bind_Ok in H as ([] & h3 & [= <-] & H).
  apply bind_Ok in H as (b & ? & [Hb ->]%lift_Ok & H).
  rewrite new_FreeBlock_run in Hb by (unfold KERNEL_HEAP_START; dlia). injection Hb as <-.
  assert (Hend := H). apply add_free_block_no_wrap in Hend; [|cbn; unfold KERNEL_HEAP_START; plia].
  cbn in Hend, H.
  pose proof (grown_pending h bs live k2 (n * PAGE_SIZE) Hinv ltac:(plia) ltac:(pdlia) ltac:(lia)) as Hpd.
  replace (n * PAGE_SIZE) with (0 + n * PAGE_SIZE) in Hpd at 2 by lia.
  destruct (pending_add _ _ _ _ _ _ Hpd) as (h4 & bs' & Hadd & Hpd' & Hsz & Hk & Hroom); [lia| |].
  - rewrite Z.add_0_r. destruct Hrep as [_ _ _ _ [? ?] _ _].
    unfold block_ok, FREE_HEADER, KERNEL_HEAP_START in *. cbn. pdlia.
  - rewrite Z.add_0_r in Hadd, Hroom. cbn in Hadd, Hsz.
    assert (h4 = h') as ->.
    { unfold set_heap_size, set_kernel in *. cbn in *. rewrite H in Hadd. congruence. }
    exists bs'. split; [by eapply pending_empty|]. split; [done|done].
Qed.

(** *** [alloc] and [dealloc] *)

Definition too_small (layout : Layout) (bs : list block) : Prop :=
  Forall (λ b : block, b.2 < needed layout b.1) bs.

(** What [alloc] gives: a block of its own that holds the layout, at an aligned address. *)
Definition allocated_block (layout : Layout) (live : list live_block) (h : Heap) (ptr : Z) (h' : Heap)
    : Prop :=
  ∃ bs' l, heap_inv h' bs' (l :: live) ∧ ptr = lb_data l ∧ ptr mod layout_align layout = 0 ∧
    ptr + layout_size layout ≤ (lb_block l).1 + (lb_block l).2 ∧
    INIT_SIZE * PAGE_SIZE ≤ heap_size_in_bytes h' ∧ keeps live h h'.

(** [alloc] once the search is over. *)
Lemma alloc_found_run h bs live layout b h1 : heap_inv h bs live → layout_ok layout →
  INIT_SIZE * PAGE_SIZE ≤ heap_size_in_bytes h → found h layout bs (Some b) h1 →
  ∃ ptr h', alloc_from layout b h1 = Ok ptr h' ∧ allocated_block layout live h ptr h'.
Proof.
  intros Hinv Hl Hmin Hf. destruct b as [a sz].
  destruct (found_pending _ _ _ _ _ _ Hinv Hf) as (bs1 & Hpd & Hok & Hn & Hsz1 & Hk1). cbn in *.
  destruct (alloc_from_run h1 bs1 live layout a sz Hl Hpd Hok Hn)
    as (h' & bs' & l & Hrun & Hinv' & Ha & Hpad & Hin & Hsz & Hk).
  exists (lb_data l), h'. split; [done|]. exists bs', l. split_and!; try done.
  - unfold lb_data. rewrite Ha, Hpad. by apply padding_facts; [|apply Hok].
  - by rewrite Ha.
  - by rewrite Hsz, Hsz1.
  - by eapply keeps_trans.
Qed.

Lemma alloc_run retries h bs live layout : heap_inv h bs live → layout_ok layout →
  INIT_SIZE * PAGE_SIZE ≤ heap_size_in_bytes h →
  match alloc kernel_table retries layout h with
  | Ok ptr h' => allocated_block layout live h ptr h'
  | Err e _ => match e with end
  | Stop _ => too_small layout bs
  end.
Proof.
  revert h bs. induction retries as [|retries IH]; intros h bs Hinv Hl Hmin; cbn [alloc];
    destruct (find_suitable_run h bs layout (hi_rep _ _ _ Hinv) Hl) as ([b|] & h1 & Hfind & Hf);
    rewrite bind_unfold, Hfind.
  1,3: destruct (alloc_found_run _ _ _ _ _ _ Hinv Hl Hmin Hf) as (ptr & h' & -> & Ha); exact Ha.
  1,2: destruct Hf as [-> Hsmall]; rewrite bind_unfold;
    destruct (increase_heap_size kernel_table layout h) as [[] h2|[]|w] eqn:Hinc; [|exact Hsmall].
  - exact Hsmall.
  - destruct (increase_heap_size_Ok h bs live layout h2 Hinv Hl Hmin Hinc) as (bs2 & Hinv2 & Hk & Hsz & _).
    pose proof (new_pages_bound h layout Hmin ltac:(apply Hl)) as (Hn & _ & _).
    specialize (IH h2 bs2 Hinv2 Hl ltac:(unfold INIT_SIZE in *; plia)).
    destruct (alloc kernel_table retries layout h2) as [ptr h'|[]|w]; [|exact Hsmall].
    destruct IH as (bs' & l & ? & ? & ? & ? & ? & Hk'). exists bs', l. split_and!; try done.
    by eapply keeps_trans.
Qed.

(** A block with enough room ends the search. *)
Lemma room_fits hs bs layout a n : Forall (block_ok hs) bs → layout_ok layout → has_room bs a n →
  layout_size layout + ALLOC_HEADER + 255 ≤ n → ¬ too_small layout bs.
Proof.
  intros Hok Hl (b & Hel & Hlo & Hhi) Hn Hs. unfold too_small in Hs. rewrite Forall_forall in *.
  pose proof (Hs b Hel) as Hb. destruct (Hok b Hel) as (_ & _ & Ham & _).
  destruct (padding_facts layout b.1 Hl Ham) as (_ & Hp & _). unfold needed in Hb. lia.
Qed.

(** After two growths the search succeeds, so no call needs more than two. *)
Lemma alloc_retries_irrelevant n h bs live layout : heap_inv h bs live → layout_ok layout →
  INIT_SIZE * PAGE_SIZE ≤ heap_size_in_bytes h →
  alloc kernel_table (2 + n) layout h = alloc kernel_table 2 layout h.
Proof.
  intros Hinv Hl Hmin. cbn [Nat.add alloc].
  destruct (find_suitable_run h bs layout (hi_rep _ _ _ Hinv) Hl) as ([b|] & h1 & Hfind & Hf);
    rewrite !bind_unfold, Hfind; [done|]. destruct Hf as [-> _].
  rewrite !bind_unfold. destruct (increase_heap_size kernel_table layout h) as [[] h2|[]|w] eqn:Hinc;
    [|done].
  destruct (increase_heap_size_Ok h bs live layout h2 Hinv Hl Hmin Hinc) as (bs2 & Hinv2 & _ & Hsz2 & _).
  pose proof (new_pages_bound h layout Hmin ltac:(apply Hl)) as (Hn & Hn' & _).
  assert (INIT_SIZE * PAGE_SIZE ≤ heap_size_in_bytes h2) as Hmin2 by (unfold INIT_SIZE in *; plia).
  destruct (find_suitable_run h2 bs2 layout (hi_rep _ _ _ Hinv2) Hl) as ([b|] & h3 & Hfind2 & Hf2);
    rewrite !bind_unfold, Hfind2; [done|]. destruct Hf2 as [-> _].
  rewrite !bind_unfold. destruct (increase_heap_size kernel_table layout h2) as [[] h4|[]|w] eqn:Hinc2;
    [|done].
  destruct (increase_heap_size_Ok h2 bs2 live layout h4 Hinv2 Hl Hmin2 Hinc2)
    as (bs4 & Hinv4 & _ & _ & Hroom).
  pose proof (new_pages_bound h2 layout Hmin2 ltac:(apply Hl)) as (_ & _ & Hn2).
  assert (layout_size layout + ALLOC_HEADER + 255 ≤ new_pages h2 layout * PAGE_SIZE) as Henough.
  { unfold ALLOC_HEADER, INIT_SIZE in *. set (p := new_pages h2 layout) in *. clearbody p.
    set (q := new_pages h layout) in *. clearbody q. pdlia. }
  destruct (find_suitable_run h4 bs4 layout (hi_rep _ _ _ Hinv4) Hl) as ([b|] & h5 & Hfind4 & Hf4).
  - destruct n; cbn [alloc]; rewrite !bind_unfold, Hfind4; done.
  - destruct Hf4 as [_ Hsmall]. exfalso. eapply room_fits; [apply Hinv4|done|exact Hroom|done|done].
Qed.

Lemma pairs_app {A} (R : A → A → Prop) l1 l2 : ForallOrdPairs R (l1 ++ l2) ↔
  ForallOrdPairs R l1 ∧ ForallOrdPairs R l2 ∧ ∀ x y, x ∈ l1 → y ∈ l2 → R x y.
Proof.
  induction l1 as [|a l1 IH]; cbn.
  { split; [intros H; split_and!; [constructor|done|set_solver]|tauto]. }
  split.
  - intros H. inversion H as [|?? Ha Hr]; subst. apply IH in Hr as (H1 & H2 & H3).
    rewrite List.Forall_forall in Ha. split_and!; [|done|].
    + constructor; [|done]. apply List.Forall_forall. intros. apply Ha, in_or_app. by left.
    + intros x y Hx Hy. apply elem_of_cons in Hx as [->|Hx]; [|by apply H3].
      apply Ha, in_or_app. right. by apply list_elem_of_In.
  - intros (H1 & H2 & H3). inversion H1 as [|?? Ha Hr]; subst. constructor.
    + rewrite List.Forall_forall in *. intros x [Hx|Hx]%in_app_or; [by apply Ha|].
      apply H3; [set_solver|by apply list_elem_of_In].
    + apply IH. split_and!; [done..|]. intros. apply H3; set_solver.
Qed.

(** Forgetting a live block leaves it pending. *)
Lemma live_pending h bs live1 l live2 : heap_inv h bs (live1 ++ l :: live2) →
  live_ok h l ∧ pending h bs (live1 ++ live2) (lb_block l).
Proof.
  intros [Hr Hl Ha Hd Hc]. rewrite Forall_app, Forall_cons in Hl, Ha.
  destruct Hl as (Hl1 & Hl & Hl2), Ha as (Ha1 & Ha & Ha2). split; [done|].
  assert (∀ l', l' ∈ live1 ++ live2 → disjoint_blocks (lb_block l) (lb_block l')) as Hdl.
  { intros l' Hel. apply elem_of_app in Hel. destruct Hel as [Hel|Hel].
    - apply pairs_app in Hd. destruct Hd as (_ & _ & Hd).
      specialize (Hd l' l Hel ltac:(set_solver)). unfold disjoint_blocks in *. tauto.
    - apply pairs_app in Hd. destruct Hd as (_ & Hd & _). inversion Hd as [|?? Hd' _]; subst.
      rewrite List.Forall_forall in Hd'. apply Hd'. by apply list_elem_of_In. }
  split; try done.
  - by apply Forall_app.
  - by apply Forall_app.
  - apply pairs_app in Hd. destruct Hd as (Hd1 & Hd2 & Hd12). inversion Hd2; subst.
    apply pairs_app. split_and!; try done. intros ????. apply Hd12; [done|]. by apply elem_of_cons; right.
  - intros x Hx. split; [by apply (apart_bytes (lb_block l))|].
    intros (b & Hel & Hb). apply list_elem_of_fmap in Hel. destruct Hel as (l' & -> & Hel).
    specialize (Hdl l' Hel). unfold disjoint_blocks, in_block in *. lia.
  - intros x Hx. specialize (Hc x Hx). rewrite map_app in *. cbn in Hc.
    rewrite in_blocks_app, in_blocks_cons in *. tauto.
Qed.

Lemma dealloc_run h bs live1 l live2 layout : heap_inv h bs (live1 ++ l :: live2) →
  layout_size layout ≤ (lb_block l).2 →
  ∃ h' bs', dealloc (lb_data l) layout h = Ok tt h' ∧ heap_inv h' bs' (live1 ++ live2) ∧
    heap_size_in_bytes h' = heap_size_in_bytes h ∧ keeps (live1 ++ live2) h h' ∧
    has_room bs' (lb_block l).1 (lb_block l).2.
Proof.
  intros Hinv Hsz. destruct (live_pending _ _ _ _ _ Hinv) as [Hl Hpd].
  destruct (hr_size _ _ (hi_rep _ _ _ Hinv)) as [_ Hend].
  destruct Hl as [Hb [Hp Hpm] Hin Hw]. destruct l as [[a sz] pad]. unfold lb_data in *. cbn in *.
  pose proof Hb as (Hlo & Hhi & Ham & Hsm & Hs). cbn in *.
  destruct (header_roundtrip _ _ pad Hb ltac:(done) Hp) as [Hhs Hps]. cbn in *.
  unfold dealloc. unfold ALLOC_HEADER, FREE_HEADER, KERNEL_HEAP_START in *.
  destruct (Z.eqb_spec (a + pad + 8) 0); [lia|]. cbv zeta. unfold VirtualAddress.offset.
  rewrite (wrapping_add_small (a + pad + 8)) by lia.
  replace (a + pad + 8 + - (8)) with (a + pad) by lia.
  erewrite bind_run by (apply load_run; unfold in_heap, KERNEL_HEAP_START; dlia).
  cbv beta. rewrite !Hw, !Hhs, !Hps, wrapping_add_small by lia.
  replace (a + pad + - pad) with a by lia.
  unfold assert. destruct (Z.leb_spec (layout_size layout) sz); [|lia]. run_step.
  erewrite bind_run by (apply lift_Ok; split; [apply new_FreeBlock_run; done|done]).
  replace sz with (0 + sz) in Hpd by lia.
  destruct (pending_add h bs (live1 ++ live2) a 0 sz Hpd) as (h' & bs' & Hrun & Hpd' & Hsz' & Hk & Hroom);
    [lia|by rewrite Z.add_0_r|].
  rewrite Z.add_0_r in Hrun, Hroom. exists h', bs'. split; [done|].
  split; [by eapply pending_empty|done].
Qed.
End live.
