(* ===== verification/HeapHistory.v ===== *)
(** The kernel heap as [GlobalAlloc] users see it: the first allocation initialises it, and in
    every history of allocations and deallocations the live allocations are aligned, inside the
    heap, disjoint, and keep what is stored in them. *)
From Stdlib Require Import Sorting.Sorted.
From stdpp Require Import base list gmap relations.
From S2P Require Import Prelude BitField Addresses PhysAlloc Frames PageEntry Paging Heap HeapSpec HeapAlloc.

Section history.
Context `{BF : BitField} (kernel_table : PageTable).

(** [FreeList::new_uninit] *)
Definition uninit (h : Heap) : Prop := initialized h = false ∧ head h = 0.

Definition first_block : block := (KERNEL_HEAP_START, INIT_SIZE * PAGE_SIZE).

Lemma init_free_list_run h : initialized h = true → head h = 0 →
  ∃ h', init_free_list (INIT_SIZE * PAGE_SIZE) h = Ok tt h' ∧ heap_inv h' [first_block] [] ∧
    heap_size_in_bytes h' = INIT_SIZE * PAGE_SIZE.
Proof.
  intros Hi Hh. unfold init_free_list. erewrite bind_run by done. cbv beta.
  rewrite Hh. change (0 =? 0) with true. erewrite bind_run by done.
  erewrite bind_run by done. erewrite bind_run by done.
  erewrite bind_run by (by apply store_run). erewrite bind_run by (by apply store_run).
  erewrite bind_run by (by apply store_run). eexists. split; [done|]. split; [|done].
  split; [split| | | |]; cbn; try done.
  - split; [done|].
    repeat first [rewrite word_insert_eq
                 |rewrite word_insert_ne by (unfold size_of_block, next_of, prev_of; lia)]. done.
  - repeat constructor.
  - repeat constructor; cbn; unfold KERNEL_HEAP_START, INIT_SIZE, PAGE_SIZE, FREE_HEADER; lia.
  - constructor.
  - intros x Hx. left. exists first_block. split; [set_solver|]. unfold in_block, first_block. cbn. lia.
Qed.

(** [init] gives one free block, or stops where mapping the first pages stops. *)
Lemma init_run h : uninit h →
  match init kernel_table h with
  | Ok _ h' => heap_inv h' [first_block] [] ∧ heap_size_in_bytes h' = INIT_SIZE * PAGE_SIZE
  | Err e _ => match e with end
  | Stop w => ∃ h1, map_heap_pages kernel_table KERNEL_HEAP_START INIT_SIZE h1 = Stop w
  end.
Proof.
  intros [Hi Hh]. unfold init. erewrite bind_run by done. cbv beta. erewrite bind_run by done.
  rewrite Hi. erewrite bind_run by done. rewrite bind_unfold.
  set (h1 := Build_Heap _ _ _ _ _ _).
  destruct (map_heap_pages kernel_table KERNEL_HEAP_START INIT_SIZE h1) as [[] h2|[]|w] eqn:Hm;
    [|by exists h1].
  assert (initialized h2 = true ∧ head h2 = 0) as [Hi2 Hh2].
  { unfold map_heap_pages in Hm.
    apply bind_Ok in Hm as (phys & h3 & [k1 ->]%with_kernel_frame & [k2 ->]%with_kernel_frame). done. }
  destruct (init_free_list_run h2 Hi2 Hh2) as (h' & -> & Hinv). done.
Qed.

(** The first [alloc] initialises. *)
Lemma alloc_uninit n layout h : uninit h →
  alloc kernel_table n layout h = (init kernel_table ;; alloc kernel_table n layout) h.
Proof.
  intros Hu. pose proof (init_run h Hu) as Hinit. rewrite (bind_unfold (init _)).
  assert (∀ k : option FreeBlock → HM Z,
    (find_suitable_free_block kernel_table layout ≫= k) h
    = match init kernel_table h with
      | Ok _ h' => (find_suitable_free_block kernel_table layout ≫= k) h'
      | Err e h' => Err e h'
      | Stop w => Stop w
      end) as Hfind.
  { intros k. unfold find_suitable_free_block, ensure_init. rewrite !bind_unfold.
    cbn [get]. unfold get. rewrite (proj1 Hu).
    destruct (init kernel_table h) as [[] h'|[]|w] eqn:E; [|done].
    destruct Hinit as [Hinv _]. rewrite !bind_unfold. cbn.
    rewrite (hr_init _ _ (hi_rep _ _ _ Hinv)). done. }
  destruct n; cbn [alloc]; rewrite Hfind; by destruct (init kernel_table h) as [[]|[]|].
Qed.

(** *** Histories *)

(** An allocation the program holds: the pointer and the layout it asked for. *)
Abbreviation allocation := (Z * Layout)%type.

Inductive heap_step : Heap * list allocation → Heap * list allocation → Prop :=
  | step_alloc h held n layout ptr h' :
      layout_ok layout → alloc kernel_table n layout h = Ok ptr h' →
      heap_step (h, held) (h', (ptr, layout) :: held)
  | step_dealloc h held1 ptr layout held2 h' :
      dealloc ptr layout h = Ok tt h' →
      heap_step (h, held1 ++ (ptr, layout) :: held2) (h', held1 ++ held2).

Definition holds (p : allocation) (l : live_block) : Prop :=
  p.1 = lb_data l ∧ p.1 mod layout_align p.2 = 0 ∧
  p.1 + layout_size p.2 ≤ (lb_block l).1 + (lb_block l).2.

Definition history_inv (s : Heap * list allocation) : Prop :=
  (uninit s.1 ∧ s.2 = []) ∨
  ∃ bs live, heap_inv s.1 bs live ∧ INIT_SIZE * PAGE_SIZE ≤ heap_size_in_bytes s.1 ∧
    Forall2 holds s.2 live.

Lemma holds_size p l h : live_ok h l → holds p l → layout_size p.2 ≤ (lb_block l).2.
Proof. intros [_ [[? _] _] _ _] (Hp & _ & Hs). unfold lb_data, ALLOC_HEADER in *. lia. Qed.

Lemma alloc_step_inv n h held layout ptr h' : layout_ok layout → history_inv (h, held) →
  alloc kernel_table n layout h = Ok ptr h' → history_inv (h', (ptr, layout) :: held).
Proof.
  intros Hl Hinv Hrun. right. unfold history_inv in Hinv. cbn in Hinv |- *.
  assert (∃ h0 bs live, heap_inv h0 bs live ∧ INIT_SIZE * PAGE_SIZE ≤ heap_size_in_bytes h0 ∧
    Forall2 holds held live ∧ alloc kernel_table n layout h0 = Ok ptr h')
    as (h0 & bs & live & Hi & Hmin & Hh & Hrun').
  { destruct Hinv as [[Hu ->]|(bs & live & ? & ? & ?)]; [|by exists h, bs, live].
    rewrite alloc_uninit in Hrun by done. apply bind_Ok in Hrun as ([] & h1 & Hini & Hrun).
    pose proof (init_run h Hu) as Hini'. rewrite Hini in Hini'. destruct Hini' as [? Hsz].
    exists h1, [first_block], []. rewrite Hsz. done. }
  pose proof (alloc_run kernel_table n h0 bs live layout Hi Hl Hmin) as Ha. rewrite Hrun' in Ha.
  destruct Ha as (bs' & l & Hinv' & Hp & Hm & Hs & Hmin' & _).
  exists bs', (l :: live). split_and!; [done..|]. constructor; done.
Qed.

Lemma dealloc_step_run h held1 ptr layout held2 : history_inv (h, held1 ++ (ptr, layout) :: held2) →
  ∃ h', dealloc ptr layout h = Ok tt h' ∧ history_inv (h', held1 ++ held2).
Proof.
  intros [[_ Hn]|(bs & live & Hi & Hmin & Hh)]; [by destruct held1|]. cbn in *.
  apply Forall2_app_inv_l in Hh as (live1 & live' & Hh1 & Hh2 & ->).
  apply Forall2_cons_inv_l in Hh2 as (l & live2 & Hp & Hh2 & ->).
  destruct (live_pending _ _ _ _ _ Hi) as [Hl _].
  destruct (dealloc_run h bs live1 l live2 layout Hi (holds_size _ _ _ Hl Hp))
    as (h' & bs' & Hrun & Hinv' & Hsz & _).
  exists h'. destruct Hp as [Hp _]. cbn in Hp. subst ptr. split; [done|]. right.
  exists bs', (live1 ++ live2). cbn. rewrite Hsz. split_and!; [done..|]. by apply Forall2_app.
Qed.

Lemma history_preserved s s' : history_inv s → rtc heap_step s s' → history_inv s'.
Proof.
  intros Hinv Hs. induction Hs as [|s1 s2 s3 Hst _ IH]; [done|]. apply IH.
  destruct Hst as [h held n layout ptr h' Hl Hrun|h held1 ptr layout held2 h' Hrun].
  - by eapply alloc_step_inv.
  - destruct (dealloc_step_run _ _ _ _ _ Hinv) as (h2 & Hrun2 & Hinv2). congruence.
Qed.

Definition apart_allocations (p q : allocation) : Prop :=
  p.1 + layout_size p.2 ≤ q.1 ∨ q.1 + layout_size q.2 ≤ p.1.

Lemma holds_apart h p q l l' : live_ok h l → live_ok h l' → holds p l → holds q l' →
  disjoint_blocks (lb_block l) (lb_block l') → apart_allocations p q.
Proof.
  intros [_ [[? _] _] _ _] [_ [[? _] _] _ _] (Hp & _ & Hs) (Hq & _ & Hs') Hd.
  unfold apart_allocations, disjoint_blocks, lb_data, ALLOC_HEADER in *. lia.
Qed.

Lemma held_apart h held live : Forall2 holds held live → Forall (live_ok h) live →
  ForallOrdPairs (λ l l', disjoint_blocks (lb_block l) (lb_block l')) live →
  ForallOrdPairs apart_allocations held.
Proof.
  induction 1 as [|p l held live Hp Hh IH]; intros Hl Hd; [constructor|].
  inversion Hl as [|?? Hl1 Hl2]; subst. inversion Hd as [|?? Hd1 Hd2]; subst.
  constructor; [|by apply IH]. clear IH Hd2 Hl Hd.
  induction Hh as [|q l' held live Hq Hh IH]; [constructor|].
  inversion Hl2; subst. inversion Hd1; subst. constructor; [by apply (holds_apart h _ _ l l')|by apply IH].
Qed.

(** [KernelGlobalAlloc::alloc] on a heap in its invariant, for any alignment up to 256: it
    either returns a pointer to a block of its own (aligned, with room for the layout, apart from
    every free and every live block, whose contents it does not touch), or panics, and then no
    free block was large enough. It recurses at most twice: more retries never change the
    result, so the loop of growing the heap and searching again terminates. *)
Theorem heap_alloc_correct n h bs live layout : heap_inv h bs live → layout_ok layout →
  INIT_SIZE * PAGE_SIZE ≤ heap_size_in_bytes h →
  alloc kernel_table (2 + n) layout h = alloc kernel_table 2 layout h ∧
  match alloc kernel_table 2 layout h with
  | Ok ptr h' => allocated_block layout live h ptr h'
  | Err e _ => match e with end
  | Stop _ => too_small layout bs
  end.
Proof.
  intros Hinv Hl Hmin. split; [by eapply alloc_retries_irrelevant|by apply alloc_run].
Qed.

(** [dealloc] of a live block, with a layout that fits it, always succeeds: it reads the
    block's header back from memory, gives exactly that block to the free list, keeps the
    invariant, and leaves the contents of every other live block alone. *)
Theorem heap_dealloc_correct h bs live1 l live2 layout : heap_inv h bs (live1 ++ l :: live2) →
  layout_size layout ≤ (lb_block l).2 →
  ∃ h' bs', dealloc (lb_data l) layout h = Ok tt h' ∧ heap_inv h' bs' (live1 ++ live2) ∧
    keeps (live1 ++ live2) h h' ∧ has_room bs' (lb_block l).1 (lb_block l).2.
Proof.
  intros Hinv Hs. destruct (dealloc_run _ _ _ _ _ _ Hinv Hs) as (h' & bs' & ? & ? & ? & ? & ?). eauto 6.
Qed.

(** C8: from the uninitialised heap, after any sequence of successful allocations and
    deallocations of held allocations, the held allocations are pairwise disjoint, aligned as
    their layouts ask and inside the heap, and each of them can be deallocated. Layouts have an
    alignment of at most 256 bytes: beyond it the padding does not fit in the byte that records
    it. *)
Theorem heap_history h0 h held : uninit h0 → rtc heap_step (h0, []) (h, held) →
  ForallOrdPairs apart_allocations held ∧
  Forall (λ p : allocation, p.1 mod layout_align p.2 = 0 ∧ KERNEL_HEAP_START ≤ p.1 ∧
    p.1 + layout_size p.2 ≤ KERNEL_HEAP_START + heap_size_in_bytes h) held ∧
  (∀ ptr layout, (ptr, layout) ∈ held → ∃ h', dealloc ptr layout h = Ok tt h').
Proof.
  intros Hu Hs. assert (history_inv (h, held)) as Hinv.
  { eapply history_preserved; [|exact Hs]. by left. }
  split; [|split].
  - destruct Hinv as [[_ Hn]|(bs & live & Hi & _ & Hh)]; cbn in *; [subst; constructor|].
    eapply held_apart; [done|apply Hi..].
  - destruct Hinv as [[_ Hn]|(bs & live & Hi & _ & Hh)]; cbn in *; [subst; constructor|].
    apply Forall_forall. intros p (i & Hp)%list_elem_of_lookup_1.
    destruct (Forall2_lookup_l _ _ _ _ _ Hh Hp) as (l & Hl & Hd & Ha & Hsz).
    pose proof (Forall_lookup_1 _ _ _ _ (hi_live _ _ _ Hi) Hl) as [(? & ? & _) [[? _] _] _ _].
    unfold lb_data, ALLOC_HEADER in *. split; [done|]. lia.
  - intros ptr layout (held1 & held2 & ->)%list_elem_of_split.
    destruct (dealloc_step_run _ _ _ _ _ Hinv) as (h' & ? & _). eauto.
Qed.
End history.

#[local] Existing Instance concrete_bit_field.

(** A kernel with an empty upper-half table and 64 free frames. *)
Definition demo_kernel_table : PageTable :=
  {| high_addresses := true; asid := 0; level0_table := 0xffff000040000000; level0_phy_addr := 0x40000000 |}.
Definition demo_uninit : Heap :=
  {| mem := ∅; head := 0; tail := 0; heap_size_in_bytes := 0; initialized := false;
     kernel_memory :=
       {| tables := {[ 0xffff000040000000 := zero_table ]};
          frames := {| allocated_pages := true :: replicate 63 false;
                       memory_start := 0x40000000; memory_length := 0x40000 |};
          modified := ∅ |} |}.
Definition demo_heap : Heap :=
  match init demo_kernel_table demo_uninit with Ok _ h => h | _ => demo_uninit end.
Definition demo_layout (size align : Z) : Layout := {| layout_size := size; layout_align := align |}.

Lemma demo_heap_inv : heap_inv demo_heap [first_block] [] ∧
  heap_size_in_bytes demo_heap = INIT_SIZE * PAGE_SIZE.
Proof.
  pose proof (init_run demo_kernel_table demo_uninit (conj eq_refl eq_refl)) as H. unfold demo_heap.
  assert (is_ok (init demo_kernel_table demo_uninit) = true) as E by (vm_compute; reflexivity).
  destruct (init demo_kernel_table demo_uninit) as [[] h|[]|w]; [exact H|discriminate E].
Qed.

Lemma demo_layout_ok : layout_ok (demo_layout 100 64).
Proof. split; [|vm_compute; split; congruence]. cbn. set_solver. Qed.

Example heap_alloc_correct_witness : ∃ ptr h',
  alloc demo_kernel_table 5 (demo_layout 100 64) demo_heap = Ok ptr h' ∧ ptr mod 64 = 0.
Proof.
  destruct demo_heap_inv as [Hinv Hsz].
  destruct (heap_alloc_correct demo_kernel_table 3 demo_heap [first_block] [] (demo_layout 100 64)
    Hinv demo_layout_ok) as [E H]; [rewrite Hsz; reflexivity|].
  assert (is_ok (alloc demo_kernel_table 2 (demo_layout 100 64) demo_heap) = true) as Eok
    by (vm_compute; reflexivity).
  change 5%nat with (2 + 3)%nat. rewrite E.
  destruct (alloc demo_kernel_table 2 _ demo_heap) as [ptr h'|[]|w]; [|discriminate Eok].
  exists ptr, h'. split; [reflexivity|]. destruct H as (_ & _ & _ & _ & H & _). exact H.
Defined.

Example heap_dealloc_correct_witness : ∃ h bs l h' bs',
  heap_inv h bs [l] ∧ dealloc (lb_data l) (demo_layout 100 64) h = Ok tt h' ∧ heap_inv h' bs' [].
Proof.
  destruct demo_heap_inv as [Hinv Hsz].
  pose proof (alloc_run demo_kernel_table 2 demo_heap [first_block] [] (demo_layout 100 64)
    Hinv demo_layout_ok) as H. rewrite Hsz in H. specialize (H ltac:(reflexivity)).
  assert (is_ok (alloc demo_kernel_table 2 (demo_layout 100 64) demo_heap) = true) as Eok
    by (vm_compute; reflexivity).
  destruct (alloc demo_kernel_table 2 _ demo_heap) as [ptr h|[]|w]; [|discriminate Eok].
  destruct H as (bs & l & Hi & Hp & Ha & Hs & _).
  destruct (heap_dealloc_correct h bs [] l [] (demo_layout 100 64) Hi) as (h' & bs' & Hrun & Hi' & _).
  { apply (holds_size (ptr, demo_layout 100 64) l h); [|split; [exact Hp|split; [exact Ha|exact Hs] ] ].
    eapply (Forall_cons_1 _ _ _ (hi_live _ _ _ Hi)). }
  exists h, bs, l, h', bs'. split; [exact Hi|split; [exact Hrun|exact Hi'] ].
Defined.

Example heap_history_witness : ∃ h ptr1 ptr2,
  rtc (heap_step demo_kernel_table) (demo_uninit, [])
    (h, [(ptr2, demo_layout 100 64); (ptr1, demo_layout 100 64)]) ∧
  (ptr2 + 100 ≤ ptr1 ∨ ptr1 + 100 ≤ ptr2).
Proof.
  assert (is_ok ((alloc demo_kernel_table 2 (demo_layout 100 64);;
    alloc demo_kernel_table 2 (demo_layout 100 64)) demo_uninit) = true) as E by (vm_compute; reflexivity).
  rewrite bind_unfold in E.
  destruct (alloc demo_kernel_table 2 _ demo_uninit) as [ptr1 h1|[]|w] eqn:E1; [|discriminate E].
  destruct (alloc demo_kernel_table 2 _ h1) as [ptr2 h2|[]|w] eqn:E2; [|discriminate E].
  assert (rtc (heap_step demo_kernel_table) (demo_uninit, [])
    (h2, [(ptr2, demo_layout 100 64); (ptr1, demo_layout 100 64)])) as Hs.
  { eapply rtc_l; [exact (step_alloc _ _ _ _ _ _ _ demo_layout_ok E1)|].
    eapply rtc_l; [exact (step_alloc _ _ _ _ _ _ _ demo_layout_ok E2)|]. apply rtc_refl. }
  exists h2, ptr1, ptr2. split; [exact Hs|].
  destruct (heap_history demo_kernel_table demo_uninit h2 _ (conj eq_refl eq_refl) Hs) as [H _].
  inversion H as [|?? Hhd _]. inversion Hhd as [|?? Happ _]. exact Happ.
Defined.

(** The padding of an allocation is stored in 8 bits: one of 256 bytes or more, which an
    alignment over 256 can need, is not the padding read back on deallocation. *)
Lemma large_padding_lost : padding_size (new_AllocatedBlockHeader 4096 264) = 8.
Proof. vm_compute. reflexivity. Qed.
