(* ===== verification/MsgQueue.v ===== *)
(** The message queues between kernel and user space ([kapi/src/queue.rs]): a bounded queue in
    shared memory that several threads post to and poll from without a lock. The atomic
    accesses of [post] and [poll] are the steps of a thread; threads interleave at them. *)
From stdpp Require Import base list functions.
From S2P Require Import Prelude.

Section queue.
Context {V : Type}.

(** [value] is [None] while the [MaybeUninit] is uninitialised. *)
Record Slot := {
  stamp : Z;
  value : option V;
}.

(** The shared memory: the [Counters] and the slots after them. *)
Record Shared := {
  head : Z;
  tail : Z;
  slots : list Slot;
}.

Record Queue := {
  id : Z;
  capacity : Z;
  one_lap : Z;
}.

(** [usize::next_power_of_two] *)
Definition next_power_of_two (n : Z) : option Z :=
  let p := if n <=? 1 then 1 else 2 ^ (Z.log2 (n - 1) + 1) in
  if p <? U64 then Some p else None.

Definition queue_size_in_bytes (counters_size slot_size slot_align capacity : Z) : option Z :=
  el_align ← usub slot_align 1;
  padded ← uadd slot_size el_align;
  bytes ← umul (Z.ldiff padded el_align) capacity;
  uadd counters_size bytes.

Definition new (id capacity : Z) : option Queue :=
  if 0 <? capacity then
    n ← uadd capacity 1;
    one_lap ← next_power_of_two n;
    Some {| id := id; capacity := capacity; one_lap := one_lap |}
  else None.

Definition set_head (m : Shared) (h : Z) : Shared := {| head := h; tail := tail m; slots := slots m |}.
Definition set_tail (m : Shared) (t : Z) : Shared := {| head := head m; tail := t; slots := slots m |}.
Definition set_slot (m : Shared) (i : Z) (s : Slot) : Shared :=
  {| head := head m; tail := tail m; slots := <[Z.to_nat i := s]> (slots m) |}.

(** The memory has [capacity] slots, with any content before. *)
Fixpoint initialize_loop (index n : nat) (m : Shared) : Shared :=
  match n with
  | O => m
  | S n' => initialize_loop (S index) n'
      (set_slot m (Z.of_nat index) {| stamp := Z.of_nat index; value := None |})
  end.
Definition initialize (self : Queue) (m : Shared) : Shared :=
  initialize_loop 0 (Z.to_nat (capacity self)) (set_tail (set_head m 0) 0).

(** *** One thread *)

(** Where a thread is in a call. *)
Inductive pc :=
  | Idle
  (* [push_or_else], called by [post v] *)
  | PostLoad (v : V)                 (* about to load the tail *)
  | PostSlot (v : V) (t : Z)         (* at the top of the loop *)
  | PostCas (v : V) (t new_tail : Z) (* about to move the tail *)
  | PostFull (v : V) (t : Z)         (* in the closure of [post], about to load the head *)
  | PostWrite (v : V) (t : Z)        (* the tail moved, about to write the value *)
  | PostStamp (t : Z)                (* about to store the stamp *)
  | PostDone (r : option V)          (* [None] is [Ok(())], [Some v] is [Err(v)] *)
  (* [poll] *)
  | PollLoad
  | PollSlot (h : Z)
  | PollCas (h new : Z)
  | PollRead (h : Z)
  | PollStamp (h : Z) (msg : V)
  | PollEmpty (h : Z)                (* about to load the tail *)
  | PollDone (r : option V)
  | Crashed.                         (* a panic, or a read of an uninitialised value *)

Definition index_of (self : Queue) (n : Z) : Z := Z.land n (one_lap self - 1).
Definition lap_of (self : Queue) (n : Z) : Z := Z.ldiff n (one_lap self - 1).

(** The counter after [n]. *)
Definition advance (self : Queue) (n : Z) : option Z :=
  if index_of self n + 1 <? capacity self then uadd n 1
  else Some (wrapping_add (lap_of self n) (one_lap self)).

Definition slot_at (m : Shared) (i : Z) : option Slot := slots m !! Z.to_nat i.

(** [compare_exchange_weak] may fail [spurious]ly. *)
Definition post_step (self : Queue) (spurious : bool) (m : Shared) (p : pc) : Shared * pc :=
  match p with
  | PostLoad v => (m, PostSlot v (tail m))
  | PostSlot v t =>
      match advance self t, slot_at m (index_of self t) with
      | Some new_tail, Some slot =>
          if t =? stamp slot then (m, PostCas v t new_tail)
          else
            match uadd t 1 with
            | None => (m, Crashed)
            | Some t1 =>
                if wrapping_add (stamp slot) (one_lap self) =? t1 then (m, PostFull v t)
                else (m, PostLoad v)
            end
      | _, _ => (m, Crashed)
      end
  | PostCas v t new_tail =>
      if (tail m =? t) && negb spurious then (set_tail m new_tail, PostWrite v t)
      else (m, PostSlot v (tail m))
  | PostFull v t =>
      if wrapping_add (head m) (one_lap self) =? t then (m, PostDone (Some v)) else (m, PostLoad v)
  | PostWrite v t =>
      match slot_at m (index_of self t) with
      | None => (m, Crashed)
      | Some slot =>
          (set_slot m (index_of self t) {| stamp := stamp slot; value := Some v |}, PostStamp t)
      end
  | PostStamp t =>
      match slot_at m (index_of self t), uadd t 1 with
      | Some slot, Some t1 =>
          (set_slot m (index_of self t) {| stamp := t1; value := value slot |}, PostDone None)
      | _, _ => (m, Crashed)
      end
  | _ => (m, p)
  end.

Definition poll_step (self : Queue) (spurious : bool) (m : Shared) (p : pc) : Shared * pc :=
  match p with
  | PollLoad => (m, PollSlot (head m))
  | PollSlot h =>
      match slot_at m (index_of self h), uadd h 1 with
      | Some slot, Some h1 =>
          if h1 =? stamp slot then
            match advance self h with
            | Some new => (m, PollCas h new)
            | None => (m, Crashed)
            end
          else if stamp slot =? h then (m, PollEmpty h)
          else (m, PollLoad)
      | _, _ => (m, Crashed)
      end
  | PollCas h new =>
      if (head m =? h) && negb spurious then (set_head m new, PollRead h)
      else (m, PollSlot (head m))
  | PollRead h =>
      match slot_at m (index_of self h) with
      | Some {| value := Some msg |} => (m, PollStamp h msg)
      | _ => (m, Crashed)
      end
  | PollStamp h msg =>
      match slot_at m (index_of self h) with
      | None => (m, Crashed)
      | Some slot =>
          (set_slot m (index_of self h)
             {| stamp := wrapping_add h (one_lap self); value := value slot |}, PollDone (Some msg))
      end
  | PollEmpty h => if tail m =? h then (m, PollDone None) else (m, PollLoad)
  | _ => (m, p)
  end.

(** A call with no other thread in between. *)
Fixpoint post_alone (self : Queue) (fuel : nat) (m : Shared) (p : pc) : option (Shared * option V) :=
  match p, fuel with
  | PostDone r, _ => Some (m, r)
  | Crashed, _ | _, O => None
  | _, S fuel' => let '(m', p') := post_step self false m p in post_alone self fuel' m' p'
  end.
Fixpoint poll_alone (self : Queue) (fuel : nat) (m : Shared) (p : pc) : option (Shared * option V) :=
  match p, fuel with
  | PollDone r, _ => Some (m, r)
  | Crashed, _ | _, O => None
  | _, S fuel' => let '(m', p') := poll_step self false m p in poll_alone self fuel' m' p'
  end.

Definition post (self : Queue) (m : Shared) (v : V) : option (Shared * option V) :=
  post_alone self 5 m (PostLoad v).
Definition poll (self : Queue) (m : Shared) : option (Shared * option V) :=
  poll_alone self 5 m PollLoad.

(** Calls one after the other, and what a bounded queue that holds [l] answers. *)
Inductive op := OpPost (v : V) | OpPoll.

Fixpoint run_ops (self : Queue) (m : Shared) (ops : list op) : option (list (option V)) :=
  match ops with
  | [] => Some []
  | o :: ops' =>
      '(m', r) ← match o with OpPost v => post self m v | OpPoll => poll self m end;
      rs ← run_ops self m' ops';
      Some (r :: rs)
  end.

Fixpoint spec_ops (cap : Z) (l : list V) (ops : list op) : list (option V) :=
  match ops with
  | [] => []
  | OpPost v :: ops' =>
      if Z.of_nat (length l) <? cap then None :: spec_ops cap (l ++ [v]) ops'
      else Some v :: spec_ops cap l ops'
  | OpPoll :: ops' => list.head l :: spec_ops cap (list.tail l) ops'
  end.

(** *** All threads *)

Record State := {
  shared : Shared;
  threads : nat → pc;
}.

Inductive event :=
  | CallPost (tid : nat) (v : V)
  | RetPost (tid : nat) (r : option V)
  | CallPoll (tid : nat)
  | RetPoll (tid : nat) (r : option V).

Definition set_pc (s : State) (tid : nat) (p : pc) : State :=
  {| shared := shared s; threads := <[tid := p]> (threads s) |}.

Inductive step (q : Queue) : State → option event → State → Prop :=
  | step_call_post s tid v : threads s tid = Idle →
      step q s (Some (CallPost tid v)) (set_pc s tid (PostLoad v))
  | step_ret_post s tid r : threads s tid = PostDone r →
      step q s (Some (RetPost tid r)) (set_pc s tid Idle)
  | step_call_poll s tid : threads s tid = Idle →
      step q s (Some (CallPoll tid)) (set_pc s tid PollLoad)
  | step_ret_poll s tid r : threads s tid = PollDone r →
      step q s (Some (RetPoll tid r)) (set_pc s tid Idle)
  | step_post s tid spurious m p : post_step q spurious (shared s) (threads s tid) = (m, p) →
      step q s None {| shared := m; threads := <[tid := p]> (threads s) |}
  | step_poll s tid spurious m p : poll_step q spurious (shared s) (threads s tid) = (m, p) →
      step q s None {| shared := m; threads := <[tid := p]> (threads s) |}.

(** [steps q n s tr s']: in [n] steps from [s] to [s'], with the calls and returns [tr]. *)
Inductive steps (q : Queue) : nat → State → list event → State → Prop :=
  | steps_nil s : steps q 0 s [] s
  | steps_snoc n s tr s1 o s2 : steps q n s tr s1 → step q s1 o s2 →
      steps q (S n) s (tr ++ option_list o) s2.

(** *** The specification: an atomic bounded queue *)

Inductive status :=
  | AIdle
  | APost (v : V)
  | APosted (r : option V)
  | APoll
  | APolled (r : option V).

Record AState := {
  contents : list V;
  statuses : nat → status;
}.

Definition set_status (a : AState) (tid : nat) (st : status) : AState :=
  {| contents := contents a; statuses := <[tid := st]> (statuses a) |}.

(** A call takes effect in one step between its call and its return. *)
Inductive astep (cap : Z) : AState → option event → AState → Prop :=
  | a_call_post a tid v : statuses a tid = AIdle →
      astep cap a (Some (CallPost tid v)) (set_status a tid (APost v))
  | a_ret_post a tid r : statuses a tid = APosted r →
      astep cap a (Some (RetPost tid r)) (set_status a tid AIdle)
  | a_call_poll a tid : statuses a tid = AIdle →
      astep cap a (Some (CallPoll tid)) (set_status a tid APoll)
  | a_ret_poll a tid r : statuses a tid = APolled r →
      astep cap a (Some (RetPoll tid r)) (set_status a tid AIdle)
  | a_enqueue a tid v : statuses a tid = APost v → Z.of_nat (length (contents a)) < cap →
      astep cap a None
        {| contents := contents a ++ [v]; statuses := <[tid := APosted None]> (statuses a) |}
  | a_full a tid v : statuses a tid = APost v → Z.of_nat (length (contents a)) = cap →
      astep cap a None (set_status a tid (APosted (Some v)))
  | a_dequeue a tid x c : statuses a tid = APoll → contents a = x :: c →
      astep cap a None {| contents := c; statuses := <[tid := APolled (Some x)]> (statuses a) |}
  | a_empty a tid : statuses a tid = APoll → contents a = [] →
      astep cap a None (set_status a tid (APolled None)).

Inductive asteps (cap : Z) : AState → list event → AState → Prop :=
  | asteps_nil a : asteps cap a [] a
  | asteps_snoc a tr a1 o a2 : asteps cap a tr a1 → astep cap a1 o a2 →
      asteps cap a (tr ++ option_list o) a2.
End queue.

Arguments Slot : clear implicits.
Arguments Shared : clear implicits.
Arguments pc : clear implicits.
Arguments State : clear implicits.
Arguments event : clear implicits.
Arguments status : clear implicits.
Arguments AState : clear implicits.
Arguments op : clear implicits.
