(* ===== verification/MsgQueueLin.v ===== *)
(** The message queue is linearizable: every interleaving of [post] and [poll] calls has the
    calls and returns of an atomic bounded queue. *)
From stdpp Require Import base list functions.
From S2P Require Import Prelude MsgQueue.

(** What [new] establishes. *)
Record queue_ok (q : Queue) : Prop := {
  qo_capacity : 0 < capacity q;
  qo_lap : capacity q < one_lap q;
  qo_pow : ∃ k, 0 ≤ k ∧ one_lap q = 2 ^ k;
}.

Lemma new_ok i cap q : new i cap = Some q → queue_ok q ∧ capacity q = cap.
Proof.
  unfold new. destruct (Z.ltb_spec 0 cap) as [Hc|]; [|done].
  destruct (uadd cap 1) as [n|] eqn:En; [|done]. apply uadd_Some in En as [-> _]. cbn.
  destruct (next_power_of_two (cap + 1)) as [l|] eqn:El; [|done]. intros [= <-].
  split; [|done]. unfold next_power_of_two in El.
  destruct (Z.leb_spec (cap + 1) 1); [lia|].
  destruct (_ <? U64) eqn:E; [|done]. injection El as <-. split; cbn; [done| |].
  - replace (cap + 1 - 1) with cap by lia. apply Z.log2_spec in Hc. rewrite Z.add_1_r. lia.
  - exists (Z.log2 (cap + 1 - 1) + 1). split; [|done]. pose proof (Z.log2_nonneg (cap + 1 - 1)). lia.
Qed.

(** *** Counters *)

Section counters.
Context (q : Queue) (Hq : queue_ok q).
Abbreviation cap := (capacity q).
Abbreviation lap := (one_lap q).

(** The value of a counter after [n] operations. *)
Definition enc (n : Z) : Z := (n / cap) * lap + n mod cap.

(** [n] operations do not wrap the counters around. *)
Definition room (n : Z) : Prop := (n / cap + 4) * lap ≤ U64.

Lemma cap_lap : 0 < cap < lap.
Proof. destruct Hq as [? ? _]. lia. Qed.

Lemma enc_mod n : (enc n) mod lap = n mod cap.
Proof.
  pose proof cap_lap. unfold enc. rewrite Z.add_comm, Z_mod_plus_full.
  apply Z.mod_small. pose proof (Z.mod_pos_bound n cap). lia.
Qed.

Lemma enc_index n : index_of q (enc n) = n mod cap.
Proof.
  unfold index_of. destruct (qo_pow _ Hq) as (k & Hk & El). rewrite <- enc_mod, El.
  replace (2 ^ k - 1) with (Z.ones k) by (rewrite Z.ones_equiv; lia). by apply Z.land_ones.
Qed.

Lemma enc_lap n : lap_of q (enc n) = n / cap * lap.
Proof.
  unfold lap_of. destruct (qo_pow _ Hq) as (k & Hk & El).
  replace (lap - 1) with (Z.ones k) by (rewrite El, Z.ones_equiv; lia).
  rewrite Z.ldiff_ones_r, Z.shiftr_div_pow2, Z.shiftl_mul_pow2, <- El by done. f_equal.
  pose proof cap_lap. unfold enc. rewrite Z.div_add_l by lia.
  rewrite (Z.div_small (n mod cap)) by (pose proof (Z.mod_pos_bound n cap); lia). lia.
Qed.

Lemma enc_div n : enc n / lap = n / cap.
Proof.
  pose proof cap_lap. unfold enc. rewrite Z.div_add_l by lia.
  rewrite (Z.div_small (n mod cap)) by (pose proof (Z.mod_pos_bound n cap); lia). lia.
Qed.

Lemma enc_inj n m : enc n = enc m → n = m.
Proof.
  intros E. pose proof cap_lap. rewrite (Z.div_mod n cap), (Z.div_mod m cap) by lia.
  by rewrite <- (enc_div n), <- (enc_div m), <- (enc_mod n), <- (enc_mod m), E.
Qed.

(** A stamp of a slot that waits for a reader is not one that waits for a writer. *)
Lemma enc_succ_ne n c : n mod cap = c mod cap → enc n ≠ enc c + 1.
Proof.
  intros Hm E. pose proof cap_lap. pose proof (Z.mod_pos_bound c cap ltac:(lia)) as Hb.
  assert ((enc c + 1) mod lap = c mod cap + 1) as H1.
  { rewrite Z.add_mod, enc_mod by lia. rewrite (Z.mod_small 1) by lia. apply Z.mod_small. lia. }
  rewrite <- E, enc_mod in H1. lia.
Qed.

Lemma enc_add_cap n : enc (n + cap) = enc n + lap.
Proof.
  pose proof cap_lap. unfold enc. replace (n + cap) with (n + 1 * cap) by lia.
  rewrite Z.div_add, Z_mod_plus_full by lia. lia.
Qed.

Lemma enc_succ n : enc (n + 1) =
  if n mod cap + 1 <? cap then enc n + 1 else (n / cap + 1) * lap.
Proof.
  pose proof cap_lap. pose proof (Z.mod_pos_bound n cap ltac:(lia)) as Hb.
  pose proof (Z.div_mod n cap ltac:(lia)) as Hn. unfold enc.
  destruct (Z.ltb_spec (n mod cap + 1) cap).
  - replace (n + 1) with (n mod cap + 1 + n / cap * cap) by lia.
    rewrite Z.div_add, Z_mod_plus_full by lia.
    rewrite (Z.div_small (n mod cap + 1)), (Z.mod_small (n mod cap + 1)) by lia. lia.
  - replace (n + 1) with (0 + (n / cap + 1) * cap) by lia.
    rewrite Z.div_add, Z_mod_plus_full by lia. rewrite Z.div_0_l, Z.mod_0_l by lia. lia.
Qed.

Lemma room_le n m : n ≤ m → room m → room n.
Proof.
  intros Hn Hm. unfold room in *. pose proof cap_lap. pose proof (Z.div_le_mono n m cap). nia.
Qed.

Lemma enc_bound n : 0 ≤ n → room n → 0 ≤ enc n ∧ enc n + 3 * lap ≤ U64.
Proof.
  intros Hn Hr. unfold room, enc in *. pose proof cap_lap.
  pose proof (Z.mod_pos_bound n cap). pose proof (Z.div_pos n cap). nia.
Qed.

Lemma enc_uadd n : 0 ≤ n → room n → uadd (enc n) 1 = Some (enc n + 1).
Proof.
  intros Hn Hr. pose proof (enc_bound n Hn Hr). pose proof cap_lap. apply uadd_Some. lia.
Qed.

Lemma enc_wrapping n : 0 ≤ n → room n → wrapping_add (enc n) lap = enc (n + cap).
Proof.
  intros Hn Hr. pose proof (enc_bound n Hn Hr). pose proof cap_lap.
  rewrite enc_add_cap. apply wrapping_add_small. lia.
Qed.

Lemma advance_enc n : 0 ≤ n → room n → advance q (enc n) = Some (enc (n + 1)).
Proof.
  intros Hn Hr. unfold advance. rewrite enc_index, enc_lap, enc_succ.
  destruct (_ <? cap); [by apply enc_uadd|]. f_equal. pose proof (enc_bound n Hn Hr).
  pose proof cap_lap. pose proof (Z.div_pos n cap). unfold room in Hr.
  rewrite wrapping_add_small; nia.
Qed.

Lemma same_slot n m : n mod cap = m mod cap → n < m → n + cap ≤ m.
Proof.
  intros Hm Hlt. pose proof cap_lap. pose proof (Z.div_mod n cap ltac:(lia)).
  pose proof (Z.div_mod m cap ltac:(lia)).
  assert (n / cap < m / cap) by (apply Z.nle_gt; intros ?; nia).
  assert (cap * (n / cap + 1) ≤ cap * (m / cap)) by (apply Z.mul_le_mono_nonneg_l; lia). lia.
Qed.
End counters.

(** *** The invariant *)

Section lin.
Context {V : Type} (q : Queue) (Hq : queue_ok q).
Abbreviation cap := (capacity q).
Abbreviation enc := (enc q).

(** What happens to a slot between two uses by [post]. *)
Inductive phase :=
  | Free                    (* may be claimed by a [post] *)
  | Writing (tid : nat)     (* claimed, the stamp is not yet stored *)
  | Full                    (* may be claimed by a [poll] *)
  | Reading (tid : nat).

(** All values posted so far in the order of their tickets, how many of them have been polled,
    and for each slot the ticket it is used for and its phase. *)
Record ghost := {
  hist : list V;
  popped : Z;
  phases : Z → Z * phase;
}.

Definition pushed (g : ghost) : Z := Z.of_nat (length (hist g)).
Definition entry (g : ghost) (n : Z) : option V := hist g !! Z.to_nat n.
Definition holds_entry (g : ghost) (n : Z) (s : Slot V) : Prop :=
  ∃ v, value s = Some v ∧ entry g n = Some v.

Definition slot_inv (g : ghost) (i : Z) (s : Slot V) : Prop :=
  let '(c, ph) := phases g i in
  0 ≤ c ∧ c mod cap = i ∧
  match ph with
  | Free => stamp s = enc c ∧ pushed g ≤ c < popped g + cap
  | Writing _ => stamp s = enc c ∧ popped g ≤ c < pushed g ∧ pushed g ≤ c + cap
  | Full => stamp s = enc c + 1 ∧ popped g ≤ c < pushed g ∧ pushed g ≤ c + cap ∧ holds_entry g c s
  | Reading _ => stamp s = enc c + 1 ∧ c < popped g ∧ pushed g ≤ c + cap ∧ holds_entry g c s
  end.

Definition pc_inv (g : ghost) (m : Shared V) (tid : nat) (p : pc V) : Prop :=
  match p with
  | Idle | PostLoad _ | PostDone _ | PollLoad | PollDone _ => True
  | PostSlot _ t | PostFull _ t => ∃ n, t = enc n ∧ 0 ≤ n ≤ pushed g
  | PostCas _ t t' => ∃ n, t = enc n ∧ t' = enc (n + 1) ∧ 0 ≤ n ≤ pushed g ∧
      (n = pushed g → phases g (n mod cap) = (n, Free))
  | PostWrite v t => ∃ n, t = enc n ∧ 0 ≤ n ∧ phases g (n mod cap) = (n, Writing tid) ∧
      entry g n = Some v
  | PostStamp t => ∃ n s, t = enc n ∧ 0 ≤ n ∧ phases g (n mod cap) = (n, Writing tid) ∧
      slot_at m (n mod cap) = Some s ∧ holds_entry g n s
  | PollSlot h | PollEmpty h => ∃ n, h = enc n ∧ 0 ≤ n ≤ popped g
  | PollCas h h' => ∃ n, h = enc n ∧ h' = enc (n + 1) ∧ 0 ≤ n ≤ popped g ∧
      (n = popped g → phases g (n mod cap) = (n, Full))
  | PollRead h => ∃ n, h = enc n ∧ 0 ≤ n ∧ phases g (n mod cap) = (n, Reading tid)
  | PollStamp h v => ∃ n, h = enc n ∧ 0 ≤ n ∧ phases g (n mod cap) = (n, Reading tid) ∧
      entry g n = Some v
  | Crashed => False
  end.

(** The thread that claimed a slot is in the part of the call that uses it. *)
Definition owned (thr : nat → pc V) (e : Z * phase) : Prop :=
  match e with
  | (c, Writing tid) => (∃ v, thr tid = PostWrite v (enc c)) ∨ thr tid = PostStamp (enc c)
  | (c, Reading tid) => thr tid = PollRead (enc c) ∨ ∃ v, thr tid = PollStamp (enc c) v
  | _ => True
  end.

Record inv (m : Shared V) (thr : nat → pc V) (g : ghost) : Prop := {
  iv_slots : ∀ i, 0 ≤ i < cap → ∃ s, slot_at m i = Some s ∧ slot_inv g i s;
  iv_head : head m = enc (popped g);
  iv_tail : tail m = enc (pushed g);
  iv_bounds : 0 ≤ popped g ≤ pushed g ∧ pushed g ≤ popped g + cap;
  iv_threads : ∀ tid, pc_inv g m tid (thr tid);
  iv_owned : ∀ i, 0 ≤ i < cap → owned thr (phases g i);
}.

Lemma mod_bound n : 0 ≤ n mod cap < cap.
Proof. apply Z.mod_pos_bound, Hq. Qed.

(** *** What one thread does does not disturb the others *)

Record evolves (tid : nat) (g : ghost) (m : Shared V) (g' : ghost) (m' : Shared V) : Prop := {
  ev_pushed : pushed g ≤ pushed g';
  ev_popped : popped g ≤ popped g';
  ev_hist : ∀ n v, entry g n = Some v → entry g' n = Some v;
  ev_phases : ∀ i, 0 ≤ i < cap → phases g' i = phases g i ∧ slot_at m' i = slot_at m i ∨
    match phases g i with
    | (c, Free) => c = pushed g → pushed g < pushed g'
    | (c, Full) => c = popped g → popped g < popped g'
    | (_, Writing t) | (_, Reading t) => t = tid
    end;
}.

Lemma pc_inv_stable tid g m g' m' tid' p : evolves tid g m g' m' → tid' ≠ tid →
  pc_inv g m tid' p → pc_inv g' m' tid' p.
Proof.
  intros [Hpu Hpo Hh Hph] Hne. destruct p; cbn; try done.
  - intros (n & ? & ?). exists n. split; [done|lia].
  - intros (n & ? & ? & ? & Hn). exists n. split_and!; [done..|lia|lia|]. intros En.
    assert (n = pushed g) as Hp by lia. specialize (Hn Hp).
    destruct (Hph (n mod cap) (mod_bound n)) as [[-> _]|Hx]; [done|]. rewrite Hn in Hx. lia.
  - intros (n & ? & ?). exists n. split; [done|lia].
  - intros (n & ? & ? & Hn & He). exists n. split_and!; [done..| |by apply Hh].
    destruct (Hph (n mod cap) (mod_bound n)) as [[-> _]|Hx]; [done|]. by rewrite Hn in Hx.
  - intros (n & s & ? & ? & Hn & Hs & v & Hv & He). exists n, s.
    destruct (Hph (n mod cap) (mod_bound n)) as [[-> ->]|Hx]; [|by rewrite Hn in Hx].
    split_and!; try done. exists v. split; [done|by apply Hh].
  - intros (n & ? & ?). exists n. split; [done|lia].
  - intros (n & ? & ? & ? & Hn). exists n. split_and!; [done..|lia|lia|]. intros En.
    assert (n = popped g) as Hp by lia. specialize (Hn Hp).
    destruct (Hph (n mod cap) (mod_bound n)) as [[-> _]|Hx]; [done|]. rewrite Hn in Hx. lia.
  - intros (n & ? & ? & Hn). exists n. split_and!; [done..|].
    destruct (Hph (n mod cap) (mod_bound n)) as [[-> _]|Hx]; [done|]. by rewrite Hn in Hx.
  - intros (n & ? & ? & Hn & He). exists n. split_and!; [done..| |by apply Hh].
    destruct (Hph (n mod cap) (mod_bound n)) as [[-> _]|Hx]; [done|]. by rewrite Hn in Hx.
  - intros (n & ? & ?). exists n. split; [done|lia].
Qed.

(** A thread moves to [p] without touching memory. *)
Lemma inv_local m thr g tid p : inv m thr g → pc_inv g m tid p →
  (∀ i, 0 ≤ i < cap → owned (<[tid := p]> thr) (phases g i)) → inv m (<[tid := p]> thr) g.
Proof.
  intros [Hs Hhd Htl Hb Ht Ho] Hp Ho'. split; try done. intros tid'.
  destruct (decide (tid' = tid)) as [->|Hne]; [by rewrite fn_lookup_insert|].
  by rewrite fn_lookup_insert_ne by done.
Qed.

(** It claimed no slot. *)
Definition claims_nothing (p : pc V) : Prop :=
  match p with PostWrite _ _ | PostStamp _ | PollRead _ | PollStamp _ _ => False | _ => True end.

Lemma owned_local thr tid p e : claims_nothing (thr tid) → owned thr e → owned (<[tid := p]> thr) e.
Proof.
  intros Hc Ho. destruct e as [c [|t| |t]]; try done; cbn in *;
    (destruct (decide (t = tid)) as [->|Hne]; [|by rewrite fn_lookup_insert_ne by done]).
  - by destruct Ho as [[v Ho]|Ho]; rewrite Ho in Hc.
  - by destruct Ho as [Ho|[v Ho] ]; rewrite Ho in Hc.
Qed.

Lemma inv_move m thr g tid p : inv m thr g → claims_nothing (thr tid) → pc_inv g m tid p →
  inv m (<[tid := p]> thr) g.
Proof.
  intros Hinv Hc Hp. apply inv_local; [done..|]. intros i Hi. apply owned_local; [done|].
  by apply (iv_owned _ _ _ Hinv).
Qed.

Lemma slot_inv_other g g' i s : 0 ≤ popped g ≤ pushed g → phases g' i = phases g i →
  (∀ n v, entry g n = Some v → entry g' n = Some v) →
  (pushed g' = pushed g ∨ pushed g' = pushed g + 1 ∧ pushed g mod cap ≠ i) →
  (popped g' = popped g ∨ popped g' = popped g + 1 ∧ popped g mod cap ≠ i) →
  slot_inv g i s → slot_inv g' i s.
Proof.
  intros Hb Hph Hh Hpu Hpo. unfold slot_inv. rewrite Hph. destruct (phases g i) as [c ph].
  intros (Hc & Hm & H). split; [done|]. split; [done|].
  assert (c ≠ pushed g ∨ pushed g' = pushed g) by (destruct Hpu as [?|[? ?]]; [tauto|left; congruence]).
  assert (c ≠ popped g ∨ popped g' = popped g) by (destruct Hpo as [?|[? ?]]; [tauto|left; congruence]).
  assert (c + cap ≠ pushed g ∨ pushed g' = pushed g).
  { destruct Hpu as [?|[? Hne]]; [tauto|]. left. intros Ec. apply Hne. rewrite <- Ec.
    replace (c + cap) with (c + 1 * cap) by lia. by rewrite Z_mod_plus_full. }
  assert (holds_entry g c s → holds_entry g' c s) as Hhold.
  { intros (v & ? & ?). exists v. split; [done|by apply Hh]. }
  destruct ph; destruct H as (Hs & H); (split; [done|]); [lia|lia| |].
  - destruct H as (? & ? & ?). split_and!; [lia..|by apply Hhold].
  - destruct H as (? & ? & ?). split_and!; [lia..|by apply Hhold].
Qed.

(** A thread changes slot [i0]. *)
Lemma inv_change m thr g tid p m' g' i0 : inv m thr g → 0 ≤ i0 < cap → evolves tid g m g' m' →
  (∀ i, i ≠ i0 → phases g' i = phases g i) →
  (∀ i, 0 ≤ i < cap → i ≠ i0 → slot_at m' i = slot_at m i) →
  (pushed g' = pushed g ∨ pushed g' = pushed g + 1 ∧ pushed g mod cap = i0) →
  (popped g' = popped g ∨ popped g' = popped g + 1 ∧ popped g mod cap = i0) →
  (∃ s, slot_at m' i0 = Some s ∧ slot_inv g' i0 s) →
  head m' = enc (popped g') → tail m' = enc (pushed g') →
  0 ≤ popped g' ≤ pushed g' ∧ pushed g' ≤ popped g' + cap →
  pc_inv g' m' tid p → owned (<[tid := p]> thr) (phases g' i0) →
  (∀ i, 0 ≤ i < cap → i ≠ i0 → owned (<[tid := p]> thr) (phases g i)) →
  inv m' (<[tid := p]> thr) g'.
Proof.
  intros [Hs _ _ [Hb _] Ht Ho] Hi0 Hev Hph Hsl Hpu Hpo Hs0 Hhd Htl Hb' Hp Ho0 Ho'. split; try done.
  - intros i Hi. destruct (decide (i = i0)) as [->|Hne]; [done|].
    destruct (Hs i Hi) as (s & Hsi & Hinv). exists s. rewrite Hsl by done. split; [done|].
    eapply slot_inv_other; [done|by apply Hph|apply Hev| | |done].
    + destruct Hpu as [?|[? ?]]; [by left|right; split; [done|congruence] ].
    + destruct Hpo as [?|[? ?]]; [by left|right; split; [done|congruence] ].
  - intros tid'. destruct (decide (tid' = tid)) as [->|Hne]; [by rewrite fn_lookup_insert|].
    rewrite fn_lookup_insert_ne by done. by eapply pc_inv_stable.
  - intros i Hi. destruct (decide (i = i0)) as [->|Hne]; [done|].
    rewrite Hph by done. by apply Ho'.
Qed.

(** The slot a thread is using is the only one it has claimed. *)
Lemma owned_other m thr g tid p n i : inv m thr g → 0 ≤ i < cap → i ≠ n mod cap →
  match thr tid with
  | PostWrite _ t | PostStamp t | PollRead t | PollStamp t _ => t = enc n
  | _ => False
  end → owned (<[tid := p]> thr) (phases g i).
Proof.
  intros Hinv Hi Hne Hthr. destruct (iv_slots _ _ _ Hinv i Hi) as (s & _ & Hs).
  pose proof (iv_owned _ _ _ Hinv i Hi) as Ho. unfold slot_inv in Hs.
  destruct (phases g i) as [c ph]. destruct Hs as (_ & Hc & _).
  destruct ph as [|t| |t]; try done; cbn in *;
    (destruct (decide (t = tid)) as [->|Ht]; [exfalso|by rewrite fn_lookup_insert_ne by done]).
  - destruct Ho as [[v Ho]|Ho]; rewrite Ho in Hthr; apply enc_inj in Hthr; congruence.
  - destruct Ho as [Ho|[v Ho] ]; rewrite Ho in Hthr; apply enc_inj in Hthr; congruence.
Qed.

Lemma slot_at_set (m : Shared V) i s s0 : slot_at m i = Some s0 → slot_at (set_slot m i s) i = Some s.
Proof.
  unfold slot_at. cbn. intros H. apply list_lookup_insert_eq. by eapply lookup_lt_Some.
Qed.
Lemma slot_at_set_ne (m : Shared V) i j s : 0 ≤ i → 0 ≤ j → j ≠ i →
  slot_at (set_slot m i s) j = slot_at m j.
Proof. intros ???. unfold slot_at. cbn. apply list_lookup_insert_ne. lia. Qed.

(** *** The simulation *)

Definition abs_pc (g : ghost) (p : pc V) (st : status V) : Prop :=
  match p with
  | Idle => st = AIdle
  | PostLoad v | PostSlot v _ | PostCas v _ _ | PostFull v _ => st = APost v
  | PostWrite _ _ | PostStamp _ => st = APosted None
  | PostDone r => st = APosted r
  | PollLoad | PollSlot _ | PollCas _ _ | PollEmpty _ => st = APoll
  | PollRead h => ∃ n x, h = enc n ∧ 0 ≤ n ∧ entry g n = Some x ∧ st = APolled (Some x)
  | PollStamp _ v => st = APolled (Some v)
  | PollDone r => st = APolled r
  | Crashed => False
  end.

Record sim (s : State V) (a : AState V) (g : ghost) : Prop := {
  sim_inv : inv (shared s) (threads s) g;
  sim_contents : contents a = drop (Z.to_nat (popped g)) (hist g);
  sim_threads : ∀ tid, abs_pc g (threads s tid) (statuses a tid);
}.

(** Each step of the queue is one of the specification, or none. *)
Definition simulated (a : AState V) (g : ghost) (o : option (event V)) (s' : State V) : Prop :=
  ∃ a' g', (astep cap a o a' ∨ o = None ∧ a' = a) ∧ sim s' a' g' ∧ pushed g' ≤ pushed g + 1.

Lemma abs_pc_mono g g' p st : (∀ n v, entry g n = Some v → entry g' n = Some v) →
  abs_pc g p st → abs_pc g' p st.
Proof.
  intros Hh. destruct p; try done. intros (n & x & ? & ? & ? & ?). exists n, x. auto.
Qed.

Lemma abs_threads g g' (thr : nat → pc V) sts tid p st :
  (∀ n v, entry g n = Some v → entry g' n = Some v) → abs_pc g' p st →
  (∀ t, abs_pc g (thr t) (sts t)) → ∀ t, abs_pc g' (<[tid := p]> thr t) (<[tid := st]> sts t).
Proof.
  intros Hh Hp Ht t. destruct (decide (t = tid)) as [->|Hne].
  - by rewrite !fn_lookup_insert.
  - rewrite !fn_lookup_insert_ne by done. by eapply abs_pc_mono.
Qed.

Lemma abs_threads_same g g' (thr : nat → pc V) sts tid p :
  (∀ n v, entry g n = Some v → entry g' n = Some v) → abs_pc g' p (sts tid) →
  (∀ t, abs_pc g (thr t) (sts t)) → ∀ t, abs_pc g' (<[tid := p]> thr t) (sts t).
Proof.
  intros Hh Hp Ht t. destruct (decide (t = tid)) as [->|Hne].
  - by rewrite fn_lookup_insert.
  - rewrite fn_lookup_insert_ne by done. by eapply abs_pc_mono.
Qed.

(** A step that changes nothing but the thread's own place. *)
Lemma simulated_silent s a g tid p : sim s a g → claims_nothing (threads s tid) →
  pc_inv g (shared s) tid p → abs_pc g p (statuses a tid) →
  simulated a g None {| shared := shared s; threads := <[tid := p]> (threads s) |}.
Proof.
  intros [Hinv Hc Ht] Hcl Hp Ha. exists a, g. split; [by right|]. split; [|lia].
  split; [by apply inv_move|done|by eapply abs_threads_same].
Qed.

(** A step that the specification also makes, without changing the contents. *)
Lemma simulated_event s a g o tid p st : sim s a g → claims_nothing (threads s tid) →
  pc_inv g (shared s) tid p → abs_pc g p st → astep cap a o (set_status a tid st) →
  simulated a g o (set_pc s tid p).
Proof.
  intros [Hinv Hc Ht] Hcl Hp Ha Hst. exists (set_status a tid st), g. split; [by left|]. split; [|lia].
  split; [by apply inv_move|done|by eapply abs_threads].
Qed.

(** *** The steps that change memory *)

(** A claimed slot. *)
Definition claim (g : ghost) (n : Z) (ph : phase) : ghost :=
  {| hist := hist g; popped := popped g; phases := <[n mod cap := (n, ph)]> (phases g) |}.

Lemma claim_at g n ph : phases (claim g n ph) (n mod cap) = (n, ph).
Proof. apply fn_lookup_insert. Qed.
Lemma claim_other g n ph i : i ≠ n mod cap → phases (claim g n ph) i = phases g i.
Proof. intros. by apply fn_lookup_insert_ne. Qed.

Definition push (g : ghost) (v : V) : ghost :=
  {| hist := hist g ++ [v]; popped := popped g; phases := phases g |}.
Definition pop (g : ghost) : ghost :=
  {| hist := hist g; popped := popped g + 1; phases := phases g |}.

Lemma pushed_push g v : pushed (push g v) = pushed g + 1.
Proof. unfold pushed. cbn. rewrite length_app. cbn. lia. Qed.
Lemma entry_push g v n x : entry g n = Some x → entry (push g v) n = Some x.
Proof. unfold entry. cbn. apply lookup_app_l_Some. Qed.
Lemma entry_pushed g v : entry (push g v) (pushed g) = Some v.
Proof. unfold entry, pushed. cbn. rewrite Nat2Z.id. by apply list_lookup_middle. Qed.

Lemma length_contents s a g : sim s a g → Z.of_nat (length (contents a)) = pushed g - popped g.
Proof.
  intros [Hinv -> _]. rewrite length_drop.
  pose proof (iv_bounds _ _ _ Hinv). unfold pushed in *. lia.
Qed.

Lemma slot_phase m thr g n : inv m thr g → ∃ s, slot_at m (n mod cap) = Some s ∧ slot_inv g (n mod cap) s.
Proof. intros Hinv. apply (iv_slots _ _ _ Hinv), mod_bound. Qed.

(** [post] moved the tail: its value is in the queue. *)
Lemma post_claim s a g tid v n : sim s a g → threads s tid = PostCas v (enc n) (enc (n + 1)) →
  n = pushed g → phases g (n mod cap) = (n, Free) →
  simulated a g None {| shared := set_tail (shared s) (enc (n + 1));
                        threads := <[tid := PostWrite v (enc n)]> (threads s) |}.
Proof.
  intros Hsim Hthr Hn Hph. pose proof Hsim as [Hinv Hc Ht].
  pose proof (iv_bounds _ _ _ Hinv) as Hb. pose proof (length_contents _ _ _ Hsim) as Hlen.
  destruct (slot_phase _ _ _ n Hinv) as (sl & Hsl & Hsi).
  unfold slot_inv in Hsi. rewrite Hph in Hsi. destruct Hsi as (Hn0 & _ & Hst & Hfree).
  set (g' := claim (push g v) n (Writing tid)).
  assert (pushed g' = pushed g + 1) as Hpu by apply pushed_push.
  assert (phases g' (n mod cap) = (n, Writing tid)) as Hg' by apply claim_at.
  assert (∀ k x, entry g k = Some x → entry g' k = Some x) as Hh by (intros; by apply entry_push).
  assert (entry g' n = Some v) as Hv by (rewrite Hn; apply entry_pushed).
  exists {| contents := contents a ++ [v]; statuses := <[tid := APosted None]> (statuses a) |}, g'.
  split; [|split; [|lia] ].
  { left. apply a_enqueue; [|lia]. specialize (Ht tid). by rewrite Hthr in Ht. }
  split; [|cbn; rewrite Hc; symmetry; apply drop_app_le; unfold pushed in *; lia|by eapply abs_threads].
  eapply (inv_change _ _ g tid _ _ g' (n mod cap)); [done|apply mod_bound|..]; try done.
  - split; [lia|done|done|]. intros i Hi. destruct (decide (i = n mod cap)) as [->|Hne].
    + right. rewrite Hph. lia.
    + left. split; [by apply (claim_other (push g v))|done].
  - intros. by apply (claim_other (push g v)).
  - right. split; [done|congruence].
  - by left.
  - exists sl. split; [done|]. unfold slot_inv. rewrite Hg'. change (popped g') with (popped g).
    pose proof (qo_capacity _ Hq). split_and!; try done; lia.
  - apply Hinv.
  - cbn. by rewrite Hpu, Hn.
  - cbn [popped g' claim push]. lia.
  - exists n. split_and!; done.
  - rewrite Hg'. cbn. left. exists v. by rewrite fn_lookup_insert.
  - intros i Hi Hne. apply owned_local; [by rewrite Hthr|]. by apply (iv_owned _ _ _ Hinv).
Qed.

(** [post] writes the value into the slot it claimed. *)
Lemma post_write s a g tid v n : sim s a g → threads s tid = PostWrite v (enc n) → 0 ≤ n →
  phases g (n mod cap) = (n, Writing tid) → entry g n = Some v →
  ∃ m, post_step q false (shared s) (threads s tid) = (m, PostStamp (enc n)) ∧
    simulated a g None {| shared := m; threads := <[tid := PostStamp (enc n)]> (threads s) |}.
Proof.
  intros [Hinv Hc Ht] Hthr Hn0 Hph Hv. destruct (slot_phase _ _ _ n Hinv) as (sl & Hsl & Hsi).
  rewrite Hthr. cbn. rewrite enc_index, Hsl by done. eexists. split; [done|].
  unfold slot_inv in Hsi. rewrite Hph in Hsi. destruct Hsi as (_ & _ & Hsi).
  exists a, g. split; [by right|]. split; [|lia].
  split; [|done|eapply abs_threads_same; [done| |done]; specialize (Ht tid); by rewrite Hthr in Ht].
  eapply (inv_change _ _ g tid _ _ g (n mod cap)); [done|apply mod_bound|..]; try done; try apply Hinv; cbn.
  - split; [lia|lia|done|]. intros i Hi. destruct (decide (i = n mod cap)) as [->|Hne].
    + right. by rewrite Hph.
    + left. split; [done|]. apply slot_at_set_ne; [apply mod_bound|lia|done].
  - intros i Hi Hne. apply slot_at_set_ne; [apply mod_bound|lia|done].
  - by left.
  - by left.
  - eexists. split; [by eapply slot_at_set|]. unfold slot_inv. rewrite Hph. split_and!; try done; apply Hsi.
  - exists n. eexists. split_and!; [done..|by eapply slot_at_set|]. exists v. done.
  - rewrite Hph. cbn. right. by rewrite fn_lookup_insert.
  - intros i Hi Hne. eapply owned_other; [done..|]. by rewrite Hthr.
Qed.

(** The stamp hands the slot to [poll]. *)
Lemma post_stamp s a g tid n sl : sim s a g → threads s tid = PostStamp (enc n) → 0 ≤ n → room q n →
  phases g (n mod cap) = (n, Writing tid) → slot_at (shared s) (n mod cap) = Some sl →
  holds_entry g n sl →
  ∃ m, post_step q false (shared s) (threads s tid) = (m, PostDone None) ∧
    simulated a g None {| shared := m; threads := <[tid := PostDone None]> (threads s) |}.
Proof.
  intros [Hinv Hc Ht] Hthr Hn0 Hroom Hph Hsl Hv. destruct (slot_phase _ _ _ n Hinv) as (sl' & Hsl' & Hsi).
  assert (sl' = sl) as -> by congruence.
  rewrite Hthr. cbn. rewrite enc_index, Hsl, enc_uadd by done. eexists. split; [done|].
  unfold slot_inv in Hsi. rewrite Hph in Hsi. destruct Hsi as (_ & _ & _ & Hb1 & Hb2).
  set (g' := claim g n Full). assert (phases g' (n mod cap) = (n, Full)) as Hg' by apply claim_at.
  exists a, g'. split; [by right|]. split; [|unfold pushed; cbn; lia].
  split; [|done|eapply abs_threads_same; [done| |done]; specialize (Ht tid); by rewrite Hthr in Ht].
  eapply (inv_change _ _ g tid _ _ g' (n mod cap)); [done|apply mod_bound|..]; try done; try apply Hinv; cbn.
  - split; [done|done|done|]. intros i Hi. destruct (decide (i = n mod cap)) as [->|Hne].
    + right. by rewrite Hph.
    + left. split; [by apply claim_other|]. apply slot_at_set_ne; [apply mod_bound|lia|done].
  - intros. by apply claim_other.
  - intros i Hi Hne. apply slot_at_set_ne; [apply mod_bound|lia|done].
  - by left.
  - by left.
  - eexists. split; [by eapply slot_at_set|]. unfold slot_inv. rewrite Hg'. split_and!; try done; apply Hb1.
  - by rewrite fn_lookup_insert.
  - intros i Hi Hne. eapply owned_other; [done..|]. by rewrite Hthr.
Qed.

(** [poll] moved the head: the first value left the queue. *)
Lemma poll_claim s a g tid n : sim s a g → threads s tid = PollCas (enc n) (enc (n + 1)) →
  n = popped g → phases g (n mod cap) = (n, Full) →
  simulated a g None {| shared := set_head (shared s) (enc (n + 1));
                        threads := <[tid := PollRead (enc n)]> (threads s) |}.
Proof.
  intros Hsim Hthr Hn Hph. pose proof Hsim as [Hinv Hc Ht].
  pose proof (iv_bounds _ _ _ Hinv) as Hb.
  destruct (slot_phase _ _ _ n Hinv) as (sl & Hsl & Hsi).
  unfold slot_inv in Hsi. rewrite Hph in Hsi. destruct Hsi as (Hn0 & _ & Hst & Hb1 & Hb2 & Hv).
  destruct Hv as (x & Hx & He).
  set (g' := claim (pop g) n (Reading tid)).
  assert (phases g' (n mod cap) = (n, Reading tid)) as Hg' by apply claim_at.
  assert (popped g' = popped g + 1) as Hpo by done. assert (pushed g' = pushed g) as Hpu by done.
  assert (contents a = x :: drop (Z.to_nat (popped g')) (hist g)) as Hcont.
  { rewrite Hc, Hpo, <- Hn. erewrite drop_S by exact He. do 2 f_equal. lia. }
  exists {| contents := drop (Z.to_nat (popped g')) (hist g);
            statuses := <[tid := APolled (Some x)]> (statuses a) |}, g'.
  split; [|split; [|lia] ].
  { left. eapply a_dequeue; [|done]. specialize (Ht tid). by rewrite Hthr in Ht. }
  split; [|done|eapply abs_threads; [|by exists n, x|exact Ht]; done].
  eapply (inv_change _ _ g tid _ _ g' (n mod cap)); [done|apply mod_bound|..]; try done.
  - split; [lia|lia|done|]. intros i Hi. destruct (decide (i = n mod cap)) as [->|Hne].
    + right. rewrite Hph. lia.
    + left. split; [by apply (claim_other (pop g))|done].
  - intros. by apply (claim_other (pop g)).
  - by left.
  - right. split; [done|congruence].
  - exists sl. split; [done|]. unfold slot_inv. rewrite Hg', Hpo, Hpu.
    split_and!; try done; [lia|]. by exists x.
  - cbn. by rewrite Hn.
  - apply Hinv.
  - lia.
  - by exists n.
  - rewrite Hg'. cbn. left. by rewrite fn_lookup_insert.
  - intros i Hi Hne. apply owned_local; [by rewrite Hthr|]. by apply (iv_owned _ _ _ Hinv).
Qed.

(** [poll] reads the value its ticket stands for. *)
Lemma poll_read s a g tid n : sim s a g → threads s tid = PollRead (enc n) →
  phases g (n mod cap) = (n, Reading tid) → 0 ≤ n →
  ∃ v, poll_step q false (shared s) (threads s tid) = (shared s, PollStamp (enc n) v) ∧
    simulated a g None {| shared := shared s; threads := <[tid := PollStamp (enc n) v]> (threads s) |}.
Proof.
  intros [Hinv Hc Ht] Hthr Hph Hn0. destruct (slot_phase _ _ _ n Hinv) as (sl & Hsl & Hsi).
  unfold slot_inv in Hsi. rewrite Hph in Hsi. destruct Hsi as (_ & _ & _ & _ & _ & x & Hx & He).
  exists x. rewrite Hthr. cbn. rewrite enc_index, Hsl by done. destruct sl as [st vl]. cbn in Hx. subst vl.
  split; [done|]. exists a, g. split; [by right|]. split; [|lia].
  pose proof (Ht tid) as Ha. rewrite Hthr in Ha. destruct Ha as (n' & y & En & _ & Hy & Ha).
  apply enc_inj in En; [|done]. subst n'.
  split; [|done|eapply abs_threads_same; [done| |done]; cbn; congruence].
  apply inv_local; [done|by exists n|]. intros i Hi. destruct (decide (i = n mod cap)) as [->|Hne].
  - rewrite Hph. cbn. right. exists x. by rewrite fn_lookup_insert.
  - eapply owned_other; [done..|]. by rewrite Hthr.
Qed.

Lemma add_cap_mod n : (n + cap) mod cap = n mod cap.
Proof. replace (n + cap) with (n + 1 * cap) by lia. apply Z_mod_plus_full. Qed.

(** The stamp hands the slot to the [post] of the next lap. *)
Lemma poll_stamp s a g tid n v : sim s a g → threads s tid = PollStamp (enc n) v → 0 ≤ n → room q n →
  phases g (n mod cap) = (n, Reading tid) →
  ∃ m, poll_step q false (shared s) (threads s tid) = (m, PollDone (Some v)) ∧
    simulated a g None {| shared := m; threads := <[tid := PollDone (Some v)]> (threads s) |}.
Proof.
  intros [Hinv Hc Ht] Hthr Hn0 Hroom Hph. destruct (slot_phase _ _ _ n Hinv) as (sl & Hsl & Hsi).
  rewrite Hthr. cbn. rewrite enc_index, Hsl, enc_wrapping by done. eexists. split; [done|].
  unfold slot_inv in Hsi. rewrite Hph in Hsi. destruct Hsi as (_ & _ & _ & Hb1 & Hb2 & _).
  set (g' := claim g (n + cap) Free).
  assert (phases g' (n mod cap) = (n + cap, Free)) as Hg'.
  { rewrite <- add_cap_mod. apply claim_at. }
  assert (∀ i, i ≠ n mod cap → phases g' i = phases g i) as Hother.
  { intros. apply claim_other. by rewrite add_cap_mod. }
  exists a, g'. split; [by right|]. split; [|unfold pushed; cbn; lia].
  split; [|done|eapply abs_threads_same; [done| |done]; specialize (Ht tid); by rewrite Hthr in Ht].
  eapply (inv_change _ _ g tid _ _ g' (n mod cap)); [done|apply mod_bound|..]; try done; try apply Hinv.
  - split; [done|done|done|]. intros i Hi. destruct (decide (i = n mod cap)) as [->|Hne].
    + right. by rewrite Hph.
    + left. split; [by apply Hother|]. apply slot_at_set_ne; [apply mod_bound|lia|done].
  - intros i Hi Hne. apply slot_at_set_ne; [apply mod_bound|lia|done].
  - by left.
  - by left.
  - eexists. split; [by eapply slot_at_set|]. unfold slot_inv. rewrite Hg'.
    change (popped g') with (popped g). change (pushed g') with (pushed g).
    pose proof (qo_capacity _ Hq). rewrite add_cap_mod. split_and!; try done; lia.
  - by rewrite Hg'.
  - intros i Hi Hne. eapply owned_other; [done..|]. by rewrite Hthr.
Qed.

(** A step of a thread that is not in the call. *)
Lemma simulated_stutter s a g tid : sim s a g →
  simulated a g None {| shared := shared s; threads := <[tid := threads s tid]> (threads s) |}.
Proof.
  intros [Hinv Hc Ht]. assert (∀ t, <[tid := threads s tid]> (threads s) t = threads s t) as E.
  { intros t. destruct (decide (t = tid)) as [->|Hne];
      [by rewrite fn_lookup_insert|by rewrite fn_lookup_insert_ne]. }
  exists a, g. split; [by right|]. split; [|lia]. split; [|done|intros t; cbn; by rewrite E].
  destruct Hinv as [? ? ? ? Hthr Ho]. cbn [shared threads]. split; try done.
  - intros t. rewrite E. apply Hthr.
  - intros i Hi. specialize (Ho i Hi). destruct (phases g i) as [c [| | |]]; cbn in *; by rewrite ?E.
Qed.

(** *** Every step of [post] and [poll] *)

Section steps.
Context (s : State V) (a : AState V) (g : ghost) (Hsim : sim s a g) (Hroom : room q (pushed g)).

Lemma room_pushed n : n ≤ pushed g → room q n.
Proof. intros. by eapply room_le. Qed.

Lemma room_popped n : n ≤ popped g → room q n.
Proof. intros. apply room_pushed. pose proof (iv_bounds _ _ _ (sim_inv _ _ _ Hsim)). lia. Qed.

(** [post] inspects the slot at its tail. *)
Lemma post_slot tid v n : threads s tid = PostSlot v (enc n) → 0 ≤ n ≤ pushed g →
  ∀ spurious, ∃ p, post_step q spurious (shared s) (threads s tid) = (shared s, p) ∧
    simulated a g None {| shared := shared s; threads := <[tid := p]> (threads s) |}.
Proof.
  intros Hthr Hn sp. pose proof Hsim as [Hinv _ Ht]. specialize (Ht tid).
  destruct (slot_phase _ _ _ n Hinv) as (sl & Hsl & Hsi).
  assert (claims_nothing (threads s tid)) as Hcl by by rewrite Hthr.
  rewrite Hthr in *. cbn.
  rewrite advance_enc, enc_index, Hsl, enc_uadd by (done || lia || apply room_pushed; lia).
  destruct (Z.eqb_spec (enc n) (stamp sl)) as [E|E].
  - eexists. split; [done|]. apply simulated_silent; [done|by rewrite Hthr| |done].
    exists n. split_and!; [done..|lia|lia|]. intros Hp. unfold slot_inv in Hsi.
    destruct (phases g (n mod cap)) as [c ph]. destruct Hsi as (_ & Hm & Hsi).
    destruct ph; destruct Hsi as [Hst Hsi]; rewrite Hst in E.
    1,2: apply enc_inj in E; [|done]; subst c. 1: done. 1: lia.
    1,2: exfalso; by apply (enc_succ_ne q Hq n c).
  - destruct (_ =? _); eexists; (split; [done|]); (apply simulated_silent; [done|by rewrite Hthr| |done]).
    + by exists n.
    + done.
Qed.

Lemma post_sim tid spurious m p : post_step q spurious (shared s) (threads s tid) = (m, p) →
  simulated a g None {| shared := m; threads := <[tid := p]> (threads s) |}.
Proof.
  intros Hstep. pose proof Hsim as [Hinv Hc Ht]. pose proof (iv_threads _ _ _ Hinv tid) as Hpc.
  specialize (Ht tid). pose proof (iv_bounds _ _ _ Hinv) as Hb.
  destruct (threads s tid) as [|v|v t|v t t'|v t|v t|t|r| | | | | | | | ] eqn:Hthr;
    try (injection Hstep as <- <-; rewrite <- Hthr; by apply simulated_stutter).
  - injection Hstep as <- <-. apply simulated_silent; [done|by rewrite Hthr| |by rewrite Ht].
    exists (pushed g). split; [apply Hinv|lia].
  - destruct Hpc as (n & -> & Hn). destruct (post_slot tid v n Hthr Hn spurious) as (p' & Hs & Hsim').
    rewrite Hthr in Hs. congruence.
  - destruct Hpc as (n & -> & -> & Hn & Hph). cbn in Hstep. rewrite (iv_tail _ _ _ Hinv) in Hstep.
    destruct (Z.eqb_spec (enc (pushed g)) (enc n)) as [E|E]; [destruct spurious|];
      cbn in Hstep; injection Hstep as <- <-.
    2: { apply enc_inj in E; [|done]. apply post_claim; [done|done|congruence|]. apply Hph. congruence. }
    1,2: apply simulated_silent; [done|by rewrite Hthr|exists (pushed g); split; [done|lia]|by rewrite Ht].
  - destruct Hpc as (n & -> & Hn). cbn in Hstep. rewrite (iv_head _ _ _ Hinv) in Hstep.
    rewrite enc_wrapping in Hstep by (done || lia || apply room_popped; lia).
    destruct (Z.eqb_spec (enc (popped g + cap)) (enc n)) as [E|E]; injection Hstep as <- <-.
    + apply enc_inj in E; [|done]. eapply (simulated_event s a g None tid); [done|by rewrite Hthr|done|done|].
      apply a_full; [done|]. rewrite (length_contents _ _ _ Hsim). lia.
    + apply simulated_silent; [done|by rewrite Hthr|done|by rewrite Ht].
  - destruct Hpc as (n & -> & Hn & Hph & Hv).
    destruct (post_write s a g tid v n) as (m' & Hs & Hsim'); [done..|].
    rewrite Hthr in Hs. cbn in *. congruence.
  - destruct Hpc as (n & sl & -> & Hn & Hph & Hsl & Hv).
    assert (n ≤ pushed g) as Hle.
    { destruct (slot_phase _ _ _ n Hinv) as (sl' & _ & Hsi). unfold slot_inv in Hsi. rewrite Hph in Hsi. lia. }
    destruct (post_stamp s a g tid n sl) as (m' & Hs & Hsim'); [done|done|done|by apply room_pushed|done|done|done|].
    rewrite Hthr in Hs. cbn in *. congruence.
Qed.

(** [poll] inspects the slot at its head. *)
Lemma poll_slot tid n : threads s tid = PollSlot (enc n) → 0 ≤ n ≤ popped g →
  ∀ spurious, ∃ p, poll_step q spurious (shared s) (threads s tid) = (shared s, p) ∧
    simulated a g None {| shared := shared s; threads := <[tid := p]> (threads s) |}.
Proof.
  intros Hthr Hn sp. pose proof Hsim as [Hinv _ Ht]. specialize (Ht tid).
  destruct (slot_phase _ _ _ n Hinv) as (sl & Hsl & Hsi).
  assert (room q n) as Hr by (apply room_popped; lia). rewrite Hthr in *. cbn.
  rewrite advance_enc, enc_index, Hsl, enc_uadd by (done || lia).
  destruct (Z.eqb_spec (enc n + 1) (stamp sl)) as [E|E].
  - eexists. split; [done|]. apply simulated_silent; [done|by rewrite Hthr| |done].
    exists n. split_and!; [done..|lia|lia|]. intros Hp. unfold slot_inv in Hsi.
    destruct (phases g (n mod cap)) as [c ph]. destruct Hsi as (_ & Hm & Hsi).
    destruct ph; destruct Hsi as [Hst Hsi]; rewrite Hst in E.
    1,2: exfalso; by apply (enc_succ_ne q Hq c n).
    1,2: assert (n = c) as <- by (apply (enc_inj q Hq); lia). 1: done. lia.
  - destruct (_ =? _); eexists; (split; [done|]); (apply simulated_silent; [done|by rewrite Hthr| |done]).
    + by exists n.
    + done.
Qed.

Lemma poll_sim tid spurious m p : poll_step q spurious (shared s) (threads s tid) = (m, p) →
  simulated a g None {| shared := m; threads := <[tid := p]> (threads s) |}.
Proof.
  intros Hstep. pose proof Hsim as [Hinv Hc Ht]. pose proof (iv_threads _ _ _ Hinv tid) as Hpc.
  specialize (Ht tid). pose proof (iv_bounds _ _ _ Hinv) as Hb.
  destruct (threads s tid) as [| | | | | | | | |h|h h'|h|h v|h|r| ] eqn:Hthr;
    try (injection Hstep as <- <-; rewrite <- Hthr; by apply simulated_stutter).
  - injection Hstep as <- <-. apply simulated_silent; [done|by rewrite Hthr| |by rewrite Ht].
    exists (popped g). split; [apply Hinv|lia].
  - destruct Hpc as (n & -> & Hn). destruct (poll_slot tid n Hthr Hn spurious) as (p' & Hs & Hsim').
    rewrite Hthr in Hs. congruence.
  - destruct Hpc as (n & -> & -> & Hn & Hph). cbn in Hstep. rewrite (iv_head _ _ _ Hinv) in Hstep.
    destruct (Z.eqb_spec (enc (popped g)) (enc n)) as [E|E]; [destruct spurious|];
      cbn in Hstep; injection Hstep as <- <-.
    2: { apply enc_inj in E; [|done]. apply poll_claim; [done|done|congruence|]. apply Hph. congruence. }
    1,2: apply simulated_silent; [done|by rewrite Hthr|exists (popped g); split; [done|lia]|by rewrite Ht].
  - destruct Hpc as (n & -> & Hn & Hph).
    destruct (poll_read s a g tid n) as (v & Hs & Hsim'); [done..|]. rewrite Hthr in Hs. cbn in *. congruence.
  - destruct Hpc as (n & -> & Hn & Hph & Hv).
    assert (n ≤ popped g) as Hle.
    { destruct (slot_phase _ _ _ n Hinv) as (sl' & _ & Hsi). unfold slot_inv in Hsi. rewrite Hph in Hsi. lia. }
    destruct (poll_stamp s a g tid n v) as (m' & Hs & Hsim'); [done|done|done|by apply room_popped|done|].
    rewrite Hthr in Hs. cbn in *. congruence.
  - destruct Hpc as (n & -> & Hn). cbn in Hstep. rewrite (iv_tail _ _ _ Hinv) in Hstep.
    destruct (Z.eqb_spec (enc (pushed g)) (enc n)) as [E|E]; injection Hstep as <- <-.
    + apply enc_inj in E; [|done]. eapply (simulated_event s a g None tid); [done|by rewrite Hthr|done|done|].
      apply a_empty; [done|]. apply nil_length_inv. pose proof (length_contents _ _ _ Hsim). lia.
    + apply simulated_silent; [done|by rewrite Hthr|done|by rewrite Ht].
Qed.

End steps.

Lemma step_sim s a g o s' : sim s a g → room q (pushed g) → step q s o s' → simulated a g o s'.
Proof.
  intros Hsim Hroom Hst.
  destruct Hst as [s tid v E|s tid r E|s tid E|s tid r E|s tid sp m p E|s tid sp m p E];
    [..|by eapply post_sim|by eapply poll_sim];
    pose proof (sim_threads _ _ _ Hsim tid) as Ht; rewrite E in Ht;
    (eapply simulated_event; [done|by rewrite E|done|done|]); constructor; done.
Qed.

Lemma steps_sim n s0 tr s a0 g0 : sim s0 a0 g0 → pushed g0 = 0 → steps q n s0 tr s →
  room q (Z.of_nat n) → ∃ a g, asteps cap a0 tr a ∧ sim s a g ∧ pushed g ≤ Z.of_nat n.
Proof.
  intros H0 Hp Hs. induction Hs as [s|n s tr s1 o s2 _ IH Hst]; intros Hroom.
  { exists a0, g0. split_and!; [constructor|done|lia]. }
  destruct IH as (a & g & Ha & Hsim & Hle); [done| |].
  { eapply room_le; [done| |done]. lia. }
  destruct (step_sim s1 a g o s2 Hsim) as (a' & g' & Ha' & Hsim' & Hle'); [|done|].
  { eapply room_le; [done| |done]. lia. }
  exists a', g'. split_and!; [|done|lia]. destruct Ha' as [Ha'|[-> ->]]; [by econstructor|].
  cbn. by rewrite app_nil_r.
Qed.

(** *** Calls with no other thread in between *)

Definition idle : nat → pc V := λ _, Idle.

(** No call is under way and the queue holds [l]. *)
Definition quiet (m : Shared V) (l : list V) (g : ghost) : Prop :=
  inv m idle g ∧ l = drop (Z.to_nat (popped g)) (hist g).

Lemma quiet_length m l g : quiet m l g → Z.of_nat (length l) = pushed g - popped g.
Proof.
  intros [Hinv ->]. rewrite length_drop. pose proof (iv_bounds _ _ _ Hinv). unfold pushed in *. lia.
Qed.

(** Then the slot of a ticket is free or full. *)
Lemma quiet_slot m l g n : quiet m l g → ∃ s c ph, slot_at m (n mod cap) = Some s ∧
  phases g (n mod cap) = (c, ph) ∧ slot_inv g (n mod cap) s ∧ 0 ≤ c ∧ c mod cap = n mod cap ∧
  (ph = Free ∨ ph = Full).
Proof.
  intros [Hinv _]. destruct (slot_phase _ _ _ n Hinv) as (s & Hs & Hsi).
  pose proof (iv_owned _ _ _ Hinv (n mod cap) (mod_bound n)) as Ho.
  pose proof Hsi as Hc. unfold slot_inv in Hc.
  destruct (phases g (n mod cap)) as [c ph] eqn:E. destruct Hc as (Hc0 & Hcm & _).
  exists s, c, ph. do 5 (split; [done|]). destruct ph as [|t| |t]; auto; cbn in Ho; naive_solver.
Qed.

Lemma idle_insert (m : Shared V) g : inv m (<[0%nat := Idle]> idle) g → inv m idle g.
Proof.
  assert (∀ t, <[0%nat := Idle]> idle t = idle t) as E.
  { intros t. destruct (decide (t = 0%nat)) as [->|Hne];
      [by rewrite fn_lookup_insert|by rewrite fn_lookup_insert_ne]. }
  intros [? ? ? ? Hthr Ho]. split; try done. intros i Hi. specialize (Ho i Hi).
  destruct (phases g i) as [c [| | |]]; cbn in *; by rewrite ?E in Ho.
Qed.

(** The slot at the tail of a quiet queue tells whether it is full. *)
Lemma quiet_tail m l g : quiet m l g → ∃ s, slot_at m (pushed g mod cap) = Some s ∧
  (Z.of_nat (length l) < cap ∧ phases g (pushed g mod cap) = (pushed g, Free) ∧
     stamp s = enc (pushed g) ∨
   Z.of_nat (length l) = cap ∧ stamp s + one_lap q = enc (pushed g) + 1 ∧ stamp s ≠ enc (pushed g) ∧
     pushed g = popped g + cap).
Proof.
  intros Hqu. rewrite (quiet_length _ _ _ Hqu).
  destruct (quiet_slot m l g (pushed g) Hqu) as (s & c & ph & Hs & Hph & Hsi & Hc0 & Hcm & Hcase).
  exists s. split; [done|]. unfold slot_inv in Hsi. rewrite Hph in Hsi.
  destruct Hqu as [Hinv _]. pose proof (iv_bounds _ _ _ Hinv). destruct Hsi as (_ & _ & Hsi).
  destruct Hcase as [-> | ->].
  - left. destruct Hsi as [Hst Hb]. assert (c = pushed g) as ->.
    { destruct (decide (pushed g < c)); [|lia]. pose proof (same_slot q Hq (pushed g) c). lia. }
    split_and!; [lia|done|done].
  - right. destruct Hsi as (Hst & Hb1 & Hb2 & _). pose proof (same_slot q Hq c (pushed g) Hcm).
    assert (pushed g = c + cap) as Ep by lia. rewrite Hst.
    split_and!; [lia| | |lia].
    + rewrite Ep, enc_add_cap by done. lia.
    + intros E. by apply (enc_succ_ne q Hq (pushed g) c).
Qed.
(** A quiet queue after a whole [post], and after a whole [poll]. *)
Lemma inv_posted m g v sl : inv m idle g → phases g (pushed g mod cap) = (pushed g, Free) →
  slot_at m (pushed g mod cap) = Some sl →
  inv (set_slot (set_slot (set_tail m (enc (pushed g + 1))) (pushed g mod cap)
         {| stamp := stamp sl; value := Some v |})
         (pushed g mod cap) {| stamp := enc (pushed g) + 1; value := Some v |})
      idle (claim (push g v) (pushed g) Full).
Proof.
  intros Hinv Hph Hsl. pose proof (iv_bounds _ _ _ Hinv) as Hb. set (T := pushed g) in *.
  destruct (slot_phase _ _ _ T Hinv) as (sl' & _ & Hsi). unfold slot_inv in Hsi. rewrite Hph in Hsi.
  set (g' := claim (push g v) T Full). set (m' := set_slot _ _ _).
  assert (pushed g' = T + 1) as Hpu by apply pushed_push.
  assert (phases g' (T mod cap) = (T, Full)) as Hg' by apply claim_at.
  assert (∀ i, 0 ≤ i < cap → i ≠ T mod cap → slot_at m' i = slot_at m i) as Hsl'.
  { intros i Hi Hne. unfold m'. rewrite !slot_at_set_ne by (try apply mod_bound; done || lia). done. }
  apply idle_insert, (inv_change m idle g 0%nat Idle m' g' (T mod cap)); try done; try apply mod_bound.
  - split; [lia|done|intros; by apply entry_push|]. intros i Hi.
    destruct (decide (i = T mod cap)) as [->|Hne]; [right; rewrite Hph; lia|].
    left. split; [by apply (claim_other (push g v))|by apply Hsl'].
  - intros. by apply (claim_other (push g v)).
  - by right.
  - by left.
  - eexists. split; [eapply slot_at_set; by eapply slot_at_set|]. unfold slot_inv. rewrite Hg', Hpu.
    change (popped g') with (popped g). pose proof (qo_capacity _ Hq). split_and!; try done; try lia.
    exists v. split; [done|]. apply entry_pushed.
  - apply Hinv.
  - cbn. by rewrite Hpu.
  - rewrite Hpu. change (popped g') with (popped g). lia.
  - by rewrite Hg'.
  - intros i Hi _. apply owned_local; [done|]. by apply (iv_owned _ _ _ Hinv).
Qed.

Lemma inv_polled m g sl : inv m idle g → phases g (popped g mod cap) = (popped g, Full) →
  slot_at m (popped g mod cap) = Some sl →
  inv (set_slot (set_head m (enc (popped g + 1))) (popped g mod cap)
         {| stamp := enc (popped g + cap); value := value sl |})
      idle (claim (pop g) (popped g + cap) Free).
Proof.
  intros Hinv Hph Hsl. pose proof (iv_bounds _ _ _ Hinv) as Hb. set (H := popped g) in *.
  destruct (slot_phase _ _ _ H Hinv) as (sl' & _ & Hsi). unfold slot_inv in Hsi. rewrite Hph in Hsi.
  set (g' := claim (pop g) (H + cap) Free). set (m' := set_slot _ _ _).
  assert (popped g' = H + 1) as Hpo by done. assert (pushed g' = pushed g) as Hpu by done.
  assert (phases g' (H mod cap) = (H + cap, Free)) as Hg' by (rewrite <- add_cap_mod; apply claim_at).
  assert (∀ i, i ≠ H mod cap → phases g' i = phases g i) as Hother.
  { intros. apply (claim_other (pop g)). by rewrite add_cap_mod. }
  assert (∀ i, 0 ≤ i < cap → i ≠ H mod cap → slot_at m' i = slot_at m i) as Hsl'.
  { intros i Hi Hne. unfold m'. rewrite !slot_at_set_ne by (try apply mod_bound; done || lia). done. }
  apply idle_insert, (inv_change m idle g 0%nat Idle m' g' (H mod cap)); try done; try apply mod_bound.
  - split; [lia|lia|done|]. intros i Hi.
    destruct (decide (i = H mod cap)) as [->|Hne]; [right; rewrite Hph; lia|].
    left. split; [by apply Hother|by apply Hsl'].
  - by left.
  - by right.
  - eexists. split; [by eapply slot_at_set|]. unfold slot_inv. rewrite Hg', Hpu, Hpo, add_cap_mod.
    pose proof (qo_capacity _ Hq). split_and!; try done; lia.
  - apply Hinv.
  - lia.
  - by rewrite Hg'.
  - intros i Hi _. apply owned_local; [done|]. by apply (iv_owned _ _ _ Hinv).
Qed.

(** [post] on a quiet queue returns: the value is at the end, or comes back when it is full. *)
Lemma post_quiet m l g v : quiet m l g → room q (pushed g) →
  ∃ m' g', pushed g' ≤ pushed g + 1 ∧
    if decide (Z.of_nat (length l) < cap) then post q m v = Some (m', None) ∧ quiet m' (l ++ [v]) g'
    else post q m v = Some (m', Some v) ∧ quiet m' l g'.
Proof.
  intros Hqu Hroom. pose proof Hqu as [Hinv Hl]. pose proof (iv_bounds _ _ _ Hinv) as Hb.
  destruct (quiet_tail m l g Hqu) as (sl & Hsl & [(Hlt & Hph & Hst)|(Hfull & Hst & Hne & Hp)]).
  - set (T := pushed g) in *. set (g' := claim (push g v) T Full).
    set (m' := set_slot (set_slot (set_tail m (enc (T + 1))) (T mod cap) {| stamp := stamp sl; value := Some v |})
      (T mod cap) {| stamp := enc T + 1; value := Some v |}).
    exists m', g'. split; [unfold g', T; rewrite <- (pushed_push g v); done|].
    rewrite decide_True by done. split.
    { unfold post. cbn [post_alone post_step]. rewrite (iv_tail _ _ _ Hinv).
      fold T. rewrite advance_enc, enc_index, Hsl by (done || lia). rewrite Hst, Z.eqb_refl.
      cbn [post_alone post_step]. rewrite (iv_tail _ _ _ Hinv). fold T. rewrite Z.eqb_refl.
      cbn [andb negb post_alone post_step]. rewrite enc_index by done.
      change (slot_at (set_tail m _) (T mod cap)) with (slot_at m (T mod cap)). rewrite Hsl.
      cbn [post_alone post_step]. rewrite enc_index, enc_uadd by (done || lia).
      erewrite slot_at_set by exact Hsl. unfold m'. by rewrite Hst. }
    split; [|cbn; rewrite Hl; symmetry; apply drop_app_le; unfold T, pushed in *; lia].
    by apply inv_posted.
  - exists m, g. split; [lia|]. rewrite decide_False by lia. split; [|done].
    unfold post. cbn [post_alone post_step]. rewrite (iv_tail _ _ _ Hinv).
    rewrite advance_enc, enc_index, Hsl, enc_uadd by (done || lia).
    destruct (Z.eqb_spec (enc (pushed g)) (stamp sl)) as [E|_]; [congruence|].
    pose proof (enc_bound q Hq (pushed g) ltac:(lia) Hroom). pose proof (cap_lap q Hq).
    rewrite wrapping_add_small by lia. rewrite Hst, Z.eqb_refl.
    cbn [post_alone post_step]. rewrite (iv_head _ _ _ Hinv), enc_wrapping, <- Hp, Z.eqb_refl; try done; try lia.
    eapply room_le; [done| |done]. lia.
Qed.

(** The slot at the head of a quiet queue tells whether it is empty. *)
Lemma quiet_head m l g : quiet m l g → ∃ s, slot_at m (popped g mod cap) = Some s ∧
  (l = [] ∧ popped g = pushed g ∧ stamp s = enc (popped g) ∨
   ∃ v l', l = v :: l' ∧ l' = drop (Z.to_nat (popped g + 1)) (hist g) ∧
     phases g (popped g mod cap) = (popped g, Full) ∧
     stamp s = enc (popped g) + 1 ∧ value s = Some v).
Proof.
  intros Hqu. pose proof (quiet_length _ _ _ Hqu) as Hlen.
  destruct (quiet_slot m l g (popped g) Hqu) as (s & c & ph & Hs & Hph & Hsi & Hc0 & Hcm & Hcase).
  exists s. split; [done|]. unfold slot_inv in Hsi. rewrite Hph in Hsi.
  destruct Hqu as [Hinv Hl]. pose proof (iv_bounds _ _ _ Hinv). destruct Hsi as (_ & _ & Hsi).
  pose proof (same_slot q Hq (popped g) c ltac:(done)).
  destruct Hcase as [-> | ->].
  - left. destruct Hsi as [Hst Hb]. assert (c = popped g) as -> by lia.
    split_and!; [apply nil_length_inv; lia|lia|done].
  - right. destruct Hsi as (Hst & Hb1 & Hb2 & v & Hv & He). assert (c = popped g) as -> by lia.
    exists v, (drop (Z.to_nat (popped g + 1)) (hist g)). split_and!; try done.
    rewrite Hl. erewrite drop_S by exact He. do 2 f_equal. lia.
Qed.

(** [poll] on a quiet queue returns the value that was posted first. *)
Lemma poll_quiet m l g : quiet m l g → room q (pushed g) →
  ∃ m' g', pushed g' ≤ pushed g + 1 ∧
    poll q m = Some (m', list.head l) ∧ quiet m' (list.tail l) g'.
Proof.
  intros Hqu Hroom. pose proof Hqu as [Hinv Hl]. pose proof (iv_bounds _ _ _ Hinv) as Hb.
  assert (room q (popped g)) as Hr by (eapply room_le; [done| |done]; lia).
  destruct (quiet_head m l g Hqu) as (sl & Hsl & [(-> & Hp & Hst)|(v & l' & -> & -> & Hph & Hst & Hv)]);
    unfold poll; cbn [poll_alone poll_step];
    rewrite (iv_head _ _ _ Hinv), enc_index, Hsl, enc_uadd, Hst by (done || lia).
  - exists m, g. split; [lia|]. rewrite (proj2 (Z.eqb_neq _ _)) by lia. rewrite Z.eqb_refl.
    cbn [poll_alone poll_step]. rewrite (iv_tail _ _ _ Hinv), Hp, Z.eqb_refl. done.
  - rewrite Z.eqb_refl, advance_enc by (done || lia). cbn [poll_alone poll_step].
    rewrite (iv_head _ _ _ Hinv), Z.eqb_refl. cbn [andb negb poll_alone poll_step].
    change (slot_at (set_head m _)) with (slot_at m). rewrite enc_index, Hsl by done.
    destruct sl as [st vl]. cbn in Hst, Hv. subst st vl. cbn [poll_alone poll_step].
    change (slot_at (set_head m _)) with (slot_at m). rewrite enc_index, Hsl, enc_wrapping by (done || lia).
    do 2 eexists. split; [|split; [done|split; [by apply (inv_polled m g _ Hinv)|done] ] ].
    unfold pushed. cbn. lia.
Qed.

(** *** [initialize] *)

Lemma initialize_loop_spec n index (m : Shared V) : (index + n = length (slots m))%nat →
  let m' := initialize_loop index n m in
  head m' = head m ∧ tail m' = tail m ∧ length (slots m') = length (slots m) ∧
  (∀ j, (j < index)%nat → slots m' !! j = slots m !! j) ∧
  (∀ j, (index ≤ j < index + n)%nat → slots m' !! j = Some {| stamp := Z.of_nat j; value := None |}).
Proof.
  revert index m. induction n as [|n IH]; intros index m Hlen; cbn; [split_and!; try done; lia|].
  destruct (IH (S index) (set_slot m (Z.of_nat index) {| stamp := Z.of_nat index; value := None |}))
    as (-> & -> & Hl & Hlo & Hhi).
  { cbn. rewrite length_insert. lia. }
  cbn in *. rewrite length_insert in *. rewrite Nat2Z.id in *. split_and!; try done.
  - intros j Hj. rewrite Hlo by lia. apply list_lookup_insert_ne. lia.
  - intros j Hj. destruct (decide (j = index)) as [->|Hne]; [|apply Hhi; lia].
    rewrite Hlo by lia. apply list_lookup_insert_eq. lia.
Qed.

Definition start (m : Shared V) : State V := {| shared := initialize q m; threads := λ _, Idle |}.
Definition spec_start : AState V := {| contents := []; statuses := λ _, AIdle |}.

Lemma start_sim m : Z.of_nat (length (slots m)) = cap →
  sim (start m) spec_start {| hist := []; popped := 0; phases := λ i, (i, Free) |}.
Proof.
  intros Hlen. destruct (initialize_loop_spec (Z.to_nat cap) 0 (set_tail (set_head m 0) 0))
    as (Hh & Ht & _ & _ & Hs); [cbn; lia|].
  pose proof (qo_capacity _ Hq). assert (enc 0 = 0) as E0.
  { unfold MsgQueueLin.enc. rewrite Z.div_0_l, Z.mod_0_l by lia. done. }
  split; [|done|done]. split; cbn; try done.
  - intros i Hi. eexists. split; [apply Hs; lia|]. unfold slot_inv, pushed. cbn.
    assert (enc i = i) as ->.
    { unfold MsgQueueLin.enc. rewrite Z.div_small, Z.mod_small by lia. lia. }
    rewrite Z.mod_small by lia. split_and!; lia.
  - unfold pushed. cbn. lia.
Qed.

Lemma run_ops_spec ops : ∀ m l g, quiet m l g → room q (pushed g + Z.of_nat (length ops)) →
  run_ops q m ops = Some (spec_ops cap l ops).
Proof.
  induction ops as [|o ops IH]; intros m l g Hqu Hroom; [done|]. cbn [length] in Hroom.
  assert (room q (pushed g)) as Hr by (eapply room_le; [done| |exact Hroom]; lia). destruct o as [v|];
    cbn [run_ops spec_ops].
  - destruct (post_quiet m l g v Hqu Hr) as (m' & g' & Hp & Hpost).
    assert (room q (pushed g' + Z.of_nat (length ops))) by (eapply room_le; [done| |exact Hroom]; lia).
    destruct (Z.ltb_spec (Z.of_nat (length l)) cap);
      [rewrite decide_True in Hpost by done|rewrite decide_False in Hpost by lia];
      destruct Hpost as [-> Hqu']; cbn [mbind option_bind]; by erewrite IH.
  - destruct (poll_quiet m l g Hqu Hr) as (m' & g' & Hp & -> & Hqu'). cbn [mbind option_bind].
    assert (room q (pushed g' + Z.of_nat (length ops))) by (eapply room_le; [done| |exact Hroom]; lia).
    by erewrite IH.
Qed.
End lin.

Section properties.
Context {V : Type}.

(** C9: the message queue is linearizable. For every interleaving of the atomic steps of any
    number of threads that call [post] and [poll] on an initialised queue, spurious failures of
    the compare-exchange included, the sequence of calls and returns is one of an atomic bounded
    FIFO queue of the same capacity, in which each call takes effect at one moment between its
    call and its return: no message is lost, duplicated or reordered, [post] fails only when the
    queue is full and [poll] only when it is empty. No thread ever panics or reads an
    uninitialised slot. (As long as the counters do not wrap around.) *)
Theorem queue_linearizable i n cap (q : Queue) (m : Shared V) tr s :
  new i cap = Some q → Z.of_nat (length (slots m)) = cap →
  steps q n (start q m) tr s → room q (Z.of_nat n) →
  (∃ a, asteps cap spec_start tr a) ∧ ∀ tid, threads s tid ≠ Crashed.
Proof.
  intros Hnew Hlen Hs Hroom. apply new_ok in Hnew as [Hq <-].
  destruct (steps_sim q Hq n _ tr s _ _ (start_sim q Hq m Hlen) eq_refl Hs Hroom) as (a & g & Ha & Hsim & _).
  split; [by exists a|]. intros tid E. pose proof (sim_threads _ _ _ _ Hsim tid) as Ht. by rewrite E in Ht.
Qed.

(** Used by one thread at a time, every [post] and [poll] of an initialised queue returns
    after at most five atomic steps, and answers as a FIFO queue of the given capacity:
    [post] hands the value back exactly when [capacity] values are waiting, and [poll] returns
    the oldest of them. *)
Theorem queue_sequential i cap (q : Queue) (m : Shared V) ops :
  new i cap = Some q → Z.of_nat (length (slots m)) = cap → room q (Z.of_nat (length ops)) →
  run_ops q (initialize q m) ops = Some (spec_ops cap [] ops).
Proof.
  intros Hnew Hlen Hroom. apply new_ok in Hnew as [Hq <-].
  destruct (start_sim q Hq m Hlen) as [Hinv _ _].
  eapply run_ops_spec; [done|split; [exact Hinv|done]|done].
Qed.
End properties.

(** *** Witnesses *)

Definition demo_shared : Shared Z :=
  {| head := 5; tail := 9; slots := replicate 2 {| stamp := 77; value := None |} |}.
Definition demo_queue : Queue := {| id := 1; capacity := 2; one_lap := 4 |}.

(** Thread 1 polls while thread 0 is posting. *)
Example queue_linearizable_witness : ∃ n s,
  steps demo_queue n (start demo_queue demo_shared)
    [CallPost 0 7; CallPoll 1; RetPost 0 None; RetPoll 1 (Some 7)] s ∧
  ∃ a, asteps 2 spec_start [CallPost 0 7; CallPoll 1; RetPost 0 None; RetPoll 1 (Some 7)] a.
Proof.
  assert (∃ s, steps demo_queue 16 (start demo_queue demo_shared)
    [CallPost 0 7; CallPoll 1; RetPost 0 None; RetPoll 1 (Some 7)] s) as [s Hs].
  { eexists. pose proof (steps_nil demo_queue (start demo_queue demo_shared)) as H.
    eapply steps_snoc in H; [|apply (step_call_post _ _ 0 7); reflexivity].
    do 2 (eapply steps_snoc in H; [|apply (step_post _ _ 0 false); reflexivity]).
    eapply steps_snoc in H; [|apply (step_post _ _ 0 true); reflexivity].
    eapply steps_snoc in H; [|apply (step_call_poll _ _ 1); reflexivity].
    do 4 (eapply steps_snoc in H; [|apply (step_post _ _ 0 false); reflexivity]).
    do 2 (eapply steps_snoc in H; [|apply (step_poll _ _ 1 false); reflexivity]).
    eapply steps_snoc in H; [|apply (step_ret_post _ _ 0 None); reflexivity].
    do 3 (eapply steps_snoc in H; [|apply (step_poll _ _ 1 false); reflexivity]).
    eapply steps_snoc in H; [|apply (step_ret_poll _ _ 1 (Some 7)); reflexivity].
    exact H. }
  exists 16%nat, s. split; [exact Hs|].
  apply (queue_linearizable 1 16 2 demo_queue demo_shared _ s); [reflexivity|reflexivity|exact Hs|].
  vm_compute. congruence.
Defined.

Example queue_sequential_witness :
  run_ops demo_queue (initialize demo_queue demo_shared)
    [OpPost 7; OpPost 8; OpPost 9; OpPoll; OpPost 9; OpPoll; OpPoll; OpPoll]
  = Some [None; None; Some 9; Some 7; None; Some 8; Some 9; None].
Proof.
  rewrite (queue_sequential 1 2); [reflexivity|reflexivity|reflexivity|]. vm_compute. congruence.
Defined.
