(* ===== verification/LinkedList.v ===== *)
(** [ConcurrentLinkedList] ([ds/lists.rs]): the singly linked list behind the thread, process
    and queue tables, with its nodes in memory and its pool of nodes that wait for deletion
    while iterators exist. Operations run one after the other. *)
From stdpp Require Import base list gmap.
From S2P Require Import Prelude.

Section list.
Context {T : Type}.

(** A pointer is a key of the memory, and 0 is null. A [Node] of the list is its [data] and
    [next]; a node of the pool holds the [Box] of a list node. *)
Record LinkedList := {
  nodes : gmap nat (T * nat);
  pool : gmap nat (nat * nat);
  next_address : nat;
  head : nat;
  readers : Z;
  pending_deletion : nat;
}.

Abbreviation LM := (M LinkedList Empty_set).

Definition default_list : LinkedList :=
  {| nodes := ∅; pool := ∅; next_address := 1; head := 0; readers := 0; pending_deletion := 0 |}.

Definition set_nodes (l : LinkedList) (m : gmap nat (T * nat)) : LinkedList :=
  Build_LinkedList m (pool l) (next_address l) (head l) (readers l) (pending_deletion l).
Definition set_pool (l : LinkedList) (m : gmap nat (nat * nat)) : LinkedList :=
  Build_LinkedList (nodes l) m (next_address l) (head l) (readers l) (pending_deletion l).
Definition set_head (l : LinkedList) (p : nat) : LinkedList :=
  Build_LinkedList (nodes l) (pool l) (next_address l) p (readers l) (pending_deletion l).
Definition set_readers (l : LinkedList) (n : Z) : LinkedList :=
  Build_LinkedList (nodes l) (pool l) (next_address l) (head l) n (pending_deletion l).
Definition set_pending (l : LinkedList) (p : nat) : LinkedList :=
  Build_LinkedList (nodes l) (pool l) (next_address l) (head l) (readers l) p.
Definition bump (l : LinkedList) : LinkedList :=
  Build_LinkedList (nodes l) (pool l) (S (next_address l)) (head l) (readers l) (pending_deletion l).
Definition update (f : LinkedList → LinkedList) : LM unit := l ← get; put (f l).

(** Dereferencing a pointer to freed memory is undefined. *)
Definition node_at (p : nat) : LM (T * nat) :=
  l ← get; match nodes l !! p with Some n => mret n | None => undefined end.
Definition pool_at (p : nat) : LM (nat * nat) :=
  l ← get; match pool l !! p with Some n => mret n | None => undefined end.

(** Where a pointer to a node is stored. *)
Inductive place := AtHead | AtNext (p : nat).
Definition load (w : place) : LM nat :=
  match w with
  | AtHead => l ← get; mret (head l)
  | AtNext p => '(_, n) ← node_at p; mret n
  end.
Definition store (w : place) (q : nat) : LM unit :=
  match w with
  | AtHead => update (λ l, set_head l q)
  | AtNext p => '(d, _) ← node_at p; update (λ l, set_nodes l (<[p := (d, q)]> (nodes l)))
  end.
(** [compare_exchange]: [None] on success, the value found otherwise. *)
Definition compare_exchange (w : place) (expected new : nat) : LM (option nat) :=
  cur ← load w;
  if (cur =? expected)%nat then store w new;; mret None else mret (Some cur).

Fixpoint push_loop (fuel : nat) (new_node current_head : nat) : LM unit :=
  store (AtNext new_node) current_head;;
  r ← compare_exchange AtHead current_head new_node;
  match r, fuel with
  | None, _ => mret tt
  | Some _, O => out_of_fuel
  | Some h, S fuel' => push_loop fuel' new_node h
  end.

Definition push (data : T) : LM unit :=
  l ← get;
  let new_node := next_address l in
  put (bump (set_nodes l (<[new_node := (data, 0%nat)]> (nodes l))));;
  current_head ← load AtHead;
  push_loop 1 new_node current_head.

(** [drop] of a [Box<Node<T>>] *)
Definition free_node (p : nat) : LM unit :=
  node_at p;; update (λ l, set_nodes l (delete p (nodes l))).

Fixpoint push_pending_loop (fuel : nat) (new_node current_head : nat) : LM unit :=
  '(b, _) ← pool_at new_node;
  update (λ l, set_pool l (<[new_node := (b, current_head)]> (pool l)));;
  l ← get;
  if (pending_deletion l =? current_head)%nat then put (set_pending l new_node)
  else
    match fuel with
    | O => out_of_fuel
    | S fuel' => push_pending_loop fuel' new_node (pending_deletion l)
    end.

Definition push_pending_deletion (data : nat) : LM unit :=
  l ← get;
  if readers l =? 0 then free_node data
  else
    let new_node := next_address l in
    put (bump (set_pool l (<[new_node := (data, 0%nat)]> (pool l))));;
    l ← get;
    push_pending_loop 1 new_node (pending_deletion l).

(** The first loop of [remove]: [None] goes on with the rest of the list. The result is the
    data of the removed node, which only [remove_cloned] returns. *)
Fixpoint remove_head (fuel : nat) (predicate : T → bool) (head_ptr : nat) : LM (option (option T)) :=
  if (head_ptr =? 0)%nat then mret (Some None)
  else
    '(d, next) ← node_at head_ptr;
    if predicate d then
      r ← compare_exchange AtHead head_ptr next;
      match r, fuel with
      | None, _ => push_pending_deletion head_ptr;; mret (Some (Some d))
      | Some _, O => out_of_fuel
      | Some new_head, S fuel' => remove_head fuel' predicate new_head
      end
    else mret None.

Fixpoint remove_loop (fuel : nat) (predicate : T → bool) (prev : place) (current_ptr : nat)
    : LM (option T) :=
  if (current_ptr =? 0)%nat then mret None
  else
    match fuel with
    | O => out_of_fuel
    | S fuel' =>
        '(d, next) ← node_at current_ptr;
        if predicate d then
          r ← compare_exchange prev current_ptr next;
          match r with
          | None => push_pending_deletion current_ptr;; mret (Some d)
          | Some _ => reloaded ← load prev; remove_loop fuel' predicate prev reloaded
          end
        else remove_loop fuel' predicate (AtNext current_ptr) next
    end.

Definition remove_cloned (predicate : T → bool) : LM (option T) :=
  head_ptr ← load AtHead;
  r ← remove_head 1 predicate head_ptr;
  match r with
  | Some res => mret res
  | None =>
      l ← get;
      current_ptr ← load AtHead;
      remove_loop (S (size (nodes l))) predicate AtHead current_ptr
  end.

Definition remove (predicate : T → bool) : LM bool :=
  r ← remove_cloned predicate; mret (bool_decide (is_Some r)).

(** *** Iterators *)

(** An [Iter] is its current pointer; [fetch_add] and [fetch_sub] wrap. *)
Definition iter : LM nat :=
  update (λ l, set_readers l (wrapping_add (readers l) 1));; load AtHead.

Definition iter_next (current : nat) : LM (option T * nat) :=
  if (current =? 0)%nat then mret (None, current)
  else '(d, next) ← node_at current; mret (Some d, next).

(** After the head was removed and freed, the loop looks at the same pointer again. *)
Fixpoint free_pool_loop (fuel : nat) (head_ptr : nat) : LM unit :=
  if (head_ptr =? 0)%nat then mret tt
  else
    '(b, next) ← pool_at head_ptr;
    match fuel with
    | O => out_of_fuel
    | S fuel' =>
        l ← get;
        if (pending_deletion l =? head_ptr)%nat then
          put (set_pending l next);;
          update (λ l, set_pool l (delete head_ptr (pool l)));;
          free_node b;;
          free_pool_loop fuel' head_ptr
        else free_pool_loop fuel' (pending_deletion l)
    end.
Definition free_pool : LM unit :=
  l ← get; free_pool_loop (S (size (pool l))) (pending_deletion l).

Definition drop_iter : LM unit :=
  l ← get;
  put (set_readers l (wrapping_add (readers l) (- (1))));;
  if readers l =? 1 then free_pool else mret tt.

(** [Drop for ConcurrentLinkedList] *)
Fixpoint drop_nodes (fuel : nat) (current : nat) : LM unit :=
  if (current =? 0)%nat then mret tt
  else
    match fuel with
    | O => out_of_fuel
    | S fuel' => '(_, next) ← node_at current; free_node current;; drop_nodes fuel' next
    end.
Definition drop_list : LM unit :=
  l ← get;
  put (set_head l 0);;
  drop_nodes (S (size (nodes l))) (head l);;
  free_pool.

(** [list.iter().collect()] *)
Fixpoint collect_loop (fuel : nat) (current : nat) : LM (list T) :=
  '(o, current') ← iter_next current;
  match o, fuel with
  | None, _ => mret []
  | Some _, O => out_of_fuel
  | Some d, S fuel' => rest ← collect_loop fuel' current'; mret (d :: rest)
  end.
Definition collect : LM (list T) :=
  it ← iter;
  l ← get;
  r ← collect_loop (S (size (nodes l))) it;
  drop_iter;;
  mret r.
End list.
Arguments LinkedList : clear implicits.
