(* ===== verification/LinkedListSpec.v ===== *)
(** [ConcurrentLinkedList] refines a functional list, its iterators survive concurrent removals,
    and dropping the last iterator after a removal reads freed memory. *)
From stdpp Require Import base list gmap relations.
From S2P Require Import Prelude LinkedList.

Section spec.
Context {T : Type}.
Implicit Types (m : gmap nat (T * nat)) (l : list (nat * T)) (L : LinkedList T).

(** The nodes [l], linked from [p] to [q]. *)
Fixpoint chain m (p : nat) l (q : nat) : Prop :=
  match l with
  | [] => p = q
  | (a, d) :: l' => p = a ∧ a ≠ 0%nat ∧ ∃ n, m !! a = Some (d, n) ∧ chain m n l' q
  end.

Definition first l : nat := match l with [] => 0%nat | (a, _) :: _ => a end.
Definition place_after l : place := match last l with None => AtHead | Some (a, _) => AtNext a end.

Lemma chain_app m p l1 l2 q : chain m p (l1 ++ l2) q ↔ ∃ r, chain m p l1 r ∧ chain m r l2 q.
Proof.
  revert p. induction l1 as [|[a d] l1 IH]; intros p; cbn; [naive_solver|].
  setoid_rewrite IH. naive_solver.
Qed.

Lemma chain_first m p l : chain m p l 0 → p = first l.
Proof. destruct l as [|[a d] l]; cbn; naive_solver. Qed.

Lemma chain_frame m m' p l q : (∀ a, a ∈ l.*1 → m' !! a = m !! a) → chain m p l q → chain m' p l q.
Proof.
  revert p. induction l as [|[a d] l IH]; intros p Hm; cbn; [done|]. intros (-> & ? & n & Hn & Hc).
  split_and!; try done. exists n. split; [rewrite Hm; [done|set_solver]|]. apply IH; [set_solver|done].
Qed.

(** The list in memory. *)
Record list_rep L l : Prop := {
  lr_chain : chain (nodes L) (head L) l 0;
  lr_nodup : NoDup l.*1;
  lr_fresh : ∀ p n, nodes L !! p = Some n → (0 < p < next_address L)%nat;
  lr_fresh_pos : (0 < next_address L)%nat;
}.

(** No iterator exists and nothing waits for deletion. *)
Record quiet L l : Prop := {
  qu_rep : list_rep L l;
  qu_readers : readers L = 0;
  qu_pending : pending_deletion L = 0%nat;
}.

Lemma node_at_run L p n : nodes L !! p = Some n → node_at p L = Ok n L.
Proof. intros H. unfold node_at. erewrite bind_run by done. by rewrite H. Qed.

Lemma pool_at_run L p n : pool L !! p = Some n → pool_at p L = Ok n L.
Proof. intros H. unfold pool_at. erewrite bind_run by done. by rewrite H. Qed.

Lemma load_head_run L : load AtHead L = Ok (head L) L.
Proof. done. Qed.

Lemma cas_head_run L p q : head L = p → compare_exchange AtHead p q L = Ok None (set_head L q).
Proof.
  intros <-. unfold compare_exchange. cbn [load]. erewrite bind_run by (by erewrite bind_run).
  rewrite Nat.eqb_refl. by erewrite bind_run.
Qed.

Lemma cas_next_run L a d p q : nodes L !! a = Some (d, p) →
  compare_exchange (AtNext a) p q L = Ok None (set_nodes L (<[a := (d, q)]> (nodes L))).
Proof.
  intros Ha. unfold compare_exchange. cbn [load store].
  erewrite bind_run by (erewrite bind_run by (by apply node_at_run); done).
  rewrite Nat.eqb_refl. erewrite bind_run; [done|].
  erewrite bind_run by (by apply node_at_run). done.
Qed.

(** *** [push] *)

Definition pushed_list L (x : T) : LinkedList T :=
  set_head (set_nodes (bump L) (<[next_address L := (x, head L)]> (nodes L))) (next_address L).

Lemma push_run L l x : list_rep L l → push x L = Ok tt (pushed_list L x) ∧
  list_rep (pushed_list L x) ((next_address L, x) :: l).
Proof.
  intros [Hc Hnd Hf Hpos]. assert (nodes L !! next_address L = None) as Hn.
  { destruct (nodes L !! next_address L) eqn:E; [|done]. apply Hf in E. lia. }
  assert (next_address L ∉ l.*1) as Hnot.
  { clear Hnd. revert Hc. generalize (head L). induction l as [|[a d] l IH]; intros p Hc; [set_solver|].
    cbn in Hc. destruct Hc as (-> & _ & n & Ha & Hc). cbn. apply not_elem_of_cons.
    split; [congruence|by eapply IH]. }
  split.
  - unfold push. erewrite bind_run by done. cbv zeta. erewrite bind_run by done.
    cbn [load]. erewrite bind_run by (by erewrite bind_run). cbn [push_loop store].
    erewrite bind_run.
    2: { erewrite bind_run by (apply node_at_run; cbn; apply lookup_insert_eq). done. }
    erewrite bind_run by (by apply cas_head_run). cbn.
    unfold mret, M_ret, pushed_list, set_head, set_nodes, bump. cbn. by rewrite insert_insert_eq.
  - split; cbn.
    + split_and!; [done|lia|]. exists (head L). split; [apply lookup_insert_eq|].
      eapply chain_frame; [|done]. intros a Ha. apply lookup_insert_ne. by intros <-.
    + by constructor.
    + intros p n. rewrite lookup_insert_Some. intros [[<- _]|[_ Hp]]; [lia|]. apply Hf in Hp. lia.
    + lia.
Qed.

(** *** [remove] *)

Definition unlink L l (q : nat) : LinkedList T :=
  match last l with
  | None => set_head L q
  | Some (a, d) => set_nodes L (<[a := (d, q)]> (nodes L))
  end.

Lemma chain_elem m p l q a d : chain m p l q → (a, d) ∈ l → a ≠ 0%nat ∧ ∃ n, m !! a = Some (d, n).
Proof.
  revert p. induction l as [|[a' d'] l IH]; intros p; cbn; [set_solver|].
  intros (-> & Ha & n & Hn & Hc) [[= -> ->]|Hel]%elem_of_cons; [eauto|by eapply IH].
Qed.

Lemma rep_split L a p d b : list_rep L (a ++ (p, d) :: b) →
  p ≠ 0%nat ∧ nodes L !! p = Some (d, first b) ∧ chain (nodes L) (head L) a p ∧
  chain (nodes L) (first b) b 0 ∧ (p ∉ a.*1) ∧ (p ∉ b.*1).
Proof.
  intros [Hc Hnd _ _]. apply chain_app in Hc as (r & Ha & -> & Hp & n & Hn & Hb).
  pose proof (chain_first _ _ _ Hb) as ->. rewrite fmap_app, fmap_cons in Hnd.
  apply NoDup_app in Hnd as (_ & Hdis & Hnd). apply NoDup_cons in Hnd as [Hnb _].
  split_and!; try done. intros Hel. apply (Hdis p Hel). cbn. left.
Qed.

Lemma chain_last m p a pa da q : chain m p (a ++ [(pa, da)]) q → m !! pa = Some (da, q).
Proof. intros (r & _ & -> & _ & n & Hn & ->)%chain_app. done. Qed.

Lemma cas_place_run L a p q : chain (nodes L) (head L) a p →
  compare_exchange (place_after a) p q L = Ok None (unlink L a q).
Proof.
  intros Hc. unfold place_after, unlink. destruct (last a) as [[pa da]|] eqn:El.
  - apply last_Some in El as [a' ->]. apply cas_next_run. by eapply chain_last.
  - apply last_None in El as ->. by apply cas_head_run.
Qed.

(** What unlinking a node leaves of the list; the node is still in memory. *)
Lemma unlink_rep L a p d b : list_rep L (a ++ (p, d) :: b) →
  list_rep (unlink L a (first b)) (a ++ b) ∧ nodes (unlink L a (first b)) !! p = Some (d, first b).
Proof.
  intros Hrep. destruct (rep_split _ _ _ _ _ Hrep) as (Hp & Hn & Ha & Hb & Hpa & Hpb).
  destruct Hrep as [_ Hnd Hf Hpos]. rewrite fmap_app, fmap_cons in Hnd.
  assert (NoDup (a ++ b).*1) as Hnd'.
  { rewrite fmap_app. apply NoDup_app in Hnd as (H1 & H2 & H3). apply NoDup_cons in H3 as [_ H3].
    apply NoDup_app. split_and!; try done. intros x Hx Hx'. apply (H2 x Hx). by right. }
  unfold unlink. destruct (last a) as [[pa da]|] eqn:El.
  - apply last_Some in El as [a' ->]. pose proof (chain_last _ _ _ _ _ _ Ha) as Hpan.
    rewrite fmap_app, not_elem_of_app in Hpa. destruct Hpa as [_ Hpa].
    apply chain_app in Ha as (r & Ha' & -> & Hpa0 & _).
    rewrite !fmap_app in Hnd'. apply NoDup_app in Hnd' as (Hnda & Hdis & Hndb).
    apply NoDup_app in Hnda as (Hnda' & Hdis' & _).
    split; [split; cbn|cbn; rewrite lookup_insert_ne by set_solver; done]; try done.
    + apply chain_app. exists (first b). split.
      * apply chain_app. exists pa. split.
        { eapply chain_frame; [|exact Ha']. intros x Hx. apply lookup_insert_ne. intros <-.
          apply (Hdis' pa Hx). cbn. left. }
        cbn. split_and!; try done. exists (first b). split; [apply lookup_insert_eq|done].
      * eapply chain_frame; [|exact Hb]. intros x Hx. apply lookup_insert_ne. intros <-.
        apply (Hdis pa); [|done]. apply elem_of_app. right. cbn. left.
    + rewrite !fmap_app. apply NoDup_app. split_and!; try done. apply NoDup_app. split_and!; try done.
      cbn. apply NoDup_singleton.
    + intros x n. rewrite lookup_insert_Some. intros [[<- _]|[_ Hx]]; eauto.
  - apply last_None in El as ->. split; [|done]. split; cbn in *; try done.
Qed.

Abbreviation matches pred := (λ x : nat * T, Is_true (pred x.2)).

(** Removing the first match: it is unlinked and handed to [push_pending_deletion]. *)
Definition removed (pred : T → bool) L l : res (LinkedList T) Empty_set (option T) :=
  match list_find (matches pred) l with
  | None => Ok None L
  | Some (i, (p, d)) =>
      (push_pending_deletion p;; mret (Some d)) (unlink L (take i l) (first (drop (S i) l)))
  end.

Lemma remove_loop_run pred rest : ∀ fuel a L, list_rep L (a ++ rest) → (length rest ≤ fuel)%nat →
  Forall (λ x, ¬ matches pred x) a →
  remove_loop fuel pred (place_after a) (first rest) L = removed pred L (a ++ rest).
Proof.
  induction rest as [|[p d] rest IH]; intros fuel a L Hrep Hfuel Ha.
  - unfold removed. rewrite app_nil_r, (proj2 (list_find_None _ _)) by done. by destruct fuel.
  - destruct fuel as [|fuel]; [cbn in Hfuel; lia|].
    destruct (rep_split _ _ _ _ _ Hrep) as (Hp & Hn & Hca & Hb & _). cbn [remove_loop first].
    destruct (Nat.eqb_spec p 0); [done|]. erewrite bind_run by (by apply node_at_run). cbv beta iota.
    destruct (pred d) eqn:Epred.
    + erewrite bind_run by (by apply cas_place_run). unfold removed.
      assert (list_find (matches pred) (a ++ (p, d) :: rest) = Some (length a, (p, d))) as ->.
      { apply list_find_app_Some. right. split_and!.
        - lia.
        - by apply list_find_None.
        - rewrite Nat.sub_diag. cbn. rewrite decide_True; [done|]. cbn. by rewrite Epred. }
      rewrite take_app_length, drop_app_ge by lia.
      by replace (S (length a) - length a)%nat with 1%nat by lia.
    + replace (AtNext p) with (place_after (a ++ [(p, d)])) by (unfold place_after; by rewrite last_snoc).
      rewrite IH.
      * by rewrite <- app_assoc.
      * by rewrite <- app_assoc.
      * cbn in Hfuel. lia.
      * apply Forall_app. split; [done|]. apply Forall_singleton. cbn. rewrite Epred. by intros [].
Qed.

Lemma rep_length L l : list_rep L l → (length l ≤ size (nodes L))%nat.
Proof.
  intros [Hc Hnd _ _]. rewrite <- (length_fmap fst l), <- size_dom.
  rewrite <- (size_list_to_set (C:=gset nat)) by done. apply subseteq_size.
  intros a [[a' d] [-> Hel] ]%elem_of_list_to_set%list_elem_of_fmap. cbn.
  destruct (chain_elem _ _ _ _ _ _ Hc Hel) as (_ & n & Hn). by apply elem_of_dom.
Qed.

Lemma remove_cloned_run L l pred : list_rep L l → remove_cloned pred L = removed pred L l.
Proof.
  intros Hrep. unfold remove_cloned. erewrite bind_run by apply load_head_run.
  assert (head L = first l) as Hh by (eapply chain_first; apply Hrep).
  assert (remove_loop (S (size (nodes L))) pred AtHead (head L) L = removed pred L l) as Hloop.
  { rewrite Hh. apply (remove_loop_run pred l _ []); [done|pose proof (rep_length _ _ Hrep); lia|constructor]. }
  destruct l as [|[p d] l].
  - cbn in Hh. by rewrite Hh, bind_unfold.
  - destruct (rep_split L [] p d l Hrep) as (Hp & Hn & _). cbn in Hh. rewrite Hh in *.
    cbn [remove_head]. destruct (Nat.eqb_spec p 0); [done|].
    destruct (pred d) eqn:Epred.
    + rewrite bind_unfold. erewrite (bind_run (node_at p)) by (by apply node_at_run). cbv beta iota.
      rewrite Epred. erewrite bind_run by (by apply cas_head_run). cbv beta iota.
      unfold removed. cbn. rewrite decide_True by (cbn; by rewrite Epred).
      rewrite !bind_unfold, drop_0. change (unlink L (take 0 _) (first l)) with (set_head L (first l)).
      by destruct (push_pending_deletion p (set_head L (first l))) as [[]|[]|].
    + erewrite bind_run.
      2: { erewrite bind_run by (by apply node_at_run). cbv beta iota. rewrite Epred. done. }
      cbv beta iota. erewrite bind_run by done. erewrite bind_run by apply load_head_run.
      by rewrite Hh.
Qed.

(** Without iterators the node is freed. *)
Lemma free_unlinked L a p d b : quiet L (a ++ (p, d) :: b) →
  ∃ L', push_pending_deletion p (unlink L a (first b)) = Ok tt L' ∧ quiet L' (a ++ b).
Proof.
  intros [Hrep Hr Hpd]. destruct (unlink_rep _ _ _ _ _ Hrep) as [Hrep' Hn].
  destruct (rep_split _ _ _ _ _ Hrep) as (_ & _ & _ & _ & Hpa & Hpb).
  set (L1 := unlink L a (first b)) in *.
  assert (readers L1 = 0 ∧ pending_deletion L1 = 0%nat) as [Hr1 Hpd1].
  { unfold L1, unlink. by destruct (last a) as [[]|]. }
  unfold push_pending_deletion. erewrite bind_run by done. rewrite Hr1. change (0 =? 0) with true.
  cbv iota. unfold free_node. erewrite bind_run by (by apply node_at_run).
  eexists. split; [done|]. destruct Hrep' as [Hc Hnd Hf Hpos]. split; [|done..]. split; cbn; try done.
  - eapply chain_frame; [|done]. intros x Hx. apply lookup_delete_ne. intros <-.
    rewrite fmap_app in Hx. set_solver.
  - intros x n Hx. apply lookup_delete_Some in Hx as [_ Hx]. eauto.
Qed.

(** *** Sequences of operations *)

Fixpoint remove_first (pred : T → bool) (l : list T) : option T * list T :=
  match l with
  | [] => (None, [])
  | x :: l' => if pred x then (Some x, l') else let '(r, l'') := remove_first pred l' in (r, x :: l'')
  end.

Inductive list_op :=
  | OpPush (x : T)
  | OpRemove (pred : T → bool)
  | OpRemoveCloned (pred : T → bool)
  | OpCollect.
Inductive answer :=
  | AUnit
  | ABool (b : bool)
  | AOption (o : option T)
  | AList (l : list T).

Definition run_list_op (o : list_op) : M (LinkedList T) Empty_set answer :=
  match o with
  | OpPush x => push x;; mret AUnit
  | OpRemove pred => b ← remove pred; mret (ABool b)
  | OpRemoveCloned pred => r ← remove_cloned pred; mret (AOption r)
  | OpCollect => r ← collect; mret (AList r)
  end.
Definition spec_list_op (o : list_op) (l : list T) : answer * list T :=
  match o with
  | OpPush x => (AUnit, x :: l)
  | OpRemove pred => let '(r, l') := remove_first pred l in (ABool (bool_decide (is_Some r)), l')
  | OpRemoveCloned pred => let '(r, l') := remove_first pred l in (AOption r, l')
  | OpCollect => (AList l, l)
  end.
Fixpoint run_list_ops (ops : list list_op) : M (LinkedList T) Empty_set (list answer) :=
  match ops with
  | [] => mret []
  | o :: ops' => a ← run_list_op o; r ← run_list_ops ops'; mret (a :: r)
  end.
Fixpoint spec_list_ops (ops : list list_op) (l : list T) : list answer :=
  match ops with
  | [] => []
  | o :: ops' => let '(a, l') := spec_list_op o l in a :: spec_list_ops ops' l'
  end.

Lemma remove_first_find pred l :
  match list_find (matches pred) l with
  | None => remove_first pred l.*2 = (None, l.*2)
  | Some (i, (p, d)) => ∃ a b, l = a ++ (p, d) :: b ∧ i = length a ∧
      remove_first pred l.*2 = (Some d, (a ++ b).*2)
  end.
Proof.
  induction l as [|[p d] l IH]; cbn; [done|]. destruct (pred d) eqn:E.
  - exists [], l. done.
  -
    destruct (list_find _ l) as [[i [p' d'] ]|]; cbn.
    + destruct IH as (a & b & -> & -> & ->). exists ((p, d) :: a), b. done.
    + by rewrite IH.
Qed.

Lemma remove_cloned_quiet L l pred : quiet L l →
  ∃ L' l', remove_cloned pred L = Ok (remove_first pred l.*2).1 L' ∧ quiet L' l' ∧
    l'.*2 = (remove_first pred l.*2).2.
Proof.
  intros Hq. rewrite (remove_cloned_run L l) by apply Hq. unfold removed.
  pose proof (remove_first_find pred l) as Hf. destruct (list_find _ l) as [[i [p d] ]|].
  - destruct Hf as (a & b & -> & -> & ->). rewrite take_app_length, drop_app_ge by lia.
    replace (S (length a) - length a)%nat with 1%nat by lia. cbn [drop].
    destruct (free_unlinked _ _ _ _ _ Hq) as (L' & Hrun & Hq').
    rewrite drop_0. erewrite bind_run by exact Hrun. by exists L', (a ++ b).
  - rewrite Hf. by exists L, l.
Qed.

Lemma collect_loop_run L l : ∀ fuel p, chain (nodes L) p l 0 → (length l ≤ fuel)%nat →
  collect_loop fuel p L = Ok l.*2 L.
Proof.
  induction l as [|[a d] l IH]; intros fuel p Hc Hfuel; cbn in Hc.
  - subst p. by destruct fuel.
  - destruct Hc as (-> & Ha & n & Hn & Hc). destruct fuel as [|fuel]; [cbn in Hfuel; lia|].
    cbn [collect_loop]. unfold iter_next at 1. destruct (Nat.eqb_spec a 0); [done|].
    erewrite bind_run by (by erewrite bind_run by (by apply node_at_run)). cbv beta iota.
    erewrite bind_run by (apply IH; [done|cbn in Hfuel; lia]). done.
Qed.

Lemma drop_iter_empty L : readers L = 1 → pending_deletion L = 0%nat →
  drop_iter L = Ok tt (set_readers L 0).
Proof.
  intros Hr Hp. unfold drop_iter. erewrite bind_run by done. erewrite bind_run by done.
  rewrite Hr. change (1 =? 1) with true. cbv iota. unfold free_pool. erewrite bind_run by done.
  cbn [pending_deletion set_readers]. rewrite Hp. done.
Qed.

Lemma collect_quiet L l : quiet L l → collect L = Ok l.*2 L.
Proof.
  intros [Hrep Hr Hp]. unfold collect, iter. erewrite bind_run by (by erewrite bind_run).
  erewrite bind_run by done.
  erewrite bind_run by (apply (collect_loop_run (set_readers L (wrapping_add (readers L) 1)) l);
    [apply Hrep|cbn; pose proof (rep_length _ _ Hrep); lia]).
  erewrite bind_run by (apply drop_iter_empty; cbn; by rewrite ?Hr). destruct L. cbn in *. by subst.
Qed.

Lemma run_list_ops_quiet ops : ∀ L l, quiet L l →
  ∃ L', run_list_ops ops L = Ok (spec_list_ops ops l.*2) L'.
Proof.
  induction ops as [|o ops IH]; intros L l Hq; [by exists L|]. cbn [run_list_ops spec_list_ops].
  assert (∃ L' l', run_list_op o L = Ok (spec_list_op o l.*2).1 L' ∧ quiet L' l' ∧
    l'.*2 = (spec_list_op o l.*2).2) as (L' & l' & Hrun & Hq' & Hl').
  { destruct o as [x|pred|pred|]; cbn [run_list_op spec_list_op].
    - destruct (push_run L l x) as [Hp Hrep]; [apply Hq|]. erewrite bind_run by exact Hp.
      exists (pushed_list L x), ((next_address L, x) :: l). split; [done|]. split; [|done].
      split; [done|apply Hq|apply Hq].
    - destruct (remove_cloned_quiet L l pred Hq) as (L' & l' & Hr & Hq' & Hl').
      exists L', l'. unfold remove. erewrite bind_run by (by erewrite bind_run).
      by destruct (remove_first pred l.*2).
    - destruct (remove_cloned_quiet L l pred Hq) as (L' & l' & Hr & Hq' & Hl').
      exists L', l'. erewrite bind_run by done. by destruct (remove_first pred l.*2).
    - exists L, l. by erewrite bind_run by (by apply collect_quiet). }
  erewrite bind_run by exact Hrun. destruct (spec_list_op o l.*2) as [a l2]. cbn in *. subst l2.
  destruct (IH L' l' Hq') as (L'' & E). exists L''. by erewrite bind_run by exact E.
Qed.

(** *** Iterators *)

(** Bypassing one node of the memory drops it from every chain that went through its link. *)
Lemma chain_bypass m a d p dp q : m !! a = Some (d, p) → m !! p = Some (dp, q) → p ≠ 0%nat →
  ∀ l cur, chain m cur l 0 → ∃ l', chain (<[a := (d, q)]> m) cur l' 0 ∧ l' `sublist_of` l.
Proof.
  intros Ha Hp Hp0 l. remember (length l) as k eqn:Ek. revert l Ek.
  induction (lt_wf k) as [k _ IH]. intros [|[x dx] r] -> cur Hc; [by exists []|].
  destruct Hc as (-> & Hx & n & Hn & Hc). destruct (decide (x = a)) as [->|Hne].
  - rewrite Ha in Hn. injection Hn as <- <-. destruct r as [|[p' dp'] r]; [by cbn in Hc|].
    destruct Hc as (<- & _ & n & Hn & Hc). rewrite Hp in Hn. injection Hn as <- <-.
    destruct (IH (length r) ltac:(cbn; lia) r eq_refl q Hc) as (l' & Hl' & Hsub).
    exists ((a, d) :: l'). split.
    + split_and!; [done..|]. exists q. by rewrite lookup_insert_eq.
    + apply sublist_skip. by apply sublist_cons.
  - destruct (IH (length r) ltac:(cbn; lia) r eq_refl n Hc) as (l' & Hl' & Hsub).
    exists ((x, dx) :: l'). split.
    + split_and!; [done..|]. exists n. by rewrite lookup_insert_ne.
    + by apply sublist_skip.
Qed.

(** With an iterator about, the removed node waits in the pool. *)
Definition pooled L (p : nat) : LinkedList T :=
  set_pending (set_pool (bump L) (<[next_address L := (p, pending_deletion L)]> (pool L))) (next_address L).

Lemma push_pending_run L p : readers L ≠ 0 → push_pending_deletion p L = Ok tt (pooled L p).
Proof.
  intros Hr. unfold push_pending_deletion. erewrite bind_run by done.
  destruct (Z.eqb_spec (readers L) 0); [done|]. cbv zeta. erewrite bind_run by done.
  erewrite bind_run by done. cbn [push_pending_loop]. erewrite bind_run.
  2: { unfold pool_at. erewrite bind_run by done. cbn [pool bump set_pool]. rewrite lookup_insert_eq. done. }
  cbv beta iota. erewrite bind_run by done. erewrite bind_run by done.
  cbn [pending_deletion set_pool bump]. rewrite Nat.eqb_refl. unfold put, pooled. do 2 f_equal.
  unfold set_pending, set_pool, bump. cbn. by rewrite insert_insert_eq.
Qed.

Lemma remove_cloned_shared L l pred cur rest : list_rep L l → readers L ≠ 0 →
  chain (nodes L) cur rest 0 →
  ∃ r L' l' rest', remove_cloned pred L = Ok r L' ∧ list_rep L' l' ∧ readers L' = readers L ∧
    chain (nodes L') cur rest' 0 ∧ rest' `sublist_of` rest.
Proof.
  intros Hrep Hr Hc. rewrite (remove_cloned_run L l) by done. unfold removed.
  pose proof (remove_first_find pred l) as Hf. destruct (list_find _ l) as [[i [p d] ]|];
    [|by exists None, L, l, rest].
  destruct Hf as (a & b & -> & -> & _). rewrite take_app_length, drop_app_ge by lia.
  replace (S (length a) - length a)%nat with 1%nat by lia. cbn [drop]. rewrite drop_0.
  destruct (unlink_rep _ _ _ _ _ Hrep) as [[Hc' Hnd' Hf' Hpos'] _].
  destruct (rep_split _ _ _ _ _ Hrep) as (Hp0 & Hp & Hca & _).
  assert (readers (unlink L a (first b)) = readers L) as Hr'.
  { unfold unlink. by destruct (last a) as [[]|]. }
  erewrite bind_run by (apply push_pending_run; by rewrite Hr').
  assert (∃ rest', chain (nodes (unlink L a (first b))) cur rest' 0 ∧ rest' `sublist_of` rest)
    as (rest' & Hrest & Hsub).
  { unfold unlink. destruct (last a) as [[pa da]|] eqn:El; [|by exists rest].
    apply last_Some in El as [a' ->]. apply chain_last in Hca. cbn.
    by apply (chain_bypass _ pa da p d (first b) Hca Hp Hp0). }
  exists (Some d), (pooled (unlink L a (first b)) p), (a ++ b), rest'.
  split_and!; try done. split; try done.
  - cbn. intros x n Hx%Hf'. lia.
  - cbn. lia.
Qed.

(** What other threads may do to the list while an iterator exists. *)
Inductive mutates L : LinkedList T → Prop :=
  | mutates_push x L' : push x L = Ok tt L' → mutates L L'
  | mutates_remove pred b L' : remove pred L = Ok b L' → mutates L L'.

Lemma mutates_chain L L' l cur rest : list_rep L l → readers L ≠ 0 → chain (nodes L) cur rest 0 →
  mutates L L' → ∃ l' rest', list_rep L' l' ∧ readers L' = readers L ∧ chain (nodes L') cur rest' 0 ∧
    rest' `sublist_of` rest.
Proof.
  intros Hrep Hr Hc [x L2 Hm|pred b L2 Hm].
  - destruct (push_run L l x Hrep) as [Hp Hrep']. rewrite Hp in Hm. injection Hm as <-.
    eexists _, rest. split_and!; try done. cbn. eapply chain_frame; [|exact Hc].
    intros a Ha. apply lookup_insert_ne. intros <-. apply list_elem_of_fmap in Ha as [[y d] [E Hel] ].
    cbn in E. subst y.
    destruct (chain_elem _ _ _ _ _ _ Hc Hel) as (_ & n & Hn). apply (lr_fresh _ _ Hrep) in Hn. lia.
  - unfold remove in Hm. apply bind_Ok in Hm as (r & L1 & Hm & [= _ <-]).
    destruct (remove_cloned_shared L l pred cur rest) as (r' & L3 & l' & rest' & Hm' & ?); try done.
    exists l', rest'. rewrite Hm in Hm'. injection Hm' as <- <-. tauto.
Qed.

Lemma free_pool_undefined L p d n : (0 < next_address L)%nat → nodes L !! p = Some (d, n) →
  free_pool (set_readers (pooled L p) 0) = Stop Undefined.
Proof.
  intros Hna Hn. unfold free_pool. erewrite bind_run by done.
  cbn [pending_deletion pooled set_pending set_pool bump set_readers free_pool_loop].
  destruct (Nat.eqb_spec (next_address L) 0) as [E|_]; [lia|].
  assert (∀ L', pool L' !! next_address L = None → ∀ fuel, free_pool_loop fuel (next_address L) L' = Stop Undefined)
    as Hfreed.
  { intros L' Hp fuel. destruct fuel; cbn [free_pool_loop];
      (destruct (Nat.eqb_spec (next_address L) 0) as [E|_]; [lia|]);
      rewrite bind_unfold; unfold pool_at; rewrite bind_unfold; cbn; by rewrite Hp. }
  erewrite bind_run by (apply pool_at_run, lookup_insert_eq).
  cbv beta iota. erewrite bind_run by done. cbn [pending_deletion pooled set_pending set_pool bump set_readers].
  rewrite Nat.eqb_refl. erewrite bind_run by done. erewrite bind_run by done.
  unfold free_node. erewrite bind_run.
  2: { erewrite bind_run by (by apply node_at_run). done. }
  apply Hfreed. cbn. apply lookup_delete_eq.
Qed.

(** *** Properties *)

(** C32: a list that is used without iterators across operations behaves as a functional list:
    [push] adds in front, [remove] and [remove_cloned] take out the first element that matches and
    say whether (and which) there was one, iteration visits all elements in order, and no
    operation touches freed memory. *)
Theorem list_refines (ops : list list_op) :
  ∃ L', run_list_ops ops default_list = Ok (spec_list_ops ops []) L'.
Proof.
  apply (run_list_ops_quiet ops default_list []). split; [|done..]. split; cbn; try done; [constructor|lia].
Qed.

(** An iterator stays valid. Whatever is pushed and removed while it exists, it walks over
    live memory to its end, and yields elements that were in the list when it was created, in
    their order, missing only elements that were removed meanwhile. *)
Theorem iter_survives L l cur L1 L2 : list_rep L l → 0 ≤ readers L → readers L + 1 < U64 →
  iter L = Ok cur L1 → rtc mutates L1 L2 →
  ∃ xs, collect_loop (length l) cur L2 = Ok xs L2 ∧ xs `sublist_of` l.*2.
Proof.
  intros Hrep Hr0 Hr1 Hi Hm. injection Hi as <- <-.
  assert (∀ La Lb la rest, rtc mutates La Lb → list_rep La la → readers La ≠ 0 →
    chain (nodes La) (head L) rest 0 → ∃ rest', chain (nodes Lb) (head L) rest' 0 ∧ rest' `sublist_of` rest)
    as Hsteps.
  { intros La Lb la rest Hs. revert la rest. induction Hs as [|La Lb Lc Hstep _ IH]; [by eauto|].
    intros la rest Ha Hra Hc. destruct (mutates_chain _ _ _ _ _ Ha Hra Hc Hstep)
      as (lb & rest1 & Hb & Hrb & Hcb & Hsub).
    destruct (IH lb rest1) as (rest2 & Hc2 & Hsub2); [done|by rewrite Hrb|done|].
    exists rest2. split; [done|]. by etrans. }
  destruct (Hsteps _ _ l l Hm) as (rest' & Hc & Hsub).
  - destruct Hrep. by split.
  - cbn. rewrite wrapping_add_small by lia. lia.
  - apply Hrep.
  - exists rest'.*2. split; [|by apply fmap_sublist].
    apply collect_loop_run; [done|]. by apply sublist_length.
Qed.

(** When an element is removed while an iterator exists and the iterator is then dropped,
    [free_pool] reads a node it has just freed: after removing the head of the pool it goes on
    with the same pointer. *)
Theorem drop_iter_use_after_free L l pred : quiet L l → (∃ x, x ∈ l.*2 ∧ pred x = true) →
  (iter;; remove pred;; drop_iter) L = Stop Undefined.
Proof.
  intros [Hrep Hr Hp] (x & Hx & Hpred).
  set (L1 := set_readers L 1). assert (iter L = Ok (head L) L1) as Hi.
  { unfold iter. erewrite bind_run by done. by rewrite Hr. }
  erewrite bind_run by exact Hi. assert (list_rep L1 l) as Hrep1 by (destruct Hrep; by split).
  pose proof (remove_first_find pred l) as Hf. unfold remove.
  destruct (list_find (matches pred) l) as [[i [p d] ]|] eqn:E.
  2: { exfalso. apply list_find_None in E. rewrite Forall_forall in E.
       apply list_elem_of_fmap in Hx as [[y d] [-> Hel] ]. apply (E _ Hel). cbn in *. by rewrite Hpred. }
  destruct Hf as (a & b & -> & -> & _). set (L2 := unlink L1 a (first b)).
  destruct (unlink_rep L1 a p d b Hrep1) as [Hrep2 Hnp].
  assert (readers L2 = 1 ∧ pending_deletion L2 = 0%nat) as [Hr2 Hp2].
  { unfold L2, unlink. destruct (last a) as [[]|]; done. }
  assert (remove_cloned pred L1 = Ok (Some d) (pooled L2 p)) as Hrun.
  { rewrite (remove_cloned_run L1 _ pred Hrep1). unfold removed. rewrite E.
    rewrite take_app_length, drop_app_ge by lia. replace (S (length a) - length a)%nat with 1%nat by lia.
    cbn [drop]. rewrite drop_0. by erewrite bind_run by (apply push_pending_run; fold L2; lia). }
  erewrite bind_run by (by erewrite bind_run by exact Hrun). unfold drop_iter.
  erewrite bind_run by done. erewrite bind_run by done. cbn [readers pooled set_pending set_pool bump].
  rewrite Hr2. change (1 =? 1) with true. cbv iota.
  eapply free_pool_undefined; [apply Hrep2|exact Hnp].
Qed.
End spec.

(** *** Witnesses *)

Definition demo_list : LinkedList Z := pushed_list (pushed_list (pushed_list default_list 1) 2) 3.

Lemma demo_list_quiet : quiet demo_list [(3%nat, 3); (2%nat, 2); (1%nat, 1)].
Proof.
  split; [|reflexivity|reflexivity].
  assert (list_rep (T:=Z) default_list []) as H0 by (split; cbn; try done; [constructor|lia]).
  destruct (push_run _ _ 1 H0) as [_ H1]. destruct (push_run _ _ 2 H1) as [_ H2].
  destruct (push_run _ _ 3 H2) as [_ H3]. exact H3.
Qed.

(** The test [iterator_validity_during_modifications]. *)
Example iter_survives_witness : ∃ xs L2,
  (iter;; push 4;; remove (Z.eqb 1)) demo_list = Ok true L2 ∧
  collect_loop 3 3%nat L2 = Ok xs L2 ∧ xs `sublist_of` [3; 2; 1].
Proof.
  set (L1 := set_readers demo_list 1).
  assert (∃ La, push 4 L1 = Ok tt La ∧ ∃ L2, remove (Z.eqb 1) La = Ok true L2) as (La & Ha & L2 & H2).
  { assert (match (push 4;; remove (Z.eqb 1)) L1 with Ok b _ => b | _ => false end = true) as E
      by (vm_compute; reflexivity).
    rewrite bind_unfold in E. destruct (push 4 L1) as [[] La|[]|w]; [|discriminate E].
    exists La. split; [reflexivity|].
    destruct (remove (Z.eqb 1) La) as [b L2|[]|w]; [|discriminate E]. exists L2. rewrite E. reflexivity. }
  destruct (iter_survives demo_list [(3%nat, 3); (2%nat, 2); (1%nat, 1)] 3%nat L1 L2) as (xs & Hc & Hsub).
  - apply demo_list_quiet.
  - reflexivity.
  - reflexivity.
  - reflexivity.
  - eapply rtc_l; [exact (mutates_push _ _ _ Ha)|]. eapply rtc_l; [exact (mutates_remove _ _ _ _ H2)|].
    apply rtc_refl.
  - exists xs, L2. split; [|split; [exact Hc|exact Hsub] ].
    rewrite bind_unfold. change (iter demo_list) with (Ok (E:=Empty_set) 3%nat L1). cbv iota.
    rewrite bind_unfold, Ha. exact H2.
Defined.

(** The test [pending_deletion]. *)
Example drop_iter_use_after_free_witness :
  (iter;; remove (Z.eqb 1);; drop_iter) demo_list = Stop Undefined.
Proof.
  apply (drop_iter_use_after_free demo_list [(3%nat, 3); (2%nat, 2); (1%nat, 1)]).
  - apply demo_list_quiet.
  - exists 1. split; [|reflexivity]. cbn. set_solver.
Defined.
