(* ===== verification/ConcMap.v ===== *)
(** The concurrent hash map ([ds/maps.rs]): a power of two of shards, each a hash map under a
    lock, with keys assigned to shards by bits of their hash. An access holds the lock of its
    shard for its whole duration, so accesses are atomic here. *)
From stdpp Require Import base list gmap.
From S2P Require Import Prelude.

Section map.
Context {K V : Type} `{Countable K}.
(** [S::hash_one], the hash builder's function *)
Context (hash_one : K → Z).

Record CHashMap := {
  shard_index_shift : Z;
  shards : list (gmap K V);
}.

Abbreviation CM := (M CHashMap Empty_set).

Definition is_power_of_two (n : Z) : bool := (0 <? n) && (n =? 2 ^ Z.log2 n).

(** [trailing_zeros] of a power of two is its logarithm. *)
Definition with_hasher_and_shard_count (shard_count : Z) : option CHashMap :=
  if (0 <? shard_count) && is_power_of_two shard_count then
    Some {| shard_index_shift := 64 - Z.log2 shard_count;
            shards := replicate (Z.to_nat shard_count) ∅ |}
  else None.

Definition DEFAULT_SHARD_COUNT : Z := 128.

(** [<<] on [u64] drops the high bits; a shift by 64 or more panics. *)
Definition shard_index_for_hash (self : CHashMap) (hash : Z) : option Z :=
  let shifted := Z.shiftl hash 7 mod U64 in
  if shard_index_shift self <? 64 then Some (Z.shiftr shifted (shard_index_shift self)) else None.

(** [get_unchecked]: an index out of range is undefined. *)
Definition shard_of (key : K) : CM (nat * gmap K V) :=
  self ← get;
  i ← lift (shard_index_for_hash self (hash_one key));
  match shards self !! Z.to_nat i with
  | Some shard => mret (Z.to_nat i, shard)
  | None => undefined
  end.
Definition set_shard (i : nat) (shard : gmap K V) : CM unit :=
  self ← get;
  put {| shard_index_shift := shard_index_shift self; shards := <[i := shard]> (shards self) |}.

(** [get] and [get_mut] give a reference to the value; [modify] is what is done through a
    [RefMut] before its lock is released. *)
Definition get (key : K) : CM (option V) :=
  '(_, shard) ← shard_of key; mret (shard !! key).
Definition get_mut (key : K) (modify : V → V) : CM (option V) :=
  '(i, shard) ← shard_of key;
  match shard !! key with
  | None => mret None
  | Some v => set_shard i (<[key := modify v]> shard);; mret (Some v)
  end.
Definition insert (key : K) (v : V) : CM (option V) :=
  '(i, shard) ← shard_of key; set_shard i (<[key := v]> shard);; mret (shard !! key).
Definition remove (key : K) : CM (option V) :=
  '(i, shard) ← shard_of key; set_shard i (delete key shard);; mret (shard !! key).

(** *** [CHashMapAuto] *)

Context (K_from : Z → K).

Record CHashMapAuto := {
  map : CHashMap;
  next_key : Z;
}.

Definition reserve_key : M CHashMapAuto Empty_set K := λ self,
  Ok (K_from (next_key self)) {| map := map self; next_key := wrapping_add (next_key self) 1 |}.

Definition auto_insert (v : V) : M CHashMapAuto Empty_set K :=
  k ← reserve_key;
  old ← (λ self, match insert k v (map self) with
                 | Ok o m => Ok o {| map := m; next_key := next_key self |}
                 | Err e m => Err e {| map := m; next_key := next_key self |}
                 | Stop w => Stop w
                 end);
  lift old;;
  mret k.

(** *** Refinement *)

Record map_ok (self : CHashMap) (k : Z) : Prop := {
  mo_shift : shard_index_shift self = 64 - k;
  mo_bits : 0 < k < 64;
  mo_shards : Z.of_nat (length (shards self)) = 2 ^ k;
}.

(** The shard a key belongs to. *)
Definition home (k : Z) (key : K) : nat := Z.to_nat (Z.shiftr (Z.shiftl (hash_one key) 7 mod U64) (64 - k)).

(** The map that the shards stand for. *)
Definition represents (self : CHashMap) (m : gmap K V) : Prop :=
  ∃ k, map_ok self k ∧ ∀ key, m !! key = shards self !! home k key ≫= (λ s : gmap K V, s !! key).

Lemma home_lt self k key : map_ok self k → (home k key < length (shards self))%nat.
Proof.
  intros [_ Hk Hs]. unfold home. rewrite Z.shiftr_div_pow2 by lia.
  pose proof (Z.mod_pos_bound (Z.shiftl (hash_one key) 7) U64 ltac:(lia)) as Hb.
  set (x := _ mod U64) in *. clearbody x.
  assert (x / 2 ^ (64 - k) < 2 ^ k).
  { apply Z.div_lt_upper_bound; [apply Z.pow_pos_nonneg; lia|].
    rewrite <- Z.pow_add_r by lia. replace (64 - k + k) with 64 by lia. exact (proj2 Hb). }
  assert (0 ≤ x / 2 ^ (64 - k)) by (apply Z.div_pos; [lia|apply Z.pow_pos_nonneg; lia]). lia.
Qed.

Lemma shard_of_run self k key : map_ok self k → ∃ shard, shards self !! home k key = Some shard ∧
  shard_of key self = Ok (home k key, shard) self.
Proof.
  intros Hok. destruct (lookup_lt_is_Some_2 _ _ (home_lt _ _ key Hok)) as [shard Hs].
  exists shard. split; [done|]. unfold shard_of. erewrite bind_run by done.
  unfold shard_index_for_hash. rewrite (mo_shift _ _ Hok). destruct Hok as [_ Hk _].
  destruct (Z.ltb_spec (64 - k) 64); [|lia]. erewrite bind_run by done.
  change (Z.to_nat (Z.shiftr (Z.shiftl (hash_one key) 7 mod U64) (64 - k))) with (home k key).
  by rewrite Hs.
Qed.

(** Changing one key in its shard changes that key of the map. *)
Lemma set_shard_represents self m k key shard shard' : map_ok self k →
  (∀ key', m !! key' = shards self !! home k key' ≫= (λ s : gmap K V, s !! key')) →
  shards self !! home k key = Some shard →
  (∀ key', key' ≠ key → shard' !! key' = shard !! key') →
  ∃ self', set_shard (home k key) shard' self = Ok tt self' ∧
    represents self' (partial_alter (λ _, shard' !! key) key m).
Proof.
  intros Hok Hm Hs Hother. eexists. split; [done|]. exists k. split.
  { destruct Hok as [? ? ?]. split; cbn; [done..|]. by rewrite length_insert. }
  intros key'. cbn. destruct (decide (key' = key)) as [->|Hne].
  - rewrite lookup_partial_alter_eq, list_lookup_insert_eq by (by eapply lookup_lt_Some). done.
  - rewrite lookup_partial_alter_ne, Hm by done.
    destruct (decide (home k key' = home k key)) as [->|Hh].
    + rewrite list_lookup_insert_eq by (by eapply lookup_lt_Some). rewrite Hs. cbn. by rewrite Hother.
    + by rewrite list_lookup_insert_ne.
Qed.

(** *** Sequences of operations *)

Inductive map_op :=
  | OpGet (key : K)
  | OpModify (key : K) (modify : V → V)
  | OpInsert (key : K) (v : V)
  | OpRemove (key : K).

Definition run_map_op (o : map_op) : CM (option V) :=
  match o with
  | OpGet key => get key
  | OpModify key modify => get_mut key modify
  | OpInsert key v => insert key v
  | OpRemove key => remove key
  end.
Definition spec_map_op (o : map_op) (m : gmap K V) : option V * gmap K V :=
  match o with
  | OpGet key => (m !! key, m)
  | OpModify key modify => (m !! key, alter modify key m)
  | OpInsert key v => (m !! key, <[key := v]> m)
  | OpRemove key => (m !! key, delete key m)
  end.
Fixpoint run_map_ops (ops : list map_op) : CM (list (option V)) :=
  match ops with
  | [] => mret []
  | o :: ops' => r ← run_map_op o; rs ← run_map_ops ops'; mret (r :: rs)
  end.
Fixpoint spec_map_ops (ops : list map_op) (m : gmap K V) : list (option V) :=
  match ops with
  | [] => []
  | o :: ops' => let '(r, m') := spec_map_op o m in r :: spec_map_ops ops' m'
  end.

Lemma alter_present (m : gmap K V) key f v : m !! key = Some v →
  alter f key m = partial_alter (λ _, Some (f v)) key m.
Proof.
  intros Hv. apply map_eq. intros key'. destruct (decide (key' = key)) as [->|Hne].
  - by rewrite lookup_alter_eq, lookup_partial_alter_eq, Hv.
  - by rewrite lookup_alter_ne, lookup_partial_alter_ne.
Qed.

Lemma alter_absent (m : gmap K V) key f : m !! key = None → alter f key m = m.
Proof.
  intros Hv. apply map_eq. intros key'. destruct (decide (key' = key)) as [->|Hne].
  - by rewrite lookup_alter_eq, Hv.
  - by rewrite lookup_alter_ne.
Qed.

Lemma run_map_op_spec o self m : represents self m →
  ∃ self', run_map_op o self = Ok (spec_map_op o m).1 self' ∧ represents self' (spec_map_op o m).2.
Proof.
  intros (k & Hok & Hm). assert (represents self m) as Hrep by by exists k.
  destruct o as [key|key modify|key v|key]; cbn [run_map_op spec_map_op fst snd];
    destruct (shard_of_run self k key Hok) as (shard & Hs & Hrun);
    assert (m !! key = shard !! key) as Hmk by (rewrite Hm, Hs; done);
    [unfold get|unfold get_mut|unfold insert|unfold remove]; (erewrite bind_run by exact Hrun); cbv beta iota.
  - exists self. by rewrite Hmk.
  - rewrite <- Hmk. destruct (m !! key) as [v|] eqn:Ev.
    + destruct (set_shard_represents self m k key shard (<[key := modify v]> shard)) as (self' & Hset & Hr);
        [done..|intros; by apply lookup_insert_ne|].
      exists self'. erewrite bind_run by exact Hset. split; [done|].
      rewrite lookup_insert_eq in Hr. by rewrite (alter_present _ _ _ _ Ev).
    + exists self. split; [done|]. by rewrite alter_absent.
  - destruct (set_shard_represents self m k key shard (<[key := v]> shard)) as (self' & Hset & Hr);
      [done..|intros; by apply lookup_insert_ne|].
    exists self'. erewrite bind_run by exact Hset. rewrite Hmk. split; [done|]. by rewrite lookup_insert_eq in Hr.
  - destruct (set_shard_represents self m k key shard (delete key shard)) as (self' & Hset & Hr);
      [done..|intros; by apply lookup_delete_ne|].
    exists self'. erewrite bind_run by exact Hset. rewrite Hmk. split; [done|]. by rewrite lookup_delete_eq in Hr.
Qed.

Lemma run_map_ops_spec ops : ∀ self m, represents self m →
  ∃ self', run_map_ops ops self = Ok (spec_map_ops ops m) self'.
Proof.
  induction ops as [|o ops IH]; intros self m Hrep; [by exists self|]. cbn [run_map_ops spec_map_ops].
  destruct (run_map_op_spec o self m Hrep) as (self1 & Hrun & Hrep1). erewrite bind_run by exact Hrun.
  destruct (spec_map_op o m) as [r m']. cbn in *. destruct (IH self1 m' Hrep1) as (self2 & Hrun2).
  exists self2. by erewrite bind_run by exact Hrun2.
Qed.

Lemma new_represents shard_count self : with_hasher_and_shard_count shard_count = Some self →
  1 < shard_count < U64 → represents self ∅.
Proof.
  unfold with_hasher_and_shard_count, is_power_of_two. intros Hn Hs.
  destruct (Z.eqb_spec shard_count (2 ^ Z.log2 shard_count)) as [E|]; [|by rewrite !andb_false_r in Hn].
  destruct (Z.ltb_spec 0 shard_count); [|done]. cbn in Hn. injection Hn as <-.
  exists (Z.log2 shard_count). split.
  - split; cbn; [done| |].
    + pose proof (Z.log2_lt_pow2 shard_count 64 ltac:(lia)) as [Hlt _].
      assert (0 < Z.log2 shard_count) by (apply Z.log2_pos; lia). specialize (Hlt (proj2 Hs)). lia.
    + rewrite length_replicate, Z2Nat.id by lia. done.
  - intros key. cbn. rewrite lookup_empty.
    destruct (replicate _ _ !! _) as [m|] eqn:Em; cbn; [|done].
    apply lookup_replicate in Em as [-> _]. by rewrite lookup_empty.
Qed.

(** C33: the sharded map is one map. On a map with more than one shard, for every hash function,
    each sequence of [get], [get_mut], [insert] and [remove] answers as the finite map it stands
    for, and the unchecked index of the shard is always in range. *)
Theorem chashmap_refines shard_count self ops :
  with_hasher_and_shard_count shard_count = Some self → 1 < shard_count < U64 →
  ∃ self', run_map_ops ops self = Ok (spec_map_ops ops ∅) self'.
Proof. intros Hn Hs. apply run_map_ops_spec. by eapply new_represents. Qed.

(** With a single shard the shift by 64 panics. *)
Lemma single_shard_panics self key : with_hasher_and_shard_count 1 = Some self → get key self = Stop Panic.
Proof. intros [= <-]. done. Qed.

(** [CHashMapAuto::insert] expects an old value under the key it has just reserved. *)
Lemma auto_insert_panics self m v : represents (map self) m → m !! K_from (next_key self) = None →
  auto_insert v self = Stop Panic.
Proof.
  intros Hrep Hnone. unfold auto_insert. erewrite bind_run by done.
  destruct (run_map_op_spec (OpInsert (K_from (next_key self)) v) (map self) m Hrep) as (m' & Hrun & _).
  cbn [run_map_op spec_map_op fst] in Hrun. rewrite Hnone in Hrun.
  rewrite bind_unfold. cbn [map next_key]. by rewrite Hrun.
Qed.
End map.

(** Four shards and a hash that puts keys into different ones. *)
Example chashmap_refines_witness : ∃ self', run_map_ops (λ k, k * 2 ^ 55)
    [OpInsert 1 10; OpInsert 2 20; OpInsert 1 11; OpModify 2 Z.succ; OpGet 2; OpRemove 1; OpGet 1]
    {| shard_index_shift := 62; shards := replicate 4 ∅ |}
  = Ok [None; None; Some 10; Some 20; Some 21; Some 11; None] self'.
Proof.
  destruct (chashmap_refines (λ k, k * 2 ^ 55) 4 {| shard_index_shift := 62; shards := replicate 4 ∅ |}
    [OpInsert 1 10; OpInsert 2 20; OpInsert 1 11; OpModify 2 Z.succ; OpGet 2; OpRemove 1; OpGet 1]
    eq_refl (conj eq_refl eq_refl)) as (self' & E).
  exists self'. rewrite E. reflexivity.
Defined.
