(* ===== verification/RegPath.v ===== *)
(** Paths of the registry ([registry/path.rs]) and the registry itself ([registry/mod.rs]): a
    tree of directories whose leaves are the handlers of devices and file systems. *)
From Stdlib Require Import Strings.Ascii Strings.String.
From stdpp Require Import base list gmap strings.
From S2P Require Import Prelude.

(** A [&str], by its bytes. *)
Abbreviation str := (list ascii).
Definition text (s : string) : str := String.list_ascii_of_string s.

Definition PATH_SEP : ascii := "/"%char.

Inductive Component :=
  | Root
  | CurrentDir
  | ParentDir
  | Name (n : str).
#[export] Instance Component_eq_dec : EqDecision Component.
Proof. solve_decision. Defined.

Definition from_str (s : str) : Component :=
  if decide (s = text ".") then CurrentDir
  else if decide (s = text "..") then ParentDir
  else Name s.

Record Components := {
  s : str;
  front : nat;
  back : nat;
}.

(** [&s[a..b]], which panics out of range. *)
Definition slice (l : str) (a b : nat) : option str :=
  if (a <=? b)%nat && (b <=? length l)%nat then Some (take (b - a) (drop a l)) else None.

(** [str::find] and [str::rfind] of the separator *)
Definition find_sep (l : str) : option nat := fst <$> list_find (.= PATH_SEP) l.
Definition rfind_sep (l : str) : option nat :=
  (λ i, length l - 1 - i)%nat <$> find_sep (reverse l).

Definition new_components (p : str) : Components := {| s := p; front := 0; back := length p |}.
Definition as_path (self : Components) : option str := slice (s self) (front self) (back self).

Definition set_front (self : Components) (n : nat) : Components :=
  {| s := s self; front := n; back := back self |}.
Definition set_back (self : Components) (n : nat) : Components :=
  {| s := s self; front := front self; back := n |}.

(** [None] is a panic. *)
Definition next (self : Components) : option (option Component * Components) :=
  if (back self <=? front self)%nat then Some (None, self)
  else
    cur ← slice (s self) (front self) (back self);
    match find_sep cur with
    | Some next_sep =>
        if (next_sep =? 0)%nat then Some (Some Root, set_front self (front self + 1))
        else
          name ← slice cur 0 next_sep;
          Some (Some (from_str name), set_front self (front self + (next_sep + 1)))
    | None => Some (Some (from_str cur), set_front self (back self))
    end.

(** The loop that drops separators at the end; [None] inside is [return None]. *)
Fixpoint strip_seps (fuel : nat) (self : Components) (cur : str) : option (option str * Components) :=
  match rfind_sep cur, fuel with
  | Some i, S fuel' =>
      if (i =? back self - 1)%nat then
        let self' := set_back self (back self - 1) in
        if (back self' <=? front self')%nat then Some (None, self')
        else
          cur' ← slice cur (front self') (back self');
          strip_seps fuel' self' cur'
      else Some (Some cur, self)
  | _, _ => Some (Some cur, self)
  end.

Definition next_back (self : Components) : option (option Component * Components) :=
  if (back self <=? front self)%nat then Some (None, self)
  else
    cur ← slice (s self) (front self) (back self);
    if decide (cur = [PATH_SEP]) then Some (Some Root, set_back self (front self))
    else
      '(o, self) ← strip_seps (back self) self cur;
      match o with
      | None => Some (None, self)
      | Some cur =>
          match rfind_sep cur with
          | Some last_sep =>
              let self' := set_back self (back self - (length cur - last_sep - 1)) in
              name ← slice cur (last_sep + 1) (length cur);
              Some (Some (from_str name), self')
          | None => Some (Some (from_str cur), set_back self (front self))
          end
      end.

(** *** [Path] *)

Definition is_absolute (p : str) : option bool :=
  '(c, _) ← next (new_components p); Some (bool_decide (c = Some Root)).

Definition parent (p : str) : option (option str) :=
  '(c, comps) ← next_back (new_components p);
  match c with
  | Some (Name _) | Some CurrentDir | Some ParentDir => Some <$> as_path comps
  | _ => Some None
  end.

Fixpoint file_name_loop (fuel : nat) (p : str) : option (option str) :=
  '(c, comps) ← next_back (new_components p);
  match c, fuel with
  | Some (Name n), _ => Some (Some n)
  | Some CurrentDir, S fuel' => p' ← as_path comps; file_name_loop fuel' p'
  | _, _ => Some None
  end.
Definition file_name (p : str) : option (option str) := file_name_loop (length p) p.

(** *** [PathBuf] *)

Definition push (self p : str) : str :=
  (if decide (last self = Some PATH_SEP) then self else self ++ [PATH_SEP]) ++ p.
Definition pop (self : str) : option (bool * str) :=
  o ← parent self;
  match o with
  | Some p => Some (true, take (length p) self)
  | None => Some (false, self)
  end.

(** *** The registry *)

Section registry.
(** [Box<dyn RegistryHandler>] *)
Context {H : Type}.

Inductive RegistryError :=
  | NotFound (path : str)
  | Unsupported
  | HandlerAlreadyRegistered (name : str)
  | InvalidPath.

#[local] Set Warnings "-register-all".
Inductive Node :=
  | Directory (children : list (str * Node))
  | Handler (h : H).

(** The [HashMap] of a directory, by its entries with distinct keys. *)
Fixpoint child (n : str) (l : list (str * Node)) : option Node :=
  match l with
  | [] => None
  | (k, x) :: l' => if decide (k = n) then Some x else child n l'
  end.
Fixpoint set_child (n : str) (x : Node) (l : list (str * Node)) : list (str * Node) :=
  match l with
  | [] => [(n, x)]
  | (k, y) :: l' => if decide (k = n) then (n, x) :: l' else (k, y) :: set_child n x l'
  end.

(** A [Result], or a panic. The node is changed in place, also when an error is returned. *)
Inductive outcome (A : Type) :=
  | Fine (a : A)
  | Failed (e : RegistryError)
  | Panicked.
Arguments Fine {A} a.
Arguments Failed {A} e.
Arguments Panicked {A}.

(** [Node::add], by the components left; each one makes the prefix shorter. *)
Fixpoint add (fuel : nat) (self : Node) (prefix : Components) (name : str) (handler : H)
    : outcome unit * Node :=
  match next prefix, fuel with
  | None, _ | _, O => (Panicked, self)
  | Some (c, prefix'), S fuel' =>
      match c, self with
      | Some (Name n), Directory children =>
          let entry := default (Directory []) (child n children) in
          let '(r, entry') := add fuel' entry prefix' name handler in
          (r, Directory (set_child n entry' children))
      | None, Directory children =>
          match child name children with
          | Some _ => (Failed (HandlerAlreadyRegistered name), self)
          | None => (Fine tt, Directory (set_child name (Handler handler) children))
          end
      | Some Root, _ | Some ParentDir, _ | Some CurrentDir, _ => (Panicked, self)
      | _, _ => (Failed (HandlerAlreadyRegistered name), self)
      end
  end.

Fixpoint find (fuel : nat) (self : Node) (path : Components) : outcome (str * H) :=
  match next path, fuel with
  | None, _ | _, O => Panicked
  | Some (c, path'), S fuel' =>
      match c, self with
      | Some (Name n), Directory children =>
          match child n children with
          | Some (Handler h) =>
              match as_path path' with Some rest => Fine (rest, h) | None => Panicked end
          | Some x => find fuel' x path'
          | None =>
              match as_path path' with Some rest => Failed (NotFound rest) | None => Panicked end
          end
      | _, _ => Panicked   (* [panic!] and [todo!] *)
      end
  end.

Definition new_registry : Node := Directory [].

Definition register (root : Node) (path : str) (handler : H) : outcome unit * Node :=
  match next_back (new_components path) with
  | None => (Panicked, root)
  | Some (Some (Name name), pc) =>
      match next pc with
      | None => (Panicked, root)
      | Some (Some Root, pc') => add (S (length path)) root pc' name handler
      | Some _ => (Failed InvalidPath, root)
      end
  | Some _ => (Failed InvalidPath, root)
  end.

Definition find_handler (root : Node) (p : str) : outcome (str * H) :=
  match next (new_components p) with
  | None => Panicked
  | Some (Some Root, pc) => find (S (length p)) root pc
  | Some _ => Failed InvalidPath
  end.
End registry.
Arguments Node : clear implicits.
Arguments Fine {A} a.
Arguments Failed {A} e.
Arguments Panicked {A}.
