(* ===== verification/RegSpec.v ===== *)
(** Paths parse the same way from both ends, and registered handlers are found again. *)
From Stdlib Require Import Strings.Ascii Strings.String.
From stdpp Require Import base list gmap strings.
From S2P Require Import Prelude RegPath.

(** *** Iterating over components *)

(** All components, from the front and from the back. *)
Fixpoint forward (fuel : nat) (c : Components) : option (list Component) :=
  '(o, c') ← next c;
  match o, fuel with
  | None, _ => Some []
  | Some _, O => None
  | Some x, S fuel' => l ← forward fuel' c'; Some (x :: l)
  end.
Fixpoint backward (fuel : nat) (c : Components) : option (list Component) :=
  '(o, c') ← next_back c;
  match o, fuel with
  | None, _ => Some []
  | Some _, O => None
  | Some x, S fuel' => l ← backward fuel' c'; Some (x :: l)
  end.

Definition name_ok (n : str) : Prop := n ≠ [] ∧ PATH_SEP ∉ n.

(** [a/b/] *)
Definition dirs (ns : list str) : str := mjoin ((λ n, n ++ [PATH_SEP]) <$> ns).
(** [/a/b/] *)
Definition dir_path (ns : list str) : str := PATH_SEP :: dirs ns.
(** [/a/b/n] *)
Definition file_path (ns : list str) (n : str) : str := dir_path ns ++ n.

Lemma dirs_app ns ms : dirs (ns ++ ms) = dirs ns ++ dirs ms.
Proof. unfold dirs. by rewrite fmap_app, join_app. Qed.
Lemma dirs_cons n ns : dirs (n :: ns) = n ++ PATH_SEP :: dirs ns.
Proof. unfold dirs. cbn. by rewrite <- app_assoc. Qed.

(** [c] has [cur] left. *)
Record at_ (c : Components) (pre cur post : str) : Prop := {
  at_s : s c = pre ++ cur ++ post;
  at_front : front c = length pre;
  at_back : back c = (length pre + length cur)%nat;
}.

Lemma at_new p : at_ (new_components p) [] p [].
Proof. split; cbn; [by rewrite app_nil_r|done|done]. Qed.

Lemma slice_mid l pre x post a b : l = pre ++ x ++ post → a = length pre →
  b = (length pre + length x)%nat → slice l a b = Some x.
Proof.
  intros -> -> ->. unfold slice.
  destruct (Nat.leb_spec (length pre) (length pre + length x)); [|lia].
  destruct (Nat.leb_spec (length pre + length x) (length (pre ++ x ++ post))); [|rewrite !length_app in *; lia].
  cbn. rewrite drop_app_length. f_equal.
  replace (length pre + length x - length pre)%nat with (length x) by lia. apply take_app_length.
Qed.

Lemma at_as_path c pre cur post : at_ c pre cur post → as_path c = Some cur.
Proof. intros [Hs Hf Hb]. unfold as_path. by eapply slice_mid. Qed.

Lemma find_sep_none n : PATH_SEP ∉ n → find_sep n = None.
Proof.
  intros Hn. unfold find_sep. rewrite (proj2 (list_find_None _ _)); [done|].
  apply Forall_forall. by intros x Hx ->.
Qed.

Lemma find_sep_app n r : PATH_SEP ∉ n → find_sep (n ++ PATH_SEP :: r) = Some (length n).
Proof.
  intros Hn. unfold find_sep. assert (list_find (.= PATH_SEP) n = None) as E.
  { apply list_find_None, Forall_forall. by intros x Hx ->. }
  rewrite (list_find_app_r _ _ _ E). cbn. done.
Qed.

Lemma rfind_sep_none n : PATH_SEP ∉ n → rfind_sep n = None.
Proof. intros Hn. unfold rfind_sep. rewrite find_sep_none; [done|]. by rewrite elem_of_reverse. Qed.

Lemma rfind_sep_app a n : PATH_SEP ∉ n → rfind_sep (a ++ PATH_SEP :: n) = Some (length a).
Proof.
  intros Hn. unfold rfind_sep. rewrite reverse_app, reverse_cons, <- app_assoc. cbn.
  rewrite find_sep_app by (by rewrite elem_of_reverse). cbn. rewrite length_app, length_reverse. cbn.
  f_equal. lia.
Qed.

(** *** From the front *)

Lemma next_nil c pre post : at_ c pre [] post → next c = Some (None, c).
Proof. intros [_ Hf Hb]. unfold next. rewrite Hf, Hb. cbn. by rewrite Nat.add_0_r, Nat.leb_refl. Qed.

Lemma next_cur c pre cur post : at_ c pre cur post → cur ≠ [] →
  next c = match find_sep cur with
           | Some i =>
               if (i =? 0)%nat then Some (Some Root, set_front c (front c + 1))
               else name ← slice cur 0 i; Some (Some (from_str name), set_front c (front c + (i + 1)))
           | None => Some (Some (from_str cur), set_front c (back c))
           end.
Proof.
  intros [Hs Hf Hb] Hne. unfold next.
  destruct (Nat.leb_spec (back c) (front c)) as [Hle|_]; [destruct cur; [done|cbn in *; lia]|].
  by erewrite slice_mid by done.
Qed.

Lemma next_root c pre r post : at_ c pre (PATH_SEP :: r) post →
  ∃ c', next c = Some (Some Root, c') ∧ at_ c' (pre ++ [PATH_SEP]) r post.
Proof.
  intros Hat. rewrite (next_cur _ _ _ _ Hat) by done. change (PATH_SEP :: r) with ([] ++ PATH_SEP :: r) at 1.
  rewrite find_sep_app by set_solver. eexists. split; [done|]. destruct Hat as [Hs Hf Hb].
  split; cbn in *; [by rewrite <- app_assoc|rewrite length_app; cbn; lia|rewrite length_app; cbn; lia].
Qed.

Lemma next_name c pre n r post : at_ c pre (n ++ PATH_SEP :: r) post → name_ok n →
  ∃ c', next c = Some (Some (from_str n), c') ∧ at_ c' (pre ++ n ++ [PATH_SEP]) r post.
Proof.
  intros Hat [Hne Hn]. rewrite (next_cur _ _ _ _ Hat) by (by destruct n). rewrite find_sep_app by done.
  destruct (Nat.eqb_spec (length n) 0); [by destruct n|].
  rewrite (slice_mid _ [] n (PATH_SEP :: r)) by done. eexists. split; [done|]. destruct Hat as [Hs Hf Hb].
  rewrite !length_app in *. split; cbn in *; rewrite ?length_app, <- ?app_assoc; cbn; [|lia|lia].
  rewrite Hs, <- app_assoc. done.
Qed.

Lemma next_last c pre n post : at_ c pre n post → name_ok n →
  ∃ c', next c = Some (Some (from_str n), c') ∧ at_ c' (pre ++ n) [] post.
Proof.
  intros Hat [Hne Hn]. rewrite (next_cur _ _ _ _ Hat) by done. rewrite find_sep_none by done.
  eexists. split; [done|]. destruct Hat as [Hs Hf Hb].
  split; cbn; rewrite ?length_app, <- ?app_assoc; cbn; [done|lia|lia].
Qed.

Lemma forward_nil fuel c pre post : at_ c pre [] post → forward fuel c = Some [].
Proof. intros Hat. destruct fuel; cbn; by rewrite (next_nil _ _ _ Hat). Qed.

Lemma forward_dirs ns : ∀ fuel c pre rest post l, at_ c pre (dirs ns ++ rest) post → Forall name_ok ns →
  (∀ c' pre', at_ c' pre' rest post → forward fuel c' = Some l) →
  forward (length ns + fuel) c = Some ((from_str <$> ns) ++ l).
Proof.
  induction ns as [|n ns IH]; intros fuel c pre rest post l Hat Hok Hrest; cbn [length Nat.add].
  { by apply (Hrest c pre). }
  inversion Hok as [|?? Hn Hok']; subst. rewrite dirs_cons, <- app_assoc in Hat. cbn in Hat.
  destruct (next_name _ _ _ _ _ Hat Hn) as (c' & Hnext & Hat'). cbn. rewrite Hnext. cbn.
  erewrite IH by done. done.
Qed.

Lemma forward_root fuel c pre r post l : at_ c pre (PATH_SEP :: r) post →
  (∀ c' pre', at_ c' pre' r post → forward fuel c' = Some l) → forward (S fuel) c = Some (Root :: l).
Proof.
  intros Hat Hrest. destruct (next_root _ _ _ _ Hat) as (c' & Hnext & Hat'). cbn. rewrite Hnext. cbn.
  by rewrite (Hrest _ _ Hat').
Qed.

(** *** From the back *)

Lemma next_back_nil c pre post : at_ c pre [] post → next_back c = Some (None, c).
Proof. intros [_ Hf Hb]. unfold next_back. rewrite Hf, Hb. cbn. by rewrite Nat.add_0_r, Nat.leb_refl. Qed.

Lemma next_back_root c pre post : at_ c pre [PATH_SEP] post →
  ∃ c', next_back c = Some (Some Root, c') ∧ at_ c' pre [] (PATH_SEP :: post).
Proof.
  intros [Hs Hf Hb]. unfold next_back. destruct (Nat.leb_spec (back c) (front c)); [cbn in *; lia|].
  erewrite slice_mid by done. cbn [mbind option_bind]. rewrite decide_True by done. eexists. split; [done|].
  split; cbn; [done|done|lia].
Qed.

(** With the front at the start and no separator at the end, the loop does nothing; *)
Lemma strip_seps_name c a n post fuel : at_ c [] (a ++ n) post → name_ok n →
  strip_seps fuel c (a ++ n) = Some (Some (a ++ n), c).
Proof.
  intros [Hs Hf Hb] [Hne Hn]. assert (rfind_sep (a ++ n) ≠ Some (length (a ++ n) - 1)%nat) as Hr.
  { destruct (decide (PATH_SEP ∈ a)) as [Ha|Ha].
    - apply list_elem_of_split in Ha as (a1 & a2 & ->).
      assert (∃ b1 b2, a1 ++ PATH_SEP :: a2 = b1 ++ PATH_SEP :: b2 ∧ PATH_SEP ∉ b2) as (b1 & b2 & -> & Hb2).
      { clear. revert a1. induction a2 as [|x a2 IH] using rev_ind; intros a1; [by exists a1, []; split; [|set_solver]|].
        destruct (decide (x = PATH_SEP)) as [->|Hx].
        - exists (a1 ++ PATH_SEP :: a2), []. split; [by rewrite <- app_assoc|set_solver].
        - destruct (IH a1) as (b1 & b2 & E & Hb). exists b1, (b2 ++ [x]). split; [|set_solver].
          by rewrite app_comm_cons, app_assoc, E, <- app_assoc. }
      rewrite <- app_assoc. cbn. rewrite rfind_sep_app by set_solver. rewrite !length_app. cbn. rewrite length_app.
      destruct n; [done|]. cbn. intros [= E]. lia.
    - rewrite rfind_sep_none by set_solver. done. }
  destruct (rfind_sep (a ++ n)) as [i|] eqn:E; destruct fuel as [|fuel]; cbn; rewrite E; try done.
  destruct (Nat.eqb_spec i (back c - 1)) as [->|]; [|done]. cbn in Hb. by rewrite Hb in Hr.
Qed.

(** otherwise it drops the separator. *)
Lemma strip_seps_sep c a n post fuel : at_ c [] (a ++ n ++ [PATH_SEP]) post → name_ok n →
  ∃ c', strip_seps (S fuel) c (a ++ n ++ [PATH_SEP]) = Some (Some (a ++ n), c')
        ∧ at_ c' [] (a ++ n) (PATH_SEP :: post).
Proof.
  intros [Hs Hf Hb] Hok. set (c' := set_back c (back c - 1)). rewrite !app_nil_l in *.
  assert (at_ c' [] (a ++ n) (PATH_SEP :: post)) as Hat'.
  { split; cbn; rewrite ?Hs, ?Hb, ?length_app; cbn; rewrite <- ?app_assoc; try done; rewrite ?length_app; cbn; lia. }
  exists c'. split; [|done]. cbn [strip_seps]. rewrite app_assoc.
  rewrite (rfind_sep_app (a ++ n) []) by set_solver.
  destruct (Nat.eqb_spec (length (a ++ n)) (back c - 1)) as [_|Hx].
  2:{ cbn in Hb. rewrite !length_app in *. cbn in *. lia. }
  fold c'. destruct Hat' as [Hs' Hf' Hb']. rewrite Hf', Hb'. destruct Hok as [Hne Hn] eqn:Ho. clear Ho.
  destruct (Nat.leb_spec (length (@nil ascii) + length (a ++ n))%nat (length (@nil ascii))) as [Hle|_].
  { rewrite length_app in Hle. destruct n; [done|cbn in *; lia]. }
  rewrite (slice_mid _ [] (a ++ n) [PATH_SEP]) by done. cbn [mbind option_bind].
  by eapply strip_seps_name.
Qed.

(** Where the text left is [a] followed by a name, that name is the component, and [a] is left. *)
Lemma last_component c a n post : at_ c [] (a ++ n) post → name_ok n →
  (a = [] ∨ ∃ b, a = b ++ [PATH_SEP]) →
  ∃ c', match rfind_sep (a ++ n) with
        | Some last_sep =>
            name ← slice (a ++ n) (last_sep + 1) (length (a ++ n));
            Some (Some (from_str name), set_back c (back c - (length (a ++ n) - last_sep - 1)))
        | None => Some (Some (from_str (a ++ n)), set_back c (front c))
        end = Some (Some (from_str n), c') ∧ at_ c' [] a (n ++ post).
Proof.
  intros [Hs Hf Hb] [Hne Hn] [->|(b & ->)]; cbn in Hs, Hf, Hb.
  - rewrite !app_nil_l. rewrite rfind_sep_none by done. eexists. split; [done|]. by split.
  - rewrite <- app_assoc; cbn [app]. rewrite rfind_sep_app by done.
    rewrite (slice_mid _ (b ++ [PATH_SEP]) n []).
    2:{ by rewrite app_nil_r, <- app_assoc. }
    2:{ rewrite length_app. cbn. lia. }
    2:{ rewrite !length_app. cbn. lia. }
    eexists. split; [done|]. split; cbn; [by rewrite Hs, <- !app_assoc|done|].
    rewrite Hb, !length_app. cbn. rewrite ?length_app. cbn. lia.
Qed.

Lemma next_back_name c a n post (t : bool) : at_ c [] (a ++ n ++ (if t then [PATH_SEP] else [])) post → name_ok n →
  (a = [] ∨ ∃ b, a = b ++ [PATH_SEP]) →
  ∃ c' post', next_back c = Some (Some (from_str n), c') ∧ at_ c' [] a post'.
Proof.
  intros Hat Hok Ha. assert (n ≠ []) as Hne by apply Hok. unfold next_back.
  pose proof (at_as_path _ _ _ _ Hat) as Hcur. unfold as_path in Hcur.
  destruct (Nat.leb_spec (back c) (front c)) as [Hle|_].
  { destruct Hat as [_ Hf Hb]. rewrite Hf, Hb, !length_app in Hle. destruct n; [done|cbn in *; lia]. }
  rewrite Hcur. cbn [mbind option_bind].
  rewrite decide_False.
  2:{ intros E. destruct Hok as [_ Hn]. apply Hn. destruct n as [|x [|y n]]; [done| |].
      - destruct a as [|z [|]]; cbn in E; simplify_eq; set_solver.
      - apply (f_equal length) in E. rewrite !length_app in E. cbn in E. lia. }
  assert (∃ c1 post1, strip_seps (back c) c (a ++ n ++ (if t then [PATH_SEP] else [])) = Some (Some (a ++ n), c1)
           ∧ at_ c1 [] (a ++ n) post1) as (c1 & post1 & Hstrip & Hat1).
  { destruct t.
    - destruct (back c) as [|k] eqn:Hb'.
      { destruct Hat as [_ _ Hb]. rewrite Hb', !length_app in Hb. destruct n; [done|cbn in *; lia]. }
      destruct (strip_seps_sep _ _ _ _ k Hat Hok) as (c1 & ? & ?). eauto.
    - rewrite app_nil_r in Hat |- *. exists c, post. split; [by eapply strip_seps_name|done]. }
  rewrite Hstrip. cbn [mbind option_bind].
  destruct (last_component _ _ _ _ Hat1 Hok Ha) as (c' & E & Hat'). exists c', (n ++ post1).
  split; [|done]. rewrite <- E. by destruct (rfind_sep (a ++ n)).
Qed.

Lemma dir_path_sep ns : ∃ b, dir_path ns = b ++ [PATH_SEP].
Proof.
  unfold dir_path. induction ns as [|n ns _] using rev_ind; [by exists []|].
  exists (PATH_SEP :: dirs ns ++ n). rewrite dirs_app, dirs_cons. cbn. by rewrite <- app_assoc.
Qed.

Lemma backward_step fuel c x c' l : next_back c = Some (Some x, c') → backward fuel c' = Some l →
  backward (S fuel) c = Some (x :: l).
Proof. intros E El. cbn. rewrite E. cbn. by rewrite El. Qed.

Lemma backward_dirs ns : ∀ c post, at_ c [] (dir_path ns) post → Forall name_ok ns →
  backward (S (length ns)) c = Some (reverse (from_str <$> ns) ++ [Root]).
Proof.
  induction ns as [|n ns IH] using rev_ind; intros c post Hat Hok.
  - destruct (next_back_root _ _ _ Hat) as (c' & Hb & Hat'). cbn. rewrite Hb. cbn.
    by rewrite (next_back_nil _ _ _ Hat').
  - apply Forall_app in Hok as [Hok Hn]. inversion Hn as [|?? Hn' _]; subst.
    assert (dir_path (ns ++ [n]) = dir_path ns ++ n ++ [PATH_SEP]) as E.
    { unfold dir_path. by rewrite dirs_app, dirs_cons. }
    rewrite E in Hat. destruct (next_back_name _ _ _ _ true Hat Hn' (or_intror (dir_path_sep ns))) as (c' & post' & Hb & Hat').
    rewrite length_app, Nat.add_comm. cbn [length Nat.add].
    rewrite (backward_step _ _ _ _ _ Hb (IH _ _ Hat' Hok)). by rewrite fmap_app, reverse_app.
Qed.

(** Path parsing is the same from both ends and forgets nothing: for every list of names (none empty,
    none with a separator), the components of [/a/b/n] and of [/a/b/] are the root and the names in order
    when taken from the front, and exactly the reverse of that when taken from the back, with no panic
    on the way. *)
Theorem components_both_ways (ns : list str) (n : str) :
  Forall name_ok ns → name_ok n →
  forward (length ns + 2) (new_components (file_path ns n)) = Some (Root :: (from_str <$> (ns ++ [n])))
  ∧ backward (length ns + 2) (new_components (file_path ns n)) = Some (reverse (Root :: (from_str <$> (ns ++ [n]))))
  ∧ forward (length ns + 1) (new_components (dir_path ns)) = Some (Root :: (from_str <$> ns))
  ∧ backward (length ns + 1) (new_components (dir_path ns)) = Some (reverse (Root :: (from_str <$> ns))).
Proof.
  intros Hns Hn. pose proof (at_new (file_path ns n)) as Hf. pose proof (at_new (dir_path ns)) as Hd.
  split_and!.
  - replace (length ns + 2)%nat with (S (length ns + 1)) by lia. eapply forward_root; [exact Hf|].
    intros c' pre' Hat. rewrite fmap_app. eapply forward_dirs; [done|done|]. intros c1 pre1 Hat1.
    destruct (next_last _ _ _ _ Hat1 Hn) as (c2 & E & Hat2). cbn. rewrite E. cbn. by rewrite (next_nil _ _ _ Hat2).
  - replace (length ns + 2)%nat with (S (S (length ns))) by lia.
    assert (at_ (new_components (file_path ns n)) [] (dir_path ns ++ n ++ []) []) as Hf'
      by (by rewrite app_nil_r).
    destruct (next_back_name _ _ _ _ false Hf' Hn (or_intror (dir_path_sep ns))) as (c' & post' & E & Hat).
    erewrite backward_step; [|exact E|by eapply backward_dirs].
    by rewrite reverse_cons, fmap_app, reverse_app.
  - rewrite Nat.add_1_r. eapply forward_root; [exact Hd|]. intros c' pre' Hat.
    rewrite <- (app_nil_r (from_str <$> ns)), <- (Nat.add_0_r (length ns)).
    eapply forward_dirs; [by rewrite app_nil_r|done|]. intros c1 pre1 Hat1. by eapply forward_nil.
  - rewrite Nat.add_1_r, reverse_cons. by eapply backward_dirs.
Qed.

(** The property holds of [/usr/./bin]. *)
Lemma components_both_ways_witness :
  forward 4 (new_components (file_path [text "usr"; text "."] (text "bin")))
    = Some [Root; Name (text "usr"); CurrentDir; Name (text "bin")].
Proof.
  destruct (components_both_ways [text "usr"; text "."] (text "bin")) as [E _].
  - repeat constructor; try done; by vm_compute; set_solver.
  - split; [done|by vm_compute; set_solver].
  - exact E.
Defined.

(** *** The registry as a tree of names *)

Section registry.
Context {H : Type}.
Implicit Types (node : Node H) (h : H).

(** A name that is not one of the two special ones. *)
Definition plain (n : str) : Prop := name_ok n ∧ from_str n = Name n.

(** [a/b/n], the text of a relative path. *)
Fixpoint body (q : list str) : str :=
  match q with
  | [] => []
  | [n] => n
  | n :: q' => n ++ PATH_SEP :: body q'
  end.

Lemma body_snoc ns n : body (ns ++ [n]) = dirs ns ++ n.
Proof.
  induction ns as [|m ns IH]; [done|]. rewrite dirs_cons, <- app_assoc. cbn [app]. rewrite <- IH.
  by destruct ns.
Qed.

Lemma next_body c pre n q post : at_ c pre (body (n :: q)) post → name_ok n →
  ∃ c' pre', next c = Some (Some (from_str n), c') ∧ at_ c' pre' (body q) post.
Proof.
  intros Hat Hn. destruct q as [|m q].
  - destruct (next_last _ _ _ _ Hat Hn) as (c' & ? & ?). eauto.
  - destruct (next_name _ _ n (body (m :: q)) _ Hat Hn) as (c' & ? & ?). eauto.
Qed.

(** Lookup and registration by names. *)
Fixpoint walk node (q : list str) : outcome (list str * H) :=
  match q, node with
  | n :: q', Directory children =>
      match child n children with
      | Some (Handler h) => Fine (q', h)
      | Some x => walk x q'
      | None => Failed (NotFound (body q'))
      end
  | _, _ => Panicked
  end.

Fixpoint add_names node (ns : list str) (name : str) h : outcome unit * Node H :=
  match ns, node with
  | n :: ns', Directory children =>
      let '(r, entry) := add_names (default (Directory []) (child n children)) ns' name h in
      (r, Directory (set_child n entry children))
  | [], Directory children =>
      match child name children with
      | Some _ => (Failed (HandlerAlreadyRegistered name), node)
      | None => (Fine tt, Directory (set_child name (Handler h) children))
      end
  | _, _ => (Failed (HandlerAlreadyRegistered name), node)
  end.

Lemma find_walk q : ∀ fuel node c pre post, at_ c pre (body q) post → Forall plain q → (length q < fuel)%nat →
  find fuel node c = match walk node q with
                     | Fine (q', h) => Fine (body q', h)
                     | Failed e => Failed e
                     | Panicked => Panicked
                     end.
Proof.
  induction q as [|n q IH]; intros [|fuel] node c pre post Hat Hq Hfuel; try (cbn in Hfuel; lia).
  { cbn. by rewrite (next_nil _ _ _ Hat). }
  inversion Hq as [|?? [Hn Hname] Hq']; subst.
  destruct (next_body _ _ _ _ _ Hat Hn) as (c' & pre' & Hnext & Hat').
  cbn [find walk]. rewrite Hnext, Hname. destruct node as [children|h]; [|done].
  destruct (child n children) as [[ch|h]|].
  - eapply IH; [done|done|cbn in Hfuel; lia].
  - by rewrite (at_as_path _ _ _ _ Hat').
  - by rewrite (at_as_path _ _ _ _ Hat').
Qed.

Lemma add_walk ns name h : ∀ fuel node c pre post, at_ c pre (dirs ns) post → Forall plain ns → (length ns < fuel)%nat →
  add fuel node c name h = add_names node ns name h.
Proof.
  induction ns as [|n ns IH]; intros [|fuel] node c pre post Hat Hns Hfuel; try (cbn in Hfuel; lia).
  { cbn. rewrite (next_nil _ _ _ Hat). by destruct node. }
  inversion Hns as [|?? [Hn Hname] Hns']; subst. rewrite dirs_cons in Hat.
  destruct (next_name _ _ _ _ _ Hat Hn) as (c' & Hnext & Hat').
  cbn [add add_names]. rewrite Hnext, Hname. destruct node as [children|h']; [|done].
  erewrite IH; [done|done|done|cbn in Hfuel; lia].
Qed.

Lemma child_set n x (l : list (str * Node H)) : child n (set_child n x l) = Some x.
Proof. induction l as [|[k y] l IH]; cbn; repeat case_decide; cbn; repeat case_decide; done. Qed.

Lemma child_set_ne n m x (l : list (str * Node H)) : n ≠ m → child m (set_child n x l) = child m l.
Proof. intros Hne. induction l as [|[k y] l IH]; cbn; repeat case_decide; cbn; repeat case_decide; naive_solver. Qed.

Lemma add_names_fine node ns name h node' : add_names node ns name h = (Fine tt, node') →
  ∃ children, node' = Directory children.
Proof.
  destruct ns as [|n ns], node as [ch|h']; cbn; try done.
  - destruct (child name ch); intros [=]; eauto.
  - destruct (add_names _ ns name h). intros [=]. eauto.
Qed.

Lemma walk_added ns name h r : ∀ node node', add_names node ns name h = (Fine tt, node') →
  walk node' (ns ++ name :: r) = Fine (r, h).
Proof.
  induction ns as [|n ns IH]; intros [ch|h'] node' Hadd; cbn in Hadd; try done.
  - destruct (child name ch); simplify_eq. cbn. by rewrite child_set.
  - destruct (add_names _ ns name h) as [o entry] eqn:E; simplify_eq. cbn. rewrite child_set.
    destruct (add_names_fine _ _ _ _ _ E) as [ch' ->]. by eapply IH.
Qed.

Lemma walk_kept ns name h q r : ∀ node o node', add_names node ns name h = (o, node') →
  walk node q = Fine r → walk node' q = Fine r.
Proof.
  revert q. induction ns as [|n ns IH]; intros [|k q] [ch|h'] o node' Hadd Hwalk; cbn in Hadd, Hwalk; simplify_eq; try done.
  - destruct (child name ch) eqn:E; simplify_eq; cbn; [done|].
    destruct (decide (name = k)) as [->|Hne]; [by rewrite E in Hwalk|]. by rewrite child_set_ne.
  - destruct (add_names _ ns name h) as [o' entry] eqn:E; simplify_eq. cbn.
    destruct (decide (n = k)) as [->|Hne]; [|by rewrite child_set_ne]. rewrite child_set.
    destruct (child k ch) as [[ch'|h']|]; cbn in E; [| |done].
    + destruct entry as [ch''|h'']; [by eapply IH|]. destruct ns; cbn in E; repeat case_match; simplify_eq.
    + destruct ns; cbn in E; simplify_eq; done.
Qed.

Lemma add_names_result ns name h : ∀ node,
  (add_names node ns name h).1 = Fine tt ∨ (add_names node ns name h).1 = Failed (HandlerAlreadyRegistered name).
Proof.
  induction ns as [|n ns IH]; intros [ch|h']; cbn; try by auto.
  - destruct (child name ch); auto.
  - specialize (IH (default (Directory []) (child n ch))). by destruct (add_names _ ns name h).
Qed.

Lemma find_handler_walk node q : Forall plain q →
  find_handler node (PATH_SEP :: body q) = match walk node q with
                                           | Fine (q', h) => Fine (body q', h)
                                           | Failed e => Failed e
                                           | Panicked => Panicked
                                           end.
Proof.
  intros Hq. unfold find_handler. destruct (next_root _ _ _ _ (at_new (PATH_SEP :: body q))) as (c' & -> & Hat).
  eapply find_walk; [done|done|]. clear Hat c'. cbn [length].
  assert (length q ≤ length (body q))%nat; [|lia]. induction q as [|n q IH]; [done|].
  inversion Hq as [|?? [[Hne _] _] Hq']; subst. specialize (IH Hq').
  destruct q; cbn in *; rewrite ?length_app; cbn; destruct n; try done; cbn; lia.
Qed.

Lemma register_walk node ns n h : Forall plain ns → plain n →
  register node (file_path ns n) h = add_names node ns n h.
Proof.
  intros Hns [Hn Hname]. unfold register.
  assert (at_ (new_components (file_path ns n)) [] (dir_path ns ++ n ++ []) []) as Hf
    by (rewrite app_nil_r; apply at_new).
  destruct (next_back_name _ _ _ _ false Hf Hn (or_intror (dir_path_sep ns))) as (c' & post' & -> & Hat).
  rewrite Hname. destruct (next_root _ _ _ _ Hat) as (c'' & -> & Hat'').
  eapply add_walk; [done|done|]. unfold file_path, dir_path. rewrite length_app. cbn [length].
  assert (length ns ≤ length (dirs ns))%nat; [|lia]. clear. induction ns as [|m ns IH]; [done|].
  rewrite dirs_cons, length_app. cbn. lia.
Qed.

(** Registering a handler under an absolute path makes exactly that subtree resolve to it. For plain
    names, [register] never panics; when it succeeds, looking up the path itself or any path below it gives
    the new handler together with the rest of the path; when it fails, it is because the name is taken; and
    either way every lookup that found a handler before still finds the same one. *)
Theorem register_then_find (root : Node H) (ns : list str) (n : str) (h : H) :
  Forall plain ns → plain n →
  let '(o, root') := register root (file_path ns n) h in
  (∀ q r, Forall plain q → find_handler root (PATH_SEP :: body q) = Fine r →
     find_handler root' (PATH_SEP :: body q) = Fine r)
  ∧ match o with
    | Fine _ => ∀ sub, Forall plain sub →
        find_handler root' (PATH_SEP :: body (ns ++ n :: sub)) = Fine (body sub, h)
    | Failed e => e = HandlerAlreadyRegistered n
    | Panicked => False
    end.
Proof.
  intros Hns Hn. rewrite register_walk by done. pose proof (add_names_result ns n h root) as Hres.
  destruct (add_names root ns n h) as [o root'] eqn:E. split.
  - intros q r Hq. rewrite !find_handler_walk by done. destruct (walk root q) as [[q' h']| |] eqn:Ew; try done.
    by rewrite (walk_kept _ _ _ _ _ _ _ _ E Ew).
  - destruct Hres as [Ho|Ho]; cbn in Ho; subst o; [|done]. intros sub Hsub. rewrite find_handler_walk.
    + by rewrite (walk_added _ _ _ _ _ _ E).
    + apply Forall_app. by split; [|constructor].
Qed.
End registry.

(** The property holds of registering a device below a directory of the empty registry. *)
Lemma register_then_find_witness :
  let root := (register new_registry (text "/dev/nvme") true).2 in
  find_handler root (text "/dev/nvme/0/1") = Fine (text "0/1", true).
Proof.
  cbn zeta. assert (∀ w, w ∈ [text "dev"; text "nvme"; text "0"; text "1"] → plain w) as Hp.
  { intros w Hw. repeat (apply elem_of_cons in Hw as [->|Hw]; [repeat split; [done|by vm_compute; set_solver]|]).
    by apply not_elem_of_nil in Hw. }
  pose proof (register_then_find new_registry [text "dev"] (text "nvme") true) as Ht.
  change (file_path [text "dev"] (text "nvme")) with (text "/dev/nvme") in Ht.
  destruct (register new_registry (text "/dev/nvme") true) as [o root'] eqn:E.
  destruct Ht as [_ Ht]; [by repeat constructor; apply Hp; set_solver|by apply Hp; set_solver|].
  vm_compute in E. injection E as <- <-.
  apply (Ht [text "0"; text "1"]). repeat constructor; apply Hp; set_solver.
Defined.

(** A lookup that ends at a directory, or meets a special component, panics instead of failing. *)
Lemma lookup_panics :
  let root := (register new_registry (text "/dev/nvme") true).2 in
  find_handler root (text "/dev") = Panicked ∧ find_handler root (text "/dev/../dev") = Panicked
  ∧ find_handler root (text "//dev") = Panicked.
Proof. repeat split; vm_compute; reflexivity. Qed.
