(* ===== verification/Locks.v ===== *)
(** Semaphores, mutexes and reader/writer locks for tasks ([tasks/locks.rs]). A thread's step is
    one atomic access; threads and tasks interleave at them, over sequentially consistent memory. *)
From stdpp Require Import base list functions.
From S2P Require Import Prelude.

(** Who sleeps: a task, to be put in the ready queue of the executor, or a thread that spins on
    an [AtomicBool] of its own. Both are named by their number. *)
Inductive SemaphoreWaker :=
  | Task (t : nat)
  | Thread (t : nat).

(** [crossbeam]'s unbounded concurrent queue: first in, first out. *)
Class SegQueue (Q : Type) := {
  q_default : Q;
  q_push : SemaphoreWaker → Q → Q;
  q_pop : Q → option (SemaphoreWaker * Q);
  q_contents : Q → list SemaphoreWaker;
  q_contents_default : q_contents q_default = [];
  q_contents_push w q : q_contents (q_push w q) = q_contents q ++ [w];
  q_pop_contents q : match q_pop q with
                     | None => q_contents q = []
                     | Some (w, q') => q_contents q = w :: q_contents q'
                     end;
}.

#[export, refine] Instance list_queue : SegQueue (list SemaphoreWaker) := {
  q_default := [];
  q_push w q := q ++ [w];
  q_pop q := match q with [] => None | w :: q' => Some (w, q') end;
  q_contents q := q;
}.
Proof. all: try done. by intros [|w q]. Defined.

(** *** Semaphores *)

Section locks.
Context {Q : Type} `{SegQueue Q}.

Record SemaphoreInner := {
  count : Z;
  waker_queue : Q;
}.

Definition new_semaphore (n : Z) : SemaphoreInner := {| count := n; waker_queue := q_default |}.

(** The [AtomicBool] a blocked thread spins on, and whether a task is in the ready queue. *)
Record Wakes := {
  signalled : nat → bool;
  ready : nat → bool;
}.

Definition wake (w : SemaphoreWaker) (k : Wakes) : Wakes :=
  match w with
  | Task t => {| signalled := signalled k; ready := <[t := true]> (ready k) |}
  | Thread t => {| signalled := <[t := false]> (signalled k); ready := ready k |}
  end.

(** Where a thread is in an operation on a semaphore. *)
Inductive sem_pc :=
  (* [WaitFuture::poll] *)
  | PollLoad
  | PollLoop (c : Z)
  | PollPending               (* returned [Pending] *)
  (* [wait_blocking] *)
  | BlockLoad
  | BlockLoop (c : Z)
  | BlockPush
  | BlockSpin
  (* [try_wait] *)
  | TryLoad
  | TryCas (c : Z)
  (* [signal] *)
  | SignalAdd
  | SignalPop
  | SignalWake (w : SemaphoreWaker).

Definition set_count (m : SemaphoreInner) (c : Z) : SemaphoreInner :=
  {| count := c; waker_queue := waker_queue m |}.
Definition set_queue (m : SemaphoreInner) (q : Q) : SemaphoreInner :=
  {| count := count m; waker_queue := q |}.

(** One step of thread [t]: a new place, or the result of the operation. [None]: it has to wait. *)
Definition sem_step (t : nat) (k : Wakes) (m : SemaphoreInner) (p : sem_pc)
    : option (Wakes * SemaphoreInner * (sem_pc + bool)) :=
  match p with
  | PollLoad => Some (k, m, inl (PollLoop (count m)))
  | PollLoop c =>
      if c =? 0 then Some (k, set_queue m (q_push (Task t) (waker_queue m)), inl PollPending)
      else if count m =? c then Some (k, set_count m (c - 1), inr true)
      else Some (k, m, inl (PollLoop (count m)))
  | PollPending =>
      if ready k t then
        Some ({| signalled := signalled k; ready := <[t := false]> (ready k) |}, m, inl PollLoad)
      else None
  | BlockLoad => Some (k, m, inl (BlockLoop (count m)))
  | BlockLoop c =>
      if c =? 0 then
        Some ({| signalled := <[t := true]> (signalled k); ready := ready k |}, m, inl BlockPush)
      else if count m =? c then Some (k, set_count m (c - 1), inr true)
      else Some (k, m, inl (BlockLoop (count m)))
  | BlockPush => Some (k, set_queue m (q_push (Thread t) (waker_queue m)), inl BlockSpin)
  | BlockSpin => if signalled k t then None else Some (k, m, inl BlockLoad)
  | TryLoad => if count m =? 0 then Some (k, m, inr false) else Some (k, m, inl (TryCas (count m)))
  | TryCas c =>
      if count m =? c then Some (k, set_count m (c - 1), inr true) else Some (k, m, inr false)
  | SignalAdd => Some (k, set_count m (wrapping_add (count m) 1), inl SignalPop)
  | SignalPop =>
      match q_pop (waker_queue m) with
      | Some (w, q) => Some (k, set_queue m q, inl (SignalWake w))
      | None => Some (k, m, inr true)
      end
  | SignalWake w => Some (wake w k, m, inr true)
  end.

(** *** Reader/writer locks *)

(** The data protected by the lock is touched only under a guard, and left out. *)
Record RwLock := {
  reader_sem : SemaphoreInner;   (* [reader_count], a [Mutex<usize>]: its semaphore *)
  reader_count : Z;              (* and its data *)
  write_mutex : SemaphoreInner;
}.

Definition new_rwlock : RwLock :=
  {| reader_sem := new_semaphore 1; reader_count := 0; write_mutex := new_semaphore 1 |}.

Inductive how := Async | Blocking | Try.
Inductive which := Readers | Writer.

(** What follows when a semaphore operation returns. *)
Inductive after :=
  | ReadLocked (h : how)        (* in [read], holding the guard of [reader_count] *)
  | ReadWaited (h : how)        (* in [read], after [write_mutex.wait()] *)
  | ReadUnlocked (ok : bool)    (* [read] has dropped the guard of [reader_count] *)
  | Written                     (* in [write] *)
  | DropLocked                  (* in the drop of a read guard *)
  | DropSignalled
  | DropUnlocked
  | WriteDropped.               (* in the drop of a write guard *)

Inductive rw_pc :=
  | Idle
  | InSem (s : which) (p : sem_pc) (k : after)
  | ReadIncr (h : how)
  | ReadTest (h : how)
  | ReadHeld                    (* owns a [RwLockReadGuard] *)
  | WriteHeld                   (* owns a [RwLockWriteGuard] *)
  | DropDecr
  | DropTest
  | Crashed.

(** [lock] of a [Mutex] and [wait] of a semaphore, and their blocking and trying variants. *)
Definition wait (h : how) : sem_pc :=
  match h with Async => PollLoad | Blocking => BlockLoad | Try => TryLoad end.

(** Starting [read], [read_blocking] and [try_read]; [write], [write_blocking] and [try_write]. *)
Definition read (h : how) : rw_pc := InSem Readers (wait h) (ReadLocked h).
Definition write (h : how) : rw_pc := InSem Writer (wait h) Written.
(** Dropping a guard. *)
Definition drop_read : rw_pc := InSem Readers (wait Blocking) DropLocked.
Definition drop_write : rw_pc := InSem Writer SignalAdd WriteDropped.

Definition resume (k : after) (b : bool) : rw_pc :=
  match k with
  | ReadLocked h => if b then ReadIncr h else Idle
  | ReadWaited h => InSem Readers SignalAdd (ReadUnlocked b)
  | ReadUnlocked ok => if ok then ReadHeld else Idle
  | Written => if b then WriteHeld else Idle
  | DropLocked => DropDecr
  | DropSignalled => InSem Readers SignalAdd DropUnlocked
  | DropUnlocked => Idle
  | WriteDropped => Idle
  end.

Definition get_sem (s : which) (l : RwLock) : SemaphoreInner :=
  match s with Readers => reader_sem l | Writer => write_mutex l end.
Definition set_sem (s : which) (m : SemaphoreInner) (l : RwLock) : RwLock :=
  match s with
  | Readers => {| reader_sem := m; reader_count := reader_count l; write_mutex := write_mutex l |}
  | Writer => {| reader_sem := reader_sem l; reader_count := reader_count l; write_mutex := m |}
  end.
Definition set_readers (n : Z) (l : RwLock) : RwLock :=
  {| reader_sem := reader_sem l; reader_count := n; write_mutex := write_mutex l |}.

Definition rw_step (t : nat) (k : Wakes) (l : RwLock) (p : rw_pc) : option (Wakes * RwLock * rw_pc) :=
  match p with
  | InSem s q a =>
      '(k', m, r) ← sem_step t k (get_sem s l) q;
      Some (k', set_sem s m l, match r with inl q' => InSem s q' a | inr b => resume a b end)
  | ReadIncr h =>
      match uadd (reader_count l) 1 with
      | Some n => Some (k, set_readers n l, ReadTest h)
      | None => Some (k, l, Crashed)
      end
  | ReadTest h =>
      if reader_count l =? 1 then Some (k, l, InSem Writer (wait h) (ReadWaited h))
      else Some (k, l, InSem Readers SignalAdd (ReadUnlocked true))
  | DropDecr =>
      match usub (reader_count l) 1 with
      | Some n => Some (k, set_readers n l, DropTest)
      | None => Some (k, l, Crashed)
      end
  | DropTest =>
      if reader_count l =? 0 then Some (k, l, InSem Writer SignalAdd DropSignalled)
      else Some (k, l, InSem Readers SignalAdd DropUnlocked)
  | Idle | ReadHeld | WriteHeld | Crashed => None
  end.

(** *** Threads that share a lock *)

Record state := {
  lock : RwLock;
  wakes : Wakes;
  threads : list rw_pc;
}.

Definition init (n : nat) : state :=
  {| lock := new_rwlock; wakes := {| signalled := λ _, true; ready := λ _, false |};
     threads := replicate n Idle |}.

Inductive action :=
  | Read (t : nat) (h : how)
  | Write (t : nat) (h : how)
  | Drop (t : nat)
  | Step (t : nat).

Definition set_thread (t : nat) (p : rw_pc) (st : state) : state :=
  {| lock := lock st; wakes := wakes st; threads := <[t := p]> (threads st) |}.

Definition act (a : action) (st : state) : option state :=
  match a with
  | Read t h => match threads st !! t with Some Idle => Some (set_thread t (read h) st) | _ => None end
  | Write t h => match threads st !! t with Some Idle => Some (set_thread t (write h) st) | _ => None end
  | Drop t =>
      match threads st !! t with
      | Some ReadHeld => Some (set_thread t drop_read st)
      | Some WriteHeld => Some (set_thread t drop_write st)
      | _ => None
      end
  | Step t =>
      p ← threads st !! t;
      '(k, l, p') ← rw_step t (wakes st) (lock st) p;
      Some {| lock := l; wakes := k; threads := <[t := p']> (threads st) |}
  end.

Fixpoint run (st : state) (l : list action) : option state :=
  match l with
  | [] => Some st
  | a :: l' => st' ← act a st; run st' l'
  end.
End locks.
Arguments SemaphoreInner : clear implicits.
Arguments RwLock : clear implicits.
Arguments state : clear implicits.
