(* ===== verification/LocksSpec.v ===== *)
(** Readers and writers exclude each other under every interleaving; where the locks fall short. *)
From stdpp Require Import base list functions.
From S2P Require Import Prelude Locks.

(** *** Counting threads *)

Fixpoint total {A} (f : A → Z) (l : list A) : Z :=
  match l with [] => 0 | x :: l' => f x + total f l' end.

Lemma total_insert {A} (f : A → Z) (l : list A) i x y : l !! i = Some x →
  total f (<[i := y]> l) = total f l - f x + f y.
Proof.
  revert i. induction l as [|z l IH]; intros [|i] Hi; simplify_eq/=; [lia|]. rewrite (IH _ Hi). lia.
Qed.

Lemma total_nonneg {A} (f : A → Z) l : (∀ x, 0 ≤ f x) → 0 ≤ total f l.
Proof. intros Hf. induction l as [|z l IH]; cbn; [lia|]. specialize (Hf z). lia. Qed.

Lemma total_le {A} (f g : A → Z) l : (∀ x, f x ≤ g x) → total f l ≤ total g l.
Proof. intros Hf. induction l as [|z l IH]; cbn; [lia|]. specialize (Hf z). lia. Qed.

Lemma total_bound {A} (f : A → Z) l : (∀ x, f x ≤ 1) → total f l ≤ Z.of_nat (length l).
Proof. intros Hf. induction l as [|z l IH]; cbn; [lia|]. specialize (Hf z). lia. Qed.

Lemma total_in {A} (f : A → Z) l i x : (∀ x, 0 ≤ f x) → l !! i = Some x → f x ≤ total f l.
Proof.
  intros Hf. revert i. induction l as [|z l IH]; intros [|i] Hi; cbn in *; simplify_eq.
  - pose proof (total_nonneg f l Hf). lia.
  - specialize (IH _ Hi). specialize (Hf z). lia.
Qed.

Lemma total_in2 {A} (f : A → Z) l i j x y : (∀ x, 0 ≤ f x) → i ≠ j → l !! i = Some x → l !! j = Some y →
  f x + f y ≤ total f l.
Proof.
  intros Hf. revert i j. induction l as [|z l IH]; intros [|i] [|j] Hij Hi Hj; cbn in *; simplify_eq.
  - pose proof (total_in f l j y Hf Hj). lia.
  - pose proof (total_in f l i x Hf Hi). lia.
  - assert (i ≠ j) as Hne by congruence. specialize (IH i j Hne Hi Hj). specialize (Hf z). lia.
Qed.

Lemma total_room {A} (f : A → Z) l i x : (∀ x, f x ≤ 1) → l !! i = Some x →
  total f l + 1 - f x ≤ Z.of_nat (length l).
Proof.
  intros Hf. revert i. induction l as [|z l IH]; intros [|i] Hi; cbn in *; simplify_eq.
  - pose proof (total_bound f l Hf). lia.
  - specialize (IH _ Hi). specialize (Hf z). lia.
Qed.

(** If [x] has all of [g], then it has all of every [f] bounded by [g]. *)
Lemma total_only {A} (f g : A → Z) l i x : (∀ x, - g x ≤ f x ≤ g x) → l !! i = Some x → total g l = g x →
  total f l = f x.
Proof.
  intros Hfg Hi Hg.
  assert (∀ l', - total g l' ≤ total f l' ≤ total g l') as Hall.
  { intros l'. induction l' as [|z l' IH]; cbn; [lia|]. specialize (Hfg z). lia. }
  assert (- (total g l - g x) ≤ total f l - f x ≤ total g l - g x) as Hle; [|lia]. clear Hg. revert i Hi.
  induction l as [|z l IH]; intros [|i] Hi; cbn in *; simplify_eq.
  - specialize (Hall l). lia.
  - specialize (IH _ Hi). specialize (Hfg z). lia.
Qed.

Lemma total_replicate {A} (f : A → Z) n x : f x = 0 → total f (replicate n x) = 0.
Proof. intros Hx. induction n; cbn; lia. Qed.

(** *** Semaphores *)

Section locks.
Context {Q : Type} `{SegQueue Q}.

(** Waiting for the semaphore, and releasing it. *)
Definition acquiring (p : sem_pc) : bool :=
  match p with SignalAdd | SignalPop | SignalWake _ => false | _ => true end.
Definition trying (p : sem_pc) : bool := match p with TryLoad | TryCas _ => true | _ => false end.

(** Loaded counts are counts. *)
Definition sane (p : sem_pc) : Prop :=
  match p with PollLoop c | BlockLoop c => 0 ≤ c | TryCas c => 0 < c | _ => True end.

Lemma sem_step_acquire t k m p k' m' r : sem_step (Q:=Q) t k m p = Some (k', m', r) →
  acquiring p = true → sane p → 0 ≤ count m →
  match r with
  | inl p' => acquiring p' = true ∧ sane p' ∧ trying p' = trying p ∧ count m' = count m
  | inr true => count m' = count m - 1 ∧ 0 < count m
  | inr false => count m' = count m ∧ trying p = true
  end.
Proof.
  intros Hs Ha Hsane Hc. destruct p; cbn in *; try done; repeat case_match; simplify_eq; cbn; try done; try lia.
  all: split_and!; try done; lia.
Qed.

Lemma sem_step_release t k m p k' m' r : sem_step (Q:=Q) t k m p = Some (k', m', r) →
  acquiring p = false → 0 ≤ count m ≤ 1 →
  (∃ p', p = SignalAdd ∧ r = inl SignalPop ∧ p' = SignalPop ∧ count m' = count m + 1)
  ∨ (p ≠ SignalAdd ∧ count m' = count m ∧ (r = inr true ∨ ∃ w, r = inl (SignalWake w))).
Proof.
  intros Hs Ha Hc. destruct p; cbn in *; try done; repeat case_match; simplify_eq; cbn.
  - left. eexists. split_and!; try done. apply wrapping_add_small. lia.
  - right. split_and!; eauto.
  - right. split_and!; eauto.
  - right. split_and!; eauto.
Qed.

(** *** The invariant of a lock *)

(** The places a thread can be in: each continuation with its semaphore and operation, no failed
    [try_read], no crash. *)
Definition proper_pc (p : rw_pc) : Prop :=
  match p with
  | InSem Readers q (ReadLocked h) => acquiring q = true ∧ sane q ∧ h ≠ Try ∧ trying q = false
  | InSem Readers q DropLocked => acquiring q = true ∧ sane q ∧ trying q = false
  | InSem Readers q (ReadUnlocked ok) => acquiring q = false ∧ ok = true
  | InSem Readers q DropUnlocked => acquiring q = false
  | InSem Writer q (ReadWaited h) => acquiring q = true ∧ sane q ∧ h ≠ Try ∧ trying q = false
  | InSem Writer q Written => acquiring q = true ∧ sane q
  | InSem Writer q DropSignalled => acquiring q = false
  | InSem Writer q WriteDropped => acquiring q = false
  | InSem _ _ _ => False
  | ReadIncr h | ReadTest h => h ≠ Try
  | Crashed => False
  | _ => True
  end.

Definition one (b : bool) : Z := if b then 1 else 0.

Definition is_add (q : sem_pc) : bool := match q with SignalAdd => true | _ => false end.

(** The thread holds the guard of [reader_count]; *)
Definition holds (p : rw_pc) : Z :=
  one match p with
      | InSem Readers q (ReadUnlocked _) | InSem Readers q DropUnlocked => is_add q
      | InSem Writer _ (ReadWaited _) | InSem Writer _ DropSignalled => true
      | ReadIncr _ | ReadTest _ | DropDecr | DropTest => true
      | _ => false
      end.
(** it is counted in [reader_count]; *)
Definition counted (p : rw_pc) : Z :=
  one match p with
      | ReadTest _ | InSem Writer _ (ReadWaited _) | InSem Readers _ (ReadUnlocked _) | ReadHeld
      | InSem Readers _ DropLocked | DropDecr => true
      | _ => false
      end.
(** it is the first of the readers and has yet to get [write_mutex], or the last and has yet to
    release it; *)
Definition shift (rc : Z) (p : rw_pc) : Z :=
  match p with
  | InSem Writer _ (ReadWaited _) => -1
  | ReadTest _ => - one (rc =? 1)
  | InSem Writer q DropSignalled => one (is_add q)
  | DropTest => one (rc =? 0)
  | _ => 0
  end.
(** it is a writer. *)
Definition writing (p : rw_pc) : Z :=
  one match p with
      | WriteHeld => true
      | InSem Writer q WriteDropped => is_add q
      | _ => false
      end.

Definition rc_ok (rc : Z) (p : rw_pc) : Prop :=
  match p with
  | InSem Writer _ (ReadWaited _) => rc = 1
  | InSem Writer q DropSignalled => rc = 0
  | _ => True
  end.

Record rw_inv (st : state Q) : Prop := {
  inv_proper : Forall proper_pc (threads st);
  inv_holds : count (reader_sem (lock st)) + total holds (threads st) = 1;
  inv_holds_nn : 0 ≤ count (reader_sem (lock st));
  inv_counted : reader_count (lock st) = total counted (threads st);
  inv_rc : Forall (rc_ok (reader_count (lock st))) (threads st);
  (* the readers have [write_mutex] between them while there are any *)
  inv_write : count (write_mutex (lock st)) + total writing (threads st)
              + one (negb (reader_count (lock st) =? 0)) + total (shift (reader_count (lock st))) (threads st) = 1;
  inv_write_nn : 0 ≤ count (write_mutex (lock st));
}.

Lemma rw_inv_init n : rw_inv (init n).
Proof.
  split; cbn.
  - by apply Forall_replicate.
  - by rewrite total_replicate.
  - done.
  - by rewrite total_replicate.
  - by apply Forall_replicate.
  - by rewrite !total_replicate.
  - done.
Qed.

Lemma shift_holds rc p : - holds p ≤ shift rc p ≤ holds p.
Proof. destruct p as [|[] q []| | | | | | |]; unfold holds, shift, one; repeat case_match; simplify_eq; lia. Qed.
Lemma holds_nn p : 0 ≤ holds p ≤ 1.
Proof. unfold holds, one. case_match; lia. Qed.
Lemma counted_nn p : 0 ≤ counted p ≤ 1.
Proof. unfold counted, one. case_match; lia. Qed.
Lemma writing_nn p : 0 ≤ writing p ≤ 1.
Proof. unfold writing, one. case_match; lia. Qed.

(** A thread moves and leaves [reader_count] alone. *)
Lemma rw_inv_move st i p p' m m' k : rw_inv st → threads st !! i = Some p → proper_pc p' →
  let rc := reader_count (lock st) in
  count m + holds p' = count (reader_sem (lock st)) + holds p → 0 ≤ count m →
  counted p' = counted p → rc_ok rc p' →
  count m' + writing p' + shift rc p' = count (write_mutex (lock st)) + writing p + shift rc p → 0 ≤ count m' →
  rw_inv {| lock := {| reader_sem := m; reader_count := rc; write_mutex := m' |}; wakes := k;
            threads := <[i := p']> (threads st) |}.
Proof.
  intros [H1 H2 H3 H4 H5 H6 H7] Hi Hp. cbn zeta. intros Hm Hmn Hc Hrc Hw Hwn.
  split; cbn; rewrite ?(total_insert _ _ _ _ _ Hi); try done; try lia; by apply Forall_insert.
Qed.

(** The holder of the guard of [reader_count] changes it. *)
Lemma rw_inv_count st i p p' rc' : rw_inv st → threads st !! i = Some p → proper_pc p' →
  let rc := reader_count (lock st) in
  holds p = 1 → holds p' = 1 → rc_ok rc' p' → rc' = rc + counted p' - counted p →
  writing p' = 0 → writing p = 0 →
  one (negb (rc' =? 0)) + shift rc' p' = one (negb (rc =? 0)) + shift rc p →
  rw_inv {| lock := set_readers rc' (lock st); wakes := wakes st; threads := <[i := p']> (threads st) |}.
Proof.
  intros [H1 H2 H3 H4 H5 H6 H7] Hi Hp. cbn zeta. intros Hh Hh' Hrc Hrc' Hw' Hw Hs.
  assert (total holds (threads st) = 1) as Hone.
  { pose proof (total_in holds _ _ _ (λ x, proj1 (holds_nn x)) Hi). lia. }
  assert (∀ rc, total (shift rc) (threads st) = shift rc p) as Honly.
  { intros rc0. eapply total_only; [apply shift_holds|done|lia]. }
  split; cbn; rewrite ?(total_insert _ _ _ _ _ Hi); rewrite ?Honly in *; try done; try lia.
  - by apply Forall_insert.
  - apply Forall_lookup. intros j pj Hj. destruct (decide (i = j)) as [<-|Hne].
    { rewrite list_lookup_insert_eq in Hj by (by eapply lookup_lt_Some). by simplify_eq. }
    rewrite list_lookup_insert_ne in Hj by done.
    pose proof (total_in2 holds _ _ _ _ _ (λ x, proj1 (holds_nn x)) Hne Hi Hj) as Hle.
    destruct pj as [|[] q []| | | | | | |]; cbn in *; try done; lia.
Qed.

Lemma total_le_Forall {A} (f g : A → Z) l : Forall (λ x, f x ≤ g x) l → total f l ≤ total g l.
Proof. induction 1; cbn; lia. Qed.
Lemma total_mul {A} (f : A → Z) c l : total (λ x, c * f x) l = c * total f l.
Proof. induction l; cbn; lia. Qed.

Lemma shift_floor st : rw_inv st → let rc := reader_count (lock st) in
  0 ≤ one (negb (rc =? 0)) + total (shift rc) (threads st).
Proof.
  intros Hinv. cbn zeta. set (rc := reader_count (lock st)).
  pose proof (total_nonneg holds (threads st) (λ x, proj1 (holds_nn x))).
  pose proof (inv_holds _ Hinv). pose proof (inv_holds_nn _ Hinv).
  assert (total (λ p, - one (negb (rc =? 0)) * holds p) (threads st) ≤ total (shift rc) (threads st)) as Hle.
  { apply total_le_Forall, (Forall_impl _ _ _ (inv_rc _ Hinv)). intros p Hp. pose proof (shift_holds rc p). unfold one in *.
    fold rc in Hp. destruct (Z.eqb_spec rc 0) as [->|]; cbn; [|lia].
    destruct p as [|[] q []| | | | | | |]; cbn in *; unfold one; repeat case_match; lia. }
  rewrite total_mul in Hle. unfold one in *. destruct (rc =? 0); cbn in *; lia.
Qed.

Lemma write_count_bound st : rw_inv st → 0 ≤ count (write_mutex (lock st)) ≤ 1.
Proof.
  intros Hinv. pose proof (shift_floor _ Hinv) as Hf. cbn zeta in Hf. pose proof (inv_write _ Hinv).
  pose proof (inv_write_nn _ Hinv). pose proof (total_nonneg writing (threads st) (λ x, proj1 (writing_nn x))). lia.
Qed.

Lemma read_count_bound st : rw_inv st → 0 ≤ count (reader_sem (lock st)) ≤ 1.
Proof.
  intros [H1 H2 H3 _ _ _ _]. pose proof (total_nonneg holds (threads st) (λ x, proj1 (holds_nn x))). lia.
Qed.

Lemma reader_count_bound st : rw_inv st → 0 ≤ reader_count (lock st) ≤ Z.of_nat (length (threads st)).
Proof.
  intros [_ _ _ H4 _ _ _]. pose proof (total_nonneg counted (threads st) (λ x, proj1 (counted_nn x))).
  pose proof (total_bound counted (threads st) (λ x, proj2 (counted_nn x))). lia.
Qed.

#[local] Ltac finish_move :=
  unfold holds, counted, writing, shift, one in *; cbn in *; repeat case_match; simplify_eq/=;
  try done; try lia; intuition (congruence || lia).

Lemma step_in_sem st i s q a k m r : rw_inv st → threads st !! i = Some (InSem s q a) →
  sem_step i (wakes st) (get_sem s (lock st)) q = Some (k, m, r) →
  rw_inv {| lock := set_sem s m (lock st); wakes := k;
            threads := <[i := match r with inl q' => InSem s q' a | inr b => resume a b end]> (threads st) |}.
Proof.
  intros Hinv Hi Hs. pose proof (write_count_bound _ Hinv) as Hbw. pose proof (read_count_bound _ Hinv) as Hbr.
  assert (proper_pc (InSem s q a)) as Hp by exact (Forall_lookup_1 _ _ _ _ (inv_proper _ Hinv) Hi).
  pose proof (Forall_lookup_1 _ _ _ _ (inv_rc _ Hinv) Hi) as Hrc.
  assert (0 ≤ count (get_sem s (lock st)) ≤ 1) as Hb by (by destruct s).
  destruct (acquiring q) eqn:Ea.
  - assert (sane q) as Hsane by (destruct s, a; cbn in Hp; intuition congruence).
    pose proof (sem_step_acquire _ _ _ _ _ _ _ Hs Ea Hsane (proj1 Hb)) as Hr.
    destruct s, a; cbn in Hp; try (by destruct Hp); try congruence;
      (eapply rw_inv_move; [done|done|..]); destruct r as [q'|[]]; finish_move.
  - pose proof (sem_step_release _ _ _ _ _ _ _ Hs Ea Hb) as Hr.
    destruct Hr as [(q' & -> & -> & -> & Hr)|(Hne & Hr & [->|[w ->]])]; [|destruct q|destruct q];
      destruct s, a; cbn in Hp; try (by destruct Hp); try (destruct Hp; congruence); try done;
      (eapply rw_inv_move; [done|done|..]); finish_move.
Qed.

Lemma rw_inv_stay st i p p' k : rw_inv st → threads st !! i = Some p → proper_pc p' →
  let rc := reader_count (lock st) in
  holds p' = holds p → counted p' = counted p → rc_ok rc p' →
  writing p' + shift rc p' = writing p + shift rc p →
  rw_inv {| lock := lock st; wakes := k; threads := <[i := p']> (threads st) |}.
Proof.
  intros Hinv Hi Hp. cbn zeta. intros Hh Hc Hrc Hw. pose proof (inv_holds_nn _ Hinv). pose proof (inv_write_nn _ Hinv).
  destruct st as [[m rc m'] k0 ts]. by eapply (rw_inv_move _ i p p' m m' k Hinv Hi Hp); cbn in *; try lia.
Qed.

(** [try_read] is not used. *)
Definition no_try_read (a : action) : Prop := match a with Read _ Try => False | _ => True end.

Lemma step_inv st t p k l p' : rw_inv st → Z.of_nat (length (threads st)) < U64 → threads st !! t = Some p →
  rw_step t (wakes st) (lock st) p = Some (k, l, p') →
  rw_inv {| lock := l; wakes := k; threads := <[t := p']> (threads st) |}.
Proof.
  intros Hinv Hlen Hi Hs. pose proof (Forall_lookup_1 _ _ _ _ (inv_proper _ Hinv) Hi) as Hp.
  pose proof (reader_count_bound _ Hinv) as Hrc.
  pose proof (total_in counted _ _ _ (λ x, proj1 (counted_nn x)) Hi) as Hcnt. rewrite <- (inv_counted _ Hinv) in Hcnt.
  destruct p as [|s q a|h|h| | | | |]; try done; cbn in Hs.
  - destruct (sem_step _ _ _ q) as [[[k' m] r]|] eqn:E; [|done]. cbn in Hs. simplify_eq.
    by eapply step_in_sem.
  - assert (uadd (reader_count (lock st)) 1 = Some (reader_count (lock st) + 1)) as E.
    { apply uadd_Some. split; [done|]. pose proof (total_room counted _ _ _ (λ x, proj2 (counted_nn x)) Hi) as Hroom.
      rewrite <- (inv_counted _ Hinv) in Hroom. cbn in Hroom. lia. }
    rewrite E in Hs. simplify_eq. eapply rw_inv_count; [done|done|..]; try done; cbn; try lia.
    unfold one. repeat case_match; lia.
  - destruct (Z.eqb_spec (reader_count (lock st)) 1) as [Hone|Hone]; simplify_eq;
      eapply rw_inv_stay; try done; cbn; unfold one; destruct h; cbn; try done.
    all: rewrite ?Hone; cbn; try done. all: by rewrite (proj2 (Z.eqb_neq _ _) Hone).
  - assert (usub (reader_count (lock st)) 1 = Some (reader_count (lock st) - 1)) as E.
    { apply usub_Some. cbn in Hcnt. lia. }
    cbn in Hcnt.
    rewrite E in Hs. simplify_eq. eapply rw_inv_count; [done|done|..]; try done; cbn; try lia.
    unfold one. repeat case_match; lia.
  - destruct (Z.eqb_spec (reader_count (lock st)) 0) as [Hz|Hz]; simplify_eq;
      eapply rw_inv_stay; try done; cbn; unfold one.
    all: rewrite ?Hz; cbn; try done. all: by rewrite (proj2 (Z.eqb_neq _ _) Hz).
Qed.

Lemma act_inv a st st' : rw_inv st → no_try_read a → act a st = Some st' →
  Z.of_nat (length (threads st)) < U64 → rw_inv st' ∧ length (threads st') = length (threads st).
Proof.
  intros Hinv Ha Hact Hlen. destruct a as [t h|t h|t|t]; cbn in Hact.
  - destruct (threads st !! t) as [[]|] eqn:Hi; simplify_eq. cbn. rewrite length_insert. split; [|done].
    by eapply rw_inv_stay; [done|done|..]; destruct h.
  - destruct (threads st !! t) as [[]|] eqn:Hi; simplify_eq. cbn. rewrite length_insert. split; [|done].
    by eapply rw_inv_stay; [done|done|..]; destruct h.
  - destruct (threads st !! t) as [[]|] eqn:Hi; simplify_eq; cbn; rewrite length_insert; split; try done;
      by eapply rw_inv_stay.
  - destruct (threads st !! t) as [p|] eqn:Hi; [|done]. cbn in Hact.
    destruct (rw_step t (wakes st) (lock st) p) as [[[k l] p']|] eqn:E; [|done]. cbn in Hact. simplify_eq. cbn.
    rewrite length_insert. split; [|done]. by eapply step_inv.
Qed.

Lemma run_inv acts : ∀ st st', rw_inv st → Forall no_try_read acts → run st acts = Some st' →
  Z.of_nat (length (threads st)) < U64 → rw_inv st' ∧ length (threads st') = length (threads st).
Proof.
  induction acts as [|a acts IH]; intros st st' Hinv Hacts Hrun Hlen; cbn in Hrun; [by simplify_eq|].
  inversion Hacts as [|?? Ha Hacts']; subst.
  destruct (act a st) as [st1|] eqn:E; [|done]. cbn in Hrun.
  destruct (act_inv _ _ _ Hinv Ha E Hlen) as [Hinv1 Hlen1]. rewrite <- Hlen1. eapply IH; try done. by rewrite Hlen1.
Qed.

Lemma total_negative {A} (f : A → Z) l : total f l < 0 → ∃ i x, l !! i = Some x ∧ f x < 0.
Proof.
  induction l as [|z l IH]; cbn; [lia|]. intros Hlt. destruct (decide (f z < 0)) as [Hz|Hz].
  - by exists 0%nat, z.
  - destruct IH as (i & x & Hi & Hx); [lia|]. by exists (S i), x.
Qed.

Lemma inv_exclusive st i j : rw_inv st → threads st !! i = Some WriteHeld →
  (threads st !! j = Some WriteHeld → i = j) ∧ threads st !! j ≠ Some ReadHeld.
Proof.
  intros Hinv Hi. pose proof (shift_floor _ Hinv) as Hf. cbn zeta in Hf. pose proof (inv_write _ Hinv) as Hw.
  pose proof (inv_write_nn _ Hinv) as Hn.
  assert (∀ x, 0 ≤ writing x) as Hwn by (intros; apply writing_nn).
  assert (∀ x, 0 ≤ counted x) as Hcn by (intros; apply counted_nn).
  pose proof (total_in _ _ _ _ Hwn Hi) as Hwi. cbn in Hwi. split.
  - intros Hj. destruct (decide (i = j)) as [|Hne]; [done|].
    pose proof (total_in2 _ _ _ _ _ _ Hwn Hne Hi Hj) as Hij. cbn in Hij. lia.
  - intros Hj. pose proof (total_in _ _ _ _ Hcn Hj) as Hcj. cbn in Hcj. rewrite <- (inv_counted _ Hinv) in Hcj.
    set (rc := reader_count (lock st)) in *. rewrite (proj2 (Z.eqb_neq rc 0)) in * by lia. cbn in Hw, Hf.
    destruct (total_negative (shift rc) (threads st)) as (l & x & Hl & Hx); [lia|].
    pose proof (Forall_lookup_1 _ _ _ _ (inv_rc _ Hinv) Hl) as Hrc. fold rc in Hrc.
    assert (rc = 1 ∧ counted x = 1) as [Hone Hcx].
    { destruct x as [|[] q []| | | | | | |]; cbn in *; unfold one in *; repeat case_match; try lia; done. }
    assert (j ≠ l) as Hne by (intros <-; simplify_eq; cbn in Hx; lia).
    pose proof (total_in2 _ _ _ _ _ _ Hcn Hne Hj Hl) as Hjl. rewrite <- (inv_counted _ Hinv) in Hjl. fold rc in Hjl.
    cbn in Hjl. lia.
Qed.

(** *** A thread on its own *)

Fixpoint solo (n t : nat) (x : Wakes * RwLock Q * rw_pc) : option (Wakes * RwLock Q * rw_pc) :=
  match n with
  | O => Some x
  | S n' => let '(k, l, p) := x in y ← rw_step t k l p; solo n' t y
  end.

Lemma run_solo n t : ∀ st p k l p', threads st !! t = Some p → solo n t (wakes st, lock st, p) = Some (k, l, p') →
  run st (replicate n (Step t)) = Some {| lock := l; wakes := k; threads := <[t := p']> (threads st) |}.
Proof.
  induction n as [|n IH]; intros st p k l p' Hi Hs; cbn in Hs |- *.
  { simplify_eq. destruct st as [l0 k0 ts]. cbn in *. by rewrite list_insert_id. }
  rewrite Hi. cbn. destruct (rw_step t (wakes st) (lock st) p) as [[[k1 l1] p1]|]; [|done]. cbn in *.
  erewrite (IH _ p1); cbn; [by rewrite list_insert_insert_eq|by apply list_lookup_insert_eq; eapply lookup_lt_Some|done].
Qed.

Lemma solo_read t h k q q' : ∃ n k' l',
  solo n t (k, {| reader_sem := {| count := 1; waker_queue := q |}; reader_count := 0;
                  write_mutex := {| count := 1; waker_queue := q' |} |}, read h) = Some (k', l', ReadHeld).
Proof.
  destruct (q_pop q) as [[w q1]|] eqn:E.
  - exists 9%nat. destruct h; cbn; change (uadd 0 1) with (Some 1); cbn; rewrite E; cbn; eauto.
  - exists 8%nat. destruct h; cbn; change (uadd 0 1) with (Some 1); cbn; rewrite E; cbn; eauto.
Qed.

Lemma solo_write t h k q l : ∃ n k' l',
  solo n t (k, {| reader_sem := l; reader_count := 0; write_mutex := {| count := 1; waker_queue := q |} |}, write h)
  = Some (k', l', WriteHeld).
Proof. exists 2%nat. destruct h; cbn; eauto. Qed.

Lemma total_idle (f : rw_pc → Z) ts : f Idle = 0 → Forall (.= Idle) ts → total f ts = 0.
Proof. intros Hf. induction 1 as [|p ts -> _ IH]; cbn; lia. Qed.

Lemma inv_idle st : rw_inv st → Forall (.= Idle) (threads st) →
  ∃ q q', lock st = {| reader_sem := {| count := 1; waker_queue := q |}; reader_count := 0;
                       write_mutex := {| count := 1; waker_queue := q' |} |}.
Proof.
  intros [_ H2 _ H4 _ H6 _] Hidle. rewrite !(total_idle _ _ eq_refl Hidle) in *. rewrite H4 in H6. cbn in H6.
  destruct (lock st) as [[c q] rc [c' q']]; cbn in *. exists q, q'. repeat f_equal; lia.
Qed.

(** C14: a reader/writer lock keeps readers and writers apart under every interleaving of its atomic accesses.
    For any number of threads that call [read], [write], their blocking variants and [try_write], and drop
    their guards, in any order: no thread panics; while one owns a write guard no other owns any guard; and
    when all guards are gone, a thread that asks for one gets it. *)
Theorem rwlock_exclusion (n : nat) (acts : list action) (st : state Q) :
  Z.of_nat n < U64 → Forall no_try_read acts → run (init n) acts = Some st →
  (∀ i, threads st !! i ≠ Some Crashed)
  ∧ (∀ i j, threads st !! i = Some WriteHeld →
       (threads st !! j = Some WriteHeld → i = j) ∧ threads st !! j ≠ Some ReadHeld)
  ∧ (Forall (.= Idle) (threads st) → ∀ t h, (t < n)%nat →
       (∃ k st', run st (Read t h :: replicate k (Step t)) = Some st' ∧ threads st' !! t = Some ReadHeld)
       ∧ (∃ k st', run st (Write t h :: replicate k (Step t)) = Some st' ∧ threads st' !! t = Some WriteHeld)).
Proof.
  intros Hn Hacts Hrun. destruct (run_inv acts _ _ (rw_inv_init n) Hacts Hrun) as [Hinv Hlen].
  { cbn. by rewrite length_replicate. }
  cbn in Hlen. rewrite length_replicate in Hlen. split_and!.
  - intros i Hi. by pose proof (Forall_lookup_1 _ _ _ _ (inv_proper _ Hinv) Hi).
  - intros i j Hi. by apply inv_exclusive.
  - intros Hidle t h Ht. destruct (inv_idle _ Hinv Hidle) as (q & q' & Hlock).
    destruct (lookup_lt_is_Some_2 (threads st) t) as [p Hi]; [lia|].
    pose proof (Forall_lookup_1 _ _ _ _ Hidle Hi) as ->.
    assert (∀ p p', (<[t := p]> (<[t := p']> (threads st))) !! t = Some p) as Hlook.
    { intros. apply list_lookup_insert_eq. rewrite length_insert. lia. }
    assert (∀ p, (<[t := p]> (threads st)) !! t = Some p) as Hlook1.
    { intros. apply list_lookup_insert_eq. lia. }
    split.
    + destruct (solo_read t h (wakes st) q q') as (k & k' & l' & Hs). rewrite <- Hlock in Hs.
      exists k. eexists. cbn. rewrite Hi. cbn. split; [by eapply run_solo; [apply Hlook1|exact Hs]|]. apply Hlook.
    + destruct (solo_write t h (wakes st) q' {| count := 1; waker_queue := q |}) as (k & k' & l' & Hs).
      rewrite <- Hlock in Hs. exists k. eexists. cbn. rewrite Hi. cbn.
      split; [by eapply run_solo; [apply Hlook1|exact Hs]|]. apply Hlook.
Qed.
End locks.

(** The property holds of a run of two threads that ends with one holding the lock for writing, after the
    other has read and written. *)
Definition sample_run : list action :=
  Read 0 Async :: replicate 8 (Step 0) ++ Drop 0 :: replicate 8 (Step 0)
  ++ Write 0 Try :: replicate 2 (Step 0) ++ Write 1 Blocking :: replicate 3 (Step 1)
  ++ Drop 0 :: replicate 3 (Step 0) ++ replicate 3 (Step 1).
Lemma rwlock_exclusion_witness :
  ∃ st, run (Q := list SemaphoreWaker) (init 2) sample_run = Some st ∧ threads st !! 1%nat = Some WriteHeld
        ∧ threads st !! 0%nat ≠ Some ReadHeld.
Proof.
  assert (is_Some (run (Q := list SemaphoreWaker) (init 2) sample_run)) as [st Hst] by (vm_compute; eauto).
  exists st. split; [done|].
  assert (threads st !! 1%nat = Some WriteHeld) as H1 by (vm_compute in Hst; by injection Hst as <-).
  split; [done|]. destruct (rwlock_exclusion 2 sample_run st) as (_ & Hex & _).
  - done.
  - repeat constructor.
  - done.
  - by apply (Hex 1%nat 0%nat).
Defined.

(** A [try_read] that fails leaves the reader count one too high, and from then on a reader and a writer can
    own guards at the same time: a thread writes, another fails to [try_read] and then reads successfully. *)
Theorem try_read_breaks_exclusion : ∃ acts st,
  run (Q := list SemaphoreWaker) (init 2) acts = Some st
  ∧ threads st !! 0%nat = Some WriteHeld ∧ threads st !! 1%nat = Some ReadHeld.
Proof.
  exists (Write 0 Async :: replicate 2 (Step 0) ++ Read 1 Try :: replicate 7 (Step 1)
          ++ Read 1 Async :: replicate 6 (Step 1)).
  eexists. split; [vm_compute; reflexivity|]. done.
Qed.

(** A wake-up can be lost. A task finds the semaphore taken; before it has queued its waker, the holder
    signals, and finds no waker to wake. The task then sleeps although the count is 1, and no step of any
    thread can change that. *)
Theorem semaphore_lost_wakeup : ∃ acts st,
  run (Q := list SemaphoreWaker) (init 2) acts = Some st
  ∧ threads st = [Idle; InSem Writer PollPending Written] ∧ count (write_mutex (lock st)) = 1
  ∧ ∀ t, act (Step t) st = None.
Proof.
  exists ((Write 0 Async :: replicate 2 (Step 0)) ++ [Write 1 Async; Step 1; Drop 0; Step 0; Step 0; Step 1]).
  eexists. split; [vm_compute; reflexivity|]. split_and!; [done|done|].
  intros [|[|t]]; reflexivity.
Qed.
