(* ===== verification/BlockCache.v ===== *)
(** The block cache ([storage/block_cache.rs]) over a block store ([storage/mod.rs]): a direct
    mapped, write-back cache of a block device in a buffer of physical memory. *)
From Stdlib Require Import Strings.String.
From stdpp Require Import base list functions.
From S2P Require Import Prelude BitField Addresses.

(** *** Block stores *)

Inductive StorageError :=
  | BadVector (reason : string) (entry : option (Z * Z))
  | DeviceError (reason : string)
  | StorageMemory (source : MemoryError).

(** Bytes of physical memory, or of a device. *)
Abbreviation memory := (Z → Z) (only parsing).

(** [m] with [len] bytes at [to] replaced by those of [d] at [from]. *)
Definition copy_range (d : memory) (from : Z) (m : memory) (to len : Z) : memory :=
  λ a, if (to <=? a) && (a <? to + len) then d (from + (a - to)) else m a.

(** What [read_blocks] and [write_blocks] do to memory and to the device: region after region. *)
Fixpoint scatter (block_size : Z) (d : memory) (source_addr : Z) (destinations : list (Z * Z))
    (m : memory) : memory :=
  match destinations with
  | [] => m
  | (pa, n) :: r =>
      scatter block_size d (source_addr + n) r
        (copy_range d (source_addr * block_size) m pa (n * block_size))
  end.
Fixpoint gather (block_size : Z) (m : memory) (sources : list (Z * Z)) (destination_addr : Z)
    (d : memory) : memory :=
  match sources with
  | [] => d
  | (pa, n) :: r =>
      gather block_size m r (destination_addr + n)
        (copy_range m pa d (destination_addr * block_size) (n * block_size))
  end.

(** The blocks that a list of regions asks for. *)
Definition block_count (l : list (Z * Z)) : Z := foldr (λ r n, r.2 + n) 0 l.

(** The trait, with what a store promises. The result is the number of blocks transferred: when they are all the
    blocks asked for, the regions hold (or the device holds) their bytes. Nothing is promised of memory after a
    failed or a short read, nor of the destination on the device after a failed or a short write. *)
Class BlockStore (S : Type) := {
  supported_block_size : S → Z;
  read_blocks : S → memory → Z → list (Z * Z) → S * memory * (Z + StorageError);
  write_blocks : S → memory → list (Z * Z) → Z → S * (Z + StorageError);
  disk : S → memory;
  read_blocks_law s m src dests s' m' r : read_blocks s m src dests = (s', m', r) →
    supported_block_size s' = supported_block_size s ∧ (∀ a, disk s' a = disk s a)
    ∧ match r with
      | inl n => n = block_count dests → ∀ a, m' a = scatter (supported_block_size s) (disk s) src dests m a
      | inr _ => True
      end;
  write_blocks_law s m srcs dst s' r : write_blocks s m srcs dst = (s', r) →
    supported_block_size s' = supported_block_size s
    ∧ match r with
      | inl n => n = block_count srcs → ∀ a, disk s' a = gather (supported_block_size s) m srcs dst (disk s) a
      | inr _ => True
      end;
}.

(** A store without short transfers: one that succeeds has transferred every block. The cache needs such a
    store, since it does not look at the number. *)
Class FullTransfers (S : Type) `{!BlockStore S} := {
  full_read s m src dests s' m' n : read_blocks s m src dests = (s', m', inl n) → n = block_count dests;
  full_write s m srcs dst s' n : write_blocks s m srcs dst = (s', inl n) → n = block_count srcs;
}.

(** *** The cache *)

Section cache.
Context {BF : BitField} {S : Type} `{!BlockStore S}.

(** [ChunkMetadata(u64)] *)
Definition tag (md : Z) : Z := bit_range md 63 2.
Definition set_tag (md v : Z) : Z := set_bit_range md 63 2 v.
Definition occupied (md : Z) : bool := bit md 1.
Definition set_occupied (md : Z) (b : bool) : Z := set_bit md 1 b.
Definition dirty (md : Z) : bool := bit md 0.
Definition set_dirty (md : Z) (b : bool) : Z := set_bit md 0 b.

(** The fields of the cache, and the physical memory its buffer lies in. *)
Record BlockCache := {
  store : S;
  block_offset_bits : Z;
  chunk_id_bits : Z;
  block_size : Z;
  chunk_size : Z;
  blocks_per_chunk : Z;
  num_chunks : Z;
  metadata : list Z;
  buffer_len : Z;
  buffer_pa : Z;
  mem : memory;
}.

Definition set_store (self : BlockCache) (s : S) (m : memory) : BlockCache :=
  {| store := s; block_offset_bits := block_offset_bits self; chunk_id_bits := chunk_id_bits self;
     block_size := block_size self; chunk_size := chunk_size self;
     blocks_per_chunk := blocks_per_chunk self; num_chunks := num_chunks self;
     metadata := metadata self; buffer_len := buffer_len self; buffer_pa := buffer_pa self; mem := m |}.
Definition set_metadata (self : BlockCache) (l : list Z) : BlockCache :=
  {| store := store self; block_offset_bits := block_offset_bits self; chunk_id_bits := chunk_id_bits self;
     block_size := block_size self; chunk_size := chunk_size self;
     blocks_per_chunk := blocks_per_chunk self; num_chunks := num_chunks self;
     metadata := l; buffer_len := buffer_len self; buffer_pa := buffer_pa self; mem := mem self |}.

(** [usize::ilog2] and [u64::shl], which panic on zero and on shifts beyond the width. *)
Definition ilog2 (n : Z) : option Z := if 0 <? n then Some (Z.log2 n) else None.
Definition shl (x n : Z) : option Z := if n <? 64 then Some ((x * 2 ^ n) mod U64) else None.

(** [buffer] is the physical address [PhysicalBuffer::alloc] returns, if it returns one. *)
Definition new (s : S) (m : memory) (max_size_in_pages : Z) (buffer : option Z)
    : option (option BlockCache) :=
  let block_size := supported_block_size s in
  '(blocks_per_chunk, num_chunks, chunk_size) ←
    (if block_size <? PAGE_SIZE then
       if block_size =? 0 then None else Some (PAGE_SIZE / block_size, max_size_in_pages, PAGE_SIZE)
     else if block_size mod PAGE_SIZE =? 0 then Some (1, max_size_in_pages / block_size, block_size)
     else None);
  chunk_id_bits ← ilog2 num_chunks;
  block_offset_bits ← ilog2 blocks_per_chunk;
  Some
    (pa ← buffer;
     Some {| store := s; block_offset_bits := block_offset_bits; chunk_id_bits := chunk_id_bits;
             block_size := block_size; chunk_size := chunk_size; blocks_per_chunk := blocks_per_chunk;
             num_chunks := num_chunks; metadata := replicate (Z.to_nat num_chunks) 0;
             buffer_len := max_size_in_pages * PAGE_SIZE; buffer_pa := pa; mem := m |}).

Definition decompose_address (self : BlockCache) (address : Z) : option (Z * Z * Z) :=
  bits ← uadd (chunk_id_bits self) (block_offset_bits self);
  let tag := bit_range address 63 bits in
  chunk_id ←
    (if chunk_id_bits self =? 0 then Some 0
     else hi ← usub bits 1; Some (bit_range address hi (block_offset_bits self)));
  hi ← usub (block_offset_bits self) 1;
  let block_offset := bit_range address hi 0 in
  if (chunk_id <? num_chunks self) && (block_offset <? block_size self)
  then Some (tag, chunk_id, block_offset) else None.

Definition compose_address (self : BlockCache) (tag chunk_id : Z) : option Z :=
  bits ← uadd (chunk_id_bits self) (block_offset_bits self);
  hi ← shl tag bits;
  lo ← shl chunk_id (block_offset_bits self);
  Some (Z.lor hi lo).

(** [u64 as isize] *)
Definition as_isize (x : Z) : Z := if x <? 2 ^ 63 then x else x - U64.

Definition chunk_phy_addr (self : BlockCache) (chunk_id : Z) : option Z :=
  o ← umul chunk_id (chunk_size self);
  Some (PhysicalAddress.offset (buffer_pa self) (as_isize o)).

Abbreviation MC := (M BlockCache StorageError).

(** Calls of the store: it works on the cache's memory. *)
Definition store_write (srcs : list (Z * Z)) (dst : Z) : MC unit := λ self,
  match write_blocks (store self) (mem self) srcs dst with
  | (s, inl _) => Ok tt (set_store self s (mem self))
  | (s, inr e) => Err e (set_store self s (mem self))
  end.
Definition store_read (src : Z) (dests : list (Z * Z)) : MC unit := λ self,
  match read_blocks (store self) (mem self) src dests with
  | (s, m, inl _) => Ok tt (set_store self s m)
  | (s, m, inr e) => Err e (set_store self s m)
  end.

(** The two halves of replacing a chunk: write back what is in the slot, and read the new chunk. *)
Definition write_back (md chunk_id pa : Z) : MC unit :=
  self ← get;
  if dirty md then
    dst ← lift (compose_address self (tag md) chunk_id);
    store_write [(pa, blocks_per_chunk self)] dst
  else mret tt.

Definition fetch (tag' chunk_id pa : Z) (mark_dirty : bool) : MC unit :=
  self ← get;
  src ← lift (compose_address self tag' chunk_id);
  store_read src [(pa, blocks_per_chunk self)];;
  self ← get;
  md ← lift (metadata self !! Z.to_nat chunk_id);
  put (set_metadata self
         (<[Z.to_nat chunk_id := set_dirty (set_occupied (set_tag md tag') true) mark_dirty]>
            (metadata self))).

Definition load_chunk (tag' chunk_id : Z) (mark_dirty : bool) : MC unit :=
  self ← get;
  md ← lift (metadata self !! Z.to_nat chunk_id);
  if negb (occupied md) || negb (tag md =? tag') then
    pa ← lift (chunk_phy_addr self chunk_id);
    write_back md chunk_id pa;;
    fetch tag' chunk_id pa mark_dirty
  else mret tt.

(** The loads are independent of each other; they run in order here, up to the first that fails. *)
Fixpoint load_chunks_loop (starting_tag starting_chunk_id i : Z) (n : nat) (mark_dirty : bool) : MC unit :=
  match n with
  | O => mret tt
  | Datatypes.S n' =>
      self ← get;
      chunk_id ← lift (uadd starting_chunk_id i);
      (if num_chunks self <? chunk_id then
         tag' ← lift (uadd starting_tag (chunk_id / num_chunks self));
         load_chunk tag' (chunk_id mod num_chunks self) mark_dirty
       else load_chunk starting_tag chunk_id mark_dirty);;
      load_chunks_loop starting_tag starting_chunk_id (i + 1) n' mark_dirty
  end.
Definition load_chunks (starting_tag starting_chunk_id num_chunks_inclusive : Z) (mark_dirty : bool)
    : MC unit :=
  load_chunks_loop starting_tag starting_chunk_id 0 (Z.to_nat num_chunks_inclusive) mark_dirty.

(** [buffer.as_bytes()[offset..offset + n]], read and replaced. *)
Definition buffer_read (offset n : Z) : MC (list Z) :=
  self ← get;
  e ← lift (uadd offset n);
  if e <=? buffer_len self
  then mret ((λ i, mem self (buffer_pa self + offset + Z.of_nat i)) <$> seq 0 (Z.to_nat n))
  else panic.
Definition buffer_write (offset : Z) (src : list Z) : MC unit :=
  self ← get;
  e ← lift (uadd offset (Z.of_nat (length src)));
  if e <=? buffer_len self
  then put (set_store self (store self)
              (copy_range (λ i, default 0 (src !! Z.to_nat i)) 0 (mem self)
                 (buffer_pa self + offset) (Z.of_nat (length src))))
  else panic.

(** The common start of [copy_bytes] and [write_bytes]: load what [n] bytes need, and give their
    place in the buffer. *)
Definition locate (address byte_offset n : Z) (mark_dirty : bool) : MC Z :=
  self ← get;
  address ← lift (if block_size self <=? byte_offset then uadd address (byte_offset / block_size self)
                  else Some address);
  let byte_offset := if block_size self <=? byte_offset then byte_offset mod block_size self
                     else byte_offset in
  '(starting_tag, starting_chunk_id, initial_block_offset) ← lift (decompose_address self address);
  let num_chunks_inclusive := div_ceil n (chunk_size self) in
  if num_chunks self <? num_chunks_inclusive then panic   (* [todo!] *)
  else
    load_chunks starting_tag starting_chunk_id num_chunks_inclusive mark_dirty;;
    a ← lift (umul starting_chunk_id (chunk_size self));
    b ← lift (umul initial_block_offset (block_size self));
    ab ← lift (uadd a b);
    lift (uadd ab byte_offset).

(** [dest.len()] is [n]; the bytes copied are returned. *)
Definition copy_bytes (address byte_offset n : Z) : MC (list Z) :=
  offset ← locate address byte_offset n false;
  buffer_read offset n.

Definition write_bytes (address byte_offset : Z) (src : list Z) : MC unit :=
  offset ← locate address byte_offset (Z.of_nat (length src)) true;
  buffer_write offset src.
End cache.
Arguments BlockCache : clear implicits.
