(* ===== verification/BlockCacheSpec.v ===== *)
(** The block cache behaves as the device it caches, as long as no write hits a clean chunk. *)
From Stdlib Require Import Strings.String.
From stdpp Require Import base list functions.
From S2P Require Import Prelude BitField Addresses BlockCache.

Section cache.
Context {BF : BitField} {S : Type} `{!BlockStore S} `{!FullTransfers S}.
Implicit Types (c : BlockCache S) (a : Z).

(** *** Where a byte of the device is cached *)

Abbreviation chunks c := (2 ^ chunk_id_bits c) (only parsing).

Definition slot c a : Z := (a / PAGE_SIZE) mod chunks c.
Definition tag_of c a : Z := a / PAGE_SIZE / chunks c.
Definition place c a : Z := slot c a * PAGE_SIZE + a mod PAGE_SIZE.

Definition cached c a : bool :=
  match metadata c !! Z.to_nat (slot c a) with
  | Some md => occupied md && (tag md =? tag_of c a)
  | None => false
  end.

(** The contents a reader of the cache should see. *)
Definition view c : memory := λ a,
  if cached c a then mem c (buffer_pa c + place c a) else disk (store c) a.

(** A cache as [new] makes it for blocks of 64 to 1024 bytes. *)
Record wf c : Prop := {
  wf_store : supported_block_size (store c) = block_size c;
  wf_bob : 2 ≤ block_offset_bits c ≤ 6;
  wf_block : block_size c * 2 ^ block_offset_bits c = PAGE_SIZE;
  wf_bpc : blocks_per_chunk c = 2 ^ block_offset_bits c;
  wf_chunk : chunk_size c = PAGE_SIZE;
  wf_cib : 0 ≤ chunk_id_bits c ≤ 50;
  wf_num : chunks c ≤ num_chunks c;
  wf_len : Z.of_nat (length (metadata c)) = num_chunks c;
  wf_buffer : buffer_len c = num_chunks c * PAGE_SIZE;
  wf_pa : 0 ≤ buffer_pa c ∧ buffer_pa c + buffer_len c < 2 ^ 63;
}.

(** A chunk number below this has a block address. *)
Definition chunk_bound c : Z := U64 / 2 ^ block_offset_bits c.

(** Every clean chunk holds what the device has. *)
Definition chunk_ok c (id md : Z) : Prop :=
  (dirty md = true → occupied md = true)
  ∧ (occupied md = true → 0 ≤ tag md ∧ tag md * chunks c + id < chunk_bound c)
  ∧ (occupied md = true → dirty md = false → ∀ i, 0 ≤ i < PAGE_SIZE →
       mem c (buffer_pa c + id * PAGE_SIZE + i) = disk (store c) ((tag md * chunks c + id) * PAGE_SIZE + i)).
Definition coherent c : Prop := ∀ id md, 0 ≤ id < chunks c →
  metadata c !! Z.to_nat id = Some md → chunk_ok c id md.

(** The fields that never change. *)
Definition same c c' : Prop :=
  block_offset_bits c' = block_offset_bits c ∧ chunk_id_bits c' = chunk_id_bits c
  ∧ block_size c' = block_size c ∧ chunk_size c' = chunk_size c ∧ blocks_per_chunk c' = blocks_per_chunk c
  ∧ num_chunks c' = num_chunks c ∧ length (metadata c') = length (metadata c)
  ∧ buffer_len c' = buffer_len c ∧ buffer_pa c' = buffer_pa c
  ∧ supported_block_size (store c') = supported_block_size (store c).

#[export] Instance same_preorder : PreOrder same.
Proof. split; unfold same; [intros c; naive_solver|intros c1 c2 c3; intuition congruence]. Qed.

Lemma same_wf c c' : same c c' → wf c → wf c'.
Proof. unfold same. intros Hs [??????????]. split; intuition congruence. Qed.

Lemma chunks_pos c : wf c → 0 < chunks c.
Proof. intros Hwf. apply Z.pow_pos_nonneg; [lia|apply Hwf]. Qed.

(** *** Arithmetic of places *)

Lemma slot_range c a : wf c → 0 ≤ slot c a < chunks c.
Proof. intros Hwf. apply Z.mod_pos_bound, chunks_pos, Hwf. Qed.

Lemma place_split c a : wf c → a = (tag_of c a * chunks c + slot c a) * PAGE_SIZE + a mod PAGE_SIZE.
Proof.
  intros Hwf. unfold tag_of, slot. pose proof (chunks_pos c Hwf).
  pose proof (Z.div_mod (a / PAGE_SIZE) (chunks c) ltac:(lia)).
  pose proof (Z.div_mod a PAGE_SIZE ltac:(done)). lia.
Qed.

Lemma chunk_bytes c t id i : wf c → 0 ≤ id < chunks c → 0 ≤ i < PAGE_SIZE →
  let a := (t * chunks c + id) * PAGE_SIZE + i in
  tag_of c a = t ∧ slot c a = id ∧ a mod PAGE_SIZE = i.
Proof.
  intros Hwf Hid Hi a. unfold tag_of, slot.
  assert (a / PAGE_SIZE = t * chunks c + id) as ->.
  { subst a. rewrite Z.div_add_l by done. rewrite (Z.div_small i) by done. lia. }
  split_and!.
  - rewrite Z.div_add_l by lia. rewrite Z.div_small by done. lia.
  - rewrite Z.add_comm, Z.mod_add by lia. by apply Z.mod_small.
  - subst a. rewrite Z.add_comm, Z.mod_add by done. by apply Z.mod_small.
Qed.

(** The bytes of one chunk of the device, and of one slot of the buffer. *)
Lemma in_chunk c t id a : wf c → 0 ≤ id < chunks c →
  ((t * chunks c + id) * PAGE_SIZE <=? a) && (a <? (t * chunks c + id) * PAGE_SIZE + PAGE_SIZE)
  = bool_decide (tag_of c a = t ∧ slot c a = id).
Proof.
  intros Hwf Hid. case_bool_decide as H.
  - destruct H as [<- <-]. pose proof (place_split c a Hwf) as E.
    pose proof (Z.mod_pos_bound a PAGE_SIZE ltac:(done)). lia.
  - destruct (Z.leb_spec ((t * chunks c + id) * PAGE_SIZE) a); [|done].
    destruct (Z.ltb_spec a ((t * chunks c + id) * PAGE_SIZE + PAGE_SIZE)); [|done]. exfalso. apply H.
    destruct (chunk_bytes c t id (a - (t * chunks c + id) * PAGE_SIZE) Hwf Hid) as (E1 & E2 & _); [lia|].
    replace ((t * chunks c + id) * PAGE_SIZE + (a - (t * chunks c + id) * PAGE_SIZE)) with a in * by lia. done.
Qed.

Lemma in_slot c id a : wf c → 0 ≤ id →
  (id * PAGE_SIZE <=? place c a) && (place c a <? id * PAGE_SIZE + PAGE_SIZE) = bool_decide (slot c a = id).
Proof.
  intros Hwf Hid. pose proof (Z.mod_pos_bound a PAGE_SIZE ltac:(done)). unfold place.
  case_bool_decide as H0; [lia|]. assert (slot c a < id ∨ id < slot c a) as [?|?] by lia; pnia.
Qed.

(** *** Block addresses *)

Lemma bob_pos c : wf c → 0 < 2 ^ block_offset_bits c ≤ 64.
Proof.
  intros [_ Hb _ _ _ _ _ _ _ _]. split; [apply Z.pow_pos_nonneg; lia|].
  change 64 with (2 ^ 6). apply Z.pow_le_mono_r; lia.
Qed.

Lemma shl_Some x n : 0 ≤ n < 64 → 0 ≤ x → x * 2 ^ n < U64 → shl x n = Some (x * 2 ^ n).
Proof.
  intros Hn Hx Hlt. unfold shl. rewrite (proj2 (Z.ltb_lt _ _)) by lia. f_equal. apply Z.mod_small.
  split; [|done]. apply Z.mul_nonneg_nonneg; [done|]. apply Z.pow_nonneg. lia.
Qed.

Lemma lor_disjoint x y n : 0 ≤ n → 0 ≤ y < 2 ^ n → Z.lor (x * 2 ^ n) y = x * 2 ^ n + y.
Proof.
  intros Hn Hy. rewrite Z.add_nocarry_lxor, Z.lxor_lor; try done.
  all: apply Z.bits_inj'; intros i Hi; rewrite Z.land_spec, Z.bits_0; apply andb_false_iff.
  all: destruct (Z.lt_ge_cases i n); [left; by apply Z.mul_pow2_bits_low|right].
  all: destruct (decide (y = 0)) as [->|]; [apply Z.bits_0|].
  all: apply Z.bits_above_log2; [lia|]; apply Z.log2_lt_pow2; [lia|].
  all: apply Z.lt_le_trans with (2 ^ n); [lia|]; apply Z.pow_le_mono_r; lia.
Qed.

Lemma compose_address_spec c t id : wf c → 0 ≤ t → 0 ≤ id < chunks c → t * chunks c + id < chunk_bound c →
  compose_address c t id = Some ((t * chunks c + id) * 2 ^ block_offset_bits c).
Proof.
  intros Hwf Ht Hid Hb. pose proof (bob_pos c Hwf) as HB. pose proof (chunks_pos c Hwf) as HK.
  destruct Hwf as [_ Hbob _ _ _ Hcib _ _ _ _].
  assert ((t * chunks c + id) * 2 ^ block_offset_bits c < U64) as Hlt.
  { unfold chunk_bound in Hb. pose proof (Z.mul_div_le U64 (2 ^ block_offset_bits c) ltac:(lia)).
    set (q := U64 / 2 ^ block_offset_bits c) in *. nia. }
  unfold compose_address. rewrite uadd_ok by lia. cbn [mbind option_bind].
  assert (2 ^ (chunk_id_bits c + block_offset_bits c) = chunks c * 2 ^ block_offset_bits c) as Hpow
    by (apply Z.pow_add_r; lia).
  rewrite (shl_Some t); [|lia|lia|rewrite Hpow; nia]. cbn [mbind option_bind].
  rewrite (shl_Some id); [|lia|lia|nia]. cbn [mbind option_bind].
  rewrite lor_disjoint; [|lia|rewrite Hpow; nia]. f_equal. rewrite Hpow. lia.
Qed.

Lemma decompose_address_spec c g : wf c → 0 ≤ g < U64 →
  let a := g * block_size c in
  decompose_address c g = Some (tag_of c a, slot c a, g mod 2 ^ block_offset_bits c).
Proof.
  intros Hwf Hg a. pose proof (bob_pos c Hwf) as HB. pose proof (chunks_pos c Hwf) as HK.
  assert (a / PAGE_SIZE = g / 2 ^ block_offset_bits c) as Hdiv.
  { subst a. rewrite <- (wf_block c Hwf), (Z.mul_comm (block_size c)), (Z.mul_comm g).
    pose proof (wf_block c Hwf). rewrite (Z.mul_comm (2 ^ _)). apply Z.div_mul_cancel_l; pnia. }
  pose proof (wf_num c Hwf) as Hnum. pose proof (wf_block c Hwf) as Hblk.
  unfold decompose_address, tag_of, slot. rewrite Hdiv. destruct Hwf as [_ Hbob _ _ _ Hcib _ _ _ _].
  rewrite uadd_ok by lia. cbn [mbind option_bind].
  assert ((if chunk_id_bits c =? 0 then Some 0
           else hi ← usub (chunk_id_bits c + block_offset_bits c) 1; Some (bit_range g hi (block_offset_bits c)))
          = Some ((g / 2 ^ block_offset_bits c) mod chunks c)) as ->.
  { destruct (Z.eqb_spec (chunk_id_bits c) 0) as [->|]; [by rewrite Z.mod_1_r|].
    rewrite usub_ok by lia. cbn [mbind option_bind].
    rewrite bit_range_div_mod by lia. do 3 f_equal. lia. }
  cbn [mbind option_bind]. rewrite usub_ok by lia. cbn [mbind option_bind].
  assert (bit_range g (block_offset_bits c - 1) 0 = g mod 2 ^ block_offset_bits c) as ->.
  { rewrite bit_range_div_mod by lia. rewrite Z.div_1_r. do 2 f_equal. lia. }
  pose proof (Z.mod_pos_bound (g / 2 ^ block_offset_bits c) (chunks c) HK).
  pose proof (Z.mod_pos_bound g (2 ^ block_offset_bits c) ltac:(lia)).
  assert (64 ≤ block_size c) by pnia.
  rewrite (proj2 (Z.ltb_lt _ _)) by lia. rewrite (proj2 (Z.ltb_lt _ _)) by lia. cbn [andb]. do 3 f_equal.
  rewrite bit_range_div_mod by lia. rewrite Z.pow_add_r, (Z.mul_comm (chunks c)), <- Z.div_div by lia.
  apply Z.mod_small. split; [repeat apply Z.div_pos; lia|].
  apply Z.div_lt_upper_bound; [lia|]. apply Z.div_lt_upper_bound; [lia|].
  rewrite Z.mul_assoc, <- Z.pow_add_r, <- Z.pow_add_r by lia.
  replace (block_offset_bits c + chunk_id_bits c + (63 - (chunk_id_bits c + block_offset_bits c) + 1)) with 64 by lia.
  lia.
Qed.

(** *** Loading one chunk *)

Lemma chunk_phy_addr_spec c id : wf c → 0 ≤ id < chunks c →
  chunk_phy_addr c id = Some (buffer_pa c + id * PAGE_SIZE).
Proof.
  intros Hwf Hid. destruct Hwf as [_ _ _ _ Hcs _ Hnum _ Hlen Hpa].
  assert (0 ≤ id * PAGE_SIZE < buffer_len c) as Hin by pnia.
  unfold chunk_phy_addr. rewrite Hcs, umul_ok by lia. cbn [mbind option_bind]. f_equal.
  unfold as_isize. rewrite (proj2 (Z.ltb_lt _ _)) by lia.
  unfold PhysicalAddress.offset, saturating_add_signed. lia.
Qed.

Lemma block_bytes c n : wf c → n * 2 ^ block_offset_bits c * block_size c = n * PAGE_SIZE.
Proof. intros Hwf. rewrite <- (wf_block c Hwf). lia. Qed.

(** The slot [id] holds the same bytes as the device. *)
Definition flushed c (id t : Z) : Prop := ∀ i, 0 ≤ i < PAGE_SIZE →
  mem c (buffer_pa c + id * PAGE_SIZE + i) = disk (store c) ((t * chunks c + id) * PAGE_SIZE + i).

Lemma copy_range_in d from m to len i : 0 ≤ i < len → copy_range d from m to len (to + i) = d (from + i).
Proof.
  intros Hi. unfold copy_range. rewrite (proj2 (Z.leb_le _ _)), (proj2 (Z.ltb_lt _ _)) by lia. cbn.
  f_equal. lia.
Qed.
Lemma copy_range_out d from m to len a : a < to ∨ to + len ≤ a → copy_range d from m to len a = m a.
Proof.
  intros Ha. unfold copy_range. destruct (Z.leb_spec to a); [|done]. destruct (Z.ltb_spec a (to + len)); [lia|done].
Qed.

(** Writing a slot back. *)
Lemma store_write_spec c id md : wf c → coherent c → 0 ≤ id < chunks c → metadata c !! Z.to_nat id = Some md →
  dirty md = true →
  match store_write [(buffer_pa c + id * PAGE_SIZE, blocks_per_chunk c)]
          ((tag md * chunks c + id) * 2 ^ block_offset_bits c) c with
  | Ok _ c' => same c c' ∧ coherent c' ∧ (∀ a, view c' a = view c a) ∧ metadata c' = metadata c
               ∧ flushed c' id (tag md)
  | Err _ _ => True
  | Stop _ => False
  end.
Proof.
  intros Hwf Hco Hid Hmd Hdirty. unfold store_write. destruct (write_blocks _ _ _ _) as [st' [n|e]] eqn:E; [|done].
  pose proof (full_write _ _ _ _ _ _ E) as Hn. apply write_blocks_law in E as [Hbs Hdisk]. specialize (Hdisk Hn). cbn [gather] in Hdisk.
  rewrite (wf_store c Hwf), block_bytes, (wf_bpc c Hwf) in Hdisk by done.
  rewrite (Z.mul_comm (2 ^ _)), (wf_block c Hwf) in Hdisk.
  destruct (Hco id md Hid Hmd) as (Hocc & _ & _). specialize (Hocc Hdirty).
  split_and!; [by repeat split| | |done|].
  - intros id' md' Hid' Hmd'. destruct (Hco id' md' Hid' Hmd') as (H1 & H2 & H3). split_and!; [done|done|].
    intros Ho Hd i Hi. cbn. rewrite Hdisk. unfold copy_range.
    rewrite in_chunk by done. rewrite bool_decide_false; [by apply H3|].
    destruct (chunk_bytes c (tag md') id' i Hwf Hid' Hi) as (_ & -> & _). intros [_ ->]. cbn in Hmd'. simplify_eq. congruence.
  - intros a. unfold view. assert (cached (set_store c st' (mem c)) a = cached c a) as -> by done.
    destruct (cached c a) eqn:Hc; [done|]. cbn. rewrite Hdisk. unfold copy_range. rewrite in_chunk by done.
    rewrite bool_decide_false; [done|]. intros [Ht Hs]. unfold cached in Hc. rewrite Hs, Hmd, Ht, Hocc in Hc.
    by rewrite Z.eqb_refl in Hc.
  - intros i Hi. cbn. rewrite Hdisk. by rewrite copy_range_in.
Qed.

(** Reading chunk [id] with tag [t] into its slot, when the slot has nothing the device lacks. *)
Definition loaded c (id : Z) (md : Z) (t : Z) (d : bool) : BlockCache S → Prop := λ c',
  same c c' ∧ coherent c' ∧ (∀ a, view c' a = view c a)
  ∧ (∀ k, k ≠ Z.to_nat id → metadata c' !! k = metadata c !! k)
  ∧ ∃ md', metadata c' !! Z.to_nat id = Some md' ∧ occupied md' = true ∧ tag md' = t ∧ dirty md' = d.

Lemma new_metadata md t d : 0 ≤ t < 2 ^ 62 →
  let md' := set_dirty (set_occupied (set_tag md t) true) d in
  occupied md' = true ∧ tag md' = t ∧ dirty md' = d.
Proof.
  intros Ht md'. unfold md', occupied, tag, dirty, set_dirty, set_occupied, set_tag.
  autorewrite with bits. change (63 - 2 + 1) with 62. rewrite Z.mod_small by done. done.
Qed.

Lemma store_read_spec c id md t d : wf c → coherent c → 0 ≤ id < chunks c → metadata c !! Z.to_nat id = Some md →
  0 ≤ t → t * chunks c + id < chunk_bound c → occupied md && (tag md =? t) = false →
  (occupied md = true → flushed c id (tag md)) →
  match store_read ((t * chunks c + id) * 2 ^ block_offset_bits c)
          [(buffer_pa c + id * PAGE_SIZE, blocks_per_chunk c)] c with
  | Ok _ c1 => metadata c1 = metadata c ∧
      loaded c id md t d (set_metadata c1 (<[Z.to_nat id := set_dirty (set_occupied (set_tag md t) true) d]> (metadata c1)))
  | Err _ _ => True
  | Stop _ => False
  end.
Proof.
  intros Hwf Hco Hid Hmd Ht Hb Hmiss Hfl. unfold store_read.
  destruct (read_blocks _ _ _ _) as [[st' m'] [n|e]] eqn:E; [|done].
  pose proof (full_read _ _ _ _ _ _ _ E) as Hn. apply read_blocks_law in E as (Hbs & Hdisk & Hmem).
  specialize (Hmem Hn). cbn [scatter] in Hmem.
  rewrite (wf_store c Hwf), block_bytes, (wf_bpc c Hwf) in Hmem by done.
  rewrite (Z.mul_comm (2 ^ _)), (wf_block c Hwf) in Hmem. split; [done|]. cbn [metadata set_store].
  assert (t < 2 ^ 62) as Ht62.
  { pose proof (chunks_pos c Hwf). pose proof (wf_bob c Hwf). unfold chunk_bound in Hb.
    assert (U64 / 2 ^ block_offset_bits c ≤ 2 ^ 62); [|nia].
    apply Z.div_le_upper_bound; [by apply bob_pos|]. change U64 with (2 ^ 2 * 2 ^ 62).
    apply Z.mul_le_mono_nonneg_r; [done|]. apply Z.pow_le_mono_r; lia. }
  destruct (new_metadata md t d (conj Ht Ht62)) as (Ho & Htag & Hd). cbn zeta in Ho, Htag, Hd.
  set (md' := set_dirty _ d) in *.
  assert (Z.to_nat id < length (metadata c))%nat as Hlt by (by eapply lookup_lt_Some).
  assert (∀ a, slot c a ≠ id → m' (buffer_pa c + place c a) = mem c (buffer_pa c + place c a)) as Hother.
  { intros a Ha. rewrite Hmem. apply copy_range_out. pose proof (in_slot c id a Hwf ltac:(lia)) as Hin.
    rewrite bool_decide_false in Hin by done. lia. }
  split_and!.
  - repeat split; cbn; try done. by rewrite length_insert.
  - intros id' md1 Hid' Hmd1. cbn in Hmd1. destruct (decide (id' = id)) as [->|Hne].
    + rewrite list_lookup_insert_eq in Hmd1 by done. simplify_eq. split_and!; [congruence|by rewrite Htag|].
      intros _ _ i Hi. cbn. rewrite Hmem, Hdisk, Htag. by apply copy_range_in.
    + rewrite list_lookup_insert_ne in Hmd1 by lia. destruct (Hco id' md1 Hid' Hmd1) as (H1 & H2 & H3).
      split_and!; [done|done|]. intros Ho' Hd' i Hi. cbn. rewrite Hdisk, Hmem, copy_range_out; [by apply H3|].
      assert (id' < id ∨ id < id') as [?|?] by lia; pnia.
  - intros a. unfold view, cached. cbn [metadata mem store buffer_pa set_metadata set_store].
    change (slot _ a) with (slot c a). change (tag_of _ a) with (tag_of c a).
    change (place (set_metadata _ _) a) with (place c a).
    destruct (decide (slot c a = id)) as [Hs|Hs].
    + rewrite Hs, list_lookup_insert_eq, Hmd by done. cbv beta iota. rewrite Ho, Htag. cbn [andb]. pose proof (place_split c a Hwf) as Ha.
      rewrite Hs in Ha. pose proof (Z.mod_pos_bound a PAGE_SIZE ltac:(done)) as Hmod.
      destruct (Z.eqb_spec t (tag_of c a)) as [->|Hne].
      * rewrite Hmiss, Hmem. unfold place. rewrite Hs, Z.add_assoc, copy_range_in by done. by rewrite <- Ha.
      * rewrite Hdisk. destruct (occupied md && (tag md =? tag_of c a)) eqn:Hc; [|done].
        apply andb_true_iff in Hc as [Hc1 Hc2]. apply Z.eqb_eq in Hc2. unfold place. rewrite Hs, Z.add_assoc.
        rewrite (Hfl Hc1 _ Hmod), Hc2. by rewrite <- Ha.
    + pose proof (slot_range c a Hwf). rewrite list_lookup_insert_ne by lia. rewrite Hother, Hdisk by done. done.
  - intros k Hk. cbn. by rewrite list_lookup_insert_ne.
  - exists md'. cbn. by rewrite list_lookup_insert_eq.
Qed.

(** The chunk is in its slot, [d]: and is marked dirty. *)
Definition resident c (t id : Z) (d : bool) : Prop :=
  ∃ md, metadata c !! Z.to_nat id = Some md ∧ occupied md = true ∧ tag md = t ∧ (d = true → dirty md = true).
(** The chunk is in its slot and not marked dirty. *)
Definition clean_hit c (t id : Z) : Prop :=
  ∃ md, metadata c !! Z.to_nat id = Some md ∧ occupied md = true ∧ tag md = t ∧ dirty md = false.

(** What loading chunks leaves alone. *)
Definition keeps c c' : Prop := same c c' ∧ coherent c' ∧ ∀ a, view c' a = view c a.

Lemma fetch_spec c md t id d : wf c → coherent c → 0 ≤ id < chunks c → metadata c !! Z.to_nat id = Some md →
  0 ≤ t → t * chunks c + id < chunk_bound c → occupied md && (tag md =? t) = false →
  (occupied md = true → flushed c id (tag md)) →
  match fetch t id (buffer_pa c + id * PAGE_SIZE) d c with
  | Ok _ c' => keeps c c' ∧ resident c' t id d
               ∧ ∀ k, k ≠ Z.to_nat id → metadata c' !! k = metadata c !! k
  | Err _ _ => True
  | Stop _ => False
  end.
Proof.
  intros Hwf Hco Hid Hmd Ht Hb Hmiss Hfl. unfold fetch. erewrite bind_run by reflexivity. cbv beta.
  erewrite bind_run by (apply lift_Ok; split; [by apply compose_address_spec|done]). cbv beta.
  pose proof (store_read_spec c id md t d Hwf Hco Hid Hmd Ht Hb Hmiss Hfl) as Hr.
  rewrite bind_unfold. destruct (store_read _ _ c) as [[] c2|e c2|w]; [|done|done]. destruct Hr as [Hm2 Hr].
  erewrite bind_run by reflexivity. cbv beta. rewrite <- Hm2 in Hmd.
  erewrite bind_run by (by apply lift_Ok). cbv beta. unfold put.
  destruct Hr as (Hs & Hco2 & Hv & Hk & md' & Hmd' & Ho' & Ht' & Hd').
  split_and!; [by split_and!|exists md'; split_and!; congruence|intros k Hne; by rewrite Hk].
Qed.

Lemma cache_keeps_trans c1 c2 c3 : keeps c1 c2 → keeps c2 c3 → keeps c1 c3.
Proof.
  intros (S1 & _ & V1) (S2 & C2 & V2). split_and!; [by transitivity c2|done|]. intros a. by rewrite V2.
Qed.

Lemma load_chunk_spec c t id d : wf c → coherent c → 0 ≤ id < chunks c → 0 ≤ t →
  t * chunks c + id < chunk_bound c → (d = true → ¬ clean_hit c t id) →
  match load_chunk t id d c with
  | Ok _ c' => keeps c c' ∧ resident c' t id d
               ∧ ∀ k, k ≠ Z.to_nat id → metadata c' !! k = metadata c !! k
  | Err _ _ => True
  | Stop _ => False
  end.
Proof.
  intros Hwf Hco Hid Ht Hb Hclean.
  destruct (lookup_lt_is_Some_2 (metadata c) (Z.to_nat id)) as [md Hmd].
  { pose proof (wf_len c Hwf). pose proof (wf_num c Hwf). lia. }
  destruct (Hco id md Hid Hmd) as (Hdo & Hval & Hcl).
  unfold load_chunk. erewrite bind_run by reflexivity. cbv beta.
  erewrite bind_run by (by apply lift_Ok). cbv beta.
  destruct (negb (occupied md) || negb (tag md =? t)) eqn:Hmiss.
  2:{ apply orb_false_iff in Hmiss as [Ho Htag]. apply negb_false_iff in Ho, Htag. apply Z.eqb_eq in Htag.
      cbn. split_and!; [by split_and!| |done]. exists md. split_and!; try done. intros Hd.
      destruct (dirty md) eqn:Hdm; [done|]. exfalso. apply Hclean; [done|]. by exists md. }
  erewrite bind_run by (apply lift_Ok; split; [by apply chunk_phy_addr_spec|done]). cbv beta.
  assert (occupied md && (tag md =? t) = false) as Hmiss' by (destruct (occupied md), (tag md =? t); done).
  rewrite bind_unfold. unfold write_back. erewrite bind_run by reflexivity. cbv beta.
  destruct (dirty md) eqn:Hdirty.
  2:{ cbv beta iota. unfold mret, M_ret. eapply fetch_spec; try done. intros Ho i Hi. by apply Hcl. }
  destruct (Hval (Hdo eq_refl)) as [Ht0 Hb0].
  erewrite bind_run by (apply lift_Ok; split; [by apply compose_address_spec|done]). cbv beta.
  pose proof (store_write_spec c id md Hwf Hco Hid Hmd Hdirty) as Hw.
  destruct (store_write _ _ c) as [[] c1|e c1|w]; [|done|done]. destruct Hw as (Hs & Hco1 & Hv & Hm & Hf).
  pose proof Hs as (Eb & Ec & _ & _ & _ & _ & _ & _ & Epa & _). pose proof (same_wf _ _ Hs Hwf) as Hwf1.
  unfold chunk_bound in Hb. rewrite <- Eb, <- Ec in *. rewrite <- Epa, <- Hm in *.
  pose proof (fetch_spec c1 md t id d Hwf1 Hco1 Hid Hmd Ht Hb Hmiss' (λ _, Hf)) as Hr.
  destruct (fetch _ _ _ _ c1) as [[] c2|e c2|w]; [|done|done]. destruct Hr as (Hk2 & Hres & Hoth).
  split_and!; [by eapply cache_keeps_trans|done|intros k Hne; by rewrite Hoth].
Qed.

(** *** Loading the chunks of an access *)

Lemma load_chunks_spec t start d n : ∀ i c, wf c → coherent c → 0 ≤ i → 0 ≤ t → 0 ≤ start →
  start + i + Z.of_nat n ≤ chunks c → t * chunks c + chunks c ≤ chunk_bound c →
  (d = true → ∀ j, i ≤ j < i + Z.of_nat n → ¬ clean_hit c t (start + j)) →
  (∀ j, 0 ≤ j < i → resident c t (start + j) d) →
  match load_chunks_loop t start i n d c with
  | Ok _ c' => keeps c c' ∧ ∀ j, 0 ≤ j < i + Z.of_nat n → resident c' t (start + j) d
  | Err _ _ => True
  | Stop _ => False
  end.
Proof.
  induction n as [|n IH]; intros i c Hwf Hco Hi Ht Hst Hend Hb Hclean Hbefore.
  { cbn. split; [by split_and!|]. intros j Hj. apply Hbefore. lia. }
  cbn [load_chunks_loop]. erewrite bind_run by reflexivity. cbv beta.
  pose proof (wf_num c Hwf) as Hnum. pose proof (wf_cib c Hwf) as Hcib.
  assert (chunks c ≤ 2 ^ 50) as Hk by (apply Z.pow_le_mono_r; lia).
  erewrite bind_run by (apply lift_Ok; split; [apply uadd_ok; lia|done]). cbv beta.
  rewrite (proj2 (Z.ltb_ge _ _)) by lia. rewrite bind_unfold.
  assert (0 ≤ start + i < chunks c) as Hid by lia.
  pose proof (load_chunk_spec c t (start + i) d Hwf Hco Hid Ht ltac:(lia)) as Hload.
  specialize (Hload (λ E, Hclean E i ltac:(lia))).
  destruct (load_chunk t (start + i) d c) as [[] c1|e c1|w]; [|done|done].
  destruct Hload as (Hkeep & Hres & Hoth). pose proof Hkeep as ((Eb & Ec & _) & Hco1 & _).
  pose proof (same_wf _ _ (proj1 Hkeep) Hwf) as Hwf1. unfold chunk_bound in *.
  assert (∀ j, 0 ≤ start + j → j ≠ i → metadata c1 !! Z.to_nat (start + j) = metadata c !! Z.to_nat (start + j)) as Hsame.
  { intros j Hj Hne. apply Hoth. lia. }
  assert (d = true → ∀ j, i + 1 ≤ j < i + 1 + Z.of_nat n → ¬ clean_hit c1 t (start + j)) as Hclean1.
  { intros Hd j Hj (md & Hmd & Hrest). rewrite Hsame in Hmd by lia. apply (Hclean Hd j); [lia|]. by exists md. }
  assert (∀ j, 0 ≤ j < i + 1 → resident c1 t (start + j) d) as Hbefore1.
  { intros j Hj. destruct (decide (j = i)) as [->|Hne]; [done|].
    destruct (Hbefore j ltac:(lia)) as (md & Hmd & Hrest). exists md. by rewrite Hsame by lia. }
  specialize (IH (i + 1) c1 Hwf1 Hco1 ltac:(lia) Ht Hst). rewrite Eb, Ec in IH.
  specialize (IH ltac:(lia) Hb Hclean1 Hbefore1).
  destruct (load_chunks_loop t start (i + 1) n d c1) as [[] c2|e c2|w]; [|done|done].
  destruct IH as [Hkeep2 Hres2]. split; [by eapply cache_keeps_trans|]. intros j Hj. apply Hres2. lia.
Qed.

(** *** Accesses *)

(** The byte that a block address and an offset name. *)
Definition byte_of c (address byte_offset : Z) : Z := address * block_size c + byte_offset.

(** The access stays in the chunks that are loaded for it: it starts early enough in its first chunk, and its
    chunks have the same tag. *)
Definition fits c (address byte_offset n : Z) : Prop :=
  let a := byte_of c address byte_offset in
  let k := div_ceil n PAGE_SIZE in
  0 ≤ address ∧ 0 ≤ byte_offset ∧ 0 ≤ n ∧ address + byte_offset / block_size c < U64
  ∧ a mod PAGE_SIZE + n ≤ k * PAGE_SIZE ∧ slot c a + k ≤ chunks c.

Lemma byte_split c g o : wf c → 0 ≤ o →
  let a := byte_of c g o in let g' := g + o / block_size c in
  tag_of c (g' * block_size c) = tag_of c a ∧ slot c (g' * block_size c) = slot c a
  ∧ g' mod 2 ^ block_offset_bits c * block_size c + o mod block_size c = a mod PAGE_SIZE.
Proof.
  intros Hwf Ho a g'. pose proof (wf_block c Hwf) as Hblk. pose proof (bob_pos c Hwf) as HB.
  assert (0 < block_size c) as Hbs by pnia. unfold tag_of, slot.
  assert (a = g' * block_size c + o mod block_size c) as Ha.
  { subst a g'. unfold byte_of. pose proof (Z.div_mod o (block_size c)). lia. }
  pose proof (Z.mod_pos_bound o (block_size c) Hbs) as Hm.
  assert (∀ r, 0 ≤ r < block_size c → (g' * block_size c + r) / PAGE_SIZE = g' / 2 ^ block_offset_bits c) as Hdiv.
  { intros r Hr. rewrite <- Hblk, <- Z.div_div by lia. rewrite Z.div_add_l, (Z.div_small r) by lia.
    by rewrite Z.add_0_r. }
  assert (g' * block_size c / PAGE_SIZE = a / PAGE_SIZE) as ->.
  { rewrite Ha, (Hdiv _ Hm). rewrite <- (Hdiv 0) by lia. by rewrite Z.add_0_r. }
  split_and!; [done|done|]. pose proof (Z.div_mod a PAGE_SIZE ltac:(done)) as Hdm.
  pose proof (Z.div_mod g' (2 ^ block_offset_bits c) ltac:(lia)) as Hgm.
  rewrite Ha, (Hdiv _ Hm) in Hdm. rewrite <- Ha in Hdm. rewrite <- Hblk in Hdm at 1. nia.
Qed.

(** The bytes from [a] on lie one after the other in the buffer, as long as the chunks have one tag. *)
Lemma place_shift c a i k : wf c → 0 ≤ i → a mod PAGE_SIZE + i < k * PAGE_SIZE → slot c a + k ≤ chunks c →
  let j := (a mod PAGE_SIZE + i) / PAGE_SIZE in
  0 ≤ j < k ∧ tag_of c (a + i) = tag_of c a ∧ slot c (a + i) = slot c a + j ∧ place c (a + i) = place c a + i.
Proof.
  intros Hwf Hi Hk Hs j. pose proof (Z.mod_pos_bound a PAGE_SIZE ltac:(done)) as Hm.
  pose proof (slot_range c a Hwf) as Hr.
  assert (0 ≤ j < k) as Hj. { subst j. split; [apply Z.div_pos; pnia|apply Z.div_lt_upper_bound; pnia]. }
  pose proof (Z.div_mod (a mod PAGE_SIZE + i) PAGE_SIZE ltac:(done)) as Hd. fold j in Hd.
  pose proof (Z.mod_pos_bound (a mod PAGE_SIZE + i) PAGE_SIZE ltac:(done)) as Hm2.
  destruct (chunk_bytes c (tag_of c a) (slot c a + j) ((a mod PAGE_SIZE + i) mod PAGE_SIZE) Hwf) as (E1 & E2 & E3);
    [lia|done|].
  assert ((tag_of c a * chunks c + (slot c a + j)) * PAGE_SIZE + (a mod PAGE_SIZE + i) mod PAGE_SIZE = a + i) as E.
  { pose proof (place_split c a Hwf). lia. }
  rewrite E in *. split_and!; [lia|lia|done|done|]. unfold place. rewrite E2, E3. lia.
Qed.

Lemma chunk_bound_tag c a : wf c → 0 ≤ a < U64 * block_size c →
  0 ≤ tag_of c a ∧ tag_of c a * chunks c + chunks c ≤ chunk_bound c.
Proof.
  intros Hwf Ha. pose proof (chunks_pos c Hwf) as HK. pose proof (bob_pos c Hwf) as HB.
  unfold tag_of, chunk_bound. split; [apply Z.div_pos; [apply Z.div_pos; plia|done]|].
  assert (U64 / 2 ^ block_offset_bits c = 2 ^ (64 - chunk_id_bits c - block_offset_bits c) * chunks c) as ->.
  { pose proof (wf_bob c Hwf). pose proof (wf_cib c Hwf). rewrite <- Z.pow_add_r by lia.
    change U64 with (2 ^ 64). rewrite <- Z.pow_sub_r by lia. f_equal. lia. }
  set (N := 2 ^ (64 - _ - _)). assert (a / PAGE_SIZE / chunks c < N); [|nia].
  apply Z.div_lt_upper_bound; [done|]. apply Z.div_lt_upper_bound; [done|].
  assert (chunks c * N * 2 ^ block_offset_bits c = U64) as HU.
  { pose proof (wf_bob c Hwf). pose proof (wf_cib c Hwf). unfold N. rewrite <- !Z.pow_add_r by lia.
    change U64 with (2 ^ 64). f_equal. lia. }
  pose proof (wf_block c Hwf). nia.
Qed.

Lemma locate_spec c g o n d : wf c → coherent c → fits c g o n →
  let a := byte_of c g o in
  (d = true → ∀ j, 0 ≤ j < div_ceil n PAGE_SIZE → ¬ clean_hit c (tag_of c a) (slot c a + j)) →
  match locate g o n d c with
  | Ok offset c' => keeps c c' ∧ offset = place c a
      ∧ ∀ j, 0 ≤ j < div_ceil n PAGE_SIZE → resident c' (tag_of c a) (slot c a + j) d
  | Err _ _ => True
  | Stop _ => False
  end.
Proof.
  intros Hwf Hco (Hg & Ho & Hn & Hgo & Hin & Hslot) a Hclean.
  fold a in Hin, Hslot. assert (0 < block_size c) as Hbs. { pose proof (wf_block c Hwf). pose proof (bob_pos c Hwf). pnia. }
  pose proof (Z.mod_pos_bound o (block_size c) Hbs) as Hom.
  pose proof (Z.div_pos o (block_size c) Ho Hbs) as Hod.
  set (g' := g + o / block_size c) in *. destruct (byte_split c g o Hwf Ho) as (Et & Es & Eo). fold a g' in Et, Es, Eo.
  unfold locate. erewrite bind_run by reflexivity. cbv beta.
  erewrite (bind_run _ _ _ g').
  2:{ apply lift_Ok. split; [|done]. destruct (Z.leb_spec (block_size c) o); [by apply uadd_ok|].
      unfold g'. rewrite Z.div_small by lia. by rewrite Z.add_0_r. }
  cbv beta. replace (if block_size c <=? o then o mod block_size c else o) with (o mod block_size c).
  2:{ destruct (Z.leb_spec (block_size c) o); [done|]. apply Z.mod_small. lia. }
  cbv zeta. erewrite bind_run by (apply lift_Ok; split; [by apply decompose_address_spec; [|lia]|done]). cbv beta iota.
  rewrite (wf_chunk c Hwf), Et, Es. pose proof (slot_range c a Hwf) as Hr. pose proof (wf_num c Hwf) as Hnum.
  pose proof (div_ceil_nonneg n PAGE_SIZE ltac:(done) Hn) as Hk.
  rewrite (proj2 (Z.ltb_ge _ _)) by lia.
  destruct (chunk_bound_tag c a Hwf) as [Ht Hb].
  { subst a. unfold byte_of, g' in *. pose proof (Z.div_mod o (block_size c)). nia. }
  unfold load_chunks. rewrite bind_unfold.
  pose proof (load_chunks_spec (tag_of c a) (slot c a) d (Z.to_nat (div_ceil n PAGE_SIZE)) 0 c Hwf Hco) as Hl.
  rewrite Z2Nat.id in Hl by done.
  specialize (Hl ltac:(lia) Ht ltac:(lia) ltac:(lia) Hb Hclean ltac:(lia)).
  destruct (load_chunks_loop _ _ _ _ d c) as [[] c1|e c1|w]; [|done|done]. destruct Hl as [Hkeep Hres].
  pose proof (bob_pos c Hwf) as HB. destruct Hwf as [_ _ Hblk _ _ _ _ _ Hlen Hpa]. pose proof (Z.mod_pos_bound a PAGE_SIZE ltac:(done)) as Hm.
  assert (0 ≤ slot c a * PAGE_SIZE + a mod PAGE_SIZE < 2 ^ 63) as Hfit by pnia.
  assert (0 ≤ g' mod 2 ^ block_offset_bits c) as Hgm by (apply Z.mod_pos_bound; lia).
  assert (0 ≤ g' mod 2 ^ block_offset_bits c * block_size c) as Hgm' by nia.
  erewrite bind_run by (apply lift_Ok; split; [apply umul_ok; lia|done]). cbv beta.
  erewrite bind_run by (apply lift_Ok; split; [apply umul_ok; lia|done]). cbv beta.
  erewrite bind_run by (apply lift_Ok; split; [apply uadd_ok; lia|done]). cbv beta.
  rewrite uadd_ok by lia. unfold lift, mret, M_ret. split_and!; [done| |done]. unfold place. lia.
Qed.

(** The end of an access is in the buffer. *)
Lemma access_end c g o n : wf c → fits c g o n →
  0 ≤ place c (byte_of c g o) ∧ place c (byte_of c g o) + n ≤ buffer_len c.
Proof.
  intros Hwf (_ & _ & Hn & _ & Hin & Hslot). pose proof (slot_range c (byte_of c g o) Hwf).
  destruct Hwf as [_ _ _ _ _ _ Hnum _ Hlen _].
  pose proof (Z.mod_pos_bound (byte_of c g o) PAGE_SIZE ltac:(done)). unfold place. pnia.
Qed.

Lemma resident_cached c t id d a : resident c t id d → tag_of c a = t → slot c a = id → cached c a = true.
Proof.
  intros (md & Hmd & Ho & Ht & _) <- <-. unfold cached. rewrite Hmd. cbv beta iota. rewrite Ho, Ht. apply Z.eqb_refl.
Qed.

Lemma same_place c c' a : same c c' → slot c' a = slot c a ∧ tag_of c' a = tag_of c a ∧ place c' a = place c a.
Proof. intros (_ & Ec & _). unfold place, slot, tag_of. by rewrite Ec. Qed.

(** Reading gives the bytes of the view, and changes nothing of it. *)
Lemma copy_bytes_spec c g o n : wf c → coherent c → fits c g o n →
  match copy_bytes g o n c with
  | Ok bytes c' => keeps c c' ∧ bytes = (λ i, view c (byte_of c g o + Z.of_nat i)) <$> seq 0 (Z.to_nat n)
  | Err _ _ => True
  | Stop _ => False
  end.
Proof.
  intros Hwf Hco Hfit. unfold copy_bytes. rewrite bind_unfold.
  pose proof (locate_spec c g o n false Hwf Hco Hfit ltac:(done)) as Hl. cbn zeta in Hl.
  destruct (locate g o n false c) as [offset c1|e c1|w]; [|done|done]. destruct Hl as (Hkeep & -> & Hres).
  pose proof Hkeep as (Hs & _ & Hv). pose proof Hs as (_ & _ & _ & _ & _ & _ & _ & Elen & Epa & _).
  destruct (access_end c g o n Hwf Hfit) as [Hp He]. destruct (wf_pa c Hwf) as [Hpa Hlen].
  unfold buffer_read. erewrite bind_run by reflexivity. cbv beta.
  erewrite bind_run by (apply lift_Ok; split; [apply uadd_ok; lia|done]). cbv beta.
  rewrite Elen, (proj2 (Z.leb_le _ _)) by lia. unfold mret, M_ret. split; [done|].
  apply list_fmap_ext. intros i x Hi. apply lookup_seq in Hi as [-> Hi]. rewrite Nat.add_0_l, <- Hv.
  destruct Hfit as (_ & _ & Hn & _ & Hin & Hslot).
  destruct (place_shift c (byte_of c g o) (Z.of_nat i) (div_ceil n PAGE_SIZE) Hwf ltac:(lia) ltac:(lia) Hslot) as (Hj & Et & Es & Ep).
  destruct (same_place c c1 (byte_of c g o + Z.of_nat i) Hs) as (Es1 & Et1 & Ep1). unfold view.
  rewrite (resident_cached c1 _ _ _ _ (Hres _ Hj)); [|congruence|congruence]. rewrite Ep1, Ep, Epa. f_equal. lia.
Qed.

(** Where an access that has been loaded for lies in the buffer. *)
Lemma cached_range c a n b d : wf c → 0 ≤ n → let k := div_ceil n PAGE_SIZE in
  a mod PAGE_SIZE + n ≤ k * PAGE_SIZE → slot c a + k ≤ chunks c →
  (∀ j, 0 ≤ j < k → resident c (tag_of c a) (slot c a + j) d) → cached c b = true →
  place c a ≤ place c b < place c a + n ↔ a ≤ b < a + n.
Proof.
  intros Hwf Hn k Hin Hslot Hres Hc. pose proof (place_split c a Hwf) as Ea. pose proof (place_split c b Hwf) as Eb.
  pose proof (Z.mod_pos_bound a PAGE_SIZE ltac:(done)). pose proof (Z.mod_pos_bound b PAGE_SIZE ltac:(done)).
  split; intros Hb.
  - assert (0 ≤ slot c b - slot c a < k) as Hj by (unfold place in Hb; pnia).
    destruct (Hres _ Hj) as (md & Hmd & Ho & Ht & _).
    replace (slot c a + (slot c b - slot c a)) with (slot c b) in Hmd by lia.
    unfold cached in Hc. rewrite Hmd in Hc. apply andb_true_iff in Hc as [_ Hc]. apply Z.eqb_eq in Hc.
    unfold place in Hb. rewrite Hc in Ht. rewrite Ht in Eb. lia.
  - destruct (place_shift c a (b - a) k Hwf) as (_ & _ & _ & Ep); [lia|lia|done|].
    replace (a + (b - a)) with b in Ep by lia. lia.
Qed.

Lemma buffer_update c a n f : wf c → coherent c → 0 ≤ n → let k := div_ceil n PAGE_SIZE in
  a mod PAGE_SIZE + n ≤ k * PAGE_SIZE → slot c a + k ≤ chunks c →
  (∀ j, 0 ≤ j < k → resident c (tag_of c a) (slot c a + j) true) →
  let c' := set_store c (store c) (copy_range f 0 (mem c) (buffer_pa c + place c a) n) in
  coherent c' ∧ ∀ b, view c' b = copy_range f 0 (view c) a n b.
Proof.
  intros Hwf Hco Hn k Hin Hslot Hres c'. pose proof (slot_range c a Hwf) as Hr.
  pose proof (Z.mod_pos_bound a PAGE_SIZE ltac:(done)) as Hm. split.
  - intros id md Hid Hmd. destruct (Hco id md Hid Hmd) as (H1 & H2 & H3). split_and!; [done|done|].
    intros Ho Hd i Hi. cbn. rewrite copy_range_out; [by apply H3|]. unfold place.
    assert (¬ 0 ≤ id - slot c a < k) as Hout; [|pnia]. intros Hj.
    destruct (Hres _ Hj) as (md' & Hmd' & _ & _ & Hd'). replace (slot c a + (id - slot c a)) with id in Hmd' by lia.
    cbn in Hmd. simplify_eq. by rewrite Hd' in Hd.
  - intros b. unfold view. change (cached c' b) with (cached c b). destruct (cached c b) eqn:Hc.
    + pose proof (cached_range c a n b true Hwf Hn Hin Hslot Hres Hc) as Hiff. cbn zeta in Hiff. fold k in Hiff.
      change (place c' b) with (place c b). cbn [mem set_store buffer_pa c']. unfold copy_range. rewrite Hc.
      destruct (decide (a ≤ b < a + n)) as [Hb|Hb].
      * pose proof (proj2 Hiff Hb). rewrite !(proj2 (Z.leb_le _ _)), !(proj2 (Z.ltb_lt _ _)) by lia. cbn [andb].
        f_equal. destruct (place_shift c a (b - a) k Hwf) as (_ & _ & _ & Ep); [lia|lia|done|].
        replace (a + (b - a)) with b in Ep by lia. lia.
      * assert (¬ place c a ≤ place c b < place c a + n) as Hno by tauto. clear Hiff.
        assert ((buffer_pa c + place c a <=? buffer_pa c + place c b)
                && (buffer_pa c + place c b <? buffer_pa c + place c a + n) = false) as -> by lia.
        assert ((a <=? b) && (b <? a + n) = false) as -> by lia. done.
    + cbn [store set_store c']. unfold copy_range. rewrite Hc.
      assert ((a <=? b) && (b <? a + n) = false) as ->; [|done]. apply not_true_iff_false. intros Hb.
      assert (a ≤ b < a + n) as Hb' by lia.
      destruct (place_shift c a (b - a) k Hwf) as (Hj & Et & Es & _); [lia|lia|done|].
      replace (a + (b - a)) with b in Et, Es by lia.
      by rewrite (resident_cached c _ _ _ _ (Hres _ Hj) Et Es) in Hc.
Qed.

(** Writing updates the view, when no chunk it hits is clean. *)
Lemma write_bytes_spec c g o src : wf c → coherent c → let n := Z.of_nat (length src) in fits c g o n →
  let a := byte_of c g o in
  (∀ j, 0 ≤ j < div_ceil n PAGE_SIZE → ¬ clean_hit c (tag_of c a) (slot c a + j)) →
  match write_bytes g o src c with
  | Ok _ c' => same c c' ∧ coherent c'
      ∧ ∀ b, view c' b = copy_range (λ i, default 0 (src !! Z.to_nat i)) 0 (view c) a n b
  | Err _ _ => True
  | Stop _ => False
  end.
Proof.
  intros Hwf Hco n Hfit a Hclean. unfold write_bytes. rewrite bind_unfold. fold n.
  pose proof (locate_spec c g o n true Hwf Hco Hfit (λ _, Hclean)) as Hl. cbn zeta in Hl. fold a in Hl.
  destruct (locate g o n true c) as [offset c1|e c1|w]; [|done|done]. destruct Hl as (Hkeep & -> & Hres).
  pose proof Hkeep as (Hs & Hco1 & Hv). pose proof Hs as (_ & Ec & _ & _ & _ & _ & _ & Elen & Epa & _).
  destruct (access_end c g o n Hwf Hfit) as [Hp He]. fold a in Hp, He. destruct (wf_pa c Hwf) as [Hpa Hlen].
  unfold buffer_write. erewrite bind_run by reflexivity. cbv beta. fold n.
  erewrite bind_run by (apply lift_Ok; split; [apply uadd_ok; lia|done]). cbv beta.
  rewrite Elen, (proj2 (Z.leb_le _ _)) by lia. unfold put.
  destruct Hfit as (_ & _ & Hn & _ & Hin & Hslot). fold a in Hin, Hslot.
  destruct (same_place c c1 a Hs) as (Es & Et & Ep).
  pose proof (buffer_update c1 a n (λ i, default 0 (src !! Z.to_nat i)) (same_wf _ _ Hs Hwf) Hco1 Hn) as Hu.
  cbn zeta in Hu. rewrite Es, Et, Ep, Ec in Hu. destruct (Hu Hin Hslot Hres) as [Hco2 Hv2].
  split_and!; [|done|].
  - transitivity c1; [done|]. by repeat split.
  - intros b. rewrite Hv2. unfold copy_range. by rewrite Hv.
Qed.

(** *** Histories *)

Lemma new_spec s m b pages pa : supported_block_size s = 2 ^ b → 6 ≤ b ≤ 10 → 1 ≤ pages < 2 ^ 51 →
  0 ≤ pa → pa + pages * PAGE_SIZE < 2 ^ 63 →
  ∃ c, new s m pages (Some pa) = Some (Some c) ∧ wf c ∧ coherent c ∧ block_size c = 2 ^ b
       ∧ ∀ a, view c a = disk s a.
Proof.
  intros Hbs Hb Hpg Hpa Hend.
  assert (2 ^ b * 2 ^ (12 - b) = PAGE_SIZE) as Hpow
    by (rewrite <- Z.pow_add_r by lia; by replace (b + (12 - b)) with 12 by lia).
  assert (0 < 2 ^ b ≤ 2 ^ 10) as Hbr by (split; [apply Z.pow_pos_nonneg|apply Z.pow_le_mono_r]; lia).
  unfold new. rewrite Hbs, (proj2 (Z.ltb_lt _ _)) by plia. rewrite (proj2 (Z.eqb_neq _ _)) by lia.
  cbn [mbind option_bind]. unfold ilog2. rewrite (proj2 (Z.ltb_lt _ pages)) by lia. cbn [mbind option_bind].
  assert (PAGE_SIZE / 2 ^ b = 2 ^ (12 - b)) as -> by (rewrite <- Hpow, Z.mul_comm; apply Z.div_mul; lia).
  rewrite (proj2 (Z.ltb_lt _ _)) by (apply Z.pow_pos_nonneg; lia). cbn [mbind option_bind].
  rewrite Z.log2_pow2 by lia. eexists. split; [done|].
  assert (∀ k md, replicate (Z.to_nat pages) 0 !! k = Some md → occupied md = false ∧ dirty md = false) as Hmd.
  { intros k md [-> _]%lookup_replicate_1. unfold occupied, dirty. by rewrite !bit_0. }
  split_and!.
  - split; cbn [block_offset_bits chunk_id_bits block_size chunk_size blocks_per_chunk num_chunks metadata buffer_len
      buffer_pa store]; try done; try lia.
    + split; [apply Z.log2_nonneg|]. assert (Z.log2 pages < 51); [|lia]. by apply Z.log2_lt_pow2; lia.
    + apply Z.log2_spec. lia.
    + rewrite length_replicate. lia.
  - intros id md Hid [Ho Hd]%Hmd. unfold chunk_ok. by rewrite Ho, Hd.
  - done.
  - intros a. unfold view, cached. cbn [metadata]. destruct (_ !! _) as [md|] eqn:E; [|done].
    apply Hmd in E as [-> _]. done.
Qed.

Inductive access :=
  | Copy (address byte_offset n : Z)
  | Write (address byte_offset : Z) (src : list Z).

Definition run_access (x : access) : M (BlockCache S) StorageError (list Z) :=
  match x with
  | Copy g o n => copy_bytes g o n
  | Write g o src => write_bytes g o src;; mret []
  end.

(** The accesses that the cache gets right: they fit, and a write finds no clean chunk. *)
Definition allowed c (x : access) : Prop :=
  match x with
  | Copy g o n => fits c g o n
  | Write g o src =>
      let n := Z.of_nat (length src) in let a := byte_of c g o in
      fits c g o n ∧ ∀ j, 0 ≤ j < div_ceil n PAGE_SIZE → ¬ clean_hit c (tag_of c a) (slot c a + j)
  end.

(** Accesses that all succeed, with what they return. *)
Inductive history : BlockCache S → list access → list (list Z) → BlockCache S → Prop :=
  | hist_nil c : history c [] [] c
  | hist_cons c x r c1 l rs c' : allowed c x → run_access x c = Ok r c1 → history c1 l rs c' →
      history c (x :: l) (r :: rs) c'.

(** The same accesses on an array of bytes. *)
Definition spec_access (block_size : Z) (x : access) (d : memory) : list Z * memory :=
  match x with
  | Copy g o n => ((λ i, d (g * block_size + o + Z.of_nat i)) <$> seq 0 (Z.to_nat n), d)
  | Write g o src =>
      ([], copy_range (λ i, default 0 (src !! Z.to_nat i)) 0 d (g * block_size + o) (Z.of_nat (length src)))
  end.
Fixpoint spec_run (block_size : Z) (l : list access) (d : memory) : list (list Z) * memory :=
  match l with
  | [] => ([], d)
  | x :: l' => let '(r, d1) := spec_access block_size x d in
               let '(rs, d') := spec_run block_size l' d1 in (r :: rs, d')
  end.

Lemma access_spec c x d : wf c → coherent c → allowed c x → (∀ a, view c a = d a) →
  match run_access x c with
  | Ok r c' => same c c' ∧ coherent c' ∧ r = (spec_access (block_size c) x d).1
               ∧ ∀ a, view c' a = (spec_access (block_size c) x d).2 a
  | Err _ _ => True
  | Stop _ => False
  end.
Proof.
  intros Hwf Hco Hal Hv. destruct x as [g o n|g o src]; cbn [run_access spec_access fst snd].
  - pose proof (copy_bytes_spec c g o n Hwf Hco Hal) as Hr.
    destruct (copy_bytes g o n c) as [r c'|e c'|w]; [|done|done]. destruct Hr as ((Hs & Hco' & Hv') & ->).
    split_and!; [done|done| |intros a; by rewrite Hv'].
    apply list_fmap_ext. intros i x _. unfold byte_of. by rewrite Hv.
  - destruct Hal as [Hfit Hclean]. pose proof (write_bytes_spec c g o src Hwf Hco Hfit Hclean) as Hr.
    rewrite bind_unfold. destruct (write_bytes g o src c) as [[] c'|e c'|w]; [|done|done].
    destruct Hr as (Hs & Hco' & Hv'). unfold mret, M_ret. split_and!; [done|done|done|].
    intros a. rewrite Hv'. unfold copy_range, byte_of. by rewrite Hv.
Qed.

Lemma history_spec c l rs c' : history c l rs c' → ∀ d, wf c → coherent c → (∀ a, view c a = d a) →
  wf c' ∧ coherent c' ∧ block_size c' = block_size c ∧ rs = (spec_run (block_size c) l d).1
  ∧ ∀ a, view c' a = (spec_run (block_size c) l d).2 a.
Proof.
  induction 1 as [c|c x r c1 l rs c' Hal Hrun _ IH]; intros d Hwf Hco Hv; [done|].
  pose proof (access_spec c x d Hwf Hco Hal Hv) as Hx. rewrite Hrun in Hx. destruct Hx as (Hs & Hco1 & Hr & Hv1).
  cbn [spec_run]. destruct (spec_access (block_size c) x d) as [r' d1]. cbn [fst snd] in Hr, Hv1. subst r'.
  destruct (IH d1 (same_wf _ _ Hs Hwf) Hco1 Hv1) as (Hwf' & Hco' & Hbs & Hrs & Hv').
  assert (block_size c1 = block_size c) as E by apply Hs. rewrite E in *.
  destruct (spec_run (block_size c) l d1) as [rs' d']. cbn [fst snd] in *.
  split_and!; [done|done|done|congruence|done].
Qed.

(** C16: through the cache, a device reads and writes as an array of bytes. For every block
    store that keeps its promises and has no short transfers, with blocks of 64 to 1024 bytes,
    and a cache of any size: after any history of accesses that fit into the chunks loaded for
    them and do not write to a clean chunk, every read has returned the bytes last written (or
    those of the device), evictions and reloads included; and the next such access returns, with
    success or with an error of the store, but does not panic. *)
Theorem cache_refines_device (s : S) (m : memory) (b pages pa : Z) (l : list access) (rs : list (list Z))
    (c c' : BlockCache S) :
  supported_block_size s = 2 ^ b → 6 ≤ b ≤ 10 → 1 ≤ pages < 2 ^ 51 → 0 ≤ pa → pa + pages * PAGE_SIZE < 2 ^ 63 →
  new s m pages (Some pa) = Some (Some c) → history c l rs c' →
  rs = (spec_run (2 ^ b) l (disk s)).1
  ∧ (∀ a, view c' a = (spec_run (2 ^ b) l (disk s)).2 a)
  ∧ ∀ x, allowed c' x → returns (run_access x c').
Proof.
  intros Hbs Hb Hpg Hpa Hend Hnew Hhist.
  destruct (new_spec s m b pages pa Hbs Hb Hpg Hpa Hend) as (c0 & Hnew0 & Hwf & Hco & Hc & Hv). simplify_eq.
  destruct (history_spec _ _ _ _ Hhist _ Hwf Hco Hv) as (Hwf' & Hco' & Hbs' & Hrs & Hv'). rewrite Hc in *.
  split_and!; [done|done|]. intros x Hx. pose proof (access_spec c' x _ Hwf' Hco' Hx Hv') as Hr.
  by destruct (run_access x c').
Qed.
End cache.

(** *** A device in memory *)

(** Blocks of 1024 bytes, the contents given by a function. *)
Record RamDisk := { bytes : memory }.

#[export, refine] Instance ram_disk : BlockStore RamDisk := {
  supported_block_size _ := 1024;
  read_blocks s m src dests := (s, scatter 1024 (bytes s) src dests m, inl (block_count dests));
  write_blocks s m srcs dst :=
    ({| bytes := gather 1024 m srcs dst (bytes s) |}, inl (block_count srcs));
  disk := bytes;
}.
Proof.
  - by intros s m src dests s' m' r [= <- <- <-].
  - by intros s m srcs dst s' r [= <- <-].
Defined.

#[export, refine] Instance ram_disk_full : FullTransfers RamDisk := {}.
Proof. all: by intros; simplify_eq/=. Defined.

#[local] Existing Instance concrete_bit_field.

Definition zeroes : RamDisk := {| bytes := λ _, 0 |}.
Definition sample_cache : BlockCache RamDisk :=
  match new zeroes (λ _, 7) 2 (Some 0x8000) with
  | Some (Some c) => c
  | _ => {| store := zeroes; block_offset_bits := 0; chunk_id_bits := 0; block_size := 0; chunk_size := 0;
            blocks_per_chunk := 0; num_chunks := 0; metadata := []; buffer_len := 0; buffer_pa := 0; mem := λ _, 0 |}
  end.

Definition after_access (x : access) (c : BlockCache RamDisk) : BlockCache RamDisk :=
  match run_access x c with Ok _ c' => c' | _ => c end.
Definition result_of (x : access) (c : BlockCache RamDisk) : list Z :=
  match run_access x c with Ok r _ => r | _ => [] end.

Lemma run_access_ok x c : is_ok (run_access x c) = true → run_access x c = Ok (result_of x c) (after_access x c).
Proof. unfold result_of, after_access. by destruct (run_access x c). Qed.

(** Write, read back, evict by a read of a chunk that shares the slot, and read again. *)
Definition sample_accesses : list access :=
  [Write 5 100 [1; 2; 3]; Copy 5 100 3; Copy 13 0 2; Copy 5 99 4].

Definition cache1 := after_access (Write 5 100 [1; 2; 3]) sample_cache.
Definition cache2 := after_access (Copy 5 100 3) cache1.
Definition cache3 := after_access (Copy 13 0 2) cache2.

(** The property holds of that history: the last read gives what was written before the eviction. *)
Lemma cache_refines_device_witness :
  result_of (Copy 5 99 4) cache3 = [0; 1; 2; 3].
Proof.
  assert (history sample_cache sample_accesses
            [result_of (Write 5 100 [1; 2; 3]) sample_cache; result_of (Copy 5 100 3) cache1;
             result_of (Copy 13 0 2) cache2; result_of (Copy 5 99 4) cache3]
            (after_access (Copy 5 99 4) cache3)) as Hh.
  { repeat eapply hist_cons; try (apply run_access_ok; vm_compute; reflexivity).
    - split; [repeat split; vm_compute; congruence|].
      intros j Hj (md & Hmd & Ho & _ & _). assert (j = 0) as ->.
      { change (div_ceil (Z.of_nat (length [1; 2; 3])) PAGE_SIZE) with 1 in Hj. lia. }
      vm_compute in Hmd. injection Hmd as <-. by vm_compute in Ho.
    - repeat split; vm_compute; congruence.
    - repeat split; vm_compute; congruence.
    - repeat split; vm_compute; congruence.
    - apply hist_nil. }
  apply (cache_refines_device zeroes (λ _, 7) 10 2 0x8000) in Hh as [Hrs _];
    [|reflexivity|lia|lia|lia|plia|reflexivity].
  apply (f_equal (λ l, l !! 3%nat)) in Hrs. change (Some (result_of (Copy 5 99 4) cache3) =
    (spec_run (2 ^ 10) sample_accesses (disk zeroes)).1 !! 3%nat) in Hrs.
  assert ((spec_run (2 ^ 10) sample_accesses (disk zeroes)).1 !! 3%nat = Some [0; 1; 2; 3]) as E
    by (vm_compute; reflexivity).
  rewrite E in Hrs. exact (inj Some _ _ Hrs).
Defined.

(** A write can be lost. When the chunk is already in the cache and clean, writing to it does not mark it
    dirty, so that the next eviction drops the data: a read, a write to the bytes just read, a read of
    another chunk that shares the slot, and a read of what was written, which gives the old contents. *)
Theorem cache_loses_write : ∃ ca cb cc cd,
  run_access (Copy 5 100 3) sample_cache = Ok [0; 0; 0] ca
  ∧ run_access (Write 5 100 [1; 2; 3]) ca = Ok [] cb
  ∧ (∃ c, run_access (Copy 5 100 3) cb = Ok [1; 2; 3] c)
  ∧ run_access (Copy 13 0 1) cb = Ok [0] cc
  ∧ run_access (Copy 5 100 3) cc = Ok [0; 0; 0] cd.
Proof.
  set (ca := after_access (Copy 5 100 3) sample_cache). set (cb := after_access (Write 5 100 [1; 2; 3]) ca).
  set (cc := after_access (Copy 13 0 1) cb). exists ca, cb, cc, (after_access (Copy 5 100 3) cc).
  assert (∀ x c r, is_ok (run_access x c) = true → result_of x c = r → run_access x c = Ok r (after_access x c)) as Hok.
  { intros x c r Hx <-. by apply run_access_ok. }
  split_and!; [| |eexists| |]; apply Hok; vm_compute; reflexivity.
Qed.
