(* ===== verification/Error.v ===== *)
(** The kernel's error type ([kernel/src/error.rs]), that of file systems
    ([kernel/src/fs/mod.rs]) and the codes user space sees
    ([kapi/src/completions.rs]). *)
From Stdlib Require Import Strings.String.
From S2P Require Import Prelude Addresses BlockCache RegPath.

(** [kapi::completions::ErrorCode]; three of its names are those of errors elsewhere. *)
Inductive ErrorCode :=
  | UnknownCommand
  | UnsupportedOperation
  | CodeOutOfMemory
  | CodeNotFound
  | CodeOutOfBounds
  | OutOfIds
  | BadFormat
  | Device
  | InvalidId
  | InvalidSize
  | InvalidPointer
  | InvalidUtf8
  | InUse
  | Internal.

Inductive FsError :=
  | BadMetadata (message : string) (value : Z)
  | OutOfBounds (value bound : Z) (message : string).

Arguments BadMetadata message%_string_scope value.
Arguments OutOfBounds value bound message%_string_scope.

(** Of [Utf8] and [Other] only what [as_code] looks at. *)
Inductive Error :=
  | Memory (reason : string) (source : MemoryError)
  | Registry (reason : string) (source : RegistryError)
  | Storage (reason : string) (source : StorageError)
  | FileSystem (reason : string) (source : FsError)
  | Utf8 (reason : string)
  | Inner (reason : string) (source : Error)
  | Misc (reason : string) (code : option ErrorCode)
  | Other (reason : string) (code : option ErrorCode).

Arguments Memory reason%_string_scope source.
Arguments Registry reason%_string_scope source.
Arguments Storage reason%_string_scope source.
Arguments FileSystem reason%_string_scope source.
Arguments Inner reason%_string_scope source.
Arguments Misc reason%_string_scope code.

(** [None] is the [todo!()]. *)
Fixpoint as_code (self : Error) : option ErrorCode :=
  match self with
  | Memory _ OutOfMemory | Memory _ (InsufficentForAllocation _) => Some CodeOutOfMemory
  | Memory _ (Map InvalidTag) | Memory _ (Map (CopyFromUnmapped _ _)) => Some InvalidPointer
  | Memory _ _ => Some Internal
  | Registry _ (NotFound _) => Some CodeNotFound
  | Registry _ Unsupported => Some UnsupportedOperation
  | Registry _ InvalidPath => Some BadFormat
  | Registry _ (HandlerAlreadyRegistered _) => Some Internal
  | Storage _ (BadVector _ _) => Some BadFormat
  | Storage _ (DeviceError _) => Some Device
  | Storage _ (StorageMemory _) => None
  | FileSystem _ (OutOfBounds _ _ _) => Some CodeOutOfBounds
  | FileSystem _ _ => Some Internal
  | Utf8 _ => Some InvalidUtf8
  | Misc _ (Some code) => Some code
  | Other _ (Some code) => Some code
  | Inner _ source => as_code source
  | _ => Some Internal
  end.
