(* ===== verification/Process.v ===== *)
(** Processes and their memory: [kernel/src/process/mod.rs] and the queue commands of
    [kernel/src/process/commands.rs].

    A process has a page table, an allocator for its address space and the queues it shares
    with the kernel.  The operations here run against the state of the whole kernel memory
    ([KernelMem]) and of one process. *)
From S2P Require Import Prelude BitField Addresses PhysAlloc VirtAlloc Frames PageEntry Paging.
From S2P Require Import PagingTree MapRange UnmapRange PagingIter Spaces PhysBuffer MsgQueue Error.

(** *** State *)

(** [T] of a [UserQueue<T>] *)
Inductive message := CommandMsg | CompletionMsg.

(** The sizes the compiler gives [Counters] and [Slot<T>], and the latter's alignment. *)
Record Layouts := {
  counters_size : Z;
  slot_size : message → Z;
  slot_align : message → Z;
}.

Record UserQueue := {
  uq_kind : message;
  uq_queue : Queue;
  uq_root_address : Z;         (* the kernel's address of the queue *)
  user_base_address : Z;
}.

Record Process := {
  pid : Z;
  page_tables : PageTable;
  address_space_allocator : VirtualAddressAllocator;
  next_queue_id : Z;           (* [AtomicU16] *)
  send_queues : list (UserQueue * UserQueue);
  recv_queues : list UserQueue;
}.

Record System := {
  mem : KernelMem;
  proc : Process;
}.

Abbreviation PM := (M System Error).

Definition set_mem (s : System) (k : KernelMem) : System := {| mem := k; proc := proc s |}.
Definition set_proc (s : System) (p : Process) : System := {| mem := mem s; proc := p |}.
Definition set_address_space (p : Process) (v : VirtualAddressAllocator) : Process :=
  {| pid := pid p; page_tables := page_tables p; address_space_allocator := v;
     next_queue_id := next_queue_id p; send_queues := send_queues p; recv_queues := recv_queues p |}.
Definition set_next_queue_id (p : Process) (n : Z) : Process :=
  {| pid := pid p; page_tables := page_tables p; address_space_allocator := address_space_allocator p;
     next_queue_id := n; send_queues := send_queues p; recv_queues := recv_queues p |}.
Definition set_queues (p : Process) (sq : list (UserQueue * UserQueue)) (rq : list UserQueue) : Process :=
  {| pid := pid p; page_tables := page_tables p; address_space_allocator := address_space_allocator p;
     next_queue_id := next_queue_id p; send_queues := sq; recv_queues := rq |}.

(** [.context(MemorySnafu { reason })] around a call into the memory subsystem. *)
Definition in_mem {A} (reason : string) (f : KM A) : PM A := λ s,
  match f (mem s) with
  | Ok a k => Ok a (set_mem s k)
  | Err e k => Err (Memory reason e) (set_mem s k)
  | Stop w => Stop w
  end.
Definition in_space {A} (reason : string) (f : VAA A) : PM A := λ s,
  match f (address_space_allocator (proc s)) with
  | Ok a v => Ok a (set_proc s (set_address_space (proc s) v))
  | Err e v => Err (Memory reason e) (set_proc s (set_address_space (proc s) v))
  | Stop w => Stop w
  end.
Arguments in_mem {A} reason%_string_scope f.
Arguments in_space {A} reason%_string_scope f.

Section process.
Context `{BF : BitField} (kernel_table : PageTable) (L : Layouts).

(** *** Memory *)

Definition user_options : PageTableEntryOptions := {| read_only := false; el0_access := true |}.

(** [while page_count > 0]: every round takes at least one page. *)
Fixpoint alloc_pages (fuel : nat) (vaddr : Z) (kvaddr : option Z) (page_count offset : Z) : PM unit :=
  if 0 <? page_count then
    match fuel with
    | O => out_of_fuel
    | S fuel' =>
        '(paddr, size) ← in_mem "allocate physical memory for process"
                           (with_pma (try_alloc_contig page_count));
        s ← get;
        in_mem "map new memory into process address space"
          (with_tabs (map_range (page_tables (proc s)) paddr (VirtualAddress.add vaddr offset) size true
                        user_options));;
        match kvaddr with
        | None => mret tt
        | Some kv =>
            in_mem "map new memory into kernel address space"
              (with_tabs (map_range kernel_table paddr (VirtualAddress.add kv offset) size true
                            user_options))
        end;;
        bytes ← lift (umul size PAGE_SIZE);
        offset' ← lift (uadd offset bytes);
        page_count' ← lift (usub page_count size);
        alloc_pages fuel' vaddr kvaddr page_count' offset'
    end
  else mret tt.

Definition alloc_memory (page_count : Z) (share_with_kernel : bool) : PM (Z * option Z) :=
  vaddr ← in_space "allocate virtual addresses for memory region in process"
            (VirtAlloc.alloc page_count);
  kvaddr ← (if share_with_kernel then
              kv ← in_mem "allocate virtual addresses for memory region in kernel"
                     (with_kva (VirtAlloc.alloc page_count));
              mret (Some kv)
            else mret None);
  alloc_pages (Z.to_nat page_count) vaddr kvaddr page_count 0;;
  mret (vaddr, kvaddr).

(** [free_pages] is called for each region as it is unmapped; it does not touch the page
    tables, so the order does not matter. *)
Definition free_memory (ptr page_count : Z) : PM unit :=
  s ← get;
  regions ← in_mem "" (with_tabs (unmap_range_custom (page_tables (proc s)) ptr page_count));
  in_mem "" (for_each (λ r, with_pma (free_pages (base_phys_addr r) (Paging.page_count r))) regions);;
  in_space "" (VirtAlloc.free ptr page_count).

(** The system calls [HeapAllocate], with what it writes back, and [HeapFree]. *)
Definition heap_allocate (size : Z) : PM (Z * Z) := λ s,
  let page_count := div_ceil size PAGE_SIZE in
  match alloc_memory page_count false s with
  | Ok (addr, _) s' => (bytes ← lift (umul page_count PAGE_SIZE); mret (addr, bytes)) s'
  | Err _ s' => Ok (0, 0) s'
  | Stop w => Stop w
  end.

Definition heap_free (ptr size : Z) : PM unit := free_memory ptr (div_ceil size PAGE_SIZE).

(** *** Queues *)

(** The loop of [compare_exchange_weak] ends with one exchange that succeeds; the file
    [QueueIds] is about what other threads do in between. *)
Definition take_queue_id : PM Z :=
  s ← get;
  let id := next_queue_id (proc s) in
  if id =? 0 then throw (Misc "ran out of queue IDs for process" (Some OutOfIds))
  else put (set_proc s (set_next_queue_id (proc s) ((id + 1) mod 2 ^ 16)));; mret id.

Definition queue_pages (t : message) (num_elements : Z) : option Z :=
  bytes ← queue_size_in_bytes (counters_size L) (slot_size L t) (slot_align L t) num_elements;
  Some (div_ceil bytes PAGE_SIZE).

Definition create_queue (t : message) (num_elements : Z) : PM (UserQueue * (Z * Z)) :=
  if num_elements =? 0 then throw (Misc "queue must have at least a capacity of 1, got 0" (Some InvalidSize))
  else
    id ← take_queue_id;
    page_count ← lift (queue_pages t num_elements);
    '(user_base_address, kernel_base_address) ← alloc_memory page_count true;
    kernel_base_address ← lift kernel_base_address;
    assert (negb (kernel_base_address =? 0));;
    queue ← lift (MsgQueue.new id num_elements);
    mret ({| uq_kind := t; uq_queue := queue; uq_root_address := kernel_base_address;
             user_base_address := user_base_address |}, (id, user_base_address)).

(** The user and kernel addresses of a queue and its number of pages. *)
Definition memory_region (q : UserQueue) : option (Z * Z * Z) :=
  n ← queue_pages (uq_kind q) (capacity (uq_queue q));
  Some (user_base_address q, uq_root_address q, n).

Definition create_completion_queue (size : Z) : PM (Z * Z) :=
  '(oq, nq) ← create_queue CompletionMsg size;
  s ← get;
  put (set_proc s (set_queues (proc s) (send_queues (proc s)) (oq :: recv_queues (proc s))));;
  mret nq.

Definition has_id (i : Z) (q : UserQueue) : bool := MsgQueue.id (uq_queue q) =? i.

Definition create_submission_queue (size associated_completion_queue : Z) : PM (Z * Z) :=
  s ← get;
  match find (has_id associated_completion_queue) (recv_queues (proc s)) with
  | None => throw (Misc "completion queue not found" (Some InvalidId))
  | Some rq =>
      '(oq, nq) ← create_queue CommandMsg size;
      s ← get;
      put (set_proc s (set_queues (proc s) ((oq, rq) :: send_queues (proc s)) (recv_queues (proc s))));;
      mret nq
  end.

(** [ConcurrentLinkedList::remove_cloned]: the first element that satisfies the predicate. *)
Fixpoint remove_first {A} (f : A → bool) (l : list A) : option A * list A :=
  match l with
  | [] => (None, [])
  | x :: l' => if f x then (Some x, l') else let '(o, l'') := remove_first f l' in (o, x :: l'')
  end.

(** [Option::or] evaluates both of its arguments. *)
Definition destroy_queue (i : Z) : PM unit :=
  s ← get;
  if existsb (λ x, has_id i (snd x)) (send_queues (proc s)) then
    throw (Misc "completion queue still in use" (Some InUse))
  else
    let '(rq, rqs) := remove_first (has_id i) (recv_queues (proc s)) in
    let '(sq, sqs) := remove_first (λ x, has_id i (fst x)) (send_queues (proc s)) in
    put (set_proc s (set_queues (proc s) sqs rqs));;
    match (match rq with Some q => Some q | None => option_map fst sq end) with
    | None => throw (Misc "queue ID unknown" (Some InvalidId))
    | Some q =>
        '(user_addr, kernel_addr, page_count) ← lift (memory_region q);
        free_memory user_addr page_count;;
        in_mem "" (with_tabs (unmap_range kernel_table kernel_addr page_count))
    end.

(** *** The end of a process *)

(** [Drop for Process], and then that of its [PageTable]: the addresses of the queues are
    given back to the kernel's allocator, and every mapped frame to the physical one. *)
Definition drop_process (fuel : nat) : PM unit :=
  s ← get;
  for_each (λ q, '(_, addr, n) ← lift (memory_region q); in_mem "" (with_kva (VirtAlloc.free addr n)))
    (map fst (send_queues (proc s)) ++ recv_queues (proc s));;
  s ← get;
  let T := tables (ktabs (mem s)) in
  it ← lift (iter T (page_tables (proc s)));
  match collect T fuel it with
  | Stop w => λ _, Stop w
  | Err e _ => match e with end
  | Ok regions _ =>
      in_mem "" (for_each (λ r, with_pma (free_pages (base_phys_addr r) (Paging.page_count r))) regions);;
      in_mem "" (with_tabs (drop_PageTable (page_tables (proc s))))
  end.
End process.
