(* ===== verification/ProcMem.v ===== *)
(** Memory of processes: [alloc_memory] and [free_memory] keep processes apart.

    [own] says of each frame which page of which process it backs.  [isolated] is the
    property that no page table of a process leads anywhere else: two processes, or two
    pages of one process, never share a frame.  Page tables are never among those frames
    ([forest]). *)
From S2P Require Import Prelude BitField Addresses PhysAlloc VirtAlloc Frames PageEntry Paging.
From S2P Require Import PagingTree MapRange UnmapRange PagingIter Spaces PhysBuffer MsgQueue Error Process.
From Stdlib Require Import Sorting.Sorted.

Definition page_base (a : Z) : Z := a - a mod PAGE_SIZE.

(** Frames [pa..] now back the pages [va..] of the table [r]. *)
Definition claim (own : Z → option (Z * Z)) (r va pa n : Z) : Z → option (Z * Z) := λ f,
  if (f mod PAGE_SIZE =? 0) && (pa <=? f) && (f <? pa + n * PAGE_SIZE)
  then Some (r, va + (f - pa)) else own f.

Lemma claim_in own r va pa n f : frames_of pa n f → claim own r va pa n f = Some (r, va + (f - pa)).
Proof. intros [Hm Hr]. unfold claim. replace (_ && _ && _) with true; [done|]. rewrite Hm. lia. Qed.
Lemma claim_out own r va pa n f : ¬ frames_of pa n f → claim own r va pa n f = own f.
Proof.
  intros Hn. unfold claim. destruct ((f mod PAGE_SIZE =? 0) && (pa <=? f) && (f <? pa + n * PAGE_SIZE)) eqn:E;
    [|done]. exfalso. apply Hn. apply andb_true_iff in E as [[E1 E2]%andb_true_iff E3].
  apply Z.eqb_eq in E1. split; [done|]. lia.
Qed.
Lemma claim_Some own r va pa n f : claim own r va pa n f ≠ None → own f ≠ None ∨ frames_of pa n f.
Proof.
  unfold claim. destruct ((f mod PAGE_SIZE =? 0) && (pa <=? f) && (f <? pa + n * PAGE_SIZE)) eqn:E; [|by left].
  right. apply andb_true_iff in E as [[E1 E2]%andb_true_iff E3]. apply Z.eqb_eq in E1. split; [done|]. lia.
Qed.

Section alignment.
Context `{BF : BitField} (kernel_table : PageTable).
Implicit Types (t : Tables PhysicalMemoryAllocator) (pt : PageTable).

(** The blocks that [map_range] makes of a run of frames are right, for the process and for the
    kernel. *)
Definition run_aligned (pa a : Z) (ka : option Z) (m : Z) : bool :=
  bool_decide (blocks_aligned pa a m) &&
  match ka with Some kb => bool_decide (blocks_aligned pa kb m) | None => true end.

Lemma run_aligned_iff pa a ka m : run_aligned pa a ka m = true ↔
  blocks_aligned pa a m ∧ ∀ kb, ka = Some kb → blocks_aligned pa kb m.
Proof.
  unfold run_aligned. rewrite andb_true_iff, bool_decide_eq_true. destruct ka as [kb|].
  - rewrite bool_decide_eq_true. naive_solver.
  - naive_solver.
Qed.

(** Each of the runs that [alloc_pages] is going to map at [a..] and [ka..] is aligned.  Runs of
    fewer than 512 pages always are. *)
Fixpoint runs_aligned (fuel : nat) pt (a : Z) (ka : option Z) (n : Z) t : bool :=
  match fuel with
  | O => true
  | S fuel' =>
      match try_alloc_contig n (frames t) with
      | Ok (pa, m) al => run_aligned pa a ka m &&
          match map_range pt pa a m true user_options (set_frames t al) with
          | Ok _ t2 =>
              match ka with
              | None => runs_aligned fuel' pt (a + m * PAGE_SIZE) None (n - m) t2
              | Some kb =>
                  match map_range kernel_table pa kb m true user_options t2 with
                  | Ok _ t3 => runs_aligned fuel' pt (a + m * PAGE_SIZE) (Some (kb + m * PAGE_SIZE)) (n - m) t3
                  | _ => true
                  end
              end
          | _ => true
          end
      | _ => true
      end
  end.

(** The same of [alloc_memory]. *)
Definition alloc_aligned (n : Z) (share : bool) (s : System) : bool :=
  match VirtAlloc.alloc n (address_space_allocator (proc s)) with
  | Ok a _ =>
      if share then
        match VirtAlloc.alloc n (kva (mem s)) with
        | Ok kb _ => runs_aligned (Z.to_nat n) (page_tables (proc s)) a (Some kb) n (ktabs (mem s))
        | _ => true
        end
      else runs_aligned (Z.to_nat n) (page_tables (proc s)) a None n (ktabs (mem s))
  | _ => true
  end.

Lemma try_alloc_size d (s s' : PhysicalMemoryAllocator) pa m : try_alloc_contig d s = Ok (pa, m) s' → 0 ≤ m ≤ d.
Proof.
  unfold try_alloc_contig. intros H. erewrite bind_run in H by done.
  destruct (skip_allocated _ _) as [[i pi]|]; [|done].
  apply bind_Ok in H as (d' & s1 & [[-> Hd]%usub_Some ->]%lift_Ok & H).
  pose proof (probe_run_spec d (Z.to_nat (d - 1)) pi.2 0) as Hp.
  destruct (probe_run _ _ _ _) as [c|]; [|by destruct (umul d PAGE_SIZE)].
  apply bind_Ok in H as (a & s2 & _ & H). injection H as _ <- _.
  destruct Hp as [[-> _]|(m' & rest & Hm & _ & ->)]; lia.
Qed.

Lemma small_runs fuel pt a ka n t : n < 512 → runs_aligned fuel pt a ka n t = true.
Proof.
  revert a ka n t. induction fuel as [|fuel IH]; intros a ka n t Hn; [done|]. cbn [runs_aligned].
  destruct (try_alloc_contig n (frames t)) as [[pa m] al|e al|w] eqn:Ha; [|done|done].
  apply try_alloc_size in Ha. apply andb_true_iff. split.
  { apply run_aligned_iff. split; [|intros kb _]; apply small_aligned; lia. }
  destruct (map_range _ _ _ _ _ _ _) as [[] t2|e t2|w]; [|done|done].
  destruct ka as [kb|]; [|apply IH; lia].
  destruct (map_range _ _ _ _ _ _ _) as [[] t3|e t3|w]; [apply IH; lia|done|done].
Qed.

Lemma small_alloc n share s : n < 512 → alloc_aligned n share s = true.
Proof.
  intros Hn. unfold alloc_aligned. destruct (VirtAlloc.alloc _ _) as [a v|e v|w]; [|done|done].
  destruct share; [|by apply small_runs]. destruct (VirtAlloc.alloc _ _) as [kb V|e V|w]; [by apply small_runs|done|done].
Qed.
End alignment.

Section isolation.
Context `{BF : BitField} (kernel_table : PageTable) (R : Z → Prop).
(** The roots of the tables of processes. *)
Context (user : Z → Prop).
Context (HR : R (level0_table kernel_table)) (Hkh : high_addresses kernel_table = true).
Context (Huser : ∀ r, user r → R r ∧ r ≠ level0_table kernel_table).
Implicit Types (own : Z → option (Z * Z)) (T : gmap Z LevelTable) (t : Tables PhysicalMemoryAllocator).
Implicit Types (pt : PageTable) (v : VirtualAddressAllocator).

Definition isolated own T : Prop := ∀ r va pa ro el0, user r → is_usize va →
  translate T false r va = Some (pa, ro, el0) → own (page_base pa) = Some (r, page_base va).

Definition owned own : Z → Prop := λ f, own f ≠ None.

(** The frames [alloc_memory] takes are nobody's. *)
Lemma take_frames own t d pa n a' : forest R (owned own) t →
  try_alloc_contig d (frames t) = Ok (pa, n) a' →
  1 ≤ n ≤ d ∧ 0 ≤ pa ∧ pa mod PAGE_SIZE = 0 ∧ pa + n * PAGE_SIZE ≤ 2 ^ 48 ∧
  (∀ f, frames_of pa n f → own f = None) ∧
  forest R (λ f, owned own f ∨ frames_of pa n f) (set_frames t a').
Proof.
  intros Hf Ha. destruct (try_alloc_contig_frames _ _ _ _ _ (forest_frames _ _ _ Hf) Ha)
    as (Hn & Hwf' & Hal & Ha0 & Hae & Hno & Hiff).
  split; [done|]. split; [done|]. split; [done|]. split; [done|]. split.
  - intros f Hfr. destruct (own f) eqn:Ho; [|done]. exfalso. apply (Hno f Hfr).
    apply (forest_data _ _ _ f Hf). unfold owned. by rewrite Ho.
  - apply (forest_take R (owned own) (frames_of pa n)); try done.
    intros q Hq. split; [apply Hq|by apply Hno].
Qed.

(** Mapping them for a process makes the process their owner. *)
Lemma isolated_claim own T T' pt v va pa k n : isolated own T → user (level0_table pt) →
  high_addresses pt = false → taken_range pt v va n → 0 ≤ k ≤ n → pa mod PAGE_SIZE = 0 →
  (∀ f, frames_of pa n f → own f = None) → mapped R pt pa va user_options T T' 0 k →
  isolated (claim own (level0_table pt) va pa k) T'.
Proof.
  intros Hiso Hu Hh Htk Hk Hpa Hfree Hm r p q ro el0 Hr Hp Htr.
  destruct (decide (r = level0_table pt ∧ va ≤ p < va + k * PAGE_SIZE)) as [[-> Hin]|Hout].
  - rewrite <- Hh in Htr.
    rewrite (translate_fresh R pt v pa va user_options T T' n k p Hm (proj1 (Huser _ Hu)) Htk Hk Hin) in Htr.
    injection Htr as <- _ _. pose proof (tr_aligned _ _ _ _ Htk) as Hva.
    unfold page_base. rewrite claim_in; [do 2 f_equal; pdlia|]. split; pdlia.
  - destruct (tag_ok false (tag_of p)) eqn:Htg; [|by rewrite translate_bad_tag in Htr].
    assert (translate T' false r p = translate T false r p) as Heq.
    { apply translate_ext. destruct (Huser _ Hr) as [HRr _]. specialize (Hm r p HRr Hp).
      rewrite decide_False in Hm; [apply Hm|].
      - intros ->. pose proof (tr_tag _ _ _ _ Htk) as Ht. rewrite Hh in Ht. by eapply tag_ok_unique.
      - rewrite Z.mul_0_l, Z.add_0_r. done. }
    rewrite Heq in Htr. specialize (Hiso r p q ro el0 Hr Hp Htr). rewrite claim_out; [done|].
    intros [Hf1 Hf2]. rewrite (Hfree (page_base q)) in Hiso; [done|]. split; [done|].
    unfold PAGE_SIZE in *. lia.
Qed.

(** Mapping or unmapping in the kernel's table does not concern the processes. *)
Lemma isolated_kernel own T T' va pa k options : isolated own T →
  mapped R kernel_table pa va options T T' 0 k → isolated own T'.
Proof.
  intros Hiso Hm r p q ro el0 Hr Hp Htr. apply (Hiso r p q ro el0 Hr Hp). rewrite <- Htr.
  destruct (Huser _ Hr) as [HRr Hne]. symmetry. apply translate_ext.
  specialize (Hm r p HRr Hp). rewrite decide_False in Hm by tauto. by apply Hm.
Qed.

Local Abbreviation kroot := (level0_table kernel_table).

(** Outside the new pages nothing changes; a table is asked only about its own half of the
    address space. *)
Definition keeps pt a (ka : option Z) n T T' : Prop := ∀ r va, R r → is_usize va →
  (r = level0_table pt → tag_ok (high_addresses pt) (tag_of va) = true) →
  (r = kroot → tag_ok true (tag_of va) = true) →
  ¬ (r = level0_table pt ∧ a ≤ va < a + n * PAGE_SIZE) →
  (∀ kb, ka = Some kb → ¬ (r = kroot ∧ kb ≤ va < kb + n * PAGE_SIZE)) →
  leaf T' r (idx va) = leaf T r (idx va).

Lemma keeps_widen pt a ka n T T' a' ka' n' : keeps pt a ka n T T' →
  (∀ va, a ≤ va < a + n * PAGE_SIZE → a' ≤ va < a' + n' * PAGE_SIZE) →
  (∀ kb va, ka = Some kb → kb ≤ va < kb + n * PAGE_SIZE →
     ∃ kb', ka' = Some kb' ∧ kb' ≤ va < kb' + n' * PAGE_SIZE) →
  keeps pt a' ka' n' T T'.
Proof.
  intros Hk Hin Hkin r va Hr Hu Ht1 Ht2 Hn1 Hn2. apply Hk; try done.
  - intros [-> H]. apply Hn1. split; [done|by apply Hin].
  - intros kb Hkb [-> H]. destruct (Hkin kb va Hkb H) as (kb' & Hkb' & H'). by apply (Hn2 kb').
Qed.

Lemma keeps_trans_mem pt a ka n T1 T2 T3 : keeps pt a ka n T1 T2 → keeps pt a ka n T2 T3 →
  keeps pt a ka n T1 T3.
Proof. intros H1 H2 r va Hr Hu Ht1 Ht2 Hn1 Hn2. rewrite H2 by done. by apply H1. Qed.

Lemma keeps_mapped_user pt v pa a ka n k T T' options : mapped R pt pa a options T T' 0 k →
  taken_range pt v a n → 0 ≤ k ≤ n → keeps pt a ka n T T'.
Proof.
  intros Hm Htk Hk r va Hr Hu Ht1 _ Hn1 _. specialize (Hm r va Hr Hu).
  rewrite decide_False in Hm; [apply Hm|].
  - intros Heq. eapply tag_ok_unique; [by apply Ht1|apply Htk].
  - intros [-> Hin]. apply Hn1. split; [done|]. unfold PAGE_SIZE in *. lia.
Qed.

Lemma keeps_mapped_kernel pt v pa kb a n k T T' options : mapped R kernel_table pa kb options T T' 0 k →
  taken_range kernel_table v kb n → 0 ≤ k ≤ n → keeps pt a (Some kb) n T T'.
Proof.
  intros Hm Htk Hk r va Hr Hu _ Ht2 _ Hn2. specialize (Hm r va Hr Hu).
  rewrite decide_False in Hm; [apply Hm|].
  - intros Heq. pose proof (tr_tag _ _ _ _ Htk) as Ht. rewrite Hkh in Ht.
    eapply tag_ok_unique; [by apply Ht2|exact Ht].
  - intros [-> Hin]. apply (Hn2 kb eq_refl). split; [done|]. unfold PAGE_SIZE in *. lia.
Qed.

(** The state after some pages were added, perhaps not all that were asked for. *)
Record consistent pt a ka n own t own' t' : Prop := {
  co_forest : forest R (owned own') t';
  co_isolated : isolated own' (tables t');
  co_own : ∀ f, own f ≠ None → own' f = own f;
  co_keeps : keeps pt a ka n (tables t) (tables t');
}.

(** The state after [n] pages were added at [a], and at [ka] in the kernel. *)
Record grown pt a ka n own t own' t' : Prop := {
  gr_consistent : consistent pt a ka n own t own' t';
  gr_user : ∀ d, 0 ≤ d < n * PAGE_SIZE → ∃ pa,
    translate (tables t') false (level0_table pt) (a + d) = Some (pa, false, true) ∧
    own (page_base pa) = None ∧
    ∀ kb, ka = Some kb → translate (tables t') true kroot (kb + d) = Some (pa, false, true);
  gr_exact : ∃ regions, mapped_exactly (tables t') (level0_table pt) a (a + n * PAGE_SIZE) regions ∧
    Forall region_aligned regions;
  gr_kernel : ∀ kb, ka = Some kb →
    ∃ regions, mapped_exactly (tables t') kroot kb (kb + n * PAGE_SIZE) regions;
}.

Lemma page_base_offset pa d n : pa mod PAGE_SIZE = 0 → 0 ≤ d < n * PAGE_SIZE →
  frames_of pa n (page_base (pa + d)).
Proof. intros Hpa Hd. unfold frames_of, page_base. split; pdlia. Qed.

(** One run of frames mapped for the process. *)
Lemma grow_user own t t1 t2 pt v pa a n m : forest R (owned own) t → isolated own (tables t) →
  user (level0_table pt) → high_addresses pt = false → fresh_range pt v (tables t) a n →
  1 ≤ m ≤ n → blocks_aligned pa a m → 0 ≤ pa → pa mod PAGE_SIZE = 0 → pa + m * PAGE_SIZE ≤ 2 ^ 48 →
  (∀ f, frames_of pa m f → own f = None) →
  forest R (λ f, owned own f ∨ frames_of pa m f) t1 → tables t1 = tables t →
  match map_range pt pa a m true user_options t1 with
  | Ok _ t2 => grown pt a None m own t (claim own (level0_table pt) a pa m) t2 ∧
      forest R (λ f, owned own f ∨ frames_of pa m f) t2 ∧
      mapped R pt pa a user_options (tables t) (tables t2) 0 m
  | Err _ t2 => ∃ own', consistent pt a None m own t own' t2
  | Stop _ => False
  end.
Proof.
  intros Hf Hiso Hu Hh Hfr Hm Hbl Hp0 Hpal Hpe Hfree Hf1 Heq.
  destruct (fresh_split pt v (tables t) a n m Hfr ltac:(lia) ltac:(lia)) as [[Htk Hun] _].
  rewrite <- Heq in Hun.
  pose proof (map_fresh R _ t1 pt v pa a m user_options Hf1 (proj1 (Huser _ Hu)) (conj Htk Hun) Hp0
    Hpal Hpe ltac:(lia) Hbl) as Ho.
  assert (∀ k t2, 0 ≤ k ≤ m → forest R (λ f, owned own f ∨ frames_of pa m f) t2 →
    mapped R pt pa a user_options (tables t) (tables t2) 0 k →
    consistent pt a None m own t (claim own (level0_table pt) a pa k) t2) as Hcon.
  { intros k t2' Hk Hf2 Hmap. split.
    - eapply forest_weaken; [exact Hf2|]. intros f [?|[? ?]]%claim_Some; [by left|].
      right. split; [done|]. unfold PAGE_SIZE in *. lia.
    - eapply isolated_claim; [exact Hiso|done|done|exact Htk|done|done|exact Hfree|exact Hmap].
    - intros f Hof. apply claim_out. intros [? ?]. apply Hof, Hfree. split; [done|].
      unfold PAGE_SIZE in *. lia.
    - by eapply keeps_mapped_user. }
  destruct (map_range _ _ _ _ _ _ _) as [[] s2|e s2|w]; [| |done]; rewrite Heq in Ho.
  - destruct Ho as (Hf2 & Hmap & regions & Hme). split_and!; [|done|done].
    split; [by apply Hcon; [lia|..]| |by exists regions|done].
    intros d Hd. exists (pa + d).
    pose proof (translate_fresh R pt v pa a user_options _ _ m m (a + d) Hmap (proj1 (Huser _ Hu)) Htk
      ltac:(lia) ltac:(lia)) as Htr.
    rewrite Hh in Htr. rewrite Htr. split; [by replace (a + d - a) with d by lia|]. split; [|done]. apply Hfree. by apply page_base_offset.
  - destruct Ho as (Hf2 & k & Hk & Hmap). eexists. by eapply Hcon.
Qed.

(** The same run mapped for the kernel as well. *)
Lemma grow_kernel own t own2 t2 pt v V pa a kb n m : grown pt a None m own t own2 t2 →
  user (level0_table pt) → high_addresses pt = false →
  mapped R pt pa a user_options (tables t) (tables t2) 0 m → fresh_range pt v (tables t) a n →
  fresh_range kernel_table V (tables t) kb n → 1 ≤ m ≤ n → blocks_aligned pa kb m → 0 ≤ pa →
  pa mod PAGE_SIZE = 0 → pa + m * PAGE_SIZE ≤ 2 ^ 48 → (∀ f, frames_of pa m f → own f = None) →
  match map_range kernel_table pa kb m true user_options t2 with
  | Ok _ t3 => grown pt a (Some kb) m own t own2 t3
  | Err _ t3 => consistent pt a (Some kb) m own t own2 t3
  | Stop _ => False
  end.
Proof.
  intros [[Hf2 Hiso2 Hown2 Hk2] _ (regions & Hme & Hag) _] Hu Hh Hm12 Hfr Hkfr Hm Hbl Hp0 Hpal Hpe Hfree.
  destruct (Huser _ Hu) as [HRu Hne].
  destruct (fresh_split _ _ _ _ _ m Hfr ltac:(lia) ltac:(lia)) as [[Htk _] _].
  destruct (fresh_split _ _ _ _ _ m Hkfr ltac:(lia) ltac:(lia)) as [Hkfm _].
  assert (fresh_range kernel_table V (tables t2) kb m) as Hkf2.
  { eapply fresh_mapped; [exact Hkfm|done|exact Hm12|apply Htk|]. intros ?. congruence. }
  pose proof (map_fresh R _ t2 kernel_table V pa kb m user_options Hf2 HR Hkf2 Hp0 Hpal Hpe
    ltac:(lia) Hbl) as Ho. destruct Hkfm as [Hktk _].
  assert (∀ k t3, 0 ≤ k ≤ m → forest R (owned own2) t3 →
    mapped R kernel_table pa kb user_options (tables t2) (tables t3) 0 k →
    consistent pt a (Some kb) m own t own2 t3) as Hcon.
  { intros k t3 Hk Hf3 Hmap. split; [done|by eapply isolated_kernel|done|].
    eapply keeps_trans_mem; [|by eapply keeps_mapped_kernel].
    eapply keeps_widen; [exact Hk2|done|done]. }
  destruct (map_range _ _ _ _ _ _ _) as [[] t3|e t3|w]; [| |done].
  2: { destruct Ho as (Hf3 & k & Hk & Hmap). by eapply Hcon. }
  destruct Ho as (Hf3 & Hmap & l' & Hke & _).
  split; [by eapply Hcon; [|done|done]; lia| | |intros kb' [= <-]; by exists l'].
  - intros d Hd. exists (pa + d).
    pose proof (translate_fresh R pt v pa a user_options _ _ m m (a + d) Hm12 HRu Htk
      ltac:(lia) ltac:(lia)) as Htr. rewrite Hh in Htr.
    destruct (taken_in _ _ _ _ (a + d) Htk ltac:(lia)) as [Hud _].
    split; [|split; [apply Hfree; by apply page_base_offset|]].
    + transitivity (translate (tables t2) false (level0_table pt) (a + d));
        [|by rewrite Htr; replace (a + d - a) with d by lia].
      apply translate_ext. specialize (Hmap _ _ HRu Hud). rewrite decide_False in Hmap by tauto.
      by apply Hmap.
    + intros kb' [= <-].
      pose proof (translate_fresh R kernel_table V pa kb user_options _ _ m m (kb + d) Hmap HR Hktk
        ltac:(lia) ltac:(lia)) as Htrk. rewrite Hkh in Htrk. rewrite Htrk.
      by replace (kb + d - kb) with d by lia.
  - exists regions. split; [|done]. eapply (mapped_exactly_ext pt); [exact Hme|]. intros p Hp.
    destruct (taken_in _ _ _ _ p Htk ltac:(lia)) as [Hup _].
    specialize (Hmap _ _ HRu Hup). rewrite decide_False in Hmap by tauto. by apply Hmap.
Qed.

Lemma mapped_exactly_app T r a b c l1 l2 : mapped_exactly T r a b l1 → mapped_exactly T r b c l2 →
  mapped_exactly T r a c (l1 ++ l2).
Proof. induction 1; cbn; [done|]. intros Hr. econstructor; try done. by apply IHmapped_exactly. Qed.

Definition shift_by (ka : option Z) (m : Z) : option Z := option_map (λ kb, kb + m * PAGE_SIZE) ka.

Lemma keeps_first pt a ka n m T T' : 0 ≤ m ≤ n → keeps pt a ka m T T' → keeps pt a ka n T T'.
Proof.
  intros Hm Hk. eapply keeps_widen; [exact Hk| |]; unfold PAGE_SIZE in *; [lia|].
  intros kb va -> Hva. exists kb. split; [done|]. lia.
Qed.
Lemma keeps_rest pt a ka n m T T' : 0 ≤ m ≤ n →
  keeps pt (a + m * PAGE_SIZE) (shift_by ka m) (n - m) T T' → keeps pt a ka n T T'.
Proof.
  intros Hm Hk. eapply keeps_widen; [exact Hk| |]; unfold PAGE_SIZE in *; [lia|].
  intros kb va Hkb Hva. destruct ka as [kb0|]; [|done]. injection Hkb as <-. exists kb0.
  split; [done|]. unfold PAGE_SIZE in *. lia.
Qed.

Lemma consistent_rest pt a ka n m own t own1 t1 own2 t2 : 0 ≤ m ≤ n →
  consistent pt a ka m own t own1 t1 →
  consistent pt (a + m * PAGE_SIZE) (shift_by ka m) (n - m) own1 t1 own2 t2 →
  consistent pt a ka n own t own2 t2.
Proof.
  intros Hm [_ _ Ho1 Hk1] [Hf2 Hi2 Ho2 Hk2]. split; [done|done| |].
  - intros f Hf. rewrite Ho2; [by apply Ho1|]. by rewrite Ho1.
  - eapply keeps_trans_mem; [by eapply keeps_first|by eapply keeps_rest].
Qed.

Lemma grown_none pt a ka own t : forest R (owned own) t → isolated own (tables t) →
  grown pt a ka 0 own t own t.
Proof.
  intros Hf Hiso. split; [by split|intros d Hd; lia|..]; [|intros kb _]; exists []; rewrite Z.mul_0_l, Z.add_0_r; repeat constructor.
Qed.

(** What the first round mapped is still there after the others. *)
Lemma grown_kept pt v V a ka n m T1 T2 : user (level0_table pt) → high_addresses pt = false →
  taken_range pt v a n → (∀ kb, ka = Some kb → taken_range kernel_table V kb n) → 0 ≤ m ≤ n →
  keeps pt (a + m * PAGE_SIZE) (shift_by ka m) (n - m) T1 T2 → ∀ d, 0 ≤ d < m * PAGE_SIZE →
  leaf T2 (level0_table pt) (idx (a + d)) = leaf T1 (level0_table pt) (idx (a + d)) ∧
  ∀ kb, ka = Some kb → leaf T2 kroot (idx (kb + d)) = leaf T1 kroot (idx (kb + d)).
Proof.
  intros Hu Hh Htk Hktk Hm Hk d Hd. destruct (Huser _ Hu) as [HRu Hne]. split.
  - destruct (taken_in _ _ _ _ (a + d) Htk ltac:(unfold PAGE_SIZE in *; lia)) as [Hud Htag].
    apply Hk; [done|done| |done|intros [_ ?]; lia|by intros kb _ [? _]].
    intros _. rewrite Htag. apply Htk.
  - intros kb ->.
    destruct (taken_in _ _ _ _ (kb + d) (Hktk kb eq_refl) ltac:(unfold PAGE_SIZE in *; lia)) as [Hud Htag].
    apply Hk; [done|done|congruence| |intros [? _]; congruence|intros kb' [= <-] [_ ?]; lia].
    intros _. rewrite Htag. pose proof (tr_tag _ _ _ _ (Hktk kb eq_refl)) as Ht. by rewrite Hkh in Ht.
Qed.

Lemma end_of_rest a m n : a + m * PAGE_SIZE + (n - m) * PAGE_SIZE = a + n * PAGE_SIZE.
Proof. lia. Qed.

Lemma grown_rest pt v V a ka n m own t own1 t1 own2 t2 : user (level0_table pt) →
  high_addresses pt = false → taken_range pt v a n →
  (∀ kb, ka = Some kb → taken_range kernel_table V kb n) → 0 ≤ m ≤ n →
  grown pt a ka m own t own1 t1 →
  grown pt (a + m * PAGE_SIZE) (shift_by ka m) (n - m) own1 t1 own2 t2 →
  grown pt a ka n own t own2 t2.
Proof.
  intros Hu Hh Htk Hktk Hm [Hc1 Hu1 (l1 & He1 & Ha1) Hk1] [Hc2 Hu2 (l2 & He2 & Ha2) Hk2].
  pose proof (grown_kept _ _ _ _ _ _ _ _ _ Hu Hh Htk Hktk Hm (co_keeps _ _ _ _ _ _ _ _ Hc2)) as Hkept.
  split; [by eapply consistent_rest|..].
  - intros d Hd. destruct (decide (d < m * PAGE_SIZE)) as [Hlt|Hge].
    + destruct (Hu1 d ltac:(lia)) as (pa & Hpa & Hfree & Hkpa).
      destruct (Hkept d ltac:(lia)) as [Hl Hkl]. exists pa. split; [|split; [done|]].
      * rewrite <- Hpa. by apply translate_ext.
      * intros kb Hkb. rewrite <- (Hkpa kb Hkb). apply translate_ext. by apply Hkl.
    + destruct (Hu2 (d - m * PAGE_SIZE) ltac:(unfold PAGE_SIZE in *; lia)) as (pa & Hpa & Hfree & Hkpa).
      exists pa. split; [rewrite <- Hpa; f_equal; lia|]. split.
      * destruct (own (page_base pa)) eqn:Ho; [|done].
        rewrite (co_own _ _ _ _ _ _ _ _ Hc1) in Hfree by (by rewrite Ho). congruence.
      * intros kb ->. rewrite <- (Hkpa _ eq_refl). f_equal. lia.
  - exists (l1 ++ l2). split; [|by apply Forall_app]. eapply mapped_exactly_app; [|by rewrite end_of_rest in He2].
    eapply (mapped_exactly_ext pt); [exact He1|]. intros p Hp.
    destruct (Hkept (p - a) ltac:(lia)) as [Hl _]. by replace (a + (p - a)) with p in Hl by lia.
  - intros kb Hkb. destruct (Hk1 kb Hkb) as [l3 He3]. destruct (Hk2 (kb + m * PAGE_SIZE)) as [l4 He4].
    { by rewrite Hkb. }
    exists (l3 ++ l4). eapply mapped_exactly_app; [|by rewrite end_of_rest in He4].
    eapply (mapped_exactly_ext kernel_table); [exact He3|]. intros p Hp.
    destruct (Hkept (p - kb) ltac:(lia)) as [_ Hl]. specialize (Hl kb Hkb).
    by replace (kb + (p - kb)) with p in Hl by lia.
Qed.

(** One round of the loop of [alloc_memory], on the tables and frames. *)
Lemma one_round own t pt v V a ka n : forest R (owned own) t → isolated own (tables t) →
  user (level0_table pt) → high_addresses pt = false → fresh_range pt v (tables t) a n →
  (∀ kb, ka = Some kb → fresh_range kernel_table V (tables t) kb n) → 1 ≤ n →
  (∀ pa m a', try_alloc_contig n (frames t) = Ok (pa, m) a' → run_aligned pa a ka m = true) →
  match try_alloc_contig n (frames t) with
  | Ok (pa, m) a' => 1 ≤ m ≤ n ∧
      match map_range pt pa a m true user_options (set_frames t a') with
      | Ok _ t2 =>
          match ka with
          | None => ∃ own', grown pt a ka m own t own' t2
          | Some kb =>
              match map_range kernel_table pa kb m true user_options t2 with
              | Ok _ t3 => ∃ own', grown pt a ka m own t own' t3
              | Err _ t3 => ∃ own', consistent pt a ka m own t own' t3
              | Stop _ => False
              end
          end
      | Err _ t2 => ∃ own', consistent pt a ka m own t own' t2
      | Stop _ => False
      end
  | Err _ a' => a' = frames t
  | Stop _ => False
  end.
Proof.
  intros Hf Hiso Hu Hh Hfr Hkfr Hn Hrun.
  pose proof (try_alloc_contig_run (frames t) n (proj1 (forest_frames _ _ _ Hf))) as Ho.
  destruct (try_alloc_contig n (frames t)) as [[pa m] a'|e a'|w] eqn:Ha; cbn in Ho.
  2: { by destruct e; [destruct Ho..|]. }
  2: { pose proof (tr_top _ _ _ _ (proj1 Hfr)). pose proof (tr_usize _ _ _ _ (proj1 Hfr)).
       destruct w; [|done..]. unfold PAGE_SIZE, is_usize in *. lia. }
  destruct (take_frames own t n pa m a' Hf Ha) as (Hm & Hp0 & Hpal & Hpe & Hfree & Hf1).
  destruct (run_aligned_iff pa a ka m) as [Hbl Hbl']. destruct (Hbl (Hrun _ _ _ eq_refl)) as [Hblu Hblk].
  split; [done|]. pose proof (grow_user own t (set_frames t a') t pt v pa a n m Hf Hiso Hu Hh Hfr Hm
    Hblu Hp0 Hpal Hpe Hfree Hf1 eq_refl) as Hg.
  destruct (map_range pt pa a m true user_options _) as [[] t2|e t2|w]; [| |done].
  - destruct Hg as (Hg & _ & Hmap). destruct ka as [kb|]; [|by eexists].
    pose proof (grow_kernel _ _ _ _ _ _ V _ _ kb n m Hg Hu Hh Hmap Hfr (Hkfr _ eq_refl) Hm (Hblk _ eq_refl) Hp0 Hpal
      Hpe Hfree) as Hgk.
    destruct (map_range kernel_table _ _ _ _ _ _) as [[] t3|e t3|w]; [..|done]; by eexists.
  - destruct Hg as [own' [H1 H2 H3 H4]]. exists own'. split; [done..|].
    eapply keeps_widen; [exact H4|done|done].
Qed.

(** What is left to map is still fresh after a round. *)
Lemma fresh_rest pt v V a ka n m T T' : user (level0_table pt) → high_addresses pt = false →
  fresh_range pt v T a n → (∀ kb, ka = Some kb → fresh_range kernel_table V T kb n) → 0 ≤ m < n →
  keeps pt a ka m T T' →
  fresh_range pt v T' (a + m * PAGE_SIZE) (n - m) ∧
  ∀ kb, shift_by ka m = Some kb → fresh_range kernel_table V T' kb (n - m).
Proof.
  intros Hu Hh Hfr Hkfr Hm Hk. destruct (Huser _ Hu) as [HRu Hne].
  destruct (fresh_split _ _ _ _ _ m Hfr ltac:(lia) ltac:(lia)) as [_ Hfr2].
  destruct (Hfr2 ltac:(lia)) as [Htk Hun]. split.
  - split; [done|]. intros p Hp. rewrite <- (Hun p Hp).
    destruct (taken_in _ _ _ _ p Htk ltac:(lia)) as [Hup Htag].
    apply Hk; [done|done| |done|intros [_ ?]; lia|by intros kb _ [? _]].
    intros _. rewrite Htag. apply Htk.
  - intros kb Hkb. destruct ka as [kb0|]; [|done]. injection Hkb as <-.
    destruct (fresh_split _ _ _ _ _ m (Hkfr _ eq_refl) ltac:(lia) ltac:(lia)) as [_ Hkfr2].
    destruct (Hkfr2 ltac:(lia)) as [Hktk Hkun]. split; [done|]. intros p Hp. rewrite <- (Hkun p Hp).
    destruct (taken_in _ _ _ _ p Hktk ltac:(lia)) as [Hup Htag].
    apply Hk; [done|done|congruence| |intros [? _]; congruence|intros kb' [= <-] [_ ?]; lia].
    intros _. rewrite Htag. pose proof (tr_tag _ _ _ _ Hktk) as Ht. by rewrite Hkh in Ht.
Qed.

(** The state with other tables. *)
Definition set_ktabs (s : System) t : System :=
  set_mem s {| ktabs := t; kva := kva (mem s) |}.

Lemma in_mem_tabs {A} reason (f : PT PhysicalMemoryAllocator A) s :
  in_mem reason (with_tabs f) s =
  match f (ktabs (mem s)) with
  | Ok a t => Ok a (set_ktabs s t)
  | Err e t => Err (Memory reason e) (set_ktabs s t)
  | Stop w => Stop w
  end.
Proof. unfold in_mem, with_tabs. by destruct (f (ktabs (mem s))). Qed.

Lemma add_small a off : is_usize (a + off) → VirtualAddress.add a off = a + off.
Proof. apply wrapping_add_small. Qed.

Lemma set_ktabs_id s : s = set_ktabs s (ktabs (mem s)).
Proof. by destruct s as [[? ?] ?]. Qed.
Lemma set_frames_id t : set_frames t (frames t) = t.
Proof. by destruct t. Qed.

Lemma consistent_first pt a ka n m own t own' t' : 0 ≤ m ≤ n →
  consistent pt a ka m own t own' t' → consistent pt a ka n own t own' t'.
Proof. intros Hm []. split; [done..|]. by eapply keeps_first. Qed.

Lemma shift_option (kbase : option Z) off m :
  shift_by (option_map (λ kb, kb + off) kbase) m = option_map (λ kb, kb + (off + m * PAGE_SIZE)) kbase.
Proof. destruct kbase; cbn; [|done]. f_equal. lia. Qed.

(** What adding pages may do: all of them, or an error with some. *)
Definition pages_added pt a ka n own (s : System) (r : res System Error unit) : Prop :=
  match r with
  | Ok _ s' => ∃ own' t', s' = set_ktabs s t' ∧ grown pt a ka n own (ktabs (mem s)) own' t'
  | Err _ s' => ∃ own' t', s' = set_ktabs s t' ∧ consistent pt a ka n own (ktabs (mem s)) own' t'
  | Stop _ => False
  end.

Lemma pages_added_rest pt v V a ka n m own s own1 t1 r : user (level0_table pt) →
  high_addresses pt = false → taken_range pt v a n →
  (∀ kb, ka = Some kb → taken_range kernel_table V kb n) → 0 ≤ m ≤ n →
  grown pt a ka m own (ktabs (mem s)) own1 t1 →
  pages_added pt (a + m * PAGE_SIZE) (shift_by ka m) (n - m) own1 (set_ktabs s t1) r →
  pages_added pt a ka n own s r.
Proof.
  intros Hu Hh Htk Hktk Hm Hg Hr. destruct r as [[] s'|e s'|w]; [| |done];
    destruct Hr as (own2 & t2 & -> & Hr); exists own2, t2; (split; [done|]).
  - by eapply (grown_rest pt v V).
  - eapply consistent_rest; [done|apply Hg|exact Hr].
Qed.

Lemma alloc_pages_run pt v V base kbase fuel n off own s : pt = page_tables (proc s) →
  forest R (owned own) (ktabs (mem s)) → isolated own (tables (ktabs (mem s))) →
  user (level0_table pt) → high_addresses pt = false → 0 ≤ n → (Z.to_nat n ≤ fuel)%nat →
  0 ≤ off → off + n * PAGE_SIZE < 2 ^ 60 →
  runs_aligned kernel_table fuel pt (base + off) (option_map (λ kb, kb + off) kbase) n (ktabs (mem s)) = true →
  (1 ≤ n → fresh_range pt v (tables (ktabs (mem s))) (base + off) n) →
  (1 ≤ n → ∀ kb, option_map (λ kb, kb + off) kbase = Some kb →
     fresh_range kernel_table V (tables (ktabs (mem s))) kb n) →
  pages_added pt (base + off) (option_map (λ kb, kb + off) kbase) n own s
    (alloc_pages kernel_table fuel base kbase n off s).
Proof.
  intros ->. revert n off own s. induction fuel as [|fuel IH];
    intros n off own s Hf Hiso Hu Hh Hn Hfuel Hoff Hoff' Hal Hfr Hkfr; cbn [alloc_pages runs_aligned] in *;
    destruct (Z.ltb_spec 0 n) as [Hpos|Hz]; [lia| | |]; cycle 1.
  2, 3: replace n with 0 by lia; exists own, (ktabs (mem s)); split; [apply set_ktabs_id|by apply grown_none].
  specialize (Hfr ltac:(lia)). specialize (Hkfr ltac:(lia)).
  set (pt := page_tables (proc s)) in *. set (t := ktabs (mem s)) in *.
  pose proof (one_round own t pt v V _ _ n Hf Hiso Hu Hh Hfr Hkfr ltac:(lia)) as Ho.
  specialize (Ho ltac:(intros pa m a' Ha; rewrite Ha in Hal; by apply andb_true_iff in Hal as [? _])).
  rewrite bind_unfold. unfold with_pma. rewrite in_mem_tabs. unfold with_frames. fold t.
  destruct (try_alloc_contig n (frames t)) as [[pa m] a'|e a'|w]; [| |done].
  2: { subst a'. exists own, t. split; [by destruct t|]. by split. }
  destruct Ho as [Hm Ho]. apply andb_true_iff in Hal as [_ Hal]. rewrite bind_unfold. cbn [get]. rewrite bind_unfold, in_mem_tabs.
  cbn [set_ktabs set_mem mem ktabs proc]. fold pt.
  destruct (taken_in _ _ _ _ (base + off) (proj1 Hfr) ltac:(plia)) as [Hub _].
  rewrite (add_small _ _ Hub). change (Build_Tables _ a' _) with (set_frames t a').
  destruct (map_range pt pa _ m true user_options _) as [[] t2|e t2|w]; [| |done].
  2: { destruct Ho as [own' Hc]. exists own', t2. split; [done|]. eapply consistent_first; [|exact Hc]. lia. }
  set (tail := lift (umul m PAGE_SIZE) ≫= _).
  assert (∀ own1 t1, grown pt (base + off) (option_map (λ kb, kb + off) kbase) m own t own1 t1 →
    runs_aligned kernel_table fuel pt (base + off + m * PAGE_SIZE) (shift_by (option_map (λ kb, kb + off) kbase) m) (n - m) t1 = true →
    pages_added pt (base + off) (option_map (λ kb, kb + off) kbase) n own s (tail (set_ktabs s t1))) as Htail.
  { intros own1 t1 Hg Hal1. pose proof (gr_consistent _ _ _ _ _ _ _ _ Hg) as [Hf1 Hiso1 _ Hk1].
    apply (pages_added_rest pt v V _ _ n m own s own1 t1); [done|done|apply Hfr|intros; by apply Hkfr|lia|done|].
    unfold tail. rewrite shift_option in *.
    erewrite bind_run by (apply lift_Ok; split; [apply umul_ok; plia|done]).
    erewrite bind_run by (apply lift_Ok; split; [apply uadd_ok; plia|done]).
    erewrite bind_run by (apply lift_Ok; split; [apply usub_ok; plia|done]).
    replace (base + off + m * PAGE_SIZE) with (base + (off + m * PAGE_SIZE)) in * by lia.
    apply (IH (n - m) (off + m * PAGE_SIZE) own1 (set_ktabs s t1)); [done|done|done|done|lia|lia|plia|plia|done|..];
      intros Hlt; destruct (fresh_rest pt v V _ _ n m _ _ Hu Hh Hfr Hkfr ltac:(lia) Hk1) as [Hfr2 Hkfr2].
    - by rewrite Z.add_assoc in *.
    - intros kb Hkb. apply Hkfr2. by rewrite shift_option. }
  destruct kbase as [kv|].
  2: { rewrite bind_unfold. cbn [mret M_ret]. destruct Ho as [own1 Hg]. exact (Htail own1 t2 Hg Hal). }
  rewrite bind_unfold, in_mem_tabs. cbn [set_ktabs set_mem mem ktabs proc option_map] in *.
  destruct (taken_in _ _ _ _ (kv + off) (proj1 (Hkfr _ eq_refl)) ltac:(plia)) as [Huk _].
  rewrite (add_small _ _ Huk).
  destruct (map_range kernel_table pa _ m true user_options _) as [[] t3|e t3|w]; [| |done].
  - destruct Ho as [own1 Hg]. exact (Htail own1 t3 Hg Hal).
  - destruct Ho as [own' Hc]. exists own', t3. split; [done|]. eapply consistent_first; [|exact Hc]. lia.
Qed.

(** The addresses taken for [alloc_memory], in the process and perhaps in the kernel. *)
Definition kcovers (p : Z) (ka : option Z) (m : Z) : Z :=
  match ka with Some kb => covers p (kb, m) | None => 0 end.

Record acquired (s : System) a ka m t' (s' : System) : Prop := {
  aq_tabs : ktabs (mem s') = t';
  aq_proc : ∃ v', proc s' = set_address_space (proc s) v';
  aq_space : space_ok (page_tables (proc s)) (address_space_allocator (proc s')) (tables (ktabs (mem s)));
  aq_kspace : space_ok kernel_table (kva (mem s')) (tables (ktabs (mem s)));
  aq_user : ∀ p, free_cover (address_space_allocator (proc s')) p + covers p (a, m)
              = free_cover (address_space_allocator (proc s)) p;
  aq_kernel : ∀ p, free_cover (kva (mem s')) p + kcovers p ka m = free_cover (kva (mem s)) p;
  aq_fresh : 1 ≤ m → fresh_range (page_tables (proc s)) (address_space_allocator (proc s'))
    (tables (ktabs (mem s))) a m;
  aq_kfresh : 1 ≤ m → ∀ kb, ka = Some kb →
    fresh_range kernel_table (kva (mem s')) (tables (ktabs (mem s))) kb m;
}.

(** What [alloc_memory] may do. *)
Definition allocated own (s : System) (n : Z) (share : bool) (r : res System Error (Z * option Z)) : Prop :=
  let pt := page_tables (proc s) in
  match r with
  | Ok (a, ka) s' => (share = true ↔ is_Some ka) ∧
      ∃ own' t', acquired s a ka n t' s' ∧ grown pt a ka n own (ktabs (mem s)) own' t'
  | Err _ s' => ∃ a ka m own' t', acquired s a ka m t' s' ∧
      consistent pt a ka m own (ktabs (mem s)) own' t'
  | Stop _ => False
  end.

(** The mapping after the addresses were taken. *)
Lemma alloc_mapped own s s1 n share a ka : let pt := page_tables (proc s) in
  forest R (owned own) (ktabs (mem s)) → isolated own (tables (ktabs (mem s))) →
  user (level0_table pt) → high_addresses pt = false → 1 ≤ n →
  runs_aligned kernel_table (Z.to_nat n) pt a ka n (ktabs (mem s)) = true →
  acquired s a ka n (ktabs (mem s)) s1 → (share = true ↔ is_Some ka) →
  allocated own s n share
    ((alloc_pages kernel_table (Z.to_nat n) a ka n 0;; mret (a, ka)) s1).
Proof.
  intros pt Hf Hiso Hu Hh Hn Hal [Htabs [v' Hp] Hsp Hksp Hfc Hkfc Hfr Hkfr] Hsh. subst pt.
  assert (n * PAGE_SIZE < 2 ^ 60) as Hb.
  { destruct (Hfr Hn) as [[[? ?] _ _ He _ _] _]. unfold tag_of in He. pdlia. }
  assert (page_tables (proc s1) = page_tables (proc s)) as Hpt by (by rewrite Hp).
  pose proof (alloc_pages_run (page_tables (proc s1)) (address_space_allocator (proc s1))
    (kva (mem s1)) a ka (Z.to_nat n) n 0 own s1 eq_refl) as Hrun.
  rewrite Hpt, Htabs, Z.add_0_r in Hrun.
  replace (option_map (λ kb, kb + 0) ka) with ka in Hrun by (destruct ka; cbn; [by rewrite Z.add_0_r|done]).
  specialize (Hrun Hf Hiso Hu Hh ltac:(lia) ltac:(lia) ltac:(lia) ltac:(lia) Hal Hfr Hkfr).
  rewrite bind_unfold. destruct (alloc_pages _ _ _ _ _ _ s1) as [[] s2|e s2|w]; [| |done];
    destruct Hrun as (own' & t' & -> & Hg); rewrite Htabs in Hg; cbn.
  - split; [done|]. exists own', t'. split; [|done]. split; cbn; try done. by exists v'.
  - exists a, ka, n, own', t'. split; [|done]. split; cbn; try done. by exists v'.
Qed.

Lemma covers_none p a : covers p (a, 0) = 0.
Proof. unfold covers. case_decide; cbn in *; [plia|done]. Qed.

Lemma alloc_memory_run own s n share : let pt := page_tables (proc s) in
  forest R (owned own) (ktabs (mem s)) → isolated own (tables (ktabs (mem s))) →
  user (level0_table pt) → high_addresses pt = false → 1 ≤ n → alloc_aligned kernel_table n share s = true →
  space_ok pt (address_space_allocator (proc s)) (tables (ktabs (mem s))) →
  space_ok kernel_table (kva (mem s)) (tables (ktabs (mem s))) →
  allocated own s n share (alloc_memory kernel_table n share s).
Proof.
  intros pt Hf Hiso Hu Hh Hn Hal Hsp Hksp. subst pt. unfold alloc_memory, alloc_aligned in *. rewrite bind_unfold.
  unfold in_space at 1.
  destruct (space_alloc _ _ _ n Hsp ltac:(lia)) as [(a & v' & Hva & Hsp' & Hfr & Hfc)|Hva];
    rewrite Hva in *; cbv iota.
  2: { exists 0, None, 0, own, (ktabs (mem s)). split; [|by split].
       split; cbn; try done; [|by intros p; rewrite covers_none, Z.add_0_r|by intros p; rewrite Z.add_0_r].
       by eexists. }
  set (s1 := set_proc _ _). destruct share.
  - rewrite !bind_unfold. unfold in_mem, with_kva. cbn [s1 set_proc mem].
    destruct (space_alloc _ _ _ n Hksp ltac:(lia)) as [(kb & V' & Hka & Hksp' & Hkfr & Hkfc)|Hka];
      rewrite Hka in *; cbv iota.
    + cbn [mret M_ret]. apply alloc_mapped; try done.
      split; cbn; try done; [by eexists|by intros _ ? [= <-]].
    + exists a, None, n, own, (ktabs (mem s)). split; [|by split].
      split; cbn; try done; [by eexists|by intros p; rewrite Z.add_0_r].
  - rewrite bind_unfold. cbn [mret M_ret]. apply alloc_mapped; try done.
    split; cbn; try done; [by eexists|by intros p; rewrite Z.add_0_r].
Qed.

(** ** Giving memory back *)

(** What the page table says of a block of a range: its frames belong to the process, each as
    the page that it backs. *)
Definition region_owned own r (a b : Z) (g : MappedRegion) : Prop :=
  1 ≤ Paging.page_count g ∧ base_phys_addr g mod PAGE_SIZE = 0 ∧
  a ≤ base_virt_addr g ∧ base_virt_addr g + Paging.page_count g * PAGE_SIZE ≤ b ∧
  ∀ q, frames_of (base_phys_addr g) (Paging.page_count g) q → own q = Some (r, base_virt_addr g + (q - base_phys_addr g)).

Lemma region_owned_wider own r a a' b g : a' ≤ a → region_owned own r a b g → region_owned own r a' b g.
Proof. intros Ha (Hc & Hm & Hv & Hv' & Ho). split_and!; try done; lia. Qed.

#[export] Instance frames_of_dec pa n q : Decision (frames_of pa n q).
Proof. unfold frames_of. apply _. Defined.

(** The frames of some regions. *)
Definition region_frame (q : Z) (g : MappedRegion) : Prop := frames_of (base_phys_addr g) (Paging.page_count g) q.
Definition held (regions : list MappedRegion) (q : Z) : Prop := Exists (region_frame q) regions.
Definition frames_apart (g g' : MappedRegion) : Prop := ∀ q, region_frame q g → ¬ region_frame q g'.

#[export] Instance held_dec regions q : Decision (held regions q).
Proof. unfold held, region_frame. apply _. Defined.

Lemma walk_prefix T p l π l' e ρ : walk T p l π = Some (l', e) →
  take (Z.to_nat (l' - l) + 1) π `prefix_of` ρ → l ≤ l' ∧ walk T p l ρ = Some (l', e).
Proof.
  revert p l ρ. induction π as [|i π IH]; intros p l ρ; [done|]. cbn [walk].
  destruct (entry T p i) as [e0|] eqn:He; [|done]. cbn. destruct (table_ref e0 l) as [q|] eqn:Hr.
  - intros Hw Hpre. assert (l + 1 ≤ l') as Hl.
    { clear -Hw. revert q l Hw. induction π as [|j π IH]; intros q l; [done|]. cbn [walk].
      destruct (entry T q j); [|done]. cbn. destruct (table_ref _ _); [|intros [= <- _]; lia]. intros Hw%IH. lia. }
    replace (Z.to_nat (l' - l) + 1)%nat with (S (Z.to_nat (l' - (l + 1)) + 1)) in Hpre by lia.
    cbn [take] in Hpre. destruct Hpre as [σ ->]. cbn [app walk]. rewrite He. cbn. rewrite Hr.
    destruct (IH q (l + 1) (take (Z.to_nat (l' - (l + 1)) + 1) π ++ σ) Hw) as [_ ->]; [by exists σ|]. split; [lia|done].
  - intros [= <- <-]. rewrite Z.sub_diag. change (Z.to_nat 0 + 1)%nat with 1%nat. cbn [take]. intros [σ ->].
    cbn [app walk]. rewrite He. cbn. by rewrite Hr.
Qed.

(** The addresses of a block have the entry of the block. *)
Lemma leaf_block T r a va lvl e : leaf T r (idx a) = Some (lvl, e) → 1 ≤ lvl ≤ 3 → a mod span lvl = 0 →
  is_usize a → is_usize va → tag_of va = tag_of a → a ≤ va < a + span lvl → leaf T r (idx va) = Some (lvl, e).
Proof.
  intros Hl Hlv Hm Hua Hu Ht Hin. unfold leaf in *. destruct (walk T r 0 (idx a)) as [[l' e']|] eqn:Hw; [|done].
  cbn in Hl. destruct (valid e') eqn:Hv; [|done]. injection Hl as -> ->.
  destruct (walk_prefix _ _ _ _ _ _ (idx va) Hw) as [_ ->].
  - rewrite Z.sub_0_r. apply idx_prefix_iff; [done..|]. by apply same_block_iff; [apply span_pos; lia|..].
  - cbn. by rewrite Hv.
Qed.

Lemma translate_block T r a va lvl e : leaf T r (idx a) = Some (lvl, e) → 1 ≤ lvl ≤ 3 → a mod span lvl = 0 →
  get_type e = (lvl =? 3) → (entry_address e * PAGE_SIZE) mod span lvl = 0 →
  is_usize a → is_usize va → tag_of va = tag_of a → tag_ok false (tag_of va) = true → a ≤ va < a + span lvl →
  ∃ ro el0, translate T false r va = Some (entry_address e * PAGE_SIZE + (va - a), ro, el0).
Proof.
  intros Hl Hlv Hm Hty Hpm Hua Hu Ht Htg Hin. pose proof (span_pos lvl ltac:(lia)) as Hsp.
  pose proof (leaf_block _ _ _ va _ _ Hl Hlv Hm Hua Hu Ht Hin) as Hl'.
  unfold translate. pose proof (to_parts_digits va Hu) as Hd.
  destruct (VirtualAddress.to_parts va) as [[[[[tag ?] ?] ?] ?] ?]. injection Hd as -> _ _ _ _ _.
  fold (tag_of va). rewrite Htg, Hl'. cbn. rewrite Hty.
  replace ((lvl =? 0) || _) with false by (destruct (lvl =? 3); lia). eexists _, _. do 3 f_equal.
  apply Z.div_exact in Hpm; [|lia]. rewrite (Z.mul_comm _ (span lvl)), <- Hpm.
  rewrite <- (Z.mod_small (va - a) (span lvl)), Zminus_mod, Hm, Z.sub_0_r, Zmod_mod by lia. done.
Qed.

Lemma block_owned own T pt a b lvl e : let r := level0_table pt in isolated own T → user r →
  leaf T r (idx a) = Some (lvl, e) → 1 ≤ lvl ≤ 3 → get_type e = (lvl =? 3) → a mod span lvl = 0 →
  a + span lvl ≤ b → (∀ va, a ≤ va < b → is_usize va ∧ tag_of va = tag_of a ∧ tag_ok false (tag_of va) = true) →
  let g := {| base_virt_addr := a; base_phys_addr := entry_address e * PAGE_SIZE; Paging.page_count := block_pages lvl |} in
  region_aligned g → region_owned own r a b g.
Proof.
  intros r Hiso Hu Hl Hlv Hty Hm Hle Hva g Hag. pose proof (span_pages lvl Hlv) as Hspan.
  assert (1 ≤ block_pages lvl) as Hbp by (assert (lvl = 1 ∨ lvl = 2 ∨ lvl = 3) as [-> | [-> | ->]] by lia; done).
  unfold region_aligned in Hag. cbn in Hag. rewrite <- Hspan in Hag.
  assert (a mod PAGE_SIZE = 0) as Ham.
  { rewrite Hspan in Hm. apply Z.div_exact in Hm; [|plia]. rewrite Hm, (Z.mul_comm (block_pages lvl)), <- Z.mul_assoc, Z.mul_comm.
    by apply Z.mod_mul. }
  split_and!; cbn; [done|by apply Z.mod_mul|lia|lia|]. intros q [Hqm Hq].
  set (va := a + (q - entry_address e * PAGE_SIZE)). destruct (Hva a ltac:(plia)) as (Hua & _ & _).
  destruct (Hva va) as (Huv & Htv & Htg); [unfold va; lia|].
  destruct (translate_block T r a va lvl e Hl Hlv Hm Hty Hag Hua Huv Htv Htg ltac:(unfold va; lia)) as (ro & el0 & Htr).
  pose proof (Hiso r va _ ro el0 Hu Huv Htr) as Ho. unfold page_base, va in Ho.
  replace (entry_address e * PAGE_SIZE + (a + (q - entry_address e * PAGE_SIZE) - a)) with q in Ho by lia.
  rewrite Hqm, Z.sub_0_r in Ho. rewrite Ho. do 2 f_equal. pdlia.
Qed.

Lemma regions_owned own T pt a b regions : let r := level0_table pt in isolated own T → user r →
  mapped_exactly T r a b regions → Forall region_aligned regions →
  (∀ va, a ≤ va < b → is_usize va ∧ tag_of va = tag_of a ∧ tag_ok false (tag_of va) = true) →
  Forall (region_owned own r a b) regions ∧ StronglySorted frames_apart regions.
Proof.
  intros r Hiso Hu. induction 1 as [a|a b lvl e regions Hl Hlv Hty Hm Hrest IH]; intros Hag Hva;
    [split; constructor|]. apply Forall_cons in Hag as [Hg Hag].
  pose proof (mapped_exactly_le pt _ _ _ _ Hrest) as Hle. pose proof (span_pos lvl ltac:(lia)) as Hsp.
  pose proof (block_owned own T pt a b lvl e Hiso Hu Hl Hlv Hty Hm Hle Hva Hg) as Ho. fold r in Ho.
  destruct IH as [HF Hs]; [done| |].
  { intros va Hin. destruct (Hva va ltac:(lia)) as (? & Ht & ?). split_and!; try done.
    destruct (decide (a + span lvl < b)); [|lia]. destruct (Hva (a + span lvl) ltac:(lia)) as (_ & -> & _). done. }
  split; constructor; try done.
  - eapply Forall_impl; [exact HF|]. intros g. apply region_owned_wider. lia.
  - eapply Forall_impl; [exact HF|]. intros g (_ & _ & Hlo & _ & Hog) q Hq Hq'.
    destruct Ho as (_ & _ & _ & _ & Ho). specialize (Hog q Hq'). rewrite (Ho q Hq) in Hog. injection Hog as Hog.
    destruct Hq as [_ Hq], Hq' as [_ Hq']. cbn in *. rewrite span_pages in * by done. lia.
Qed.

(** Frames that are given back region by region. *)
Lemma free_regions X k regions : forest R X (ktabs k) → StronglySorted frames_apart regions →
  Forall (λ g, 1 ≤ Paging.page_count g ∧ base_phys_addr g mod PAGE_SIZE = 0 ∧ ∀ q, region_frame q g → X q) regions →
  ∃ al, for_each (λ g, with_pma (free_pages (base_phys_addr g) (Paging.page_count g))) regions k
          = Ok tt {| ktabs := set_frames (ktabs k) al; kva := kva k |} ∧
    forest R (λ q, X q ∧ ¬ held regions q) (set_frames (ktabs k) al) ∧
    ∀ q, q mod PAGE_SIZE = 0 →
      (frame_allocated al q ↔ frame_allocated (frames (ktabs k)) q ∧ ¬ held regions q).
Proof.
  revert X k. induction regions as [|g regions IH]; intros X k Hf Hnd HF.
  { assert (∀ q, ¬ held [] q) as Hno by (intros q H; by apply Exists_nil in H).
    exists (frames (ktabs k)). split; [by destruct k as [[] ?]|]. rewrite set_frames_id. split.
    - eapply forest_weaken; [exact Hf|]. by intros q [? _].
    - intros q _. specialize (Hno q). tauto. }
  apply Forall_cons in HF as [(Hc & Hm & HX) HF]. apply StronglySorted_inv in Hnd as [Hnd Hni].
  destruct (free_pages_frames (frames (ktabs k)) (base_phys_addr g) (Paging.page_count g) (forest_frames _ _ _ Hf) Hc Hm)
    as (a1 & Hrun & Hwf1 & Hiff).
  { intros q Hq. apply (forest_data _ _ _ _ Hf). by apply HX. }
  pose proof (forest_give R X (λ q, X q ∧ ¬ region_frame q g) (λ q, region_frame q g) _ a1 Hf Hwf1 ltac:(done) HX Hiff) as Hf1.
  destruct (IH _ {| ktabs := set_frames (ktabs k) a1; kva := kva k |} Hf1 Hnd) as (a2 & Hrun2 & Hf2 & Hiff2).
  - rewrite Forall_forall in HF, Hni |- *. intros g' Hg'. destruct (HF g' Hg') as (? & ? & HX'). split_and!; try done.
    intros q Hq. split; [by apply HX'|]. intros Hq'. by apply (Hni g' Hg' q).
  - exists a2. split_and!.
    + cbn [for_each]. erewrite bind_run; [exact Hrun2|]. unfold with_pma, with_tabs, with_frames. by rewrite Hrun.
    + eapply forest_weaken; [exact Hf2|]. cbn. intros q [? Hq]. unfold held in *. rewrite Exists_cons in Hq. tauto.
    + intros q Hq. rewrite (Hiff2 q Hq). cbn [set_frames ktabs frames]. rewrite (Hiff q Hq). unfold held.
      rewrite Exists_cons. unfold region_frame at 2. tauto.
Qed.

(** Every page of the range is in one of the regions. *)
Lemma regions_cover T pt a b regions va : mapped_exactly T (level0_table pt) a b regions →
  Forall region_aligned regions → a ≤ va < b →
  (∀ va, a ≤ va < b → is_usize va ∧ tag_of va = tag_of a ∧ tag_ok false (tag_of va) = true) →
  ∃ pa ro el0, translate T false (level0_table pt) va = Some (pa, ro, el0) ∧ held regions (page_base pa).
Proof.
  induction 1 as [a|a b lvl e regions Hl Hlv Hty Hm Hrest IH]; intros Hag Hva Hall; [lia|].
  apply Forall_cons in Hag as [Hg Hag]. pose proof (mapped_exactly_le pt _ _ _ _ Hrest) as Hle.
  pose proof (span_pos lvl ltac:(lia)) as Hsp. pose proof (span_pages lvl Hlv) as Hspan.
  destruct (decide (va < a + span lvl)) as [Hin|Hout].
  - unfold region_aligned in Hg. cbn in Hg. rewrite <- Hspan in Hg.
    destruct (Hall a ltac:(lia)) as (Hua & _ & _). destruct (Hall va Hva) as (Huv & Htv & Htg).
    destruct (translate_block T _ a va lvl e Hl Hlv Hm Hty Hg Hua Huv Htv Htg ltac:(lia)) as (ro & el0 & Htr).
    eexists _, ro, el0. split; [exact Htr|]. apply Exists_cons_hd. unfold region_frame. cbn.
    apply page_base_offset; [by apply Z.mod_mul|lia].
  - destruct IH as (pa & ro & el0 & Htr & Hpa); [done|lia| |].
    + intros x Hx. destruct (Hall x ltac:(lia)) as (? & -> & ?). destruct (Hall (a + span lvl) ltac:(lia)) as (_ & -> & _). done.
    + exists pa, ro, el0. split; [done|]. by apply Exists_cons_tl.
Qed.

(** The frames that are not given back keep their owner. *)
Definition drop_frames own (regions : list MappedRegion) : Z → option (Z * Z) := λ f,
  if decide (held regions f) then None else own f.

Lemma isolated_freed own T T' pt a b regions : isolated own T → user (level0_table pt) →
  high_addresses pt = false → is_usize a → tag_ok false (tag_of a) = true → a mod PAGE_SIZE = 0 →
  b mod PAGE_SIZE = 0 →
  Forall (region_owned own (level0_table pt) a b) regions → UnmapRange.unmapped R pt a T T' a b →
  isolated (drop_frames own regions) T'.
Proof.
  intros Hiso Hu Hh Hua Hta Ham Hbm HF Hun r va pa ro el0 Hr Hva Htr.
  destruct (Huser _ Hr) as [HRr _].
  rewrite (translate_unmapped _ _ _ _ _ _ _ _ _ Hun) in Htr; [|by rewrite Hh|done|done|done].
  case_decide as Hd; [done|]. pose proof (Hiso r va pa ro el0 Hr Hva Htr) as Ho.
  unfold drop_frames. case_decide as Hin; [|done]. exfalso.
  apply Exists_exists in Hin as (g & Hin & Hg). rewrite Forall_forall in HF.
  destruct (HF g Hin) as (_ & _ & Hlo & Hhi & Hog). specialize (Hog _ Hg). rewrite Ho in Hog. injection Hog as -> Hpb.
  destruct Hg as [_ Hg]. apply Hd. split; [done|].
  assert (a ≤ page_base va < b) by lia. unfold page_base in *. pdlia.
Qed.

Lemma keeps_unmapped_user pt v a ka n T T' : UnmapRange.unmapped R pt a T T' a (a + n * PAGE_SIZE) →
  taken_range pt v a n → keeps pt a ka n T T'.
Proof.
  intros Hm Htk r va Hr Hu Ht1 _ Hn1 _. rewrite (Hm r va Hr Hu); [by rewrite decide_False|].
  intros Heq. eapply tag_ok_unique; [by apply Ht1|apply Htk].
Qed.

Lemma keeps_unmapped_kernel pt v kb a n T T' :
  UnmapRange.unmapped R kernel_table kb T T' kb (kb + n * PAGE_SIZE) →
  taken_range kernel_table v kb n → keeps pt a (Some kb) n T T'.
Proof.
  intros Hm Htk r va Hr Hu _ Ht2 _ Hn2. rewrite (Hm r va Hr Hu).
  - rewrite decide_False; [done|]. by apply Hn2.
  - intros Heq. pose proof (tr_tag _ _ _ _ Htk) as Ht. rewrite Hkh in Ht.
    eapply tag_ok_unique; [by apply Ht2|exact Ht].
Qed.

(** What [free_memory] does with a range [alloc_memory] mapped. *)
Record freed pt a n own (s : System) own' (s' : System) : Prop := {
  fd_forest : forest R (owned own') (ktabs (mem s'));
  fd_isolated : isolated own' (tables (ktabs (mem s')));
  fd_keeps : keeps pt a None n (tables (ktabs (mem s))) (tables (ktabs (mem s')));
  fd_kva : kva (mem s') = kva (mem s);
  fd_proc : ∃ v', proc s' = set_address_space (proc s) v';
  fd_space : space_ok pt (address_space_allocator (proc s')) (tables (ktabs (mem s')));
  fd_free : ∀ p, free_cover (address_space_allocator (proc s')) p
              = free_cover (address_space_allocator (proc s)) p + covers p (a, n);
  fd_gone : ∀ va, a ≤ va < a + n * PAGE_SIZE →
    translate (tables (ktabs (mem s'))) false (level0_table pt) va = None ∧
    ∃ pa ro el0, translate (tables (ktabs (mem s))) false (level0_table pt) va = Some (pa, ro, el0) ∧
      ¬ frame_allocated (frames (ktabs (mem s'))) (page_base pa);
}.

Lemma free_memory_run own s a n regions : let pt := page_tables (proc s) in
  forest R (owned own) (ktabs (mem s)) → isolated own (tables (ktabs (mem s))) →
  user (level0_table pt) → high_addresses pt = false → 1 ≤ n →
  space_ok pt (address_space_allocator (proc s)) (tables (ktabs (mem s))) →
  taken_range pt (address_space_allocator (proc s)) a n →
  mapped_exactly (tables (ktabs (mem s))) (level0_table pt) a (a + n * PAGE_SIZE) regions →
  Forall region_aligned regions →
  ∃ own' s', free_memory a n s = Ok tt s' ∧ freed pt a n own s own' s'.
Proof.
  intros pt Hf Hiso Hu Hh Hn Hsp Htk Hme Hag. pose proof Htk as [Hua Ham Hta Hte Htop Hcov].
  destruct (unmap_mapped R _ _ _ a n regions Hf (proj1 (Huser _ Hu)) Hua ltac:(lia) Hte Hme)
    as (t1 & Hrun & Hf1 & Hfr1 & Hun).
  assert (∀ va, a ≤ va < a + n * PAGE_SIZE → is_usize va ∧ tag_of va = tag_of a ∧ tag_ok false (tag_of va) = true) as Hin.
  { intros va Hva. destruct (taken_in _ _ _ _ va Htk Hva) as [? Htv]. rewrite Htv, <- Hh. done. }
  destruct (regions_owned own _ pt a _ regions Hiso Hu Hme Hag Hin) as [HF Hnd].
  destruct (free_regions _ {| ktabs := t1; kva := kva (mem s) |} regions Hf1 Hnd) as (al & Hrun2 & Hf2 & Hiff).
  { eapply Forall_impl; [exact HF|]. intros g (? & ? & _ & _ & Ho). split_and!; try done. intros q Hq. unfold owned.
    by rewrite (Ho q Hq). }
  cbn [ktabs kva] in *. rewrite Hh in Hta.
  pose proof (space_unmapped R _ _ _ _ _ _ _ Hsp (proj1 (Huser _ Hu)) Hun ltac:(by rewrite Hh) ltac:(done)) as Hsp1.
  destruct (space_free pt _ _ a n Hsp1 ltac:(lia)) as (v' & Hrun3 & Hsp2 & Hfc).
  { split; [done|]. intros p Hp. destruct (taken_in _ _ _ _ p Htk Hp) as [Hup Htag].
    rewrite (Hun _ p (proj1 (Huser _ Hu)) Hup (λ _, Htag)). by rewrite decide_True. }
  eexists (drop_frames own regions), _. split.
  - unfold free_memory. erewrite bind_run by done. erewrite bind_run.
    2: { rewrite in_mem_tabs. fold pt. by rewrite Hrun. }
    erewrite bind_run.
    2: { unfold in_mem. cbn [set_ktabs set_mem mem kva]. by rewrite Hrun2. }
    unfold in_space. cbn [set_ktabs set_mem mem proc kva]. by rewrite Hrun3.
  - split; cbn; try done.
    + eapply forest_weaken; [exact Hf2|]. unfold owned, drop_frames. intros q. by case_decide.
    + apply (isolated_freed own (tables (ktabs (mem s))) _ pt a (a + n * PAGE_SIZE)); try done. by rewrite Z.mod_add.
    + by eapply keeps_unmapped_user.
    + by eexists.
    + intros va Hva. destruct (taken_in _ _ _ _ va Htk Hva) as [Huv Htv]. rewrite <- Htv in Hta. split.
      * apply translate_no_leaf. by rewrite (Hun _ va (proj1 (Huser _ Hu)) Huv (λ _, Htv)), decide_True.
      * destruct (regions_cover _ pt _ _ _ va Hme Hag Hva Hin) as (pa & ro & el0 & Htr & Hpa).
        exists pa, ro, el0. split; [done|]. rewrite Hiff; [tauto|]. unfold page_base. pdlia.
Qed.
End isolation.
