(* ===== verification/ProcWorld.v ===== *)
(** All processes at once: what holds after any sequence of allocations, frees and queue
    commands of any processes ([kernel/src/process/mod.rs], [kernel/src/process/commands.rs]).

    The state is that of the kernel's memory management and of every process; the history is
    the list of regions that are in use. *)
From S2P Require Import Prelude BitField Addresses PhysAlloc VirtAlloc Frames PageEntry Paging.
From S2P Require Import PagingTree MapRange UnmapRange PagingIter Spaces PhysBuffer MsgQueue Error Process ProcMem.

Record World := {
  wmem : KernelMem;
  procs : gmap Z Process;
}.

(** One process at work. *)
Definition system_of (w : World) (p : Process) : System := {| mem := wmem w; proc := p |}.
Definition set_system (w : World) (i : Z) (s : System) : World :=
  {| wmem := mem s; procs := <[i := proc s]> (procs w) |}.

(** A region in use: of which process, its address and length, and its address in the kernel
    if it is shared. *)
Record Region := {
  rg_pid : Z;
  rg_base : Z;
  rg_pages : Z;
  rg_kernel : option Z;
}.

Definition user_ranges (i : Z) (live : list Region) : list (Z * Z) :=
  omap (λ g, if rg_pid g =? i then Some (rg_base g, rg_pages g) else None) live.
Definition kernel_ranges (live : list Region) : list (Z * Z) :=
  omap (λ g, kb ← rg_kernel g; Some (kb, rg_pages g)) live.

Section world.
Context `{BF : BitField} (kernel_table : PageTable) (R user : Z → Prop).
Context (HR : R (level0_table kernel_table)) (Hkh : high_addresses kernel_table = true).
Context (Huser : ∀ r, user r → R r ∧ r ≠ level0_table kernel_table).
Implicit Types (own : Z → option (Z * Z)) (T : gmap Z LevelTable) (pt : PageTable) (g : Region).
Local Abbreviation kroot := (level0_table kernel_table).

(** A region is mapped, for the process and, if it is shared, at the same frames for the
    kernel. *)
Record region_ok pt T g : Prop := {
  ro_pages : 1 ≤ rg_pages g;
  ro_taken : ∃ v, taken_range pt v (rg_base g) (rg_pages g);
  ro_mapped : ∀ d, 0 ≤ d < rg_pages g * PAGE_SIZE → ∃ pa,
    translate T false (level0_table pt) (rg_base g + d) = Some (pa, false, true) ∧
    ∀ kb, rg_kernel g = Some kb → translate T true kroot (kb + d) = Some (pa, false, true);
  ro_exact : ∃ l, mapped_exactly T (level0_table pt) (rg_base g) (rg_base g + rg_pages g * PAGE_SIZE) l ∧
    Forall region_aligned l;
  ro_ktaken : ∀ kb, rg_kernel g = Some kb → ∃ V, taken_range kernel_table V kb (rg_pages g);
  ro_kexact : ∀ kb, rg_kernel g = Some kb →
    ∃ l, mapped_exactly T kroot kb (kb + rg_pages g * PAGE_SIZE) l;
}.

Record world_ok own (w : World) (live : list Region) : Prop := {
  wo_forest : forest R (owned own) (ktabs (wmem w));
  wo_isolated : isolated user own (tables (ktabs (wmem w)));
  wo_kernel : space_ok kernel_table (kva (wmem w)) (tables (ktabs (wmem w)));
  wo_procs : ∀ i p, procs w !! i = Some p → user (level0_table (page_tables p)) ∧
    high_addresses (page_tables p) = false ∧
    space_ok (page_tables p) (address_space_allocator p) (tables (ktabs (wmem w)));
  wo_roots : ∀ i j p q, procs w !! i = Some p → procs w !! j = Some q →
    level0_table (page_tables p) = level0_table (page_tables q) → i = j;
  wo_once : ∀ i p x, procs w !! i = Some p →
    free_cover (address_space_allocator p) x + cover_count (user_ranges i live) x ≤ 1;
  wo_konce : ∀ x, free_cover (kva (wmem w)) x + cover_count (kernel_ranges live) x ≤ 1;
  wo_live : ∀ g, g ∈ live → ∃ p, procs w !! rg_pid g = Some p ∧
    region_ok (page_tables p) (tables (ktabs (wmem w))) g;
}.

Lemma taken_tag pt v a n x : taken_range pt v a n → a ≤ x < a + n * PAGE_SIZE →
  is_usize x ∧ tag_ok (high_addresses pt) (tag_of x) = true.
Proof. intros Htk Hx. destruct (taken_in _ _ _ _ x Htk Hx) as [? ->]. split; [done|apply Htk]. Qed.

(** Two ranges with no address in common. *)
Definition apart (a n b m : Z) : Prop := ∀ x, covers x (a, n) + covers x (b, m) ≤ 1.

Lemma apart_out a n b m x : apart a n b m → a ≤ x < a + n * PAGE_SIZE → ¬ (b ≤ x < b + m * PAGE_SIZE).
Proof. intros Ha H1 H2. specialize (Ha x). unfold covers in Ha. cbn in Ha. rewrite !decide_True in Ha by done. lia. Qed.

(** A region is not touched by what happens elsewhere. *)
Lemma region_kept pt' T T' g pt a ka m : region_ok pt' T g → user (level0_table pt') →
  high_addresses pt' = false → user (level0_table pt) → high_addresses pt = false →
  keeps kernel_table R pt a ka m T T' →
  (level0_table pt' = level0_table pt → apart (rg_base g) (rg_pages g) a m) →
  (∀ kb kb', rg_kernel g = Some kb → ka = Some kb' → apart kb (rg_pages g) kb' m) →
  region_ok pt' T' g.
Proof.
  intros [Hp [v Htk] Hm (l & Hl & Hag) Hkt Hke] Hu' Hh' Hu Hh Hk Hap Hkap.
  destruct (Huser _ Hu') as [HR' Hne']. destruct (Huser _ Hu) as [_ Hne].
  assert (∀ x, rg_base g ≤ x < rg_base g + rg_pages g * PAGE_SIZE →
    leaf T' (level0_table pt') (idx x) = leaf T (level0_table pt') (idx x)) as Hleaf.
  { intros x Hx. destruct (taken_tag _ _ _ _ x Htk Hx) as [Hux Htx]. rewrite Hh' in Htx.
    apply Hk; [done|done|by rewrite Hh|done| |by intros kb _ [? _]].
    intros [Heq Hin]. by eapply apart_out; [apply Hap| |]. }
  assert (∀ kb x, rg_kernel g = Some kb → kb ≤ x < kb + rg_pages g * PAGE_SIZE →
    leaf T' kroot (idx x) = leaf T kroot (idx x)) as Hkleaf.
  { intros kb x Hkb Hx. destruct (Hkt kb Hkb) as [V HV].
    destruct (taken_tag _ _ _ _ x HV Hx) as [Hux Htx]. rewrite Hkh in Htx.
    apply Hk; [done|done|congruence|done|intros [? _]; congruence|].
    intros kb' Hkb' [_ Hin]. by eapply apart_out; [eapply Hkap| |]. }
  split; [done|by exists v| | |done|].
  - intros d Hd. destruct (Hm d Hd) as (pa & Hpa & Hkpa). exists pa. split.
    + rewrite <- Hpa. apply translate_ext, Hleaf. lia.
    + intros kb Hkb. rewrite <- (Hkpa kb Hkb). apply translate_ext. apply (Hkleaf kb); [done|lia].
  - exists l. split; [|done]. eapply (mapped_exactly_ext pt'); [exact Hl|]. exact Hleaf.
  - intros kb Hkb. destruct (Hke kb Hkb) as [l' Hl']. exists l'.
    eapply (mapped_exactly_ext kernel_table); [exact Hl'|]. intros x. by apply Hkleaf.
Qed.

Lemma free_outside v a m x : covers x (a, m) + free_cover v x ≤ 1 → 1 ≤ free_cover v x →
  ¬ (a ≤ x < a + m * PAGE_SIZE).
Proof. intros H1 H2 Hin. unfold covers in H1. cbn in H1. rewrite decide_True in H1 by done. lia. Qed.

Lemma space_kept_user pt' v T T' pt a ka m : space_ok pt' v T → user (level0_table pt') →
  high_addresses pt' = false → high_addresses pt = false → keeps kernel_table R pt a ka m T T' →
  (level0_table pt' = level0_table pt → ∀ x, covers x (a, m) + free_cover v x ≤ 1) →
  space_ok pt' v T'.
Proof.
  intros [Hwf Hal Hon Hfree] Hu' Hh' Hh Hk Hout. destruct (Huser _ Hu') as [HR' Hne'].
  split; [done..|]. intros x Hx. destruct (Hfree x Hx) as (Hux & Htx & Hl). split_and!; try done.
  rewrite <- Hl. rewrite Hh' in Htx. apply Hk; [done|done|by rewrite Hh|done| |by intros kb _ [? _]].
  intros [Heq Hin]. by eapply free_outside; [apply Hout| |].
Qed.

Lemma space_kept_kernel V T T' pt a ka m : space_ok kernel_table V T → user (level0_table pt) →
  keeps kernel_table R pt a ka m T T' → (∀ x, kcovers x ka m + free_cover V x ≤ 1) →
  space_ok kernel_table V T'.
Proof.
  intros [Hwf Hal Hon Hfree] Hu Hk Hout. destruct (Huser _ Hu) as [_ Hne].
  split; [done..|]. intros x Hx. destruct (Hfree x Hx) as (Hux & Htx & Hl). split_and!; try done.
  rewrite <- Hl. rewrite Hkh in Htx. apply Hk; [done|done|congruence|done|intros [? _]; congruence|].
  intros kb -> [_ Hin]. by eapply free_outside; [apply Hout| |].
Qed.

Lemma elem_user_ranges g live : g ∈ live → (rg_base g, rg_pages g) ∈ user_ranges (rg_pid g) live.
Proof. intros Hg. apply list_elem_of_omap. exists g. by rewrite Z.eqb_refl. Qed.
Lemma elem_kernel_ranges g live kb : g ∈ live → rg_kernel g = Some kb → (kb, rg_pages g) ∈ kernel_ranges live.
Proof. intros Hg Hk. apply list_elem_of_omap. exists g. by rewrite Hk. Qed.

Lemma covers_elem r l x : r ∈ l → covers x r ≤ cover_count l x.
Proof. intros [i Hi]%list_elem_of_lookup. by eapply cover_count_lookup. Qed.

(** The state changes at most in one range of one process, and of the kernel. *)
Lemma world_touch own w live i p own' s' a ka m live' : world_ok own w live →
  procs w !! i = Some p → page_tables (proc s') = page_tables p →
  (∀ g, g ∈ live' → g ∈ live) → let T' := tables (ktabs (mem s')) in
  forest R (owned own') (ktabs (mem s')) → isolated user own' T' →
  keeps kernel_table R (page_tables p) a ka m (tables (ktabs (wmem w))) T' →
  space_ok (page_tables p) (address_space_allocator (proc s')) T' →
  space_ok kernel_table (kva (mem s')) T' →
  (∀ x, free_cover (address_space_allocator (proc s')) x + cover_count (user_ranges i live') x ≤ 1) →
  (∀ x, free_cover (kva (mem s')) x + cover_count (kernel_ranges live') x ≤ 1) →
  (∀ x, covers x (a, m) + cover_count (user_ranges i live') x ≤ 1) →
  (∀ x, kcovers x ka m + cover_count (kernel_ranges live') x ≤ 1) →
  (∀ j q x, j ≠ i → procs w !! j = Some q →
     cover_count (user_ranges j live') x ≤ cover_count (user_ranges j live) x) →
  world_ok own' (set_system w i s') live'.
Proof.
  intros [Hf Hiso Hks Hps Hroots Honce Hkonce Hlive] Hi Hpt Hsub T' Hf' Hiso' Hk Hsp' Hks' Ho' Hko' Hap Hkap Hoth.
  destruct (Hps i p Hi) as (Hu & Hh & _).
  split; cbn [set_system wmem procs]; try done.
  - intros j q [[<- <-]|[Hne Hj]]%lookup_insert_Some; [by rewrite Hpt|].
    destruct (Hps j q Hj) as (Huq & Hhq & Hsq). split_and!; [done|done|].
    eapply (space_kept_user _ _ _ _ (page_tables p)); [done..|]. intros Heq. by destruct Hne; eapply Hroots.
  - intros j k q q' [[<- <-]|[Hne Hj]]%lookup_insert_Some [[<- <-]|[Hne' Hk']]%lookup_insert_Some;
      rewrite ?Hpt; [done|by apply Hroots..].
  - intros j q x [[<- <-]|[Hne Hj]]%lookup_insert_Some; [done|].
    specialize (Honce j q x Hj). specialize (Hoth j q x ltac:(done) Hj). lia.
  - intros g Hg. destruct (Hlive g (Hsub g Hg)) as (q & Hq & Hrg).
    destruct (Hps _ q Hq) as (Huq & Hhq & _).
    exists (if decide (rg_pid g = i) then proc s' else q). split.
    { case_decide as Hd; [by rewrite Hd, lookup_insert_eq|by rewrite lookup_insert_ne]. }
    assert (page_tables (if decide (rg_pid g = i) then proc s' else q) = page_tables q) as ->.
    { case_decide as Hd; [|done]. rewrite Hd, Hi in Hq. injection Hq as ->. done. }
    eapply (region_kept _ _ _ _ (page_tables p)); [done..| |].
    + intros Heq x. assert (rg_pid g = i) as Hgi by (by eapply Hroots).
      pose proof (covers_elem _ _ x (elem_user_ranges g live' Hg)) as Hc. rewrite Hgi in Hc. specialize (Hap x). lia.
    + intros kb kb' Hgk -> x. pose proof (covers_elem _ _ x (elem_kernel_ranges g live' kb Hg Hgk)) as Hc.
      specialize (Hkap x). cbn in Hkap. lia.
Qed.

Lemma acquired_world own w live i p s' a ka m own' t' : world_ok own w live → procs w !! i = Some p →
  acquired kernel_table (system_of w p) a ka m t' s' →
  consistent kernel_table R user (page_tables p) a ka m own (ktabs (wmem w)) own' t' →
  world_ok own' (set_system w i s') live.
Proof.
  intros Hw Hi [<- [v' Hv'] Hsp Hksp Hfc Hkfc _ _] [Hf' Hiso' _ Hk]. cbn [system_of mem proc] in *.
  pose proof Hw as [_ _ _ Hps _ Honce Hkonce _]. destruct (Hps i p Hi) as (Hu & Hh & _).
  apply (world_touch own w live i p own' s' a ka m live); try done; try (by rewrite Hv').
  - eapply (space_kept_user _ _ _ _ (page_tables p)); [done..|]. intros _ x.
    specialize (Hfc x). specialize (Honce i p x Hi). pose proof (cover_count_nonneg (user_ranges i live) x). lia.
  - eapply space_kept_kernel; [done..|]. intros x. specialize (Hkfc x). specialize (Hkonce x).
    pose proof (cover_count_nonneg (kernel_ranges live) x). lia.
  - intros x. specialize (Hfc x). specialize (Honce i p x Hi). pose proof (covers_bound x (a, m)). lia.
  - intros x. specialize (Hkfc x). specialize (Hkonce x).
    assert (0 ≤ kcovers x ka m) by (destruct ka; cbn; [apply covers_bound|lia]). lia.
  - intros x. specialize (Hfc x). specialize (Honce i p x Hi).
    pose proof (free_cover_nonneg (address_space_allocator (proc s')) x). lia.
  - intros x. specialize (Hkfc x). specialize (Hkonce x). pose proof (free_cover_nonneg (kva (mem s')) x). lia.
Qed.

Lemma cover_user_cons g i live x : cover_count (user_ranges i (g :: live)) x =
  (if rg_pid g =? i then covers x (rg_base g, rg_pages g) else 0) + cover_count (user_ranges i live) x.
Proof. unfold user_ranges. cbn [omap list_omap]. destruct (rg_pid g =? i); cbn; [by rewrite cover_count_cons|done]. Qed.
Lemma cover_kernel_cons g live x : cover_count (kernel_ranges (g :: live)) x =
  kcovers x (rg_kernel g) (rg_pages g) + cover_count (kernel_ranges live) x.
Proof. unfold kernel_ranges. cbn [omap list_omap]. destruct (rg_kernel g); cbn; [by rewrite cover_count_cons|done]. Qed.

(** A region more. *)
Lemma world_add own w live g p : world_ok own w live → procs w !! rg_pid g = Some p →
  region_ok (page_tables p) (tables (ktabs (wmem w))) g →
  (∀ x, free_cover (address_space_allocator p) x + covers x (rg_base g, rg_pages g)
          + cover_count (user_ranges (rg_pid g) live) x ≤ 1) →
  (∀ x, free_cover (kva (wmem w)) x + kcovers x (rg_kernel g) (rg_pages g)
          + cover_count (kernel_ranges live) x ≤ 1) →
  world_ok own w (g :: live).
Proof.
  intros [Hf Hiso Hks Hps Hroots Honce Hkonce Hlive] Hi Hrg Hu Hk. split; try done.
  - intros j q x Hj. rewrite cover_user_cons. destruct (Z.eqb_spec (rg_pid g) j) as [<-|Hne].
    + rewrite Hi in Hj. injection Hj as <-. specialize (Hu x). lia.
    + specialize (Honce j q x Hj). lia.
  - intros x. rewrite cover_kernel_cons. specialize (Hk x). lia.
  - intros g' [->|Hg]%elem_of_cons; [by exists p|by apply Hlive].
Qed.

Definition world_allocated w live i p n (share : bool) (r : res System Error (Z * option Z)) : Prop :=
  match r with
  | Ok (a, ka) s' => (share = true ↔ is_Some ka) ∧ (∃ v', proc s' = set_address_space p v') ∧ ∃ own',
      world_ok own' (set_system w i s') ({| rg_pid := i; rg_base := a; rg_pages := n; rg_kernel := ka |} :: live)
  | Err _ s' => (∃ v', proc s' = set_address_space p v') ∧ ∃ own', world_ok own' (set_system w i s') live
  | Stop _ => False
  end.

Lemma world_alloc own w live i p n share : world_ok own w live → procs w !! i = Some p → 1 ≤ n →
  alloc_aligned kernel_table n share (system_of w p) = true →
  world_allocated w live i p n share (alloc_memory kernel_table n share (system_of w p)).
Proof.
  intros Hw Hi Hn Hal. pose proof Hw as [Hf Hiso Hks Hps _ Honce Hkonce _].
  destruct (Hps i p Hi) as (Hu & Hh & Hsp).
  pose proof (alloc_memory_run kernel_table R user HR Hkh Huser own (system_of w p) n share
    Hf Hiso Hu Hh Hn Hal Hsp Hks) as Ho.
  destruct (alloc_memory kernel_table n share (system_of w p)) as [[a ka] s'|e s'|e]; [| |done]; cbn in Ho |- *.
  - destruct Ho as (Hsh & own' & t' & Hacq & [Hc Hm Hl Hkl]). split; [done|].
    split; [apply (aq_proc _ _ _ _ _ _ _ Hacq)|]. exists own'.
    pose proof (acquired_world _ _ _ _ _ _ _ _ _ _ _ Hw Hi Hacq Hc) as Hw'.
    destruct Hacq as [<- [v' Hv'] _ _ Hfc Hkfc Hfr Hkfr]. cbn [system_of mem proc] in *.
    apply (world_add _ _ _ _ (proc s') Hw'); cbn [set_system procs wmem rg_pid rg_base rg_pages rg_kernel].
    + apply lookup_insert_eq.
    + rewrite Hv'. cbn. split; cbn; try done.
      * eexists. apply Hfr. lia.
      * intros d Hd. destruct (Hm d Hd) as (pa & H1 & _ & H2). by exists pa.
      * intros kb Hkb. eexists. apply (Hkfr ltac:(lia) kb Hkb).
    + intros x. specialize (Hfc x). specialize (Honce i p x Hi). lia.
    + intros x. specialize (Hkfc x). specialize (Hkonce x). lia.
  - destruct Ho as (a & ka & m & own' & t' & Hacq & Hc). split; [apply (aq_proc _ _ _ _ _ _ _ Hacq)|].
    exists own'. by eapply acquired_world.
Qed.

Lemma cover_user_middle g i l1 l2 x : cover_count (user_ranges i (l1 ++ g :: l2)) x =
  (if rg_pid g =? i then covers x (rg_base g, rg_pages g) else 0) + cover_count (user_ranges i (l1 ++ l2)) x.
Proof.
  unfold user_ranges. rewrite !omap_app, !cover_count_app.
  pose proof (cover_user_cons g i l2 x) as H. unfold user_ranges in H. rewrite H. lia.
Qed.
Lemma cover_kernel_middle g l1 l2 x : cover_count (kernel_ranges (l1 ++ g :: l2)) x =
  kcovers x (rg_kernel g) (rg_pages g) + cover_count (kernel_ranges (l1 ++ l2)) x.
Proof.
  unfold kernel_ranges. rewrite !omap_app, !cover_count_app.
  pose proof (cover_kernel_cons g l2 x) as H. unfold kernel_ranges in H. rewrite H. lia.
Qed.
Lemma kcovers_nonneg x ka n : 0 ≤ kcovers x ka n.
Proof. destruct ka; cbn; [apply covers_bound|lia]. Qed.

Lemma taken_again pt v v' a n : taken_range pt v a n →
  (∀ x, free_cover v' x + covers x (a, n) ≤ 1) → taken_range pt v' a n.
Proof.
  intros [H1 H2 H3 H4 H5 _] Hc. split; try done. intros x Hx. specialize (Hc x).
  unfold covers in Hc. cbn in Hc. rewrite decide_True in Hc by done. pose proof (free_cover_nonneg v' x). lia.
Qed.

Lemma world_free own w l1 g l2 p : world_ok own w (l1 ++ g :: l2) → procs w !! rg_pid g = Some p →
  ∃ s', free_memory (rg_base g) (rg_pages g) (system_of w p) = Ok tt s' ∧ kva (mem s') = kva (wmem w) ∧
    keeps kernel_table R (page_tables p) (rg_base g) None (rg_pages g) (tables (ktabs (wmem w)))
      (tables (ktabs (mem s'))) ∧
    (∃ v', proc s' = set_address_space p v') ∧
    (∀ x, free_cover (address_space_allocator (proc s')) x
            = free_cover (address_space_allocator p) x + covers x (rg_base g, rg_pages g)) ∧
    (∀ va, rg_base g ≤ va < rg_base g + rg_pages g * PAGE_SIZE →
       translate (tables (ktabs (mem s'))) false (level0_table (page_tables p)) va = None ∧
       ∃ pa ro el0,
         translate (tables (ktabs (wmem w))) false (level0_table (page_tables p)) va = Some (pa, ro, el0) ∧
         ¬ frame_allocated (frames (ktabs (mem s'))) (page_base pa)) ∧
    ∃ own', world_ok own' (set_system w (rg_pid g) s') (l1 ++ l2).
Proof.
  intros Hw Hi. pose proof Hw as [Hf Hiso Hks Hps _ Honce Hkonce Hlive].
  destruct (Hps _ p Hi) as (Hu & Hh & Hsp).
  destruct (Hlive g ltac:(set_solver)) as (q & Hq & [Hn [v Htk] _ (l & Hl & Hag) _ _]).
  rewrite Hi in Hq. injection Hq as <-. set (i := rg_pid g) in *.
  assert (∀ x, free_cover (address_space_allocator p) x + covers x (rg_base g, rg_pages g)
    + cover_count (user_ranges i (l1 ++ l2)) x ≤ 1) as Hone.
  { intros x. specialize (Honce i p x Hi). rewrite cover_user_middle in Honce. fold i in Honce.
    rewrite Z.eqb_refl in Honce. lia. }
  assert (taken_range (page_tables p) (address_space_allocator p) (rg_base g) (rg_pages g)) as Htk'.
  { eapply taken_again; [exact Htk|]. intros x. specialize (Hone x).
    pose proof (cover_count_nonneg (user_ranges i (l1 ++ l2)) x). lia. }
  destruct (free_memory_run kernel_table R user Huser own (system_of w p) _ _ l Hf Hiso Hu Hh Hn Hsp Htk' Hl Hag)
    as (own' & s' & Hrun & [Hf' Hiso' Hk Hkva [v' Hv'] Hsp' Hfc Hgone]). cbn [system_of mem proc] in *.
  exists s'. split_and!; try done; [by exists v'|]. exists own'.
  apply (world_touch own w (l1 ++ g :: l2) i p own' s' (rg_base g) None (rg_pages g)); try done.
  - by rewrite Hv'.
  - set_solver.
  - rewrite Hkva. eapply space_kept_kernel; [done..|]. intros x. cbn. specialize (Hkonce x).
    pose proof (cover_count_nonneg (kernel_ranges (l1 ++ g :: l2)) x). lia.
  - intros x. specialize (Hfc x). specialize (Hone x). lia.
  - intros x. rewrite Hkva. specialize (Hkonce x). rewrite cover_kernel_middle in Hkonce.
    pose proof (kcovers_nonneg x (rg_kernel g) (rg_pages g)). lia.
  - intros x. specialize (Hone x). pose proof (free_cover_nonneg (address_space_allocator p) x). lia.
  - intros x. cbn. specialize (Hkonce x). rewrite cover_kernel_middle in Hkonce.
    pose proof (kcovers_nonneg x (rg_kernel g) (rg_pages g)). pose proof (free_cover_nonneg (kva (wmem w)) x). lia.
  - intros j q x Hne _. rewrite cover_user_middle. fold i.
    destruct (Z.eqb_spec i j); [done|lia].
Qed.

Lemma user_ranges_usize own w live i x : world_ok own w live → x < 0 → cover_count (user_ranges i live) x = 0.
Proof.
  intros Hw Hx. pose proof (cover_count_nonneg (user_ranges i live) x) as H0.
  destruct (decide (1 ≤ cover_count (user_ranges i live) x)) as [H1|H1]; [exfalso|lia].
  apply cover_count_pos in H1 as (r & Hr & Hin). apply list_elem_of_omap in Hr as (g & Hg & Hgr).
  destruct (rg_pid g =? i); [|done]. injection Hgr as <-. cbn in Hin.
  destruct (wo_live _ _ _ Hw g Hg) as (p & _ & [_ [v [[? _] _ _ _ _ _]] _ _ _ _]). lia.
Qed.

Lemma isolated_unmapped own T T' kb b : isolated user own T → UnmapRange.unmapped R kernel_table kb T T' kb b →
  isolated user own T'.
Proof.
  intros Hiso Hun r va pa ro el0 Hr Hva Htr. destruct (Huser _ Hr) as [HRr Hne].
  apply (Hiso r va pa ro el0 Hr Hva). rewrite <- Htr. symmetry. apply translate_ext.
  rewrite (Hun r va HRr Hva); [by rewrite decide_False by tauto|done].
Qed.

(** Removing a range of the kernel that is set aside and no longer counts as shared. *)
Lemma world_unmap_kernel own w live i p kb n V l : world_ok own w live → procs w !! i = Some p →
  0 ≤ n → taken_range kernel_table V kb n →
  mapped_exactly (tables (ktabs (wmem w))) kroot kb (kb + n * PAGE_SIZE) l →
  (∀ x, free_cover (kva (wmem w)) x + covers x (kb, n) + cover_count (kernel_ranges live) x ≤ 1) →
  ∃ s', in_mem "" (with_tabs (unmap_range kernel_table kb n)) (system_of w p) = Ok tt s' ∧
    proc s' = p ∧ world_ok own (set_system w i s') live.
Proof.
  intros Hw Hi Hn Htk Hl Hone. pose proof Hw as [Hf Hiso Hks Hps _ Honce Hkonce Hlive].
  destruct (Hps _ p Hi) as (Hu & Hh & Hsp). pose proof Htk as [Hua Ham Hta Hte Htop _].
  destruct (unmap_mapped R _ _ _ kb n l Hf HR Hua ltac:(lia) Hte Hl) as (t1 & Hrun & Hf1 & Hfr1 & Hun).
  set (a := - (n * PAGE_SIZE)).
  pose proof (keeps_unmapped_kernel kernel_table R Hkh (page_tables p) V kb a n _ _ Hun Htk) as Hk.
  exists (set_ktabs (system_of w p) t1). split; [|split; [done|]].
  { rewrite in_mem_tabs. unfold unmap_range. cbn [system_of mem]. by erewrite bind_run by exact Hrun. }
  assert (∀ x, covers x (a, n) = 0 ∨ x < 0) as Hneg.
  { intros x. unfold covers, a. cbn. case_decide; [right; lia|by left]. }
  assert (∀ x, kcovers x (Some kb) n + free_cover (kva (wmem w)) x ≤ 1) as Hkone.
  { intros x. specialize (Hone x). pose proof (cover_count_nonneg (kernel_ranges live) x). cbn. lia. }
  apply (world_touch own w live i p own _ a (Some kb) n live); try done; cbn [set_ktabs set_mem mem ktabs proc kva system_of].
  - by eapply isolated_unmapped.
  - eapply (space_kept_user _ _ _ _ (page_tables p)); [done..|]. intros _ x.
    destruct (Hneg x) as [->|Hx]; [apply Hsp|]. pose proof (so_free _ _ _ Hsp x) as Hfree.
    pose proof (covers_bound x (a, n)). destruct (decide (1 ≤ free_cover (address_space_allocator p) x)) as [H1|]; [|lia].
    destruct (Hfree H1) as [[? _] _]. lia.
  - by eapply space_kept_kernel.
  - intros x. by apply Honce.
  - intros x. destruct (Hneg x) as [->|Hx].
    + specialize (Honce i p x Hi). pose proof (free_cover_nonneg (address_space_allocator p) x). lia.
    + rewrite (user_ranges_usize _ _ _ _ _ Hw Hx). pose proof (covers_bound x (a, n)). lia.
  - intros x. specialize (Hone x). cbn. pose proof (free_cover_nonneg (kva (wmem w)) x). lia.
Qed.

Lemma set_system_twice w i s1 s2 : set_system (set_system w i s1) i s2 = set_system w i s2.
Proof. unfold set_system. cbn. by rewrite insert_insert_eq. Qed.
Lemma system_of_set w i s : system_of (set_system w i s) (proc s) = s.
Proof. by destruct s. Qed.

(** A shared region is given back and unmapped from the kernel. *)
Lemma world_release own w l1 g l2 p kb : world_ok own w (l1 ++ g :: l2) → procs w !! rg_pid g = Some p →
  rg_kernel g = Some kb →
  ∃ s', (free_memory (rg_base g) (rg_pages g);;
         in_mem "" (with_tabs (unmap_range kernel_table kb (rg_pages g)))) (system_of w p) = Ok tt s' ∧
    (∃ v', proc s' = set_address_space p v') ∧
    ∃ own', world_ok own' (set_system w (rg_pid g) s') (l1 ++ l2).
Proof.
  intros Hw Hi Hgk. destruct (world_free _ _ _ _ _ _ Hw Hi) as (s1 & Hrun & Hkva & Hk & [v' Hv'] & _ & _ & own' & Hw').
  destruct (wo_live _ _ _ Hw g ltac:(set_solver)) as (q & Hq & [Hn _ _ _ Hkt Hke]).
  rewrite Hi in Hq. injection Hq as <-. destruct (Hkt kb Hgk) as [V HV]. destruct (Hke kb Hgk) as [l Hl].
  destruct (wo_procs _ _ _ Hw _ p Hi) as (Hu & Hh & _). destruct (Huser _ Hu) as [_ Hne].
  destruct (world_unmap_kernel own' _ (l1 ++ l2) (rg_pid g) (proc s1) kb (rg_pages g) V l Hw'
    (lookup_insert_eq _ _ _) ltac:(lia) HV) as (s2 & Hrun2 & Hp2 & Hw2).
  - eapply (mapped_exactly_ext kernel_table); [exact Hl|]. intros x Hx.
    destruct (taken_tag _ _ _ _ x HV Hx) as [Hux Htx]. rewrite Hkh in Htx.
    apply Hk; [done|done|congruence|done|intros [? _]; congruence|done].
  - intros x. cbn. rewrite Hkva. pose proof (wo_konce _ _ _ Hw x) as Hone.
    rewrite cover_kernel_middle, Hgk in Hone. cbn in Hone. lia.
  - exists s2. rewrite system_of_set in Hrun2. rewrite set_system_twice in Hw2. split_and!.
    + by erewrite bind_run by exact Hrun.
    + exists v'. by rewrite Hp2.
    + by exists own'.
Qed.
End world.
