(* ===== verification/ProcQueues.v ===== *)
(** The queue commands of processes ([kernel/src/process/commands.rs]) in any order and by
    any processes, together with allocations and frees of their heaps: processes stay
    isolated, and every queue is memory that the process and the kernel share. *)
From S2P Require Import Prelude BitField Addresses PhysAlloc VirtAlloc Frames PageEntry Paging.
From S2P Require Import PagingTree MapRange UnmapRange PagingIter Spaces PhysBuffer MsgQueue Error Process ProcMem.
From S2P Require Import ProcWorld.

Definition queue_id (q : UserQueue) : Z := MsgQueue.id (uq_queue q).
Definition all_queues (p : Process) : list UserQueue := map fst (send_queues p) ++ recv_queues p.

(** The identifiers a process may still be given are those from here on. *)
Definition id_bound (p : Process) : Z := if next_queue_id p =? 0 then 2 ^ 16 else next_queue_id p.

Definition region_of (L : Layouts) (i : Z) (q : UserQueue) : option Region :=
  '(user_addr, kernel_addr, n) ← memory_region L q;
  Some {| rg_pid := i; rg_base := user_addr; rg_pages := n; rg_kernel := Some kernel_addr |}.

(** The memory of the queues of all processes. *)
Definition queue_regions (L : Layouts) (i : Z) (p : Process) : list Region :=
  omap (region_of L i) (all_queues p).
Definition shared_live (L : Layouts) (ps : gmap Z Process) : list Region :=
  concat (map (λ x, queue_regions L x.1 x.2) (map_to_list ps)).

Section queues.
Context `{BF : BitField} (kernel_table : PageTable) (R user : Z → Prop) (L : Layouts).
Context (HR : R (level0_table kernel_table)) (Hkh : high_addresses kernel_table = true).
Context (Huser : ∀ r, user r → R r ∧ r ≠ level0_table kernel_table).
Implicit Types (own : Z → option (Z * Z)) (p : Process) (w : World) (live heap : list Region).

Local Abbreviation world_ok := (world_ok kernel_table R user).

(** A queue of this size has at least a page, and the runs of frames that it would get now are
    aligned for the page tables.  The latter holds of any queue of fewer than 512 pages. *)
Definition queue_fits (t : message) (size : Z) (s : System) : Prop :=
  0 ≤ size < 2 ^ 32 ∧ ∃ n, queue_pages L t size = Some n ∧ 1 ≤ n ∧ alloc_aligned kernel_table n true s = true.
Definition small_queue (t : message) (size : Z) : Prop :=
  0 ≤ size < 2 ^ 32 ∧ ∃ n, queue_pages L t size = Some n ∧ 1 ≤ n < 512.

Lemma small_queue_fits t size s : small_queue t size → queue_fits t size s.
Proof. intros [H (n & Hn & Hn')]. split; [done|]. exists n. split_and!; [done|lia|]. apply small_alloc. lia. Qed.

(** What processes do with memory.  They free what they were given: [HeapFree] takes any address,
    but on others than these it panics or breaks up memory that is in use. *)
Inductive mem_step : World * list Region → World * list Region → Prop :=
  | ms_alloc w heap i p n a ka s : procs w !! i = Some p → 1 ≤ n →
      alloc_aligned kernel_table n false (system_of w p) = true →
      alloc_memory kernel_table n false (system_of w p) = Ok (a, ka) s →
      mem_step (w, heap)
        (set_system w i s, {| rg_pid := i; rg_base := a; rg_pages := n; rg_kernel := ka |} :: heap)
  | ms_alloc_err w heap i p n e s : procs w !! i = Some p → 1 ≤ n →
      alloc_aligned kernel_table n false (system_of w p) = true →
      alloc_memory kernel_table n false (system_of w p) = Err e s →
      mem_step (w, heap) (set_system w i s, heap)
  | ms_free w h1 g h2 p s : procs w !! rg_pid g = Some p →
      free_memory (rg_base g) (rg_pages g) (system_of w p) = Ok tt s →
      mem_step (w, h1 ++ g :: h2) (set_system w (rg_pid g) s, h1 ++ h2)
  | ms_create_completion w heap i p size s : procs w !! i = Some p →
      queue_fits CompletionMsg size (system_of w p) →
      (∃ nq, create_completion_queue kernel_table L size (system_of w p) = Ok nq s) ∨
      (∃ e, create_completion_queue kernel_table L size (system_of w p) = Err e s) →
      mem_step (w, heap) (set_system w i s, heap)
  | ms_create_submission w heap i p size c s : procs w !! i = Some p →
      queue_fits CommandMsg size (system_of w p) →
      (∃ nq, create_submission_queue kernel_table L size c (system_of w p) = Ok nq s) ∨
      (∃ e, create_submission_queue kernel_table L size c (system_of w p) = Err e s) →
      mem_step (w, heap) (set_system w i s, heap)
  | ms_destroy w heap i p c s : procs w !! i = Some p →
      destroy_queue kernel_table L c (system_of w p) = Ok tt s ∨
      (∃ e, destroy_queue kernel_table L c (system_of w p) = Err e s) →
      mem_step (w, heap) (set_system w i s, heap).

(** The queues of one process. *)
Record queues_ok p : Prop := {
  qo_regions : Forall (λ q, is_Some (memory_region L q)) (all_queues p);
  qo_ids : NoDup (map queue_id (all_queues p));
  qo_bound : Forall (λ q, 1 ≤ queue_id q < id_bound p) (all_queues p);
  qo_next : 0 ≤ next_queue_id p < 2 ^ 16;
  qo_assoc : ∀ sq rq, (sq, rq) ∈ send_queues p → rq ∈ recv_queues p;
}.

Definition all_ok w heap : Prop :=
  (∃ own, world_ok own w (heap ++ shared_live L (procs w))) ∧
  ∀ i p, procs w !! i = Some p → queues_ok p.

(** *** The order of the regions does not matter *)

Lemma cover_count_permutation l l' x : l ≡ₚ l' → cover_count l x = cover_count l' x.
Proof. induction 1; rewrite ?cover_count_cons; lia. Qed.

Lemma world_permutation own w live live' : live ≡ₚ live' → world_ok own w live → world_ok own w live'.
Proof.
  intros Hp [Hf Hiso Hks Hps Hroots Honce Hkonce Hlive]. split; try done.
  - intros i p x Hi. unfold user_ranges. rewrite (cover_count_permutation _ (user_ranges i live));
      [by eapply Honce|unfold user_ranges; by rewrite Hp].
  - intros x. unfold kernel_ranges. rewrite (cover_count_permutation _ (kernel_ranges live));
      [by apply Hkonce|unfold kernel_ranges; by rewrite Hp].
  - intros g Hg. apply Hlive. by rewrite Hp.
Qed.

(** What a process knows of its queues is no concern of memory management. *)
Lemma world_same own w live i p p' : world_ok own w live → procs w !! i = Some p →
  page_tables p' = page_tables p → address_space_allocator p' = address_space_allocator p →
  world_ok own (set_system w i (system_of w p')) live.
Proof.
  intros [Hf Hiso Hks Hps Hroots Honce Hkonce Hlive] Hi Hpt Hv.
  split; cbn [set_system system_of wmem procs mem proc]; try done.
  - intros j q [[<- <-]|[Hne Hj]]%lookup_insert_Some; [|by eapply Hps]. rewrite Hpt, Hv. by eapply Hps.
  - intros j k q q' [[<- <-]|[Hne Hj]]%lookup_insert_Some [[<- <-]|[Hne' Hk']]%lookup_insert_Some;
      rewrite ?Hpt; [done|by apply Hroots..].
  - intros j q x [[<- <-]|[Hne Hj]]%lookup_insert_Some; [rewrite Hv|]; by eapply Honce.
  - intros g Hg. destruct (Hlive g Hg) as (q & Hq & Hrg).
    destruct (decide (rg_pid g = i)) as [Hgi|Hgi].
    + exists p'. rewrite Hgi, lookup_insert_eq, Hpt. rewrite Hgi, Hi in Hq. injection Hq as <-. done.
    + exists q. by rewrite lookup_insert_ne.
Qed.

(** The regions of one process among all. *)
Lemma shared_split ps i p : ps !! i = Some p → ∃ rest,
  shared_live L ps ≡ₚ queue_regions L i p ++ rest ∧
  ∀ p', shared_live L (<[i := p']> ps) ≡ₚ queue_regions L i p' ++ rest.
Proof.
  intros Hi. exists (shared_live L (delete i ps)).
  assert (∀ p', shared_live L (<[i := p']> ps) ≡ₚ queue_regions L i p' ++ shared_live L (delete i ps)) as H.
  { intros p'. rewrite <- insert_delete_eq. unfold shared_live.
    rewrite map_to_list_insert by apply lookup_delete_eq. done. }
  split; [|done]. rewrite <- (H p). by rewrite insert_id.
Qed.

(** *** New queues *)

Lemma kernel_nonzero own w live g kb : world_ok own w live → g ∈ live → rg_kernel g = Some kb → kb ≠ 0.
Proof.
  intros Hw Hg Hkb ->. destruct (wo_live _ _ _ _ _ _ Hw g Hg) as (p & _ & Hrg).
  destruct (ro_ktaken _ _ _ _ Hrg 0 Hkb) as [V HV]. pose proof (tr_tag _ _ _ _ HV) as Ht.
  by rewrite Hkh in Ht.
Qed.

Lemma new_fits i n : 1 ≤ n < 2 ^ 32 → ∃ q, MsgQueue.new i n = Some q ∧ MsgQueue.id q = i ∧ capacity q = n.
Proof.
  intros Hn. unfold MsgQueue.new. replace (0 <? n) with true by lia. rewrite uadd_ok by lia. cbn.
  unfold next_power_of_two. replace (n + 1 <=? 1) with false by lia. cbn.
  assert (Z.log2 (n + 1 - 1) < 32) by (apply Z.log2_lt_pow2; lia).
  assert (2 ^ (Z.log2 (n + 1 - 1) + 1) ≤ 2 ^ 32) by (apply Z.pow_le_mono_r; lia).
  replace (2 ^ (Z.log2 (n + 1 - 1) + 1) <? U64) with true by lia. cbn. by eexists.
Qed.

(** What [create_queue] may do. *)
Definition queue_created w live i p (t : message) (r : res System Error (UserQueue * (Z * Z))) : Prop :=
  match r with
  | Ok (q, _) s => queue_id q = next_queue_id p ∧ next_queue_id p ≠ 0 ∧
      (∃ v, proc s = set_address_space (set_next_queue_id p ((next_queue_id p + 1) mod 2 ^ 16)) v) ∧
      ∃ g, region_of L i q = Some g ∧ ∃ own, world_ok own (set_system w i s) (g :: live)
  | Err _ s => (∃ v k, proc s = set_address_space (set_next_queue_id p k) v ∧
        (k = next_queue_id p ∨ next_queue_id p ≠ 0 ∧ k = (next_queue_id p + 1) mod 2 ^ 16)) ∧
      ∃ own, world_ok own (set_system w i s) live
  | Stop _ => False
  end.

Lemma same_process p : p = set_address_space (set_next_queue_id p (next_queue_id p)) (address_space_allocator p).
Proof. by destruct p. Qed.

Lemma world_unchanged own w live i p : world_ok own w live → procs w !! i = Some p →
  world_ok own (set_system w i (system_of w p)) live.
Proof. intros Hw Hi. by apply (world_same own w live i p p). Qed.

Lemma create_queue_run own w live i p t size : world_ok own w live → procs w !! i = Some p →
  queue_fits t size (system_of w p) → queue_created w live i p t (create_queue kernel_table L t size (system_of w p)).
Proof.
  intros Hw Hi [Hsz (n & Hn & Hn' & Hal)]. unfold create_queue.
  destruct (Z.eqb_spec size 0) as [->|Hs0].
  { cbn. split; [|exists own; by apply world_unchanged]. eexists _, _. split; [apply same_process|by left]. }
  rewrite bind_unfold. unfold take_queue_id at 1. erewrite bind_run by done.
  destruct (Z.eqb_spec (next_queue_id (proc (system_of w p))) 0) as [Hz|Hnz]; cbn in Hz || cbn in Hnz.
  { cbn. split; [|exists own; by apply world_unchanged]. eexists _, _. split; [apply same_process|by left]. }
  erewrite bind_run by done. cbv iota beta delta [mret M_ret].
  set (p1 := set_next_queue_id p ((next_queue_id p + 1) mod 2 ^ 16)).
  change (set_proc (system_of w p) _) with (system_of w p1).
  pose proof (world_same own w live i p p1 Hw Hi eq_refl eq_refl) as Hw1.
  erewrite bind_run by (apply lift_Ok; by split).
  pose proof (world_alloc kernel_table R user HR Hkh Huser own _ live i p1 n true Hw1
    (lookup_insert_eq _ _ _) Hn' Hal) as Ha. change (system_of (set_system w i (system_of w p1)) p1) with (system_of w p1) in Ha.
  rewrite bind_unfold. destruct (alloc_memory kernel_table n true (system_of w p1)) as [[a ka] s|e s|wh]; [| |done];
    cbn in Ha; rewrite set_system_twice in Ha.
  2: { destruct Ha as [[v Hv] Hown]. split; [|done]. exists v, ((next_queue_id p + 1) mod 2 ^ 16). split; [done|by right]. }
  destruct Ha as (Hsh & [v Hv] & own' & Hw').
  destruct ka as [kb|]; [|by destruct Hsh as [[? ?] _]].
  pose proof (kernel_nonzero _ _ _ _ kb Hw' ltac:(left) eq_refl) as Hkb.
  erewrite bind_run by (apply lift_Ok; by split).
  destruct (new_fits (next_queue_id p) size ltac:(lia)) as (q & Hq & Hqi & Hqc).
  cbn [negb]. replace (kb =? 0) with false by lia. erewrite bind_run by done.
  erewrite bind_run by (apply lift_Ok; by split).
  cbn. split_and!; [done|done|by exists v|]. eexists. split.
  - unfold region_of, memory_region. cbn. rewrite Hqc, Hn. done.
  - by exists own'.
Qed.

(** The next identifier, or the same one again after an early error. *)
Definition next_ids (old new : Z) : Prop := new = old ∨ old ≠ 0 ∧ new = (old + 1) mod 2 ^ 16.

Lemma id_bound_next p k : 0 ≤ next_queue_id p < 2 ^ 16 → next_ids (next_queue_id p) k →
  0 ≤ k < 2 ^ 16 ∧ id_bound p ≤ id_bound (set_next_queue_id p k).
Proof. unfold next_ids, id_bound. cbn. intros Hn Hk. repeat case_match; dlia. Qed.

Lemma id_bound_taken p : 0 ≤ next_queue_id p < 2 ^ 16 → next_queue_id p ≠ 0 →
  next_queue_id p < id_bound (set_next_queue_id p ((next_queue_id p + 1) mod 2 ^ 16)) ∧
  id_bound p = next_queue_id p.
Proof. unfold id_bound. cbn. intros Hn Hk. repeat case_match; dlia. Qed.

Lemma queues_ok_next p k v : queues_ok p → next_ids (next_queue_id p) k →
  queues_ok (set_address_space (set_next_queue_id p k) v).
Proof.
  intros [Hr Hi Hb Hn Ha] Hk. destruct (id_bound_next p k Hn Hk) as [Hk' Hb']. split; try done.
  eapply Forall_impl; [exact Hb|]. cbn. intros q. change (id_bound (set_address_space _ v)) with (id_bound (set_next_queue_id p k)).
  lia.
Qed.

(** A process with one more queue: its identifier is new. *)
Lemma queues_ok_add p q p' : queues_ok p → queue_id q = next_queue_id p → next_queue_id p ≠ 0 →
  is_Some (memory_region L q) → next_queue_id p' = (next_queue_id p + 1) mod 2 ^ 16 →
  all_queues p' ≡ₚ q :: all_queues p →
  (∀ sq rq, (sq, rq) ∈ send_queues p' → rq ∈ recv_queues p') → queues_ok p'.
Proof.
  intros [Hr Hi Hb Hn Ha] Hq Hnz Hm Hnext Hall Has. destruct (id_bound_taken p Hn Hnz) as [Hb1 Hb2].
  assert (id_bound p' = id_bound (set_next_queue_id p ((next_queue_id p + 1) mod 2 ^ 16))) as Hb3.
  { unfold id_bound. cbn. by rewrite Hnext. }
  split; try done.
  - rewrite Hall. by constructor.
  - rewrite Hall. cbn. apply NoDup_cons. split; [|done]. intros Hin.
    apply list_elem_of_fmap in Hin as (q' & Heq & Hin). rewrite Forall_forall in Hb. specialize (Hb q' Hin). lia.
  - rewrite Hall, Hb3. constructor; [lia|]. eapply Forall_impl; [exact Hb|]. cbn. intros q'. lia.
  - rewrite Hnext. pose proof (Z.mod_pos_bound (next_queue_id p + 1) (2 ^ 16)). lia.
Qed.

Lemma all_ok_procs w heap i s : (∃ own, world_ok own (set_system w i s) (heap ++ shared_live L (<[i := proc s]> (procs w)))) →
  queues_ok (proc s) → (∀ j q, procs w !! j = Some q → queues_ok q) → all_ok (set_system w i s) heap.
Proof.
  intros Hw Hq Hqs. split; [done|]. cbn [set_system procs]. intros j q [[<- <-]|[_ Hj]]%lookup_insert_Some; [done|by eapply Hqs].
Qed.

Lemma region_of_Some i q g : region_of L i q = Some g → is_Some (memory_region L q).
Proof. unfold region_of. destruct (memory_region L q); [by eexists|done]. Qed.

(** The regions of all after those of one process changed by one. *)
Lemma regions_add heap ps i p p' q g : ps !! i = Some p → all_queues p' ≡ₚ q :: all_queues p →
  region_of L i q = Some g →
  g :: heap ++ shared_live L ps ≡ₚ heap ++ shared_live L (<[i := p']> ps).
Proof.
  intros Hi Hall Hg. destruct (shared_split ps i p Hi) as (rest & Hr & Hr'). rewrite Hr, Hr'.
  unfold queue_regions. rewrite Hall. cbn [omap list_omap]. rewrite Hg. cbn.
  by rewrite Permutation_middle.
Qed.

Lemma regions_same ps i p p' : ps !! i = Some p → all_queues p' = all_queues p →
  shared_live L ps ≡ₚ shared_live L (<[i := p']> ps).
Proof.
  intros Hi Hall. destruct (shared_split ps i p Hi) as (rest & Hr & Hr'). rewrite Hr, Hr'.
  unfold queue_regions. by rewrite Hall.
Qed.

(** The command ends, well or with an error, in a state that is still as it should be. *)
Definition ends_ok {A} w heap i (r : res System Error A) : Prop :=
  match r with Ok _ s | Err _ s => all_ok (set_system w i s) heap | Stop _ => False end.

Lemma created_err w heap i p k v s own : all_ok w heap → procs w !! i = Some p →
  proc s = set_address_space (set_next_queue_id p k) v → next_ids (next_queue_id p) k →
  world_ok own (set_system w i s) (heap ++ shared_live L (procs w)) → all_ok (set_system w i s) heap.
Proof.
  intros [_ Hqs] Hi Hs Hk Hw. apply all_ok_procs; [|rewrite Hs; by apply queues_ok_next, Hk; apply (Hqs i)|done].
  exists own. eapply world_permutation; [|exact Hw]. apply Permutation_app_head.
  eapply regions_same; [exact Hi|]. by rewrite Hs.
Qed.

Lemma created_ok w heap i p q g v s own sq rq : all_ok w heap → procs w !! i = Some p →
  queue_id q = next_queue_id p → next_queue_id p ≠ 0 → region_of L i q = Some g →
  proc s = set_address_space (set_next_queue_id p ((next_queue_id p + 1) mod 2 ^ 16)) v →
  world_ok own (set_system w i s) (g :: heap ++ shared_live L (procs w)) →
  map fst sq ++ rq ≡ₚ q :: all_queues p → (∀ x y, (x, y) ∈ sq → y ∈ rq) →
  all_ok (set_system w i (set_proc s (set_queues (proc s) sq rq))) heap.
Proof.
  intros [_ Hqs] Hi Hq Hnz Hg Hs Hw Hall Has. set (p' := set_queues (proc s) sq rq).
  pose proof (world_same own _ _ i (proc s) p' Hw (lookup_insert_eq _ _ _) eq_refl eq_refl) as Hw'.
  rewrite set_system_twice in Hw'. change (system_of (set_system w i s) p') with (set_proc s p') in Hw'.
  apply all_ok_procs; [| |done].
  - exists own. eapply world_permutation; [|exact Hw']. cbn. by eapply regions_add.
  - apply (queues_ok_add p q); try done; [by apply (Hqs i)|by eapply region_of_Some|]. cbn. by rewrite Hs.
Qed.

Lemma create_completion_ok w heap i p size : all_ok w heap → procs w !! i = Some p →
  queue_fits CompletionMsg size (system_of w p) →
  ends_ok w heap i (create_completion_queue kernel_table L size (system_of w p)).
Proof.
  intros Hok Hi Hfit. pose proof Hok as [[own Hw] Hqs].
  pose proof (create_queue_run own w _ i p CompletionMsg size Hw Hi Hfit) as Hc.
  unfold create_completion_queue. rewrite bind_unfold.
  destruct (create_queue _ _ _ _ _) as [[q nq] s|e s|wh]; [| |done]; cbn in Hc |- *.
  - destruct Hc as (Hq & Hnz & [v Hv] & g & Hg & own' & Hw').
    eapply created_ok; try done.
    + rewrite Hv. cbn. unfold all_queues. by rewrite Permutation_middle.
    + rewrite Hv. cbn. intros x y Hxy. right. by eapply (qo_assoc p (Hqs i p Hi)).
  - destruct Hc as [(v & k & Hv & Hk) [own' Hw']]. by eapply created_err.
Qed.

Lemma create_submission_ok w heap i p size c : all_ok w heap → procs w !! i = Some p →
  queue_fits CommandMsg size (system_of w p) →
  ends_ok w heap i (create_submission_queue kernel_table L size c (system_of w p)).
Proof.
  intros Hok Hi Hfit. pose proof Hok as [[own Hw] Hqs].
  pose proof (create_queue_run own w _ i p CommandMsg size Hw Hi Hfit) as Hc.
  unfold create_submission_queue. erewrite bind_run by done.
  destruct (find _ _) as [rq|] eqn:Hfind.
  2: { cbn. eapply (created_err w heap i p (next_queue_id p) _ _ own); [done|done|apply same_process|by left|].
       by apply world_unchanged. }
  apply find_some in Hfind as [Hrq _]. apply list_elem_of_In in Hrq.
  rewrite bind_unfold.
  destruct (create_queue _ _ _ _ _) as [[q nq] s|e s|wh]; [| |done]; cbn in Hc |- *.
  - destruct Hc as (Hq & Hnz & [v Hv] & g & Hg & own' & Hw').
    eapply created_ok; try done.
    + rewrite Hv. cbn. done.
    + rewrite Hv. cbn. intros x y [[= -> ->]|Hxy]%elem_of_cons; [done|].
      by eapply (qo_assoc p (Hqs i p Hi)).
  - destruct Hc as [(v & k & Hv & Hk) [own' Hw']]. by eapply created_err.
Qed.

(** *** Queues destroyed *)

Lemma remove_first_spec {A} (f : A → bool) l :
  match remove_first f l with
  | (Some x, l') => ∃ l1 l2, l = l1 ++ x :: l2 ∧ l' = l1 ++ l2 ∧ f x = true
  | (None, l') => l' = l ∧ ∀ x, x ∈ l → f x = false
  end.
Proof.
  induction l as [|y l IH]; cbn; [split; [done|by intros x ?%elem_of_nil]|].
  destruct (f y) eqn:Hy; [by exists [], l|].
  destruct (remove_first f l) as [[x|] l'].
  - destruct IH as (l1 & l2 & -> & -> & Hx). by exists (y :: l1), l2.
  - destruct IH as [-> IH]. split; [done|]. intros x [->|Hx]%elem_of_cons; [done|by apply IH].
Qed.

Lemma has_id_true i q : has_id i q = true ↔ queue_id q = i.
Proof. unfold has_id, queue_id. lia. Qed.

(** A process with one queue less. *)
Lemma queues_ok_remove p q p' : queues_ok p → all_queues p ≡ₚ q :: all_queues p' →
  next_queue_id p' = next_queue_id p →
  (∀ sq rq, (sq, rq) ∈ send_queues p' → rq ∈ recv_queues p') → queues_ok p'.
Proof.
  intros [Hr Hi Hb Hn Ha] Hall Hnext Has. rewrite Hall in Hr, Hi, Hb.
  apply Forall_cons in Hr as [_ Hr]. cbn in Hi. apply NoDup_cons in Hi as [_ Hi].
  apply Forall_cons in Hb as [_ Hb]. split; try done; [|by rewrite Hnext].
  eapply Forall_impl; [exact Hb|]. unfold id_bound. by rewrite Hnext.
Qed.

(** The queue whose memory [destroy_queue] gives back is the one that left the lists. *)
Lemma destroyed_queue p c : queues_ok p → existsb (λ x, has_id c (snd x)) (send_queues p) = false →
  let '(rq, rqs) := remove_first (has_id c) (recv_queues p) in
  let '(sq, sqs) := remove_first (λ x, has_id c (fst x)) (send_queues p) in
  match (match rq with Some q => Some q | None => option_map fst sq end) with
  | None => rqs = recv_queues p ∧ sqs = send_queues p ∧ c ∉ map queue_id (all_queues p)
  | Some q => all_queues p ≡ₚ q :: map fst sqs ++ rqs ∧ queue_id q = c ∧ ∀ x y, (x, y) ∈ sqs → y ∈ rqs
  end.
Proof.
  intros [Hr Hi Hb Hn Ha] Hun.
  assert (∀ x y, (x, y) ∈ send_queues p → has_id c y = false) as Hun'.
  { intros x y Hxy. apply not_true_is_false. intros Hy. rewrite <- not_true_iff_false in Hun. apply Hun.
    apply existsb_exists. exists (x, y). split; [by apply list_elem_of_In|done]. }
  pose proof (remove_first_spec (has_id c) (recv_queues p)) as Hrecv.
  pose proof (remove_first_spec (λ x, has_id c (fst x)) (send_queues p)) as Hsend.
  destruct (remove_first (has_id c) (recv_queues p)) as [[q|] rqs],
    (remove_first (λ x, has_id c (fst x)) (send_queues p)) as [[[q' rq']|] sqs]; cbn.
  - exfalso. destruct Hrecv as (l1 & l2 & Hl & _ & Hq). destruct Hsend as (k1 & k2 & Hk & _ & Hq').
    apply has_id_true in Hq, Hq'. cbn in Hq'. unfold all_queues in Hi. rewrite Hl, Hk in Hi.
    rewrite !map_app in Hi. cbn in Hi. apply NoDup_app in Hi as (_ & Hd & _).
    apply (Hd c); rewrite !elem_of_app, elem_of_cons; [rewrite <- Hq'|rewrite <- Hq]; by right; left || (left; right; left).
  - destruct Hrecv as (l1 & l2 & Hl & -> & Hq). destruct Hsend as [-> _]. unfold all_queues. rewrite Hl. split_and!.
    + by rewrite <- !Permutation_middle.
    + by apply has_id_true.
    + intros x y Hxy. specialize (Hun' x y Hxy). specialize (Ha x y Hxy). rewrite Hl in Ha.
      apply elem_of_app in Ha as [?|[->|?]%elem_of_cons]; [set_solver|congruence|set_solver].
  - destruct Hsend as (k1 & k2 & Hk & -> & Hq'). destruct Hrecv as [-> _]. unfold all_queues. rewrite Hk. split_and!.
    + rewrite !map_app. cbn. rewrite <- Permutation_middle. done.
    + by apply has_id_true.
    + intros x y Hxy. apply (Ha x y). rewrite Hk. set_solver.
  - destruct Hrecv as [-> Hr']. destruct Hsend as [-> Hs']. split_and!; [done|done|].
    intros (q & Hq & Hin)%list_elem_of_fmap. symmetry in Hq. apply has_id_true in Hq.
    apply elem_of_app in Hin as [(x & -> & Hx)%list_elem_of_fmap|Hin];
      [specialize (Hs' x Hx)|specialize (Hr' q Hin)]; congruence.
Qed.

Lemma unchanged_ok w heap i p p' : all_ok w heap → procs w !! i = Some p → queues_ok p' →
  page_tables p' = page_tables p → address_space_allocator p' = address_space_allocator p →
  all_queues p' = all_queues p → all_ok (set_system w i (system_of w p')) heap.
Proof.
  intros [[own Hw] Hqs] Hi Hq Hpt Hv Hall. apply all_ok_procs; [|done|done]. exists own.
  eapply world_permutation; [|by eapply world_same]. apply Permutation_app_head. by eapply regions_same.
Qed.

(** The regions of all before those of one process changed by one. *)
Lemma regions_remove heap ps i p p' q g : ps !! i = Some p → all_queues p ≡ₚ q :: all_queues p' →
  region_of L i q = Some g →
  heap ++ shared_live L ps ≡ₚ g :: heap ++ shared_live L (<[i := p']> ps).
Proof.
  intros Hi Hall Hg. destruct (shared_split ps i p Hi) as (rest & Hr & Hr'). rewrite Hr, Hr'.
  unfold queue_regions. rewrite Hall. cbn [omap list_omap]. rewrite Hg. cbn.
  by rewrite <- Permutation_middle.
Qed.

(** What [destroy_queue] does. *)
Definition destroyed w heap i p c (r : res System Error unit) : Prop :=
  let in_use := existsb (λ x, has_id c (snd x)) (send_queues p) in
  match r with
  | Ok _ s => all_ok (set_system w i s) heap ∧ in_use = false ∧
      ∃ q, queue_id q = c ∧ all_queues p ≡ₚ q :: all_queues (proc s)
  | Err e s => s = system_of w p ∧
      if in_use then e = Misc "completion queue still in use" (Some InUse)
      else e = Misc "queue ID unknown" (Some InvalidId) ∧ c ∉ map queue_id (all_queues p)
  | Stop _ => False
  end.

Lemma destroy_queue_run w heap i p c : all_ok w heap → procs w !! i = Some p →
  destroyed w heap i p c (destroy_queue kernel_table L c (system_of w p)).
Proof.
  intros Hok Hi. pose proof Hok as [[own Hw] Hqs]. pose proof (Hqs i p Hi) as Hq.
  unfold destroy_queue, destroyed. erewrite bind_run by done. cbn [system_of proc].
  destruct (existsb _ _) eqn:Hun; [done|].
  pose proof (destroyed_queue p c Hq Hun) as Hd.
  destruct (remove_first (has_id c) (recv_queues p)) as [rq rqs],
    (remove_first (λ x, has_id c (fst x)) (send_queues p)) as [sq sqs].
  erewrite bind_run by done. set (p1 := set_queues p sqs rqs).
  change (set_proc _ _) with (system_of w p1).
  destruct (match rq with Some q => Some q | None => option_map fst sq end) as [q|].
  2: { cbn. destruct Hd as (-> & -> & Hd). split; [by destruct p|done]. }
  destruct Hd as (Hall & Hqc & Has). change (map fst sqs ++ rqs) with (all_queues p1) in Hall.
  assert (q ∈ all_queues p) as Hin by (rewrite Hall; left).
  pose proof (qo_regions p Hq) as Hreg. rewrite Forall_forall in Hreg.
  destruct (Hreg q Hin) as [[[u k] n] Hmem].
  erewrite bind_run by (apply lift_Ok; by split). cbv beta iota.
  set (g := {| rg_pid := i; rg_base := u; rg_pages := n; rg_kernel := Some k |}).
  assert (region_of L i q = Some g) as Hg by (unfold region_of; by rewrite Hmem).
  pose proof (world_same own w _ i p p1 Hw Hi eq_refl eq_refl) as Hw1.
  apply (world_permutation _ _ _ ([] ++ g :: (heap ++ shared_live L (<[i := p1]> (procs w))))) in Hw1;
    [|by eapply regions_remove].
  destruct (world_release kernel_table R user HR Hkh Huser own _ [] g _ p1 k Hw1 (lookup_insert_eq _ _ _) eq_refl)
    as (s' & Hrun & [v Hv] & Hw2). cbn [rg_base rg_pages rg_pid g] in Hrun, Hw2. rewrite set_system_twice in Hw2.
  change (system_of (set_system w i (system_of w p1)) p1) with (system_of w p1) in Hrun. rewrite Hrun.
  split_and!; [|done|exists q; by rewrite Hv].
  apply all_ok_procs; [|rewrite Hv; eapply queues_ok_remove; [exact Hq|exact Hall|done|done]|done].
  destruct Hw2 as [own' Hw2]. exists own'. eapply world_permutation; [|exact Hw2]. cbn [app].
  apply Permutation_app_head. rewrite <- (insert_insert_eq (procs w) i (proc s') p1).
  eapply regions_same; [apply lookup_insert_eq|]. by rewrite Hv.
Qed.

Lemma destroy_queue_ok w heap i p c : all_ok w heap → procs w !! i = Some p →
  ends_ok w heap i (destroy_queue kernel_table L c (system_of w p)).
Proof.
  intros Hok Hi. pose proof (destroy_queue_run w heap i p c Hok Hi) as Hd.
  destruct (destroy_queue _ _ _ _) as [[] s|e s|wh]; [by destruct Hd| |done]. destruct Hd as [-> _].
  apply (unchanged_ok w heap i p p); try done. by apply (proj2 Hok i).
Qed.

(** *** The heap *)

Lemma alloc_heap_ok w heap i p n : all_ok w heap → procs w !! i = Some p → 1 ≤ n →
  alloc_aligned kernel_table n false (system_of w p) = true →
  match alloc_memory kernel_table n false (system_of w p) with
  | Ok (a, ka) s => all_ok (set_system w i s)
      ({| rg_pid := i; rg_base := a; rg_pages := n; rg_kernel := ka |} :: heap)
  | Err _ s => all_ok (set_system w i s) heap
  | Stop _ => False
  end.
Proof.
  intros [[own Hw] Hqs] Hi Hn Hal.
  pose proof (world_alloc kernel_table R user HR Hkh Huser own w _ i p n false Hw Hi Hn Hal) as Ha.
  destruct (alloc_memory _ _ _ _) as [[a ka] s|e s|wh]; [| |done]; cbn in Ha;
    [destruct Ha as (_ & [v Hv] & own' & Hw')|destruct Ha as ([v Hv] & own' & Hw')];
    (apply all_ok_procs; [exists own'|rewrite Hv; pose proof (Hqs i p Hi) as []; by split|done]);
    (eapply world_permutation; [|exact Hw']; rewrite ?app_comm_cons; apply Permutation_app_head;
      eapply regions_same; [exact Hi|by rewrite Hv]).
Qed.

Lemma free_heap_run w h1 g h2 : all_ok w (h1 ++ g :: h2) → ∃ p s, procs w !! rg_pid g = Some p ∧
  free_memory (rg_base g) (rg_pages g) (system_of w p) = Ok tt s ∧
  all_ok (set_system w (rg_pid g) s) (h1 ++ h2) ∧ page_tables (proc s) = page_tables p ∧
  all_queues (proc s) = all_queues p ∧
  (∀ x, free_cover (address_space_allocator (proc s)) x
          = free_cover (address_space_allocator p) x + covers x (rg_base g, rg_pages g)) ∧
  ∀ va, rg_base g ≤ va < rg_base g + rg_pages g * PAGE_SIZE →
    translate (tables (ktabs (mem s))) false (level0_table (page_tables p)) va = None ∧
    ∃ pa ro el0,
      translate (tables (ktabs (wmem w))) false (level0_table (page_tables p)) va = Some (pa, ro, el0) ∧
      ¬ frame_allocated (frames (ktabs (mem s))) (page_base pa).
Proof.
  intros [[own Hw] Hqs]. rewrite <- app_assoc, <- app_comm_cons in Hw.
  destruct (wo_live _ _ _ _ _ _ Hw g ltac:(set_solver)) as (p & Hi & _).
  destruct (world_free kernel_table R user HR Hkh Huser _ _ _ _ _ _ Hw Hi)
    as (s & Hrun & _ & _ & [v Hv] & Hfc & Hgone & own' & Hw').
  exists p, s. split_and!; [done|done| |by rewrite Hv|by rewrite Hv|done|done].
  apply all_ok_procs; [exists own'|rewrite Hv; pose proof (Hqs _ p Hi) as []; by split|done].
  eapply world_permutation; [|exact Hw']. rewrite app_assoc. apply Permutation_app_head.
  eapply regions_same; [exact Hi|by rewrite Hv].
Qed.

Lemma free_heap_ok w h1 g h2 : all_ok w (h1 ++ g :: h2) → ∃ p s, procs w !! rg_pid g = Some p ∧
  free_memory (rg_base g) (rg_pages g) (system_of w p) = Ok tt s ∧
  all_ok (set_system w (rg_pid g) s) (h1 ++ h2).
Proof. intros (p & s & Hi & Hrun & Hok & _)%free_heap_run. by exists p, s. Qed.

Lemma all_ok_permutation w heap heap' : heap ≡ₚ heap' → all_ok w heap → all_ok w heap'.
Proof.
  intros Hp [[own Hw] Hqs]. split; [|done]. exists own. eapply world_permutation; [|exact Hw].
  by rewrite Hp.
Qed.

Lemma mem_step_ok c c' : mem_step c c' → all_ok c.1 c.2 → all_ok c'.1 c'.2.
Proof.
  intros Hst Hok. destruct Hst as [w heap i p n a ka s Hi Hn Hal Hr|w heap i p n e s Hi Hn Hal Hr|w h1 g h2 p s Hi Hr
    |w heap i p size s Hi Hfit Hr|w heap i p size c s Hi Hfit Hr|w heap i p c s Hi Hr]; cbn [fst snd] in *.
  - pose proof (alloc_heap_ok _ _ _ _ _ Hok Hi Hn Hal) as Ho. by rewrite Hr in Ho.
  - pose proof (alloc_heap_ok _ _ _ _ _ Hok Hi Hn Hal) as Ho. by rewrite Hr in Ho.
  - destruct (free_heap_ok _ _ _ _ Hok) as (q & s' & Hq & Hrun & Ho). rewrite Hi in Hq. injection Hq as <-.
    rewrite Hr in Hrun. by injection Hrun as <-.
  - pose proof (create_completion_ok _ _ _ _ _ Hok Hi Hfit) as Ho. by destruct Hr as [[? Hr]|[? Hr]]; rewrite Hr in Ho.
  - pose proof (create_submission_ok _ _ _ _ _ c Hok Hi Hfit) as Ho. by destruct Hr as [[? Hr]|[? Hr]]; rewrite Hr in Ho.
  - pose proof (destroy_queue_ok _ _ _ _ c Hok Hi) as Ho. by destruct Hr as [Hr|[? Hr]]; rewrite Hr in Ho.
Qed.

Lemma mem_steps_ok c c' : rtc mem_step c c' → all_ok c.1 c.2 → all_ok c'.1 c'.2.
Proof. induction 1; [done|]. eauto using mem_step_ok. Qed.

(** Processes as they are created. *)
Definition new_process p : Prop :=
  send_queues p = [] ∧ recv_queues p = [] ∧ 1 ≤ next_queue_id p < 2 ^ 16.

Lemma start_ok w own : world_ok own w [] → (∀ i p, procs w !! i = Some p → new_process p) → all_ok w [].
Proof.
  intros Hw Hnew. split.
  - exists own. eapply world_permutation; [|exact Hw]. cbn. unfold shared_live.
    replace (concat _) with (@nil Region); [done|]. symmetry. apply concat_nil_Forall, Forall_forall.
    intros l ([i p] & -> & Hin)%list_elem_of_fmap. apply elem_of_map_to_list in Hin.
    destruct (Hnew i p Hin) as (Hs & Hr & _). unfold queue_regions, all_queues. cbn. by rewrite Hs, Hr.
  - intros i p Hi. destruct (Hnew i p Hi) as (Hs & Hr & Hn). split; unfold all_queues; rewrite ?Hs, ?Hr; cbn;
      [constructor|constructor|constructor|lia|by intros sq rq ?%elem_of_nil].
Qed.

Definition translates w p va pa : Prop := ∃ ro el0,
  translate (tables (ktabs (wmem w))) false (level0_table (page_tables p)) va = Some (pa, ro, el0).

Definition no_panic {A} (r : res System Error A) : Prop :=
  match r with Stop _ => False | _ => True end.

Lemma ends_no_panic {A} w heap i (r : res System Error A) : ends_ok w heap i r → no_panic r.
Proof. by destruct r. Qed.

(** What a change of the tables leaves alone. *)
Lemma kernel_kept pt g (p : PageTable) T T' kb d : region_ok kernel_table pt T g → rg_kernel g = Some kb →
  user (level0_table p) → keeps kernel_table R p (rg_base g) None (rg_pages g) T T' →
  0 ≤ d < rg_pages g * PAGE_SIZE →
  leaf T' (level0_table kernel_table) (idx (kb + d)) = leaf T (level0_table kernel_table) (idx (kb + d)).
Proof.
  intros Hrg Hkb Hu Hk Hd. destruct (ro_ktaken _ _ _ _ Hrg kb Hkb) as [V HV].
  destruct (Huser _ Hu) as [_ Hne].
  destruct (taken_tag _ _ _ _ (kb + d) HV ltac:(lia)) as [Hux Htx]. rewrite Hkh in Htx.
  apply Hk; [done|done|congruence|done|intros [? _]; congruence|done].
Qed.

Lemma process_kept (p q : PageTable) a n T T' va : user (level0_table q) → high_addresses p = false →
  keeps kernel_table R p a None n T T' → is_usize va →
  (level0_table q = level0_table p → a ≤ va < a + n * PAGE_SIZE → False) →
  translate T' false (level0_table q) va = translate T false (level0_table q) va.
Proof.
  intros Hu Hh Hk Hva Hout. destruct (tag_ok false (tag_of va)) eqn:Ht; [|by rewrite !translate_bad_tag].
  destruct (Huser _ Hu) as [HRq Hne]. apply translate_ext.
  apply Hk; [done|done|by rewrite Hh|done| |done]. intros [? ?]. by apply Hout.
Qed.

(** C2: whatever sequence of heap allocations and frees, creations and destructions of queues
    (failed ones too) the processes perform: no two processes, nor two pages of one process,
    are backed by the same frame; no such frame holds a page table; every region a process
    owns, its heap and its queues, is mapped for it, writable, byte for byte, and a queue is
    mapped in the kernel to the same frames; giving back any heap region succeeds; and none of
    these operations ever panics.  Frees are of exactly the regions that an allocation returned:
    the system call does not check this, and [heap_free_unmapped_panics] and [free_memory_correct]
    show what other addresses do.  Allocations and queues are of at least a page; ones of
    2 MiB or more are such that each run of frames that is mapped agrees with its addresses modulo
    2 MiB (1 GiB) if it does modulo 1 MiB (16 MiB), which is all that [map_range] checks. *)
Theorem processes_isolated own w0 w heap : world_ok own w0 [] →
  (∀ i p, procs w0 !! i = Some p → new_process p) → rtc mem_step (w0, []) (w, heap) →
  (∀ i j p q va vb pa pb, procs w !! i = Some p → procs w !! j = Some q → is_usize va → is_usize vb →
     translates w p va pa → translates w q vb pb → page_base pa = page_base pb →
     i = j ∧ page_base va = page_base vb) ∧
  forest R (λ f, ∃ i p va pa, procs w !! i = Some p ∧ is_usize va ∧ translates w p va pa ∧ f = page_base pa)
    (ktabs (wmem w)) ∧
  (∀ g d, g ∈ heap ++ shared_live L (procs w) → 0 ≤ d < rg_pages g * PAGE_SIZE → ∃ p pa,
     procs w !! rg_pid g = Some p ∧
     translate (tables (ktabs (wmem w))) false (level0_table (page_tables p)) (rg_base g + d)
       = Some (pa, false, true) ∧
     ∀ kb, rg_kernel g = Some kb →
       translate (tables (ktabs (wmem w))) true (level0_table kernel_table) (kb + d) = Some (pa, false, true)) ∧
  (∀ g, g ∈ heap → ∃ p s, procs w !! rg_pid g = Some p ∧
     free_memory (rg_base g) (rg_pages g) (system_of w p) = Ok tt s) ∧
  (∀ i p, procs w !! i = Some p →
     (∀ n, 1 ≤ n → alloc_aligned kernel_table n false (system_of w p) = true →
        no_panic (alloc_memory kernel_table n false (system_of w p))) ∧
     (∀ size, queue_fits CompletionMsg size (system_of w p) →
        no_panic (create_completion_queue kernel_table L size (system_of w p))) ∧
     (∀ size c, queue_fits CommandMsg size (system_of w p) →
        no_panic (create_submission_queue kernel_table L size c (system_of w p))) ∧
     (∀ c, no_panic (destroy_queue kernel_table L c (system_of w p)))).
Proof.
  intros Hw0 Hnew Hst. pose proof (mem_steps_ok _ _ Hst (start_ok _ _ Hw0 Hnew)) as Hok.
  cbn [fst snd] in Hok. pose proof Hok as [[own' Hw] Hqs].
  pose proof Hw as [Hf Hiso _ Hps Hroots _ _ Hlive].
  assert (∀ i p va pa, procs w !! i = Some p → is_usize va → translates w p va pa →
    own' (page_base pa) = Some (level0_table (page_tables p), page_base va)) as Hown.
  { intros i p va pa Hi Hva (ro & el0 & Htr). eapply Hiso; [by eapply Hps|done|exact Htr]. }
  split_and!.
  - intros i j p q va vb pa pb Hi Hj Hva Hvb Ha Hb Heq. pose proof (Hown _ _ _ _ Hi Hva Ha) as H1.
    pose proof (Hown _ _ _ _ Hj Hvb Hb) as H2. rewrite Heq, H2 in H1. injection H1 as Hr Hv.
    split; [by eapply Hroots|done].
  - eapply forest_weaken; [exact Hf|]. intros f (i & p & va & pa & Hi & Hva & Ht & ->). unfold owned.
    by rewrite (Hown _ _ _ _ Hi Hva Ht).
  - intros g d Hg Hd. destruct (Hlive g Hg) as (p & Hi & Hrg).
    destruct (ro_mapped _ _ _ _ Hrg d Hd) as (pa & H1 & H2). by exists p, pa.
  - intros g (h1 & h2 & ->)%list_elem_of_split. destruct (free_heap_ok _ _ _ _ Hok) as (p & s & Hi & Hrun & _).
    by exists p, s.
  - intros i p Hi. split_and!.
    + intros n Hn Hal. pose proof (alloc_heap_ok _ _ _ _ _ Hok Hi Hn Hal) as Ho.
      by destruct (alloc_memory _ _ _ _) as [[? ?] ?|? ?|?].
    + intros size Hfit. eapply ends_no_panic. by apply create_completion_ok.
    + intros size c Hfit. eapply ends_no_panic. by apply create_submission_ok.
    + intros c. eapply ends_no_panic. by apply destroy_queue_ok.
Qed.

(** After any such sequence, the queues of every process have different identifiers, each
    submission queue's completion queue is among the process's completion queues, and
    [destroy_queue] of any identifier removes exactly the queue of that identifier, refuses to
    remove a completion queue that a submission queue reports to, and rejects any other
    identifier, the last two without changing anything. *)
Theorem destroy_queue_correct own w0 w heap i p c : world_ok own w0 [] →
  (∀ i p, procs w0 !! i = Some p → new_process p) → rtc mem_step (w0, []) (w, heap) →
  procs w !! i = Some p →
  NoDup (map queue_id (all_queues p)) ∧
  (∀ sq rq, (sq, rq) ∈ send_queues p → rq ∈ recv_queues p) ∧
  let in_use := existsb (λ x, has_id c (snd x)) (send_queues p) in
  match destroy_queue kernel_table L c (system_of w p) with
  | Ok _ s => in_use = false ∧ ∃ q, queue_id q = c ∧ all_queues p ≡ₚ q :: all_queues (proc s)
  | Err e s => s = system_of w p ∧
      as_code e = Some (if in_use then InUse else InvalidId) ∧
      (in_use = true ∨ c ∉ map queue_id (all_queues p))
  | Stop _ => False
  end.
Proof.
  intros Hw0 Hnew Hst Hi. pose proof (mem_steps_ok _ _ Hst (start_ok _ _ Hw0 Hnew)) as Hok.
  cbn [fst snd] in Hok. pose proof Hok as [_ Hqs]. pose proof (Hqs i p Hi) as [_ Hids _ _ Has].
  split; [done|]. split; [done|]. pose proof (destroy_queue_run w heap i p c Hok Hi) as Hd.
  unfold destroyed in Hd. cbv zeta in Hd |- *. destruct (existsb _ _), (destroy_queue _ _ _ _) as [[] s|e s|wh]; try done.
  - by destruct Hd as (_ & ? & _).
  - destruct Hd as [-> ->]. split_and!; [done|done|by left].
  - by destruct Hd as [_ Hd].
  - destruct Hd as (-> & -> & Hc). split_and!; [done|done|by right].
Qed.

(** After any such sequence, [free_memory] of a region in use, heap or queue, succeeds;
    the process can no longer reach the region, and its frames are free again; no other page of
    any process changes.  Nor does anything of the kernel: a queue freed this way, which
    the [HeapFree] system call allows, stays mapped in the kernel to frames that are free. *)
Theorem free_memory_correct own w0 w heap g : world_ok own w0 [] →
  (∀ i p, procs w0 !! i = Some p → new_process p) → rtc mem_step (w0, []) (w, heap) →
  g ∈ heap ++ shared_live L (procs w) →
  ∃ p s, procs w !! rg_pid g = Some p ∧ free_memory (rg_base g) (rg_pages g) (system_of w p) = Ok tt s ∧
    (∀ d, 0 ≤ d < rg_pages g * PAGE_SIZE →
       translate (tables (ktabs (mem s))) false (level0_table (page_tables p)) (rg_base g + d) = None ∧
       ∃ pa, translates w p (rg_base g + d) pa ∧ ¬ frame_allocated (frames (ktabs (mem s))) (page_base pa) ∧
         ∀ kb, rg_kernel g = Some kb →
           translate (tables (ktabs (mem s))) true (level0_table kernel_table) (kb + d) = Some (pa, false, true)) ∧
    (∀ j q va, procs w !! j = Some q → is_usize va →
       ¬ (j = rg_pid g ∧ rg_base g ≤ va < rg_base g + rg_pages g * PAGE_SIZE) →
       translate (tables (ktabs (mem s))) false (level0_table (page_tables q)) va
         = translate (tables (ktabs (wmem w))) false (level0_table (page_tables q)) va).
Proof.
  intros Hw0 Hnew Hst (l1 & l2 & Hl)%list_elem_of_split.
  pose proof (mem_steps_ok _ _ Hst (start_ok _ _ Hw0 Hnew)) as [[own' Hw] _]. cbn [fst snd] in Hw.
  rewrite Hl in Hw. pose proof Hw as [_ _ _ Hps Hroots _ _ Hlive].
  destruct (Hlive g ltac:(set_solver)) as (p & Hi & Hrg). destruct (Hps _ _ Hi) as (Hu & Hh & _).
  destruct (world_free kernel_table R user HR Hkh Huser _ _ _ _ _ _ Hw Hi)
    as (s & Hrun & _ & Hk & _ & _ & Hgone & _).
  exists p, s. split; [done|]. split; [done|]. split.
  - intros d Hd. destruct (Hgone (rg_base g + d) ltac:(lia)) as (Hnone & pa & ro & el0 & Htr & Hfree).
    split; [done|]. exists pa. split; [by exists ro, el0|]. split; [done|]. intros kb Hkb.
    destruct (ro_mapped _ _ _ _ Hrg d Hd) as (pa' & H1 & H2). rewrite Htr in H1. injection H1 as <- _ _.
    rewrite <- (H2 kb Hkb). apply translate_ext. by eapply kernel_kept.
  - intros j q va Hj Hva Hout. destruct (Hps _ _ Hj) as (Huq & Hhq & _).
    eapply (process_kept (page_tables p)); try done. intros Heq Hin. apply Hout. split; [by eapply Hroots|done].
Qed.

(** The [HeapFree] system call on an address in a part of the address space (of 512 GiB)
    where the process has nothing mapped makes the kernel panic, although the address is
    the process's own choice. *)
Theorem heap_free_unmapped_panics X s ptr size : let pt := page_tables (proc s) in
  forest R X (ktabs (mem s)) → R (level0_table pt) → is_usize ptr → 1 ≤ size →
  PagingTree.step (tables (ktabs (mem s))) (level0_table pt) 0 (Z.to_nat ((ptr / 2 ^ 39) mod 512)) = None →
  heap_free ptr size s = Stop Panic.
Proof.
  intros pt Hf Hr Hu Hs Hst. unfold heap_free, free_memory. erewrite bind_run by done. fold pt.
  rewrite bind_unfold, in_mem_tabs. unfold unmap_range_custom. rewrite bind_unfold.
  assert (1 ≤ div_ceil size PAGE_SIZE) as Hn by (unfold div_ceil; case_match; pdlia).
  destruct (Z.to_nat (div_ceil size PAGE_SIZE)) as [|fuel] eqn:Hfuel; [lia|].
  cbn [unmap_loop]. replace (0 <? div_ceil size PAGE_SIZE) with true by lia.
  erewrite bind_run by (apply lift_Ok; split; [by apply umul_ok; plia|done]).
  erewrite bind_run by (apply lift_Ok; split; [apply uadd_ok; unfold is_usize in *; plia|done]).
  rewrite bind_unfold, Z.mul_0_l, Z.add_0_r. unfold walk_levels. rewrite to_parts_digits by done.
  destruct (fw_table _ _ Hf (level0_table pt) [] (level0_table pt) Hr eq_refl) as (t & Ht & Hlen).
  unfold PagingTree.step, PagingTree.entry in Hst. rewrite Ht in Hst. cbn in Hst.
  assert (Z.to_nat ((ptr / 2 ^ 39) mod 512) < length t)%nat as Hlt.
  { pose proof (Z.mod_pos_bound (ptr / 2 ^ 39) 512). lia. }
  apply lookup_lt_is_Some in Hlt as [e He]. rewrite He in Hst. cbn in Hst.
  cbn [unmap_page]. rewrite bind_unfold, (read_entry_run _ _ _ t e Ht He), Hst. done.
Qed.
End queues.

(** *** Witnesses *)

#[local] Existing Instance concrete_bit_field.

Lemma new_cover start n x : free_cover (VirtAlloc.new start n) x ≤ 1.
Proof.
  unfold free_cover. cbn. rewrite cover_count_cons, cover_count_nil.
  pose proof (covers_bound x (range_of {| address := start; size := n |})). lia.
Qed.

Lemma new_space pt start n T : block_wf {| address := start; size := n |} →
  block_aligned {| address := start; size := n |} →
  (∀ x, start ≤ x < start + n * PAGE_SIZE → is_usize x ∧ tag_ok (high_addresses pt) (tag_of x) = true) →
  (∀ ρ, leaf T (level0_table pt) ρ = None) → space_ok pt (VirtAlloc.new start n) T.
Proof.
  intros Hb Ha Hin Hl.
  assert (∀ x, free_cover (VirtAlloc.new start n) x = covers x (start, n)) as Hc.
  { intros x. unfold free_cover. cbn. rewrite cover_count_cons, cover_count_nil. unfold range_of. cbn. lia. }
  split; [constructor; [done|constructor]|constructor; [done|constructor]| |].
  - apply new_cover.
  - intros x. rewrite Hc. unfold covers. cbn. case_decide as Hx; [|lia]. intros _.
    destruct (Hin x Hx). by split_and!.
Qed.

Definition demo_layouts : Layouts :=
  {| counters_size := 128; slot_size := λ _, 64; slot_align := λ _, 8 |}.

Definition demo_process (i : Z) (pt : PageTable) : Process :=
  {| pid := i; page_tables := pt; address_space_allocator := VirtAlloc.new 0x1000 0x1000;
     next_queue_id := 1; send_queues := []; recv_queues := [] |}.

(** A kernel and two processes, all with empty tables. *)
Definition demo_boot : PT PhysicalMemoryAllocator (PageTable * PageTable * PageTable) :=
  kt ← empty true 0; pt1 ← empty false 1; pt2 ← empty false 2; mret (kt, pt1, pt2).

Definition demo_world (pt1 pt2 : PageTable) (t : Tables PhysicalMemoryAllocator) : World :=
  {| wmem := {| ktabs := t; kva := VirtAlloc.new START_ADDRESS TOTAL_SIZE |};
     procs := <[1 := demo_process 1 pt1]> {[ 2 := demo_process 2 pt2 ]} |}.

Definition demo_users (pt1 pt2 : PageTable) : Z → Prop := λ r, r = level0_table pt1 ∨ r = level0_table pt2.
Definition demo_roots (kt pt1 pt2 : PageTable) : Z → Prop :=
  with_root (with_root (with_root (λ _, False) (level0_table kt)) (level0_table pt1)) (level0_table pt2).

Lemma empty_step R s high i pt s' : forest R (λ _, False) s → empty high i s = Ok pt s' →
  high_addresses pt = high ∧ ¬ R (level0_table pt) ∧ tables s' !! level0_table pt = Some zero_table ∧
  forest (with_root R (level0_table pt)) (λ _, False) s' ∧
  ∀ r ρ, R r → leaf (tables s') r ρ = leaf (tables s) r ρ.
Proof.
  intros Hf He. pose proof (@empty_run _ _ (reserved (λ _, False)) R s high i Hf) as H.
  change (@empty _ (reserved (λ _, False))) with (@empty _ pma_frame_allocator) in H. rewrite He in H.
  by destruct H as (Hh & _ & Hn & _ & Hz & Hwf & Hsame).
Qed.

Lemma demo_procs pt1 pt2 i p :
  (<[1 := demo_process 1 pt1]> {[ 2 := demo_process 2 pt2 ]} : gmap Z Process) !! i = Some p →
  i = 1 ∧ p = demo_process 1 pt1 ∨ i = 2 ∧ p = demo_process 2 pt2.
Proof.
  intros [[<- <-]|[_ [<- <-]%lookup_singleton_Some]]%lookup_insert_Some; tauto.
Qed.

Lemma demo_start kt pt1 pt2 t : demo_boot demo_tables = Ok (kt, pt1, pt2) t →
  let user := demo_users pt1 pt2 in let R := demo_roots kt pt1 pt2 in
  R (level0_table kt) ∧ high_addresses kt = true ∧ (∀ r, user r → R r ∧ r ≠ level0_table kt) ∧
  world_ok kt R user (λ _, None) (demo_world pt1 pt2 t) [] ∧
  ∀ i p, procs (demo_world pt1 pt2 t) !! i = Some p → new_process p.
Proof.
  intros H user R. unfold demo_boot in H.
  apply bind_Ok in H as (kt' & t0 & H0 & H). apply bind_Ok in H as (pt1' & t1 & H1 & H).
  apply bind_Ok in H as (pt2' & t2 & H2 & [= -> -> -> ->]).
  destruct (empty_step _ _ _ _ _ _ demo_forest H0) as (Hh0 & _ & Hz0 & Hf0 & _).
  destruct (empty_step _ _ _ _ _ _ Hf0 H1) as (Hh1 & Hn1 & Hz1 & Hf1 & Hs1).
  destruct (empty_step _ _ _ _ _ _ Hf1 H2) as (Hh2 & Hn2 & Hz2 & Hf2 & Hs2).
  assert (∀ r, R r → ∀ ρ, leaf (tables t) r ρ = None) as Hnone.
  { intros r [[[[]|Hr]|Hr]|Hr] ρ; subst r; [..|by apply zero_leaf].
    - rewrite Hs2, Hs1 by (unfold with_root; tauto). by apply zero_leaf.
    - rewrite Hs2 by (unfold with_root; tauto). by apply zero_leaf. }
  unfold with_root in Hn1, Hn2. assert (∀ r, user r → R r ∧ r ≠ level0_table kt) as Huser.
  { intros r [->| ->]; (split; [unfold R, demo_roots, with_root; tauto|intros Heq; rewrite Heq in *; tauto]). }
  split_and!; [unfold R, demo_roots, with_root; tauto|done|done| |].
  - split; cbn [demo_world wmem procs ktabs kva].
    + eapply forest_weaken; [exact Hf2|]. by intros q [].
    + intros r va pa ro el0 Hr Hva Htr. by rewrite translate_no_leaf in Htr by (apply Hnone; by apply Huser).
    + apply new_space; [vm_compute; intuition congruence|done| |apply Hnone; unfold R, demo_roots, with_root; tauto].
      intros x Hx. rewrite Hh0. unfold is_usize, tag_ok, tag_of, START_ADDRESS, TOTAL_SIZE in *. pdlia.
    + intros i p [[-> ->]|[-> ->]]%demo_procs; cbn [demo_process page_tables address_space_allocator];
        (split; [first [by left|by right]|split; [done|]]);
        (apply new_space; [vm_compute; intuition congruence|done| |apply Hnone, Huser; first [by left|by right]]);
        intros x Hx; rewrite ?Hh1, ?Hh2; unfold is_usize, tag_ok, tag_of in *; pdlia.
    + intros i j p q [[-> ->]|[-> ->]]%demo_procs [[-> ->]|[-> ->]]%demo_procs Heq; try done;
        cbn in Heq; exfalso; apply Hn2; right; congruence.
    + intros i p x Hp. change (user_ranges i []) with (@nil (Z * Z)). rewrite cover_count_nil, Z.add_0_r.
      apply demo_procs in Hp as [[-> ->]|[-> ->]]; apply new_cover.
    + intros x. change (kernel_ranges []) with (@nil (Z * Z)). rewrite cover_count_nil, Z.add_0_r. apply new_cover.
    + by intros g ?%elem_of_nil.
  - cbn [demo_world procs]. intros i p [[-> ->]|[-> ->]]%demo_procs; unfold new_process; cbn; split_and!; done || lia.
Qed.

Lemma demo_fits t : small_queue demo_layouts t 4.
Proof. split; [lia|]. exists 1. split; [by destruct t|lia]. Qed.

(** Process 1 takes 2 MiB of heap and process 2 one page; then process 1 creates a completion
    queue. *)
Definition demo_commands (kt pt1 pt2 : PageTable) (t : Tables PhysicalMemoryAllocator) : bool :=
  let w := demo_world pt1 pt2 t in
  alloc_aligned kt 512 false (system_of w (demo_process 1 pt1)) &&
  match alloc_memory kt 512 false (system_of w (demo_process 1 pt1)) with
  | Ok _ s1 =>
      let w1 := set_system w 1 s1 in
      match alloc_memory kt 1 false (system_of w1 (demo_process 2 pt2)) with
      | Ok _ s2 =>
          match create_completion_queue kt demo_layouts 4 (system_of (set_system w1 2 s2) (proc s1)) with
          | Ok _ s3 => match all_queues (proc s3) with [q] => queue_id q =? 1 | _ => false end
          | _ => false
          end
      | _ => false
      end
  | _ => false
  end.

Lemma demo_reached : ∃ kt pt1 pt2 t w a b p q, demo_boot demo_tables = Ok (kt, pt1, pt2) t ∧
  rtc (mem_step kt demo_layouts) (demo_world pt1 pt2 t, []) (w, [b; a]) ∧
  rg_pid a = 1 ∧ rg_pid b = 2 ∧ procs w !! 1 = Some p ∧ all_queues p = [q] ∧ queue_id q = 1.
Proof.
  assert (match demo_boot demo_tables with
          | Ok (kt, pt1, pt2) t => demo_commands kt pt1 pt2 t | _ => false end = true) as E
    by (vm_compute; reflexivity).
  destruct (demo_boot demo_tables) as [[[kt pt1] pt2] t|e t|wh]; [|discriminate E|discriminate E].
  unfold demo_commands in E. set (w := demo_world pt1 pt2 t) in *. apply andb_true_iff in E as [Ea E].
  destruct (alloc_memory kt 512 false _) as [[a ka] s1|e s1|wh] eqn:E1; [|discriminate E|discriminate E].
  set (w1 := set_system w 1 s1) in *.
  destruct (alloc_memory kt 1 false _) as [[b kb] s2|e s2|wh] eqn:E2; [|discriminate E|discriminate E].
  set (w2 := set_system w1 2 s2) in *.
  destruct (create_completion_queue _ _ _ _) as [nq s3|e s3|wh] eqn:E3; [|discriminate E|discriminate E].
  destruct (all_queues (proc s3)) as [|q [|? ?]] eqn:Eq; [discriminate E| |discriminate E].
  apply Z.eqb_eq in E. exists kt, pt1, pt2, t, (set_system w2 1 s3),
    {| rg_pid := 1; rg_base := a; rg_pages := 512; rg_kernel := ka |},
    {| rg_pid := 2; rg_base := b; rg_pages := 1; rg_kernel := kb |}, (proc s3), q.
  split; [done|]. split_and!; [|reflexivity|reflexivity|apply lookup_insert_eq|done|done].
  eapply rtc_l; [eapply (ms_alloc kt _ w [] 1 _ 512); [reflexivity|lia|exact Ea|exact E1]|].
  eapply rtc_l; [eapply (ms_alloc kt _ w1 _ 2 _ 1); [reflexivity|lia|by apply small_alloc|exact E2]|].
  eapply rtc_l; [eapply (ms_create_completion kt _ w2 _ 1 (proc s1)); [reflexivity|apply small_queue_fits, demo_fits|]|apply rtc_refl].
  left. by exists nq.
Qed.

Example processes_isolated_witness : ∃ kt pt1 pt2 t w a b,
  rtc (mem_step kt demo_layouts) (demo_world pt1 pt2 t, []) (w, [b; a]) ∧
  ∃ p s, procs w !! rg_pid a = Some p ∧ free_memory (rg_base a) (rg_pages a) (system_of w p) = Ok tt s.
Proof.
  destruct demo_reached as (kt & pt1 & pt2 & t & w & a & b & p & q & Hboot & Hst & _).
  destruct (demo_start _ _ _ _ Hboot) as (HR & Hkh & Huser & Hw & Hnew).
  exists kt, pt1, pt2, t, w, a, b. split; [exact Hst|].
  destruct (processes_isolated kt _ _ demo_layouts HR Hkh Huser _ _ _ _ Hw Hnew Hst) as (_ & _ & _ & Hfree & _).
  apply Hfree. right. left.
Defined.

Example destroy_queue_correct_witness : ∃ kt w p,
  procs w !! 1 = Some p ∧ no_panic (destroy_queue kt demo_layouts 1 (system_of w p)).
Proof.
  destruct demo_reached as (kt & pt1 & pt2 & t & w & a & b & p & q & Hboot & Hst & _ & _ & Hp & _).
  destruct (demo_start _ _ _ _ Hboot) as (HR & Hkh & Huser & Hw & Hnew).
  exists kt, w, p. split; [exact Hp|].
  destruct (destroy_queue_correct kt _ _ demo_layouts HR Hkh Huser _ _ _ _ 1 p 1 Hw Hnew Hst Hp) as (_ & _ & Hd).
  by destruct (destroy_queue kt demo_layouts 1 (system_of w p)).
Defined.

Example free_memory_correct_witness : ∃ w p a s,
  procs w !! rg_pid a = Some p ∧ free_memory (rg_base a) (rg_pages a) (system_of w p) = Ok tt s.
Proof.
  destruct demo_reached as (kt & pt1 & pt2 & t & w & a & b & p & q & Hboot & Hst & _).
  destruct (demo_start _ _ _ _ Hboot) as (HR & Hkh & Huser & Hw & Hnew).
  destruct (free_memory_correct kt _ _ demo_layouts HR Hkh Huser _ _ _ _ a Hw Hnew Hst) as (p' & s & Hp & Hrun & _);
    [apply elem_of_app; left; right; left|]. by exists w, p', a, s.
Defined.

Example heap_free_unmapped_panics_witness : ∃ s : System, heap_free 0x5000 0x1000 s = Stop Panic.
Proof.
  destruct demo_kernel as (kt & t & He & _ & Hf & _).
  destruct (empty_step _ _ _ _ _ _ demo_forest He) as (_ & _ & Hz & _).
  exists {| mem := {| ktabs := t; kva := VirtAlloc.new 0x1000 0x1000 |}; proc := demo_process 1 kt |}.
  apply (heap_free_unmapped_panics (with_root (λ _, False) (level0_table kt)) (λ _, False));
    [exact Hf|right; reflexivity|vm_compute; split; congruence|lia|].
  cbn [proc demo_process page_tables mem ktabs]. by apply zero_step.
Defined.

(** When a process ends, the addresses of its queues are given back to the kernel's
    allocator but not unmapped: the kernel still reaches the queue's memory, at an address that
    is free and in a frame that is free. *)
Theorem drop_process_keeps_mapping : ∃ kt s0 nq s s' q pa,
  create_completion_queue kt demo_layouts 4 s0 = Ok nq s ∧ recv_queues (proc s) = [q] ∧
  drop_process demo_layouts 4096 s = Ok tt s' ∧
  translate (tables (ktabs (mem s'))) true (level0_table kt) (uq_root_address q) = Some (pa, false, true) ∧
  1 ≤ free_cover (kva (mem s')) (uq_root_address q) ∧ ¬ frame_allocated (frames (ktabs (mem s'))) pa.
Proof.
  assert (match demo_boot demo_tables with
          | Ok (kt, pt1, pt2) t =>
              match create_completion_queue kt demo_layouts 4 (system_of (demo_world pt1 pt2 t) (demo_process 1 pt1)) with
              | Ok _ s =>
                  match recv_queues (proc s), drop_process demo_layouts 4096 s with
                  | [q], Ok _ s' =>
                      match translate (tables (ktabs (mem s'))) true (level0_table kt) (uq_root_address q) with
                      | Some (pa, false, true) => (1 <=? free_cover (kva (mem s')) (uq_root_address q)) &&
                                                  negb (page_bit (frames (ktabs (mem s'))) pa =? 1)
                      | _ => false
                      end
                  | _, _ => false
                  end
              | _ => false
              end
          | _ => false end = true) as E by (vm_compute; reflexivity).
  destruct (demo_boot demo_tables) as [[[kt pt1] pt2] t|e t|wh]; [|discriminate E|discriminate E].
  destruct (create_completion_queue _ _ _ _) as [nq s|e s|wh] eqn:E1; [|discriminate E|discriminate E].
  destruct (recv_queues (proc s)) as [|q [|q' l]] eqn:E2; [discriminate E| |discriminate E].
  destruct (drop_process _ _ _) as [[] s'|e s'|wh] eqn:E3; [|discriminate E|discriminate E].
  destruct (translate _ _ _ _) as [[[pa []] []]|] eqn:E4; [discriminate E..| |discriminate E|discriminate E].
  apply andb_true_iff in E as [E5 E6]. apply negb_true_iff in E6.
  eexists kt, _, nq, s, s', q, pa. split_and!; [exact E1|done|done|done|lia|]. unfold frame_allocated. lia.
Qed.
