(* ===== verification/QueueIds.v ===== *)
(** [Process::next_queue_id] of [kernel/src/process/mod.rs] as threads see it: the loop of
    [compare_exchange_weak], which may fail for no reason, interleaved in any order. *)
From stdpp Require Import list_numbers.
From S2P Require Import Prelude Addresses.

Inductive pc :=
  | Idle
  | Loop (id : Z)        (* the value last seen *)
  | Returned (id : Z)
  | OutOfIds.

Record ids := {
  counter : Z;           (* [next_queue_id], an [AtomicU16] *)
  pcs : list pc;
  given : list Z;        (* history: the identifiers returned so far, latest first *)
}.

Definition at_pc (s : ids) (t : nat) (p : pc) : ids :=
  {| counter := counter s; pcs := <[t := p]> (pcs s); given := given s |}.

Inductive id_step : ids → ids → Prop :=
  (** [self.next_queue_id.load] *)
  | is_load s t : pcs s !! t = Some Idle → id_step s (at_pc s t (Loop (counter s)))
  (** [if id == 0] *)
  | is_out s t : pcs s !! t = Some (Loop 0) → id_step s (at_pc s t OutOfIds)
  (** The exchange succeeds. *)
  | is_exchange s t i : pcs s !! t = Some (Loop i) → i ≠ 0 → counter s = i →
      id_step s {| counter := (i + 1) mod 2 ^ 16; pcs := <[t := Returned i]> (pcs s); given := i :: given s |}
  (** It fails, because the counter changed or for no reason, and returns what it saw. *)
  | is_retry s t i : pcs s !! t = Some (Loop i) → i ≠ 0 → id_step s (at_pc s t (Loop (counter s)))
  (** The caller goes on, and may call again. *)
  | is_return s t p : pcs s !! t = Some p → (p = OutOfIds ∨ ∃ i, p = Returned i) →
      id_step s (at_pc s t Idle).

Section in_order.
Context (first : Z) (Hfirst : 1 ≤ first < 2 ^ 16).

(** The identifiers given are those from [first] on, in order; the counter is the next one,
    and zero for good after the last. *)
Record ids_ok (s : ids) : Prop := {
  io_given : given s = reverse (seqZ first (Z.of_nat (length (given s))));
  io_range : first + Z.of_nat (length (given s)) ≤ 2 ^ 16;
  io_counter : counter s = (first + Z.of_nat (length (given s))) mod 2 ^ 16;
  io_out : ∀ t, pcs s !! t = Some (Loop 0) ∨ pcs s !! t = Some OutOfIds → counter s = 0;
}.

Lemma at_pc_ok s t p : ids_ok s → ((p = Loop 0 ∨ p = OutOfIds) → counter s = 0) → ids_ok (at_pc s t p).
Proof.
  intros [Hg Hr Hc Ho] Hp. split; cbn; try done.
  intros u [[(-> & -> & _)|[_ Hu]]%list_lookup_insert_Some|[(-> & -> & _)|[_ Hu]]%list_lookup_insert_Some];
    [by apply Hp; left|by eapply Ho; left|by apply Hp; right|by eapply Ho; right].
Qed.

Lemma id_step_ok s s' : id_step s s' → ids_ok s → ids_ok s'.
Proof.
  intros Hst Hok. pose proof Hok as [Hg Hr Hc Ho]. destruct Hst as [s t Ht|s t Ht|s t i Ht Hi Hci|s t i Ht Hi|s t p Ht Hp].
  - apply at_pc_ok; [done|]. intros [[= ->]|?]; done.
  - apply at_pc_ok; [done|]. intros _. by eapply Ho; left.
  - assert (first + Z.of_nat (length (given s)) ≠ 2 ^ 16) as Hne by (intros Heq; rewrite Heq in Hc; by rewrite Hci in Hc).
    assert (i = first + Z.of_nat (length (given s))) as -> by (rewrite <- Hci, Hc; apply Z.mod_small; lia).
    split; cbn [counter pcs given length].
    + rewrite seqZ_S, reverse_app. cbn. by rewrite <- Hg.
    + lia.
    + f_equal. lia.
    + intros u Hu. destruct (decide (t = u)) as [<-|Hne'].
      * rewrite list_lookup_insert_eq in Hu by (by eapply lookup_lt_Some). by destruct Hu.
      * rewrite list_lookup_insert_ne in Hu by done. exfalso. apply Hi. rewrite <- Hci. by eapply Ho.
  - apply at_pc_ok; [done|]. intros [[= ->]|?]; done.
  - apply at_pc_ok; [done|]. by intros [?|?].
Qed.

(** However the calls of [next_queue_id] interleave, the identifiers they return are
    [first], [first + 1], ..., each once, never zero and never above the largest [u16]; a call
    reports [OutOfIds] only when the counter is zero, and then all of them have been given
    out. *)
Theorem queue_ids_in_order s0 s : counter s0 = first → given s0 = [] →
  (∀ t p, pcs s0 !! t = Some p → p = Idle) → rtc id_step s0 s →
  reverse (given s) = seqZ first (Z.of_nat (length (given s))) ∧
  NoDup (given s) ∧ Forall (λ i, first ≤ i < 2 ^ 16) (given s) ∧
  ((∃ t, pcs s !! t = Some OutOfIds) → counter s = 0) ∧
  (counter s = 0 → Z.of_nat (length (given s)) = 2 ^ 16 - first ∧
     ∀ s', id_step s s' → counter s' = 0 ∧ given s' = given s).
Proof.
  intros Hc0 Hg0 Hp0 Hst.
  assert (ids_ok s0) as H0.
  { split; rewrite ?Hg0, ?Hc0; cbn; [done|lia|rewrite Z.add_0_r, Z.mod_small by lia; done|].
    intros t [Ht|Ht]; by apply Hp0 in Ht. }
  assert (ids_ok s) as [Hg Hr Hc Ho].
  { clear Hc0 Hg0 Hp0. induction Hst; [done|]. eauto using id_step_ok. }
  assert (reverse (given s) = seqZ first (Z.of_nat (length (given s)))) as Hrev.
  { rewrite Hg at 1. apply reverse_involutive. }
  split; [done|]. split_and!.
  - rewrite <- (reverse_Permutation (given s)), Hrev. apply NoDup_seqZ.
  - rewrite <- (reverse_Permutation (given s)), Hrev. apply Forall_seqZ. lia.
  - intros [t Ht]. eapply Ho. by right.
  - intros Hz. assert (first + Z.of_nat (length (given s)) = 2 ^ 16) as Hall.
    { rewrite Hc in Hz. apply Z.mod_divide in Hz as [k Hk]; lia. }
    split; [lia|]. intros s' Hs. destruct Hs; cbn; try done. congruence.
Qed.
End in_order.

(** Two threads: the second retries after the first took the identifier both saw. *)
Definition demo_ids (c : Z) (l : list pc) (g : list Z) : ids := {| counter := c; pcs := l; given := g |}.

Example queue_ids_in_order_witness :
  rtc id_step (demo_ids 65534 [Idle; Idle] []) (demo_ids 0 [Returned 65534; Returned 65535] [65535; 65534]) ∧
  NoDup [65535; 65534].
Proof.
  assert (rtc id_step (demo_ids 65534 [Idle; Idle] [])
            (demo_ids 0 [Returned 65534; Returned 65535] [65535; 65534])) as Hst.
  { eapply rtc_l; [apply (is_load _ 0); reflexivity|]. eapply rtc_l; [apply (is_load _ 1); reflexivity|].
    eapply rtc_l; [apply (is_exchange _ 0 65534); done|]. eapply rtc_l; [apply (is_retry _ 1 65534); done|].
    eapply rtc_l; [apply (is_exchange _ 1 65535); done|]. apply rtc_refl. }
  split; [exact Hst|].
  destruct (queue_ids_in_order 65534 ltac:(lia) (demo_ids 65534 [Idle; Idle] []) _ eq_refl eq_refl
    ltac:(by intros [|[|[|t]]] p [=]) Hst) as (_ & Hnd & _). exact Hnd.
Defined.

