(* ===== verification/Fat.v ===== *)
(** The FAT file system ([kernel/src/fs/fat/mod.rs], [kernel/src/fs/fat/data.rs]): mounting a
    volume, directories, looking up paths and loading files.

    It reads a volume through the block cache and, for file contents, from the block store
    itself; [Volume] is what it relies on of both. *)
From Stdlib Require Import Strings.Ascii Strings.String.
From stdpp Require Import base list strings.
From S2P Require Import Prelude Addresses BlockCache Error RegPath.

(** *** Volumes *)

(** [n] bytes from [a] on lie in one page of the volume. *)
Definition in_page (a n : Z) : Prop := 0 ≤ a ∧ 1 ≤ n ∧ a mod PAGE_SIZE + n ≤ PAGE_SIZE ∧ a + n < U64.

Definition read_at (d : memory) (a n : Z) : list Z := (λ i, d (a + Z.of_nat i)) <$> seq 0 (Z.to_nat n).

(** A block cache together with its store and the memory of the machine: [vol_bytes] is what is
    on the device, [vol_mem] the memory and [vol_buffer] the part of it the cache uses.  A
    volume that is [vol_ok] has a device that does not fail and no change that is not on it. *)
Class Volume (V : Type) := {
  vol_ok : V → Prop;
  vol_bytes : V → memory;
  vol_mem : V → memory;
  vol_buffer : V → Z → Prop;
  vol_block_size : V → Z;
  (** [BlockCache::copy_bytes] *)
  vol_copy_bytes : Z → Z → Z → M V StorageError (list Z);
  (** [cache.underlying_store().lock().await.read_blocks] *)
  vol_read_blocks : Z → list (Z * Z) → M V StorageError unit;
  vol_copy_law v address offset n : vol_ok v → 0 ≤ address → 0 ≤ offset →
    in_page (address * vol_block_size v + offset) n → ∃ v',
    vol_copy_bytes address offset n v = Ok (read_at (vol_bytes v) (address * vol_block_size v + offset) n) v' ∧
    vol_ok v' ∧ (∀ a, vol_bytes v' a = vol_bytes v a) ∧ vol_block_size v' = vol_block_size v ∧
    (∀ a, vol_buffer v' a ↔ vol_buffer v a) ∧ (∀ a, ¬ vol_buffer v a → vol_mem v' a = vol_mem v a);
  vol_read_law v sector pa n : vol_ok v → 0 ≤ sector →
    (∀ a, pa ≤ a < pa + n * vol_block_size v → ¬ vol_buffer v a) → ∃ v',
    vol_read_blocks sector [(pa, n)] v = Ok tt v' ∧
    vol_ok v' ∧ (∀ a, vol_bytes v' a = vol_bytes v a) ∧ vol_block_size v' = vol_block_size v ∧
    (∀ a, vol_buffer v' a ↔ vol_buffer v a) ∧
    (∀ a, ¬ vol_buffer v a → vol_mem v' a =
       copy_range (vol_bytes v) (sector * vol_block_size v) (vol_mem v) pa (n * vol_block_size v) a);
}.

(** *** Data structures *)

(** Fields of packed structures, little endian. *)
Fixpoint le (l : list Z) : Z := match l with [] => 0 | b :: l' => b + 256 * le l' end.
Definition field (l : list Z) (o n : nat) : list Z := take n (drop o l).
Definition uint (l : list Z) (o n : nat) : Z := le (field l o n).

Record PartitionEntry := {
  pe_attributes : Z;
  start_chs : list Z;
  fs_type : Z;
  end_chs : list Z;
  start_sector : Z;
  pe_length : Z;
}.
Definition cast_PartitionEntry (l : list Z) : PartitionEntry :=
  {| pe_attributes := uint l 0 1; start_chs := field l 1 3; fs_type := uint l 4 1; end_chs := field l 5 3;
     start_sector := uint l 8 4; pe_length := uint l 12 4 |}.

Record BootSector := {
  jump_boot : list Z;
  oem_name : list Z;
  bytes_per_sector : Z;
  sectors_per_cluster : Z;
  reserved_sectors_count : Z;
  number_of_fats : Z;
  root_entries_count : Z;
  total_sectors_16 : Z;
  media : Z;
  fat_size_16 : Z;
  sectors_per_track : Z;
  number_of_heads : Z;
  hidden_sectors : Z;
  total_sectors_32 : Z;
  drive_number : Z;
  bs_reserved : Z;
  boot_signature : Z;
  volume_id : Z;
  volume_label : list Z;
  file_system_type : list Z;
}.
Definition cast_BootSector (l : list Z) : BootSector :=
  {| jump_boot := field l 0 3; oem_name := field l 3 8; bytes_per_sector := uint l 11 2;
     sectors_per_cluster := uint l 13 1; reserved_sectors_count := uint l 14 2; number_of_fats := uint l 16 1;
     root_entries_count := uint l 17 2; total_sectors_16 := uint l 19 2; media := uint l 21 1;
     fat_size_16 := uint l 22 2; sectors_per_track := uint l 24 2; number_of_heads := uint l 26 2;
     hidden_sectors := uint l 28 4; total_sectors_32 := uint l 32 4; drive_number := uint l 36 1;
     bs_reserved := uint l 37 1; boot_signature := uint l 38 1; volume_id := uint l 39 4;
     volume_label := field l 43 11; file_system_type := field l 54 8 |}.

Definition validate (self : BootSector) : option FsError :=
  if negb (bytes_per_sector self =? 512) then Some (BadMetadata "bytes per sector != 512" (bytes_per_sector self))
  else if negb (number_of_fats self =? 2) then Some (BadMetadata "number of FATs != 2" (number_of_fats self))
  else None.

(** [DirEntryAttributes] *)
Definition ReadOnly : Z := 0x01.
Definition Hidden : Z := 0x02.
Definition System : Z := 0x04.
Definition VolumeId : Z := 0x08.
Definition DirectoryAttr : Z := 0x10.
Definition LongName : Z := Z.lor (Z.lor (Z.lor ReadOnly Hidden) System) VolumeId.
Definition contains (attributes flag : Z) : bool := Z.land attributes flag =? flag.

Record DirEntry := {
  short_name : list Z;
  attributes : Z;
  res_nt : Z;
  creation_time_tenths_of_second : Z;
  creation_time : Z;
  creation_date : Z;
  last_access_date : Z;
  cluster_num_hi : Z;
  last_write_time : Z;
  last_write_date : Z;
  cluster_num_lo : Z;
  file_size : Z;
}.
Definition cast_DirEntry (l : list Z) : DirEntry :=
  {| short_name := field l 0 11; attributes := uint l 11 1; res_nt := uint l 12 1;
     creation_time_tenths_of_second := uint l 13 1; creation_time := uint l 14 2; creation_date := uint l 16 2;
     last_access_date := uint l 18 2; cluster_num_hi := uint l 20 2; last_write_time := uint l 22 2;
     last_write_date := uint l 24 2; cluster_num_lo := uint l 26 2; file_size := uint l 28 4 |}.

Record LongDirEntry := {
  entry : DirEntry;
  name : list Z;       (* UTF-16 *)
}.

(** [Utf16Str::from_slice] and the characters of the string: code units that are not
    surrogates are characters. *)
Class Utf16 := {
  utf16_chars : list Z → option (list Z);
  utf16_plain l : Forall (λ u, 0 ≤ u < 0xd800) l → utf16_chars l = Some l;
}.

(** The bytes of a string, which are also its characters: names are ASCII here. *)
Definition codes (s : str) : list Z := (λ c, Z.of_N (N_of_ascii c)) <$> s.

(** [str::split_once] at the first dot *)
Fixpoint split_once (l : list Z) : option (list Z * list Z) :=
  match l with
  | [] => None
  | c :: l' => if c =? 46 then Some ([], l') else '(a, b) ← split_once l'; Some (c :: a, b)
  end.

Fixpoint take_while (f : Z → bool) (l : list Z) : list Z :=
  match l with
  | [] => []
  | x :: l' => if f x then x :: take_while f l' else []
  end.

Section names.
Context `{U : Utf16}.

(** [None] is [FatError::InvalidUtf16]. *)
Definition is_named (self : LongDirEntry) (nm : str) : option bool :=
  match name self with
  | [] =>
      if (length nm <=? 11)%nat then
        let '(n, ext) := default (codes nm, []) (split_once (codes nm)) in
        let ename := take 8 (short_name (entry self)) in
        let eext := take 3 (drop 8 (short_name (entry self))) in
        Some (bool_decide (n = take_while (λ b, negb (b =? 32)) ename) && bool_decide (ext = eext))
      else Some false
  | _ =>
      ln ← utf16_chars (name self);
      Some (bool_decide (ln = codes nm))
  end.
End names.

Inductive DirectorySource :=
  | Direct (a : Z)
  | Clusters (i : Z).     (* [ClusterIndex] is [u16] *)

Record VolumeParams := {
  fat_start : Z;
  clusters_start : Z;
  root_directory_start : Z;
  vp_sectors_per_cluster : Z;
  vp_bytes_per_sector : Z;
}.

(** None of these sums can leave 64 bits: the sector is 32 bits wide, the rest less. *)
Definition compute_from_bootsector (partition_addr : Z) (bootsector : BootSector) : VolumeParams :=
  let fats := number_of_fats bootsector * fat_size_16 bootsector in
  {| fat_start := partition_addr + reserved_sectors_count bootsector;
     clusters_start := partition_addr + reserved_sectors_count bootsector + fats;
     root_directory_start := partition_addr + reserved_sectors_count bootsector + fats;
     vp_sectors_per_cluster := sectors_per_cluster bootsector;
     vp_bytes_per_sector := bytes_per_sector bootsector |}.

Definition sector_for_cluster (self : VolumeParams) (cluster_num : Z) : Z :=
  clusters_start self + cluster_num * vp_sectors_per_cluster self.
Definition bytes_per_cluster (self : VolumeParams) : Z :=
  vp_sectors_per_cluster self * vp_bytes_per_sector self.

Definition compute_block_addr (source : DirectorySource) (params : VolumeParams) : Z :=
  match source with
  | Direct a => a
  | Clusters i => sector_for_cluster params i
  end.

(** [u16] multiplication, with overflow checks *)
Definition umul16 (a b : Z) : option Z := if a * b <? 2 ^ 16 then Some (a * b) else None.

(** [array_chunks] of two and the cast to [u16]: a byte left over is dropped. *)
Fixpoint chunks16 (l : list Z) : list Z :=
  match l with
  | a :: b :: l' => (a + 256 * b) :: chunks16 l'
  | _ => []
  end.
(** The part of a long name in one entry. *)
Definition name_part (l : list Z) : list Z :=
  chunks16 (take_while (λ b, negb (b =? 0xff)) (field l 1 10 ++ field l 14 12 ++ field l 28 4)).
(** A terminator at the end of the whole name is dropped. *)
Definition finish_name (l : list Z) : list Z :=
  match last l with Some 0 => removelast l | _ => l end.

(** *** Operations *)

Definition CACHE_SIZE : Z := 256.

Section fat.
Context {V : Type} `{!Volume V} `{U : Utf16}.

Abbreviation FM := (M V Error).

(** A call whose error the caller looks at. *)
Definition attempt {A} (f : M V StorageError A) : FM (A + StorageError) := λ v,
  match f v with
  | Ok a v' => Ok (inl a) v'
  | Err e v' => Ok (inr e) v'
  | Stop w => Stop w
  end.
(** [.context(StorageSnafu { reason })] *)
Definition storage {A} (reason : string) (f : M V StorageError A) : FM A := λ v,
  match f v with
  | Ok a v' => Ok a v'
  | Err e v' => Err (Storage reason e) v'
  | Stop w => Stop w
  end.

(** The entry of the FAT for a cluster, as bytes. *)
Definition copy_fat_entry (params : VolumeParams) (i : Z) : M V StorageError (list Z) :=
  o ← lift (umul16 i 2);
  vol_copy_bytes (fat_start params) o 2.

(** What a directory stream yields: an entry or an error, and the state for the next one. *)
Abbreviation item := ((LongDirEntry + Error) * (DirectorySource * Z))%type.

(** Where the next entry is: [inr] is the item the stream yields when the FAT cannot be
    read. *)
Definition advance (params : VolumeParams) (size_of_segment : Z) (source : DirectorySource)
    (offset block_addr : Z) : FM ((DirectorySource * Z * Z) + item) :=
  if size_of_segment <=? offset then
    match source with
    | Direct d =>
        d' ← lift (uadd d 1);
        mret (inl (Direct d', 0, d'))
    | Clusters i =>
        r ← attempt (copy_fat_entry params i);
        match r with
        | inl bytes =>
            let source' := Clusters (le bytes) in
            mret (inl (source', 0, compute_block_addr source' params))
        | inr e => mret (inr (inr (Storage "read next cluster in FAT" e), (source, 0)))
        end
    end
  else mret (inl (source, offset, block_addr)).

(** The loop of [dir_entry_stream]: one round for each part of a long name, one for the entry. *)
Fixpoint stream_loop (fuel : nat) (params : VolumeParams) (size_of_segment : Z) (source : DirectorySource)
    (offset block_addr : Z) (entry_name : list Z) : FM (option item) :=
  match fuel with
  | O => out_of_fuel
  | S fuel' =>
      r ← attempt (vol_copy_bytes block_addr offset 32);
      match r with
      | inr e => mret (Some (inr (Storage "read directory entry" e), (source, offset)))
      | inl entry_bytes =>
          next ← advance params size_of_segment source (offset + 32) block_addr;
          match next with
          | inr i => mret (Some i)
          | inl (source, offset, block_addr) =>
              b0 ← lift (entry_bytes !! 0%nat);
              b11 ← lift (entry_bytes !! 11%nat);
              if b0 =? 0 then mret None
              else if b11 =? LongName then
                stream_loop fuel' params size_of_segment source offset block_addr
                  (name_part entry_bytes ++ entry_name)
              else
                mret (Some (inl {| entry := cast_DirEntry entry_bytes; name := finish_name entry_name |},
                            (source, offset)))
          end
      end
  end.

Definition size_of_segment (params : VolumeParams) (source : DirectorySource) (v : V) : Z :=
  match source with
  | Direct _ => vol_block_size v
  | Clusters _ => bytes_per_cluster params
  end.

(** [.collect::<Vec<_>>()] of the stream *)
Fixpoint collect_from (fuel : nat) (params : VolumeParams) (seg : Z) (source : DirectorySource) (offset : Z)
    : FM (list (LongDirEntry + Error)) :=
  match fuel with
  | O => out_of_fuel
  | S fuel' =>
      o ← stream_loop fuel params seg source offset (compute_block_addr source params) [];
      match o with
      | None => mret []
      | Some (x, (source, offset)) =>
          l ← collect_from fuel' params seg source offset;
          mret (x :: l)
      end
  end.
Definition dir_entries (fuel : nat) (params : VolumeParams) (source : DirectorySource)
    : FM (list (LongDirEntry + Error)) :=
  v ← get;
  collect_from fuel params (size_of_segment params source v) source 0.

(** The [for] loop over the entries: the first entry with the name. An entry whose name is not
    UTF-16 is skipped. *)
Fixpoint find_named (ps : str) (l : list (LongDirEntry + Error)) : FM (option DirEntry) :=
  match l with
  | [] => mret None
  | inr e :: _ => throw e
  | inl de :: l' =>
      match is_named de ps with
      | Some true => mret (Some (entry de))
      | _ => find_named ps l'
      end
  end.

(** [depth] bounds the number of components, [fuel] the number of entries of a directory. *)
Fixpoint find_entry_for_path (depth fuel : nat) (params : VolumeParams) (source : DirectorySource)
    (comps : Components) : FM (option DirEntry) :=
  match depth with
  | O => out_of_fuel
  | S depth' =>
      '(comp, comps) ← lift (RegPath.next comps);
      comp ← lift comp;                          (* [unwrap] *)
      ps ← lift (match comp with
                 | Root => None                  (* [todo!()] *)
                 | CurrentDir => Some (text ".")
                 | ParentDir => Some (text "..")
                 | Name s => Some s
                 end);
      v ← dir_entries fuel params source;
      found ← find_named ps v;
      match found with
      | None => mret None
      | Some de =>
          if contains (attributes de) DirectoryAttr then
            find_entry_for_path depth' fuel params (Clusters (cluster_num_lo de)) comps
          else mret (Some de)
      end
  end.

Record FatFile := {
  ff_params : VolumeParams;
  start_cluster_number : Z;
  ff_file_size : Z;
}.

Definition open_file (depth fuel : nat) (params : VolumeParams) (subpath : str) : FM FatFile :=
  o ← find_entry_for_path depth fuel params (Direct (root_directory_start params)) (new_components subpath);
  match o with
  | None => throw (Registry "failed to find directory entry for path" (NotFound subpath))
  | Some e => mret {| ff_params := params; start_cluster_number := cluster_num_lo e; ff_file_size := file_size e |}
  end.

(** The next cluster of a file. *)
Definition next_cluster (reason : string) (params : VolumeParams) (i : Z) : FM Z :=
  bytes ← storage reason (copy_fat_entry params i);
  mret (le bytes).

(** The two loops of [load_pages]; each round moves on by a cluster. *)
Fixpoint seek_loop (fuel : nat) (params : VolumeParams) (src_offset cur_cluster_num cur_offset : Z)
    : FM (Z * Z) :=
  if cur_offset <? src_offset then
    match fuel with
    | O => out_of_fuel
    | S fuel' =>
        next ← next_cluster "read FAT table" params cur_cluster_num;
        cur_offset' ← lift (uadd cur_offset (bytes_per_cluster params));
        seek_loop fuel' params src_offset next cur_offset'
    end
  else mret (cur_cluster_num, cur_offset).

Fixpoint load_loop (fuel : nat) (params : VolumeParams) (src_offset dest_address end_offset
    cur_cluster_num cur_offset : Z) : FM unit :=
  if cur_offset <? end_offset then
    match fuel with
    | O => out_of_fuel
    | S fuel' =>
        d ← lift (usub cur_offset src_offset);
        storage "read data"
          (vol_read_blocks (sector_for_cluster params cur_cluster_num)
             [(PhysicalAddress.offset dest_address (as_isize d), vp_sectors_per_cluster params)]);;
        next ← next_cluster "read FAT table for next cluster" params cur_cluster_num;
        cur_offset' ← lift (uadd cur_offset (bytes_per_cluster params));
        load_loop fuel' params src_offset dest_address end_offset next cur_offset'
    end
  else mret tt.

Definition load_pages (fuel : nat) (self : FatFile) (src_offset dest_address num_pages : Z) : FM unit :=
  if ff_file_size self <? src_offset then
    throw (FileSystem "load out of bounds"
             (OutOfBounds src_offset (ff_file_size self) "load_pages: source offset beyond end of file"))
  else
    bytes ← lift (umul num_pages PAGE_SIZE);
    e ← lift (uadd src_offset bytes);
    let end_offset := Z.min e (ff_file_size self) in
    '(cur_cluster_num, cur_offset) ← seek_loop fuel (ff_params self) src_offset (start_cluster_number self) 0;
    load_loop fuel (ff_params self) src_offset dest_address end_offset cur_cluster_num cur_offset.

(** [Handler::new] after the cache was created; listing the root directory for the log reads it
    once, an error there is only logged. *)
Definition mount_volume (fuel : nat) : FM VolumeParams :=
  mbr_data ← storage "load MBR" (vol_copy_bytes 0 446 66);
  m64 ← lift (mbr_data !! 64%nat);
  m65 ← lift (mbr_data !! 65%nat);
  if negb (m64 =? 0x55) && negb (m65 =? 0xaa) then
    throw (FileSystem "check MBR magic" (BadMetadata "bad MBR magic bytes" (m64 * 256 + m65)))
  else
    let partition_addr := start_sector (cast_PartitionEntry mbr_data) in
    assert (0 <? partition_addr);;
    bootsector_data ← storage "read boot sector" (vol_copy_bytes partition_addr 0 512);
    b510 ← lift (bootsector_data !! 510%nat);
    b511 ← lift (bootsector_data !! 511%nat);
    if negb ((b510 =? 0x55) && (b511 =? 0xaa)) then
      throw (FileSystem "check boot sector magic" (BadMetadata "invalid boot sector signature" b510))
    else
      let bootsector := cast_BootSector bootsector_data in
      match validate bootsector with
      | Some e => throw (FileSystem "validate boot sector" e)
      | None =>
          let params := compute_from_bootsector partition_addr bootsector in
          dir_entries fuel params (Direct (root_directory_start params));;
          mret params
      end.
End fat.
