(* ===== verification/CacheVolume.v ===== *)
(** The block cache as the volume a file system reads: while nothing is written and the device
    does not fail, reading through the cache gives the bytes of the device, and touches no
    memory outside the cache's buffer. *)
From Stdlib Require Import Strings.String.
From stdpp Require Import base list.
From S2P Require Import Prelude BitField Addresses BlockCache BlockCacheSpec RegPath Error Fat.

(** A store whose reads succeed. *)
Class ReliableStore (S : Type) `{!BlockStore S} := {
  reliable : S → Prop;
  reliable_read s m src dests s' m' r : reliable s → read_blocks s m src dests = (s', m', r) →
    reliable s' ∧ ∃ n, r = inl n;
}.

Section volume.
Context {BF : BitField} {S : Type} `{!BlockStore S} `{!FullTransfers S} `{!ReliableStore S}.
Implicit Types (c : BlockCache S).

Definition clean c : Prop := ∀ k md, metadata c !! k = Some md → dirty md = false.
Definition in_buffer c (a : Z) : Prop := buffer_pa c ≤ a < buffer_pa c + buffer_len c.

(** What reading leaves as it is. *)
Record settled c c' : Prop := {
  st_same : same c c';
  st_clean : clean c';
  st_reliable : reliable (store c');
  st_disk : ∀ a, disk (store c') a = disk (store c) a;
  st_mem : ∀ a, ¬ in_buffer c a → mem c' a = mem c a;
}.

Lemma settled_refl c : clean c → reliable (store c) → settled c c.
Proof. by split. Qed.

Lemma settled_trans c1 c2 c3 : settled c1 c2 → settled c2 c3 → settled c1 c3.
Proof.
  intros [S1 C1 R1 D1 M1] [S2 C2 R2 D2 M2]. split; [by transitivity c2|done|done|intros a; by rewrite D2|].
  intros a Ha. rewrite M2; [by apply M1|]. destruct S1 as (_ & _ & _ & _ & _ & _ & _ & El & Ep & _).
  unfold in_buffer. by rewrite El, Ep.
Qed.

(** An operation that only reads. *)
Definition quiet {A} (f : M (BlockCache S) StorageError A) : Prop := ∀ c, wf c → clean c → reliable (store c) →
  match f c with Ok _ c' => settled c c' | Err _ _ => False | Stop _ => True end.

Lemma quiet_bind {A B} (f : M (BlockCache S) StorageError A) (g : A → M (BlockCache S) StorageError B) :
  quiet f → (∀ a, quiet (g a)) → quiet (f ≫= g).
Proof.
  intros Hf Hg c Hwf Hc Hr. rewrite bind_unfold. specialize (Hf c Hwf Hc Hr). destruct (f c) as [a c1|e c1|w]; [|done|done].
  pose proof Hf as [Hs1 Hc1 Hr1 _ _]. specialize (Hg a c1 (same_wf _ _ Hs1 Hwf) Hc1 Hr1).
  destruct (g a c1) as [b c2|e c2|w]; [|done|done]. by eapply settled_trans.
Qed.
Lemma quiet_ret {A} (a : A) : quiet (mret a).
Proof. intros c _ Hc Hr. by apply settled_refl. Qed.
Lemma quiet_lift {A} (o : option A) : quiet (lift o).
Proof. intros c _ Hc Hr. destruct o; [by apply settled_refl|done]. Qed.
Lemma quiet_get : quiet get.
Proof. intros c _ Hc Hr. by apply settled_refl. Qed.

Lemma chunk_phy_addr_buffer c id : wf c → 0 ≤ id < num_chunks c →
  chunk_phy_addr c id = Some (buffer_pa c + id * PAGE_SIZE).
Proof.
  intros [_ _ _ _ Hcs _ _ _ Hlen Hpa] Hid. assert (0 ≤ id * PAGE_SIZE < buffer_len c) as Hin by pnia.
  unfold chunk_phy_addr. rewrite Hcs, umul_ok by lia. cbn [mbind option_bind]. f_equal.
  unfold as_isize. rewrite (proj2 (Z.ltb_lt _ _)) by lia.
  unfold PhysicalAddress.offset, saturating_add_signed. lia.
Qed.

Lemma quiet_fetch c t id : wf c → clean c → reliable (store c) → 0 ≤ id < num_chunks c →
  match fetch t id (buffer_pa c + id * PAGE_SIZE) false c with
  | Ok _ c' => settled c c' | Err _ _ => False | Stop _ => True end.
Proof.
  intros Hwf Hc Hr Hid. unfold fetch. erewrite bind_run by reflexivity. cbv beta.
  rewrite bind_unfold. destruct (compose_address c t id) as [src|]; cbn [lift]; [|done]. cbv beta iota.
  unfold mret at 1, M_ret at 1. rewrite bind_unfold. unfold store_read.
  destruct (read_blocks _ _ _ _) as [[s' m'] r] eqn:Erd.
  destruct (reliable_read _ _ _ _ _ _ _ Hr Erd) as [Hr' [n ->]].
  pose proof (full_read _ _ _ _ _ _ _ Erd) as Hn. apply read_blocks_law in Erd as (Hbs & Hdisk & Hmem).
  specialize (Hmem Hn). cbn [scatter] in Hmem.
  rewrite (wf_store c Hwf), (wf_bpc c Hwf), (Z.mul_comm (2 ^ _)), (wf_block c Hwf) in Hmem.
  erewrite bind_run by reflexivity. cbv beta. cbn [metadata set_store]. rewrite bind_unfold.
  destruct (metadata c !! Z.to_nat id) as [md|] eqn:Hmd; cbn [lift]; [|done]. unfold mret, M_ret, put. split.
  - repeat split; cbn; try done. by rewrite length_insert.
  - intros k md' Hk. cbn in Hk. apply list_lookup_insert_Some in Hk as [(_ & <- & _)|[_ Hk]]; [|by eapply Hc].
    unfold dirty, set_dirty. by autorewrite with bits.
  - done.
  - done.
  - intros a Ha. cbn. rewrite Hmem. apply copy_range_out. unfold in_buffer in Ha.
    rewrite (wf_buffer c Hwf) in Ha. pnia.
Qed.

Lemma quiet_load_chunk t id : 0 ≤ id → quiet (load_chunk t id false).
Proof.
  intros Hid c Hwf Hc Hr. unfold load_chunk. erewrite bind_run by reflexivity. cbv beta. rewrite bind_unfold.
  destruct (metadata c !! Z.to_nat id) as [md|] eqn:Hmd; cbn [lift]; [|done]. unfold mret at 1, M_ret at 1.
  destruct (negb (occupied md) || negb (tag md =? t)); [|by apply settled_refl].
  assert (0 ≤ id < num_chunks c) as Hid'.
  { apply lookup_lt_Some in Hmd. pose proof (wf_len c Hwf). lia. }
  erewrite bind_run by (apply lift_Ok; split; [by apply chunk_phy_addr_buffer|done]). cbv beta.
  erewrite bind_run; [by apply quiet_fetch|]. unfold write_back. erewrite bind_run by reflexivity. cbv beta.
  by rewrite (Hc _ _ Hmd).
Qed.

Lemma quiet_load_chunks t start n : 0 ≤ start → ∀ i, 0 ≤ i → quiet (load_chunks_loop t start i n false).
Proof.
  intros Hst. induction n as [|n IH]; intros i Hi; [apply quiet_ret|]. cbn [load_chunks_loop].
  intros c Hwf Hc Hr. erewrite bind_run by reflexivity. cbv beta. rewrite bind_unfold.
  destruct (uadd start i) as [id|] eqn:Hid; cbn [lift]; [|done]. unfold mret at 1, M_ret at 1.
  apply uadd_Some in Hid as [-> _].
  assert (quiet (if num_chunks c <? start + i then
     tag' ← lift (uadd t ((start + i) / num_chunks c)); load_chunk tag' ((start + i) mod num_chunks c) false
   else load_chunk t (start + i) false)) as Hq.
  { destruct (Z.ltb_spec (num_chunks c) (start + i)); [|by apply quiet_load_chunk; lia].
    apply quiet_bind; [apply quiet_lift|]. intros t'. apply quiet_load_chunk. apply Z.mod_pos_bound.
    pose proof (chunks_pos c Hwf). pose proof (wf_num c Hwf). lia. }
  exact (quiet_bind _ _ Hq (λ _, IH (i + 1) ltac:(lia)) c Hwf Hc Hr).
Qed.

Lemma decompose_nonneg c g t id o : wf c → decompose_address c g = Some (t, id, o) → 0 ≤ id.
Proof.
  intros Hwf. unfold decompose_address. pose proof (wf_bob c Hwf). pose proof (wf_cib c Hwf).
  rewrite uadd_ok by lia. cbn [mbind option_bind]. destruct (Z.eqb_spec (chunk_id_bits c) 0) as [|Hne].
  - cbn. rewrite usub_ok by lia. cbn. case_match; [|done]. by intros [= _ <- _].
  - rewrite !usub_ok by lia. cbn. case_match; [|done]. intros [= _ <- _]. apply bit_range_bound. lia.
Qed.

Lemma quiet_copy_bytes g o n : quiet (copy_bytes g o n).
Proof.
  unfold copy_bytes. apply quiet_bind.
  - intros c Hwf Hc Hr. unfold locate. erewrite bind_run by reflexivity. cbv beta zeta. rewrite bind_unfold.
    destruct (if block_size c <=? o then _ else _) as [g'|]; cbn [lift]; [|done]. unfold mret at 1, M_ret at 1.
    rewrite bind_unfold. destruct (decompose_address c g') as [[[t id] bo]|] eqn:Hd; cbn [lift]; [|done].
    unfold mret at 1, M_ret at 1. cbv beta iota. apply decompose_nonneg in Hd; [|done].
    destruct (num_chunks c <? div_ceil n (chunk_size c)); [done|].
    assert (quiet (load_chunks t id (div_ceil n (chunk_size c)) false)) as Hq by (by apply quiet_load_chunks).
    refine (quiet_bind _ _ Hq (λ _, _) c Hwf Hc Hr).
    do 3 (apply quiet_bind; [apply quiet_lift|intros ?]). apply quiet_lift.
  - intros off. unfold buffer_read. intros c Hwf Hc Hr. erewrite bind_run by reflexivity. cbv beta.
    rewrite bind_unfold. destruct (uadd off n) as [e|]; cbn [lift]; [|done]. unfold mret at 1, M_ret at 1.
    destruct (e <=? buffer_len c); [by apply settled_refl|done].
Qed.

Record cache_ok c : Prop := {
  ok_wf : wf c;
  ok_coherent : coherent c;
  ok_clean : clean c;
  ok_reliable : reliable (store c);
}.

(** With nothing written, the cache shows what is on the device. *)
Lemma clean_view c a : cache_ok c → 0 ≤ a → view c a = disk (store c) a.
Proof.
  intros [Hwf Hco Hc _] Ha. unfold view, cached.
  pose proof (slot_range c a Hwf) as Hs. pose proof (Z.mod_pos_bound a PAGE_SIZE ltac:(done)) as Hm.
  destruct (metadata c !! Z.to_nat (slot c a)) as [md|] eqn:Hmd; [|done].
  destruct (occupied md && (tag md =? tag_of c a)) eqn:Hhit; [|done].
  apply andb_true_iff in Hhit as [Ho Ht%Z.eqb_eq].
  destruct (Hco (slot c a) md Hs Hmd) as (_ & _ & Hcl). unfold place.
  rewrite Z.add_assoc, (Hcl Ho (Hc _ _ Hmd) _ Hm), Ht. f_equal. pose proof (place_split c a Hwf). lia.
Qed.

Lemma page_fits c g o n : wf c → 0 ≤ g → 0 ≤ o → in_page (g * block_size c + o) n → fits c g o n.
Proof.
  intros Hwf Hg Ho (_ & Hn & Hp & He). unfold fits, byte_of. cbv zeta.
  assert (0 < block_size c) as Hbs by (pose proof (wf_block c Hwf); pose proof (bob_pos c Hwf); pnia).
  assert (div_ceil n PAGE_SIZE = 1) as ->.
  { pose proof (Z.mod_pos_bound (g * block_size c + o) PAGE_SIZE ltac:(done)). unfold div_ceil. case_match; pdlia. }
  pose proof (slot_range c (g * block_size c + o) Hwf).
  assert (o / block_size c ≤ o) by (apply Z.div_le_upper_bound; nia).
  split_and!; try lia. nia.
Qed.

Lemma cache_copy c g o n : cache_ok c → 0 ≤ g → 0 ≤ o → in_page (g * block_size c + o) n → ∃ c',
  copy_bytes g o n c = Ok (read_at (disk (store c)) (g * block_size c + o) n) c' ∧ cache_ok c' ∧ settled c c'.
Proof.
  intros Hok Hg Ho Hp. pose proof Hok as [Hwf Hco Hc Hr].
  pose proof (copy_bytes_spec c g o n Hwf Hco (page_fits _ _ _ _ Hwf Hg Ho Hp)) as Hs.
  pose proof (quiet_copy_bytes g o n c Hwf Hc Hr) as Hq.
  destruct (copy_bytes g o n c) as [r c'|e c'|w]; [|done|done]. destruct Hs as [(Hsame & Hco' & _) ->].
  exists c'. pose proof Hq as [_ Hc' Hr' _ _]. split; [|split; [split; [by eapply same_wf|done..]|done]].
  f_equal. apply list_fmap_ext. intros i x _. apply clean_view; [done|]. destruct Hp as [? _]. unfold byte_of. lia.
Qed.

Lemma cache_read c sector pa n : cache_ok c → (∀ a, pa ≤ a < pa + n * block_size c → ¬ in_buffer c a) → ∃ c',
  store_read sector [(pa, n)] c = Ok tt c' ∧ cache_ok c' ∧ same c c' ∧ (∀ a, disk (store c') a = disk (store c) a) ∧
  ∀ a, mem c' a = copy_range (disk (store c)) (sector * block_size c) (mem c) pa (n * block_size c) a.
Proof.
  intros [Hwf Hco Hc Hr] Hout. unfold store_read. destruct (read_blocks _ _ _ _) as [[s' m'] r] eqn:Erd.
  destruct (reliable_read _ _ _ _ _ _ _ Hr Erd) as [Hr' [k ->]].
  pose proof (full_read _ _ _ _ _ _ _ Erd) as Hn. apply read_blocks_law in Erd as (Hbs & Hdisk & Hmem).
  specialize (Hmem Hn). cbn [scatter] in Hmem. rewrite (wf_store c Hwf) in Hmem.
  eexists. split; [done|]. assert (same c (set_store c s' m')) as Hsame by (by repeat split).
  split; [|by split_and!]. split; [by eapply same_wf| |done|done].
  intros id md Hid Hmd. cbn [chunk_id_bits set_store] in Hid.
  destruct (Hco id md Hid Hmd) as (H1 & H2 & H3). split_and!; [done|done|].
  intros Ho Hd i Hi. cbn [mem store buffer_pa chunk_id_bits set_store]. rewrite Hmem, Hdisk, <- (H3 Ho Hd i Hi).
  assert (in_buffer c (buffer_pa c + id * PAGE_SIZE + i)) as Hin.
  { unfold in_buffer. rewrite (wf_buffer c Hwf). pose proof (wf_num c Hwf).
    pose proof (Z.mul_le_mono_nonneg_r (id + 1) (num_chunks c) PAGE_SIZE ltac:(done) ltac:(lia)). plia. }
  apply copy_range_out. destruct (decide (buffer_pa c + id * PAGE_SIZE + i < pa)); [by left|right].
  destruct (decide (pa + n * block_size c ≤ buffer_pa c + id * PAGE_SIZE + i)); [done|]. exfalso.
  apply (Hout (buffer_pa c + id * PAGE_SIZE + i)); [lia|done].
Qed.

#[export, refine] Instance cache_volume : Volume (BlockCache S) := {|
  vol_ok := cache_ok;
  vol_bytes c := disk (store c);
  vol_mem := mem;
  vol_buffer := in_buffer;
  vol_block_size := block_size;
  vol_copy_bytes := copy_bytes;
  vol_read_blocks := store_read;
|}.
Proof.
  - intros c g o n Hok Hg Ho Hp. destruct (cache_copy c g o n Hok Hg Ho Hp) as (c' & Hrun & Hok' & [Hs _ _ Hd Hm]).
    pose proof Hs as (_ & _ & Eb & _ & _ & _ & _ & El & Ep & _). exists c'. split_and!; try done.
    intros a. unfold in_buffer. by rewrite El, Ep.
  - intros c sector pa n Hok _ Hout. destruct (cache_read c sector pa n Hok Hout) as (c' & Hrun & Hok' & Hs & Hd & Hm).
    pose proof Hs as (_ & _ & Eb & _ & _ & _ & _ & El & Ep & _). exists c'. split_and!; try done.
    intros a. unfold in_buffer. by rewrite El, Ep.
Defined.
End volume.
