(* ===== verification/FatSpec.v ===== *)
(** What the FAT file system promises: directories and files as the bytes of the volume say,
    for any volume that keeps the promises of [Volume]. *)
From Stdlib Require Import Strings.Ascii Strings.String.
From stdpp Require Import base list strings.
From S2P Require Import Prelude BitField Addresses BlockCache BlockCacheSpec RegPath RegSpec Error Fat CacheVolume.

(** *** The abstract file system *)

Section spec.
(** The bytes of the device. *)
Context (D : memory) (params : VolumeParams).

(** The cluster after [i], and the [k]-th one. *)
Definition fat_next (i : Z) : Z := le (read_at D (fat_start params * 512 + 2 * i) 2).
Definition chain (i : Z) (k : nat) : Z := Nat.iter k fat_next i.

(** Byte [o] of the clusters from [i] on. *)
Definition chain_addr (i o : Z) : Z :=
  sector_for_cluster params (chain i (Z.to_nat (o / bytes_per_cluster params))) * 512
  + o mod bytes_per_cluster params.

(** The [k]-th record of a directory. *)
Definition record_addr (source : DirectorySource) (k : Z) : Z :=
  match source with
  | Direct d => d * 512 + 32 * k
  | Clusters i => chain_addr i (32 * k)
  end.
Definition record (source : DirectorySource) (k : Z) : list Z := read_at D (record_addr source k) 32.
Definition records (source : DirectorySource) (k n : Z) : list (list Z) :=
  (λ j, record source (k + Z.of_nat j)) <$> seq 0 (Z.to_nat n).

(** A directory of [n] records ends with one that starts with zero. *)
Definition dir_length (source : DirectorySource) (n : Z) : Prop := 0 ≤ n ∧
  D (record_addr source n) = 0 ∧ ∀ k, 0 ≤ k < n → D (record_addr source k) ≠ 0.

(** The entries: each with the parts of a long name before it, last part first. *)
Fixpoint parse (nm : list Z) (l : list (list Z)) : list LongDirEntry :=
  match l with
  | [] => []
  | r :: l' =>
      if uint r 11 1 =? LongName then parse (name_part r ++ nm) l'
      else {| entry := cast_DirEntry r; name := finish_name nm |} :: parse [] l'
  end.
Definition listing (source : DirectorySource) (n : Z) : list LongDirEntry := parse [] (records source 0 n).
End spec.

(** *** Volumes and the bytes on them *)

(** The sizes are those of FAT16, so that addresses stay far below 64 bits. *)
Record geometry (params : VolumeParams) : Prop := {
  ge_fat : 0 ≤ fat_start params < 2 ^ 40;
  ge_clusters : 0 ≤ clusters_start params < 2 ^ 40;
  ge_root : 0 ≤ root_directory_start params < 2 ^ 40;
  ge_cluster : 1 ≤ vp_sectors_per_cluster params < 256;
  ge_sector : vp_bytes_per_sector params = 512;
}.

Section proofs.
Context {V : Type} `{!Volume V} `{U : Utf16}.
Context (D : memory) (HD : ∀ a, 0 ≤ D a < 256) (B : Z → Prop).
Context (params : VolumeParams) (Hg : geometry params).
Implicit Types (v : V) (m : memory).

(** The volume holds [D], the cache uses the memory [B], and the rest of memory is [m]. *)
Record on v m : Prop := {
  on_ok : vol_ok v;
  on_bytes : ∀ a, vol_bytes v a = D a;
  on_block : vol_block_size v = 512;
  on_buffer : ∀ a, vol_buffer v a ↔ B a;
  on_mem : ∀ a, ¬ B a → vol_mem v a = m a;
}.

Lemma read_at_ext (d d' : memory) a n : (∀ x, d x = d' x) → read_at d a n = read_at d' a n.
Proof. intros H. apply list_fmap_ext. intros i x _. apply H. Qed.

Lemma copy_on v m g o n : on v m → 0 ≤ g → 0 ≤ o → in_page (g * 512 + o) n → ∃ v',
  vol_copy_bytes g o n v = Ok (read_at D (g * 512 + o) n) v' ∧ on v' m.
Proof.
  intros [Hok Hb Hs Hbuf Hm] Hg0 Ho Hp. rewrite <- Hs in Hp |- *.
  destruct (vol_copy_law v g o n Hok Hg0 Ho Hp) as (v' & Hrun & Hok' & Hb' & Hs' & Hbuf' & Hm').
  exists v'. split; [rewrite Hrun; f_equal; by apply read_at_ext|]. split; [done|intros a; by rewrite Hb'|congruence| |].
  - intros a. by rewrite Hbuf'.
  - intros a Ha. rewrite Hm'; [by apply Hm|]. by rewrite Hbuf.
Qed.

Lemma copy_range_ext (d d' : memory) from (m m' : memory) to len a : (∀ x, d x = d' x) → m a = m' a →
  copy_range d from m to len a = copy_range d' from m' to len a.
Proof. intros Hd Hm. unfold copy_range. case_match; [apply Hd|apply Hm]. Qed.

Lemma read_on v m sector pa n : on v m → 0 ≤ sector → (∀ a, pa ≤ a < pa + n * 512 → ¬ B a) → ∃ v',
  vol_read_blocks sector [(pa, n)] v = Ok tt v' ∧ on v' (copy_range D (sector * 512) m pa (n * 512)).
Proof.
  intros [Hok Hb Hs Hbuf Hm] Hg0 Hp.
  destruct (vol_read_law v sector pa n Hok Hg0) as (v' & Hrun & Hok' & Hb' & Hs' & Hbuf' & Hm').
  { intros a Ha. rewrite Hs in Ha. rewrite Hbuf. by apply Hp. }
  rewrite Hs in Hm'. exists v'. split; [done|]. split; [done|intros a; by rewrite Hb'|congruence| |].
  - intros a. by rewrite Hbuf'.
  - intros a Ha. rewrite Hm' by (by rewrite Hbuf). apply copy_range_ext; [done|by apply Hm].
Qed.

Lemma le_bound a : 0 ≤ le (read_at D a 2) < 2 ^ 16.
Proof.
  change (le (read_at D a 2)) with (D (a + 0) + 256 * (D (a + 1) + 256 * 0)).
  pose proof (HD (a + 0)). pose proof (HD (a + 1)). lia.
Qed.

(** The cluster numbers that occur are 16 bits wide; the arithmetic [i * 2] only works for the
    lower half of them. *)
Lemma fat_entry_run v m i : on v m → 0 ≤ i < 2 ^ 15 → ∃ v',
  copy_fat_entry params i v = Ok (read_at D (fat_start params * 512 + 2 * i) 2) v' ∧ on v' m.
Proof.
  intros Hon Hi. unfold copy_fat_entry. destruct Hg as [Hf _ _ _ _].
  erewrite bind_run by (apply lift_Ok; split; [unfold umul16; rewrite (proj2 (Z.ltb_lt _ _)) by lia; done|done]).
  rewrite (Z.mul_comm i 2). apply copy_on; [done|lia|lia|].
  unfold in_page. repeat split; [lia|lia| |lia]. pdlia.
Qed.

(** *** Directories *)

Local Abbreviation bpc := (bytes_per_cluster params).

(** Where the stream is when it reads record [k]. *)
Definition pos (source : DirectorySource) (k : Z) : DirectorySource * Z :=
  match source with
  | Direct d => (Direct (d + 32 * k / 512), (32 * k) mod 512)
  | Clusters i => (Clusters (chain D params i (Z.to_nat (32 * k / bpc))), (32 * k) mod bpc)
  end.

(** The clusters of the directory up to record [n] are in the lower half of the FAT. *)
Definition dir_ok (source : DirectorySource) (n : Z) : Prop := 0 ≤ n < 2 ^ 30 ∧
  match source with
  | Direct d => 0 ≤ d < 2 ^ 40
  | Clusters i => ∀ j, Z.of_nat j ≤ 32 * n / bpc → 0 ≤ chain D params i j < 2 ^ 15
  end.

Lemma bpc_eq : bpc = vp_sectors_per_cluster params * 512.
Proof. unfold bytes_per_cluster. by rewrite (ge_sector _ Hg). Qed.
Lemma bpc_pos : 512 ≤ bpc.
Proof. rewrite bpc_eq. pose proof (ge_cluster _ Hg). lia. Qed.

Definition seg (source : DirectorySource) : Z := match source with Direct _ => 512 | Clusters _ => bpc end.

(** Counting in steps of 32 up to a multiple of 32. *)
Lemma step_32 k s q : 0 ≤ k → 1 ≤ q → s = 32 * q →
  if s <=? (32 * k) mod s + 32 then 32 * (k + 1) / s = 32 * k / s + 1 ∧ (32 * (k + 1)) mod s = 0
  else 32 * (k + 1) / s = 32 * k / s ∧ (32 * (k + 1)) mod s = (32 * k) mod s + 32.
Proof.
  intros Hk Hq ->. rewrite !Z.mul_mod_distr_l, !Z.div_mul_cancel_l by lia.
  pose proof (Z.div_mod k q ltac:(lia)) as Hd. pose proof (Z.mod_pos_bound k q ltac:(lia)) as Hm.
  destruct (Z.leb_spec (32 * q) (32 * (k mod q) + 32)).
  - assert (k + 1 = q * (k / q + 1) + 0) as E by nia. split.
    + symmetry. apply (Z.div_unique_pos _ _ _ 0); lia.
    + rewrite <- (Z.mod_unique_pos (k + 1) q (k / q + 1) 0) by lia. lia.
  - assert (k + 1 = q * (k / q) + (k mod q + 1)) as E by lia. split.
    + symmetry. apply (Z.div_unique_pos _ _ _ (k mod q + 1)); lia.
    + rewrite <- (Z.mod_unique_pos (k + 1) q (k / q) (k mod q + 1)) by lia. lia.
Qed.

Lemma chain_S i k : chain D params i (S k) = fat_next D params (chain D params i k).
Proof. done. Qed.

Lemma advance_run v m source n k : on v m → dir_ok source n → 0 ≤ k ≤ n → ∃ v',
  advance params (seg source) (pos source k).1 ((pos source k).2 + 32)
    (compute_block_addr (pos source k).1 params) v
  = Ok (inl (pos source (k + 1), compute_block_addr (pos source (k + 1)).1 params)) v' ∧ on v' m.
Proof.
  intros Hon [Hn Hdir] Hk. unfold advance. destruct source as [d|i]; cbn [seg pos fst snd].
  - pose proof (step_32 k 512 16 ltac:(lia) ltac:(lia) eq_refl) as Hs.
    destruct (512 <=? (32 * k) mod 512 + 32); destruct Hs as [-> ->].
    + erewrite bind_run by (apply lift_Ok; split; [apply uadd_ok; dlia|done]). rewrite Z.add_assoc. by exists v.
    + by exists v.
  - destruct Hg as [Hf _ _ Hspc _].
    pose proof (step_32 k bpc (vp_sectors_per_cluster params * 16) ltac:(lia) ltac:(lia) ltac:(rewrite bpc_eq; lia)) as Hs.
    destruct (bpc <=? (32 * k) mod bpc + 32); destruct Hs as [-> ->]; [|by exists v].
    assert (0 ≤ 32 * k / bpc) as H0 by (apply Z.div_pos; pose proof bpc_pos; lia).
    assert (32 * k / bpc ≤ 32 * n / bpc) as Hle by (apply Z.div_le_mono; pose proof bpc_pos; lia).
    destruct (fat_entry_run v m (chain D params i (Z.to_nat (32 * k / bpc))) Hon) as (v' & Hrun & Hon').
    { apply Hdir. lia. }
    exists v'. split; [|done]. unfold attempt at 1. erewrite bind_run by (cbv beta; by rewrite Hrun).
    cbv beta iota. rewrite Z2Nat.inj_add by lia. rewrite Nat.add_1_r, chain_S. done.
Qed.

Lemma pos_addr source k :
  compute_block_addr (pos source k).1 params * 512 + (pos source k).2 = record_addr D params source k.
Proof. destruct source as [d|i]; cbn; [dlia|done]. Qed.

Lemma chain_bound i k : 0 ≤ i < 2 ^ 16 → 0 ≤ chain D params i k < 2 ^ 16.
Proof. intros Hi. destruct k as [|k]; [done|]. rewrite chain_S. apply le_bound. Qed.

Lemma pos_page source n k : dir_ok source n → 0 ≤ k ≤ n →
  0 ≤ compute_block_addr (pos source k).1 params ∧ 0 ≤ (pos source k).2 ∧
  in_page (record_addr D params source k) 32.
Proof.
  intros [Hn Hdir] Hk. rewrite <- pos_addr. destruct source as [d|i]; cbn [pos fst snd compute_block_addr].
  - split; [dlia|]. split; [dlia|]. unfold in_page. repeat split; pdlia.
  - assert (0 ≤ chain D params i (Z.to_nat (32 * k / bpc)) < 2 ^ 16) as Hc.
    { apply chain_bound. specialize (Hdir 0%nat). cbn in Hdir. pose proof bpc_pos.
      assert (0 ≤ 32 * n / bpc) by (apply Z.div_pos; lia). lia. }
    destruct Hg as [_ Hcl _ Hspc _]. unfold sector_for_cluster.
    set (c := chain D params i _) in *. pose proof bpc_eq as Hb. pose proof bpc_pos as Hbp.
    pose proof (Z.mod_pos_bound (32 * k) bpc ltac:(lia)) as Hm.
    assert (32 * k mod bpc = 32 * (k mod (vp_sectors_per_cluster params * 16))) as Hm32.
    { rewrite Hb. replace (vp_sectors_per_cluster params * 512) with (32 * (vp_sectors_per_cluster params * 16)) by lia.
      apply Z.mul_mod_distr_l; lia. }
    assert (c * vp_sectors_per_cluster params < 2 ^ 16 * 256) by nia.
    split; [nia|]. split; [lia|]. unfold in_page. split_and!; [nia|lia| |nia].
    rewrite Hm32. set (x := k mod _) in *. set (y := clusters_start params + _) in *. pdlia.
Qed.

Lemma read_at_0 d a n : 1 ≤ n → read_at d a n !! 0%nat = Some (d a).
Proof.
  intros Hn. unfold read_at. rewrite list_lookup_fmap, lookup_seq_lt by lia. cbn. by rewrite Z.add_0_r.
Qed.
Lemma read_at_11 d a : read_at d a 32 !! 11%nat = Some (uint (read_at d a 32) 11 1).
Proof.
  change (Some (d (a + 11)) = Some (d (a + 11) + 256 * 0)). f_equal. lia.
Qed.

(** The entry found first, and the records after it. *)
Fixpoint first_item (nm : list Z) (l : list (list Z)) : option (LongDirEntry * list (list Z)) :=
  match l with
  | [] => None
  | r :: l' =>
      if uint r 11 1 =? LongName then first_item (name_part r ++ nm) l'
      else Some ({| entry := cast_DirEntry r; name := finish_name nm |}, l')
  end.

Lemma parse_first nm l : parse nm l = match first_item nm l with None => [] | Some (x, l') => x :: parse [] l' end.
Proof. revert nm. induction l as [|r l IH]; intros nm; cbn; [done|]. case_match; [apply IH|done]. Qed.

Lemma records_cons source k n : 0 ≤ n → records D params source k (n + 1)
  = record D params source k :: records D params source (k + 1) n.
Proof.
  intros Hn. unfold records. rewrite Z2Nat.inj_add by lia. rewrite Nat.add_1_r. cbn [seq fmap list_fmap]. f_equal.
  - f_equal. lia.
  - rewrite <- fmap_S_seq, <- list_fmap_compose. apply list_fmap_ext. intros i x _. cbn. f_equal. lia.
Qed.

Lemma first_item_records source n : ∀ k nm x l', 0 ≤ n →
  first_item nm (records D params source k n) = Some (x, l') →
  ∃ k', k < k' ≤ k + n ∧ l' = records D params source k' (k + n - k').
Proof.
  intros k nm x l' Hn. revert k nm. pattern n. apply natlike_ind; [done| |done]. clear n Hn.
  intros n Hn IH k nm. unfold Z.succ. rewrite records_cons by done. cbn [first_item]. case_match.
  - intros H'. apply IH in H' as (k' & Hk & ->). exists k'. split; [lia|]. f_equal. lia.
  - intros [= _ <-]. exists (k + 1). split; [lia|]. f_equal. lia.
Qed.

(** One round of the stream's loop: the record is read and the position moves on. *)
Lemma stream_round fuel v m source N k nm : on v m → dir_ok source N → 0 ≤ k ≤ N → ∃ v',
  stream_loop (S fuel) params (seg source) (pos source k).1 (pos source k).2
    (compute_block_addr (pos source k).1 params) nm v
  = (let r := record D params source k in
     if D (record_addr D params source k) =? 0 then mret None
     else if uint r 11 1 =? LongName then
       stream_loop fuel params (seg source) (pos source (k + 1)).1 (pos source (k + 1)).2
         (compute_block_addr (pos source (k + 1)).1 params) (name_part r ++ nm)
     else mret (Some (inl {| entry := cast_DirEntry r; name := finish_name nm |}, pos source (k + 1)))) v'
  ∧ on v' m.
Proof.
  intros Hon Hd Hk. destruct (pos_page source N k Hd Hk) as (Ha & Ho & Hp). rewrite <- pos_addr in Hp.
  destruct (copy_on v m _ _ 32 Hon Ha Ho Hp) as (v1 & Hrun & Hon1). rewrite pos_addr in Hrun.
  destruct (advance_run v1 m source N k Hon1 Hd Hk) as (v2 & Hadv & Hon2).
  exists v2. split; [|done]. cbn [stream_loop]. unfold attempt at 1.
  erewrite bind_run by (cbv beta; by rewrite Hrun). cbv beta iota.
  erewrite bind_run by exact Hadv. destruct (pos source (k + 1)) as [s' o']. cbv beta iota.
  erewrite bind_run by (apply lift_Ok; split; [by apply read_at_0|done]).
  by erewrite bind_run by (apply lift_Ok; split; [apply read_at_11|done]).
Qed.

Lemma stream_run N source : dir_ok source N → dir_length D params source N → ∀ n k nm fuel v m,
  k + n = N → 0 ≤ k → 0 ≤ n → (Z.to_nat n < fuel)%nat → on v m → ∃ v',
  stream_loop fuel params (seg source) (pos source k).1 (pos source k).2
    (compute_block_addr (pos source k).1 params) nm v
  = Ok (match first_item nm (records D params source k n) with
        | None => None
        | Some (x, l') => Some (inl x, pos source (N - Z.of_nat (length l')))
        end) v' ∧ on v' m.
Proof.
  intros Hd Hl n k nm fuel v m Hkn Hk Hn. revert k nm fuel v m Hkn Hk. pattern n. apply natlike_ind; [| |done]; clear n Hn.
  - intros k nm fuel v m Hkn Hk Hfuel Hon. destruct fuel as [|fuel]; [lia|].
    destruct (stream_round fuel v m source N k nm Hon Hd ltac:(lia)) as (v' & -> & Hon'). exists v'. split; [|done].
    replace k with N by lia. destruct Hl as (_ & -> & _). done.
  - intros n Hn IH k nm fuel v m Hkn Hk Hfuel Hon. destruct fuel as [|fuel]; [lia|]. unfold Z.succ in *.
    destruct (stream_round fuel v m source N k nm Hon Hd ltac:(lia)) as (v' & -> & Hon'). cbv zeta.
    destruct Hl as (_ & _ & Hnz). rewrite (proj2 (Z.eqb_neq _ _) (Hnz k ltac:(lia))), records_cons by done.
    cbn [first_item]. destruct (uint (record D params source k) 11 1 =? LongName).
    + apply IH; [lia|lia|lia|done].
    + exists v'. split; [|done]. unfold mret, M_ret. do 4 f_equal.
      unfold records. rewrite length_fmap, length_seq. lia.
Qed.

Lemma collect_run N source : dir_ok source N → dir_length D params source N → ∀ fuel k v m,
  0 ≤ k ≤ N → (Z.to_nat (N - k) < fuel)%nat → on v m → ∃ v',
  collect_from fuel params (seg source) (pos source k).1 (pos source k).2 v
  = Ok (inl <$> parse [] (records D params source k (N - k))) v' ∧ on v' m.
Proof.
  intros Hd Hl. induction fuel as [|fuel IH]; intros k v m Hk Hfuel Hon; [lia|]. cbn [collect_from].
  destruct (stream_run N source Hd Hl (N - k) k [] (S fuel) v m ltac:(lia) ltac:(lia) ltac:(lia) Hfuel Hon)
    as (v1 & Hrun & Hon1).
  erewrite bind_run by exact Hrun. rewrite parse_first.
  destruct (first_item [] (records D params source k (N - k))) as [[x l']|] eqn:Hfi; [|by exists v1].
  apply first_item_records in Hfi as (k' & Hk' & ->); [|lia]. cbv beta iota.
  replace (k + (N - k) - k') with (N - k') by lia.
  replace (N - Z.of_nat (length (records D params source k' (N - k')))) with k'
    by (unfold records; rewrite length_fmap, length_seq; lia).
  destruct (IH k' v1 m ltac:(lia) ltac:(lia) Hon1) as (v2 & Hrun2 & Hon2).
  destruct (pos source k') as [s' o']. cbn [fst snd] in Hrun2.
  erewrite bind_run by exact Hrun2. by exists v2.
Qed.

(** A whole directory. *)
Lemma dir_entries_run N source fuel v m : dir_ok source N → dir_length D params source N →
  (Z.to_nat N < fuel)%nat → on v m → ∃ v',
  dir_entries fuel params source v = Ok (inl <$> listing D params source N) v' ∧ on v' m.
Proof.
  intros Hd Hl Hfuel Hon. unfold dir_entries. erewrite bind_run by done.
  pose proof (collect_run N source Hd Hl fuel 0 v m ltac:(destruct Hd; lia) ltac:(lia) Hon) as Hc.
  rewrite Z.sub_0_r in Hc. destruct source as [d|i]; cbn [pos fst snd seg size_of_segment] in *.
  - rewrite (on_block _ _ Hon). by rewrite Z.add_0_r in Hc.
  - rewrite Z.div_0_l, Z.mod_0_l in Hc by (pose proof bpc_pos; lia). done.
Qed.

(** *** Paths *)

(** The first entry of that name. *)
Fixpoint first_named (nm : str) (l : list LongDirEntry) : option DirEntry :=
  match l with
  | [] => None
  | de :: l' => match is_named de nm with Some true => Some (entry de) | _ => first_named nm l' end
  end.

Inductive answer :=
  | Found (e : DirEntry)
  | Missing
  | IsDirectory.

(** What following [names] from a directory leads to, when no directory on the way has [bound]
    records or more. Behind a file the rest of the path is ignored. *)
Inductive leads (bound : Z) : DirectorySource → list str → answer → Prop :=
  | leads_end source : leads bound source [] IsDirectory
  | leads_missing source N nm names : dir_ok source N → dir_length D params source N → N < bound →
      first_named nm (listing D params source N) = None → leads bound source (nm :: names) Missing
  | leads_file source N nm names e : dir_ok source N → dir_length D params source N → N < bound →
      first_named nm (listing D params source N) = Some e → contains (attributes e) DirectoryAttr = false →
      leads bound source (nm :: names) (Found e)
  | leads_dir source N nm names e a : dir_ok source N → dir_length D params source N → N < bound →
      first_named nm (listing D params source N) = Some e → contains (attributes e) DirectoryAttr = true →
      leads bound (Clusters (cluster_num_lo e)) names a → leads bound source (nm :: names) a.

Lemma find_named_run nm l v : find_named (V := V) nm (inl <$> l) v = Ok (first_named nm l) v.
Proof. induction l as [|de l IH]; cbn; [done|]. destruct (is_named de nm) as [[]|]; [done|exact IH..]. Qed.

(** The text of a component is the text it was made from. *)
Definition comp_text (c : Component) : option str :=
  match c with
  | Root => None
  | CurrentDir => Some (text ".")
  | ParentDir => Some (text "..")
  | Name s => Some s
  end.
Lemma comp_text_from nm : comp_text (from_str nm) = Some nm.
Proof. unfold from_str. repeat case_decide; by subst. Qed.

(** One level of a lookup. *)
Lemma lookup_level depth fuel source comps nm comps' N v m : dir_ok source N → dir_length D params source N →
  (Z.to_nat N < fuel)%nat → on v m →
  RegPath.next comps = Some (Some (from_str nm), comps') → ∃ v',
  find_entry_for_path (S depth) fuel params source comps v
  = match first_named nm (listing D params source N) with
    | None => Ok None v'
    | Some de => if contains (attributes de) DirectoryAttr
                 then find_entry_for_path depth fuel params (Clusters (cluster_num_lo de)) comps' v'
                 else Ok (Some de) v'
    end ∧ on v' m.
Proof.
  intros Hd Hl Hfuel Hon Hnext. destruct (dir_entries_run N source fuel v m Hd Hl Hfuel Hon) as (v' & Hrun & Hon').
  exists v'. split; [|done]. cbn [find_entry_for_path]. rewrite Hnext.
  erewrite bind_run by done. cbv beta iota. erewrite bind_run by done.
  erewrite bind_run by (apply lift_Ok; split; [apply comp_text_from|done]).
  erewrite bind_run by exact Hrun. erewrite bind_run by apply find_named_run.
  destruct (first_named nm (listing D params source N)) as [de|]; [|done]. by destruct (contains _ _).
Qed.

(** [a/b/c] *)
Fixpoint path_text (names : list str) : str :=
  match names with
  | [] => []
  | [nm] => nm
  | nm :: names' => nm ++ PATH_SEP :: path_text names'
  end.

Lemma next_path c pre nm names post : at_ c pre (path_text (nm :: names)) post → name_ok nm → ∃ c' pre',
  RegPath.next c = Some (Some (from_str nm), c') ∧ at_ c' pre' (path_text names) post.
Proof.
  intros Hat Hok. destruct names as [|n2 names].
  - destruct (next_last _ _ _ _ Hat Hok) as (c' & Hn & Hat'). by exists c', (pre ++ nm).
  - destruct (next_name _ _ _ _ _ Hat Hok) as (c' & Hn & Hat'). by exists c', (pre ++ nm ++ [PATH_SEP]).
Qed.

Lemma find_entry_run bound source names a : leads bound source names a →
  ∀ depth fuel c pre post v m, at_ c pre (path_text names) post → Forall name_ok names →
  (length names < depth)%nat → bound ≤ Z.of_nat fuel → on v m →
  match a with
  | Found e => ∃ v', find_entry_for_path depth fuel params source c v = Ok (Some e) v' ∧ on v' m
  | Missing => ∃ v', find_entry_for_path depth fuel params source c v = Ok None v' ∧ on v' m
  | IsDirectory => find_entry_for_path depth fuel params source c v = Stop Panic
  end.
Proof.
  induction 1 as [source|source N nm names Hd Hl Hb Hf|source N nm names e Hd Hl Hb Hf Hdir
    |source N nm names e a Hd Hl Hb Hf Hdir Hlead IH]; intros depth fuel c pre post v m Hat Hok Hdep Hbd Hon;
    (destruct depth as [|depth]; [lia|]).
  - cbn [find_entry_for_path]. by rewrite (next_nil _ _ _ Hat).
  - apply Forall_cons in Hok as [Hn _]. destruct (next_path _ _ _ _ _ Hat Hn) as (c' & pre' & Hnext & _).
    destruct (lookup_level depth fuel source c nm c' N v m Hd Hl ltac:(destruct Hd as [? _]; lia) Hon Hnext) as (v' & Hrun & Hon').
    exists v'. by rewrite Hrun, Hf.
  - apply Forall_cons in Hok as [Hn _]. destruct (next_path _ _ _ _ _ Hat Hn) as (c' & pre' & Hnext & _).
    destruct (lookup_level depth fuel source c nm c' N v m Hd Hl ltac:(destruct Hd as [? _]; lia) Hon Hnext) as (v' & Hrun & Hon').
    exists v'. by rewrite Hrun, Hf, Hdir.
  - apply Forall_cons in Hok as [Hn Hok]. destruct (next_path _ _ _ _ _ Hat Hn) as (c' & pre' & Hnext & Hat').
    destruct (lookup_level depth fuel source c nm c' N v m Hd Hl ltac:(destruct Hd as [? _]; lia) Hon Hnext) as (v' & Hrun & Hon').
    rewrite Hrun, Hf, Hdir. apply (IH depth fuel c' pre' post v' m); [done|done|cbn in Hdep; lia|done|done].
Qed.

(** *** Files *)

Lemma on_ext v m m' : on v m → (∀ a, ¬ B a → m a = m' a) → on v m'.
Proof. intros [H1 H2 H3 H4 H5] H. split; try done. intros a Ha. by rewrite H5, H. Qed.

(** Memory after [n] bytes of a file from [src] on were loaded at [dest]. *)
Definition loaded (start src dest n : Z) m : memory := λ a,
  if (dest <=? a) && (a <? dest + n) then D (chain_addr D params start (src + (a - dest))) else m a.

Lemma next_cluster_run reason v m i : on v m → 0 ≤ i < 2 ^ 15 → ∃ v',
  next_cluster reason params i v = Ok (fat_next D params i) v' ∧ on v' m.
Proof.
  intros Hon Hi. destruct (fat_entry_run v m i Hon Hi) as (v' & Hrun & Hon'). exists v'. split; [|done].
  unfold next_cluster, storage. by erewrite bind_run by (cbv beta; by rewrite Hrun).
Qed.

Lemma seek_run start q : ∀ r k v m fuel, 0 ≤ k → k + Z.of_nat r = q → (r ≤ fuel)%nat → q * bpc < 2 ^ 40 →
  (∀ j, k ≤ Z.of_nat j < q → 0 ≤ chain D params start j < 2 ^ 15) → on v m → ∃ v',
  seek_loop fuel params (q * bpc) (chain D params start (Z.to_nat k)) (k * bpc) v
  = Ok (chain D params start (Z.to_nat q), q * bpc) v' ∧ on v' m.
Proof.
  pose proof bpc_pos as Hb. induction r as [|r IH]; intros k v m fuel Hk Hq Hfuel Hs Hch Hon.
  { replace k with q by lia. exists v. split; [|done]. destruct fuel; cbn [seek_loop]; by rewrite Z.ltb_irrefl. }
  destruct fuel as [|fuel]; [lia|]. cbn [seek_loop]. replace (k * bpc <? q * bpc) with true by (symmetry; apply Z.ltb_lt; nia).
  destruct (next_cluster_run "read FAT table" v m (chain D params start (Z.to_nat k)) Hon) as (v1 & Hrun & Hon1).
  { apply Hch. lia. }
  erewrite bind_run by exact Hrun.
  erewrite bind_run by (apply lift_Ok; split; [apply uadd_ok; nia|done]).
  replace (k * bpc + bpc) with ((k + 1) * bpc) by lia. rewrite <- chain_S.
  replace (S (Z.to_nat k)) with (Z.to_nat (k + 1)) by lia.
  apply (IH (k + 1) v1 m fuel); [lia|lia|lia|done|intros j Hj; apply Hch; lia|done].
Qed.

(** A cluster more. *)
Lemma loaded_step start q j dest m a : 0 ≤ q → 0 ≤ j →
  copy_range D (sector_for_cluster params (chain D params start (Z.to_nat (q + j))) * 512)
    (loaded start (q * bpc) dest (j * bpc) m) (dest + j * bpc) (vp_sectors_per_cluster params * 512) a
  = loaded start (q * bpc) dest ((j + 1) * bpc) m a.
Proof.
  intros Hq Hj. pose proof bpc_pos as Hb. rewrite <- bpc_eq. unfold copy_range, loaded.
  destruct (Z.leb_spec (dest + j * bpc) a) as [H1|H1], (Z.ltb_spec a (dest + j * bpc + bpc)) as [H2|H2]; cbn [andb].
  - replace ((dest <=? a) && (a <? dest + (j + 1) * bpc)) with true by (symmetry; apply andb_true_iff; split; [apply Z.leb_le|apply Z.ltb_lt]; nia).
    f_equal. unfold chain_addr.
    assert ((q * bpc + (a - dest)) / bpc = q + j) as ->.
    { symmetry. apply (Z.div_unique_pos _ _ _ (a - (dest + j * bpc))); nia. }
    rewrite <- (Z.mod_unique_pos (q * bpc + (a - dest)) bpc (q + j) (a - (dest + j * bpc))) by nia. done.
  - replace (a <? dest + (j + 1) * bpc) with false by (symmetry; apply Z.ltb_ge; lia).
    replace (a <? dest + j * bpc) with false by (symmetry; apply Z.ltb_ge; lia). by rewrite !andb_false_r.
  - replace (a <? dest + (j + 1) * bpc) with true by (symmetry; apply Z.ltb_lt; lia).
    replace (a <? dest + j * bpc) with true by (symmetry; apply Z.ltb_lt; lia). done.
  - lia.
Qed.

Lemma clusters_load_run start q T dest e m : 0 ≤ q → 0 ≤ dest → dest + T * bpc < 2 ^ 63 → (q + T) * bpc < 2 ^ 40 →
  (∀ j, 0 ≤ j → ((q + j) * bpc <? e) = (j <? T)) →
  (∀ a, dest ≤ a < dest + T * bpc → ¬ B a) →
  (∀ j, q ≤ Z.of_nat j < q + T → 0 ≤ chain D params start j < 2 ^ 15) → ∀ r j v fuel,
  0 ≤ j → j + Z.of_nat r = T → (r ≤ fuel)%nat → on v (loaded start (q * bpc) dest (j * bpc) m) → ∃ v',
  load_loop fuel params (q * bpc) dest e (chain D params start (Z.to_nat (q + j))) ((q + j) * bpc) v = Ok tt v'
  ∧ on v' (loaded start (q * bpc) dest (T * bpc) m).
Proof.
  pose proof bpc_pos as Hb. intros Hq Hd Hde Hs He Hbuf Hch. induction r as [|r IH]; intros j v fuel Hj HT Hfuel Hon.
  { replace j with T in * by lia. exists v. split; [|done].
    destruct fuel; cbn [load_loop]; rewrite He by lia; by rewrite Z.ltb_irrefl. }
  destruct fuel as [|fuel]; [lia|]. cbn [load_loop]. rewrite He, (proj2 (Z.ltb_lt _ _)) by lia.
  assert (0 ≤ j * bpc) as Hjb by nia. assert ((j + 1) * bpc ≤ T * bpc) as HjT by nia.
  erewrite bind_run by (apply lift_Ok; split; [apply usub_ok; nia|done]).
  replace ((q + j) * bpc - q * bpc) with (j * bpc) by lia.
  assert (PhysicalAddress.offset dest (as_isize (j * bpc)) = dest + j * bpc) as ->.
  { unfold as_isize. rewrite (proj2 (Z.ltb_lt _ _)) by lia. unfold PhysicalAddress.offset, saturating_add_signed. lia. }
  set (c := chain D params start (Z.to_nat (q + j))).
  assert (0 ≤ c < 2 ^ 15) as Hc by (apply Hch; lia).
  destruct (read_on v _ (sector_for_cluster params c) (dest + j * bpc) (vp_sectors_per_cluster params) Hon)
    as (v1 & Hrun & Hon1).
  { unfold sector_for_cluster. pose proof (ge_clusters _ Hg). pose proof (ge_cluster _ Hg). nia. }
  { intros a Ha. rewrite <- bpc_eq in Ha. apply Hbuf. lia. }
  unfold storage at 1. erewrite bind_run by (cbv beta; by rewrite Hrun).
  apply (on_ext _ _ (loaded start (q * bpc) dest ((j + 1) * bpc) m)) in Hon1.
  2: { intros a _. by apply loaded_step. }
  destruct (next_cluster_run "read FAT table for next cluster" v1 _ c Hon1 Hc) as (v2 & Hrun2 & Hon2).
  erewrite bind_run by exact Hrun2. unfold c.
  erewrite bind_run by (apply lift_Ok; split; [apply uadd_ok; nia|done]).
  rewrite <- chain_S. replace (S (Z.to_nat (q + j))) with (Z.to_nat (q + (j + 1))) by lia.
  replace ((q + j) * bpc + bpc) with ((q + (j + 1)) * bpc) by lia.
  apply (IH (j + 1) v2 fuel); [lia|lia|lia|done].
Qed.

(** The number of clusters that are read. *)
Definition clusters_read (q e : Z) : Z := Z.max 0 (div_ceil e bpc - q).

Lemma rounds q e j : 0 ≤ q → 0 ≤ e → 0 ≤ j → ((q + j) * bpc <? e) = (j <? clusters_read q e).
Proof.
  intros Hq He Hj. pose proof bpc_pos as Hb. apply eq_true_iff_eq. rewrite !Z.ltb_lt. unfold clusters_read.
  pose proof (Z.div_mod e bpc ltac:(lia)) as Hd. pose proof (Z.mod_pos_bound e bpc ltac:(lia)) as Hm.
  unfold div_ceil. destruct (Z.eqb_spec (e mod bpc) 0) as [H0|H0]; split; nia.
Qed.

(** C27: for every volume and every directory on it that ends, in the root or in a chain of
    clusters below 2^15, reading the directory yields exactly the entries its records say, long
    names put together from the parts before the entry, and changes nothing; it ends after as
    many records as the directory has. *)
Theorem directory_listed (source : DirectorySource) (N : Z) (fuel : nat) v m :
  on v m → dir_ok source N → dir_length D params source N → (Z.to_nat N < fuel)%nat → ∃ v',
  dir_entries fuel params source v = Ok (inl <$> listing D params source N) v' ∧ on v' m.
Proof. intros Hon Hd Hl Hfuel. by apply dir_entries_run. Qed.

(** C28: opening [a/b/c] follows the directories: it returns the file the names lead to, and
    reports [NotFound] when a name is missing. A path that leads to a directory makes the kernel
    panic, and behind a file the rest of the path is ignored. The directories on the way are in
    clusters below 2^15, as in [dir_ok]. *)
Theorem open_file_correct (names : list str) (a : answer) (bound : Z) (depth fuel : nat) v m :
  on v m → Forall name_ok names → leads bound (Direct (root_directory_start params)) names a →
  bound ≤ Z.of_nat fuel → (length names < depth)%nat →
  match a with
  | Found e => ∃ v', open_file depth fuel params (path_text names) v
      = Ok {| ff_params := params; start_cluster_number := cluster_num_lo e; ff_file_size := file_size e |} v' ∧
      on v' m
  | Missing => ∃ v', open_file depth fuel params (path_text names) v
      = Err (Registry "failed to find directory entry for path" (NotFound (path_text names))) v' ∧ on v' m
  | IsDirectory => open_file depth fuel params (path_text names) v = Stop Panic
  end.
Proof.
  intros Hon Hok Hlead Hb Hdep.
  pose proof (find_entry_run _ _ _ _ Hlead depth fuel (new_components (path_text names)) [] [] v m
    (at_new _) Hok Hdep Hb Hon) as Hf.
  unfold open_file. rewrite bind_unfold. destruct a as [e| |].
  - destruct Hf as (v' & -> & Hon'). by exists v'.
  - destruct Hf as (v' & -> & Hon'). by exists v'.
  - by rewrite Hf.
Qed.

(** C26: [load_pages] from the start of a cluster puts the file's bytes, following its chain of
    clusters, into memory at the destination, whole clusters at a time up to the end of the
    range or of the file, and changes no other memory; beyond the end of the file it reports
    [OutOfBounds]. The last cluster is copied whole, also beyond the pages asked for. The
    clusters of the chain are below 2^15: from there on the offset of an entry overflows and the
    code panics. *)
Theorem load_pages_correct (f : FatFile) (q dest num_pages : Z) (fuel : nat) v m :
  let src := q * bpc in
  let e := Z.min (src + num_pages * PAGE_SIZE) (ff_file_size f) in
  let T := clusters_read q e in
  on v m → ff_params f = params → 0 ≤ q → 0 ≤ num_pages → src + num_pages * PAGE_SIZE < 2 ^ 32 →
  0 ≤ ff_file_size f < 2 ^ 32 → 0 ≤ dest → dest + T * bpc < 2 ^ 63 →
  (∀ a, dest ≤ a < dest + T * bpc → ¬ B a) →
  (∀ j, Z.of_nat j < q + T → 0 ≤ chain D params (start_cluster_number f) j < 2 ^ 15) →
  q ≤ Z.of_nat fuel → T ≤ Z.of_nat fuel →
  if ff_file_size f <? src then
    load_pages fuel f src dest num_pages v
    = Err (FileSystem "load out of bounds"
             (OutOfBounds src (ff_file_size f) "load_pages: source offset beyond end of file")) v
  else ∃ v', load_pages fuel f src dest num_pages v = Ok tt v' ∧
    on v' (loaded (start_cluster_number f) src dest (T * bpc) m).
Proof.
  intros src e T Hon Hp Hq Hn Hsrc Hsize Hd Hde Hbuf Hch Hf1 Hf2. unfold load_pages. rewrite Hp.
  pose proof bpc_pos as Hb. destruct (Z.ltb_spec (ff_file_size f) src) as [Hlt|Hge]; [done|].
  assert (0 ≤ src) as H0 by (subst src; nia). assert (0 ≤ e) as He by (subst e; pnia).
  erewrite bind_run by (apply lift_Ok; split; [apply umul_ok; plia|done]).
  erewrite bind_run by (apply lift_Ok; split; [apply uadd_ok; plia|done]). fold e.
  assert (0 ≤ T) as HT by (unfold T, clusters_read; lia).
  assert ((q + T) * bpc < 2 ^ 40) as HqT.
  { destruct (decide (T = 0)) as [->|HT0]; [subst src; lia|].
    pose proof (rounds q e (T - 1) Hq He ltac:(lia)) as Hr. fold T in Hr.
    rewrite (proj2 (Z.ltb_lt (T - 1) T)) in Hr by lia. apply Z.ltb_lt in Hr. 
    assert (bpc < 2 ^ 20) by (rewrite bpc_eq; pose proof (ge_cluster _ Hg); lia). subst e. lia. }
  destruct (seek_run (start_cluster_number f) q (Z.to_nat q) 0 v m fuel ltac:(lia) ltac:(lia) ltac:(lia) ltac:(nia))
    as (v1 & Hrun & Hon1); [intros j Hj; apply Hch; lia|done|].
  rewrite Z.mul_0_l in Hrun. erewrite bind_run by exact Hrun. cbv beta iota.
  destruct (clusters_load_run (start_cluster_number f) q T dest e m Hq Hd Hde HqT (λ j Hj, rounds q e j Hq He Hj) Hbuf
    ltac:(intros j Hj; apply Hch; lia) (Z.to_nat T) 0 v1 fuel ltac:(lia) ltac:(lia) ltac:(lia)) as (v2 & Hrun2 & Hon2).
  { eapply on_ext; [exact Hon1|]. intros a _. unfold loaded. rewrite Z.mul_0_l, Z.add_0_r.
    destruct (Z.leb_spec dest a), (Z.ltb_spec a dest); cbn; done || lia. }
  rewrite Z.add_0_r in Hrun2. by exists v2.
Qed.
End proofs.

(** *** Where the code departs from FAT16 *)

(** The sector of a cluster in FAT16: the clusters come after the root directory and are
    counted from two. *)
Definition fat16_sector (partition_addr : Z) (bs : BootSector) (n : Z) : Z :=
  partition_addr + reserved_sectors_count bs + number_of_fats bs * fat_size_16 bs
  + div_ceil (root_entries_count bs * 32) (bytes_per_sector bs) + (n - 2) * sectors_per_cluster bs.

(** The driver finds the clusters of a FAT16 volume exactly when the root directory takes as
    many sectors as two clusters do. *)
Theorem cluster_sectors_agree (partition_addr : Z) (bs : BootSector) :
  (∀ n, 2 ≤ n → sector_for_cluster (compute_from_bootsector partition_addr bs) n
                = fat16_sector partition_addr bs n) ↔
  div_ceil (root_entries_count bs * 32) (bytes_per_sector bs) = 2 * sectors_per_cluster bs.
Proof.
  unfold sector_for_cluster, fat16_sector, compute_from_bootsector. cbn. split.
  - intros H. specialize (H 2 ltac:(lia)). lia.
  - intros -> n Hn. lia.
Qed.

Lemma split_once_ext l a b : split_once l = Some (a, b) → ∃ k, l = a ++ k :: b.
Proof.
  revert a. induction l as [|c l IH]; cbn; [done|]. intros a. destruct (c =? 46); [intros [= <- <-]; by exists c|].
  destruct (split_once l) as [[a' b']|]; cbn; [|done]. intros [= <- <-]. destruct (IH a' eq_refl) as [k ->]. by exists k.
Qed.

(** A file without an extension and without a long name is found under no name that has no
    space in it. *)
Theorem no_extension_not_found `{U : Utf16} (de : LongDirEntry) (nm : str) : name de = [] →
  take 3 (drop 8 (short_name (entry de))) = [32; 32; 32] → 32 ∉ codes nm → is_named de nm = Some false.
Proof.
  intros Hn Hext Hsp. unfold is_named. rewrite Hn. destruct (_ <=? _)%nat; [|done].
  assert (∀ a b, default (codes nm, []) (split_once (codes nm)) = (a, b) → b ≠ [32; 32; 32]) as Hne.
  { intros a b Hd ->. destruct (split_once (codes nm)) as [[a' b']|] eqn:Hs; cbn in Hd; [|done].
    injection Hd as <- ->. apply split_once_ext in Hs as [k Hk]. apply Hsp. rewrite Hk. set_solver. }
  destruct (default _ _) as [a b]. rewrite Hext, (bool_decide_eq_false_2 (b = _)) by (by apply (Hne a)).
  by rewrite andb_false_r.
Qed.

(** *** Witnesses *)

#[local] Existing Instance concrete_bit_field.

(** A device in memory with blocks of 512 bytes. *)
Record Disk := { contents : memory }.

#[export, refine] Instance disk_store : BlockStore Disk := {
  supported_block_size _ := 512;
  read_blocks s m src dests := (s, scatter 512 (contents s) src dests m, inl (block_count dests));
  write_blocks s m srcs dst :=
    ({| contents := gather 512 m srcs dst (contents s) |}, inl (block_count srcs));
  disk := contents;
}.
Proof. all: by intros; simplify_eq. Defined.

#[export, refine] Instance disk_full : FullTransfers Disk := {}.
Proof. all: by intros; simplify_eq/=. Defined.

#[export, refine] Instance disk_reliable : ReliableStore Disk := { reliable _ := True }.
Proof. intros s m src dests s' m' r _ H. cbn in H. simplify_eq. split; [done|by eexists]. Defined.

#[export, refine] Instance plain_utf16 : Utf16 :=
  { utf16_chars l := if forallb (λ u, (0 <=? u) && (u <? 0xd800)) l then Some l else None }.
Proof.
  intros l Hl. rewrite (proj2 (forallb_forall _ _)); [done|]. intros u Hu%list_elem_of_In.
  rewrite Forall_forall in Hl. specialize (Hl u Hu). lia.
Defined.

(** The FAT in sector 1, the root directory in sector 2 with the file [HELLO.TXT] of five bytes
    in cluster 3, which is sector 5. *)
Definition demo_params : VolumeParams :=
  {| fat_start := 1; clusters_start := 2; root_directory_start := 2; vp_sectors_per_cluster := 1;
     vp_bytes_per_sector := 512 |}.
Definition demo_record : list Z :=
  [72; 69; 76; 76; 79; 32; 32; 32; 84; 88; 84; 32; 0; 0; 0; 0; 0; 0; 0; 0; 0; 0; 0; 0; 0; 0; 3; 0; 5; 0; 0; 0].
Definition demo_file : list Z := [119; 111; 114; 108; 100].
Definition demo_image : memory := λ a,
  if (1024 <=? a) && (a <? 1056) then default 0 (demo_record !! Z.to_nat (a - 1024))
  else if (a =? 518) || (a =? 519) then 255
  else if (2560 <=? a) && (a <? 2565) then default 0 (demo_file !! Z.to_nat (a - 2560))
  else 0.

Lemma demo_image_bytes a : 0 ≤ demo_image a < 256.
Proof.
  unfold demo_image. repeat case_match; try lia.
  - destruct (demo_record !! _) as [b|] eqn:E; cbn; [|lia].
    assert (Forall (λ b, 0 ≤ b < 256) demo_record) as HF by (repeat constructor; lia).
    rewrite Forall_lookup in HF. by eapply HF.
  - destruct (demo_file !! _) as [b|] eqn:E; cbn; [|lia].
    assert (Forall (λ b, 0 ≤ b < 256) demo_file) as HF by (repeat constructor; lia).
    rewrite Forall_lookup in HF. by eapply HF.
Qed.

Lemma demo_geometry : geometry demo_params.
Proof. split; cbn; lia. Qed.

(** The cache's buffer. *)
Definition demo_buffer (a : Z) : Prop := 0x40000000 ≤ a < 0x40000000 + 4 * PAGE_SIZE.

Lemma demo_on : ∃ c : BlockCache Disk, on demo_image demo_buffer c (λ _, 7).
Proof.
  destruct (new_spec (BlockStore0 := disk_store) {| contents := demo_image |} (λ _, 7) 9 4 0x40000000 ltac:(reflexivity) ltac:(lia) ltac:(lia) ltac:(lia) ltac:(plia))
    as (c & Hnew & Hwf & Hco & Hb & _). vm_compute in Hnew. 
  injection Hnew as <-. eexists. split; cbn.
  - split; [exact Hwf|exact Hco| |done].
    intros k md Hk. cbn in Hk. apply (lookup_replicate_1 4 0) in Hk as [-> _]. reflexivity.
  - done.
  - done.
  - done.
  - done.
Qed.

Lemma demo_dir_ok : dir_ok demo_image demo_params (Direct 2) 1.
Proof. split; lia. Qed.
Lemma demo_dir_length : dir_length demo_image demo_params (Direct 2) 1.
Proof. split_and!; [lia|reflexivity|]. intros k Hk. replace k with 0 by lia. by vm_compute. Qed.

Example directory_listed_witness : ∃ (c c' : BlockCache Disk),
  dir_entries 2 demo_params (Direct 2) c = Ok (inl <$> listing demo_image demo_params (Direct 2) 1) c'.
Proof.
  destruct demo_on as [c Hon].
  destruct (directory_listed demo_image demo_image_bytes demo_buffer demo_params demo_geometry (Direct 2) 1 2 c
    (λ _, 7) Hon demo_dir_ok demo_dir_length ltac:(lia)) as (c' & Hrun & _).
  by exists c, c'.
Defined.

Lemma demo_leads : leads demo_image demo_params 2 (Direct 2) [text "HELLO.TXT"] (Found (cast_DirEntry demo_record)).
Proof.
  eapply leads_file; [exact demo_dir_ok|exact demo_dir_length|lia|vm_compute; reflexivity|reflexivity].
Qed.

Lemma demo_name_ok : Forall name_ok [text "HELLO.TXT"].
Proof. constructor; [|constructor]. split; [done|]. by apply (bool_decide_unpack (PATH_SEP ∉ text "HELLO.TXT")). Qed.

Example open_file_correct_witness : ∃ (c c' : BlockCache Disk),
  open_file 2 2 demo_params (text "HELLO.TXT") c
  = Ok {| ff_params := demo_params; start_cluster_number := 3; ff_file_size := 5 |} c'.
Proof.
  destruct demo_on as [c Hon].
  destruct (open_file_correct demo_image demo_image_bytes demo_buffer demo_params demo_geometry [text "HELLO.TXT"]
    (Found (cast_DirEntry demo_record)) 2 2 2 c (λ _, 7) Hon demo_name_ok demo_leads ltac:(lia) ltac:(cbn; lia))
    as (c' & Hrun & _).
  by exists c, c'.
Defined.

Example load_pages_correct_witness : ∃ (c c' : BlockCache Disk),
  load_pages 1 {| ff_params := demo_params; start_cluster_number := 3; ff_file_size := 5 |} 0 0x1000 1 c = Ok tt c' ∧
  mem c' 0x1000 = 119 ∧ mem c' 0x1004 = 100 ∧ mem c' 0x1200 = 7.
Proof.
  destruct demo_on as [c Hon].
  destruct (load_pages_correct demo_image demo_buffer demo_params demo_geometry
    {| ff_params := demo_params; start_cluster_number := 3; ff_file_size := 5 |} 0 0x1000 1 1 c (λ _, 7) Hon
    eq_refl ltac:(lia) ltac:(lia) ltac:(cbn; plia) ltac:(cbn; lia) ltac:(lia) ltac:(vm_compute; reflexivity)
    ltac:(intros a Ha Hb; assert (0x1000 ≤ a < 0x1200) by exact Ha; unfold demo_buffer in Hb; lia)
    ltac:(intros [|j] Hj; [cbn; lia|]; assert (Z.of_nat (S j) < 1) by exact Hj; lia) ltac:(lia) ltac:(vm_compute; congruence)) as (c' & Hrun & Hon').
  exists c, c'. split; [exact Hrun|]. pose proof (on_mem _ _ _ _ Hon') as Hm. unfold vol_mem in Hm. cbn in Hm.
  split_and!; (rewrite Hm; [vm_compute; reflexivity|unfold demo_buffer; lia]).
Defined.

Example no_extension_not_found_witness :
  is_named {| entry := cast_DirEntry [77; 65; 75; 69; 32; 32; 32; 32; 32; 32; 32]; name := [] |} (text "MAKE")
  = Some false.
Proof.
  apply no_extension_not_found; [reflexivity|reflexivity|].
  by apply (bool_decide_unpack (32 ∉ codes (text "MAKE"))).
Defined.
