(* ===== verification/Dtb.v ===== *)
(** The device tree blob ([kernel/src/ds/dtb.rs]): the header, the cursor over the structure
    block, the iterators over memory regions and string lists, and the search for the properties
    of a node.

    Names and strings are the bytes of Rust's [str]s. *)
From Stdlib Require Import Strings.Ascii Strings.String.
From stdpp Require Import base list strings.
From S2P Require Import Prelude.

(** *** The standard library and [byteorder] *)

(** [BigEndian::read_u32] and [read_u64] of the crate [byteorder]: [None] is a panic. *)
Fixpoint be (l : list Z) (acc : Z) : Z := match l with [] => acc | b :: l' => be l' (256 * acc + b) end.

Class BigEndian := {
  read_u32 : list Z → option Z;
  read_u64 : list Z → option Z;
  read_u32_law l : read_u32 l = if (4 <=? length l)%nat then Some (be (take 4 l) 0) else None;
  read_u64_law l : read_u64 l = if (8 <=? length l)%nat then Some (be (take 8 l) 0) else None;
}.

(** [&l[a..]] *)
Definition slice_from {A} (l : list A) (a : Z) : option (list A) :=
  if a <=? Z.of_nat (length l) then Some (drop (Z.to_nat a) l) else None.

(** [core::slice::from_raw_parts], of memory the caller vouches for. *)
Definition from_raw_parts (mem : Z → Z) (addr len : Z) : list Z :=
  (λ i, mem (addr + Z.of_nat i)) <$> seq 0 (Z.to_nat len).

(** Does [core::str::from_utf8] accept the bytes: the table of well-formed byte sequences. *)
Definition continuation (b : Z) : bool := (0x80 <=? b) && (b <=? 0xbf).
Fixpoint from_utf8 (l : list Z) : bool :=
  match l with
  | [] => true
  | a :: l1 =>
      if a <=? 0x7f then from_utf8 l1
      else match l1 with
      | [] => false
      | b :: l2 =>
          if (0xc2 <=? a) && (a <=? 0xdf) then continuation b && from_utf8 l2
          else match l2 with
          | [] => false
          | c :: l3 =>
              if (0xe0 <=? a) && (a <=? 0xef) then
                (if a =? 0xe0 then (0xa0 <=? b) && (b <=? 0xbf)
                 else if a =? 0xed then (0x80 <=? b) && (b <=? 0x9f)
                 else continuation b) && continuation c && from_utf8 l3
              else match l3 with
              | [] => false
              | d :: l4 =>
                  (0xf0 <=? a) && (a <=? 0xf4) &&
                  (if a =? 0xf0 then (0x90 <=? b) && (b <=? 0xbf)
                   else if a =? 0xf4 then (0x80 <=? b) && (b <=? 0x8f)
                   else continuation b) && continuation c && continuation d && from_utf8 l4
              end
          end
      end
  end.

(** A string literal of the source. *)
Definition bytes_of (s : string) : list Z :=
  (λ c, Z.of_N (N_of_ascii c)) <$> list_ascii_of_string s.

(** [str::starts_with] *)
Definition starts_with (s pre : list Z) : bool := bool_decide (pre `prefix_of` s).

(** *** Data *)

Definition EXPECTED_MAGIC : Z := 0xd00dfeed.

Inductive FdtToken :=
  | BeginNode
  | EndNodeToken
  | PropToken
  | Nop
  | EndToken
  | Unknown (value : Z).

Definition token_from (value : Z) : FdtToken :=
  if value =? 0x01 then BeginNode
  else if value =? 0x02 then EndNodeToken
  else if value =? 0x03 then PropToken
  else if value =? 0x04 then Nop
  else if value =? 0x09 then EndToken
  else Unknown value.

Record DeviceTree := {
  buf : list Z;
  strings : list Z;
  structure : list Z;
  mem_map : list Z;
}.

Record StringList := {
  sl_data : list Z;
  sl_offset : Z;
}.

Inductive StandardProperty :=
  | Compatible (l : StringList)
  | AddressCells (n : Z)
  | SizeCells (n : Z).

Inductive StructureItem :=
  | StartNode (name : list Z)
  | EndNode
  | Property (name data : list Z) (std_interp : option StandardProperty).

Record MemRegionIter := {
  mr_data : list Z;
  mr_offset : Z;
}.

Definition pad_end_4b (num_bytes : Z) : Z :=
  num_bytes + (if num_bytes mod 4 =? 0 then 0 else 4 - num_bytes mod 4).

(** How far [while slice.get(i).map_or(false, |b| *b != 0) { i += 1 }] goes in the rest of the slice. *)
Fixpoint to_nul (l : list Z) : Z :=
  match l with
  | [] => 0
  | b :: l' => if b =? 0 then 0 else 1 + to_nul l'
  end.

(** Runs a computation on a local variable of its caller. *)
Definition on_local {S L E A} (m : M L E A) (l : L) : M S E (A * L) := λ s,
  match m l with
  | Ok a l' => Ok (a, l') s
  | Err e _ => Err e s
  | Stop w => Stop w
  end.

Section dtb.
Context {BE : BigEndian}.

(** *** Header *)

(** The fields of [BlobHeader]; [None] is a panic. *)
Definition header_field (b : list Z) (off : Z) : option Z := rest ← slice_from b off; read_u32 rest.
Definition magic (b : list Z) : option Z := header_field b 0.
Definition total_size (b : list Z) : option Z := header_field b 4.
Definition off_dt_struct (b : list Z) : option Z := header_field b 8.
Definition off_dt_strings (b : list Z) : option Z := header_field b 12.
Definition off_mem_rsvmap (b : list Z) : option Z := header_field b 16.
Definition size_dt_strings (b : list Z) : option Z := header_field b 32.
Definition size_dt_structs (b : list Z) : option Z := header_field b 36.

Definition at_address (mem : Z → Z) (addr : Z) : option DeviceTree :=
  let header := from_raw_parts mem addr 64 in
  m ← magic header;
  if negb (m =? EXPECTED_MAGIC) then None
  else
    size ← total_size header;
    let b := from_raw_parts mem addr size in
    strings_off ← off_dt_strings b;
    strings_size ← size_dt_strings b;
    struct_off ← off_dt_struct b;
    struct_size ← size_dt_structs b;
    rsv_off ← off_mem_rsvmap b;
    Some {| strings := from_raw_parts mem (addr + strings_off) strings_size;
            structure := from_raw_parts mem (addr + struct_off) struct_size;
            mem_map := from_raw_parts mem (addr + rsv_off) struct_size;
            buf := b |}.

Definition size_of_blob (self : DeviceTree) : option Z := total_size (buf self).

(** *** The cursor *)

Definition standard_interp (name data : list Z) : option (option StandardProperty) :=
  if bool_decide (name = bytes_of "#address-cells") then n ← read_u32 data; Some (Some (AddressCells n))
  else if bool_decide (name = bytes_of "#size-cells") then n ← read_u32 data; Some (Some (SizeCells n))
  else if bool_decide (name = bytes_of "compatible") then
    Some (Some (Compatible {| sl_data := data; sl_offset := 0 |}))
  else Some None.

(** [Cursor::next]; the state is [current_offset].  Every round consumes four bytes or more, so
    fuel for every byte of the structure block is enough. *)
Fixpoint next_loop {E} (dt : DeviceTree) (fuel : nat) : M Z E (option StructureItem) :=
  match fuel with
  | O => out_of_fuel
  | S fuel' =>
      o ← get; current_offset ← lift (uadd o 4); put current_offset;;
      rest ← lift (slice_from (structure dt) (current_offset - 4));
      value ← lift (read_u32 rest);
      match token_from value with
      | BeginNode =>
          let name_end := current_offset + to_nul (drop (Z.to_nat current_offset) (structure dt)) in
          name ← lift (slice (structure dt) current_offset name_end);
          assert (from_utf8 name);;
          put (pad_end_4b (name_end + 1));;
          mret (Some (StartNode name))
      | EndNodeToken => mret (Some EndNode)
      | PropToken =>
          rest ← lift (slice_from (structure dt) current_offset);
          len ← lift (read_u32 rest);
          current_offset ← lift (uadd current_offset 4); put current_offset;;
          rest ← lift (slice_from (structure dt) current_offset);
          name_offset ← lift (read_u32 rest);
          current_offset ← lift (uadd current_offset 4); put current_offset;;
          let name_end := name_offset + to_nul (drop (Z.to_nat name_offset) (strings dt)) in
          name ← lift (slice (strings dt) name_offset name_end);
          assert (from_utf8 name);;
          data_end ← lift (uadd current_offset len);
          data ← lift (slice (structure dt) current_offset data_end);
          put (current_offset + pad_end_4b len);;
          std_interp ← lift (standard_interp name data);
          mret (Some (Property name data std_interp))
      | Nop => next_loop dt fuel'
      | EndToken => mret None
      | Unknown _ => panic
      end
  end.

Definition cursor_fuel (dt : DeviceTree) : nat := S (length (structure dt)).
Definition next {E} (dt : DeviceTree) : M Z E (option StructureItem) := next_loop dt (cursor_fuel dt).

(** [for item in cursor], collected *)
Fixpoint collect_items {E} (dt : DeviceTree) (fuel : nat) : M Z E (list StructureItem) :=
  match fuel with
  | O => out_of_fuel
  | S fuel' =>
      n ← next dt;
      match n with
      | None => mret []
      | Some item => l ← collect_items dt fuel'; mret (item :: l)
      end
  end.

(** [for j in dt.by_ref() { if let EndNode = j { break } }] *)
Fixpoint skip_to_end {E} (dt : DeviceTree) (fuel : nat) : M Z E unit :=
  match fuel with
  | O => out_of_fuel
  | S fuel' =>
      n ← next dt;
      match n with
      | None | Some EndNode => mret tt
      | Some _ => skip_to_end dt fuel'
      end
  end.

(** [process_properties_for_node]; [f] works on the state of the caller. *)
Fixpoint process_loop {S E} (dt : DeviceTree) (node_name : list Z)
    (f : list Z → list Z → option StandardProperty → M S E unit)
    (fuel : nat) (current_offset : Z) (found_node : bool) : M S E bool :=
  match fuel with
  | O => out_of_fuel
  | S fuel' =>
      '(n, current_offset) ← on_local (next dt) current_offset;
      match n with
      | None => mret found_node
      | Some (StartNode name) =>
          if starts_with name node_name then process_loop dt node_name f fuel' current_offset true
          else if found_node then
            '(_, current_offset) ← on_local (skip_to_end dt (cursor_fuel dt)) current_offset;
            process_loop dt node_name f fuel' current_offset found_node
          else process_loop dt node_name f fuel' current_offset found_node
      | Some EndNode =>
          if found_node then mret found_node
          else process_loop dt node_name f fuel' current_offset found_node
      | Some (Property name data std_interp) =>
          (if found_node then f name data std_interp else mret tt);;
          process_loop dt node_name f fuel' current_offset found_node
      end
  end.

Definition process_properties_for_node {S E} (dt : DeviceTree) (node_name : list Z)
    (f : list Z → list Z → option StandardProperty → M S E unit) : M S E bool :=
  process_loop dt node_name f (cursor_fuel dt) 0 false.

(** *** Memory regions and string lists *)

Definition for_data (data : list Z) : MemRegionIter := {| mr_data := data; mr_offset := 0 |}.
Definition iter_reserved_memory_regions (self : DeviceTree) : MemRegionIter := for_data (mem_map self).

(** [MemRegionIter::next] *)
Definition next_region {E} : M MemRegionIter E (option (Z * Z)) :=
  self ← get;
  rest ← lift (slice_from (mr_data self) (mr_offset self));
  addr ← lift (read_u64 rest);
  o ← lift (uadd (mr_offset self) 8);
  rest ← lift (slice_from (mr_data self) o);
  size ← lift (read_u64 rest);
  o ← lift (uadd o 8);
  put {| mr_data := mr_data self; mr_offset := o |};;
  mret (if (addr =? 0) && (size =? 0) then None else Some (addr, size)).

Fixpoint collect_regions {E} (fuel : nat) : M MemRegionIter E (list (Z * Z)) :=
  match fuel with
  | O => out_of_fuel
  | S fuel' =>
      n ← next_region;
      match n with
      | None => mret []
      | Some r => l ← collect_regions fuel'; mret (r :: l)
      end
  end.

(** [StringList::next]: the strings come without their terminator. *)
Definition next_string {E} : M StringList E (option (list Z)) :=
  self ← get;
  if Z.of_nat (length (sl_data self)) <=? sl_offset self then mret None
  else
    rest ← lift (slice_from (sl_data self) (sl_offset self));
    (* [CStr::from_bytes_until_nul] *)
    let n := to_nul rest in
    if n =? Z.of_nat (length rest) then mret None
    else
      o ← lift (uadd (sl_offset self) (n + 1));
      put {| sl_data := sl_data self; sl_offset := o |};;
      mret (Some (take (Z.to_nat n) rest)).

Fixpoint collect_strings {E} (fuel : nat) : M StringList E (list (list Z)) :=
  match fuel with
  | O => out_of_fuel
  | S fuel' =>
      n ← next_string;
      match n with
      | None => mret []
      | Some s => l ← collect_strings fuel'; mret (s :: l)
      end
  end.
End dtb.
