(* ===== verification/DtbSpec.v ===== *)
(** What the device tree routines compute, against trees: a structure block that encodes a tree,
    with padding and [Nop]s wherever they may be, is read back item by item, and the properties of
    a node are found. *)
From Stdlib Require Import Strings.Ascii Strings.String.
From stdpp Require Import base list strings.
From S2P Require Import Prelude Dtb.

(** *** Encoding *)

(** The tokens of a structure block; a property names its name by its offset in the strings. *)
Inductive piece :=
  | PBegin (name : list Z)
  | PEnd
  | PProp (name_offset : Z) (data : list Z)
  | PNop.

Definition u32_bytes (n : Z) : list Z := [n / 2 ^ 24 mod 256; n / 2 ^ 16 mod 256; n / 2 ^ 8 mod 256; n mod 256].
Definition u64_bytes (n : Z) : list Z := u32_bytes (n / 2 ^ 32) ++ u32_bytes (n mod 2 ^ 32).
Definition pad4 (l : list Z) : list Z := l ++ replicate (Z.to_nat ((- Z.of_nat (length l)) mod 4)) 0.

Definition piece_bytes (p : piece) : list Z :=
  match p with
  | PBegin name => u32_bytes 1 ++ pad4 (name ++ [0])
  | PEnd => u32_bytes 2
  | PProp o data => u32_bytes 3 ++ u32_bytes (Z.of_nat (length data)) ++ u32_bytes o ++ pad4 data
  | PNop => u32_bytes 4
  end.
Definition pieces_bytes (l : list piece) : list Z := concat (piece_bytes <$> l).

(** The string at an offset *)
Definition cstr (strs : list Z) (o : Z) : list Z :=
  take (Z.to_nat (to_nul (drop (Z.to_nat o) strs))) (drop (Z.to_nat o) strs).

Lemma length_u32 n : length (u32_bytes n) = 4%nat.
Proof. done. Qed.

Lemma be_u32 n : 0 ≤ n < 2 ^ 32 → be (u32_bytes n) 0 = n.
Proof. intros Hn. unfold u32_bytes, be. dlia. Qed.

Lemma be_app l1 l2 acc : be (l1 ++ l2) acc = be l2 (be l1 acc).
Proof. revert acc. induction l1 as [|b l1 IH]; intros acc; [done|]. cbn. apply IH. Qed.

Lemma be_u64 n : 0 ≤ n < 2 ^ 64 → be (u64_bytes n) 0 = n.
Proof.
  intros Hn. unfold u64_bytes. rewrite be_app, be_u32 by dlia. unfold u32_bytes, be. dlia.
Qed.

Lemma pad4_length l : Z.of_nat (length (pad4 l)) = pad_end_4b (Z.of_nat (length l)).
Proof.
  unfold pad4, pad_end_4b. rewrite length_app, length_replicate.
  destruct (Z.eqb_spec (Z.of_nat (length l) mod 4) 0); dlia.
Qed.

Lemma pad4_aligned l : Z.of_nat (length (pad4 l)) mod 4 = 0.
Proof. rewrite pad4_length. unfold pad_end_4b. case_match; dlia. Qed.

Lemma pad_end_shift o n : o mod 4 = 0 → pad_end_4b (o + n) = o + pad_end_4b n.
Proof.
  intros Ho. unfold pad_end_4b. assert ((o + n) mod 4 = n mod 4) as -> by dlia. lia.
Qed.

Lemma to_nul_app l rest : Forall (λ b, b ≠ 0) l → to_nul (l ++ 0 :: rest) = Z.of_nat (length l).
Proof.
  induction 1 as [|b l Hb _ IH]; [done|]. cbn [to_nul app length].
  destruct (Z.eqb_spec b 0); [done|]. rewrite IH. lia.
Qed.

Lemma to_nul_bounds l : 0 ≤ to_nul l ≤ Z.of_nat (length l).
Proof. induction l as [|b l IH]; cbn [to_nul length]; [lia|]. destruct (b =? 0); lia. Qed.

(** *** Slices at a known place *)

Lemma slice_from_app {A} (l1 l2 : list A) : slice_from (l1 ++ l2) (Z.of_nat (length l1)) = Some l2.
Proof.
  unfold slice_from. rewrite (proj2 (Z.leb_le _ _)) by (rewrite length_app; lia).
  by rewrite Nat2Z.id, drop_app_length.
Qed.

Lemma slice_app {A} (l1 l2 l3 : list A) a b : a = Z.of_nat (length l1) → b = a + Z.of_nat (length l2) →
  slice (l1 ++ l2 ++ l3) a b = Some l2.
Proof.
  intros -> ->. unfold slice. rewrite (proj2 (range_ok_true _ _ _)) by (rewrite !length_app; lia).
  rewrite Nat2Z.id, drop_app_length. f_equal. by rewrite take_app_length' by lia.
Qed.

Lemma slice_cstr strs o : 0 ≤ o ≤ Z.of_nat (length strs) →
  slice strs o (o + to_nul (drop (Z.to_nat o) strs)) = Some (cstr strs o).
Proof.
  intros Ho. unfold slice. pose proof (to_nul_bounds (drop (Z.to_nat o) strs)) as Hn.
  rewrite length_drop in Hn. rewrite (proj2 (range_ok_true _ _ _)) by lia.
  unfold cstr. do 2 f_equal. lia.
Qed.

Section spec.
Context {BE : BigEndian}.

Lemma read_u32_app n rest : 0 ≤ n < 2 ^ 32 → read_u32 (u32_bytes n ++ rest) = Some n.
Proof.
  intros Hn. rewrite read_u32_law. rewrite take_app_length' by done. rewrite be_u32 by done.
  by rewrite (proj2 (Nat.leb_le _ _)) by (rewrite length_app, length_u32; lia).
Qed.

Lemma read_u64_app n rest : 0 ≤ n < 2 ^ 64 → read_u64 (u64_bytes n ++ rest) = Some n.
Proof.
  intros Hn. rewrite read_u64_law. rewrite take_app_length' by done. rewrite be_u64 by done.
  rewrite (proj2 (Nat.leb_le _ _)); [done|]. rewrite length_app. unfold u64_bytes. cbn. lia.
Qed.

(** *** The cursor *)

(** What a token says, and what it takes for it to say so. *)
Definition item_of (strs : list Z) (p : piece) : option StructureItem :=
  match p with
  | PBegin name => Some (StartNode name)
  | PEnd => Some EndNode
  | PProp o data => Some (Property (cstr strs o) data (default None (standard_interp (cstr strs o) data)))
  | PNop => None
  end.

Definition piece_ok (strs : list Z) (p : piece) : Prop :=
  match p with
  | PBegin name => Forall (λ b, b ≠ 0) name ∧ from_utf8 name = true
  | PProp o data => 0 ≤ o ≤ Z.of_nat (length strs) ∧ o < 2 ^ 32 ∧ from_utf8 (cstr strs o) = true
      ∧ is_Some (standard_interp (cstr strs o) data)
  | PEnd | PNop => True
  end.

(** At [o] the structure block goes on with the tokens [l] and ends after them. *)
Record at_pieces (dt : DeviceTree) (o : Z) (l : list piece) : Prop := {
  ap_split : ∃ before after, structure dt = before ++ pieces_bytes l ++ u32_bytes 9 ++ after
    ∧ o = Z.of_nat (length before);
  ap_aligned : o mod 4 = 0;
  ap_ok : Forall (piece_ok (strings dt)) l;
  ap_small : Z.of_nat (length (structure dt)) < 2 ^ 32;
}.

Lemma piece_bytes_aligned p : Z.of_nat (length (piece_bytes p)) mod 4 = 0.
Proof.
  destruct p as [name| |o data|]; cbn [piece_bytes]; try done; rewrite !length_app, !length_u32.
  - pose proof (pad4_aligned (name ++ [0])). dlia.
  - pose proof (pad4_aligned data). dlia.
Qed.

Lemma at_pieces_next dt o p l : at_pieces dt o (p :: l) →
  at_pieces dt (o + Z.of_nat (length (piece_bytes p))) l.
Proof.
  intros [(before & after & Hs & ->) Ha Hok Hsm]. inversion Hok as [|?? Hp Hl]; subst.
  split; [|pose proof (piece_bytes_aligned p); dlia|done|done].
  exists (before ++ piece_bytes p), after. rewrite length_app, Hs. split; [|lia].
  unfold pieces_bytes. cbn. by rewrite <- !app_assoc.
Qed.

(** The bytes of the token at hand *)
Lemma at_piece dt o p l : at_pieces dt o (p :: l) → ∃ before after,
  structure dt = before ++ piece_bytes p ++ after ∧ o = Z.of_nat (length before) ∧
  o + Z.of_nat (length (piece_bytes p)) < 2 ^ 32.
Proof.
  intros [(before & after & Hs & ->) Ha Hok Hsm]. exists before, (pieces_bytes l ++ u32_bytes 9 ++ after).
  split; [|split; [done|]].
  - rewrite Hs. unfold pieces_bytes. cbn. by rewrite <- !app_assoc.
  - rewrite Hs in Hsm. unfold pieces_bytes in Hsm. cbn in Hsm. rewrite !length_app in Hsm. lia.
Qed.

(** The token at [o] *)
Lemma token_step {E A} dt o before v after (k : Z → Z → M Z E A) :
  structure dt = before ++ u32_bytes v ++ after → o = Z.of_nat (length before) → o < 2 ^ 32 → 0 ≤ v < 2 ^ 32 →
  (o' ← get; current_offset ← lift (uadd o' 4); put current_offset;;
   rest ← lift (slice_from (structure dt) (current_offset - 4));
   value ← lift (read_u32 rest); k current_offset value) o = k (o + 4) v (o + 4).
Proof.
  intros Hs Ho Hsm Hv. rewrite bind_unfold. cbn [get].
  erewrite bind_run by (apply lift_Ok; split; [apply uadd_ok; lia|done]).
  rewrite bind_unfold. cbn [put].
  erewrite bind_run by (apply lift_Ok; split; [|done]; rewrite Hs, Z.add_simpl_r, Ho; apply slice_from_app).
  by erewrite bind_run by (apply lift_Ok; split; [by apply read_u32_app|done]).
Qed.

Lemma next_begin {E} dt o before name after fuel :
  structure dt = before ++ piece_bytes (PBegin name) ++ after → o = Z.of_nat (length before) →
  o < 2 ^ 32 → o mod 4 = 0 → Forall (λ b, b ≠ 0) name → from_utf8 name = true →
  next_loop (E:=E) dt (S fuel) o =
    Ok (Some (StartNode name)) (o + Z.of_nat (length (piece_bytes (PBegin name)))).
Proof.
  intros Hs Ho Hsm Ha Hz Hutf. cbn [piece_bytes] in *. rewrite <- app_assoc in Hs. cbn [next_loop].
  rewrite (token_step dt o _ _ _ _ Hs Ho Hsm) by lia. change (token_from 1) with BeginNode. cbv iota zeta.
  set (tail := replicate (Z.to_nat ((- Z.of_nat (length (name ++ [0]))) mod 4)) 0 ++ after).
  assert (structure dt = (before ++ u32_bytes 1) ++ name ++ 0 :: tail) as Hs'.
  { rewrite Hs. unfold pad4, tail. by rewrite <- !app_assoc. }
  assert (Z.of_nat (length (before ++ u32_bytes 1)) = o + 4) as Ho'.
  { rewrite length_app, length_u32. lia. }
  assert (drop (Z.to_nat (o + 4)) (structure dt) = name ++ 0 :: tail) as ->.
  { rewrite Hs', <- Ho', Nat2Z.id. by rewrite drop_app_length. }
  rewrite to_nul_app by done.
  erewrite bind_run by (apply lift_Ok; split; [rewrite Hs'; by apply slice_app|done]).
  rewrite Hutf. rewrite bind_unfold. cbn [assert mret M_ret]. rewrite bind_unfold. cbn [put mret M_ret]. f_equal.
  rewrite length_app, length_u32, Nat2Z.inj_add, pad4_length, length_app, Nat2Z.inj_add. cbn [length].
  rewrite <- !Z.add_assoc, pad_end_shift by done. f_equal. by rewrite pad_end_shift.
Qed.

Lemma next_prop {E} dt o before no data after fuel :
  structure dt = before ++ piece_bytes (PProp no data) ++ after → o = Z.of_nat (length before) →
  o + Z.of_nat (length (piece_bytes (PProp no data))) < 2 ^ 32 → piece_ok (strings dt) (PProp no data) →
  next_loop (E:=E) dt (S fuel) o = Ok (item_of (strings dt) (PProp no data))
    (o + Z.of_nat (length (piece_bytes (PProp no data)))).
Proof.
  intros Hs Ho Hsm (Hno & Hno32 & Hutf & std & Hstd). cbn [piece_bytes item_of] in *.
  rewrite !length_app, !length_u32, !Nat2Z.inj_add in *. rewrite <- !app_assoc in Hs.
  assert (Z.of_nat (length data) ≤ Z.of_nat (length (pad4 data))) as Hpad.
  { unfold pad4. rewrite length_app. lia. }
  cbn [next_loop]. rewrite (token_step dt o _ _ _ _ Hs Ho) by lia.
  change (token_from 3) with PropToken. cbv iota zeta.
  assert (slice_from (structure dt) (o + 4) =
    Some (u32_bytes (Z.of_nat (length data)) ++ u32_bytes no ++ pad4 data ++ after)) as E1.
  { rewrite Hs, (app_assoc before). replace (o + 4) with (Z.of_nat (length (before ++ u32_bytes 3)))
      by (rewrite length_app, length_u32; lia). apply slice_from_app. }
  assert (slice_from (structure dt) (o + 4 + 4) = Some (u32_bytes no ++ pad4 data ++ after)) as E2.
  { rewrite Hs, (app_assoc before), (app_assoc (_ ++ _)).
    replace (o + 4 + 4) with (Z.of_nat (length ((before ++ u32_bytes 3) ++ u32_bytes (Z.of_nat (length data)))))
      by (rewrite !length_app, !length_u32; lia). apply slice_from_app. }
  erewrite bind_run by (apply lift_Ok; split; [exact E1|done]).
  erewrite bind_run by (apply lift_Ok; split; [apply read_u32_app; lia|done]).
  erewrite bind_run by (apply lift_Ok; split; [apply uadd_ok; lia|done]).
  rewrite bind_unfold. cbn [put].
  erewrite bind_run by (apply lift_Ok; split; [exact E2|done]).
  erewrite bind_run by (apply lift_Ok; split; [apply read_u32_app; lia|done]).
  erewrite bind_run by (apply lift_Ok; split; [apply uadd_ok; lia|done]).
  rewrite bind_unfold. cbn [put].
  erewrite bind_run by (apply lift_Ok; split; [by apply slice_cstr|done]).
  rewrite Hutf, bind_unfold. cbn [assert mret M_ret].
  erewrite bind_run by (apply lift_Ok; split; [apply uadd_ok; lia|done]).
  erewrite bind_run.
  2:{ apply lift_Ok. split; [|done]. unfold pad4 in Hs. rewrite <- !app_assoc in Hs. rewrite Hs.
      rewrite (app_assoc before), (app_assoc (_ ++ _)), (app_assoc (_ ++ _)).
      apply slice_app; [rewrite !length_app, !length_u32; lia|done]. }
  rewrite bind_unfold. cbn [put].
  erewrite bind_run by (apply lift_Ok; split; [exact Hstd|done]). rewrite Hstd. cbn [mret M_ret default].
  f_equal. rewrite pad4_length. lia.
Qed.

Lemma next_pieces dt o l fuel : at_pieces dt o l → (length l < fuel)%nat → ∃ r o',
  (∀ E, next_loop (E:=E) dt fuel o = Ok r o') ∧
  match r with
  | None => omap (item_of (strings dt)) l = []
  | Some i => ∃ l', omap (item_of (strings dt)) l = i :: omap (item_of (strings dt)) l' ∧ at_pieces dt o' l'
  end.
Proof.
  revert o fuel. induction l as [|p l IH]; intros o [|fuel] Hat Hf; cbn [length] in Hf; try lia.
  { destruct Hat as [(before & after & Hs & Ho) Ha _ Hsm]. cbn in Hs.
    assert (o < 2 ^ 32) by (rewrite Hs, length_app in Hsm; lia).
    exists None, (o + 4). split; [|done]. intros E. cbn [next_loop].
    by rewrite (token_step dt o _ _ _ _ Hs Ho) by lia. }
  destruct (at_piece _ _ _ _ Hat) as (before & after & Hs & Ho & Hb).
  pose proof (at_pieces_next _ _ _ _ Hat) as Hnext. pose proof (ap_ok _ _ _ Hat) as Hok.
  apply Forall_cons in Hok as [Hp _]. pose proof (ap_aligned _ _ _ Hat) as Ha.
  destruct p as [name| |no data|]; cbn [omap list_omap item_of].
  - destruct Hp as [Hz Hutf]. eexists _, _. split; [intros E; eapply next_begin; try done; lia|].
    by exists l.
  - eexists _, _. split; [intros E; cbn [next_loop]; by rewrite (token_step dt o _ _ _ _ Hs Ho) by lia|].
    by exists l.
  - eexists _, _. split; [intros E; by eapply next_prop|]. by exists l.
  - destruct (IH _ fuel Hnext ltac:(lia)) as (r & o' & Hrun & Hr).
    exists r, o'. split; [|done]. intros E. cbn [next_loop].
    rewrite (token_step dt o _ _ _ _ Hs Ho) by lia. apply Hrun.
Qed.

(** The cursor at [o] yields the items [l] and then ends. *)
Fixpoint reads (dt : DeviceTree) (o : Z) (l : list StructureItem) : Prop :=
  match l with
  | [] => ∃ o', ∀ E, next (E:=E) dt o = Ok None o'
  | i :: l' => ∃ o', (∀ E, next (E:=E) dt o = Ok (Some i) o') ∧ reads dt o' l'
  end.

Lemma pieces_count l : (length l ≤ length (pieces_bytes l))%nat.
Proof.
  induction l as [|p l IH]; [done|]. unfold pieces_bytes in *. cbn [fmap list_fmap concat length].
  rewrite length_app. assert (1 ≤ length (piece_bytes p))%nat; [|lia].
  destruct p; cbn [piece_bytes]; rewrite ?length_app, ?length_u32; lia.
Qed.

Lemma pieces_read dt o l : at_pieces dt o l → reads dt o (omap (item_of (strings dt)) l).
Proof.
  remember (omap (item_of (strings dt)) l) as items eqn:Hi.
  revert o l Hi. induction items as [|i items IH]; intros o l Hi Hat.
  all: assert (length l < cursor_fuel dt)%nat as Hf
    by (destruct (ap_split _ _ _ Hat) as (? & ? & Hs & _); unfold cursor_fuel; rewrite Hs, !length_app;
        pose proof (pieces_count l); lia).
  all: destruct (next_pieces _ _ _ _ Hat Hf) as ([i'|] & o' & Hrun & Hr); rewrite <- Hi in Hr; try done.
  - by destruct Hr as (? & ? & ?).
  - by exists o'.
  - destruct Hr as (l' & [= -> ->] & Hat'). exists o'. split; [done|]. by eapply IH.
Qed.

(** *** Progress, for every blob *)

Lemma slice_from_Some {A} (l : list A) a rest : slice_from l a = Some rest →
  a ≤ Z.of_nat (length l) ∧ rest = drop (Z.to_nat a) l.
Proof. unfold slice_from. destruct (Z.leb_spec a (Z.of_nat (length l))); naive_solver. Qed.

Lemma read_u32_Some l v : read_u32 l = Some v → (4 ≤ length l)%nat.
Proof. rewrite read_u32_law. destruct (Nat.leb_spec 4 (length l)); naive_solver. Qed.

Lemma token_any {E A} dt o (k : Z → Z → M Z E A) : 0 ≤ o →
  let r := (o' ← get; current_offset ← lift (uadd o' 4); put current_offset;;
     rest ← lift (slice_from (structure dt) (current_offset - 4));
     value ← lift (read_u32 rest); k current_offset value) o in
  r = Stop Panic ∨ o + 4 ≤ Z.of_nat (length (structure dt)) ∧ ∃ v, r = k (o + 4) v (o + 4).
Proof.
  intros Ho r. subst r. rewrite bind_unfold. cbn [get]. unfold uadd. case_match; [|by left].
  rewrite bind_unfold. cbn [lift mret M_ret]. rewrite bind_unfold. cbn [put]. rewrite Z.add_simpl_r, bind_unfold.
  destruct (slice_from (structure dt) o) as [rest|] eqn:Hs; [|by left]. cbn [lift mret M_ret].
  rewrite bind_unfold. destruct (read_u32 rest) as [v|] eqn:Hv; [|by left]. right.
  apply slice_from_Some in Hs as [Hs ->]. apply read_u32_Some in Hv. rewrite length_drop in Hv.
  split; [lia|]. by exists v.
Qed.

Lemma pad_end_le n : n ≤ pad_end_4b n.
Proof. unfold pad_end_4b. case_match; dlia. Qed.

Ltac any_token o Ho :=
  match goal with
  | dt : DeviceTree, Hrun : (_ ≫= λ _, _ ≫= λ cur, _ ≫= λ _, _ ≫= λ _, _ ≫= λ w, @?k cur w) o = _ |- _ =>
      let Hp := fresh "Hp" in let Hk := fresh "Hk" in
      destruct (token_any dt o k Ho) as [Hp|(Hlen & tok & Hp)];
      pose proof (eq_trans (eq_sym Hp) Hrun) as Hk; clear Hrun Hp; cbv beta in Hk
  end.

(** A step of the cursor moves on by a token at least, and only where there is one. *)
Lemma next_progress {E} dt fuel o r o' : 0 ≤ o → next_loop (E:=E) dt fuel o = Ok r o' →
  o + 4 ≤ o' ∧ o + 4 ≤ Z.of_nat (length (structure dt)).
Proof.
  revert o. induction fuel as [|fuel IH]; intros o Ho Hrun; [done|]. cbn [next_loop] in Hrun.
  any_token o Ho; [done|]. split; [|done].
  destruct (token_from tok); cbv zeta in Hk; inv_run; try lia; try done.
  - pose proof (to_nul_bounds (drop (Z.to_nat (o + 4)) (structure dt))).
    pose proof (pad_end_le (o + 4 + to_nul (drop (Z.to_nat (o + 4)) (structure dt)) + 1)). lia.
  - match goal with H : slice (structure dt) _ (_ + ?len) = Some _ |- _ =>
      apply slice_spec in H as [? _]; [|lia]; pose proof (pad_end_le len) end. lia.
  - apply IH in Hk; lia.
Qed.

Lemma next_ends {E} dt fuel o : 0 ≤ o → (0 < fuel)%nat →
  Z.of_nat (length (structure dt)) - o < Z.of_nat fuel → ends (next_loop (E:=E) dt fuel o).
Proof.
  revert o. induction fuel as [|fuel IH]; intros o Ho Hf0 Hf Hrun; [lia|]. cbn [next_loop] in Hrun.
  any_token o Ho; [done|]. revert Hk.
  match goal with |- ?r = _ → False => change (ends r) end.
  destruct (token_from tok); cbv zeta; try (by ends_steps). apply IH; lia.
Qed.

Lemma skip_ends {E} dt fuel o : 0 ≤ o → (0 < fuel)%nat →
  Z.of_nat (length (structure dt)) - o < Z.of_nat fuel → ends (skip_to_end (E:=E) dt fuel o).
Proof.
  revert o. induction fuel as [|fuel IH]; intros o Ho Hf0 Hf; [lia|]. cbn [skip_to_end].
  apply bind_ends; [apply next_ends; unfold cursor_fuel; lia|]. intros r o' Hn.
  apply next_progress in Hn; [|done]. destruct r as [[]|]; try done; apply IH; lia.
Qed.

Lemma collect_ends {E} dt fuel o : 0 ≤ o → (0 < fuel)%nat →
  Z.of_nat (length (structure dt)) - o < Z.of_nat fuel → ends (collect_items (E:=E) dt fuel o).
Proof.
  revert o. induction fuel as [|fuel IH]; intros o Ho Hf0 Hf; [lia|]. cbn [collect_items].
  apply bind_ends; [apply next_ends; unfold cursor_fuel; lia|]. intros r o' Hn.
  apply next_progress in Hn; [|done]. destruct r as [i|]; [|done].
  apply bind_ends; [apply IH; lia|done].
Qed.

Lemma on_local_Ok {S L E A} (m : M L E A) l (s : S) a l' s' :
  on_local m l s = Ok (a, l') s' ↔ m l = Ok a l' ∧ s' = s.
Proof. unfold on_local. destruct (m l); naive_solver. Qed.

Lemma on_local_ends {S L E A} (m : M L E A) l (s : S) : ends (m l) → ends (on_local m l s).
Proof. unfold on_local, ends. destruct (m l); naive_solver. Qed.

Lemma skip_progress {E} dt fuel o o' : 0 ≤ o → skip_to_end (E:=E) dt fuel o = Ok tt o' → o ≤ o'.
Proof.
  revert o. induction fuel as [|fuel IH]; intros o Ho Hrun; [done|]. cbn [skip_to_end] in Hrun.
  apply bind_Ok in Hrun as (r & o1 & Hn & Hrun). apply next_progress in Hn; [|done].
  destruct r as [[]|]; try (apply IH in Hrun; lia); injection Hrun as <-; lia.
Qed.

Lemma process_ends {S E} dt pre (f : list Z → list Z → option StandardProperty → M S E unit) fuel o found s :
  (∀ a b c s, ends (f a b c s)) → 0 ≤ o → (0 < fuel)%nat →
  Z.of_nat (length (structure dt)) - o < Z.of_nat fuel → ends (process_loop dt pre f fuel o found s).
Proof.
  intros Hfe. revert o found s. induction fuel as [|fuel IH]; intros o found s Ho Hf0 Hf; [lia|].
  cbn [process_loop].
  apply bind_ends; [apply on_local_ends, next_ends; unfold cursor_fuel; lia|]. intros [r o'] s' Hn.
  apply on_local_Ok in Hn as [Hn ->]. apply next_progress in Hn; [|done].
  destruct r as [[name| |name data std]|]; [..|done].
  - case_match; [apply IH; lia|]. destruct found; [|apply IH; lia].
    apply bind_ends; [apply on_local_ends, skip_ends; unfold cursor_fuel; lia|]. intros [[] o2] s' Hn'.
    apply on_local_Ok in Hn' as [Hn' ->]. apply skip_progress in Hn'; [|lia]. apply IH; lia.
  - destruct found; [done|apply IH; lia].
  - apply bind_ends; [by destruct found|]. intros [] s' _. apply IH; lia.
Qed.

(** *** The calls of [process_properties_for_node] *)

Definition prop : Type := list Z * list Z * option StandardProperty.
Definition call {S E} (f : list Z → list Z → option StandardProperty → M S E unit) (p : prop) : M S E unit :=
  f p.1.1 p.1.2 p.2.

(** The properties the closure sees for a list of items, and what is returned; [None] when the
    items end inside of a node that is skipped. *)
Fixpoint calls (pre : list Z) (found skipping : bool) (l : list StructureItem) : option (list prop * bool) :=
  match l with
  | [] => if skipping then None else Some ([], found)
  | i :: l' =>
      if skipping then calls pre found (match i with EndNode => false | _ => true end) l'
      else match i with
      | StartNode nm => if starts_with nm pre then calls pre true false l' else calls pre found found l'
      | EndNode => if found then Some ([], found) else calls pre found false l'
      | Property a b c =>
          if found then r ← calls pre found false l'; Some ((a, b, c) :: r.1, r.2) else calls pre found false l'
      end
  end.

Lemma skip_calls dt pre found fuel o l r : 0 ≤ o → reads dt o l → (length l < fuel)%nat →
  calls pre found true l = Some r → ∃ o' l', (∀ E, skip_to_end (E:=E) dt fuel o = Ok tt o') ∧ 0 ≤ o' ∧
    reads dt o' l' ∧ (length l' < length l)%nat ∧ calls pre found false l' = Some r.
Proof.
  revert o fuel. induction l as [|i l IH]; intros o fuel Ho Hl Hf Hr; [done|].
  destruct fuel as [|fuel]; [cbn in Hf; lia|]. destruct Hl as (o' & Hn & Hl). cbn [calls] in Hr.
  assert (0 ≤ o') as Ho'. { specialize (Hn unit). apply next_progress in Hn; lia. }
  cbn [length] in Hf. destruct i as [nm| |a b c].
  2:{ exists o', l. repeat split; try done; cbn [length]; [|lia]. intros E. cbn [skip_to_end]. by rewrite bind_unfold, Hn. }
  all: destruct (IH o' fuel Ho' Hl ltac:(lia) Hr) as (o2 & l2 & Hrun & ? & ? & ? & ?).
  all: exists o2, l2; repeat split; try done; cbn [length]; [|lia]; intros E; cbn [skip_to_end];
    by rewrite bind_unfold, Hn.
Qed.

Lemma reads_count dt o l : 0 ≤ o → reads dt o l →
  4 * Z.of_nat (length l) + 4 ≤ Z.of_nat (length (structure dt)) - o.
Proof.
  revert o. induction l as [|i l IH]; intros o Ho Hl.
  - destruct Hl as (o' & Hn). specialize (Hn unit). apply next_progress in Hn; cbn [length]; lia.
  - destruct Hl as (o' & Hn & Hl). specialize (Hn unit). apply next_progress in Hn; [|done].
    apply IH in Hl; [|lia]. cbn [length]. lia.
Qed.

Lemma for_each_run {S E A} (f : A → M S E unit) x l (k : M S E bool) s :
  (for_each f (x :: l);; k) s = (f x;; for_each f l;; k) s.
Proof. cbn [for_each]. unfold mbind, M_bind. by destruct (f x s). Qed.

Lemma bind_ext {S E A B} (m : M S E A) (k k' : A → M S E B) s :
  (∀ a s', m s = Ok a s' → k a s' = k' a s') → (m ≫= k) s = (m ≫= k') s.
Proof. intros Hk. rewrite !bind_unfold. destruct (m s) eqn:Hm; try done. by apply Hk. Qed.

Lemma process_calls {S E} dt pre (f : list Z → list Z → option StandardProperty → M S E unit) fuel o found l ps b s :
  0 ≤ o → reads dt o l → (length l < fuel)%nat → calls pre found false l = Some (ps, b) →
  process_loop dt pre f fuel o found s = (for_each (call f) ps;; mret b) s.
Proof.
  revert o found l ps s. induction fuel as [|fuel IH]; intros o found l ps s Ho Hl Hf Hr; [lia|].
  cbn [process_loop]. destruct l as [|i l].
  { destruct Hl as (o' & Hn). erewrite bind_run by (apply on_local_Ok; by split). by injection Hr as <- <-. }
  pose proof (reads_count _ _ _ Ho Hl) as Hc. destruct Hl as (o' & Hn & Hl).
  assert (0 ≤ o') as Ho'. { specialize (Hn unit). apply next_progress in Hn; lia. }
  erewrite bind_run by (apply on_local_Ok; by split). cbn [length] in *. cbn [calls] in Hr. cbv beta iota.
  destruct i as [nm| |a b' c].
  - destruct (starts_with nm pre); [apply (IH _ _ l); try done; lia|].
    destruct found; [|apply (IH _ _ l); try done; lia].
    destruct (skip_calls dt pre true (cursor_fuel dt) o' l _ Ho' Hl ltac:(unfold cursor_fuel; lia) Hr)
      as (o2 & l2 & Hrun & ? & Hl2 & ? & ?).
    erewrite bind_run by (apply on_local_Ok; by split). apply (IH _ _ l2); try done; lia.
  - destruct found; [by injection Hr as <- <-|]. apply (IH _ _ l); try done; lia.
  - destruct found; [|apply (IH _ _ l); try done; lia].
    destruct (calls pre true false l) as [[ps' b2]|] eqn:Hcl; [|done]. injection Hr as <- <-.
    rewrite for_each_run. unfold call at 1. cbn [fst snd].
    apply bind_ext. intros [] s1 _. apply (IH _ _ l); try done; lia.
Qed.
End spec.

(** *** Trees *)

#[local] Unset Elimination Schemes.
Inductive node :=
  | Node (name : list Z) (props : list prop) (children : list node).
#[local] Set Elimination Schemes.

Section node_ind.
Variable P : node → Prop.
Hypothesis P_node : ∀ name props children, Forall P children → P (Node name props children).

Fixpoint node_tree_ind (n : node) : P n :=
  match n with
  | Node name props children =>
      P_node name props children
        ((fix go l : Forall P l :=
            match l with [] => Forall_nil_2 P | c :: l' => Forall_cons_2 P c l' (node_tree_ind c) (go l') end) children)
  end.
End node_ind.

Definition node_name (n : node) : list Z := let 'Node name _ _ := n in name.
Definition node_props (n : node) : list prop := let 'Node _ props _ := n in props.
Definition node_children (n : node) : list node := let 'Node _ _ children := n in children.

Definition prop_items (props : list prop) : list StructureItem := (λ p, Property p.1.1 p.1.2 p.2) <$> props.

(** A node in the structure block: its properties, its children and its end. *)
Fixpoint node_items (n : node) : list StructureItem :=
  let 'Node name props children := n in
  StartNode name :: prop_items props ++ concat (map node_items children) ++ [EndNode].

(** The names of a node and of all below it *)
Fixpoint node_names (n : node) : list (list Z) :=
  let 'Node name _ children := n in name :: concat (map node_names children).

(** The first node, in the order of the blob, whose name starts with [pre] *)
Fixpoint find_node (pre : list Z) (n : node) : option node :=
  let 'Node name _ children := n in
  if starts_with name pre then Some n
  else (fix go l := match l with
        | [] => None
        | c :: l' => match find_node pre c with Some m => Some m | None => go l' end
        end) children.

(** No name in the forest starts with [pre]. *)
Definition unmatched (pre : list Z) (l : list node) : Prop :=
  Forall (λ nm, starts_with nm pre = false) (concat (map node_names l)).

Definition forest_items (l : list node) : list StructureItem := concat (map node_items l).

Lemma unmatched_cons pre n l : unmatched pre (n :: l) ↔
  starts_with (node_name n) pre = false ∧ unmatched pre (node_children n) ∧ unmatched pre l.
Proof.
  unfold unmatched. destruct n as [name props children]. cbn. rewrite Forall_cons, Forall_app. tauto.
Qed.

Lemma unmatched_single pre n : starts_with (node_name n) pre = false → unmatched pre (node_children n) →
  unmatched pre [n].
Proof. intros. apply unmatched_cons. repeat split; try done. apply Forall_nil_2. Qed.

Section calls.
Variable pre : list Z.

Lemma calls_props_skip found props l :
  calls pre found true (prop_items props ++ l) = calls pre found true l.
Proof. induction props as [|p props IH]; [done|]. exact IH. Qed.

Lemma calls_props_unfound props l : calls pre false false (prop_items props ++ l) = calls pre false false l.
Proof. induction props as [|p props IH]; [done|]. exact IH. Qed.

Lemma calls_props_found props l r : calls pre true false l = Some r →
  calls pre true false (prop_items props ++ l) = Some (props ++ r.1, r.2).
Proof.
  intros Hr. induction props as [|[[a b] c] props IH]; [by destruct r|].
  cbn [prop_items fmap list_fmap app calls]. unfold prop_items in IH. by rewrite IH.
Qed.

(** After the properties of the node found there are no more calls. *)
Definition no_more (l : list StructureItem) : Prop := calls pre true false l = Some ([], true).

Lemma skip_node n l : unmatched pre [n] → no_more l →
  calls pre true true (prop_items (node_props n) ++ forest_items (node_children n) ++ EndNode :: l) = Some ([], true).
Proof.
  revert l. induction n as [name props children IH] using node_tree_ind. cbn [node_props node_children]. intros l Hu Hl.
  apply unmatched_cons in Hu as (_ & Hu & _). cbn [node_children] in Hu. rewrite calls_props_skip.
  assert (∀ cs, Forall (λ n, ∀ l, unmatched pre [n] → no_more l → calls pre true true (prop_items (node_props n)
    ++ forest_items (node_children n) ++ EndNode :: l) = Some ([], true)) cs → unmatched pre cs →
    no_more (forest_items cs ++ EndNode :: l)) as Hcs.
  { induction 1 as [|[nm ps gs] cs Hn _ IHcs]; intros Hus; [done|].
    apply unmatched_cons in Hus as (Hnm & Hgs & Hus). unfold no_more, forest_items.
    cbn [map concat node_items app]. cbn [calls]. cbn [node_name] in Hnm. rewrite Hnm, <- !app_assoc.
    cbn [app]. apply Hn; [by apply unmatched_single|by apply IHcs]. }
  destruct IH as [|[nm ps gs] cs Hn Hrest]; [exact Hl|]. apply unmatched_cons in Hu as (Hnm & Hgs & Hus).
  unfold forest_items. cbn [map concat node_items app calls]. rewrite <- !app_assoc. cbn [app].
  apply Hn; [by apply unmatched_single|by apply Hcs].
Qed.

Lemma no_more_forest cs l : unmatched pre cs → no_more (forest_items cs ++ EndNode :: l).
Proof.
  induction cs as [|[nm ps gs] cs IH]; intros Hu; [done|]. apply unmatched_cons in Hu as (Hnm & Hgs & Hus).
  unfold no_more, forest_items. cbn [map concat node_items app calls]. cbn [node_name] in Hnm.
  rewrite Hnm, <- !app_assoc. cbn [app]. apply (skip_node (Node nm ps gs)); [by apply unmatched_single|by apply IH].
Qed.

Lemma calls_unfound n l : find_node pre n = None → calls pre false false (node_items n ++ l) = calls pre false false l.
Proof.
  revert l. induction n as [name props children IH] using node_tree_ind. intros l. cbn [find_node node_items app calls].
  destruct (starts_with name pre); [done|]. intros Hf. rewrite <- !app_assoc, calls_props_unfound. cbn [app].
  revert Hf. induction IH as [|c cs Hc _ IHcs]; [done|]. destruct (find_node pre c) eqn:Ec; [done|]. intros Hf.
  cbn [map concat]. rewrite <- app_assoc. etransitivity; [by apply Hc|]. by apply IHcs.
Qed.

Lemma calls_found n m l : find_node pre n = Some m → unmatched pre (node_children m) →
  calls pre false false (node_items n ++ l) = Some (node_props m, true).
Proof.
  revert l. induction n as [name props children IH] using node_tree_ind. intros l. cbn [find_node node_items app calls].
  destruct (starts_with name pre).
  { intros [= <-] Hu. cbn [node_children node_props] in *. rewrite <- !app_assoc.
    erewrite calls_props_found by (cbn [app]; by apply no_more_forest). cbn. by rewrite app_nil_r. }
  intros Hf Hu. rewrite <- !app_assoc, calls_props_unfound. revert Hf.
  induction IH as [|c cs Hc _ IHcs]; [done|]. cbn [map concat]. rewrite <- app_assoc.
  destruct (find_node pre c) eqn:Ec; intros Hf; [simplify_eq; by apply Hc|].
  rewrite calls_unfound by done. by apply IHcs.
Qed.
End calls.

(** *** Blobs in memory *)

Definition holds_bytes (mem : Z → Z) (a : Z) (l : list Z) : Prop :=
  ∀ i b, l !! i = Some b → mem (a + Z.of_nat i) = b.

Lemma from_raw_parts_length mem a n : length (from_raw_parts mem a n) = Z.to_nat n.
Proof. unfold from_raw_parts. by rewrite length_fmap, length_seq. Qed.

Lemma from_raw_parts_prefix mem a l n : holds_bytes mem a l → Z.of_nat (length l) ≤ n →
  ∃ rest, from_raw_parts mem a n = l ++ rest.
Proof.
  intros Hl Hn. exists (drop (length l) (from_raw_parts mem a n)).
  rewrite <- (take_drop (length l) (from_raw_parts mem a n)) at 1. f_equal.
  apply list_eq. intros i. destruct (decide (i < length l)%nat) as [Hi|Hi].
  - rewrite lookup_take, decide_True by done. unfold from_raw_parts.
    rewrite list_lookup_fmap, lookup_seq_lt by lia. cbn.
    destruct (lookup_lt_is_Some_2 l i Hi) as [b Hb]. by rewrite Hb, (Hl i b Hb).
  - rewrite !(proj2 (lookup_ge_None _ _)); [done|lia|].
    rewrite length_take, from_raw_parts_length. lia.
Qed.

Lemma from_raw_parts_exact mem a l : holds_bytes mem a l → from_raw_parts mem a (Z.of_nat (length l)) = l.
Proof.
  intros Hl. destruct (from_raw_parts_prefix mem a l _ Hl (Z.le_refl _)) as [rest Hr].
  pose proof (from_raw_parts_length mem a (Z.of_nat (length l))) as Hlen. rewrite Hr, length_app in Hlen.
  destruct rest; [by rewrite Hr, app_nil_r|cbn in Hlen; lia].
Qed.

(** The memory reservation block: the regions and a pair of zeros *)
Definition regions_bytes (l : list (Z * Z)) : list Z :=
  concat ((λ r, u64_bytes r.1 ++ u64_bytes r.2) <$> l) ++ u64_bytes 0 ++ u64_bytes 0.

Definition region_listed (r : Z * Z) : Prop := 0 ≤ r.1 < 2 ^ 64 ∧ 0 ≤ r.2 < 2 ^ 64 ∧ (r.1 ≠ 0 ∨ r.2 ≠ 0).

(** The parts of a blob and where they are. *)
Record blob := {
  b_total : Z;
  b_off_struct : Z;
  b_off_strings : Z;
  b_off_rsvmap : Z;
  b_version : Z;
  b_last_comp : Z;
  b_boot_cpu : Z;
  b_pieces : list piece;
  b_strings : list Z;
  b_regions : list (Z * Z);
}.

Definition structure_bytes (b : blob) : list Z := pieces_bytes (b_pieces b) ++ u32_bytes 9.

Definition header_bytes (b : blob) : list Z :=
  u32_bytes EXPECTED_MAGIC ++ u32_bytes (b_total b) ++ u32_bytes (b_off_struct b) ++
  u32_bytes (b_off_strings b) ++ u32_bytes (b_off_rsvmap b) ++ u32_bytes (b_version b) ++
  u32_bytes (b_last_comp b) ++ u32_bytes (b_boot_cpu b) ++ u32_bytes (Z.of_nat (length (b_strings b))) ++
  u32_bytes (Z.of_nat (length (structure_bytes b))).

Section blobs.
Context {BE : BigEndian}.

Record blob_at (mem : Z → Z) (addr : Z) (b : blob) : Prop := {
  ba_header : holds_bytes mem addr (header_bytes b);
  ba_struct : holds_bytes mem (addr + b_off_struct b) (structure_bytes b);
  ba_strings : holds_bytes mem (addr + b_off_strings b) (b_strings b);
  ba_regions : holds_bytes mem (addr + b_off_rsvmap b) (regions_bytes (b_regions b));
  ba_total : 40 ≤ b_total b < 2 ^ 32;
  ba_offsets : 0 ≤ b_off_struct b < 2 ^ 32 ∧ 0 ≤ b_off_strings b < 2 ^ 32 ∧ 0 ≤ b_off_rsvmap b < 2 ^ 32;
  ba_sizes : Z.of_nat (length (b_strings b)) < 2 ^ 32 ∧ Z.of_nat (length (structure_bytes b)) < 2 ^ 32;
  ba_pieces : Forall (piece_ok (b_strings b)) (b_pieces b);
  ba_listed : Forall region_listed (b_regions b);
}.

(** The field at offset [4 * k] of a blob that starts with these words *)
Lemma header_field_at words rest k v o : words !! k = Some v → o = 4 * Z.of_nat k → 0 ≤ v < 2 ^ 32 →
  header_field (concat (u32_bytes <$> words) ++ rest) o = Some v.
Proof.
  intros Hk -> Hv. rewrite <- (take_drop_middle words k v Hk), fmap_app, fmap_cons, concat_app. cbn [concat].
  assert (length (concat (u32_bytes <$> take k words)) = 4 * k)%nat as Hlen.
  { apply lookup_lt_Some in Hk. rewrite <- (length_take_le words k) at 2 by lia. clear.
    induction (take k words) as [|w l IH]; [done|]. cbn [fmap list_fmap concat length].
    rewrite length_app, length_u32, IH. lia. }
  unfold header_field. rewrite <- !app_assoc.
  replace (4 * Z.of_nat k) with (Z.of_nat (length (concat (u32_bytes <$> take k words)))) by lia.
  rewrite slice_from_app. by apply read_u32_app.
Qed.

Definition header_words (b : blob) : list Z :=
  [EXPECTED_MAGIC; b_total b; b_off_struct b; b_off_strings b; b_off_rsvmap b; b_version b; b_last_comp b;
   b_boot_cpu b; Z.of_nat (length (b_strings b)); Z.of_nat (length (structure_bytes b))].

Lemma at_address_run mem addr b : blob_at mem addr b → ∃ dt, at_address mem addr = Some dt ∧
  size_of_blob dt = Some (b_total b) ∧ structure dt = structure_bytes b ∧ strings dt = b_strings b ∧
  mem_map dt = from_raw_parts mem (addr + b_off_rsvmap b) (Z.of_nat (length (structure_bytes b))).
Proof.
  intros [Hh Hs Hst Hr Ht (Ho1 & Ho2 & Ho3) (Hz1 & Hz2) _ _].
  assert (header_bytes b = concat (u32_bytes <$> header_words b)) as Hw.
  { unfold header_bytes, header_words. cbn [fmap list_fmap concat]. by rewrite app_nil_r. }
  rewrite Hw in Hh.
  assert (length (concat (u32_bytes <$> header_words b)) = 40%nat) as H40 by done.
  destruct (from_raw_parts_prefix _ _ _ 64 Hh ltac:(rewrite H40; lia)) as [r1 H64].
  destruct (from_raw_parts_prefix _ _ _ (b_total b) Hh ltac:(rewrite H40; lia)) as [r2 Hbuf].
  pose proof (λ k v o, header_field_at (header_words b) r1 k v o) as Hf1.
  pose proof (λ k v o, header_field_at (header_words b) r2 k v o) as Hf2.
  unfold at_address. rewrite H64. unfold magic, total_size.
  rewrite (Hf1 0%nat _ 0 eq_refl eq_refl) by done. cbn [mbind option_bind]. rewrite Z.eqb_refl. cbn [negb].
  rewrite (Hf1 1%nat _ 4 eq_refl eq_refl) by lia. cbn [mbind option_bind]. rewrite Hbuf.
  unfold off_dt_strings, size_dt_strings, off_dt_struct, size_dt_structs, off_mem_rsvmap.
  rewrite (Hf2 3%nat _ 12 eq_refl eq_refl) by lia. cbn [mbind option_bind].
  rewrite (Hf2 8%nat _ 32 eq_refl eq_refl) by lia. cbn [mbind option_bind].
  rewrite (Hf2 2%nat _ 8 eq_refl eq_refl) by lia. cbn [mbind option_bind].
  rewrite (Hf2 9%nat _ 36 eq_refl eq_refl) by lia. cbn [mbind option_bind].
  rewrite (Hf2 4%nat _ 16 eq_refl eq_refl) by lia. cbn [mbind option_bind].
  eexists. split; [done|]. cbn [structure strings mem_map]. split_and!; [|by apply from_raw_parts_exact..|done].
  unfold size_of_blob, total_size. cbn [buf]. apply (Hf2 1%nat _ 4 eq_refl eq_refl). lia.
Qed.

(** *** Regions and strings *)

Lemma length_u64 n : length (u64_bytes n) = 8%nat.
Proof. done. Qed.

Lemma next_region_at {E} before a s after o : o = Z.of_nat (length before) → o + 16 < U64 →
  0 ≤ a < 2 ^ 64 → 0 ≤ s < 2 ^ 64 →
  let data := before ++ (u64_bytes a ++ u64_bytes s) ++ after in
  next_region (E:=E) {| mr_data := data; mr_offset := o |} =
    Ok (if (a =? 0) && (s =? 0) then None else Some (a, s)) {| mr_data := data; mr_offset := o + 16 |}.
Proof.
  intros Ho Hb Ha Hs data. unfold next_region. rewrite bind_unfold. cbn [get mr_data mr_offset].
  assert (slice_from data o = Some ((u64_bytes a ++ u64_bytes s) ++ after)) as E1
    by (rewrite Ho; apply slice_from_app).
  assert (slice_from data (o + 8) = Some (u64_bytes s ++ after)) as E2.
  { unfold data. rewrite <- app_assoc, app_assoc.
    replace (o + 8) with (Z.of_nat (length (before ++ u64_bytes a))) by (rewrite length_app, length_u64; lia).
    apply slice_from_app. }
  erewrite bind_run by (apply lift_Ok; split; [exact E1|done]). rewrite <- app_assoc.
  erewrite bind_run by (apply lift_Ok; split; [by apply read_u64_app|done]).
  erewrite bind_run by (apply lift_Ok; split; [apply uadd_ok; lia|done]).
  erewrite bind_run by (apply lift_Ok; split; [exact E2|done]).
  erewrite bind_run by (apply lift_Ok; split; [by apply read_u64_app|done]).
  erewrite bind_run by (apply lift_Ok; split; [apply uadd_ok; lia|done]).
  rewrite bind_unfold. cbn [put mret M_ret]. by rewrite <- Z.add_assoc.
Qed.

Lemma collect_regions_at {E} before l after fuel : Forall region_listed l → (length l < fuel)%nat →
  let data := before ++ regions_bytes l ++ after in Z.of_nat (length data) < 2 ^ 63 →
  ∃ o', collect_regions (E:=E) fuel {| mr_data := data; mr_offset := Z.of_nat (length before) |} =
    Ok l {| mr_data := data; mr_offset := o' |}.
Proof.
  revert before fuel. induction l as [|[a s] l IH]; intros before [|fuel] Hl Hf data Hlen; cbn [length] in Hf; try lia.
  - assert (data = before ++ (u64_bytes 0 ++ u64_bytes 0) ++ after) as Hd by done.
    assert (Z.of_nat (length before) + 16 < U64) as Hb.
    { rewrite Hd, !length_app, !length_u64 in Hlen. lia. }
    eexists. cbn [collect_regions]. rewrite Hd. by erewrite bind_run by (by apply next_region_at).
  - apply Forall_cons in Hl as [(Ha & Hs & Hnz) Hl]. cbn [fst snd] in *.
    assert (data = before ++ (u64_bytes a ++ u64_bytes s) ++ regions_bytes l ++ after) as Hd.
    { unfold data, regions_bytes. cbn [fmap list_fmap concat fst snd]. by rewrite <- !app_assoc. }
    assert (Z.of_nat (length before) + 16 < U64) as Hb.
    { rewrite Hd, !length_app, !length_u64 in Hlen. lia. }
    destruct (IH (before ++ u64_bytes a ++ u64_bytes s) fuel Hl ltac:(lia)) as [o' Hrun].
    { rewrite Hd, !length_app in Hlen. rewrite !length_app. lia. }
    exists o'. cbn [collect_regions]. rewrite Hd.
    erewrite bind_run by (by apply next_region_at).
    assert ((a =? 0) && (s =? 0) = false) as ->.
    { destruct (Z.eqb_spec a 0), (Z.eqb_spec s 0); try done. lia. }
    rewrite !length_app, !length_u64 in Hrun. rewrite <- !app_assoc in *.
    replace (Z.of_nat (length before + (8 + 8))) with (Z.of_nat (length before) + 16) in Hrun by lia.
    by erewrite bind_run by exact Hrun.
Qed.

Lemma next_string_at {E} before s after o : o = Z.of_nat (length before) → Forall (λ b, b ≠ 0) s →
  let data := before ++ s ++ 0 :: after in Z.of_nat (length data) < 2 ^ 63 →
  next_string (E:=E) {| sl_data := data; sl_offset := o |} =
    Ok (Some s) {| sl_data := data; sl_offset := o + Z.of_nat (length s) + 1 |}.
Proof.
  intros Ho Hs data Hlen. unfold next_string. rewrite bind_unfold. cbn [get sl_data sl_offset].
  unfold data in Hlen. rewrite !length_app in Hlen. cbn [length] in Hlen.
  destruct (Z.leb_spec (Z.of_nat (length data)) o) as [Hle|_].
  { unfold data in Hle. rewrite !length_app in Hle. cbn [length] in Hle. lia. }
  erewrite bind_run by (apply lift_Ok; split; [rewrite Ho; apply slice_from_app|done]).
  cbv zeta. rewrite to_nul_app by done.
  destruct (Z.eqb_spec (Z.of_nat (length s)) (Z.of_nat (length (s ++ 0 :: after)))) as [He|_].
  { rewrite length_app in He. cbn [length] in He. lia. }
  erewrite bind_run by (apply lift_Ok; split; [apply uadd_ok; lia|done]).
  rewrite bind_unfold. cbn [put mret M_ret]. rewrite Nat2Z.id, take_app_length. by rewrite Z.add_assoc.
Qed.

(** A list of strings, each with its terminator, is read back. *)
Lemma collect_strings_at {E} before l fuel : Forall (Forall (λ b, b ≠ 0)) l → (length l < fuel)%nat →
  let data := before ++ concat ((λ s, s ++ [0]) <$> l) in Z.of_nat (length data) < 2 ^ 63 →
  ∃ o', collect_strings (E:=E) fuel {| sl_data := data; sl_offset := Z.of_nat (length before) |} =
    Ok l {| sl_data := data; sl_offset := o' |}.
Proof.
  revert before fuel. induction l as [|s l IH]; intros before [|fuel] Hl Hf data Hlen; cbn [length] in Hf; try lia.
  - eexists. cbn [collect_strings]. unfold next_string. rewrite !bind_unfold. cbn [get sl_data sl_offset].
    unfold data. cbn [fmap list_fmap concat]. rewrite app_nil_r, Z.leb_refl. done.
  - apply Forall_cons in Hl as [Hs Hl].
    assert (data = before ++ s ++ 0 :: concat ((λ s, s ++ [0]) <$> l)) as Hd.
    { unfold data. cbn [fmap list_fmap concat]. by rewrite <- !app_assoc. }
    destruct (IH (before ++ s ++ [0]) fuel Hl ltac:(lia)) as [o' Hrun].
    { rewrite <- !app_assoc. cbn [app]. by rewrite <- Hd. }
    exists o'. cbn [collect_strings]. rewrite Hd in *. erewrite bind_run by (by apply next_string_at).
    rewrite <- !app_assoc in Hrun. cbn [app] in Hrun. rewrite !length_app in Hrun. cbn [length] in Hrun.
    replace (Z.of_nat (length before + (length s + 1))) with (Z.of_nat (length before) + Z.of_nat (length s) + 1)
      in Hrun by lia. cbv beta iota. by erewrite bind_run by exact Hrun.
Qed.

(** *** The properties *)

Lemma collect_reads {E} dt o l fuel : reads dt o l → (length l < fuel)%nat →
  ∃ o', collect_items (E:=E) dt fuel o = Ok l o'.
Proof.
  revert o fuel. induction l as [|i l IH]; intros o [|fuel] Hl Hf; cbn [length] in Hf; try lia.
  - destruct Hl as [o' Hn]. exists o'. cbn [collect_items]. by erewrite bind_run by apply Hn.
  - destruct Hl as (o1 & Hn & Hl). destruct (IH o1 fuel Hl ltac:(lia)) as [o' Hrun]. exists o'.
    cbn [collect_items]. erewrite bind_run by apply Hn. cbv beta iota. by erewrite bind_run by exact Hrun.
Qed.

(** What a blob says *)
Definition blob_items (b : blob) : list StructureItem := omap (item_of (b_strings b)) (b_pieces b).

Lemma blob_reads mem addr b dt : blob_at mem addr b → structure dt = structure_bytes b →
  strings dt = b_strings b → reads dt 0 (blob_items b).
Proof.
  intros Hb Hs Hst. unfold blob_items. rewrite <- Hst. apply pieces_read. split.
  - exists [], []. split; [|done]. rewrite Hs. unfold structure_bytes. by rewrite app_nil_r.
  - done.
  - rewrite Hst. apply (ba_pieces _ _ _ Hb).
  - rewrite Hs. apply (ba_sizes _ _ _ Hb).
Qed.

(** C34: a device tree blob is read back: where the memory holds the header, the structure block
    of any sequence of tokens (with padding and [Nop]s), the strings and the memory reservation
    block, [at_address] accepts the blob, the cursor yields exactly the items the tokens say and
    ends, and the reserved regions are the listed ones, as long as the reservation block is not
    longer than the structure block, whose size the code gives it. *)
Theorem device_tree_roundtrip mem addr b : blob_at mem addr b → ∃ dt,
  at_address mem addr = Some dt ∧ size_of_blob dt = Some (b_total b) ∧
  (∀ E, ∃ o, collect_items (E:=E) dt (cursor_fuel dt) 0 = Ok (blob_items b) o) ∧
  ((length (regions_bytes (b_regions b)) ≤ length (structure_bytes b))%nat → ∀ E, ∃ it,
    collect_regions (E:=E) (S (length (b_regions b))) (iter_reserved_memory_regions dt) = Ok (b_regions b) it).
Proof.
  intros Hb. destruct (at_address_run mem addr b Hb) as (dt & Hat & Hsz & Hs & Hst & Hmm).
  exists dt. split_and!; [done|done| |].
  - intros E. pose proof (blob_reads _ _ _ _ Hb Hs Hst) as Hr. apply collect_reads; [done|].
    pose proof (reads_count _ _ _ (Z.le_refl 0) Hr). unfold cursor_fuel. lia.
  - intros Hle E. unfold iter_reserved_memory_regions, for_data. rewrite Hmm.
    destruct (from_raw_parts_prefix _ _ _ (Z.of_nat (length (structure_bytes b))) (ba_regions _ _ _ Hb)
      ltac:(lia)) as [rest Hrest].
    rewrite Hrest. destruct (collect_regions_at (E:=E) [] (b_regions b) rest (S (length (b_regions b)))
      (ba_listed _ _ _ Hb) ltac:(lia)) as [o' Hrun]; [|by eexists].
    cbn [app]. rewrite <- Hrest, from_raw_parts_length, Nat2Z.id. pose proof (ba_sizes _ _ _ Hb). lia.
Qed.

(** [process_properties_for_node] on a blob that holds a tree: the closure is called with
    the properties of the first node whose name starts with the one asked for, in their order and
    with no others, as long as no node below it has such a name; without such a node it is not
    called and the result is [false].  Whatever the closure does ends the search as it does. *)
Theorem node_properties_found {S E} mem addr b tree pre dt
    (f : list Z → list Z → option StandardProperty → M S E unit) (s : S) :
  blob_at mem addr b → blob_items b = node_items tree → at_address mem addr = Some dt →
  (∀ n, find_node pre tree = Some n → unmatched pre (node_children n)) →
  process_properties_for_node dt pre f s =
    match find_node pre tree with
    | Some n => (for_each (call f) (node_props n);; mret true) s
    | None => Ok false s
    end.
Proof.
  intros Hb Ht Hdt Hu. destruct (at_address_run mem addr b Hb) as (dt' & Hat & Hsz & Hs & Hst & Hmm).
  rewrite Hdt in Hat. injection Hat as <-.
  pose proof (blob_reads _ _ _ _ Hb Hs Hst) as Hr. pose proof (reads_count _ _ _ (Z.le_refl 0) Hr) as Hc.
  rewrite Ht in Hr, Hc. unfold process_properties_for_node.
  destruct (find_node pre tree) as [n|] eqn:Hf.
  - apply (process_calls _ _ _ _ _ _ (node_items tree)); [done|done|unfold cursor_fuel; lia|].
    rewrite <- (app_nil_r (node_items tree)). apply calls_found; [done|by apply Hu].
  - rewrite (process_calls _ _ _ _ _ _ (node_items tree) [] false); [done|done|done|unfold cursor_fuel; lia|].
    rewrite <- (app_nil_r (node_items tree)). by rewrite calls_unfound.
Qed.

(** Reading a device tree ends, whatever the bytes are: iterating over the structure and
    searching for a node stop with an answer or a panic, since every step consumes a token and
    reading past the end panics. *)
Theorem device_tree_terminates {S E} dt pre (f : list Z → list Z → option StandardProperty → M S E unit) (s : S) :
  (∀ a b c s, ends (f a b c s)) →
  ends (collect_items (E:=E) dt (cursor_fuel dt) 0) ∧ ends (process_properties_for_node dt pre f s).
Proof.
  intros Hf. unfold process_properties_for_node, cursor_fuel. split.
  - apply collect_ends; lia.
  - apply process_ends; [done|lia..].
Qed.
End blobs.

(** *** A small blob *)

(** [byteorder] with its documented behaviour. *)
Program Definition concrete_big_endian : BigEndian := {|
  read_u32 l := if (4 <=? length l)%nat then Some (be (take 4 l) 0) else None;
  read_u64 l := if (8 <=? length l)%nat then Some (be (take 8 l) 0) else None;
|}.
Next Obligation. done. Qed.
Next Obligation. done. Qed.

#[local] Existing Instance concrete_big_endian.

Definition demo_strings : list Z := bytes_of "reg" ++ [0] ++ bytes_of "compatible" ++ [0].

(** [/ { soc { reg }; memory@4 { compatible; reg; bank {} } }] with [Nop]s *)
Definition demo_pieces : list piece :=
  [PNop; PBegin []; PBegin (bytes_of "soc"); PProp 0 [1; 2; 3; 4; 5]; PNop; PEnd;
   PBegin (bytes_of "memory@4"); PProp 4 (bytes_of "ram" ++ [0]); PNop; PNop; PProp 0 (u64_bytes 64 ++ u64_bytes 128);
   PBegin (bytes_of "bank"); PEnd; PEnd; PEnd].

Definition demo_tree : node :=
  Node [] []
    [Node (bytes_of "soc") [(bytes_of "reg", [1; 2; 3; 4; 5], None)] [];
     Node (bytes_of "memory@4")
       [(bytes_of "compatible", bytes_of "ram" ++ [0],
           Some (Compatible {| sl_data := bytes_of "ram" ++ [0]; sl_offset := 0 |}));
        (bytes_of "reg", u64_bytes 64 ++ u64_bytes 128, None)]
       [Node (bytes_of "bank") [] []]].

Definition demo_blob : blob :=
  {| b_total := 300; b_off_struct := 40; b_off_strings := 260; b_off_rsvmap := 200; b_version := 17;
     b_last_comp := 16; b_boot_cpu := 0; b_pieces := demo_pieces; b_strings := demo_strings;
     b_regions := [(4096, 8192)] |}.

(** A blob whose parts follow each other: structure, reserved regions, strings *)
Definition blob_mem (b : blob) (addr a : Z) : Z :=
  let part o l := l !! Z.to_nat (a - addr - o) in
  default 0
    (if a - addr <? b_off_struct b then part 0 (header_bytes b)
     else if a - addr <? b_off_rsvmap b then part (b_off_struct b) (structure_bytes b)
     else if a - addr <? b_off_strings b then part (b_off_rsvmap b) (regions_bytes (b_regions b))
     else part (b_off_strings b) (b_strings b)).

Definition demo_mem : Z → Z := blob_mem demo_blob 4096.

Definition holds_check (mem : Z → Z) (a : Z) (l : list Z) : bool :=
  forallb (λ ib, mem (a + Z.of_nat (ib.1)) =? ib.2) (imap (λ i b, (i, b)) l).

Lemma holds_check_ok mem a l : holds_check mem a l = true → holds_bytes mem a l.
Proof.
  intros Hc i b Hb. unfold holds_check in Hc. rewrite forallb_forall in Hc.
  apply Z.eqb_eq, (Hc (i, b)). apply list_elem_of_In, list_elem_of_lookup. exists i.
  by rewrite list_lookup_imap, Hb.
Qed.

Ltac check_piece :=
  split_and?; first [done | vm_compute; by eauto | vm_compute; repeat constructor; done].

Ltac check_blob :=
  split; [apply holds_check_ok; vm_compute; reflexivity..|done|done|done| |repeat constructor; done];
  cbn [b_pieces b_strings]; repeat (apply Forall_cons; split; [cbn [piece_ok]; check_piece|]); apply Forall_nil_2.

Lemma demo_blob_at : blob_at demo_mem 4096 demo_blob.
Proof. unfold demo_blob, demo_pieces. check_blob. Qed.

Lemma demo_items : blob_items demo_blob = node_items demo_tree.
Proof. vm_compute. reflexivity. Qed.

Lemma device_tree_roundtrip_witness : ∃ dt, at_address demo_mem 4096 = Some dt ∧
  ∀ E, ∃ it, collect_regions (E:=E) 2 (iter_reserved_memory_regions dt) = Ok [(4096, 8192)] it.
Proof.
  destruct (device_tree_roundtrip demo_mem 4096 demo_blob demo_blob_at) as (dt & Hat & _ & _ & Hr).
  exists dt. split; [done|]. intros E. apply Hr. vm_compute. lia.
Defined.

(** The [memory] node has two properties. *)
Lemma node_properties_found_witness : ∃ dt, at_address demo_mem 4096 = Some dt ∧
  process_properties_for_node (S:=list (list Z)) (E:=unit) dt (bytes_of "memory")
    (λ name _ _, l ← get; put (l ++ [name])) [] = Ok true [bytes_of "compatible"; bytes_of "reg"].
Proof.
  destruct (at_address_run demo_mem 4096 demo_blob demo_blob_at) as (dt & Hat & _).
  exists dt. split; [done|].
  rewrite (node_properties_found demo_mem 4096 demo_blob demo_tree (bytes_of "memory") dt _ [] demo_blob_at
    demo_items Hat).
  - vm_compute. reflexivity.
  - intros n Hn. vm_compute in Hn. injection Hn as <-. vm_compute. repeat constructor.
Defined.

Lemma device_tree_terminates_witness :
  let dt := {| buf := []; strings := [1]; structure := [0; 0; 0; 4; 7]; mem_map := [] |} in
  ends (process_properties_for_node (S:=unit) (E:=unit) dt [] (λ _ _ _, panic) tt) ∧
  process_properties_for_node (S:=unit) (E:=unit) dt [] (λ _ _ _, panic) tt = Stop Panic.
Proof.
  intros dt. split; [|vm_compute; reflexivity].
  by apply (device_tree_terminates dt [] (λ _ _ _, panic) tt).
Defined.
