(* ===== verification/Gic.v ===== *)
(** The driver of the interrupt controller ([kernel/src/exception/gic/mod.rs] and [v2m.rs]) and
    the interface it implements ([InterruptController] of [kernel/src/exception/mod.rs]).

    The registers of the device are behind [Mmio]; what they do is stated in [GicSpec]. *)
From Stdlib Require Import Strings.String.
From stdpp Require Import base list strings.
From S2P Require Import Prelude BitField Addresses Dtb.

(** *** Device registers *)

(** 32-bit registers at virtual addresses.  A read may change the device. *)
Class Mmio (D : Type) := {
  mmio_read : Z → D → Z * D;
  mmio_write : Z → Z → D → D;
}.

Definition read_volatile {D E} `{Mmio D} (p : Z) : M D E Z := λ d, let '(v, d') := mmio_read p d in Ok v d'.
Definition write_volatile {D E} `{Mmio D} (p v : Z) : M D E unit := λ d, Ok tt (mmio_write p v d).

(** [offset] on a [*mut u32] *)
Definition ptr_offset (p n : Z) : Z := p + 4 * n.

(** The bits of a [u32] through the crate [bitvec]: [BitPtr] reads and replaces one bit, the
    least significant first. *)
Class BitVec := {
  bv_get : Z → Z → bool;
  bv_set : Z → Z → bool → Z;
  bv_get_law w i : 0 ≤ i < 32 → bv_get w i = Z.testbit w i;
  bv_set_law w i b j : 0 ≤ i < 32 → 0 ≤ j → Z.testbit (bv_set w i b) j = if i =? j then b else Z.testbit w j;
  bv_set_bound w i b : 0 ≤ i < 32 → 0 ≤ w < 2 ^ 32 → 0 ≤ bv_set w i b < 2 ^ 32;
}.

(** *** Register offsets, in words *)

Module dist_regs.
Definition CTLR : Z := Z.shiftr 0x0000 2.
Definition ISENABLER_N : Z := Z.shiftr 0x0100 2.
Definition ICENABLER_N : Z := Z.shiftr 0x0180 2.
Definition ISPENDR_N : Z := Z.shiftr 0x0200 2.
Definition ICPENDR_N : Z := Z.shiftr 0x0280 2.
Definition ISACTIVER_N : Z := Z.shiftr 0x0300 2.
Definition ICACTIVER_N : Z := Z.shiftr 0x0380 2.
Definition IPRIORITYR_N : Z := Z.shiftr 0x0400 2.
Definition ITARGETSR_N : Z := Z.shiftr 0x0800 2.
Definition ICFGR_N : Z := Z.shiftr 0x0c00 2.
End dist_regs.

Module cpu_regs.
Definition CTLR : Z := Z.shiftr 0x000 2.
Definition PMR : Z := Z.shiftr 0x0004 2.
Definition BPR : Z := Z.shiftr 0x008 2.
Definition IAR : Z := Z.shiftr 0x000c 2.
Definition EOIR : Z := Z.shiftr 0x0010 2.
Definition DIR : Z := Z.shiftr 0x1000 2.
End cpu_regs.

Definition INTID_NONE_PENDING : Z := 1023.

(** *** Data *)

Inductive InterruptConfig :=
  | Edge
  | Level.

Record MsiDescriptor := {
  register_addr : Z;
  data_value : Z;
  intid : Z;
}.

Record V2mMsiController := {
  v2m_register_addr : Z;
  spi_start : Z;
  num_spis : Z;
  next_spi : Z;
}.

(** The controller for message signaled interrupts is the one of the v2m frame: the one of the
    ITS cannot be built, its [init] is a [todo!]. *)
Record GenericInterruptController := {
  distributor_base : Z;
  cpu_base : Z;
  msi_ctrl : option V2mMsiController;
  dt_interrupt_cells : Z;
}.

(** *** v2m *)

Definition V2M_MSI_TYPER : Z := 0x008.
Definition V2M_MSI_SETSPI_NS : Z := 0x040.
Definition V2M_MSI_IIDR : Z := 0xFCC.

Section gic.
Context {D : Type} `{HM : Mmio D} `{BF : BitField} {BV : BitVec} {BE : BigEndian} {E : Type}.

Definition v2m_init (base : Z) : M D E V2mMsiController :=
  basep ← lift (PhysicalAddress.to_virtual_canonical base);
  _ ← read_volatile (ptr_offset basep (Z.shiftr V2M_MSI_IIDR 2));
  typer ← read_volatile (ptr_offset basep (Z.shiftr V2M_MSI_TYPER 2));
  mret {| v2m_register_addr := wrapping_add base V2M_MSI_SETSPI_NS;
          spi_start := bit_range typer 25 16;
          num_spis := bit_range typer 9 0;
          next_spi := bit_range typer 25 16 |}.

(** [V2mMsiController::alloc_msi]; the sums cannot leave 32 bits, both fields have ten. *)
Definition v2m_alloc_msi : M V2mMsiController E MsiDescriptor :=
  self ← get;
  if spi_start self + num_spis self <? next_spi self then panic
  else
    let intid := next_spi self in
    put {| v2m_register_addr := v2m_register_addr self; spi_start := spi_start self;
           num_spis := num_spis self; next_spi := next_spi self + 1 |};;
    mret {| register_addr := v2m_register_addr self; data_value := intid; intid := intid |}.

(** *** Registers of the controller *)

Definition id_to_bit_offset (id : Z) : Z * Z := (id / 32, id mod 32).

Definition read_bit_for_id (interface register id : Z) : M D E bool :=
  let '(word_offset, bit_offset) := id_to_bit_offset id in
  reg ← read_volatile (ptr_offset (ptr_offset interface register) word_offset);
  mret (negb (Z.land reg (Z.shiftl 1 bit_offset) =? 0)).

Definition read_byte_for_id (interface register id : Z) : M D E Z :=
  reg ← read_volatile (ptr_offset (ptr_offset interface register) (id / 4));
  mret (Z.shiftr reg (id mod 4 * 8) mod 256).

Definition write_bit_for_id (interface register id : Z) : M D E unit :=
  let '(word_offset, bit_offset) := id_to_bit_offset id in
  write_volatile (ptr_offset (ptr_offset interface register) word_offset) (Z.shiftl 1 bit_offset).

Definition write_byte_for_id (interface register id value : Z) : M D E unit :=
  let ptr := ptr_offset (ptr_offset interface register) (id / 4) in
  reg ← read_volatile ptr;
  write_volatile ptr (Z.lor reg (Z.shiftl value (id mod 4 * 8))).

Definition init_distributor (self : GenericInterruptController) : M D E unit :=
  write_volatile (ptr_offset (distributor_base self) dist_regs.CTLR) 1.

Definition init_cpu_interface (self : GenericInterruptController) : M D E unit :=
  write_volatile (ptr_offset (cpu_base self) cpu_regs.CTLR) 0x601;;
  write_volatile (ptr_offset (cpu_base self) cpu_regs.PMR) 0xff;;
  write_volatile (ptr_offset (cpu_base self) cpu_regs.BPR) 0.

(** *** [InterruptController] *)

Section controller.
Variable self : GenericInterruptController.

Definition is_enabled (id : Z) : M D E bool := read_bit_for_id (distributor_base self) dist_regs.ISENABLER_N id.

Definition set_enable (id : Z) (enabled : bool) : M D E unit :=
  write_bit_for_id (distributor_base self)
    (if enabled then dist_regs.ISENABLER_N else dist_regs.ICENABLER_N) id.

Definition is_pending (id : Z) : M D E bool := read_bit_for_id (distributor_base self) dist_regs.ISPENDR_N id.

Definition clear_pending (id : Z) : M D E unit := write_bit_for_id (distributor_base self) dist_regs.ICPENDR_N id.

Definition is_active (id : Z) : M D E bool := read_bit_for_id (distributor_base self) dist_regs.ISACTIVER_N id.

Definition set_active (id : Z) (enabled : bool) : M D E unit :=
  write_bit_for_id (distributor_base self)
    (if enabled then dist_regs.ISACTIVER_N else dist_regs.ICACTIVER_N) id.

Definition priority (id : Z) : M D E Z := read_byte_for_id (distributor_base self) dist_regs.IPRIORITYR_N id.

Definition set_priority (id prio : Z) : M D E unit :=
  write_byte_for_id (distributor_base self) dist_regs.IPRIORITYR_N id prio.

Definition target_cpu (id : Z) : M D E Z := read_byte_for_id (distributor_base self) dist_regs.ITARGETSR_N id.

Definition set_target_cpu (id target : Z) : M D E unit :=
  write_byte_for_id (distributor_base self) dist_regs.ITARGETSR_N id target.

Definition config (id : Z) : M D E InterruptConfig :=
  let bit_offset := id mod 16 + 1 in
  let ptr := ptr_offset (ptr_offset (distributor_base self) dist_regs.ICFGR_N) (id / 16) in
  reg ← read_volatile ptr;
  mret (if bv_get reg bit_offset then Edge else Level).

(** [BitPtr::write_volatile]: a read of the word, and a write of it. *)
Definition write_bit_volatile (ptr bit : Z) (b : bool) : M D E unit :=
  reg ← read_volatile ptr; write_volatile ptr (bv_set reg bit b).

Definition set_config (id : Z) (cfg : InterruptConfig) : M D E unit :=
  let bit_offset := id mod 16 in
  let ptr := ptr_offset (ptr_offset (distributor_base self) dist_regs.ICFGR_N) (id / 16) in
  match cfg with
  | Edge => write_bit_volatile ptr bit_offset false;; write_bit_volatile ptr (bit_offset + 1) true
  | Level => write_bit_volatile ptr bit_offset false;; write_bit_volatile ptr (bit_offset + 1) false
  end.

Definition ack_interrupt : M D E (option Z) :=
  id ← read_volatile (ptr_offset (cpu_base self) cpu_regs.IAR);
  mret (if id =? INTID_NONE_PENDING then None else Some id).

Definition finish_interrupt (id : Z) : M D E unit :=
  write_volatile (ptr_offset (cpu_base self) cpu_regs.EOIR) id;;
  write_volatile (ptr_offset (cpu_base self) cpu_regs.DIR) id.

Definition msi_supported : bool := match msi_ctrl self with Some _ => true | None => false end.

Definition device_tree_interrupt_spec_byte_size : option Z := umul (dt_interrupt_cells self) 4.

(** [None] is a panic, [Some None] the answer [None]. *)
Definition parse_interrupt_spec_from_device_tree (data : list Z) : option (option (Z * InterruptConfig)) :=
  size ← device_tree_interrupt_spec_byte_size;
  if negb (Z.of_nat (length data) =? size) then Some None
  else
    ty ← (l ← slice data 0 4; read_u32 l);
    irq ← (l ← slice data 4 8; read_u32 l);
    flags ← (l ← slice data 8 12; read_u32 l);
    offset ← (if ty =? 0 then (if irq <=? 987 then Some 32 else None)
              else if ty =? 1 then (if irq <=? 15 then Some 16 else None)
              else None);
    let f := Z.land flags 0xf in
    cfg ← (if f =? 1 then Some Edge else if f =? 2 then Some Edge
           else if f =? 3 then Some Level else if f =? 4 then Some Level else None);
    Some (Some (irq + offset, cfg)).
End controller.

(** [GenericInterruptController::alloc_msi] *)
Definition alloc_msi : M GenericInterruptController E (option MsiDescriptor) :=
  self ← get;
  match msi_ctrl self with
  | None => mret None
  | Some c =>
      '(m, c') ← on_local v2m_alloc_msi c;
      put {| distributor_base := distributor_base self; cpu_base := cpu_base self; msi_ctrl := Some c';
             dt_interrupt_cells := dt_interrupt_cells self |};;
      mret (Some m)
  end.

(** *** Finding the controller *)

(** [find_regs_for_node], on the cursor *)
Fixpoint find_regs_for_node (dt : DeviceTree) (fuel : nat) (regs : option MemRegionIter)
    : M Z E (option MemRegionIter) :=
  match fuel with
  | O => out_of_fuel
  | S fuel' =>
      j ← next dt;
      match j with
      | None => mret regs
      | Some (Property name data _) =>
          find_regs_for_node dt fuel'
            (if bool_decide (name = bytes_of "reg") then Some (for_data data) else regs)
      | Some EndNode => mret regs
      | Some (StartNode _) => panic
      end
  end.

(** [regs.and_then(|mut i| i.next()).expect(..)] *)
Definition expect_base {S} (regs : option MemRegionIter) : M S E (Z * Z) :=
  i ← lift regs; '(r, _) ← on_local next_region i; lift r.

(** The variables of [in_device_tree] *)
Record Search := {
  gic_mem_regions : option MemRegionIter;
  found_node : bool;
  found_msi : option V2mMsiController;
  intc_cells : Z;
}.

Fixpoint search_loop (dt : DeviceTree) (fuel : nat) (o : Z) (v : Search) : M D E Search :=
  match fuel with
  | O => out_of_fuel
  | S fuel' =>
      '(n, o) ← on_local (next dt) o;
      match n with
      | None => mret v
      | Some (StartNode name) =>
          if starts_with name (bytes_of "intc") then
            search_loop dt fuel' o {| gic_mem_regions := gic_mem_regions v; found_node := true;
                                      found_msi := found_msi v; intc_cells := intc_cells v |}
          else if starts_with name (bytes_of "its") then
            '(regs, o) ← on_local (find_regs_for_node dt (cursor_fuel dt) None) o;
            _ ← expect_base regs;
            panic (* [ItsMsiController::init] is a [todo!] *)
          else if starts_with name (bytes_of "v2m") then
            '(regs, o) ← on_local (find_regs_for_node dt (cursor_fuel dt) None) o;
            v2m_base ← expect_base regs;
            c ← v2m_init v2m_base.1;
            search_loop dt fuel' o {| gic_mem_regions := gic_mem_regions v; found_node := found_node v;
                                      found_msi := Some c; intc_cells := intc_cells v |}
          else if found_node v then
            '(_, o) ← on_local (skip_to_end dt (cursor_fuel dt)) o;
            search_loop dt fuel' o v
          else search_loop dt fuel' o v
      | Some EndNode => if found_node v then mret v else search_loop dt fuel' o v
      | Some (Property name data _) =>
          if found_node v then
            if bool_decide (name = bytes_of "reg") then
              search_loop dt fuel' o {| gic_mem_regions := Some (for_data data); found_node := found_node v;
                                        found_msi := found_msi v; intc_cells := intc_cells v |}
            else if bool_decide (name = bytes_of "#interrupt-cells") then
              cells ← lift (read_u32 data);
              search_loop dt fuel' o {| gic_mem_regions := gic_mem_regions v; found_node := found_node v;
                                        found_msi := found_msi v; intc_cells := cells |}
            else search_loop dt fuel' o v
          else search_loop dt fuel' o v
      end
  end.

Definition in_device_tree (dt : DeviceTree) : M D E (option GenericInterruptController) :=
  v ← search_loop dt (cursor_fuel dt) 0
        {| gic_mem_regions := None; found_node := false; found_msi := None; intc_cells := 0 |};
  match found_node v, gic_mem_regions v with
  | true, Some regions =>
      '(r, regions) ← on_local next_region regions;
      distributor ← lift r;
      '(r, regions) ← on_local next_region regions;
      cpu ← lift r;
      distributor_ptr ← lift (PhysicalAddress.to_virtual_canonical distributor.1);
      cpu_ptr ← lift (PhysicalAddress.to_virtual_canonical cpu.1);
      let s := {| distributor_base := distributor_ptr; cpu_base := cpu_ptr; msi_ctrl := found_msi v;
                  dt_interrupt_cells := intc_cells v |} in
      init_distributor s;; init_cpu_interface s;;
      mret (Some s)
  | _, _ => mret None
  end.
End gic.
