(* ===== verification/GicSpec.v ===== *)
(** What the driver of the interrupt controller does to a controller whose registers behave as
    the architecture says, and what it finds in a device tree. *)
From Stdlib Require Import Strings.String.
From stdpp Require Import base list strings.
From S2P Require Import Prelude BitField Addresses Dtb DtbSpec Gic.

(** *** The hardware *)

Inductive flag_kind := Enabled | Pending | Active.
Inductive byte_kind := Priority | Target.
#[export] Instance flag_kind_eq : EqDecision flag_kind.
Proof. solve_decision. Defined.
#[export] Instance byte_kind_eq : EqDecision byte_kind.
Proof. solve_decision. Defined.

(** Writing a one sets or clears the flag, reading either register shows it. *)
Definition set_reg (k : flag_kind) : Z :=
  match k with
  | Enabled => dist_regs.ISENABLER_N | Pending => dist_regs.ISPENDR_N | Active => dist_regs.ISACTIVER_N
  end.
Definition clear_reg (k : flag_kind) : Z :=
  match k with
  | Enabled => dist_regs.ICENABLER_N | Pending => dist_regs.ICPENDR_N | Active => dist_regs.ICACTIVER_N
  end.
Definition byte_reg (k : byte_kind) : Z :=
  match k with Priority => dist_regs.IPRIORITYR_N | Target => dist_regs.ITARGETSR_N end.

(** The interrupts the distributor has registers for *)
Definition irq (id : Z) : Prop := 0 ≤ id < 1024.

(** A controller with its distributor at [dist] and the interface of the processor at [cpu].
    Some flags cannot be changed by writing ([stuck]: unimplemented interrupts, interrupts that
    are always enabled, a level that is still asserted), and some bits of the bytes cannot
    ([writable]). *)
Class GicHardware (D : Type) `{Mmio D} (dist cpu : Z) := {
  flag : D → flag_kind → Z → bool;
  byte : D → byte_kind → Z → Z;
  edge : D → Z → bool;
  stuck : D → flag_kind → Z → bool;
  writable : D → byte_kind → Z → Z;
  edge_fixed : D → Z → bool;
  byte_range d k id : 0 ≤ byte d k id < 256;
  read_flags d k n : 0 ≤ n < 32 → ∃ w, mmio_read (dist + 4 * (set_reg k + n)) d = (w, d) ∧
    ∀ i, 0 ≤ i < 32 → Z.testbit w i = flag d k (32 * n + i);
  write_set d k n v : 0 ≤ n < 32 → 0 ≤ v < 2 ^ 32 →
    let d' := mmio_write (dist + 4 * (set_reg k + n)) v d in
    (∀ k' id, irq id → flag d' k' id = flag d k' id ||
      bool_decide (k' = k ∧ id / 32 = n ∧ stuck d k id = false) && Z.testbit v (id mod 32)) ∧
    (∀ k' id, irq id → byte d' k' id = byte d k' id) ∧ (∀ id, irq id → edge d' id = edge d id);
  write_clear d k n v : 0 ≤ n < 32 → 0 ≤ v < 2 ^ 32 →
    let d' := mmio_write (dist + 4 * (clear_reg k + n)) v d in
    (∀ k' id, irq id → flag d' k' id = flag d k' id &&
      negb (bool_decide (k' = k ∧ id / 32 = n ∧ stuck d k id = false) && Z.testbit v (id mod 32))) ∧
    (∀ k' id, irq id → byte d' k' id = byte d k' id) ∧ (∀ id, irq id → edge d' id = edge d id);
  read_bytes d k n : 0 ≤ n < 256 → ∃ w, mmio_read (dist + 4 * (byte_reg k + n)) d = (w, d) ∧ 0 ≤ w < 2 ^ 32 ∧
    ∀ i, 0 ≤ i < 4 → Z.shiftr w (i * 8) mod 256 = byte d k (4 * n + i);
  write_bytes d k n v : 0 ≤ n < 256 → 0 ≤ v < 2 ^ 32 →
    let d' := mmio_write (dist + 4 * (byte_reg k + n)) v d in
    (∀ k' id, irq id → byte d' k' id =
      if bool_decide (k' = k ∧ id / 4 = n) then
        Z.lor (Z.ldiff (byte d k id) (writable d k id)) (Z.land (Z.shiftr v (id mod 4 * 8) mod 256) (writable d k id))
      else byte d k' id) ∧
    (∀ k' id, irq id → flag d' k' id = flag d k' id) ∧ (∀ id, irq id → edge d' id = edge d id);
  read_cfg d n : 0 ≤ n < 64 → ∃ w, mmio_read (dist + 4 * (dist_regs.ICFGR_N + n)) d = (w, d) ∧ 0 ≤ w < 2 ^ 32 ∧
    ∀ i, 0 ≤ i < 16 → Z.testbit w (2 * i + 1) = edge d (16 * n + i);
  write_cfg d n v : 0 ≤ n < 64 → 0 ≤ v < 2 ^ 32 →
    let d' := mmio_write (dist + 4 * (dist_regs.ICFGR_N + n)) v d in
    (∀ id, irq id → edge d' id =
      if bool_decide (id / 16 = n ∧ edge_fixed d id = false) then Z.testbit v (2 * (id mod 16) + 1) else edge d id) ∧
    (∀ id, irq id → edge_fixed d' id = edge_fixed d id) ∧
    (∀ k' id, irq id → flag d' k' id = flag d k' id) ∧ (∀ k' id, irq id → byte d' k' id = byte d k' id);
  (** The end of an interrupt: [EOIR] drops its priority, [DIR] deactivates it. *)
  write_eoir d id : irq id → let d' := mmio_write (cpu + 4 * cpu_regs.EOIR) id d in
    (∀ k' id', irq id' → (k', id') ≠ (Active, id) → flag d' k' id' = flag d k' id') ∧
    (∀ k' id', irq id' → byte d' k' id' = byte d k' id') ∧ (∀ id', irq id' → edge d' id' = edge d id');
  write_dir d id : irq id → let d' := mmio_write (cpu + 4 * cpu_regs.DIR) id d in
    (∀ k' id', irq id' → flag d' k' id' = if bool_decide ((k', id') = (Active, id)) then false else flag d k' id') ∧
    (∀ k' id', irq id' → byte d' k' id' = byte d k' id') ∧ (∀ id', irq id' → edge d' id' = edge d id');
}.

(** *** Flags *)

Section flags.
Context {D : Type} `{HM : Mmio D} `{BF : BitField} {BV : BitVec} {E : Type}.
Variable self : GenericInterruptController.
Context {HW : GicHardware D (distributor_base self) (cpu_base self)}.

(** Only the flag [k] of [id] may differ, and it is [b] unless it is stuck. *)
Definition flag_changed (d d' : D) (k : flag_kind) (id : Z) (b : bool) : Prop :=
  (∀ k' id', irq id' → flag d' k' id' =
     if bool_decide ((k', id') = (k, id) ∧ stuck d k id = false) then b else flag d k' id') ∧
  (∀ k' id', irq id' → byte d' k' id' = byte d k' id') ∧ (∀ id', irq id' → edge d' id' = edge d id').

Lemma land_bit w i : 0 ≤ i → negb (Z.land w (Z.shiftl 1 i) =? 0) = Z.testbit w i.
Proof.
  intros Hi. rewrite Z.shiftl_1_l. destruct (Z.testbit w i) eqn:Hw.
  - apply negb_true_iff, Z.eqb_neq. intros H0.
    assert (Z.testbit (Z.land w (2 ^ i)) i = false) as Hf by (rewrite H0; apply Z.testbit_0_l).
    by rewrite Z.land_spec, Hw, Z.pow2_bits_true in Hf by done.
  - apply negb_false_iff, Z.eqb_eq, Z.bits_inj'. intros j Hj. rewrite Z.land_spec, Z.testbit_0_l.
    rewrite Z.pow2_bits_eqb by done. destruct (Z.eqb_spec i j) as [->|]; [by rewrite Hw|by rewrite andb_false_r].
Qed.

Lemma reg_address base r n : ptr_offset (ptr_offset base r) n = base + 4 * (r + n).
Proof. unfold ptr_offset. lia. Qed.

Lemma read_flag_run k id d : irq id →
  read_bit_for_id (E:=E) (distributor_base self) (set_reg k) id d = Ok (flag d k id) d.
Proof.
  intros Hid. unfold irq in Hid. unfold read_bit_for_id, id_to_bit_offset. rewrite reg_address.
  destruct (read_flags d k (id / 32) ltac:(dlia)) as (w & Hr & Hw).
  rewrite bind_unfold. unfold read_volatile. rewrite Hr. cbn [mret M_ret]. f_equal.
  rewrite land_bit by dlia. rewrite Hw by dlia. f_equal. dlia.
Qed.

Lemma shiftl_1_u32 i : 0 ≤ i < 32 → 0 ≤ Z.shiftl 1 i < 2 ^ 32.
Proof. intros. rewrite Z.shiftl_1_l. split; [lia|]. apply Z.pow_lt_mono_r; lia. Qed.

Lemma one_bit id id' : irq id → irq id' → id' / 32 = id / 32 →
  Z.testbit (Z.shiftl 1 (id mod 32)) (id' mod 32) = bool_decide (id' = id).
Proof.
  intros H1 H2 Hq. rewrite Z.shiftl_1_l, Z.pow2_bits_eqb by dlia.
  destruct (Z.eqb_spec (id mod 32) (id' mod 32)); symmetry; [apply bool_decide_eq_true|apply bool_decide_eq_false];
    dlia.
Qed.

(** The bits a write to the registers of [id] selects *)
Lemma selected d k k' id id' : irq id → irq id' →
  bool_decide (k' = k ∧ id' / 32 = id / 32 ∧ stuck d k id' = false) &&
    Z.testbit (Z.shiftl 1 (id mod 32)) (id' mod 32) = bool_decide ((k', id') = (k, id) ∧ stuck d k id = false).
Proof.
  intros Hid Hid'. case_bool_decide as H1; cbn.
  - destruct H1 as (-> & Hq & Hs). rewrite one_bit by done. apply bool_decide_ext. naive_solver.
  - symmetry. apply bool_decide_eq_false. naive_solver.
Qed.

Lemma write_flag_run k id (b : bool) d : irq id → ∃ d',
  write_bit_for_id (E:=E) (distributor_base self) (if b then set_reg k else clear_reg k) id d = Ok tt d' ∧
  flag_changed d d' k id b.
Proof.
  intros Hid. unfold write_bit_for_id, id_to_bit_offset, write_volatile. rewrite reg_address.
  eexists. split; [done|]. pose proof Hid as Hid'. unfold irq in Hid'.
  pose proof (shiftl_1_u32 (id mod 32) ltac:(dlia)) as Hv. destruct b.
  - destruct (write_set d k (id / 32) _ ltac:(dlia) Hv) as (Hf & Hb & He). split_and!; [|done|done].
    intros k' id' Hi. rewrite Hf, selected by done. case_match; [apply orb_true_r|apply orb_false_r].
  - destruct (write_clear d k (id / 32) _ ltac:(dlia) Hv) as (Hf & Hb & He). split_and!; [|done|done].
    intros k' id' Hi. rewrite Hf, selected by done. case_match; [apply andb_false_r|apply andb_true_r].
Qed.

(** On a controller whose registers behave as documented, the driver reads the flags of
    exactly the interrupt asked for, without changing anything; enabling and disabling, clearing
    the pending and setting the active state change exactly that flag of exactly that interrupt
    (unless the hardware does not let it change), and ending an interrupt deactivates it and
    nothing else; priorities, targets and triggers stay. *)
Theorem gic_flags_exact id (b : bool) d : irq id →
  is_enabled self id d = Ok (E:=E) (flag d Enabled id) d ∧
  is_pending self id d = Ok (E:=E) (flag d Pending id) d ∧
  is_active self id d = Ok (E:=E) (flag d Active id) d ∧
  (∃ d', set_enable self id b d = Ok (E:=E) tt d' ∧ flag_changed d d' Enabled id b) ∧
  (∃ d', clear_pending self id d = Ok (E:=E) tt d' ∧ flag_changed d d' Pending id false) ∧
  (∃ d', set_active self id b d = Ok (E:=E) tt d' ∧ flag_changed d d' Active id b) ∧
  (∃ d', finish_interrupt self id d = Ok (E:=E) tt d' ∧
    (∀ k' id', irq id' → flag d' k' id' = if bool_decide ((k', id') = (Active, id)) then false else flag d k' id') ∧
    (∀ k' id', irq id' → byte d' k' id' = byte d k' id') ∧ (∀ id', irq id' → edge d' id' = edge d id')).
Proof.
  intros Hid. split_and!.
  - by apply (read_flag_run Enabled).
  - by apply (read_flag_run Pending).
  - by apply (read_flag_run Active).
  - by apply (write_flag_run Enabled).
  - by apply (write_flag_run Pending id false).
  - by apply (write_flag_run Active).
  - unfold finish_interrupt, write_volatile. rewrite bind_unfold. unfold ptr_offset.
    set (d1 := mmio_write (cpu_base self + 4 * cpu_regs.EOIR) id d).
    destruct (write_eoir d id Hid) as (Hf1 & Hb1 & He1). destruct (write_dir d1 id Hid) as (Hf2 & Hb2 & He2).
    eexists. split; [done|]. split_and!; intros; rewrite ?Hf2, ?Hb2, ?He2 by done; auto.
    case_bool_decide; [done|]. by apply Hf1.
Qed.

(** *** Bytes *)

Lemma byte_of_lor w v i j : 0 ≤ i → 0 ≤ j → 0 ≤ v < 256 →
  Z.shiftr (Z.lor w (Z.shiftl v (i * 8))) (j * 8) mod 256 =
    Z.lor (Z.shiftr w (j * 8) mod 256) (if i =? j then v else 0).
Proof.
  intros Hi Hj Hv. change 256 with (2 ^ 8). apply Z.bits_inj'. intros n Hn. rewrite Z.lor_spec.
  destruct (Z.lt_ge_cases n 8) as [Hlt|Hge].
  - rewrite !Z.mod_pow2_bits_low by lia. rewrite !Z.shiftr_spec, Z.lor_spec, Z.shiftl_spec by lia. f_equal.
    destruct (Z.eqb_spec i j) as [->|Hne]; [f_equal; lia|]. rewrite Z.testbit_0_l.
    destruct (Z.lt_ge_cases (n + j * 8 - i * 8) 0); [by apply Z.testbit_neg_r|].
    destruct (decide (v = 0)) as [->|]; [apply Z.testbit_0_l|]. apply Z.bits_above_log2; [lia|].
    apply Z.log2_lt_pow2; [lia|]. apply Z.lt_le_trans with (2 ^ 8); [lia|]. apply Z.pow_le_mono_r; lia.
  - rewrite !Z.mod_pow2_bits_high by lia. cbn. symmetry. case_match; [|apply Z.testbit_0_l].
    destruct (decide (v = 0)) as [->|]; [apply Z.testbit_0_l|]. apply Z.bits_above_log2; [lia|].
    apply Z.log2_lt_pow2; [lia|]. apply Z.lt_le_trans with (2 ^ 8); [lia|]. apply Z.pow_le_mono_r; lia.
Qed.

Lemma lor_u32 a b : 0 ≤ a < 2 ^ 32 → 0 ≤ b < 2 ^ 32 → 0 ≤ Z.lor a b < 2 ^ 32.
Proof.
  intros Ha Hb. apply bits_bound; [lia|]. intros i Hi. rewrite Z.lor_spec.
  assert (∀ x, 0 ≤ x < 2 ^ 32 → Z.testbit x i = false) as Hx.
  { intros x Hx. destruct (decide (x = 0)) as [->|]; [apply Z.testbit_0_l|]. apply Z.bits_above_log2; [lia|].
    apply Z.log2_lt_pow2; [lia|]. apply Z.lt_le_trans with (2 ^ 32); [lia|]. apply Z.pow_le_mono_r; lia. }
  by rewrite !Hx.
Qed.

Lemma masked_or b v m : Z.lor (Z.ldiff b m) (Z.land (Z.lor b v) m) = Z.lor b (Z.land v m).
Proof.
  apply Z.bits_inj'. intros i Hi. rewrite !Z.lor_spec, !Z.land_spec, Z.ldiff_spec, Z.lor_spec.
  by destruct (Z.testbit b i), (Z.testbit v i), (Z.testbit m i).
Qed.

Lemma read_byte_run k id d : irq id →
  read_byte_for_id (E:=E) (distributor_base self) (byte_reg k) id d = Ok (byte d k id) d.
Proof.
  intros Hid. unfold irq in Hid. unfold read_byte_for_id. rewrite reg_address.
  destruct (read_bytes d k (id / 4) ltac:(dlia)) as (w & Hr & _ & Hw).
  rewrite bind_unfold. unfold read_volatile. rewrite Hr. cbn [mret M_ret]. f_equal.
  rewrite Hw by dlia. f_equal. dlia.
Qed.

(** Only the byte [k] of [id] may differ: the bits of the value that can be written are added. *)
Definition byte_added (d d' : D) (k : byte_kind) (id v : Z) : Prop :=
  (∀ k' id', irq id' → byte d' k' id' =
     if bool_decide ((k', id') = (k, id)) then Z.lor (byte d k id) (Z.land v (writable d k id)) else byte d k' id') ∧
  (∀ k' id', irq id' → flag d' k' id' = flag d k' id') ∧ (∀ id', irq id' → edge d' id' = edge d id').

Lemma write_byte_run k id v d : irq id → 0 ≤ v < 256 → ∃ d',
  write_byte_for_id (E:=E) (distributor_base self) (byte_reg k) id v d = Ok tt d' ∧ byte_added d d' k id v.
Proof.
  intros Hid Hv. pose proof Hid as Hid'. unfold irq in Hid'. unfold write_byte_for_id. rewrite reg_address.
  destruct (read_bytes d k (id / 4) ltac:(dlia)) as (w & Hr & Hw32 & Hw).
  rewrite bind_unfold. unfold read_volatile, write_volatile. rewrite Hr. eexists. split; [done|].
  assert (0 ≤ Z.shiftl v (id mod 4 * 8) < 2 ^ 32) as Hs.
  { rewrite Z.shiftl_mul_pow2 by dlia. assert (id mod 4 = 0 ∨ id mod 4 = 1 ∨ id mod 4 = 2 ∨ id mod 4 = 3)
      as [->|[->|[->| ->]]] by dlia; cbn; lia. }
  destruct (write_bytes d k (id / 4) _ ltac:(dlia) (lor_u32 _ _ Hw32 Hs)) as (Hb & Hf & He).
  split_and!; [|done|done]. intros k' id' Hi. rewrite Hb by done. unfold irq in Hi.
  destruct (decide (k' = k ∧ id' / 4 = id / 4)) as [[-> Hq]|Hne].
  - rewrite bool_decide_eq_true_2 by done. rewrite byte_of_lor by dlia. rewrite Hw by dlia.
    replace (4 * (id / 4) + id' mod 4) with id' by dlia. rewrite masked_or.
    destruct (Z.eqb_spec (id mod 4) (id' mod 4)) as [Hm|Hm].
    + assert (id' = id) as -> by dlia. by rewrite bool_decide_eq_true_2.
    + rewrite bool_decide_eq_false_2 by naive_solver. by rewrite Z.land_0_l, Z.lor_0_r.
  - rewrite !bool_decide_eq_false_2 by naive_solver. done.
Qed.

(** Priorities and targets of interrupts are read exactly; setting one adds the bits of the
    value to those already set (the comment in the source suspects the bitwise or), so the byte
    becomes the value only if the bits it had are among the value's, and touches no other
    interrupt. *)
Theorem gic_bytes_accumulate id v d : irq id → 0 ≤ v < 256 →
  priority self id d = Ok (E:=E) (byte d Priority id) d ∧
  target_cpu self id d = Ok (E:=E) (byte d Target id) d ∧
  (∃ d', set_priority self id v d = Ok (E:=E) tt d' ∧ byte_added d d' Priority id v) ∧
  (∃ d', set_target_cpu self id v d = Ok (E:=E) tt d' ∧ byte_added d d' Target id v).
Proof.
  intros Hid Hv. split_and!.
  - by apply (read_byte_run Priority).
  - by apply (read_byte_run Target).
  - by apply (write_byte_run Priority).
  - by apply (write_byte_run Target).
Qed.

(** *** Triggers *)

Lemma write_bit_run n i b d : 0 ≤ n < 64 → 0 ≤ i < 32 → ∃ d',
  write_bit_volatile (E:=E) (distributor_base self + 4 * (dist_regs.ICFGR_N + n)) i b d = Ok tt d' ∧
  (∀ id, irq id → edge d' id =
    if bool_decide (id / 16 = n ∧ edge_fixed d id = false ∧ 2 * (id mod 16) + 1 = i) then b else edge d id) ∧
  (∀ id, irq id → edge_fixed d' id = edge_fixed d id) ∧
  (∀ k id, irq id → flag d' k id = flag d k id) ∧ (∀ k id, irq id → byte d' k id = byte d k id).
Proof.
  intros Hn Hi. destruct (read_cfg d n Hn) as (w & Hr & Hw32 & Hw).
  unfold write_bit_volatile. rewrite bind_unfold. unfold read_volatile, write_volatile. rewrite Hr.
  eexists. split; [done|].
  destruct (write_cfg d n _ Hn (bv_set_bound w i b Hi Hw32)) as (He & Hfx & Hf & Hb). split_and!; [|done..].
  intros id Hid. rewrite He by done. unfold irq in Hid. rewrite bv_set_law by dlia.
  destruct (Z.eqb_spec i (2 * (id mod 16) + 1)) as [Hb'|Hb'].
  - repeat case_bool_decide; naive_solver.
  - rewrite Hw by dlia.
    rewrite (bool_decide_eq_false_2 (_ ∧ _ ∧ _)) by (intros (? & ? & ?); lia).
    case_bool_decide as H1; [|done]. f_equal. destruct H1. dlia.
Qed.

Lemma set_config_eq id c d :
  set_config (E:=E) self id c d =
  (write_bit_volatile (distributor_base self + 4 * (dist_regs.ICFGR_N + id / 16)) (id mod 16) false;;
   write_bit_volatile (distributor_base self + 4 * (dist_regs.ICFGR_N + id / 16)) (id mod 16 + 1)
     (match c with Edge => true | Level => false end)) d.
Proof. unfold set_config. cbv zeta. rewrite reg_address. by destruct c. Qed.

(** The interrupt whose trigger the code's bit number belongs to: the two bits of interrupt [n]
    of a word are [2 * n] and [2 * n + 1], the code takes [n] and [n + 1]. *)
Definition misplaced (id : Z) : Z := 16 * (id / 16) + id mod 16 / 2.

(** [set_config] sets the trigger of another interrupt: of [misplaced id], to what was asked
    for when [id] is even and to level when it is odd, and of no other; [config] of an even
    interrupt reads that one as well.  Only for multiples of 16 this is the interrupt meant. *)
Theorem gic_config_misplaced id c d : irq id →
  (misplaced id = id ↔ id mod 16 = 0) ∧
  (id mod 2 = 0 → config self id d = Ok (E:=E) (if edge d (misplaced id) then Edge else Level) d) ∧
  ∃ d', set_config self id c d = Ok (E:=E) tt d' ∧
    (∀ id', irq id' → edge d' id' =
      if bool_decide (id' = misplaced id ∧ edge_fixed d id' = false)
      then match c with Edge => id mod 2 =? 0 | Level => false end else edge d id') ∧
    (∀ k id', irq id' → flag d' k id' = flag d k id') ∧ (∀ k id', irq id' → byte d' k id' = byte d k id').
Proof.
  intros Hid. unfold irq in Hid. split_and!; [unfold misplaced; dlia|..].
  - intros Hev. unfold config. cbv zeta. rewrite reg_address.
    destruct (read_cfg d (id / 16) ltac:(dlia)) as (w & Hr & Hw32 & Hw).
    rewrite bind_unfold. unfold read_volatile. rewrite Hr. cbn [mret M_ret]. f_equal.
    rewrite bv_get_law by dlia. unfold misplaced. rewrite <- (Hw (id mod 16 / 2)) by dlia.
    by replace (2 * (id mod 16 / 2) + 1) with (id mod 16 + 1) by dlia.
  - rewrite set_config_eq. set (b := match c with Edge => true | Level => false end).
    destruct (write_bit_run (id / 16) (id mod 16) false d ltac:(dlia) ltac:(dlia)) as (d1 & Hr1 & He1 & Hx1 & Hf1 & Hb1).
    destruct (write_bit_run (id / 16) (id mod 16 + 1) b d1 ltac:(dlia) ltac:(dlia)) as (d2 & Hr2 & He2 & Hx2 & Hf2 & Hb2).
    exists d2. rewrite bind_unfold, Hr1, Hr2. split; [done|].
    split_and!; [|intros; by rewrite Hf2, Hf1|intros; by rewrite Hb2, Hb1].
    intros id' Hid'. rewrite He2, He1, Hx1 by done. unfold irq in Hid'. unfold misplaced.
    destruct (edge_fixed d id'); [by rewrite !bool_decide_eq_false_2 by naive_solver|].
    destruct (decide (id' = 16 * (id / 16) + id mod 16 / 2)) as [->|Hne].
    + rewrite (bool_decide_eq_true_2 (_ = _ ∧ false = false)) by done.
      destruct (Z.eqb_spec (id mod 2) 0).
      * rewrite bool_decide_eq_true_2 by (split_and!; dlia). by destruct c.
      * rewrite bool_decide_eq_false_2, bool_decide_eq_true_2 by (try (intros (? & ? & ?)); split_and?; dlia).
        by destruct c.
    + repeat rewrite bool_decide_eq_false_2 by
        (intros H1; apply Hne; first [by destruct H1 | destruct H1 as (? & ? & ?); dlia]). done.
Qed.
(** Nothing changes for the other interrupts' flags. *)
Definition only_flags (d d' : D) (id : Z) : Prop :=
  ∀ k id', irq id' → id' ≠ id → flag d' k id' = flag d k id'.

(** The calls by which a driver sets up its interrupt *)
Lemma configure_run id c d : irq id → (∀ d, stuck d Enabled id = false) → ∃ d1 d2 d3 d4 d5,
  set_target_cpu (E := E) self id 0x1 d = Ok tt d1 ∧ set_priority (E := E) self id 0 d1 = Ok tt d2 ∧
  set_config (E := E) self id c d2 = Ok tt d3 ∧ clear_pending (E := E) self id d3 = Ok tt d4 ∧
  set_enable (E := E) self id true d4 = Ok tt d5 ∧ flag d5 Enabled id = true ∧ only_flags d d5 id.
Proof.
  intros Hid Hst. destruct (write_byte_run Target id 1 d Hid ltac:(lia)) as (d1 & H1 & _ & Hf1 & _).
  destruct (write_byte_run Priority id 0 d1 Hid ltac:(lia)) as (d2 & H2 & _ & Hf2 & _).
  unfold irq in Hid. set (b := match c with Edge => true | Level => false end).
  destruct (write_bit_run (id / 16) (id mod 16) false d2) as (d3 & H3 & _ & _ & Hf3 & _); [dlia..|].
  destruct (write_bit_run (id / 16) (id mod 16 + 1) b d3) as (d4 & H4 & _ & _ & Hf4 & _); [dlia..|].
  destruct (write_flag_run Pending id false d4 Hid) as (d5 & H5 & Hf5 & _).
  destruct (write_flag_run Enabled id true d5 Hid) as (d6 & H6 & Hf6 & _).
  exists d1, d2, d4, d5, d6. split_and!; try done.
  - rewrite set_config_eq. by erewrite bind_run by exact H3.
  - rewrite Hf6 by done. rewrite bool_decide_true by done. done.
  - intros k id' Hid' Hne. rewrite Hf6, bool_decide_false, Hf5, bool_decide_false, Hf4, Hf3, Hf2, Hf1; [done|naive_solver..].
Qed.
End flags.

(** *** Message signaled interrupts *)

Section v2m.
Context {E : Type}.

Fixpoint alloc_many (n : nat) : M V2mMsiController E (list MsiDescriptor) :=
  match n with
  | O => mret []
  | S n' => m ← v2m_alloc_msi; l ← alloc_many n'; mret (m :: l)
  end.

Definition nth_msi (c : V2mMsiController) (i : nat) : MsiDescriptor :=
  {| register_addr := v2m_register_addr c; data_value := next_spi c + Z.of_nat i;
     intid := next_spi c + Z.of_nat i |}.

Lemma alloc_many_run n c :
  alloc_many n c =
    if (Z.of_nat n <=? 0) || (next_spi c + Z.of_nat n <=? spi_start c + num_spis c + 1) then
      Ok (nth_msi c <$> seq 0 n)
        {| v2m_register_addr := v2m_register_addr c; spi_start := spi_start c; num_spis := num_spis c;
           next_spi := next_spi c + Z.of_nat n |}
    else Stop Panic.
Proof.
  revert c. induction n as [|n IH]; intros c.
  { cbn. destruct c as [a b m k]. cbn. by rewrite Z.add_0_r. }
  cbn [alloc_many]. rewrite bind_unfold. unfold v2m_alloc_msi. rewrite bind_unfold. cbn [get].
  destruct (Z.ltb_spec (spi_start c + num_spis c) (next_spi c)) as [Hlt|Hge].
  { rewrite (proj2 (Z.leb_gt _ _)), (proj2 (Z.leb_gt _ _)) by lia. done. }
  rewrite bind_unfold. cbn [put mret M_ret]. rewrite bind_unfold, IH. cbn [next_spi spi_start num_spis v2m_register_addr].
  rewrite (proj2 (Z.leb_gt (Z.of_nat (S n)) 0)) by lia. cbn [orb].
  destruct (Z.leb_spec (next_spi c + Z.of_nat (S n)) (spi_start c + num_spis c + 1)).
  - rewrite orb_true_intro by (right; apply Z.leb_le; lia). cbn [mret M_ret]. f_equal; [|f_equal; lia].
    cbn [seq fmap list_fmap]. f_equal; [unfold nth_msi; f_equal; lia|].
    rewrite <- fmap_S_seq, <- list_fmap_compose. apply list_fmap_ext. intros i x _. unfold nth_msi, compose. cbn.
    f_equal; lia.
  - destruct n as [|n]; [lia|]. rewrite (proj2 (Z.leb_gt _ _)), (proj2 (Z.leb_gt _ _)) by lia. done.
Qed.

(** C35: the v2m frame has [num_spis] interrupts from [spi_start] on.  A fresh controller hands out
    [spi_start], [spi_start + 1], ... in order, all different and all with the address of the
    frame's register; the [num_spis + 1]-th allocation still succeeds, with an interrupt that is
    not the frame's, and only the one after it panics. *)
Theorem msi_allocation c n : next_spi c = spi_start c → 0 ≤ num_spis c →
  alloc_many n c =
    if Z.of_nat n <=? num_spis c + 1 then
      Ok ((λ i, {| register_addr := v2m_register_addr c; data_value := spi_start c + Z.of_nat i;
                   intid := spi_start c + Z.of_nat i |}) <$> seq 0 n)
        {| v2m_register_addr := v2m_register_addr c; spi_start := spi_start c; num_spis := num_spis c;
           next_spi := spi_start c + Z.of_nat n |}
    else Stop Panic.
Proof.
  intros Hf Hn. rewrite alloc_many_run. unfold nth_msi. rewrite Hf.
  destruct (Z.leb_spec (Z.of_nat n) (num_spis c + 1)).
  - by rewrite orb_true_intro by (right; apply Z.leb_le; lia).
  - by rewrite (proj2 (Z.leb_gt _ _)), (proj2 (Z.leb_gt _ _)) by lia.
Qed.
End v2m.

(** *** Interrupt specifications *)

Section spec.
Context {BE : BigEndian}.

(** Three cells: the type, the number and the flags *)
Definition spec_bytes (ty n flags : Z) : list Z := u32_bytes ty ++ u32_bytes n ++ u32_bytes flags.

Lemma spec_parsed self ty n flags : dt_interrupt_cells self = 3 →
  0 ≤ ty < 2 ^ 32 → 0 ≤ n < 2 ^ 32 → 0 ≤ flags < 2 ^ 32 →
  parse_interrupt_spec_from_device_tree self (spec_bytes ty n flags) =
    (offset ← (if ty =? 0 then (if n <=? 987 then Some 32 else None)
               else if ty =? 1 then (if n <=? 15 then Some 16 else None) else None);
     cfg ← (if (Z.land flags 0xf =? 1) || (Z.land flags 0xf =? 2) then Some Edge
            else if (Z.land flags 0xf =? 3) || (Z.land flags 0xf =? 4) then Some Level else None);
     Some (Some (n + offset, cfg))).
Proof.
  intros Hc Hty Hn Hfl. unfold parse_interrupt_spec_from_device_tree, device_tree_interrupt_spec_byte_size.
  rewrite Hc. cbn [umul Z.mul Z.ltb Z.compare mbind option_bind].
  change (umul 3 4) with (Some 12). cbn [mbind option_bind].
  change (Z.of_nat (length (spec_bytes ty n flags)) =? 12) with true. cbn [negb].
  assert (∀ v, 0 ≤ v < 2 ^ 32 → read_u32 (u32_bytes v) = Some v) as Hread.
  { intros v Hv. rewrite <- (app_nil_r (u32_bytes v)). by apply read_u32_app. }
  change (slice (spec_bytes ty n flags) 0 4) with (Some (u32_bytes ty)). cbn [mbind option_bind]. rewrite Hread by done.
  change (slice (spec_bytes ty n flags) 4 8) with (Some (u32_bytes n)). cbn [mbind option_bind]. rewrite Hread by done.
  change (slice (spec_bytes ty n flags) 8 12) with (Some (u32_bytes flags)). cbn [mbind option_bind].
  rewrite Hread by done. cbn [mbind option_bind].
  match goal with |- context [if ty =? 0 then ?a else ?b] => destruct (if ty =? 0 then a else b) end; [|done].
  cbn [mbind option_bind].
  by destruct (Z.land flags 0xf =? 1), (Z.land flags 0xf =? 2), (Z.land flags 0xf =? 3), (Z.land flags 0xf =? 4).
Qed.
End spec.

(** *** The controller in the device tree *)

Section search.
Context {D : Type} `{HM : Mmio D} `{BF : BitField} {BE : BigEndian} {E : Type}.
Variable dt : DeviceTree.

(** The cursor is at these items, and there is fuel for them. *)
Definition at_items (o : Z) (l : list StructureItem) (fuel : nat) : Prop :=
  0 ≤ o ∧ reads dt o l ∧ (length l < fuel)%nat.

Lemma at_item o i l fuel : at_items o (i :: l) fuel → ∃ fuel' o', fuel = S fuel' ∧
  (∀ E, next (E:=E) dt o = Ok (Some i) o') ∧ at_items o' l fuel'.
Proof.
  intros (Ho & (o' & Hn & Hl) & Hf). destruct fuel as [|fuel]; [cbn in Hf; lia|]. cbn [length] in Hf.
  exists fuel, o'. split_and!; [done|done|]. split_and!; [|done|lia].
  specialize (Hn unit). apply next_progress in Hn; lia.
Qed.

Lemma at_items_fuel o l fuel : at_items o l fuel → at_items o l (cursor_fuel dt).
Proof.
  intros (Ho & Hl & _). split_and!; [done|done|]. pose proof (reads_count _ _ _ Ho Hl). unfold cursor_fuel. lia.
Qed.

(** The names the search looks for *)
Definition names_controller (nm : list Z) : bool :=
  starts_with nm (bytes_of "intc") || starts_with nm (bytes_of "its") || starts_with nm (bytes_of "v2m").

Definition quiet_item (i : StructureItem) : Prop :=
  match i with StartNode nm => names_controller nm = false | _ => True end.

Definition empty_search : Search :=
  {| gic_mem_regions := None; found_node := false; found_msi := None; intc_cells := 0 |}.

Lemma search_quiet l1 l2 o fuel v d : Forall quiet_item l1 → found_node v = false → at_items o (l1 ++ l2) fuel →
  ∃ o' fuel', at_items o' l2 fuel' ∧ search_loop (E:=E) dt fuel o v d = search_loop dt fuel' o' v d.
Proof.
  intros Hq Hv. revert o fuel. induction Hq as [|i l1 Hi _ IH]; intros o fuel Hat; [by exists o, fuel|].
  destruct (at_item _ _ _ _ Hat) as (fuel1 & o1 & -> & Hn & Hat1).
  destruct (IH o1 fuel1 Hat1) as (o' & fuel' & Hat' & Hrun). exists o', fuel'. split; [done|].
  cbn [search_loop]. erewrite bind_run by (apply on_local_Ok; by split). cbv beta iota. rewrite <- Hrun.
  destruct i as [nm| |]; rewrite ?Hv; [|done..]. cbn [quiet_item] in Hi.
  unfold names_controller in Hi. apply orb_false_iff in Hi as [Hi ->]. apply orb_false_iff in Hi as [-> ->]. done.
Qed.

(** The last property of a name *)
Definition last_prop (nm : list Z) (props : list prop) : option (list Z) :=
  last ((λ p, p.1.2) <$> filter (λ p, p.1.1 = nm) props).

(** The effect of the properties of the node *)
Definition prop_effect (v : Search) (p : prop) : option Search :=
  if bool_decide (p.1.1 = bytes_of "reg") then
    Some {| gic_mem_regions := Some (for_data p.1.2); found_node := found_node v; found_msi := found_msi v;
            intc_cells := intc_cells v |}
  else if bool_decide (p.1.1 = bytes_of "#interrupt-cells") then
    cells ← read_u32 p.1.2;
    Some {| gic_mem_regions := gic_mem_regions v; found_node := found_node v; found_msi := found_msi v;
            intc_cells := cells |}
  else Some v.

Lemma search_props props l o fuel v v' d : found_node v = true →
  foldl (λ v p, v ≫= λ v, prop_effect v p) (Some v) props = Some v' → at_items o (prop_items props ++ l) fuel →
  ∃ o' fuel', at_items o' l fuel' ∧ found_node v' = true ∧ found_msi v' = found_msi v ∧
    search_loop (E:=E) dt fuel o v d = search_loop dt fuel' o' v' d.
Proof.
  revert o fuel v. induction props as [|[[nm data] std] props IH]; intros o fuel v Hv Hfold Hat.
  { injection Hfold as <-. by exists o, fuel. }
  destruct (at_item _ _ _ _ Hat) as (fuel1 & o1 & -> & Hn & Hat1). cbn [foldl] in Hfold.
  destruct (prop_effect v (nm, data, std)) as [v1|] eqn:Hp.
  2:{ exfalso. clear -Hfold Hp. cbn [mbind option_bind] in Hfold. rewrite Hp in Hfold.
      induction props as [|p props IH]; [done|]. by apply IH. }
  cbn [mbind option_bind] in Hfold. rewrite Hp in Hfold.
  assert (found_node v1 = true ∧ found_msi v1 = found_msi v) as [Hv1 Hm1].
  { unfold prop_effect in Hp. repeat case_bool_decide; try (destruct (read_u32 _)); by simplify_eq/=. }
  destruct (IH o1 fuel1 v1 Hv1 Hfold Hat1) as (o' & fuel' & Hat' & Hv' & Hm' & Hrun).
  exists o', fuel'. split_and!; [done|done|congruence|]. rewrite <- Hrun. cbn [search_loop].
  erewrite bind_run by (apply on_local_Ok; by split). cbv beta iota. rewrite Hv.
  unfold prop_effect in Hp. cbn [fst snd] in *. case_bool_decide; [simplify_eq; by rewrite Hv|].
  case_bool_decide; [|by simplify_eq]. destruct (read_u32 data) as [c|]; [|done]. cbn in Hp. simplify_eq.
  erewrite bind_run by (by apply lift_Ok). by rewrite Hv.
Qed.

Lemma find_regs_run props l o fuel regs : at_items o (prop_items props ++ EndNode :: l) fuel →
  ∃ o' fuel', at_items o' l fuel' ∧ ∀ E, find_regs_for_node (E:=E) dt fuel regs o =
    Ok (match last_prop (bytes_of "reg") props with Some data => Some (for_data data) | None => regs end) o'.
Proof.
  revert o fuel regs. induction props as [|[[nm data] std] props IH]; intros o fuel regs Hat.
  { destruct (at_item _ _ _ _ Hat) as (fuel1 & o1 & -> & Hn & Hat1). exists o1, fuel1. split; [done|].
    intros E'. cbn [find_regs_for_node]. by erewrite bind_run by apply Hn. }
  destruct (at_item _ _ _ _ Hat) as (fuel1 & o1 & -> & Hn & Hat1).
  destruct (IH o1 fuel1 (if bool_decide (nm = bytes_of "reg") then Some (for_data data) else regs) Hat1)
    as (o' & fuel' & Hat' & Hrun).
  exists o', fuel'. split; [done|]. intros E'. cbn [find_regs_for_node]. erewrite bind_run by apply Hn.
  cbv beta iota. rewrite Hrun. f_equal. unfold last_prop. rewrite filter_cons. cbn [fst snd].
  case_bool_decide; [rewrite decide_True by done|by rewrite decide_False by done].
  rewrite fmap_cons, last_cons. by destruct (last _).
Qed.

(** A child of the controller's node: the frame of the message signaled interrupts, or another *)
Definition child_msi (msi : option V2mMsiController) (c : node) : M D E (option V2mMsiController) :=
  if starts_with (node_name c) (bytes_of "v2m") then
    base ← expect_base (for_data <$> last_prop (bytes_of "reg") (node_props c));
    m ← v2m_init base.1; mret (Some m)
  else mret msi.

Fixpoint children_msi (msi : option V2mMsiController) (cs : list node) : M D E (option V2mMsiController) :=
  match cs with
  | [] => mret msi
  | c :: cs' => m ← child_msi msi c; children_msi m cs'
  end.

Definition child_ok (c : node) : Prop :=
  node_children c = [] ∧ starts_with (node_name c) (bytes_of "intc") = false ∧
  starts_with (node_name c) (bytes_of "its") = false.

Definition set_msi (v : Search) (m : option V2mMsiController) : Search :=
  {| gic_mem_regions := gic_mem_regions v; found_node := found_node v; found_msi := m; intc_cells := intc_cells v |}.

Lemma skip_leaf props l o fuel : at_items o (prop_items props ++ EndNode :: l) fuel →
  ∃ o' fuel', at_items o' l fuel' ∧ ∀ E, skip_to_end (E:=E) dt fuel o = Ok tt o'.
Proof.
  revert o fuel. induction props as [|p props IH]; intros o fuel Hat;
    destruct (at_item _ _ _ _ Hat) as (fuel1 & o1 & -> & Hn & Hat1).
  - exists o1, fuel1. split; [done|]. intros E'. cbn [skip_to_end]. by erewrite bind_run by apply Hn.
  - destruct (IH o1 fuel1 Hat1) as (o' & fuel' & Hat' & Hrun). exists o', fuel'. split; [done|].
    intros E'. cbn [skip_to_end]. by erewrite bind_run by apply Hn.
Qed.

Lemma search_children cs l o fuel v d : Forall child_ok cs → found_node v = true →
  at_items o (forest_items cs ++ EndNode :: l) fuel →
  search_loop (E:=E) dt fuel o v d = (m ← children_msi (found_msi v) cs; mret (set_msi v m)) d.
Proof.
  intros Hcs. revert o fuel v d. induction Hcs as [|[nm ps cs'] cs (Hleaf & Hintc & Hits) _ IH]; intros o fuel v d Hv Hat.
  { destruct (at_item _ _ _ _ Hat) as (fuel1 & o1 & -> & Hn & Hat1). cbn [search_loop children_msi].
    erewrite bind_run by (apply on_local_Ok; by split). cbv beta iota. rewrite Hv. by destruct v. }
  cbn [node_children node_name] in *. subst cs'. unfold forest_items in Hat.
  cbn [map concat node_items app] in Hat. rewrite <- !app_assoc in Hat. cbn [app] in Hat.
  destruct (at_item _ _ _ _ Hat) as (fuel1 & o1 & -> & Hn & Hat1). clear Hat.
  cbn [search_loop children_msi]. erewrite bind_run by (apply on_local_Ok; by split). cbv beta iota.
  rewrite Hintc, Hits. unfold child_msi. cbn [node_name node_props].
  pose proof (at_items_fuel _ _ _ Hat1) as Hatf. pose proof (proj2 (proj2 Hat1)) as Hf1.
  rewrite !length_app in Hf1. cbn [length] in Hf1. rewrite !length_app in Hf1. cbn [length] in Hf1.
  destruct (starts_with nm (bytes_of "v2m")).
  - destruct (find_regs_run ps _ _ _ None Hatf) as (o' & fuel' & Hat' & Hrun).
    erewrite bind_run by (apply on_local_Ok; by split). cbv beta iota.
    replace (match last_prop (bytes_of "reg") ps with Some data => Some (for_data data) | None => None end)
      with (for_data <$> last_prop (bytes_of "reg") ps) by (by destruct (last_prop _ _)).
    rewrite !bind_unfold. destruct (expect_base _ d) as [base d1| |]; [|done..]. rewrite !bind_unfold.
    destruct (v2m_init base.1 d1) as [m d2| |]; [|done..]. cbn [mret M_ret].
    rewrite (IH o' fuel1 _ d2); [by rewrite bind_unfold|done|].
    destruct Hat' as (? & Hr' & _). split_and!; [done|done|]. rewrite length_app. cbn [length]. unfold forest_items. lia.
  - rewrite Hv. destruct (skip_leaf ps _ _ _ Hatf) as (o' & fuel' & Hat' & Hrun).
    erewrite bind_run by (apply on_local_Ok; by split). cbv beta iota.
    rewrite (IH o' fuel1 _ d); [by rewrite !bind_unfold|done|].
    destruct Hat' as (? & Hr' & _). split_and!; [done|done|]. rewrite length_app. cbn [length]. unfold forest_items. lia.
Qed.

Definition cells_readable (p : prop) : Prop :=
  p.1.1 = bytes_of "#interrupt-cells" → is_Some (read_u32 p.1.2).

Lemma last_prop_cons nm p props :
  last_prop nm (p :: props) =
    match last_prop nm props with Some d => Some d | None => if decide (p.1.1 = nm) then Some p.1.2 else None end.
Proof.
  unfold last_prop. rewrite filter_cons. case_decide; [|by destruct (last _)].
  rewrite fmap_cons, last_cons. by destruct (last _).
Qed.

Lemma props_effect props v : Forall cells_readable props →
  foldl (λ v p, v ≫= λ v, prop_effect v p) (Some v) props =
  Some {| gic_mem_regions := match last_prop (bytes_of "reg") props with
            | Some data => Some (for_data data) | None => gic_mem_regions v end;
          found_node := found_node v; found_msi := found_msi v;
          intc_cells := match last_prop (bytes_of "#interrupt-cells") props with
            | Some data => default 0 (read_u32 data) | None => intc_cells v end |}.
Proof.
  intros Hp. revert v. induction Hp as [|p props Hc _ IH]; intros v; [by destruct v|]. cbn [foldl].
  assert (∃ v1, prop_effect v p = Some v1 ∧ v1 =
    {| gic_mem_regions := if decide (p.1.1 = bytes_of "reg") then Some (for_data p.1.2) else gic_mem_regions v;
       found_node := found_node v; found_msi := found_msi v;
       intc_cells := if decide (p.1.1 = bytes_of "#interrupt-cells") then default 0 (read_u32 p.1.2)
                     else intc_cells v |}) as (v1 & Hv1 & Heq).
  { unfold prop_effect. case_bool_decide as H1.
    - eexists. split; [done|]. rewrite (decide_True _ _ H1). f_equal. rewrite decide_False; [done|]. by rewrite H1.
    - rewrite (decide_False _ _ H1). case_bool_decide as H2.
      + destruct (Hc H2) as [cells Hcells]. rewrite Hcells, decide_True by done. by eexists.
      + exists v. split; [done|]. rewrite decide_False by done. by destruct v. }
  cbn [mbind option_bind]. rewrite Hv1, IH, Heq, !last_prop_cons. cbn [gic_mem_regions found_node found_msi intc_cells].
  clear Heq IH Hv1. f_equal. f_equal.
  - destruct (last_prop (bytes_of "reg") props); [done|by case_decide].
  - destruct (last_prop (bytes_of "#interrupt-cells") props); [done|by case_decide].
Qed.

Definition cells_of (props : list prop) : Z :=
  match last_prop (bytes_of "#interrupt-cells") props with
  | Some data => default 0 (read_u32 data)
  | None => 0
  end.

Lemma search_run before n after d : Forall quiet_item before → reads dt 0 (before ++ node_items n ++ after) →
  starts_with (node_name n) (bytes_of "intc") = true → Forall child_ok (node_children n) →
  Forall cells_readable (node_props n) →
  search_loop (E:=E) dt (cursor_fuel dt) 0 empty_search d =
    (m ← children_msi None (node_children n);
     mret {| gic_mem_regions := for_data <$> last_prop (bytes_of "reg") (node_props n); found_node := true;
             found_msi := m; intc_cells := cells_of (node_props n) |}) d.
Proof.
  intros Hq Hr Hname Hch Hcells.
  assert (at_items 0 (before ++ node_items n ++ after) (cursor_fuel dt)) as Hat0.
  { split_and!; [done|done|]. pose proof (reads_count _ _ _ (Z.le_refl 0) Hr). unfold cursor_fuel. lia. }
  destruct (search_quiet before _ _ _ empty_search d Hq eq_refl Hat0) as (o1 & fuel1 & Hat1 & ->).
  destruct n as [name props children]. cbn [node_items node_name node_props node_children app] in *.
  destruct (at_item _ _ _ _ Hat1) as (fuel2 & o2 & -> & Hn & Hat2). cbn [search_loop].
  erewrite bind_run by (apply on_local_Ok; by split). cbv beta iota. rewrite Hname.
  rewrite <- !app_assoc in Hat2. cbn [app] in Hat2.
  pose (v0 := {| gic_mem_regions := None; found_node := true; found_msi := None; intc_cells := 0 |}).
  edestruct (search_props props _ o2 fuel2 v0 _ d eq_refl (props_effect props v0 Hcells) Hat2)
    as (o3 & fuel3 & Hat3 & Hv3 & Hm3 & Hrun).
  cbn [empty_search gic_mem_regions found_msi intc_cells]. etransitivity; [exact Hrun|].
  rewrite (search_children children after o3 fuel3 _ d Hch Hv3 Hat3). cbn [found_msi v0]. apply bind_ext.
  intros m d' _. unfold set_msi, cells_of. cbn. by do 2 f_equal.
Qed.

(** The interrupt controller is found in the device tree: when the blob has a node named
    [intc...] before any other the search looks at, with the regions of the distributor and the
    interface of the processor in its [reg] property, and no grandchildren, then the driver uses
    these two addresses, the number of cells the node says and the last v2m frame among its
    children, and initializes both parts. *)
Theorem gic_found mem addr b before n after da ds ca cs rest d :
  blob_at mem addr b → at_address mem addr = Some dt →
  blob_items b = before ++ node_items n ++ after → Forall quiet_item before →
  starts_with (node_name n) (bytes_of "intc") = true → Forall child_ok (node_children n) →
  Forall cells_readable (node_props n) →
  last_prop (bytes_of "reg") (node_props n) =
    Some ((u64_bytes da ++ u64_bytes ds) ++ (u64_bytes ca ++ u64_bytes cs) ++ rest) →
  region_listed (da, ds) → region_listed (ca, cs) → da + CANONICAL < U64 → ca + CANONICAL < U64 →
  in_device_tree dt d =
    (m ← children_msi None (node_children n);
     let s := {| distributor_base := da + CANONICAL; cpu_base := ca + CANONICAL; msi_ctrl := m;
                 dt_interrupt_cells := cells_of (node_props n) |} in
     init_distributor s;; init_cpu_interface s;; mret (Some s)) d.
Proof.
  intros Hb Hdt Hitems Hq Hname Hch Hcells Hreg (Hda & Hds & Hnz1) (Hca & Hcs & Hnz2) Hd64 Hc64. cbn [fst snd] in *.
  destruct (at_address_run mem addr b Hb) as (dt' & Hat & _ & Hs & Hst & _). rewrite Hdt in Hat. injection Hat as <-.
  pose proof (blob_reads _ _ _ _ Hb Hs Hst) as Hr. rewrite Hitems in Hr.
  unfold in_device_tree. fold empty_search. rewrite bind_unfold, (search_run before n after) by done.
  rewrite !bind_unfold. destruct (children_msi None (node_children n) d) as [m d1| |]; [|done..].
  cbn [mret M_ret found_node gic_mem_regions found_msi intc_cells]. rewrite Hreg. cbn [fmap option_fmap option_map].
  unfold for_data.
  assert (∀ a s : Z, a ≠ 0 ∨ s ≠ 0 → (a =? 0) && (s =? 0) = false) as Hz.
  { intros a s ?. destruct (Z.eqb_spec a 0), (Z.eqb_spec s 0); try done. lia. }
  set (data := (u64_bytes da ++ u64_bytes ds) ++ (u64_bytes ca ++ u64_bytes cs) ++ rest).
  pose proof (next_region_at (E:=E) [] da ds ((u64_bytes ca ++ u64_bytes cs) ++ rest) 0 eq_refl ltac:(lia) Hda Hds) as H1.
  pose proof (next_region_at (E:=E) (u64_bytes da ++ u64_bytes ds) ca cs rest 16 eq_refl ltac:(lia) Hca Hcs) as H2.
  cbn [app] in H1. cbv zeta in H1, H2. fold data in H1, H2. rewrite Hz in H1, H2 by done.
  erewrite bind_run by (apply on_local_Ok; split; [exact H1|done]). cbv beta iota.
  rewrite bind_unfold. cbn [lift mret M_ret].
  erewrite bind_run by (apply on_local_Ok; split; [exact H2|done]). cbv beta iota.
  rewrite bind_unfold. cbn [lift mret M_ret fst].
  erewrite bind_run by (apply lift_Ok; split; [apply uadd_ok; lia|done]).
  by erewrite bind_run by (apply lift_Ok; split; [apply uadd_ok; lia|done]).
Qed.
End search.

(** *** A controller *)

Record demo_gic := {
  dflag : flag_kind → Z → bool;
  dbyte : byte_kind → Z → Z;
  dedge : Z → bool;
}.

Definition demo_dist : Z := 0x8000000 + CANONICAL.
Definition demo_cpu : Z := 0x8010000 + CANONICAL.

Inductive demo_reg := RSet (k : flag_kind) (n : Z) | RClear (k : flag_kind) (n : Z) | RByte (k : byte_kind) (n : Z)
  | RCfg (n : Z) | RDir | ROther.

Definition decode (a : Z) : demo_reg :=
  let w := (a - demo_dist) / 4 in
  if a =? demo_cpu + 4 * cpu_regs.DIR then RDir
  else if w <? 64 then ROther
  else if w <? 96 then RSet Enabled (w - 64) else if w <? 128 then RClear Enabled (w - 96)
  else if w <? 160 then RSet Pending (w - 128) else if w <? 192 then RClear Pending (w - 160)
  else if w <? 224 then RSet Active (w - 192) else if w <? 256 then RClear Active (w - 224)
  else if w <? 512 then RByte Priority (w - 256) else if w <? 768 then RByte Target (w - 512)
  else if w <? 832 then RCfg (w - 768) else ROther.

Fixpoint bits_word (n : nat) (f : Z → bool) : Z :=
  match n with
  | O => 0
  | S n' => if f (Z.of_nat n') then Z.setbit (bits_word n' f) (Z.of_nat n') else bits_word n' f
  end.

Lemma bits_word_bit n f i : 0 ≤ i → Z.testbit (bits_word n f) i = (i <? Z.of_nat n) && f i.
Proof.
  intros Hi. induction n as [|n IH].
  - rewrite Z.testbit_0_l. by rewrite (proj2 (Z.ltb_ge _ _)) by lia.
  - cbn [bits_word]. destruct (f (Z.of_nat n)) eqn:Hf.
    + rewrite Z.setbit_eqb, IH by lia. destruct (Z.eqb_spec (Z.of_nat n) i) as [<-|].
      * rewrite Hf. cbn [orb]. by rewrite (proj2 (Z.ltb_lt _ _)) by lia.
      * cbn [orb]. destruct (Z.ltb_spec i (Z.of_nat n)), (Z.ltb_spec i (Z.of_nat (S n))); try done; lia.
    + rewrite IH. destruct (Z.eqb_spec (Z.of_nat n) i) as [<-|]; [by rewrite Hf, !andb_false_r|].
      destruct (Z.ltb_spec i (Z.of_nat n)), (Z.ltb_spec i (Z.of_nat (S n))); try done; lia.
Qed.

Lemma bits_word_u32 f : 0 ≤ bits_word 32 f < 2 ^ 32.
Proof.
  apply bits_bound; [lia|]. intros i Hi. rewrite bits_word_bit by lia. by rewrite (proj2 (Z.ltb_ge _ _)) by lia.
Qed.

Definition demo_byte (d : demo_gic) (k : byte_kind) (id : Z) : Z := dbyte d k id mod 256.

Definition demo_read (a : Z) (d : demo_gic) : Z :=
  match decode a with
  | RSet k n | RClear k n => bits_word 32 (λ i, dflag d k (32 * n + i))
  | RByte k n => demo_byte d k (4 * n) + 256 * demo_byte d k (4 * n + 1) + 65536 * demo_byte d k (4 * n + 2)
                 + 16777216 * demo_byte d k (4 * n + 3)
  | RCfg n => bits_word 32 (λ j, Z.odd j && dedge d (16 * n + j / 2))
  | RDir | ROther => 0
  end.

Definition demo_write (a v : Z) (d : demo_gic) : demo_gic :=
  match decode a with
  | RSet k n => {| dflag k' id := dflag d k' id || bool_decide (k' = k ∧ id / 32 = n) && Z.testbit v (id mod 32);
                   dbyte := dbyte d; dedge := dedge d |}
  | RClear k n => {| dflag k' id := dflag d k' id && negb (bool_decide (k' = k ∧ id / 32 = n) && Z.testbit v (id mod 32));
                     dbyte := dbyte d; dedge := dedge d |}
  | RByte k n => {| dflag := dflag d;
                    dbyte k' id := if bool_decide (k' = k ∧ id / 4 = n) then Z.shiftr v (id mod 4 * 8) else dbyte d k' id;
                    dedge := dedge d |}
  | RCfg n => {| dflag := dflag d; dbyte := dbyte d;
                 dedge id := if bool_decide (id / 16 = n) then Z.testbit v (2 * (id mod 16) + 1) else dedge d id |}
  | RDir => {| dflag k' id := if bool_decide ((k', id) = (Active, v)) then false else dflag d k' id;
               dbyte := dbyte d; dedge := dedge d |}
  | ROther => d
  end.

#[local] Instance demo_mmio : Mmio demo_gic := {
  mmio_read a d := (demo_read a d, d);
  mmio_write := demo_write;
}.

Lemma decode_word w : 0 ≤ w < 0x4000 → decode (demo_dist + 4 * w) =
  if w <? 64 then ROther
  else if w <? 96 then RSet Enabled (w - 64) else if w <? 128 then RClear Enabled (w - 96)
  else if w <? 160 then RSet Pending (w - 128) else if w <? 192 then RClear Pending (w - 160)
  else if w <? 224 then RSet Active (w - 192) else if w <? 256 then RClear Active (w - 224)
  else if w <? 512 then RByte Priority (w - 256) else if w <? 768 then RByte Target (w - 512)
  else if w <? 832 then RCfg (w - 768) else ROther.
Proof.
  intros Hw. unfold decode. replace ((demo_dist + 4 * w - demo_dist) / 4) with w by dlia.
  rewrite (proj2 (Z.eqb_neq _ _)); [done|]. change cpu_regs.DIR with 1024. unfold demo_dist, demo_cpu. lia.
Qed.

Ltac pick := repeat first [rewrite (proj2 (Z.ltb_lt _ _)) by lia | rewrite (proj2 (Z.ltb_ge _ _)) by lia].

Lemma decode_set k n : 0 ≤ n < 32 → decode (demo_dist + 4 * (set_reg k + n)) = RSet k n.
Proof.
  intros Hn. destruct k; [change (set_reg _) with 64|change (set_reg _) with 128|change (set_reg _) with 192]; rewrite decode_word by lia;
    pick; f_equal; lia.
Qed.
Lemma decode_clear k n : 0 ≤ n < 32 → decode (demo_dist + 4 * (clear_reg k + n)) = RClear k n.
Proof.
  intros Hn. destruct k; [change (clear_reg _) with 96|change (clear_reg _) with 160|change (clear_reg _) with 224]; rewrite decode_word by lia;
    pick; f_equal; lia.
Qed.
Lemma decode_byte k n : 0 ≤ n < 256 → decode (demo_dist + 4 * (byte_reg k + n)) = RByte k n.
Proof.
  intros Hn. destruct k; [change (byte_reg _) with 256|change (byte_reg _) with 512]; rewrite decode_word by lia;
    pick; f_equal; lia.
Qed.
Lemma decode_cfg n : 0 ≤ n < 64 → decode (demo_dist + 4 * (dist_regs.ICFGR_N + n)) = RCfg n.
Proof.
  intros Hn. change dist_regs.ICFGR_N with 768. rewrite decode_word by lia. pick. f_equal. lia.
Qed.
Lemma decode_eoir : decode (demo_cpu + 4 * cpu_regs.EOIR) = ROther.
Proof. vm_compute. reflexivity. Qed.
Lemma decode_dir : decode (demo_cpu + 4 * cpu_regs.DIR) = RDir.
Proof. vm_compute. reflexivity. Qed.

Lemma masked_255 a b : 0 ≤ a < 256 → Z.lor (Z.ldiff a 255) (Z.land (b mod 256) 255) = b mod 256.
Proof.
  intros Ha. change 255 with (Z.ones 8). rewrite Z.ldiff_ones_r, Z.land_ones by lia.
  rewrite Z.shiftr_div_pow2, Z.div_small by (cbn; lia). rewrite Z.shiftl_0_l, Z.lor_0_l. apply Z.mod_mod. done.
Qed.

#[local] Program Instance demo_hardware : GicHardware demo_gic demo_dist demo_cpu := {|
  flag := dflag;
  byte := demo_byte;
  edge := dedge;
  stuck _ _ _ := false;
  writable _ _ _ := 255;
  edge_fixed _ _ := false;
|}.
Next Obligation. intros. unfold demo_byte. dlia. Qed.
Next Obligation.
  intros d k n Hn. eexists. split; [done|]. intros i Hi. unfold demo_read. rewrite decode_set by done.
  rewrite bits_word_bit by lia. by rewrite (proj2 (Z.ltb_lt _ _)) by lia.
Qed.
Next Obligation.
  intros d k n v Hn Hv. cbn. unfold demo_write. rewrite decode_set by done. split_and!; [|done|done].
  intros k' id _. cbn. do 2 f_equal. apply bool_decide_ext. naive_solver.
Qed.
Next Obligation.
  intros d k n v Hn Hv. cbn. unfold demo_write. rewrite decode_clear by done. split_and!; [|done|done].
  intros k' id _. cbn. do 3 f_equal. apply bool_decide_ext. naive_solver.
Qed.
Next Obligation.
  intros d k n Hn. eexists. split; [done|]. unfold demo_read. rewrite decode_byte by done. unfold demo_byte.
  split; [dlia|]. intros i Hi.
  assert (i = 0 ∨ i = 1 ∨ i = 2 ∨ i = 3) as [->|[->|[->| ->]]] by lia; rewrite Z.shiftr_div_pow2 by lia; cbn [Z.mul Z.pow
    Z.pow_pos Pos.iter Pos.mul]; rewrite ?Z.add_0_r; dlia.
Qed.
Next Obligation.
  intros d k n v Hn Hv. cbn. unfold demo_write. rewrite decode_byte by done. split_and!; [|done|done].
  intros k' id _. unfold demo_byte. cbn. case_bool_decide as H1; [|done]. by rewrite masked_255 by dlia.
Qed.
Next Obligation.
  intros d n Hn. eexists. split; [done|]. unfold demo_read. rewrite decode_cfg by done.
  split; [apply bits_word_u32|]. intros i Hi. rewrite bits_word_bit by lia.
  rewrite (proj2 (Z.ltb_lt _ _)) by lia. rewrite Z.add_comm, Z.odd_add_mul_2. cbn. f_equal. dlia.
Qed.
Next Obligation.
  intros d n v Hn Hv. cbn. unfold demo_write. rewrite decode_cfg by done. split_and!; [|done..].
  intros id _. cbn. by repeat case_bool_decide; naive_solver.
Qed.
Next Obligation. intros d id Hid. cbn. unfold demo_write. by rewrite decode_eoir. Qed.
Next Obligation. intros d id Hid. cbn. unfold demo_write. rewrite decode_dir. done. Qed.

#[local] Existing Instance concrete_bit_field.
#[local] Existing Instance concrete_big_endian.

Program Definition concrete_bit_vec : BitVec := {|
  bv_get := Z.testbit;
  bv_set w i b := if b then Z.setbit w i else Z.clearbit w i;
|}.
Next Obligation. done. Qed.
Next Obligation.
  intros w i [] j Hi Hj; cbn.
  - rewrite Z.setbit_eqb by lia. by destruct (i =? j).
  - rewrite Z.clearbit_eqb. destruct (i =? j); [by rewrite andb_false_r|by rewrite andb_true_r].
Qed.
Next Obligation.
  intros w i b Hi Hw. apply bits_bound; [lia|]. intros j Hj.
  assert (Z.testbit w j = false) as Hwj.
  { destruct (decide (w = 0)) as [->|]; [apply Z.testbit_0_l|]. apply Z.bits_above_log2; [lia|].
    apply Z.log2_lt_pow2; [lia|]. apply Z.lt_le_trans with (2 ^ 32); [lia|]. apply Z.pow_le_mono_r; lia. }
  destruct b; [rewrite Z.setbit_eqb, Hwj by lia|rewrite Z.clearbit_eqb, Hwj by lia; done].
  by rewrite (proj2 (Z.eqb_neq i j)) by lia.
Qed.
#[local] Existing Instance concrete_bit_vec.

Definition demo_controller : GenericInterruptController :=
  {| distributor_base := demo_dist; cpu_base := demo_cpu; msi_ctrl := None; dt_interrupt_cells := 3 |}.
#[local] Instance demo_controller_hardware :
  GicHardware demo_gic (distributor_base demo_controller) (cpu_base demo_controller) := demo_hardware.

Definition demo_device : demo_gic := {| dflag _ _ := false; dbyte _ _ := 0x80; dedge _ := false |}.

(** Enabling the interrupt of the timer *)
Lemma gic_flags_exact_witness : ∃ d', set_enable demo_controller 30 true demo_device = Ok (E:=unit) tt d' ∧
  flag d' Enabled 30 = true ∧ flag d' Enabled 31 = false.
Proof.
  destruct (gic_flags_exact (E:=unit) demo_controller 30 true demo_device ltac:(done))
    as (_ & _ & _ & (d' & Hrun & Hf & _) & _).
  exists d'. split; [done|]. split; (rewrite Hf; [vm_compute; reflexivity|done]).
Defined.

(** A priority of [0x80] cannot be lowered to [0x10]. *)
Lemma gic_bytes_accumulate_witness : ∃ d', set_priority demo_controller 30 0x10 demo_device = Ok (E:=unit) tt d' ∧
  byte d' Priority 30 = 0x90.
Proof.
  destruct (gic_bytes_accumulate (E:=unit) demo_controller 30 0x10 demo_device ltac:(done) ltac:(done))
    as (_ & _ & (d' & Hrun & Hb & _) & _).
  exists d'. split; [done|]. rewrite Hb; [vm_compute; reflexivity|done].
Defined.

(** Interrupt 30 set to edge: it is 23 that changes. *)
Lemma gic_config_misplaced_witness : ∃ d', set_config demo_controller 30 Edge demo_device = Ok (E:=unit) tt d' ∧
  edge d' 30 = false ∧ edge d' 23 = true.
Proof.
  destruct (gic_config_misplaced (E:=unit) demo_controller 30 Edge demo_device ltac:(done))
    as (_ & _ & d' & Hrun & He & _).
  exists d'. split; [done|]. split; (rewrite He; [vm_compute; reflexivity|done]).
Defined.

(** A frame with two interrupts hands out three. *)
Lemma msi_allocation_witness :
  let c := {| v2m_register_addr := 0x8020040; spi_start := 80; num_spis := 2; next_spi := 80 |} in
  (∃ l c', alloc_many 3 c = Ok (E:=unit) l c' ∧ intid <$> l = [80; 81; 82]) ∧
  alloc_many 4 c = Stop (S:=V2mMsiController) (E:=unit) Panic.
Proof.
  intros c. split.
  - eexists _, _. split; [apply (msi_allocation c 3); done|]. reflexivity.
  - rewrite (msi_allocation c 4) by done. reflexivity.
Defined.

(** [/ { intc { reg = <the two regions>; #interrupt-cells = <3>; v2m { reg } } }] *)
Definition gic_blob : blob :=
  let region a := u64_bytes a ++ u64_bytes 0x10000 in
  {| b_total := 400; b_off_struct := 40; b_off_strings := 320; b_off_rsvmap := 300; b_version := 17; b_last_comp := 16;
     b_boot_cpu := 0;
     b_pieces := [PBegin []; PBegin (bytes_of "intc@8000000"); PProp 0 (region 0x8000000 ++ region 0x8010000);
                  PProp 4 (u32_bytes 3); PBegin (bytes_of "v2m@8020000"); PProp 0 (region 0x8020000); PEnd; PEnd; PEnd];
     b_strings := bytes_of "reg" ++ [0] ++ bytes_of "#interrupt-cells" ++ [0];
     b_regions := [] |}.

Definition gic_node : node :=
  let region a := u64_bytes a ++ u64_bytes 0x10000 in
  Node (bytes_of "intc@8000000")
    [(bytes_of "reg", region 0x8000000 ++ region 0x8010000, None); (bytes_of "#interrupt-cells", u32_bytes 3, None)]
    [Node (bytes_of "v2m@8020000") [(bytes_of "reg", region 0x8020000, None)] []].

Lemma gic_blob_at : blob_at (blob_mem gic_blob 4096) 4096 gic_blob.
Proof. unfold gic_blob. check_blob. Qed.

Lemma gic_found_witness : ∃ dt d' g, at_address (blob_mem gic_blob 4096) 4096 = Some dt ∧
  in_device_tree dt demo_device = Ok (E:=unit) (Some g) d' ∧
  distributor_base g = demo_dist ∧ cpu_base g = demo_cpu ∧ dt_interrupt_cells g = 3 ∧ msi_supported g = true.
Proof.
  destruct (at_address_run _ _ _ gic_blob_at) as (dt & Hat & _).
  assert (in_device_tree dt demo_device =
    (m ← children_msi None (node_children gic_node);
     let s := {| distributor_base := 0x8000000 + CANONICAL; cpu_base := 0x8010000 + CANONICAL; msi_ctrl := m;
                 dt_interrupt_cells := cells_of (node_props gic_node) |} in
     init_distributor s;; init_cpu_interface s;; mret (Some s)) demo_device :> res demo_gic unit _) as Hrun.
  { apply (gic_found dt (blob_mem gic_blob 4096) 4096 gic_blob [StartNode []] gic_node [EndNode] 0x8000000 0x10000
      0x8010000 0x10000 [] demo_device gic_blob_at Hat); try done.
    all: repeat (apply Forall_cons; split); try apply Forall_nil_2; try done.
    all: try (vm_compute; eauto; done).
    all: repeat split; try done; by left. }
  eexists dt, _, _. split; [done|]. split; [rewrite Hrun; vm_compute; reflexivity|]. split_and!; vm_compute; reflexivity.
Defined.
