(* ===== verification/Executor.v ===== *)
(** The executor of the kernel's tasks ([kernel/src/tasks/mod.rs]): [spawn], the wakers, the loop
    of the executor's thread, and [block_on].

    The executor's thread, other threads and interrupt handlers interleave at the operations on
    the two queues and the counter; a step below is one of these.  What a future does while it is
    polled, waking and spawning tasks, are the same steps as those of the other threads. *)
From stdpp Require Import base list gmap fin_maps relations.
From S2P Require Import Prelude.

(** [crossbeam]'s bounded concurrent queue: first in, first out; [push] hands the value back
    when the queue is full. *)
Class ArrayQueue (Q : Type → Type) := {
  aq_new {A} : nat → Q A;
  aq_push {A} : A → Q A → option (Q A);
  aq_pop {A} : Q A → option (A * Q A);
  aq_contents {A} : Q A → list A;
  aq_capacity {A} : Q A → nat;
  aq_new_law {A} n : aq_contents (@aq_new A n) = [] ∧ aq_capacity (@aq_new A n) = n;
  aq_push_law {A} (x : A) q :
    match aq_push x q with
    | None => (aq_capacity q ≤ length (aq_contents q))%nat
    | Some q' => (length (aq_contents q) < aq_capacity q)%nat ∧ aq_contents q' = aq_contents q ++ [x] ∧
        aq_capacity q' = aq_capacity q
    end;
  aq_pop_law {A} (q : Q A) :
    match aq_pop q with
    | None => aq_contents q = []
    | Some (x, q') => aq_contents q = x :: aq_contents q' ∧ aq_capacity q' = aq_capacity q
    end;
}.

(** Where the executor's thread is in [run_forever] *)
Inductive exec_pc :=
  | TakeNew                  (* [while let Some(..) = self.new_task_queue.pop()] *)
  | PushReady (id : Z)       (* the task is in the map, its id not yet in the ready queue *)
  | TakeReady                (* [while let Some(task_id) = self.ready_queue.pop()] *)
  | Polling (id : Z).        (* inside of [poll] *)
#[export] Instance exec_pc_eq : EqDecision exec_pc.
Proof. solve_decision. Defined.

(** Steps: of the executor ([E...]) and of anyone ([X...]) *)
Inductive exec_label (T : Type) :=
  | ENew (id : Z)
  | EPush (id : Z)
  | ENoNew
  | EPop (id : Z)
  | ENoReady
  | EReady (id : Z)                (* [Poll::Ready(())] *)
  | EPending (id : Z) (t : T)      (* [Poll::Pending]; the future has moved on to [t] *)
  | XWake (id : Z)                 (* [TaskWaker::wake_task] *)
  | XAlloc (t : T)                 (* [spawn], the id *)
  | XPush (id : Z).                (* [spawn], the queue *)
Arguments ENew {T}. Arguments EPush {T}. Arguments ENoNew {T}. Arguments EPop {T}. Arguments ENoReady {T}.
Arguments EReady {T}. Arguments EPending {T}. Arguments XWake {T}. Arguments XAlloc {T}. Arguments XPush {T}.

Inductive outcome (A : Type) :=
  | Next (a : A)
  | Panics.
Arguments Next {A}. Arguments Panics {A}.

Section executor.
Context {Q : Type → Type} `{AQ : ArrayQueue Q} {T : Type}.

(** [Executor], and the variables of [run_forever]; [in_flight] are the calls of [spawn] between
    their two steps. *)
Record Executor := {
  ready_queue : Q Z;
  new_task_queue : Q (Z * T);
  next_task_id : Z;
  tasks : gmap Z T;
  waker_cache : gset Z;
  at_pc : exec_pc;
  in_flight : list (Z * T);
}.

Definition default_executor : Executor :=
  {| ready_queue := aq_new 128; new_task_queue := aq_new 32; next_task_id := 1; tasks := ∅; waker_cache := ∅;
     at_pc := TakeNew; in_flight := [] |}.

Definition with_ready (s : Executor) (q : Q Z) (pc : exec_pc) : Executor :=
  {| ready_queue := q; new_task_queue := new_task_queue s; next_task_id := next_task_id s; tasks := tasks s;
     waker_cache := waker_cache s; at_pc := pc; in_flight := in_flight s |}.
Definition with_pc (s : Executor) (pc : exec_pc) : Executor := with_ready s (ready_queue s) pc.

(** [TaskWaker::wake_task], and the push in [run_forever]: both [expect] the queue to have room. *)
Definition push_ready (s : Executor) (id : Z) (pc : exec_pc) : outcome Executor :=
  match aq_push id (ready_queue s) with
  | Some q => Next (with_ready s q pc)
  | None => Panics
  end.

(** The first call of [spawn] in flight with this id, and the others *)
Fixpoint take_flight (id : Z) (l : list (Z * T)) : option (T * list (Z * T)) :=
  match l with
  | [] => None
  | (i, t) :: l' => if i =? id then Some (t, l') else '(u, rest) ← take_flight id l'; Some (u, (i, t) :: rest)
  end.

(** One step; [None] when it is not the step that comes next. *)
Definition exec_step (l : exec_label T) (s : Executor) : option (outcome Executor) :=
  match l with
  | ENew id =>
      match at_pc s, aq_pop (new_task_queue s) with
      | TakeNew, Some ((i, t), q) =>
          if i =? id then
            Some (Next {| ready_queue := ready_queue s; new_task_queue := q; next_task_id := next_task_id s;
                          tasks := <[id := t]> (tasks s); waker_cache := waker_cache s; at_pc := PushReady id;
                          in_flight := in_flight s |})
          else None
      | _, _ => None
      end
  | EPush id => if decide (at_pc s = PushReady id) then Some (push_ready s id TakeNew) else None
  | ENoNew =>
      match at_pc s, aq_pop (new_task_queue s) with
      | TakeNew, None => Some (Next (with_pc s TakeReady))
      | _, _ => None
      end
  | EPop id =>
      match at_pc s, aq_pop (ready_queue s) with
      | TakeReady, Some (i, q) =>
          if i =? id then
            match tasks s !! id with
            | None => Some (Next (with_ready s q TakeReady))
            | Some _ =>
                Some (Next {| ready_queue := q; new_task_queue := new_task_queue s; next_task_id := next_task_id s;
                              tasks := tasks s; waker_cache := {[id]} ∪ waker_cache s; at_pc := Polling id;
                              in_flight := in_flight s |})
            end
          else None
      | _, _ => None
      end
  | ENoReady =>
      match at_pc s, aq_pop (ready_queue s) with
      | TakeReady, None => Some (Next (with_pc s TakeNew))
      | _, _ => None
      end
  | EReady id =>
      if decide (at_pc s = Polling id) then
        Some (Next {| ready_queue := ready_queue s; new_task_queue := new_task_queue s;
                      next_task_id := next_task_id s; tasks := delete id (tasks s);
                      waker_cache := waker_cache s ∖ {[id]}; at_pc := TakeReady; in_flight := in_flight s |})
      else None
  | EPending id t =>
      if decide (at_pc s = Polling id) then
        Some (Next {| ready_queue := ready_queue s; new_task_queue := new_task_queue s;
                      next_task_id := next_task_id s; tasks := <[id := t]> (tasks s);
                      waker_cache := waker_cache s; at_pc := TakeReady; in_flight := in_flight s |})
      else None
  | XWake id => Some (push_ready s id (at_pc s))
  | XAlloc t =>
      (* [fetch_add] on an [AtomicU32] wraps *)
      Some (Next {| ready_queue := ready_queue s; new_task_queue := new_task_queue s;
                    next_task_id := (next_task_id s + 1) mod 2 ^ 32; tasks := tasks s;
                    waker_cache := waker_cache s; at_pc := at_pc s;
                    in_flight := in_flight s ++ [(next_task_id s, t)] |})
  | XPush id =>
      match take_flight id (in_flight s) with
      | None => None
      | Some (t, rest) =>
          Some (match aq_push (id, t) (new_task_queue s) with
                | Some q =>
                    Next {| ready_queue := ready_queue s; new_task_queue := q; next_task_id := next_task_id s;
                            tasks := tasks s; waker_cache := waker_cache s; at_pc := at_pc s; in_flight := rest |}
                | None => Panics
                end)
      end
  end.

(** A run of steps that does not panic *)
Fixpoint exec_run (ls : list (exec_label T)) (s : Executor) : option Executor :=
  match ls with
  | [] => Some s
  | l :: ls' => match exec_step l s with Some (Next s') => exec_run ls' s' | _ => None end
  end.
End executor.
Arguments Executor : clear implicits.

(** *** [block_on] *)

(** [block_on] polls a future, here one that waits for an event, with a waker that clears
    [signal].  The event may occur, and wake, between any two steps. *)
Inductive block_pc :=
  | BPoll          (* [task.as_mut().poll(&mut context)] *)
  | BStore         (* [signal.store(true)] after [Poll::Pending] *)
  | BSpin          (* [while signal.load() { spin_loop() }] *)
  | BDone.         (* returned *)

Record Blocking := {
  signal : bool;
  occurred : bool;         (* the future is ready *)
  registered : bool;       (* a poll has left the waker *)
  block_at : block_pc;
}.

Definition start_blocking : Blocking :=
  {| signal := false; occurred := false; registered := false; block_at := BPoll |}.

(** The thread in [block_on] *)
Definition block_step (s : Blocking) : Blocking :=
  match block_at s with
  | BPoll =>
      if occurred s then {| signal := signal s; occurred := true; registered := registered s; block_at := BDone |}
      else {| signal := signal s; occurred := false; registered := true; block_at := BStore |}
  | BStore => {| signal := true; occurred := occurred s; registered := registered s; block_at := BSpin |}
  | BSpin => if signal s then s
             else {| signal := false; occurred := occurred s; registered := registered s; block_at := BPoll |}
  | BDone => s
  end.

(** The event: the future becomes ready, and wakes if it was polled ([BlockingWaiter::wake]). *)
Definition occur (s : Blocking) : Blocking :=
  {| signal := if registered s then false else signal s; occurred := true; registered := false; block_at := block_at s |}.
