(* ===== verification/ExecutorSpec.v ===== *)
(** The executor neither loses a task nor a wake-up, and polls what is woken, but a task that keeps
    waking itself starves those that are only spawned; its ready queue
    overflows when tasks are woken more often than they are polled; [block_on] can miss a wake-up. *)
From stdpp Require Import base list list_numbers gmap fin_maps fin_map_dom sets.
From S2P Require Import Prelude Executor.

(** *** Invariant *)

Section invariant.
Context {Q : Type → Type} `{AQ : ArrayQueue Q} {T : Type}.
Implicit Types (s : Executor Q T) (l : exec_label T) (ls : list (exec_label T)).

Definition ready s : list Z := aq_contents (ready_queue s).
Definition fresh s : list (Z * T) := aq_contents (new_task_queue s).

(** How many tasks were spawned, and which have finished *)
Definition allocs ls : nat := sum_list_with (λ l, match l with XAlloc _ => 1 | _ => 0 end)%nat ls.
Definition finished ls : list Z := omap (λ l, match l with EReady id => Some id | _ => None end) ls.

(** Tasks that were added or woken, and not taken out of the ready queue since *)
Definition due_step (d : gset Z) l : gset Z :=
  match l with
  | ENew id | XWake id => {[id]} ∪ d
  | EPop id => d ∖ {[id]}
  | _ => d
  end.
Definition due ls : gset Z := foldl due_step ∅ ls.

Record exec_inv ls s : Prop := {
  ei_places : Permutation ((in_flight s).*1 ++ (fresh s).*1 ++ elements (dom (tasks s)) ++ finished ls)
    (seqZ 1 (Z.of_nat (allocs ls)));
  ei_next : next_task_id s = (1 + Z.of_nat (allocs ls)) mod 2 ^ 32;
  ei_due id : id ∈ due ls → id ∈ ready s ∨ at_pc s = PushReady id;
  ei_live id : at_pc s = Polling id ∨ at_pc s = PushReady id → id ∈ dom (tasks s);
  ei_wakers : waker_cache s ⊆ dom (tasks s);
  ei_capacity : aq_capacity (ready_queue s) = 128%nat;
  ei_capacity_new : aq_capacity (new_task_queue s) = 32%nat;
}.

Lemma allocs_snoc ls l :
  allocs (ls ++ [l]) = (allocs ls + match l with XAlloc _ => 1 | _ => 0 end)%nat.
Proof. unfold allocs. rewrite sum_list_with_app. cbn. lia. Qed.

Lemma due_snoc ls l : due (ls ++ [l]) = due_step (due ls) l.
Proof. unfold due. by rewrite foldl_app. Qed.

Lemma finished_snoc ls l :
  finished (ls ++ [l]) = finished ls ++ match l with EReady id => [id] | _ => [] end.
Proof. unfold finished. rewrite omap_app. f_equal. by destruct l. Qed.

Lemma push_ready_Next s id pc s' : push_ready s id pc = Next s' →
  (length (ready s) < aq_capacity (ready_queue s))%nat ∧ ready s' = ready s ++ [id] ∧
  aq_capacity (ready_queue s') = aq_capacity (ready_queue s) ∧ at_pc s' = pc ∧
  new_task_queue s' = new_task_queue s ∧ tasks s' = tasks s ∧ waker_cache s' = waker_cache s ∧
  next_task_id s' = next_task_id s ∧ in_flight s' = in_flight s.
Proof.
  unfold push_ready. pose proof (aq_push_law id (ready_queue s)) as Hl.
  destruct (aq_push id (ready_queue s)) as [q|]; [|done]. intros [= <-]. naive_solver.
Qed.

Lemma take_flight_perm id (l : list (Z * T)) t rest : take_flight id l = Some (t, rest) →
  Permutation l.*1 (id :: rest.*1).
Proof.
  revert rest. induction l as [|[i u] l IH]; intros rest; [done|]. cbn [take_flight].
  destruct (Z.eqb_spec i id) as [->|Hne]; [by intros [= -> ->]|].
  destruct (take_flight id l) as [[u' rest']|]; [|done]. cbn. intros [= <- <-]. cbn.
  rewrite (IH rest' eq_refl). constructor.
Qed.

Lemma exec_inv_init : exec_inv [] default_executor.
Proof.
  split; cbn; try done.
  - destruct (@aq_new_law Q AQ (Z * T) 32) as [H _]. unfold fresh. cbn. rewrite H. by rewrite dom_empty_L, elements_empty.
  - intros id. naive_solver.
  - apply aq_new_law.
  - apply aq_new_law.
Qed.

Ltac inv_goals :=
  split; cbn; rewrite ?allocs_snoc, ?due_snoc, ?finished_snoc, ?Nat.add_0_r, ?app_nil_r; try done.

Lemma inv_new ls s id s' : exec_inv ls s → exec_step (ENew id) s = Some (Next s') → exec_inv (ls ++ [ENew id]) s'.
Proof.
  intros [Hp Hn Hd Hl Hw Hc Hcn] Hstep. cbn [exec_step] in Hstep.
  pose proof (aq_pop_law (new_task_queue s)) as Hpop.
  destruct (at_pc s) eqn:Hpc; try done. destruct (aq_pop (new_task_queue s)) as [[[i t] q]|]; [|done].
  destruct (Z.eqb_spec i id) as [->|]; [|done]. injection Hstep as <-. destruct Hpop as [Hq Hcq].
  unfold fresh in Hp. rewrite Hq in Hp. cbn in Hp.
  assert (id ∉ dom (tasks s)) as Hnew.
  { intros Hin. assert (NoDup (seqZ 1 (Z.of_nat (allocs ls)))) as Hnd by apply NoDup_seqZ.
    rewrite <- Hp in Hnd. apply NoDup_app in Hnd as (_ & _ & Hnd). apply NoDup_cons in Hnd as [Hnd _]. apply Hnd.
    apply elem_of_app. right. apply elem_of_app. left. by apply elem_of_elements. }
  inv_goals.
  - unfold fresh. cbn. rewrite <- Hp, dom_insert_L, elements_union_singleton by done.
    apply Permutation_app_head. cbn. symmetry. apply Permutation_middle.
  - intros j. cbn. rewrite elem_of_union, elem_of_singleton. intros [->|Hj]; [by right|].
    destruct (Hd j Hj) as [?|?]; [by left|done].
  - intros j [?|[= ->]]; [done|]. rewrite dom_insert. set_solver.
  - rewrite dom_insert. set_solver.
  - congruence.
Qed.

(** A push to the ready queue, by the executor or a waker *)
Lemma inv_push ls s id pc s' l : exec_inv ls s → push_ready s id pc = Next s' →
  (l = XWake id ∧ pc = at_pc s ∨ l = EPush id ∧ at_pc s = PushReady id ∧ pc = TakeNew) → exec_inv (ls ++ [l]) s'.
Proof.
  intros [Hp Hn Hd Hl Hw Hc Hcn] Hpush Hor. apply push_ready_Next in Hpush as (_ & Hr & Hc' & Hpc' & Hnq & Ht & Hwc & Hnx & Hfl).
  unfold fresh in Hp. split; unfold fresh; rewrite ?Hnq, ?Ht, ?Hwc, ?Hnx, ?Hfl, ?Hpc', ?Hc', ?Hr.
  - rewrite allocs_snoc, finished_snoc. destruct Hor as [[-> _]|[-> _]]; by rewrite Nat.add_0_r, app_nil_r.
  - rewrite allocs_snoc. destruct Hor as [[-> _]|[-> _]]; by rewrite Nat.add_0_r.
  - intros j. rewrite due_snoc, elem_of_app, list_elem_of_singleton.
    destruct Hor as [[-> ->]|(-> & Hpc & ->)]; cbn; [set_solver|]. intros Hj. destruct (Hd j Hj); [naive_solver|].
    left. right. congruence.
  - intros j Hj. apply Hl. destruct Hor as [[-> ->]|(-> & Hpc & ->)]; [done|naive_solver].
  - done.
  - done.
  - done.
Qed.

Lemma exec_inv_pop ls s id s' : exec_inv ls s → exec_step (EPop id) s = Some (Next s') → exec_inv (ls ++ [EPop id]) s'.
Proof.
  intros [Hp Hn Hd Hl Hw Hc Hcn] Hstep. cbn [exec_step] in Hstep. pose proof (aq_pop_law (ready_queue s)) as Hpop.
  destruct (at_pc s) eqn:Hpc; try done. destruct (aq_pop (ready_queue s)) as [[i q]|]; [|done].
  destruct (Z.eqb_spec i id) as [->|]; [|done]. destruct Hpop as [Hq Hcq].
  assert (∀ j, j ∈ due ls ∖ {[id]} → j ∈ aq_contents q) as Hdue.
  { intros j [Hj Hne]%elem_of_difference. destruct (Hd j Hj) as [Hr|?]; [|done].
    unfold ready in Hr. rewrite Hq in Hr. set_solver. }
  destruct (tasks s !! id) as [t|] eqn:Ht; injection Hstep as <-; inv_goals.
  - intros j Hj. left. by apply Hdue.
  - intros j [[= ->]|?]; [|done]. apply elem_of_dom. by exists t.
  - apply union_subseteq. split; [|done]. apply singleton_subseteq_l, elem_of_dom. by exists t.
  - congruence.
  - intros j Hj. left. by apply Hdue.
  - congruence.
Qed.

Lemma exec_inv_polled ls s l s' : exec_inv ls s → exec_step l s = Some (Next s') →
  (∃ id, l = EReady id) ∨ (∃ id t, l = EPending id t) → exec_inv (ls ++ [l]) s'.
Proof.
  intros [Hp Hn Hd Hl Hw Hc Hcn] Hstep [[id ->]|(id & t & ->)]; cbn [exec_step] in Hstep; case_decide as Hpc; try done;
    injection Hstep as <-; assert (id ∈ dom (tasks s)) as Hin by (apply Hl; by left); inv_goals.
  - rewrite <- Hp. do 2 apply Permutation_app_head.
    assert (elements (dom (tasks s)) ≡ₚ id :: elements (dom (tasks s) ∖ {[id]})) as ->.
    { rewrite <- elements_union_singleton by set_solver. by rewrite <- union_difference_singleton_L. }
    rewrite dom_delete_L, <- (Permutation_cons_append (finished ls)). symmetry. apply Permutation_middle.
  - intros j Hj. destruct (Hd j Hj) as [?|?]; [by left|congruence].
  - naive_solver.
  - rewrite dom_delete. set_solver.
  - rewrite dom_insert_lookup_L; [done|]. by apply elem_of_dom.
  - intros j Hj. destruct (Hd j Hj) as [?|?]; [by left|congruence].
  - naive_solver.
  - rewrite dom_insert. set_solver.
Qed.

Lemma inv_spawn ls s l s' : exec_inv ls s → Z.of_nat (allocs (ls ++ [l])) < 2 ^ 32 → exec_step l s = Some (Next s') →
  (∃ t, l = XAlloc t) ∨ (∃ id, l = XPush id) → exec_inv (ls ++ [l]) s'.
Proof.
  intros [Hp Hn Hd Hl Hw Hc Hcn] Hcount Hstep [[t ->]|[id ->]]; rewrite allocs_snoc in Hcount; cbn [exec_step] in Hstep.
  - injection Hstep as <-. inv_goals.
    + unfold fresh in *. cbn. rewrite fmap_app. cbn. rewrite Hn, Z.mod_small by lia.
      rewrite Nat.add_1_r, seqZ_S, <- Hp, <- Permutation_cons_append. symmetry.
      by rewrite !app_assoc, <- Permutation_cons_append.
    + rewrite Hn, Zplus_mod_idemp_l. f_equal. lia.
  - destruct (take_flight id (in_flight s)) as [[t rest]|] eqn:Hfl; [|done]. apply take_flight_perm in Hfl.
    pose proof (aq_push_law (id, t) (new_task_queue s)) as Hpush.
    destruct (aq_push (id, t) (new_task_queue s)) as [q|]; [|done]. injection Hstep as <-.
    destruct Hpush as (_ & Hq & Hcq). inv_goals; [|congruence].
    unfold fresh in *. cbn. rewrite Hq, fmap_app. cbn. rewrite <- Hp, Hfl. cbn. rewrite <- !app_assoc. cbn.
    by rewrite <- !Permutation_middle.
Qed.

Lemma exec_inv_step ls s l s' : exec_inv ls s → Z.of_nat (allocs (ls ++ [l])) < 2 ^ 32 →
  exec_step l s = Some (Next s') → exec_inv (ls ++ [l]) s'.
Proof.
  intros Hi Hcount Hstep. destruct l as [id|id| |id| |id|id t|id|t|id].
  - by apply inv_new with s.
  - cbn [exec_step] in Hstep. case_decide as Hpc; [|done]. injection Hstep as Hstep.
    eapply inv_push; [done|done|]. right. done.
  - destruct Hi as [Hp Hn Hd Hl Hw Hc Hcn]. cbn [exec_step] in Hstep.
    destruct (at_pc s); try done. destruct (aq_pop (new_task_queue s)); [done|]. injection Hstep as <-.
    inv_goals; [|naive_solver]. intros j Hj. destruct (Hd j Hj); [by left|done].
  - by apply exec_inv_pop with s.
  - destruct Hi as [Hp Hn Hd Hl Hw Hc Hcn]. cbn [exec_step] in Hstep.
    destruct (at_pc s); try done. destruct (aq_pop (ready_queue s)); [done|]. injection Hstep as <-.
    inv_goals; [|naive_solver]. intros j Hj. destruct (Hd j Hj); [by left|done].
  - eapply exec_inv_polled; eauto.
  - eapply exec_inv_polled; eauto.
  - injection Hstep as Hstep. eapply inv_push; [done|done|]. left. done.
  - eapply inv_spawn; eauto.
  - eapply inv_spawn; eauto.
Qed.

Lemma exec_run_snoc ls l s s' : exec_run (ls ++ [l]) s = Some s' ↔
  ∃ s1, exec_run ls s = Some s1 ∧ exec_step l s1 = Some (Next s').
Proof.
  revert s. induction ls as [|l1 ls IH]; intros s; cbn [exec_run app].
  - split.
    + intros H. exists s. split; [done|]. destruct (exec_step l s) as [[]|]; by simplify_eq.
    + intros (s1 & [= <-] & H). by rewrite H.
  - destruct (exec_step l1 s) as [[s1|]|]; [apply IH|split; [done|by intros (? & ? & ?)]..].
Qed.

Lemma exec_run_inv ls s : exec_run ls default_executor = Some s → Z.of_nat (allocs ls) < 2 ^ 32 → exec_inv ls s.
Proof.
  revert s. induction ls as [|l ls IH] using rev_ind; intros s Hrun Hc; [injection Hrun as <-; apply exec_inv_init|].
  apply exec_run_snoc in Hrun as (s1 & Hrun & Hstep). eapply exec_inv_step; [|done|done].
  apply IH; [done|]. rewrite allocs_snoc in Hc. lia.
Qed.

(** The executor keeps every task: however spawns, wake-ups and the executor's loop
    interleave (for less than [2^32] spawns), each id handed out is in exactly one place: with a
    [spawn] under way, in the queue of new tasks, in the map of tasks, or finished.  A task that
    was added or woken since it was last taken out of the ready queue is in that queue, or is
    about to be pushed; only tasks in the map are polled or have a waker; and nothing panics
    unless one of the queues is full. *)
Theorem executor_keeps_tasks ls s : exec_run ls default_executor = Some s → Z.of_nat (allocs ls) < 2 ^ 32 →
  Permutation ((in_flight s).*1 ++ (fresh s).*1 ++ elements (dom (tasks s)) ++ finished ls)
    (seqZ 1 (Z.of_nat (allocs ls))) ∧
  (∀ id, id ∈ due ls → id ∈ ready s ∨ at_pc s = PushReady id) ∧
  (∀ id, at_pc s = Polling id → id ∈ dom (tasks s)) ∧ waker_cache s ⊆ dom (tasks s) ∧
  (∀ l, exec_step l s = Some Panics → (128 ≤ length (ready s))%nat ∨ (32 ≤ length (fresh s))%nat).
Proof.
  intros Hrun Hcount. destruct (exec_run_inv ls s Hrun Hcount) as [Hp Hn Hd Hl Hw Hc Hcn].
  split_and!; [done|done|intros id ?; apply Hl; by left|done|]. intros l Hpanic.
  assert (∀ id pc, push_ready s id pc = Panics → (128 ≤ length (ready s))%nat) as Hpush.
  { intros id pc. unfold push_ready. pose proof (aq_push_law id (ready_queue s)) as Hl'.
    destruct (aq_push id (ready_queue s)); [done|]. unfold ready. by rewrite <- Hc. }
  destruct l; cbn [exec_step] in Hpanic; repeat case_match; simplify_eq; eauto.
  right. pose proof (aq_push_law (id, t) (new_task_queue s)) as Hl'. unfold fresh.
  destruct (aq_push (id, t) (new_task_queue s)); [done|by rewrite <- Hcn].
Qed.
End invariant.

(** *** Progress *)

Definition of_executor {T} (l : exec_label T) : bool :=
  match l with
  | ENew _ | EPush _ | ENoNew | EPop _ | ENoReady | EReady _ | EPending _ _ => true
  | XWake _ | XAlloc _ | XPush _ => false
  end.

Section progress.
Context {Q : Type → Type} `{AQ : ArrayQueue Q} {T : Type}.

(** An execution without end and without panic, in which the executor's thread keeps taking
    steps: it is scheduled again and again, and every poll returns. *)
Record execution (st : nat → Executor Q T) (lab : nat → exec_label T) : Prop := {
  ex_start : st 0%nat = default_executor;
  ex_step i : exec_step (lab i) (st i) = Some (Next (st (S i)));
  ex_fair i : ∃ j, (i ≤ j)%nat ∧ of_executor (lab j) = true;
}.

Variables (st : nat → Executor Q T) (lab : nat → exec_label T).
Hypothesis HX : execution st lab.

(** Steps of others leave the executor where it is and only append to the ready queue. *)
Lemma other_step i : of_executor (lab i) = false →
  at_pc (st (S i)) = at_pc (st i) ∧ ∃ more, ready (st (S i)) = ready (st i) ++ more.
Proof.
  intros Hl. pose proof (ex_step _ _ HX i) as Hstep. destruct (lab i); try done; cbn [exec_step] in Hstep.
  - injection Hstep as Hstep. apply push_ready_Next in Hstep as (_ & Hr & _ & Hpc & _). eauto.
  - injection Hstep as <-. cbn. split; [done|]. exists []. by rewrite app_nil_r.
  - destruct (take_flight _ _) as [[t rest]|]; [|done]. destruct (aq_push _ _); [|done].
    injection Hstep as <-. cbn. split; [done|]. exists []. by rewrite app_nil_r.
Qed.

(** A step other than [EPop] only appends to the ready queue. *)
Lemma keeps_ready i : (∀ x, lab i ≠ EPop x) → ∃ more, ready (st (S i)) = ready (st i) ++ more.
Proof.
  intros Hl. destruct (of_executor (lab i)) eqn:He; [|by apply other_step].
  pose proof (ex_step _ _ HX i) as Hstep. destruct (lab i) as [id|id| |id| |id|id t| | |]; try done; cbn [exec_step] in Hstep.
  - destruct (at_pc _); try done. destruct (aq_pop _) as [[[i' t] q]|]; [|done]. case_match; [|done].
    injection Hstep as <-. exists []. by rewrite app_nil_r.
  - case_decide; [|done]. injection Hstep as Hstep. apply push_ready_Next in Hstep as (_ & Hr & _). eauto.
  - destruct (at_pc _); try done. destruct (aq_pop _); [done|]. injection Hstep as <-. exists []. by rewrite app_nil_r.
  - by destruct (Hl id).
  - destruct (at_pc _); try done. destruct (aq_pop _); [done|]. injection Hstep as <-. exists []. by rewrite app_nil_r.
  - case_decide; [|done]. injection Hstep as <-. exists []. by rewrite app_nil_r.
  - case_decide; [|done]. injection Hstep as <-. exists []. by rewrite app_nil_r.
Qed.

Lemma pop_head i x : lab i = EPop x → ∃ rest, ready (st i) = x :: rest ∧ ready (st (S i)) = rest.
Proof.
  intros Hl. pose proof (ex_step _ _ HX i) as Hstep. rewrite Hl in Hstep. cbn [exec_step] in Hstep.
  pose proof (aq_pop_law (ready_queue (st i))) as Hpop.
  destruct (at_pc _); try done. destruct (aq_pop _) as [[y q]|]; [|done].
  destruct (Z.eqb_spec y x) as [->|]; [|done]. destruct Hpop as [Hq _]. exists (aq_contents q).
  destruct (tasks (st i) !! x); injection Hstep as <-; done.
Qed.

(** The executor's next step *)
Lemma next_own i : ∃ j, (i ≤ j)%nat ∧ of_executor (lab j) = true ∧ at_pc (st j) = at_pc (st i) ∧
  ∃ more, ready (st j) = ready (st i) ++ more.
Proof.
  destruct (ex_fair _ _ HX i) as (j & Hij & Hj). remember (j - i)%nat as n eqn:Hn. revert i Hij Hn.
  induction n as [|n IH]; intros i Hij Hn.
  - assert (j = i) as -> by lia. exists i. split_and!; try done. exists []. by rewrite app_nil_r.
  - destruct (of_executor (lab i)) eqn:He.
    + exists i. split_and!; try done. exists []. by rewrite app_nil_r.
    + destruct (other_step i He) as (Hpc & more & Hr).
      destruct (IH (S i) ltac:(lia) ltac:(lia)) as (k & ? & Hk & Hpck & more' & Hrk).
      exists k. split_and!; [lia|done|congruence|]. exists (more ++ more'). by rewrite Hrk, Hr, app_assoc.
Qed.

Definition popped (i : nat) : Prop := ∃ j x, (i ≤ j)%nat ∧ lab j = EPop x.

Lemma popped_mono i j : (i ≤ j)%nat → popped j → popped i.
Proof. intros ? (k & x & ? & ?). exists k, x. split; [lia|done]. Qed.

Lemma ready_pops i : at_pc (st i) = TakeReady → ready (st i) ≠ [] → popped i.
Proof.
  intros Hpc Hr. destruct (next_own i) as (j & Hij & Hown & Hpcj & more & Hrj).
  pose proof (ex_step _ _ HX j) as Hstep. rewrite Hpc in Hpcj. pose proof (aq_pop_law (ready_queue (st j))) as Hpop.
  destruct (lab j) as [id|id| |id| |id|id t| | |] eqn:Hl; try done; cbn [exec_step] in Hstep; rewrite ?Hpcj in Hstep;
    try done.
  - by exists j, id.
  - destruct (aq_pop _) as [[]|]; [done|]. exfalso. apply Hr. unfold ready in Hrj. rewrite Hpop in Hrj.
    symmetry in Hrj. by apply app_eq_nil in Hrj as [? _].
Qed.

Lemma nonempty_kept i : ready (st i) ≠ [] → (∃ x, lab i = EPop x) ∨ ready (st (S i)) ≠ [].
Proof.
  intros Hr. destruct (lab i) eqn:Hl; try by (left; eauto).
  all: right; destruct (keeps_ready i) as [more ->]; [by rewrite Hl|]; by destruct (ready (st i)).
Qed.

Lemma polling_pops i id : at_pc (st i) = Polling id → ready (st i) ≠ [] → popped i.
Proof.
  intros Hpc Hr. destruct (next_own i) as (j & Hij & Hown & Hpcj & more & Hrj). rewrite Hpc in Hpcj.
  assert (ready (st j) ≠ []) as Hrj' by (rewrite Hrj; by destruct (ready (st i))).
  pose proof (ex_step _ _ HX j) as Hstep. pose proof (nonempty_kept j Hrj') as Hk.
  destruct (lab j) as [x|x| |x| |x|x t| | |] eqn:Hl; try done; cbn [exec_step] in Hstep; rewrite ?Hpcj in Hstep; try done;
    case_decide; try done; injection Hstep as Hs; apply (popped_mono i (S j)); try lia; apply ready_pops;
    first [by rewrite <- Hs | by destruct Hk as [[? ?]|?]].
Qed.

Lemma step_capacity (s s' : Executor Q T) l : exec_step l s = Some (Next s') →
  aq_capacity (ready_queue s') = aq_capacity (ready_queue s).
Proof.
  intros Hstep. pose proof (aq_pop_law (ready_queue s)) as Hpop.
  destruct l; cbn [exec_step] in Hstep; repeat case_match; simplify_eq/=; try done.
  all: repeat match goal with H : push_ready _ _ _ = Next _ |- _ => apply push_ready_Next in H end.
  all: by destruct_and?.
Qed.

Lemma capacity i : aq_capacity (ready_queue (st i)) = 128%nat.
Proof.
  induction i as [|i IH]; [rewrite (ex_start _ _ HX); apply aq_new_law|].
  by rewrite (step_capacity _ _ _ (ex_step _ _ HX i)).
Qed.

(** The loop over the new tasks ends: every round fills the ready queue by one. *)
Lemma adding_pops n i : (at_pc (st i) = TakeNew ∨ ∃ id, at_pc (st i) = PushReady id) → ready (st i) ≠ [] →
  (2 * (128 - length (ready (st i))) + (if decide (at_pc (st i) = TakeNew) then 1 else 0) ≤ n)%nat → popped i.
Proof.
  revert i. induction n as [n IH] using lt_wf_ind. intros i Hpc Hr Hn.
  destruct (next_own i) as (j & Hij & Hown & Hpcj & more & Hrj). apply (popped_mono i j Hij).
  assert (ready (st j) ≠ []) as Hrj' by (rewrite Hrj; by destruct (ready (st i))).
  assert (length (ready (st i)) ≤ length (ready (st j)))%nat as Hlen by (rewrite Hrj, length_app; lia).
  rewrite <- Hpcj in Hpc, Hn.
  assert (2 * (128 - length (ready (st j))) + (if decide (at_pc (st j) = TakeNew) then 1 else 0) ≤ n)%nat as Hnj by lia.
  clear Hpcj Hrj Hr Hn Hlen Hij i more. rename Hnj into Hn.
  pose proof (ex_step _ _ HX j) as Hstep. pose proof (nonempty_kept j Hrj') as Hk.
  destruct Hpc as [Hpc|[id Hpc]]; rewrite Hpc in Hn.
  - rewrite decide_True in Hn by done.
    destruct (lab j) as [x|x| |x| |x|x t| | |] eqn:Hl; try done; cbn [exec_step] in Hstep; rewrite ?Hpc in Hstep;
      try done; try (case_decide; done).
    + destruct (aq_pop (new_task_queue (st j))) as [[[y t] q]|]; [|done]. destruct (Z.eqb_spec y x) as [->|]; [|done].
      injection Hstep as Hs. destruct Hk as [[? ?]|Hk]; [done|].
      apply (popped_mono j (S j)); [lia|]. apply (IH (n - 1)%nat); [lia| |done|].
      * right. exists x. by rewrite <- Hs.
      * rewrite <- Hs. cbn. rewrite decide_False by done. unfold ready in *. cbn. lia.
    + destruct (aq_pop (new_task_queue (st j))); [done|]. injection Hstep as Hs. destruct Hk as [[? ?]|Hk]; [done|].
      apply (popped_mono j (S j)); [lia|]. apply ready_pops; [by rewrite <- Hs|done].
  - rewrite decide_False in Hn by done.
    destruct (lab j) as [x|x| |x| |x|x t| | |] eqn:Hl; try done; cbn [exec_step] in Hstep; rewrite ?Hpc in Hstep;
      try done; case_decide; try done. injection Hstep as Hs. destruct Hk as [[? ?]|Hk]; [done|].
    pose proof (capacity j) as Hc. apply push_ready_Next in Hs as (Hlt & Hrs & _ & Hpcs & _). rewrite Hc in Hlt.
    apply (popped_mono j (S j)); [lia|]. apply (IH (n - 1)%nat); [lia|by left|done|].
    rewrite Hpcs, decide_True by done. rewrite Hrs, length_app. cbn. lia.
Qed.

Lemma nonempty_pops i : ready (st i) ≠ [] → popped i.
Proof.
  intros Hr. destruct (at_pc (st i)) as [|id| |id] eqn:Hpc.
  - by eapply adding_pops; [left| |done].
  - by eapply adding_pops; [right; exists id| |done].
  - by apply ready_pops.
  - by apply (polling_pops i id).
Qed.

(** What is at the head of the queue is popped next. *)
Lemma first_pop i y rest : ready (st i) = y :: rest → ∃ j more, (i ≤ j)%nat ∧ lab j = EPop y ∧
  ready (st (S j)) = rest ++ more.
Proof.
  intros Hr. destruct (nonempty_pops i) as (k & x & Hik & Hk); [by rewrite Hr|].
  remember (k - i)%nat as n eqn:Hn. revert i rest Hr Hik Hn. induction n as [|n IH]; intros i rest Hr Hik Hn.
  - assert (k = i) as -> by lia. destruct (pop_head i x Hk) as (rest' & Hr' & Hs). rewrite Hr in Hr'.
    simplify_eq. exists i, []. by rewrite app_nil_r.
  - assert ((∃ x, lab i = EPop x) ∨ ¬ ∃ x, lab i = EPop x) as [[x' Hx']|Hno].
    { destruct (lab i); try (right; by intros [? ?]). left. eauto. }
    + destruct (pop_head i x' Hx') as (rest' & Hr' & Hs). rewrite Hr in Hr'. simplify_eq.
      exists i, []. by rewrite app_nil_r.
    + destruct (keeps_ready i) as [more Hm]; [intros x' ?; apply Hno; eauto|].
      destruct (IH (S i) (rest ++ more)) as (j & more' & ? & ? & Hj); [by rewrite Hm, Hr|lia|lia|].
      exists j, (more ++ more'). split_and!; [lia|done|]. by rewrite Hj, app_assoc.
Qed.

Lemma queued_pops i id before after : ready (st i) = before ++ id :: after → ∃ j, (i ≤ j)%nat ∧ lab j = EPop id.
Proof.
  revert i after. induction before as [|y before IH]; intros i after Hr.
  - destruct (first_pop i id after Hr) as (j & ? & ? & ? & _). eauto.
  - destruct (first_pop i y _ Hr) as (j & more & Hij & _ & Hj). rewrite <- app_assoc in Hj. cbn in Hj.
    destruct (IH (S j) (after ++ more) Hj) as (k & ? & ?). exists k. split; [lia|done].
Qed.

(** C36: every wake-up is answered: in an execution without panic in which the executor's thread
    keeps taking steps and every poll returns, a task that is woken, or that the executor has
    moved from the new tasks to the ready queue, is taken out of the ready queue at some later
    step, and polled if it has not ended; the loop over new tasks cannot starve it, since each of
    its rounds fills the bounded ready queue.  Nothing of the kind holds of a task that is only
    spawned: see [spawned_task_starves]. *)
Theorem woken_task_polled i id : lab i = XWake id ∨ lab i = EPush id →
  ∃ j, (i < j)%nat ∧ lab j = EPop id ∧ (is_Some (tasks (st j) !! id) → at_pc (st (S j)) = Polling id).
Proof.
  intros Hl. assert (∃ before after, ready (st (S i)) = before ++ id :: after) as (before & after & Hr).
  { pose proof (ex_step _ _ HX i) as Hstep. destruct Hl as [Hl|Hl]; rewrite Hl in Hstep; cbn [exec_step] in Hstep;
      [|case_decide; [|done]]; injection Hstep as Hstep; apply push_ready_Next in Hstep as (_ & Hr & _); eauto. }
  destruct (queued_pops (S i) id before after Hr) as (j & Hij & Hj). exists j. split_and!; [lia|done|].
  intros [t Ht]. pose proof (ex_step _ _ HX j) as Hstep. rewrite Hj in Hstep. cbn [exec_step] in Hstep.
  destruct (at_pc (st j)); try done. destruct (aq_pop _) as [[y q]|]; [|done]. case_match; [|done].
  rewrite Ht in Hstep. by injection Hstep as <-.
Qed.
End progress.

(** *** Overflow *)

Section overflow.
Context {Q : Type → Type} `{AQ : ArrayQueue Q} {T : Type}.

Lemma wakes_run n (s : Executor Q T) id : (length (ready s) + n ≤ aq_capacity (ready_queue s))%nat →
  ∃ s', exec_run (replicate n (XWake id)) s = Some s' ∧ length (ready s') = (length (ready s) + n)%nat ∧
    aq_capacity (ready_queue s') = aq_capacity (ready_queue s).
Proof.
  revert s. induction n as [|n IH]; intros s Hlen; [exists s; split_and!; [done|lia|done]|].
  cbn [replicate exec_run exec_step]. unfold push_ready. pose proof (aq_push_law id (ready_queue s)) as Hp.
  unfold ready in Hlen. destruct (aq_push id (ready_queue s)) as [q|]; [|lia]. destruct Hp as (Hlt & Hq & Hc).
  destruct (IH (with_ready s q (at_pc s))) as (s' & Hrun & Hl' & Hc').
  { unfold ready. cbn. rewrite Hq, length_app, Hc. cbn. lia. }
  exists s'. split_and!; [done| |cbn in Hc'; congruence]. rewrite Hl'. unfold ready. cbn. rewrite Hq, length_app. cbn. lia.
Qed.

(** Waking is not idempotent: a task that is woken 128 times before the executor gets to run
    fills the ready queue, and the next wake-up, of any task, panics. *)
Lemma wakes_overflow id id' : ∃ s : Executor Q T,
  exec_run (replicate 128 (XWake id)) default_executor = Some s ∧ exec_step (XWake id') s = Some Panics.
Proof.
  destruct (@aq_new_law Q AQ Z 128) as [Hn Hc].
  destruct (wakes_run 128 (default_executor (T:=T)) id) as (s & Hrun & Hl & Hcs).
  { unfold ready. cbn. rewrite Hn, Hc. done. }
  exists s. split; [done|]. cbn [exec_step]. unfold push_ready. pose proof (aq_push_law id' (ready_queue s)) as Hp.
  unfold ready in Hl. cbn in Hl, Hcs. rewrite Hn in Hl. rewrite Hc in Hcs. cbn in Hl.
  destruct (aq_push id' (ready_queue s)); [lia|done].
Qed.
End overflow.

(** *** [block_on] *)

(** [block_on] misses a wake-up that comes between the poll and the store to [signal]: the
    event has occurred and the waker was called, and still the thread spins for ever; at any
    other moment the thread returns. *)
Theorem block_on_lost_wakeup :
  (∀ n, let s := Nat.iter n block_step (occur (block_step start_blocking)) in
    occurred s = true ∧ block_at s ≠ BDone) ∧
  (∀ n, n ≠ 1%nat → ∃ m, block_at (Nat.iter m block_step (occur (Nat.iter n block_step start_blocking))) = BDone).
Proof.
  assert (∀ n, (2 ≤ n)%nat → Nat.iter n block_step start_blocking =
    {| signal := true; occurred := false; registered := true; block_at := BSpin |}) as Hspin.
  { intros n Hn. destruct n as [|[|n]]; [lia..|]. clear. induction n as [|n IH]; [done|].
    rewrite Nat.iter_succ, IH. done. }
  split.
  - assert (∀ n, Nat.iter (S n) block_step (occur (block_step start_blocking)) =
      {| signal := true; occurred := true; registered := false; block_at := BSpin |}) as Hs.
    { induction n as [|n IH]; [done|]. rewrite Nat.iter_succ, IH. done. }
    intros [|n]; [done|]. rewrite Hs. done.
  - intros [|[|n]] Hn; [by exists 1%nat|done|]. rewrite Hspin by lia. by exists 2%nat.
Qed.

(** *** Examples *)

(** A bounded queue: its capacity and its contents *)
Definition bounded (A : Type) : Type := nat * list A.

#[local, refine] Instance bounded_queue : ArrayQueue bounded := {|
  aq_new A n := (n, []);
  aq_push A x q := if (length q.2 <? q.1)%nat then Some (q.1, q.2 ++ [x]) else None;
  aq_pop A q := match q.2 with [] => None | x :: l => Some (x, (q.1, l)) end;
  aq_contents A q := q.2;
  aq_capacity A q := q.1;
|}.
Proof.
  - done.
  - intros A x q. destruct (Nat.ltb_spec (length q.2) q.1); done.
  - intros A [n [|x l]]; done.
Defined.

(** A task that is woken while it is polled, and then once more *)
Lemma executor_keeps_tasks_witness : ∃ s : Executor bounded unit,
  exec_run [XAlloc tt; XPush 1; ENew 1; EPush 1; ENoNew; EPop 1; XWake 1; EPending 1 tt; XAlloc tt] default_executor
    = Some s ∧ 1 ∈ ready s ∧
  Permutation ((in_flight s).*1 ++ (fresh s).*1 ++ elements (dom (tasks s)) ++ []) [1; 2].
Proof.
  destruct (exec_run (Q:=bounded) [XAlloc tt; XPush 1; ENew 1; EPush 1; ENoNew; EPop 1; XWake 1; EPending 1 tt; XAlloc tt]
    default_executor) as [s|] eqn:Hrun; [|vm_compute in Hrun; discriminate].
  exists s. split; [done|].
  destruct (executor_keeps_tasks _ s Hrun ltac:(vm_compute; reflexivity)) as (Hp & Hd & _).
  split; [|exact Hp]. destruct (Hd 1) as [?|Hpc]; [|done|].
  - refine (bool_decide_unpack _ _). vm_compute. exact I.
  - exfalso. vm_compute in Hrun. injection Hrun as <-. discriminate.
Defined.

(** One task that runs once, and then nothing *)
Definition demo_labels (i : nat) : exec_label unit :=
  match i with
  | 0 => XAlloc tt
  | 1 => XPush 1
  | 2 => ENew 1
  | 3 => EPush 1
  | 4 => ENoNew
  | 5 => EPop 1
  | 6 => EReady 1
  | S (S (S (S (S (S (S n)))))) => if Nat.even n then ENoReady else ENoNew
  end%nat.

Fixpoint demo_states (i : nat) : Executor bounded unit :=
  match i with
  | O => default_executor
  | S i' => match exec_step (demo_labels i') (demo_states i') with Some (Next s) => s | _ => demo_states i' end
  end.

Lemma demo_idle n : exec_step (demo_labels (7 + n)) (demo_states (7 + n)) = Some (Next (demo_states (8 + n))) ∧
  demo_states (7 + n) = demo_states (if Nat.even n then 7 else 8).
Proof.
  assert (∀ n, exec_step (demo_labels (7 + n)) (demo_states (if Nat.even n then 7 else 8)) =
    Some (Next (demo_states (if Nat.even n then 8 else 7)))) as Hstep.
  { intros k. change (demo_labels (7 + k)) with (if Nat.even k then @ENoReady unit else ENoNew).
    destruct (Nat.even k); vm_compute; reflexivity. }
  assert (demo_states (7 + n) = demo_states (if Nat.even n then 7 else 8)) as Heq.
  { induction n as [|n IH]; [done|]. change (demo_states (7 + S n)) with
      (match exec_step (demo_labels (7 + n)) (demo_states (7 + n)) with Some (Next s) => s | _ => demo_states (7 + n) end).
    rewrite IH, Hstep, Nat.even_succ, <- Nat.negb_even. by destruct (Nat.even n). }
  split; [|done]. change (demo_states (8 + n)) with
    (match exec_step (demo_labels (7 + n)) (demo_states (7 + n)) with Some (Next s) => s | _ => demo_states (7 + n) end).
  by rewrite Heq, Hstep.
Qed.

Lemma demo_execution : execution demo_states demo_labels.
Proof.
  split.
  - done.
  - intros i. do 7 (destruct i as [|i]; [vm_compute; reflexivity|]). apply (demo_idle i).
  - intros i. exists (7 + i)%nat. split; [lia|]. change (demo_labels (7 + i)) with (if Nat.even i then @ENoReady unit else ENoNew).
    by destruct (Nat.even i).
Qed.

(** A task that wakes itself whenever it is polled, and one that is spawned meanwhile *)
Definition yield_labels (i : nat) : exec_label unit :=
  match i with
  | 0 => XAlloc tt
  | 1 => XPush 1
  | 2 => ENew 1
  | 3 => EPush 1
  | 4 => ENoNew
  | 5 => XAlloc tt
  | 6 => XPush 2
  | S (S (S (S (S (S (S n)))))) => match (n mod 3)%nat with O => EPop 1 | 1%nat => XWake 1 | _ => EPending 1 tt end
  end%nat.

Fixpoint yield_states (i : nat) : Executor bounded unit :=
  match i with
  | O => default_executor
  | S i' => match exec_step (yield_labels i') (yield_states i') with Some (Next s) => s | _ => yield_states i' end
  end.

Lemma yield_label n : yield_labels (7 + n) = match (n mod 3)%nat with O => EPop 1 | 1%nat => XWake 1 | _ => EPending 1 tt end.
Proof. done. Qed.
Lemma yield_next i : yield_states (S i) =
  match exec_step (yield_labels i) (yield_states i) with Some (Next s) => s | _ => yield_states i end.
Proof. done. Qed.

Lemma mod3_cases n : (n mod 3 = 0 ∧ S n mod 3 = 1 ∨ n mod 3 = 1 ∧ S n mod 3 = 2 ∨ n mod 3 = 2 ∧ S n mod 3 = 0)%nat.
Proof.
  pose proof (Nat.div_mod_eq n 3). pose proof (Nat.div_mod_eq (S n) 3).
  pose proof (Nat.mod_upper_bound n 3 ltac:(done)). pose proof (Nat.mod_upper_bound (S n) 3 ltac:(done)). lia.
Qed.
Lemma mod3_round n : (S (S (S n)) mod 3 = n mod 3)%nat.
Proof. change (S (S (S n))) with (3 + n)%nat. rewrite Nat.add_comm. exact (Nat.Div0.mod_add n 1 3). Qed.
Lemma mod3_times n : ((3 * n) mod 3 = 0)%nat.
Proof. rewrite Nat.mul_comm. apply Nat.Div0.mod_mul. Qed.

(** From the second round on the states repeat. *)
Lemma yield_loop n : yield_states (10 + n) = yield_states (10 + n mod 3).
Proof.
  induction n as [|n IH]; [done|]. change (10 + S n)%nat with (S (10 + n)). rewrite yield_next, IH.
  change (10 + n)%nat with (7 + S (S (S n)))%nat. rewrite yield_label.
  rewrite mod3_round.
  destruct (mod3_cases n) as [[-> ->]|[[-> ->]|[-> ->]]]; vm_compute; reflexivity.
Qed.

Lemma yield_execution : execution yield_states yield_labels.
Proof.
  split.
  - done.
  - intros i. do 10 (destruct i as [|i]; [vm_compute; reflexivity|]).
    change (S (S (S (S (S (S (S (S (S (S i)))))))))) with (10 + i)%nat.
    rewrite yield_next, yield_loop. change (10 + i)%nat with (7 + S (S (S i)))%nat. rewrite yield_label.
    rewrite mod3_round.
    destruct (mod3_cases i) as [[-> _]|[[-> _]|[-> _]]]; vm_compute; reflexivity.
  - intros i. exists (7 + 3 * i)%nat. split; [lia|]. rewrite yield_label.
    by rewrite mod3_times.
Qed.

(** A task that is spawned may never start, although the executor keeps taking steps and nothing
    panics: while there is always a task in the ready queue, one that wakes itself is enough, the
    executor does not look at the queue of new tasks. *)
Theorem spawned_task_starves : execution yield_states yield_labels ∧ yield_labels 6 = XPush 2 ∧
  (∀ i, ∃ j, (i ≤ j)%nat ∧ yield_labels j = EPop 1) ∧ ∀ j, yield_labels j ≠ ENew 2.
Proof.
  split_and!; [exact yield_execution|done| |].
  - intros i. exists (7 + 3 * i)%nat. split; [lia|]. rewrite yield_label. by rewrite mod3_times.
  - intros j. do 7 (destruct j as [|j]; [done|]). change (S (S (S (S (S (S (S j))))))) with (7 + j)%nat. rewrite yield_label.
    by destruct (mod3_cases j) as [[-> _]|[[-> _]|[-> _]]].
Qed.

Lemma woken_task_polled_witness : ∃ j, (3 < j)%nat ∧ demo_labels j = EPop 1.
Proof.
  destruct (woken_task_polled demo_states demo_labels demo_execution 3 1) as (j & ? & ? & _); [by right|].
  by exists j.
Defined.
