(* ===== verification/Sched.v ===== *)
(** Threads and the thread scheduler ([process/thread/scheduler.rs], [process/thread/mod.rs]):
    round robin over three priority queues, and the context switch at an exception. *)
From stdpp Require Import base list gmap relations.
From S2P Require Import Prelude Addresses.

Inductive ThreadPriority := High | Normal | Low.
Definition priority_index (p : ThreadPriority) : nat := match p with High => 0 | Normal => 1 | Low => 2 end.
(** [Contiguous::from_integer] *)
Definition priority_from (i : Z) : option ThreadPriority :=
  if i =? 0 then Some High else if i =? 1 then Some Normal else if i =? 2 then Some Low else None.
Definition priority_into (p : ThreadPriority) : Z := Z.of_nat (priority_index p).

Inductive ThreadState := Running | Waiting.
#[export] Instance ThreadState_eq_dec : EqDecision ThreadState.
Proof. solve_decision. Defined.
Definition state_into (s : ThreadState) : Z := match s with Running => 1 | Waiting => 2 end.
Definition state_from (i : Z) : option ThreadState :=
  if i =? 1 then Some Running else if i =? 2 then Some Waiting else None.

Abbreviation Registers := (list Z) (only parsing).

(** What an exception leaves to the handler: the general registers it is given, and the system
    registers SPSR_EL1, ELR_EL1 and SP_EL0; [ttbr0] is the process whose tables are active. *)
Record Cpu := {
  regs : Registers;
  spsr_el1 : Z;
  elr_el1 : Z;
  sp_el0 : Z;
  ttbr0 : option Z;
}.

Record ExecutionState := {
  register_state : Registers;
  program_status : Z;
  pc : Z;
  sp : Z;
}.

(** [parent] is the process of a user thread. *)
Record Thread := {
  tid : Z;
  parent : option Z;
  atomic_state : Z;
  atomic_priority : Z;
  exec_state : ExecutionState;
  stack_start : Z;
  stack_page_count : Z;
}.

(** An [Arc<Thread>] is a key of [arcs]; [threads] is the global list and [queues] and
    [current_thread] are the [ThreadScheduler]. *)
Record Sched := {
  arcs : gmap nat Thread;
  threads : list nat;
  next_tid : Z;
  queues : list (list nat * nat);
  current_thread : nat;
  cpu : Cpu;
}.

Abbreviation SM := (M Sched Empty_set).

Definition IDLE_THREAD : Z := 0.
Definition TASK_THREAD : Z := 1.

Definition set_queue (s : Sched) (k : nat) (q : list nat * nat) : Sched :=
  Build_Sched (arcs s) (threads s) (next_tid s) (<[k := q]> (queues s)) (current_thread s) (cpu s).
Definition set_current (s : Sched) (p : nat) : Sched :=
  Build_Sched (arcs s) (threads s) (next_tid s) (queues s) p (cpu s).
Definition set_cpu (s : Sched) (c : Cpu) : Sched :=
  Build_Sched (arcs s) (threads s) (next_tid s) (queues s) (current_thread s) c.
Definition set_arcs (s : Sched) (m : gmap nat Thread) : Sched :=
  Build_Sched m (threads s) (next_tid s) (queues s) (current_thread s) (cpu s).
Definition set_threads (s : Sched) (l : list nat) : Sched :=
  Build_Sched (arcs s) l (next_tid s) (queues s) (current_thread s) (cpu s).
Definition update (f : Sched → Sched) : SM unit := s ← get; put (f s).

(** *** Threads *)

Definition deref (p : nat) : SM Thread :=
  s ← get; match arcs s !! p with Some t => mret t | None => undefined end.

Definition state (t : Thread) : option ThreadState := state_from (atomic_state t).
Definition priority (t : Thread) : option ThreadPriority := priority_from (atomic_priority t).

Definition set_state (p : nat) (new : ThreadState) : SM unit :=
  t ← deref p;
  update (λ s, set_arcs s (<[p := Build_Thread (tid t) (parent t) (state_into new)
    (atomic_priority t) (exec_state t) (stack_start t) (stack_page_count t)]> (arcs s))).

(** [SavedProgramStatus::initial_for_el0], [initial_for_el1] (bits 2 and 3 are the level) *)
Definition initial_for_el0 : Z := 0.
Definition initial_for_el1 : Z := 4.

(** [Registers::from_args] *)
Definition from_args (args : list Z) : option Registers :=
  if (length args <=? 8)%nat then Some (args ++ replicate (31 - length args) 0) else None.

Definition kernel_thread (id start stack_address stack_pages : Z) : option Thread :=
  len ← umul stack_pages PAGE_SIZE;
  Some {| tid := id; parent := None; atomic_state := state_into Running;
          atomic_priority := priority_into Normal;
          exec_state := {| register_state := replicate 31 0; program_status := initial_for_el1;
                           pc := start; sp := VirtualAddress.add stack_address len |};
          stack_start := stack_address; stack_page_count := stack_pages |}.

Definition user_thread (proc id entry_point stack_base stack_pages : Z) (prio : ThreadPriority)
    (start_registers : Registers) : option Thread :=
  len ← umul stack_pages PAGE_SIZE;
  Some {| tid := id; parent := Some proc; atomic_state := state_into Running;
          atomic_priority := priority_into prio;
          exec_state := {| register_state := start_registers; program_status := initial_for_el0;
                           pc := entry_point; sp := VirtualAddress.add stack_base len |};
          stack_start := stack_base; stack_page_count := stack_pages |}.

(** The idle thread that [threads()] creates; the stack pointer bit of its status is set. *)
Definition idle_thread : Thread :=
  {| tid := IDLE_THREAD; parent := None; atomic_state := state_into Running;
     atomic_priority := priority_into Low;
     exec_state := {| register_state := replicate 31 0; program_status := 5; pc := 0; sp := 0 |};
     stack_start := 0; stack_page_count := 0 |}.

Fixpoint find_thread (l : list nat) (id : Z) : SM (option nat) :=
  match l with
  | [] => mret None
  | p :: l' => t ← deref p; if tid t =? id then mret (Some p) else find_thread l' id
  end.
Definition thread_for_id (id : Z) : SM (option nat) := s ← get; find_thread (threads s) id.

(** [AtomicU32::fetch_add] wraps. *)
Definition next_thread_id : SM Z :=
  s ← get;
  put (Build_Sched (arcs s) (threads s) ((next_tid s + 1) mod 2 ^ 32) (queues s) (current_thread s) (cpu s));;
  mret (next_tid s).

(** *** The scheduler *)

(** [ThreadScheduler::new], the first use of [threads()] *)
Definition new (p : nat) (c : Cpu) : Sched :=
  {| arcs := {[ p := idle_thread ]}; threads := [p]; next_tid := TASK_THREAD + 1;
     queues := [([], 0%nat); ([], 0%nat); ([p], 0%nat)]; current_thread := p; cpu := c |}.

(** The [while] loop over the threads that are not running. *)
Fixpoint skip_waiting (queue : list nat) (skips : nat) (next : nat) : SM (nat * nat) :=
  p ← lift (queue !! next);
  t ← deref p;
  st ← lift (state t);
  if decide (st = Running) then mret (skips, next)
  else
    match skips with
    | O => panic
    | S skips' => skip_waiting queue skips' ((next + 1) mod length queue)
    end.

Fixpoint schedule_loop (ks : list nat) : SM unit :=
  match ks with
  | [] => panic
  | k :: ks' =>
      s ← get;
      '(queue, next0) ← lift (queues s !! k);
      if (length queue =? 0)%nat then schedule_loop ks'
      else
        let start := if (length queue <=? next0)%nat then 0%nat else next0 in
        '(skips, next) ← skip_waiting queue (length queue) start;
        if (skips =? 0)%nat then update (λ s, set_queue s k (queue, next));; schedule_loop ks'
        else
          p ← lift (queue !! next);
          update (λ s, set_current s p);;
          update (λ s, set_queue s k (queue, ((next + 1) mod length queue)%nat))
  end.
Definition schedule_next_thread : SM unit := schedule_loop [0; 1; 2]%nat.

Definition make_task_executor_current : SM unit :=
  o ← thread_for_id TASK_THREAD;
  p ← lift o;
  update (λ s, set_current s p).

Definition add_thread (p : nat) : SM unit :=
  t ← deref p;
  prio ← lift (priority t);
  s ← get;
  '(queue, next) ← lift (queues s !! priority_index prio);
  put (set_queue s (priority_index prio) (queue ++ [p], next)).

(** [Vec::retain], in order *)
Fixpoint retain_other (id : Z) (l : list nat) : SM (list nat) :=
  match l with
  | [] => mret []
  | p :: l' => t ← deref p; l'' ← retain_other id l'; mret (if tid t =? id then l'' else p :: l'')
  end.

Definition remove_thread (p : nat) : SM unit :=
  t ← deref p;
  prio ← lift (priority t);
  s ← get;
  '(queue, next) ← lift (queues s !! priority_index prio);
  queue' ← retain_other (tid t) queue;
  update (λ s, set_queue s (priority_index prio) (queue', next));;
  cur ← deref (current_thread s);
  if tid t =? tid cur then schedule_next_thread else mret tt.

(** [threads().push] puts the thread in front. *)
Definition spawn_thread (p : nat) : SM unit :=
  update (λ s, set_threads s (p :: threads s));;
  add_thread p.

(** *** The context switch *)

Definition save (c : Cpu) : ExecutionState :=
  {| register_state := regs c; program_status := spsr_el1 c; pc := elr_el1 c; sp := sp_el0 c |}.
Definition restore (e : ExecutionState) (c : Cpu) : Cpu :=
  {| regs := register_state e; spsr_el1 := program_status e; elr_el1 := pc e; sp_el0 := sp e;
     ttbr0 := ttbr0 c |}.

Definition pause_current_thread : SM nat :=
  s ← get;
  t ← deref (current_thread s);
  put (set_arcs s (<[current_thread s := Build_Thread (tid t) (parent t) (atomic_state t)
    (atomic_priority t) (save (cpu s)) (stack_start t) (stack_page_count t)]> (arcs s)));;
  mret (current_thread s).

Definition resume_current_thread : SM unit :=
  s ← get;
  t ← deref (current_thread s);
  let c := cpu s in
  (* [proc.page_tables.activate()] *)
  let c' := match parent t with
            | Some proc => Build_Cpu (regs c) (spsr_el1 c) (elr_el1 c) (sp_el0 c) (Some proc)
            | None => c
            end in
  put (set_cpu s (restore (exec_state t) c')).

(** What the kernel does with the scheduler while it handles an exception. *)
Inductive kernel_op :=
  | KSchedule
  | KTaskExecutor
  | KSetState (p : nat) (st : ThreadState)
  | KSpawn (p : nat) (t : Thread)
  | KRemove (p : nat).

Definition run_kernel_op (o : kernel_op) : SM unit :=
  match o with
  | KSchedule => schedule_next_thread
  | KTaskExecutor => make_task_executor_current
  | KSetState p st => set_state p st
  | KSpawn p t =>
      (* a new [Arc] *)
      s ← get;
      assert (bool_decide (arcs s !! p = None));;
      update (λ s, set_arcs s (<[p := t]> (arcs s)));;
      spawn_thread p
  | KRemove p => remove_thread p
  end.

(** [handle_interrupt] and [handle_synchronous_exception], as far as threads and the scheduler are
    concerned: [ops] is what the handlers in between do to these.  The handlers themselves are in
    [Kernel]. *)
Definition handle_exception (ops : list kernel_op) : SM unit :=
  pause_current_thread;;
  for_each run_kernel_op ops;;
  resume_current_thread.
