(* ===== verification/SchedSpec.v ===== *)
(** The scheduler is a round robin: its queues refine rotating lists, every running thread of
    the highest nonempty priority gets its turn, and a thread resumes where it was paused. *)
From stdpp Require Import base list gmap relations.
From S2P Require Import Prelude Addresses Sched.

(** A queue as the order in which its threads are considered next. *)
Definition ring (queue : list nat) (next : nat) : list nat := drop next queue ++ take next queue.
Definition start_of (queue : list nat) (next : nat) : nat :=
  if (length queue <=? next)%nat then 0%nat else next.
Definition ring_of (q : list nat * nat) : list nat := ring q.1 (start_of q.1 q.2).
Definition rings (s : Sched) : list (list nat) := ring_of <$> queues s.

Definition is_running (s : Sched) (p : nat) : Prop :=
  ∃ t, arcs s !! p = Some t ∧ state t = Some Running.
#[export] Instance is_running_dec s p : Decision (is_running s p).
Proof.
  refine (match arcs s !! p as o return arcs s !! p = o → _ with
          | Some t => λ E, cast_if (decide (state t = Some Running))
          | None => λ E, right _
          end eq_refl); unfold is_running; [naive_solver..|].
  intros (t & Ht & _). congruence.
Defined.

(** Every queued thread is there, in a valid state. *)
Definition queued_ok (s : Sched) (p : nat) : Prop :=
  ∃ t st, arcs s !! p = Some t ∧ state t = Some st.
Definition sched_wf (s : Sched) : Prop :=
  length (queues s) = 3%nat ∧ Forall (λ q, Forall (queued_ok s) q.1) (queues s).

(** *** The specification *)

(** The first running thread of the first queue that is not empty, which goes to the back with
    the threads that were skipped in front of it. *)
Fixpoint spec_schedule (P : nat → Prop) `{!∀ p, Decision (P p)} (rs : list (list nat))
    : option (nat * list (list nat)) :=
  match rs with
  | [] => None
  | [] :: rs' =>
      match spec_schedule P rs' with
      | Some (p, rs'') => Some (p, [] :: rs'')
      | None => None
      end
  | r :: rs' =>
      match list_find P r with
      | Some (d, p) => Some (p, (drop (S d) r ++ take (S d) r) :: rs')
      | None => None
      end
  end.

(** *** Rings *)

Lemma ring_step queue next p : queue !! next = Some p →
  ∃ r, ring queue next = p :: r ∧ ring queue ((next + 1) mod length queue) = r ++ [p].
Proof.
  intros Hp. pose proof (lookup_lt_Some _ _ _ Hp) as Hlt. unfold ring.
  rewrite (drop_S _ _ _ Hp). eexists. split; [done|].
  destruct (decide (S next = length queue)) as [E|E].
  - replace ((next + 1) mod length queue)%nat with 0%nat.
    2: { replace (next + 1)%nat with (length queue) by lia. by rewrite Nat.Div0.mod_same. }
    rewrite drop_0, take_0, app_nil_r, (drop_ge _ (S next)) by lia. cbn.
    rewrite <- (take_S_r _ _ _ Hp). symmetry. apply take_ge. lia.
  - rewrite Nat.mod_small by lia. rewrite Nat.add_1_r, (take_S_r _ _ _ Hp). by rewrite app_assoc.
Qed.

Lemma ring_nil queue next : ring queue next = [] → queue = [].
Proof. unfold ring. intros [Hd Ht]%app_eq_nil. by rewrite <- (take_drop next queue), Hd, Ht. Qed.

Lemma ring_head queue next p r : (next < length queue)%nat → ring queue next = p :: r →
  queue !! next = Some p.
Proof.
  intros Hn. destruct (lookup_lt_is_Some_2 queue next Hn) as [x Hx]. unfold ring.
  rewrite (drop_S _ _ _ Hx). intros [= <- _]. done.
Qed.

Lemma ring_elem queue next p : p ∈ ring queue next ↔ p ∈ queue.
Proof.
  unfold ring. rewrite <- (take_drop next queue) at 3. rewrite !elem_of_app. tauto.
Qed.

Lemma start_of_lt queue next : queue ≠ [] → (start_of queue next < length queue)%nat.
Proof.
  intros Hq. unfold start_of. destruct (Nat.leb_spec (length queue) next); [|done].
  destruct queue; [done|cbn; lia].
Qed.

(** *** The loop over waiting threads *)

Lemma running_state s p t : queued_ok s p → arcs s !! p = Some t →
  ∃ st, state t = Some st ∧ (is_running s p ↔ st = Running).
Proof.
  intros (t' & st & Ht & Hst) Hp. assert (t' = t) as -> by congruence.
  exists st. split; [done|]. unfold is_running. split; [|naive_solver].
  intros (t' & Ht' & Hr). congruence.
Qed.

Lemma deref_run s p t : arcs s !! p = Some t → deref p s = Ok t s.
Proof. intros H. unfold deref. rewrite bind_unfold. cbn. by rewrite H. Qed.

Lemma skip_waiting_step s queue skips next p t st : queue !! next = Some p → arcs s !! p = Some t →
  state t = Some st →
  skip_waiting queue skips next s =
    if decide (st = Running) then Ok (skips, next) s
    else match skips with
         | O => Stop Panic
         | S skips' => skip_waiting queue skips' ((next + 1) mod length queue) s
         end.
Proof.
  intros Hq Ht Hst. destruct skips; cbn [skip_waiting]; rewrite Hq;
    (erewrite bind_run by done); (erewrite bind_run by (by apply deref_run)); rewrite Hst;
    (erewrite bind_run by done); by destruct (decide (st = Running)).
Qed.

Lemma skip_waiting_found s queue a : ∀ skips next x b, (next < length queue)%nat →
  Forall (queued_ok s) queue → ring queue next = a ++ x :: b → Forall (λ p, ¬ is_running s p) a →
  is_running s x → (length a ≤ skips)%nat →
  ∃ next', skip_waiting queue skips next s = Ok ((skips - length a)%nat, next') s ∧
    (next' < length queue)%nat ∧ ring queue next' = x :: b ++ a.
Proof.
  induction a as [|w a IH]; intros skips next x b Hn Hok Hr Ha Hx Hs.
  - cbn in Hr. pose proof (ring_head _ _ _ _ Hn Hr) as Hq. destruct Hx as (t & Ht & Hst).
    exists next. split; [|by rewrite app_nil_r].
    erewrite skip_waiting_step by done. rewrite decide_True by done. do 2 f_equal. cbn. lia.
  - cbn in Hr. pose proof (ring_head _ _ _ _ Hn Hr) as Hq.
    destruct (ring_step _ _ _ Hq) as (r & Hr0 & Hr1). rewrite Hr in Hr0. injection Hr0 as <-.
    inversion Ha as [|?? Hw Ha']; subst. cbn in Hs. destruct skips as [|skips]; [lia|].
    assert (queued_ok s w) as Hokw.
    { rewrite Forall_forall in Hok. apply Hok. by eapply list_elem_of_lookup_2. }
    pose proof Hokw as (t & _ & Ht & _). destruct (running_state _ _ _ Hokw Ht) as (st' & Hst' & Hrun).
    destruct (IH skips ((next + 1) mod length queue)%nat x (b ++ [w])) as (next' & Hrec & Hn' & Hr'); try done.
    { apply Nat.mod_upper_bound. lia. }
    { by rewrite Hr1, <- app_assoc. }
    { lia. }
    exists next'. split; [|by rewrite Hr', <- app_assoc].
    erewrite skip_waiting_step by done. rewrite decide_False by (by rewrite <- Hrun). exact Hrec.
Qed.

Lemma skip_waiting_none s queue skips : ∀ next, (next < length queue)%nat →
  Forall (queued_ok s) queue → Forall (λ p, ¬ is_running s p) queue →
  skip_waiting queue skips next s = Stop Panic.
Proof.
  induction skips as [|skips IH]; intros next Hn Hok Hw;
    destruct (lookup_lt_is_Some_2 queue next Hn) as [p Hp];
    pose proof (Forall_lookup_1 _ _ _ _ Hok Hp) as Hokp; pose proof (Forall_lookup_1 _ _ _ _ Hw Hp) as Hwp;
    pose proof Hokp as (t & _ & Ht & _); destruct (running_state _ _ _ Hokp Ht) as (st & Hst & Hrun);
    (erewrite skip_waiting_step by done); rewrite decide_False by (by rewrite <- Hrun); [done|].
  apply IH; [|done..]. apply Nat.mod_upper_bound. lia.
Qed.

(** *** Refinement *)

(** What scheduling leaves alone. *)
Record same_threads (s s' : Sched) : Prop := {
  st_arcs : arcs s' = arcs s;
  st_threads : threads s' = threads s;
  st_next_tid : next_tid s' = next_tid s;
  st_cpu : cpu s' = cpu s;
}.

Definition scheduled (s : Sched) (rs : list (list nat)) (k : nat) (r : res Sched Empty_set unit) : Prop :=
  match spec_schedule (is_running s) rs with
  | Some (p, rs') => ∃ s', r = Ok tt s' ∧ current_thread s' = p ∧ same_threads s s' ∧ sched_wf s' ∧
      rings s' = take k (rings s) ++ rs' ∧ p ∈ mjoin rs
  | None => r = Stop Panic
  end.

Lemma spec_schedule_cons (P : nat → Prop) `{!∀ p, Decision (P p)} r rs : r ≠ [] →
  spec_schedule P (r :: rs)
  = match list_find P r with
    | Some (d, p) => Some (p, (drop (S d) r ++ take (S d) r) :: rs)
    | None => None
    end.
Proof. by destruct r. Qed.

Lemma wf_update s k queue next next' p : sched_wf s → queues s !! k = Some (queue, next) →
  sched_wf (set_queue (set_current s p) k (queue, next')).
Proof.
  intros [Hlen Hok] Hk. split; cbn; [by rewrite length_insert|].
  apply Forall_insert; [done|]. by apply (Forall_lookup_1 _ _ _ _ Hok Hk).
Qed.

Lemma rings_update s k queue next next' p : queues s !! k = Some (queue, next) →
  (next' < length queue)%nat →
  rings (set_queue (set_current s p) k (queue, next'))
  = take k (rings s) ++ ring queue next' :: drop (S k) (rings s).
Proof.
  intros Hk Hn. unfold rings. cbn. rewrite list_fmap_insert.
  pose proof (lookup_lt_Some _ _ _ Hk). rewrite insert_take_drop by (by rewrite length_fmap).
  unfold ring_of, start_of. cbn. by destruct (Nat.leb_spec (length queue) next'); [lia|].
Qed.

Lemma ring_length queue next : length (ring queue next) = length queue.
Proof. unfold ring. rewrite length_app, length_drop, length_take. lia. Qed.

Lemma schedule_queue s k queue next : sched_wf s → queues s !! k = Some (queue, next) → queue ≠ [] →
  ∀ ks, scheduled s (drop k (rings s)) k (schedule_loop (k :: ks) s).
Proof.
  intros Hwf Hk Hne ks. pose proof (start_of_lt queue next Hne) as Hst. pose proof Hwf as [Hlen Hok].
  pose proof (Forall_lookup_1 _ _ _ _ Hok Hk) as Hokq. cbn in Hokq.
  assert (rings s !! k = Some (ring queue (start_of queue next))) as Hrk.
  { unfold rings. rewrite list_lookup_fmap, Hk. done. }
  set (r := ring queue (start_of queue next)) in *.
  unfold scheduled. rewrite (drop_S _ _ _ Hrk), spec_schedule_cons by (intros E; by apply ring_nil in E).
  cbn [schedule_loop]. erewrite bind_run by done. rewrite Hk. erewrite bind_run by done. cbv beta iota.
  destruct (Nat.eqb_spec (length queue) 0) as [E|_]; [by destruct queue|]. cbv zeta.
  change (if (length queue <=? next)%nat then 0%nat else next) with (start_of queue next).
  destruct (list_find (is_running s) r) as [[d x]|] eqn:Hf; cbv beta iota.
  - apply list_find_Some in Hf as (Hd & Hx & Hbefore).
    assert (d < length queue)%nat as Hdl.
    { rewrite <- (ring_length queue (start_of queue next)). by eapply lookup_lt_Some. }
    assert (length (take d r) = d) as Hla by (rewrite length_take; unfold r; rewrite ring_length; lia).
    destruct (skip_waiting_found s queue (take d r) (length queue) (start_of queue next) x (drop (S d) r))
      as (n' & Hrun & Hn' & Hr'); try done; [by rewrite take_drop_middle| |lia|].
    { apply Forall_lookup. intros j y Hy. apply lookup_take_Some in Hy as [Hy Hj]. by eapply Hbefore. }
    erewrite bind_run by exact Hrun. cbv beta iota. rewrite Hla.
    destruct (Nat.eqb_spec (length queue - d) 0); [lia|].
    pose proof (ring_head _ _ _ _ Hn' Hr') as Hq. rewrite Hq. erewrite bind_run by done.
    destruct (ring_step _ _ _ Hq) as (r' & Hr1 & Hr2). rewrite Hr' in Hr1. injection Hr1 as <-.
    eexists. split; [done|]. split; [done|]. split; [done|]. split; [by eapply wf_update|]. split.
    + rewrite (rings_update _ _ _ _ _ _ Hk) by (apply Nat.mod_upper_bound; lia).
      rewrite Hr2, <- app_assoc, <- (take_S_r _ _ _ Hd). done.
    + apply list_elem_of_join. exists r. split; [by eapply list_elem_of_lookup_2|]. by left.
  - rewrite bind_unfold, skip_waiting_none; [done|done|done|].
    apply list_find_None in Hf. rewrite Forall_forall in *. intros p Hp. apply Hf. by apply ring_elem.
Qed.

Lemma schedule_levels s n : ∀ k, sched_wf s → (k + n = 3)%nat →
  scheduled s (drop k (rings s)) k (schedule_loop (seq k n) s).
Proof.
  induction n as [|n IH]; intros k Hwf Hk; pose proof Hwf as [Hlen _].
  { unfold scheduled. rewrite drop_ge by (unfold rings; rewrite length_fmap; lia). done. }
  destruct (lookup_lt_is_Some_2 (queues s) k) as [[queue next] Hq]; [lia|].
  destruct (decide (queue = [])) as [->|Hne]; [|by eapply schedule_queue].
  assert (rings s !! k = Some []) as Hrk by (unfold rings; rewrite list_lookup_fmap, Hq; done).
  unfold scheduled. rewrite (drop_S _ _ _ Hrk). cbn [seq schedule_loop spec_schedule].
  erewrite bind_run by done. rewrite Hq. erewrite bind_run by done. cbv beta iota.
  change (length [] =? 0)%nat with true. cbv iota. specialize (IH (S k) Hwf ltac:(lia)).
  unfold scheduled in IH. destruct (spec_schedule _ _) as [[p rs']|]; [|done].
  destruct IH as (s' & -> & Hp & Hs & Hwf' & Hr & Hel). exists s'. split_and!; try done.
  rewrite Hr, (take_S_r _ _ _ Hrk), <- app_assoc. done.
Qed.

Lemma schedule_run s : sched_wf s → scheduled s (rings s) 0 (schedule_next_thread s).
Proof. intros Hwf. rewrite <- (drop_0 (rings s)) at 1. by apply (schedule_levels s 3 0). Qed.

(** *** Fairness *)

(** [n] calls, when no thread changes its state in between. *)
Fixpoint schedule_times (n : nat) : SM unit :=
  match n with
  | O => mret tt
  | S n' => schedule_next_thread;; schedule_times n'
  end.

(** The highest priority queue that is not empty. *)
Fixpoint top (rs : list (list nat)) : list nat :=
  match rs with
  | [] => []
  | [] :: rs' => top rs'
  | r :: _ => r
  end.

Lemma list_find_split (P : nat → Prop) `{!∀ p, Decision (P p)} a p b : P p →
  ∃ d x, list_find P (a ++ p :: b) = Some (d, x) ∧ (d ≤ length a)%nat ∧
    (d = length a → x = p).
Proof.
  intros Hp. destruct (list_find P (a ++ p :: b)) as [[d x]|] eqn:E.
  - exists d, x. split; [done|]. apply list_find_Some in E as (Hd & Hx & Hb).
    assert ((a ++ p :: b) !! length a = Some p) as Hpa by by apply list_lookup_middle.
    split.
    + destruct (decide (d ≤ length a)%nat); [done|]. exfalso. apply (Hb (length a) p); [done|lia|done].
    + intros ->. congruence.
  - exfalso. apply list_find_None in E. rewrite Forall_app, Forall_cons in E. tauto.
Qed.

Lemma spec_schedule_top (P : nat → Prop) `{!∀ p, Decision (P p)} rs d x :
  list_find P (top rs) = Some (d, x) →
  ∃ rs', spec_schedule P rs = Some (x, rs') ∧ top rs' = drop (S d) (top rs) ++ take (S d) (top rs).
Proof.
  induction rs as [|[|y r] rs IH]; [done| |]; cbn [top spec_schedule]; intros Hf.
  - destruct (IH Hf) as (rs' & -> & Ht). by exists ([] :: rs').
  - rewrite Hf. eexists. split; [done|]. cbn [top].
    destruct (drop (S d) (y :: r) ++ take (S d) (y :: r)) eqn:E; [|done].
    exfalso. apply app_eq_nil in E as [_ E]. done.
Qed.

(** The round robin is fair within a priority. As long as the states of the threads do not
    change, a running thread of the highest priority queue that is not empty becomes current
    after at most as many calls of [schedule_next_thread] as threads are queued up to it. *)
Theorem schedule_fair s a p b : sched_wf s → top (rings s) = a ++ p :: b → is_running s p →
  ∃ n s', (n ≤ length a)%nat ∧ schedule_times (S n) s = Ok tt s' ∧ current_thread s' = p.
Proof.
  remember (length a) as m eqn:Em. revert s a b Em.
  induction (lt_wf m) as [m _ IH]. intros s a b -> Hwf Htop Hp.
  destruct (list_find_split (is_running s) a p b Hp) as (d & x & Hf & Hd & Hx).
  rewrite <- Htop in Hf. destruct (spec_schedule_top _ _ _ _ Hf) as (rs' & Hspec & Htop').
  pose proof (schedule_run s Hwf) as Hrun. unfold scheduled in Hrun. rewrite Hspec in Hrun.
  destruct Hrun as (s1 & Hrun & Hcur & Hsame & Hwf1 & Hr1 & _).
  destruct (decide (d = length a)) as [->|Hne].
  - exists 0%nat, s1. split; [lia|]. cbn [schedule_times]. erewrite bind_run by exact Hrun.
    split; [done|]. rewrite Hcur. by apply Hx.
  - assert (drop (S d) (a ++ p :: b) = drop (S d) a ++ p :: b) as Edrop.
    { apply drop_app_le. lia. }
    destruct (IH (length (drop (S d) a)) ltac:(rewrite length_drop; lia) s1 (drop (S d) a)
      (b ++ take (S d) (a ++ p :: b))) as (n & s' & Hn & Hrun' & Hcur'); try done.
    { rewrite take_0 in Hr1. cbn [app] in Hr1. rewrite Hr1, Htop', Htop, Edrop, <- app_assoc. done. }
    { unfold is_running. by rewrite (st_arcs _ _ Hsame). }
    exists (S n), s'. rewrite length_drop in Hn. split; [lia|]. split; [|done].
    cbn [schedule_times]. erewrite bind_run by exact Hrun. exact Hrun'.
Qed.

(** *** The context switch *)

(** The saved state of the threads that were there stays. *)
Definition keeps_exec (s s' : Sched) : Prop :=
  ∀ p t, arcs s !! p = Some t →
    ∃ t', arcs s' !! p = Some t' ∧ exec_state t' = exec_state t ∧ parent t' = parent t.

Lemma keeps_exec_arcs s s' : arcs s' = arcs s → keeps_exec s s'.
Proof. intros E p t Hp. exists t. by rewrite E. Qed.

Lemma keeps_exec_trans s1 s2 s3 : keeps_exec s1 s2 → keeps_exec s2 s3 → keeps_exec s1 s3.
Proof.
  intros H1 H2 p t Hp. destruct (H1 p t Hp) as (t' & Hp' & E1 & E2).
  destruct (H2 p t' Hp') as (t'' & Hp'' & E3 & E4). exists t''. split_and!; congruence.
Qed.

Lemma deref_Ok p s t s' : deref p s = Ok t s' → s' = s ∧ arcs s !! p = Some t.
Proof.
  unfold deref. rewrite bind_unfold. cbn. destruct (arcs s !! p) as [x|] eqn:E; [|done].
  intros [= <- <-]. done.
Qed.

Lemma update_Ok f s s' : update f s = Ok tt s' → s' = f s.
Proof. by intros [= <-]. Qed.

Lemma skip_waiting_Ok queue skips : ∀ next s r s', skip_waiting queue skips next s = Ok r s' → s' = s.
Proof.
  induction skips as [|skips IH]; intros next s r s' H; cbn [skip_waiting] in H;
    apply bind_Ok in H as (p & ? & [_ ->]%lift_Ok & H);
    apply bind_Ok in H as (t & ? & [-> _]%deref_Ok & H);
    apply bind_Ok in H as (st & ? & [_ ->]%lift_Ok & H);
    destruct (decide (st = Running)); try done; try (by injection H as <- <-).
  by eapply IH.
Qed.

Lemma schedule_loop_arcs ks : ∀ s s', schedule_loop ks s = Ok tt s' → arcs s' = arcs s.
Proof.
  induction ks as [|k ks IH]; intros s s' H; [done|]. cbn [schedule_loop] in H.
  apply bind_Ok in H as (s0 & ? & [= <- <-] & H).
  apply bind_Ok in H as ([queue next] & ? & [_ ->]%lift_Ok & H).
  destruct (_ =? 0)%nat; [by apply IH|].
  apply bind_Ok in H as ([skips n] & ? & ->%skip_waiting_Ok & H).
  destruct (skips =? 0)%nat.
  - apply bind_Ok in H as ([] & ? & ->%update_Ok & H). by apply IH in H.
  - apply bind_Ok in H as (p & ? & [_ ->]%lift_Ok & H).
    apply bind_Ok in H as ([] & ? & ->%update_Ok & H). by apply update_Ok in H as ->.
Qed.

Lemma find_thread_Ok l id : ∀ s o s', find_thread l id s = Ok o s' → s' = s.
Proof.
  induction l as [|p l IH]; intros s o s' H; cbn [find_thread] in H; [by injection H as <- <-|].
  apply bind_Ok in H as (t & ? & [-> _]%deref_Ok & H). destruct (_ =? _); [by injection H as <- <-|].
  by eapply IH.
Qed.

Lemma retain_other_Ok id l : ∀ s l' s', retain_other id l s = Ok l' s' → s' = s.
Proof.
  induction l as [|p l IH]; intros s l' s' H; cbn [retain_other] in H; [by injection H as <- <-|].
  apply bind_Ok in H as (t & ? & [-> _]%deref_Ok & H). apply bind_Ok in H as (l'' & ? & ->%IH & H).
  by injection H as <- <-.
Qed.

Lemma add_thread_arcs p s s' : add_thread p s = Ok tt s' → arcs s' = arcs s.
Proof.
  intros H. unfold add_thread in H. apply bind_Ok in H as (t & ? & [-> _]%deref_Ok & H).
  apply bind_Ok in H as (prio & ? & [_ ->]%lift_Ok & H). apply bind_Ok in H as (s0 & ? & [= <- <-] & H).
  apply bind_Ok in H as ([queue next] & ? & [_ ->]%lift_Ok & H). by injection H as <-.
Qed.

Lemma remove_thread_arcs p s s' : remove_thread p s = Ok tt s' → arcs s' = arcs s.
Proof.
  intros H. unfold remove_thread in H. apply bind_Ok in H as (t & ? & [-> _]%deref_Ok & H).
  apply bind_Ok in H as (prio & ? & [_ ->]%lift_Ok & H). apply bind_Ok in H as (s0 & ? & [= <- <-] & H).
  apply bind_Ok in H as ([queue next] & ? & [_ ->]%lift_Ok & H).
  apply bind_Ok in H as (queue' & ? & ->%retain_other_Ok & H).
  apply bind_Ok in H as ([] & ? & ->%update_Ok & H). apply bind_Ok in H as (cur & ? & [-> _]%deref_Ok & H).
  destruct (_ =? _); [by apply schedule_loop_arcs in H|by injection H as <-].
Qed.

Lemma run_kernel_op_keeps o s s' : run_kernel_op o s = Ok tt s' → keeps_exec s s'.
Proof.
  destruct o as [| |p st|p t|p]; cbn [run_kernel_op]; intros H.
  - by apply keeps_exec_arcs, (schedule_loop_arcs [0;1;2]%nat).
  - unfold make_task_executor_current, thread_for_id in H. apply bind_Ok in H as (o & s1 & H1 & H).
    apply bind_Ok in H1 as (s0 & ? & [= <- <-] & ->%find_thread_Ok).
    apply bind_Ok in H as (p & ? & [_ ->]%lift_Ok & ->%update_Ok). by apply keeps_exec_arcs.
  - unfold set_state in H. apply bind_Ok in H as (t & ? & [-> Ht]%deref_Ok & ->%update_Ok).
    intros p' t' Hp'. cbn. destruct (decide (p' = p)) as [->|Hne].
    + rewrite lookup_insert_eq. eexists. split; [done|]. cbn. naive_solver.
    + rewrite lookup_insert_ne by done. eauto.
  - apply bind_Ok in H as (s0 & ? & [= <- <-] & H). unfold assert in H.
    destruct (bool_decide_reflect (arcs s !! p = None)) as [Hnone|]; [|done].
    apply bind_Ok in H as ([] & ? & [= <-] & H). apply bind_Ok in H as ([] & ? & ->%update_Ok & H).
    unfold spawn_thread in H. apply bind_Ok in H as ([] & ? & ->%update_Ok & H).
    apply add_thread_arcs in H. intros p' t' Hp'. rewrite H. cbn.
    rewrite lookup_insert_ne by congruence. eauto.
  - by apply keeps_exec_arcs, (remove_thread_arcs p).
Qed.

Lemma run_kernel_ops_keep ops : ∀ s s', for_each run_kernel_op ops s = Ok tt s' → keeps_exec s s'.
Proof.
  induction ops as [|o ops IH]; intros s s' H; cbn [for_each] in H.
  - injection H as <-. by apply keeps_exec_arcs.
  - apply bind_Ok in H as ([] & s1 & H1 & H). eapply keeps_exec_trans; [by eapply run_kernel_op_keeps|].
    by apply IH.
Qed.

Lemma handle_exception_Ok ops s s' : handle_exception ops s = Ok tt s' →
  (∀ p t, p ≠ current_thread s → arcs s !! p = Some t →
     ∃ t', arcs s' !! p = Some t' ∧ exec_state t' = exec_state t ∧ parent t' = parent t) ∧
  (∃ t0 t', arcs s !! current_thread s = Some t0 ∧ arcs s' !! current_thread s = Some t' ∧
     exec_state t' = save (cpu s) ∧ parent t' = parent t0) ∧
  (∃ t', arcs s' !! current_thread s' = Some t' ∧ save (cpu s') = exec_state t' ∧
     (parent t' ≠ None → ttbr0 (cpu s') = parent t')).
Proof.
  intros H. unfold handle_exception in H. apply bind_Ok in H as (q & s1 & H1 & H).
  unfold pause_current_thread in H1. apply bind_Ok in H1 as (s0 & ? & [= <- <-] & H1).
  apply bind_Ok in H1 as (t0 & ? & [-> Ht0]%deref_Ok & H1).
  apply bind_Ok in H1 as ([] & ? & [= <-] & [= <- <-]).
  apply bind_Ok in H as ([] & s2 & H2%run_kernel_ops_keep & H).
  unfold resume_current_thread in H. apply bind_Ok in H as (s0 & ? & [= <- <-] & H).
  apply bind_Ok in H as (t1 & ? & [-> Ht1]%deref_Ok & H). injection H as <-. cbn. split_and!.
  - intros p t Hne Hp. apply H2. cbn. by rewrite lookup_insert_ne.
  - destruct (H2 (current_thread s) _ (lookup_insert_eq _ _ _)) as (t' & Ht' & E1 & E2).
    by exists t0, t'.
  - exists t1. split; [done|]. split; [by destruct (exec_state t1)|].
    destruct (parent t1); by intros.
Qed.

(** Steps of the machine in which [p] is not interrupted: other threads run and are interrupted. *)
Inductive away (p : nat) : Sched → Sched → Prop :=
  | away_refl s : away p s s
  | away_user s s1 c : away p s s1 → away p s (set_cpu s1 c)
  | away_exception s s1 ops s2 : away p s s1 → current_thread s1 ≠ p →
      handle_exception ops s1 = Ok tt s2 → away p s s2.

Lemma away_saved p s s' t : away p s s' → arcs s !! p = Some t →
  ∃ t', arcs s' !! p = Some t' ∧ exec_state t' = exec_state t ∧ parent t' = parent t.
Proof.
  induction 1 as [s|s s1 c _ IH|s s1 ops s2 _ IH Hne H]; intros Hp; [eauto|by apply IH|].
  destruct (IH Hp) as (t1 & Hp1 & E1 & E2). apply handle_exception_Ok in H as (Hkeep & _).
  destruct (Hkeep p t1) as (t2 & Hp2 & E3 & E4); [done|done|]. exists t2. split_and!; congruence.
Qed.

(** *** Properties *)

(** C12: on a well-formed scheduler, [schedule_next_thread] refines the round robin over rotating
    lists. The first running thread of the highest priority queue that is not empty becomes
    current and goes to the back of its queue together with the waiting threads in front of it;
    the other queues keep their order and no thread changes. When every thread of that queue is
    waiting, the call panics, although lower priority queues may hold threads that can run. *)
Theorem schedule_round_robin s : sched_wf s →
  match spec_schedule (is_running s) (rings s) with
  | Some (p, rs') => ∃ s', schedule_next_thread s = Ok tt s' ∧ current_thread s' = p ∧
      rings s' = rs' ∧ sched_wf s' ∧ same_threads s s'
  | None => schedule_next_thread s = Stop Panic
  end.
Proof.
  intros Hwf. pose proof (schedule_run s Hwf) as H. unfold scheduled in H.
  destruct (spec_schedule _ _) as [[p rs']|]; [|done].
  destruct H as (s' & ? & ? & ? & ? & ? & _). by exists s'.
Qed.

(** C13: a thread that is interrupted resumes exactly where it was. Whatever other threads run
    and whatever the kernel does with the scheduler in between, when the thread is resumed the
    registers, program counter, stack pointer and program status are the ones it had when it was
    interrupted, and the page tables of its process are active. *)
Theorem context_restored s0 ops s1 s2 ops' s3 t :
  arcs s0 !! current_thread s0 = Some t →
  handle_exception ops s0 = Ok tt s1 →
  away (current_thread s0) s1 s2 → current_thread s2 ≠ current_thread s0 →
  handle_exception ops' s2 = Ok tt s3 → current_thread s3 = current_thread s0 →
  save (cpu s3) = save (cpu s0) ∧ (parent t ≠ None → ttbr0 (cpu s3) = parent t).
Proof.
  intros Ht H0 Haway Hne H2 Hcur.
  apply handle_exception_Ok in H0 as (_ & (t0 & t1 & Ht0 & Ht1 & E1 & P1) & _).
  destruct (away_saved _ _ _ _ Haway Ht1) as (t2 & Ht2 & E2 & P2).
  apply handle_exception_Ok in H2 as (Hkeep & _ & (t3' & Ht3' & E4 & P4)).
  destruct (Hkeep _ t2 (not_eq_sym Hne) Ht2) as (t3 & Ht3 & E3 & P3).
  rewrite Hcur in Ht3'. assert (t3' = t3) as -> by congruence. assert (t0 = t) as -> by congruence.
  rewrite E4, E3, E2, E1. split; [done|]. intros Hpar. rewrite P4; congruence.
Qed.

(** *** Witnesses *)

Definition demo_cpu (n : Z) : Cpu :=
  {| regs := replicate 31 n; spsr_el1 := n; elr_el1 := n; sp_el0 := n; ttbr0 := None |}.
Definition demo_thread (id : Z) (st : ThreadState) : Thread :=
  {| tid := id; parent := Some id; atomic_state := state_into st; atomic_priority := 1;
     exec_state := save (demo_cpu id); stack_start := 0; stack_page_count := 0 |}.
(** The idle thread and two user threads, of which thread 2 is current. *)
Definition demo_sched (st1 : ThreadState) : Sched :=
  {| arcs := {[ 0%nat := idle_thread; 1%nat := demo_thread 11 st1; 2%nat := demo_thread 12 Running ]};
     threads := [0; 1; 2]%nat; next_tid := 13;
     queues := [([], 0); ([1; 2], 0); ([0], 0)]%nat; current_thread := 2; cpu := demo_cpu 77 |}.

Lemma demo_sched_wf st : sched_wf (demo_sched st).
Proof.
  split; [done|]. repeat constructor; cbn; eexists _, _; (split; [reflexivity|]); by destruct st.
Qed.

Example schedule_round_robin_witness : ∃ s', schedule_next_thread (demo_sched Waiting) = Ok tt s' ∧
  current_thread s' = 2%nat ∧ rings s' = [[]; [1; 2]; [0]]%nat.
Proof.
  pose proof (schedule_round_robin (demo_sched Waiting) (demo_sched_wf Waiting)) as H.
  assert (spec_schedule (is_running (demo_sched Waiting)) (rings (demo_sched Waiting))
          = Some (2, [[]; [1; 2]; [0]])%nat) as E by (vm_compute; reflexivity).
  rewrite E in H. destruct H as (s' & ? & ? & ? & _). exists s'. split; [assumption|]. split; assumption.
Defined.

Example schedule_fair_witness : ∃ n s', (n ≤ 1)%nat ∧
  schedule_times (S n) (demo_sched Running) = Ok tt s' ∧ current_thread s' = 2%nat.
Proof.
  apply (schedule_fair (demo_sched Running) [1%nat] 2%nat []).
  - apply demo_sched_wf.
  - reflexivity.
  - exists (demo_thread 12 Running). split; reflexivity.
Defined.

Definition after (ops : list kernel_op) (s : Sched) : Sched :=
  match handle_exception ops s with Ok _ s' => s' | _ => s end.

(** Thread 2 is interrupted by the timer, thread 1 runs and changes the registers, and the next
    timer interrupt resumes thread 2. *)
Example context_restored_witness :
  let s1 := after [KSchedule] (demo_sched Running) in
  let s2 := set_cpu s1 (demo_cpu 5) in
  let s3 := after [KSchedule] s2 in
  current_thread s1 = 1%nat ∧ elr_el1 (cpu s2) = 5 ∧ save (cpu s3) = save (demo_cpu 77).
Proof.
  cbv zeta. split; [vm_compute; reflexivity|]. split; [reflexivity|].
  apply (context_restored (demo_sched Running) [KSchedule] (after [KSchedule] (demo_sched Running))
    (set_cpu (after [KSchedule] (demo_sched Running)) (demo_cpu 5)) [KSchedule] _ (demo_thread 12 Running)).
  - reflexivity.
  - vm_compute. reflexivity.
  - apply away_user, away_refl.
  - vm_compute. congruence.
  - vm_compute. reflexivity.
  - vm_compute. reflexivity.
Defined.
