(* ===== verification/Nvme.v ===== *)
(** The NVMe driver's queues and commands ([storage/nvme]): submission and completion rings shared
    with the device, command encoding, the page lists of a transfer, and futures for completions. *)
From Stdlib Require Import Strings.String.
From stdpp Require Import base list gmap.
From S2P Require Import Prelude BitField Addresses BlockCache.

Definition SUBMISSION_ENTRY_SIZE : Z := 64.
Definition COMPLETION_ENTRY_SIZE : Z := 16.
Abbreviation QueueId := Z (only parsing).

(** Checked [u16] addition. *)
Definition u16add (a b : Z) : option Z := if a + b <? 65536 then Some (a + b) else None.
Definition u16sub (a b : Z) : option Z := if b <=? a then Some (a - b) else None.

Section nvme.
Context {BF : BitField}.

(** *** Commands *)

(** A command under construction: its sixteen dwords (a borrow of the queue's memory), the tail of the
    queue once it is submitted, and the buffers of its page lists, each with its physical address. *)
Record Command := {
  new_tail : Z;
  cmd : list Z;
  extra_data_ptr_buffers : list (Z * list Z);
}.

Definition set_cmd (c : Command) (l : list Z) : Command :=
  {| new_tail := new_tail c; cmd := l; extra_data_ptr_buffers := extra_data_ptr_buffers c |}.

Definition set_dword (idx : nat) (data : Z) (c : Command) : Command :=
  set_cmd c (<[idx := data mod 2 ^ 32]> (cmd c)).
Definition set_qword (idx : nat) (data : Z) (c : Command) : Command :=
  set_cmd c (<[S idx := Z.shiftr data 32 mod 2 ^ 32]> (<[idx := data mod 2 ^ 32]> (cmd c))).
Definition set_command_id (id : Z) (c : Command) : Command :=
  set_cmd c (alter (λ w, set_bit_range w 31 16 id) 0%nat (cmd c)).
Definition set_opcode (op : Z) (c : Command) : Command :=
  set_cmd c (alter (λ w, set_bit_range w 7 0 op) 0%nat (cmd c)).
Definition set_namespace_id (id : Z) (c : Command) : Command := set_cmd c (<[1%nat := id]> (cmd c)).
Definition set_data_ptr_single (ptr : Z) (c : Command) : Command := set_qword 6 ptr c.

(** Admin commands *)
Inductive IdentifyStructure := Namespace | Controller | ActiveNamespaceList.
Definition identify_code (s : IdentifyStructure) : Z :=
  match s with Namespace => 0 | Controller => 1 | ActiveNamespaceList => 2 end.
Inductive QueuePriority := Urgent | High | Medium | Low.
Definition priority_code (p : QueuePriority) : Z :=
  match p with Urgent => 0 | High => 1 | Medium => 2 | Low => 3 end.

Definition identify (controller_id : Z) (structure_id : IdentifyStructure) (c : Command) : Command :=
  set_dword 10 (Z.lor (Z.shiftl controller_id 16) (identify_code structure_id)) (set_opcode 0x06 c).

Definition create_io_completion_queue (queue_id queue_size interrupt_vector_index : Z)
    (interrupts_enabled physically_continuous : bool) (c : Command) : option Command :=
  n ← u16sub queue_size 1;
  Some (set_dword 11 (Z.lor (Z.lor (Z.shiftl interrupt_vector_index 16) (if interrupts_enabled then 2 else 0))
                        (if physically_continuous then 1 else 0))
          (set_dword 10 (Z.lor (Z.shiftl n 16) queue_id) (set_opcode 0x05 c))).
Definition delete_io_completion_queue (queue_id : Z) (c : Command) : Command :=
  set_dword 10 queue_id (set_opcode 0x04 c).

Definition create_io_submission_queue (queue_id queue_size completion_queue_id : Z) (priority : QueuePriority)
    (physically_continuous : bool) (c : Command) : option Command :=
  n ← u16sub queue_size 1;
  Some (set_dword 12 0
          (set_dword 11 (Z.lor (Z.lor (Z.shiftl completion_queue_id 16) (Z.shiftl (priority_code priority) 1))
                           (if physically_continuous then 1 else 0))
             (set_dword 10 (Z.lor (Z.shiftl n 16) queue_id) (set_opcode 0x01 c)))).
Definition delete_io_submission_queue (queue_id : Z) (c : Command) : Command :=
  set_dword 10 queue_id (set_opcode 0x00 c).

(** IO commands *)
Definition read (starting_lba num_blocks : Z) (c : Command) : Command :=
  set_dword 13 0 (set_dword 12 num_blocks (set_qword 10 starting_lba (set_opcode 0x02 c))).
Definition flush (c : Command) : Command := set_opcode 0x00 c.
Definition write (starting_lba num_blocks : Z) (c : Command) : Command :=
  set_dword 13 0 (set_dword 12 num_blocks (set_qword 10 starting_lba (set_opcode 0x01 c))).

(** *** The pages of a transfer *)

(** The page list being filled is the data pointer field of the command, which has two entries, or the last
    of the buffers allocated; [current_offset] is the place in it. *)
Record Prp := {
  data_ptr : list Z;
  lists : list (Z * list Z);
  current_offset : nat;
}.

Definition prp_page_len (p : Prp) : nat := match lists p with [] => 2 | _ => 512 end.

(** [prp_page[current_offset] = v] *)
Fixpoint set_last (i : nat) (v : Z) (l : list (Z * list Z)) : list (Z * list Z) :=
  match l with
  | [] => []
  | [(pa, page)] => [(pa, <[i := v]> page)]
  | x :: l' => x :: set_last i v l'
  end.
Definition prp_set (v : Z) (p : Prp) : Prp :=
  match lists p with
  | [] => {| data_ptr := <[current_offset p := v]> (data_ptr p); lists := []; current_offset := current_offset p |}
  | l => {| data_ptr := data_ptr p; lists := set_last (current_offset p) v l; current_offset := current_offset p |}
  end.

(** [alloc n] is what the [n]th [PhysicalBuffer::alloc_zeroed] of the call gives. *)
Definition next_list (alloc : nat → Z + MemoryError) (p : Prp) : Prp + StorageError :=
  match alloc (length (lists p)) with
  | inr e => inr (StorageMemory e)
  | inl pa =>
      let p := prp_set pa p in
      inl {| data_ptr := data_ptr p; lists := lists p ++ [(pa, replicate 512 0)]; current_offset := 0 |}
  end.

Definition put_page (alloc : nat → Z + MemoryError) (addr : Z) (p : Prp) : Prp + StorageError :=
  match (if (current_offset p =? prp_page_len p - 1)%nat then next_list alloc p else inl p) with
  | inr e => inr e
  | inl p =>
      let p := prp_set addr p in
      inl {| data_ptr := data_ptr p; lists := lists p; current_offset := S (current_offset p) |}
  end.

(** The loop over one region; with [blocks_per_page = 0] it would not end. *)
Fixpoint region_loop (fuel : nat) (alloc : nat → Z + MemoryError) (blocks_per_page size num_blocks next_page_addr : Z)
    (p : Prp) : option (Prp + StorageError) :=
  if num_blocks <? size then
    match fuel with
    | O => None
    | S fuel' =>
        match put_page alloc next_page_addr p with
        | inr e => Some (inr e)
        | inl p =>
            region_loop fuel' alloc blocks_per_page size (num_blocks + blocks_per_page)
              (PhysicalAddress.add next_page_addr PAGE_SIZE) p
        end
    end
  else Some (inl p).

Fixpoint regions_loop (alloc : nat → Z + MemoryError) (blocks_per_page : Z) (regions : list (Z * Z)) (p : Prp)
    : option (Prp + StorageError) :=
  match regions with
  | [] => Some (inl p)
  | (pa, n) :: r =>
      x ← region_loop (Z.to_nat n) alloc blocks_per_page n 0 pa p;
      match x with
      | inl p => regions_loop alloc blocks_per_page r p
      | inr e => Some (inr e)
      end
  end.

Definition entry_at (l : list Z) (i : nat) : Z :=
  default 0 (l !! i) + 2 ^ 32 * default 0 (l !! S i).

Definition set_data_ptrs (alloc : nat → Z + MemoryError) (regions : list (Z * Z)) (blocks_per_page : Z) (c : Command)
    : option (Command + StorageError) :=
  match regions with
  | [] => Some (inr (BadVector "must have at least one entry" None))
  | _ =>
      x ← regions_loop alloc blocks_per_page regions
            {| data_ptr := [entry_at (cmd c) 6; entry_at (cmd c) 8]; lists := []; current_offset := 0 |};
      match x with
      | inr e => Some (inr e)
      | inl p =>
          let c := set_qword 8 (default 0 (data_ptr p !! 1%nat)) (set_qword 6 (default 0 (data_ptr p !! 0%nat)) c) in
          Some (inl {| new_tail := new_tail c; cmd := cmd c;
                       extra_data_ptr_buffers := extra_data_ptr_buffers c ++ lists p |})
      end
  end.

(** *** Submission queues *)

(** [head] is shared with the completion queue, which updates it; see [heads] below. *)
Record SubmissionQueue := {
  sq_id : QueueId;
  sq_memory : list (list Z);
  sq_entry_count : Z;
  tail : Z;
  tail_doorbell : Z;      (* the value last written to it *)
}.

Definition sq_doorbell_address (doorbell_base id doorbell_stride : Z) : Z :=
  VirtualAddress.add doorbell_base (2 * id * Z.shiftl 4 doorbell_stride).
Definition cq_doorbell_address (doorbell_base id doorbell_stride : Z) : Z :=
  VirtualAddress.add doorbell_base ((2 * id + 1) * Z.shiftl 4 doorbell_stride).
Definition sq_page_count (entry_count : Z) : Z := div_ceil (entry_count * SUBMISSION_ENTRY_SIZE) PAGE_SIZE.
Definition cq_page_count (entry_count : Z) : Z := div_ceil (entry_count * COMPLETION_ENTRY_SIZE) PAGE_SIZE.

Definition new_sq (id entry_count : Z) (heads : gmap QueueId Z) : SubmissionQueue * gmap QueueId Z :=
  ({| sq_id := id; sq_memory := replicate (Z.to_nat entry_count) (replicate 16 0); sq_entry_count := entry_count;
      tail := 0; tail_doorbell := 0 |}, <[id := 0]> heads).

Definition full (head : Z) (self : SubmissionQueue) : option bool :=
  t ← u16add (tail self) 1; Some (head =? t).

(** [None] is a panic. *)
Definition begin (head : Z) (self : SubmissionQueue) : option (option Command) :=
  f ← full head self;
  if (f : bool) then Some None
  else
    t ← u16add (tail self) 1;
    if sq_entry_count self =? 0 then None
    else Some (Some {| new_tail := t mod sq_entry_count self; cmd := replicate 16 0; extra_data_ptr_buffers := [] |}).

(** The command is written at the tail (as it is built), the tail moves, and the device is told. *)
Definition submit (c : Command) (self : SubmissionQueue) : SubmissionQueue * list (Z * list Z) :=
  ({| sq_id := sq_id self; sq_memory := <[Z.to_nat (tail self) := cmd c]> (sq_memory self);
      sq_entry_count := sq_entry_count self; tail := new_tail c; tail_doorbell := new_tail c |},
   extra_data_ptr_buffers c).

(** *** Completion queues *)

Definition phase_tag (status : Z) : bool := bit status 0.
Definition status_code (status : Z) : Z := bit_range status 8 1.
Definition status_code_type (status : Z) : Z := bit_range status 11 9.

Record Completion := {
  cmp_cmd : Z;
  cmp_res : Z;
  cmp_head : Z;
  cmp_sqid : QueueId;
  cmp_id : Z;
  cmp_status : Z;
}.

Record CompletionQueue := {
  cq_id : QueueId;
  cq_memory : list Completion;
  cq_entry_count : Z;
  cq_head : Z;
  head_doorbell : Z;
  current_phase : bool;
}.

Definition new_cq (id entry_count : Z) : CompletionQueue :=
  {| cq_id := id;
     cq_memory := replicate (Z.to_nat entry_count)
                    {| cmp_cmd := 0; cmp_res := 0; cmp_head := 0; cmp_sqid := 0; cmp_id := 0; cmp_status := 0 |};
     cq_entry_count := entry_count; cq_head := 0; head_doorbell := 0; current_phase := true |}.

(** [heads] holds [assoc_submit_queue_heads]. *)
Definition pop (self : CompletionQueue) (heads : gmap QueueId Z)
    : option (option Completion * CompletionQueue * gmap QueueId Z) :=
  cmp ← cq_memory self !! Z.to_nat (cq_head self);
  if Bool.eqb (phase_tag (cmp_status cmp)) (current_phase self) then
    h ← u16add (cq_head self) 1;
    let wrap := cq_entry_count self <=? h in
    let h := if wrap then 0 else h in
    let phase := if wrap then negb (current_phase self) else current_phase self in
    _ ← heads !! cmp_sqid cmp;
    Some (Some cmp,
          {| cq_id := cq_id self; cq_memory := cq_memory self; cq_entry_count := cq_entry_count self;
             cq_head := h; head_doorbell := h; current_phase := phase |},
          <[cmp_sqid cmp := cmp_head cmp]> heads)
  else Some (None, self, heads).

(** What the creation of a queue makes of the device's answer; [None] is a panic. *)
Inductive QueueCreateError :=
  | Generic (code : Z)
  | InvalidQueueId
  | InvalidQueueSize
  | InvalidInterruptVectorIndex
  | InvalidCompletionQueueId.

Definition sq_create_result (status : Z) : option (unit + QueueCreateError) :=
  match status_code_type status, status_code status with
  | 0, 0 => Some (inl tt)
  | 0, code => Some (inr (Generic code))
  | 1, 1 => Some (inr InvalidCompletionQueueId)
  | 1, 2 => Some (inr InvalidQueueId)
  | 1, 8 => Some (inr InvalidQueueSize)
  | _, _ => None
  end.
Definition cq_create_result (status : Z) : option (unit + QueueCreateError) :=
  match status_code_type status, status_code status with
  | 0, 0 => Some (inl tt)
  | 0, code => Some (inr (Generic code))
  | 1, 1 => Some (inr InvalidQueueId)
  | 1, 2 => Some (inr InvalidQueueSize)
  | 1, 8 => Some (inr InvalidInterruptVectorIndex)
  | _, _ => None
  end.

(** The commands that create and delete queues, on the admin queue; [None] is a panic, also when it is full. *)
Definition request_sq (head : Z) (parent : SubmissionQueue) (id size completion_queue_id address : Z)
    (priority : QueuePriority) : option SubmissionQueue :=
  if 0 <? id then
    o ← begin head parent; c ← o;
    c ← create_io_submission_queue id size completion_queue_id priority true c;
    Some (submit (set_data_ptr_single address c) parent).1
  else None.
Definition request_cq (head : Z) (parent : SubmissionQueue) (id size address : Z) (interrupt_index : option Z)
    : option SubmissionQueue :=
  if 0 <? id then
    o ← begin head parent; c ← o;
    c ← create_io_completion_queue id size (default 0 interrupt_index) (bool_decide (is_Some interrupt_index)) true c;
    Some (submit (set_data_ptr_single address c) parent).1
  else None.
Definition drop_sq (head : Z) (parent : SubmissionQueue) (id : Z) : option SubmissionQueue :=
  o ← begin head parent; c ← o; Some (submit (delete_io_submission_queue id c) parent).1.
Definition drop_cq (head : Z) (parent : SubmissionQueue) (id : Z) : option SubmissionQueue :=
  o ← begin head parent; c ← o; Some (submit (delete_io_completion_queue id c) parent).1.

(** *** Configuration *)

(** The registers that [configure] writes. *)
Definition set_completion_queue_size (r n : Z) : Z := set_bit_range r 27 16 n.
Definition set_submission_queue_size (r n : Z) : Z := set_bit_range r 11 0 n.
Definition admin_queue_attrbs (admin_cq_size admin_sq_size : Z) : Z :=
  set_completion_queue_size (set_submission_queue_size 0 admin_cq_size) admin_sq_size.
Definition controller_config : Z :=
  let r := set_bit_range 0 13 11 0 in
  let r := set_bit_range r 6 4 0 in
  let r := set_bit_range r 10 7 (Z.log2 PAGE_SIZE - 12) in
  let r := set_bit_range r 19 16 (Z.log2 SUBMISSION_ENTRY_SIZE) in
  let r := set_bit_range r 23 20 (Z.log2 COMPLETION_ENTRY_SIZE) in
  set_bit r 0 true.

(** The namespace ids up to the first zero of the 1024 words of the answer. *)
Fixpoint namespace_ids (id_res : list Z) : list Z :=
  match id_res with
  | [] => []
  | val :: r => if val =? 0 then [] else val :: namespace_ids r
  end.

(** *** Transfers *)

(** The command of [NamespaceBlockStore::read_blocks] and [write_blocks], before it gets its id. *)
Definition total_blocks (regions : list (Z * Z)) : Z := foldr (λ r n, r.2 + n) 0 regions.
Definition prepare (is_write : bool) (alloc : nat → Z + MemoryError) (namespace_id block_size : Z) (head : Z)
    (sq : SubmissionQueue) (address : Z) (regions : list (Z * Z)) : option (Command + StorageError) :=
  if total_blocks regions <? U64 then
    if total_blocks regions <? 65536 then
      o ← begin head sq;
      match o with
      | None => None   (* [expect] *)
      | Some c =>
          if block_size =? 0 then None
          else
            x ← set_data_ptrs alloc regions (PAGE_SIZE / block_size) (set_namespace_id namespace_id c);
            Some match x with
                 | inl c => inl (if is_write then write address (total_blocks regions) c
                                 else read address (total_blocks regions) c)
                 | inr e => inr e
                 end
      end
    else Some (inr (BadVector "cannot read more than 2^16 total blocks from NVMe device" None))
  else None.
Definition transfer_result (is_write : bool) (regions : list (Z * Z)) (cmp : Completion) : Z + StorageError :=
  if (status_code_type (cmp_status cmp) =? 0) && (status_code (cmp_status cmp) =? 0)
  then inl (total_blocks regions)
  else inr (DeviceError (if is_write then "failed to do NVMe write" else "failed to do NVMe read")).

(** *** Waiting for completions *)

(** A waker is named by the task it wakes. *)
Inductive PendingCompletion :=
  | Waiting (waker : nat)
  | Ready (cmp : Completion).

Record Handle := {
  next_cmd_id : Z;
  pending_completions : gmap Z PendingCompletion;
}.

Definition set_pending (h : Handle) (m : gmap Z PendingCompletion) : Handle :=
  {| next_cmd_id := next_cmd_id h; pending_completions := m |}.

(** The id of the future, and the command to submit. *)
Definition wait_for_completion (c : Command) (h : Handle) : Z * Command * Handle :=
  (next_cmd_id h, set_command_id (next_cmd_id h) c,
   {| next_cmd_id := (next_cmd_id h + 1) mod 65536; pending_completions := pending_completions h |}).

(** [CompletionFuture::poll], which runs with interrupts disabled. *)
Definition poll (cmd_id : Z) (waker : nat) (h : Handle) : option Completion * Handle :=
  match pending_completions h !! cmd_id with
  | None => (None, set_pending h (<[cmd_id := Waiting waker]> (pending_completions h)))
  | Some (Waiting _) =>
      (None, set_pending h (<[cmd_id := Waiting waker]> (delete cmd_id (pending_completions h))))
  | Some (Ready cmp) => (Some cmp, set_pending h (delete cmd_id (pending_completions h)))
  end.

(** [handle_interrupt], with the completion it popped: the task to wake. [None] is a panic. *)
Definition handle_completion (cmp : Completion) (h : Handle) : option (option nat * Handle) :=
  match pending_completions h !! cmp_id cmp with
  | Some (Waiting w) => Some (Some w, set_pending h (<[cmp_id cmp := Ready cmp]> (pending_completions h)))
  | Some (Ready _) => None
  | None => Some (None, set_pending h (<[cmp_id cmp := Ready cmp]> (pending_completions h)))
  end.
End nvme.
