(* ===== verification/NvmeRings.v ===== *)
(** The rings of the NVMe driver against a device: commands and completions arrive in order, each
    once, and what the missing wrap-around in [full] does. *)
From stdpp Require Import base list gmap.
From S2P Require Import Prelude BitField Nvme.

Section rings.
Context {BF : BitField}.

(** *** The driver and the device *)

(** The last four fields record what has happened; [posted] and [popped] come with the number of commands
    the device had fetched when it posted the completion. *)
Record sys := {
  sq : SubmissionQueue;
  cq : CompletionQueue;
  heads : gmap Z Z;
  dev_head : Z;              (* the next slot the device fetches from *)
  dev_tail : Z;              (* the next slot the device posts to *)
  dev_phase : bool;
  submitted : list (list Z);
  fetched : list (list Z);
  posted : list (Completion * nat);
  popped : list (Completion * nat);
}.

Definition start (id n m : Z) : sys :=
  let '(q, h) := new_sq id n ∅ in
  {| sq := q; cq := new_cq id m; heads := h; dev_head := 0; dev_tail := 0; dev_phase := true;
     submitted := []; fetched := []; posted := []; popped := [] |}.

(** The commands the driver knows to have been fetched. *)
Definition retired (st : sys) : nat := default 0%nat (snd <$> last (popped st)).

(** The one situation [full] gets wrong: all but one slot in use, and the free slot the last of the ring. *)
Definition at_wrap (st : sys) : Prop :=
  Z.of_nat (length (submitted st)) = Z.of_nat (retired st) + sq_entry_count (sq st) - 1
  ∧ tail (sq st) = sq_entry_count (sq st) - 1.

Definition advance (n x : Z) : Z := if x + 1 =? n then 0 else x + 1.

Inductive step : sys → sys → Prop :=
  (* the driver begins a command, fills in its dwords and submits it *)
  | step_submit st head c dwords q bufs :
      ¬ at_wrap st →
      heads st !! sq_id (sq st) = Some head → begin head (sq st) = Some (Some c) → length dwords = 16%nat →
      submit (set_cmd c dwords) (sq st) = (q, bufs) →
      step st {| sq := q; cq := cq st; heads := heads st; dev_head := dev_head st; dev_tail := dev_tail st;
                 dev_phase := dev_phase st; submitted := submitted st ++ [dwords]; fetched := fetched st;
                 posted := posted st; popped := popped st |}
  (* the driver looks for a completion *)
  | step_pop st o q h :
      pop (cq st) (heads st) = Some (o, q, h) →
      step st {| sq := sq st; cq := q; heads := h; dev_head := dev_head st; dev_tail := dev_tail st;
                 dev_phase := dev_phase st; submitted := submitted st; fetched := fetched st;
                 posted := posted st;
                 popped := match o with
                           | Some cmp => popped st ++ [(cmp, default 0%nat (snd <$> posted st !! length (popped st)))]
                           | None => popped st
                           end |}
  (* the device fetches the next command, as long as the tail doorbell is ahead *)
  | step_fetch st c :
      dev_head st ≠ tail_doorbell (sq st) → sq_memory (sq st) !! Z.to_nat (dev_head st) = Some c →
      step st {| sq := sq st; cq := cq st; heads := heads st;
                 dev_head := advance (sq_entry_count (sq st)) (dev_head st); dev_tail := dev_tail st;
                 dev_phase := dev_phase st; submitted := submitted st; fetched := fetched st ++ [c];
                 posted := posted st; popped := popped st |}
  (* the device posts a completion with its phase and its head, unless the head doorbell is just ahead *)
  | step_post st cmp :
      let m := cq_entry_count (cq st) in
      advance m (dev_tail st) ≠ head_doorbell (cq st) →
      phase_tag (cmp_status cmp) = dev_phase st → cmp_head cmp = dev_head st → cmp_sqid cmp = sq_id (sq st) →
      step st {| sq := sq st;
                 cq := {| cq_id := cq_id (cq st);
                          cq_memory := <[Z.to_nat (dev_tail st) := cmp]> (cq_memory (cq st));
                          cq_entry_count := m; cq_head := cq_head (cq st);
                          head_doorbell := head_doorbell (cq st); current_phase := current_phase (cq st) |};
                 heads := heads st; dev_head := dev_head st; dev_tail := advance m (dev_tail st);
                 dev_phase := if dev_tail st + 1 =? m then negb (dev_phase st) else dev_phase st;
                 submitted := submitted st; fetched := fetched st;
                 posted := posted st ++ [(cmp, length (fetched st))]; popped := popped st |}.

Inductive reachable (id n m : Z) : sys → Prop :=
  | reach_start : reachable id n m (start id n m)
  | reach_step st st' : reachable id n m st → step st st' → reachable id n m st'.

(** *** Counters *)

(** A ring of [n] slots after [k] operations: the place and the phase. *)
Definition place (n : Z) (k : nat) : Z := Z.of_nat k mod n.
Definition phase (n : Z) (k : nat) : bool := Z.even (Z.of_nat k / n).

Lemma place_range n k : 0 < n → 0 ≤ place n k < n.
Proof. intros. by apply Z.mod_pos_bound. Qed.

Lemma place_S n k : 0 < n → place n (S k) = advance n (place n k).
Proof.
  intros Hn. unfold place, advance. replace (Z.of_nat (S k)) with (Z.of_nat k + 1) by lia.
  pose proof (Z.div_mod (Z.of_nat k) n ltac:(lia)) as E. pose proof (Z.mod_pos_bound (Z.of_nat k) n Hn) as Hm.
  destruct (Z.eqb_spec (Z.of_nat k mod n + 1) n) as [He|He].
  - symmetry. apply (Z.mod_unique _ _ (Z.of_nat k / n + 1)); [lia|]. lia.
  - symmetry. apply (Z.mod_unique _ _ (Z.of_nat k / n)); [lia|]. lia.
Qed.

Lemma phase_S n k : 0 < n → phase n (S k) = if place n k + 1 =? n then negb (phase n k) else phase n k.
Proof.
  intros Hn. unfold phase, place. replace (Z.of_nat (S k)) with (Z.of_nat k + 1) by lia.
  pose proof (Z.div_mod (Z.of_nat k) n ltac:(lia)) as E. pose proof (Z.mod_pos_bound (Z.of_nat k) n Hn) as Hm.
  destruct (Z.eqb_spec (Z.of_nat k mod n + 1) n) as [He|He].
  - replace ((Z.of_nat k + 1) / n) with (Z.of_nat k / n + 1).
    + by rewrite Z.even_add; destruct (Z.even (Z.of_nat k / n)).
    + apply (Z.div_unique _ _ _ 0); [lia|]. lia.
  - f_equal. symmetry. apply (Z.div_unique _ _ _ (Z.of_nat k mod n + 1)); [lia|]. lia.
Qed.

(** Two counters less than a lap apart have different places. *)
Lemma place_inj n j k : 0 < n → Z.of_nat j - n < Z.of_nat k < Z.of_nat j + n → place n j = place n k → j = k.
Proof.
  intros Hn Hk E. unfold place in E.
  pose proof (Z.div_mod (Z.of_nat j) n ltac:(lia)). pose proof (Z.div_mod (Z.of_nat k) n ltac:(lia)).
  set (a := Z.of_nat j / n) in *. set (b := Z.of_nat k / n) in *.
  assert (n * (a - b) = Z.of_nat j - Z.of_nat k) as E' by lia. assert (a - b = 0) by nia. nia.
Qed.

Lemma place_lap n k : 0 < n → place n (k + Z.to_nat n) = place n k ∧ phase n (k + Z.to_nat n) = negb (phase n k).
Proof.
  intros Hn. unfold place, phase. rewrite Nat2Z.inj_add, Z2Nat.id by lia. split.
  - rewrite <- (Z.mul_1_l n) at 1. by rewrite Z.mod_add by lia.
  - rewrite <- (Z.mul_1_l n) at 1. rewrite Z.div_add, Z.even_add by lia.
    by destruct (Z.even (Z.of_nat k / n)).
Qed.

(** *** The invariant *)

Record inv (id n m : Z) (st : sys) : Prop := {
  inv_n : sq_id (sq st) = id ∧ sq_entry_count (sq st) = n ∧ Z.of_nat (length (sq_memory (sq st))) = n;
  inv_m : cq_entry_count (cq st) = m ∧ Z.of_nat (length (cq_memory (cq st))) = m;
  (* the submission ring: what is submitted and not fetched is in its slots *)
  inv_tail : tail (sq st) = place n (length (submitted st)) ∧ tail_doorbell (sq st) = tail (sq st);
  inv_dev_head : dev_head st = place n (length (fetched st));
  inv_fetched : fetched st `prefix_of` submitted st;
  inv_slots : ∀ k, (length (fetched st) ≤ k < length (submitted st))%nat →
    sq_memory (sq st) !! Z.to_nat (place n k) = submitted st !! k;
  inv_room : Z.of_nat (length (submitted st)) ≤ Z.of_nat (retired st) + n - 1;
  inv_head : heads st = {[ id := place n (retired st) ]};
  (* the completion ring: what is posted and not popped is in its slots, the others have the old phase *)
  inv_cq_head : cq_head (cq st) = place m (length (popped st)) ∧ head_doorbell (cq st) = cq_head (cq st)
                ∧ current_phase (cq st) = phase m (length (popped st));
  inv_dev_tail : dev_tail st = place m (length (posted st)) ∧ dev_phase st = phase m (length (posted st));
  inv_popped : popped st `prefix_of` posted st;
  inv_cq_slots : ∀ k, (length (popped st) ≤ k < length (posted st))%nat →
    cq_memory (cq st) !! Z.to_nat (place m k) = fst <$> posted st !! k;
  inv_old : ∀ k, Z.of_nat (length (posted st)) ≤ Z.of_nat k < Z.of_nat (length (posted st)) + m →
    ∃ cmp, cq_memory (cq st) !! Z.to_nat (place m k) = Some cmp ∧ phase_tag (cmp_status cmp) = negb (phase m k);
  inv_cq_room : Z.of_nat (length (posted st)) ≤ Z.of_nat (length (popped st)) + m - 1;
  inv_posted : ∀ k cmp f, posted st !! k = Some (cmp, f) →
    phase_tag (cmp_status cmp) = phase m k ∧ cmp_sqid cmp = id ∧ cmp_head cmp = place n f ∧ (f ≤ length (fetched st))%nat;
  (* the device's heads only grow *)
  inv_sorted : ∀ j k x y, posted st !! j = Some x → posted st !! k = Some y → (j ≤ k)%nat → (x.2 ≤ y.2)%nat;
}.

Lemma place_0 n : place n 0 = 0.
Proof. by destruct n. Qed.
Lemma place_small n k : Z.of_nat k < n → place n k = Z.of_nat k ∧ phase n k = true.
Proof. intros. unfold place, phase. rewrite Z.mod_small, Z.div_small by lia. done. Qed.

Lemma inv_start id n m : 2 ≤ n → 2 ≤ m → inv id n m (start id n m).
Proof.
  intros Hn Hm. split; cbn; rewrite ?length_replicate, ?place_0; try (split_and!; lia); try done; try lia.
  - intros k Hk. destruct (place_small m k) as [-> ->]; [lia|]. eexists. split.
    + apply lookup_replicate_2. lia.
    + apply bit_0. lia.
Qed.

Lemma prefix_snoc {A} (l l' : list A) x : l `prefix_of` l' → l' !! length l = Some x → l ++ [x] `prefix_of` l'.
Proof.
  intros [k ->] Hx. rewrite lookup_app_r, Nat.sub_diag in Hx by lia. destruct k as [|y k]; [done|]. simplify_eq/=.
  exists k. by rewrite <- app_assoc.
Qed.

Lemma retired_popped st : popped st ≠ [] → ∃ cmp k, popped st !! k = Some (cmp, retired st) ∧ length (popped st) = S k.
Proof.
  intros Hne. unfold retired. destruct (popped st) as [|x l _] using rev_ind; [done|]. rewrite last_snoc. cbn.
  destruct x as [cmp f]. exists cmp, (length l). split; [by rewrite lookup_app_r, Nat.sub_diag by lia|].
  rewrite length_app. cbn. lia.
Qed.

Lemma retired_le id n m st : inv id n m st → (retired st ≤ length (fetched st))%nat.
Proof.
  intros Hinv. destruct (decide (popped st = [])) as [E|E]; [unfold retired; rewrite E; cbn; lia|].
  destruct (retired_popped st E) as (cmp & k & Hk & _). eapply prefix_lookup_Some in Hk; [|apply Hinv].
  by apply (inv_posted _ _ _ _ Hinv) in Hk as (_ & _ & _ & ?).
Qed.

Lemma begin_Some head (q : SubmissionQueue) c : begin head q = Some (Some c) →
  head ≠ tail q + 1 ∧ new_tail c = (tail q + 1) mod sq_entry_count q ∧ extra_data_ptr_buffers c = [].
Proof.
  unfold begin, full, u16add. destruct (tail q + 1 <? 65536); cbn; [|done].
  destruct (Z.eqb_spec head (tail q + 1)); [done|]. destruct (sq_entry_count q =? 0); intros [= <-]. done.
Qed.

Lemma inv_submit id n m st head c dwords q bufs : 2 ≤ n → inv id n m st → ¬ at_wrap st →
  heads st !! sq_id (sq st) = Some head → begin head (sq st) = Some (Some c) → length dwords = 16%nat →
  submit (set_cmd c dwords) (sq st) = (q, bufs) →
  inv id n m {| sq := q; cq := cq st; heads := heads st; dev_head := dev_head st; dev_tail := dev_tail st;
                dev_phase := dev_phase st; submitted := submitted st ++ [dwords]; fetched := fetched st;
                posted := posted st; popped := popped st |}.
Proof.
  intros Hn Hinv Hwrap Hhead Hbegin Hlen Hsub. pose proof (retired_le _ _ _ _ Hinv) as HR.
  apply begin_Some in Hbegin as (Hfull & Hnt & _). unfold submit in Hsub. injection Hsub as <- <-. cbn in Hnt.
  destruct Hinv as [(Hid & Hnn & Hml) Hm [Ht Htd] Hdh Hf Hsl Hroom Hh Hch Hdt Hp Hcs Hold Hcr Hpost Hsort].
  rewrite Hh, Hid, lookup_singleton_eq in Hhead. injection Hhead as <-. rewrite Hnn in *.
  set (S0 := length (submitted st)) in *.
  assert (Z.of_nat S0 < Z.of_nat (retired st) + n - 1) as Hroom'.
  { destruct (decide (Z.of_nat S0 = Z.of_nat (retired st) + n - 1)) as [E|]; [|lia]. exfalso.
    assert (tail (sq st) ≠ n - 1) as Htn by (intros Htn; apply Hwrap; unfold at_wrap; rewrite Hnn; done).
    apply Hfull. rewrite Ht in *. transitivity (place n (S S0)).
    - destruct (place_lap n (retired st)) as [<- _]; [lia|]. f_equal. lia.
    - rewrite place_S by lia. unfold advance. destruct (Z.eqb_spec (place n S0 + 1) n); [lia|done]. }
  assert ((tail (sq st) + 1) mod n = place n (S S0)) as Htail.
  { rewrite Ht. unfold place. rewrite Z.add_mod_idemp_l by lia. f_equal. lia. }
  assert (length (fetched st) ≤ S0)%nat as HFS by (by apply prefix_length).
  split; cbn [sq cq heads dev_head dev_tail dev_phase submitted fetched posted popped retired sq_id sq_entry_count
      sq_memory tail tail_doorbell new_tail set_cmd cmd]; rewrite ?length_app; cbn [length]; try done.
  - by rewrite length_insert.
  - rewrite Nat.add_1_r. by rewrite Hnt, Htail.
  - by apply prefix_app_r.
  - intros k Hk. pose proof (place_range n S0 ltac:(lia)). destruct (decide (k = S0)) as [->|Hne].
    + rewrite Ht, list_lookup_insert_eq by lia. by rewrite lookup_app_r, Nat.sub_diag.
    + pose proof (place_range n k ltac:(lia)). rewrite list_lookup_insert_ne.
      * rewrite lookup_app_l by lia. apply Hsl. lia.
      * rewrite Ht. intros E. apply Hne, (place_inj n k S0); [lia|lia|lia].
  - unfold retired in *. cbn [popped]. lia.
Qed.

(** *** Popping *)

(** [pop] returns the next completion posted, if there is one. *)
Lemma pop_spec id n m st : 2 ≤ m < 65536 → inv id n m st →
  match posted st !! length (popped st) with
  | Some (cmp, f) =>
      pop (cq st) (heads st) =
        Some (Some cmp,
              {| cq_id := cq_id (cq st); cq_memory := cq_memory (cq st); cq_entry_count := m;
                 cq_head := place m (S (length (popped st))); head_doorbell := place m (S (length (popped st)));
                 current_phase := phase m (S (length (popped st))) |},
              {[ id := place n f ]})
  | None => pop (cq st) (heads st) = Some (None, cq st, heads st)
  end.
Proof.
  intros Hm Hinv. set (C := length (popped st)).
  destruct Hinv as [_ [Hmm Hml] _ _ _ _ _ Hh (Hch & Hhd & Hcp) _ Hpre Hcs Hold _ Hpost _]. fold C in Hch, Hcp, Hcs.
  assert (C ≤ length (posted st))%nat as HCP by (by apply prefix_length). unfold pop. rewrite Hch.
  destruct (posted st !! C) as [[cmp f]|] eqn:E.
  - assert (C < length (posted st))%nat as Hlt by (by eapply lookup_lt_Some).
    rewrite Hcs, E by lia. cbn [fmap option_fmap option_map fst mbind option_bind].
    destruct (Hpost _ _ _ E) as (Hph & Hsq & Hhead & _). rewrite Hph, Hcp, Bool.eqb_reflx.
    pose proof (place_range m C ltac:(lia)) as Hr. unfold u16add. rewrite (proj2 (Z.ltb_lt _ _)) by lia.
    cbn [mbind option_bind]. rewrite Hsq, Hh, lookup_singleton_eq. cbn [mbind option_bind].
    rewrite Hhead, insert_singleton_eq, Hmm, place_S, phase_S by lia. unfold advance.
    destruct (Z.leb_spec m (place m C + 1)), (Z.eqb_spec (place m C + 1) m); try lia; done.
  - apply lookup_ge_None in E. destruct (Hold C) as (cmp & Hc & Hph); [lia|]. rewrite Hc. cbn [mbind option_bind].
    rewrite Hph, Hcp. by destruct (phase m C).
Qed.

Lemma inv_pop id n m st o q h : 2 ≤ m < 65536 → inv id n m st → pop (cq st) (heads st) = Some (o, q, h) →
  inv id n m {| sq := sq st; cq := q; heads := h; dev_head := dev_head st; dev_tail := dev_tail st;
                dev_phase := dev_phase st; submitted := submitted st; fetched := fetched st; posted := posted st;
                popped := match o with
                          | Some cmp => popped st ++ [(cmp, default 0%nat (snd <$> posted st !! length (popped st)))]
                          | None => popped st
                          end |}.
Proof.
  intros Hm Hinv Hpop. pose proof (pop_spec id n m st Hm Hinv) as Hspec.
  destruct (posted st !! length (popped st)) as [[cmp f]|] eqn:E; rewrite Hspec in Hpop; simplify_eq.
  2:{ by destruct st, Hinv. }
  assert (retired st ≤ f)%nat as Hgrow.
  { destruct (decide (popped st = [])) as [E0|E0]; [unfold retired; rewrite E0; cbn; lia|].
    destruct (retired_popped st E0) as (cmp0 & k & Hk & Hlen). eapply prefix_lookup_Some in Hk; [|apply Hinv].
    pose proof (inv_sorted _ _ _ _ Hinv _ _ _ _ Hk E ltac:(lia)) as Hle. exact Hle. }
  destruct Hinv as [Hn1 [Hmm Hml] Ht Hdh Hf Hsl Hroom Hh (Hch & Hhd & Hcp) Hdt Hpre Hcs Hold Hcr Hpost Hsort].
  assert (length (popped st) < length (posted st))%nat as Hlt by (by eapply lookup_lt_Some).
  assert (∀ x, retired {| sq := sq st; cq := x; heads := {[id := place n f]}; dev_head := dev_head st;
                          dev_tail := dev_tail st; dev_phase := dev_phase st; submitted := submitted st;
                          fetched := fetched st; posted := posted st;
                          popped := popped st ++ [(cmp, default 0%nat (snd <$> Some (cmp, f)))] |} = f) as Hret.
  { intros x. unfold retired. cbn [popped]. by rewrite last_snoc. }
  split; rewrite ?Hret; cbn [sq cq heads dev_head dev_tail dev_phase submitted fetched posted popped cq_head head_doorbell
      current_phase cq_memory cq_entry_count]; rewrite ?length_app, ?Nat.add_1_r; cbn [length]; try done; try lia.
  - by apply prefix_snoc.
  - intros k Hk. apply Hcs. lia.
Qed.

Lemma inv_fetch id n m st c : 2 ≤ n → inv id n m st → dev_head st ≠ tail_doorbell (sq st) →
  sq_memory (sq st) !! Z.to_nat (dev_head st) = Some c →
  submitted st !! length (fetched st) = Some c
  ∧ inv id n m {| sq := sq st; cq := cq st; heads := heads st;
                  dev_head := advance (sq_entry_count (sq st)) (dev_head st); dev_tail := dev_tail st;
                  dev_phase := dev_phase st; submitted := submitted st; fetched := fetched st ++ [c];
                  posted := posted st; popped := popped st |}.
Proof.
  intros Hn Hinv Hne Hc.
  destruct Hinv as [(Hid & Hnn & Hml) Hm [Ht Htd] Hdh Hf Hsl Hroom Hh Hch Hdt Hp Hcs Hold Hcr Hpost Hsort].
  pose proof (prefix_length _ _ Hf) as Hle.
  assert (length (fetched st) < length (submitted st))%nat as Hlt.
  { destruct (decide (length (fetched st) = length (submitted st))) as [E|]; [|lia].
    exfalso. apply Hne. by rewrite Htd, Ht, Hdh, E. }
  rewrite Hdh, Hsl in Hc by lia. split; [done|].
  split; cbn [sq cq heads dev_head dev_tail dev_phase submitted fetched posted popped]; rewrite ?length_app, ?Nat.add_1_r;
    cbn [length]; try done.
  - by rewrite Hnn, Hdh, <- place_S by lia.
  - by apply prefix_snoc.
  - intros k Hk. apply Hsl. lia.
  - intros k cmp f Hk. destruct (Hpost k cmp f Hk) as (?&?&?&?). split_and!; try done. lia.
Qed.

Lemma inv_post id n m st cmp : 2 ≤ m → inv id n m st →
  advance m (dev_tail st) ≠ head_doorbell (cq st) →
  phase_tag (cmp_status cmp) = dev_phase st → cmp_head cmp = dev_head st → cmp_sqid cmp = sq_id (sq st) →
  inv id n m {| sq := sq st;
                cq := {| cq_id := cq_id (cq st);
                         cq_memory := <[Z.to_nat (dev_tail st) := cmp]> (cq_memory (cq st));
                         cq_entry_count := m; cq_head := cq_head (cq st);
                         head_doorbell := head_doorbell (cq st); current_phase := current_phase (cq st) |};
                heads := heads st; dev_head := dev_head st; dev_tail := advance m (dev_tail st);
                dev_phase := if dev_tail st + 1 =? m then negb (dev_phase st) else dev_phase st;
                submitted := submitted st; fetched := fetched st;
                posted := posted st ++ [(cmp, length (fetched st))]; popped := popped st |}.
Proof.
  intros Hm Hinv Hnf Hph Hhd Hsq.
  destruct Hinv as [(Hid & Hnn & Hsl0) [Hmm Hml] Ht Hdh Hf Hsl Hroom Hh (Hch & Hhdb & Hcp) [Hdt Hdp] Hpre Hcs Hold Hcr Hpost Hsort].
  set (P := length (posted st)) in *. rewrite Hdt, Hdp, Hdh, Hid, Hhdb, Hch in *. rewrite <- place_S in Hnf by lia.
  pose proof (prefix_length _ _ Hpre) as HCP. fold P in HCP. pose proof (place_range m P ltac:(lia)) as HrP.
  assert (Z.of_nat (S P) ≤ Z.of_nat (length (popped st)) + m - 1) as Hroom'.
  { destruct (decide (Z.of_nat (S P) = Z.of_nat (length (popped st)) + m)) as [E|]; [|lia]. exfalso. apply Hnf.
    destruct (place_lap m (length (popped st))) as [<- _]; [lia|]. f_equal. lia. }
  assert (∀ k, (k ≠ P) → Z.of_nat P - m < Z.of_nat k < Z.of_nat P + m →
            <[Z.to_nat (place m P) := cmp]> (cq_memory (cq st)) !! Z.to_nat (place m k) = cq_memory (cq st) !! Z.to_nat (place m k)) as Hother.
  { intros k Hk Hr. pose proof (place_range m k ltac:(lia)). apply list_lookup_insert_ne. intros E.
    apply Hk, (place_inj m k P); lia. }
  split; cbn [sq cq heads dev_head dev_tail dev_phase submitted fetched posted popped cq_head head_doorbell current_phase
      cq_memory cq_entry_count]; rewrite ?length_app, ?Nat.add_1_r, ?length_insert; cbn [length]; fold P; try done; try lia.
  - by rewrite <- place_S, phase_S by lia.
  - by apply prefix_app_r.
  - intros k Hk. destruct (decide (k = P)) as [->|Hne].
    + rewrite list_lookup_insert_eq by lia. by rewrite lookup_app_r, Nat.sub_diag.
    + rewrite Hother by lia. rewrite lookup_app_l by lia. apply Hcs. lia.
  - intros k Hk. destruct (decide (Z.of_nat k = Z.of_nat P + m)) as [E|Hne].
    + replace k with (P + Z.to_nat m)%nat by lia. destruct (place_lap m P) as [-> ->]; [lia|].
      rewrite list_lookup_insert_eq by lia. eexists. split; [done|]. by rewrite negb_involutive.
    + rewrite Hother by lia. apply Hold. lia.
  - intros k cmp' f Hk. apply lookup_snoc_Some in Hk as [[_ Hk]|[-> E]]; [by apply Hpost|]. simplify_eq.
    split_and!; try done.
  - intros j k x y Hj Hk Hjk. assert (∀ i z, posted st !! i = Some z → (z.2 ≤ length (fetched st))%nat) as Hb.
    { intros i [c f] Hi. by apply Hpost in Hi as (_ & _ & _ & ?). }
    apply lookup_snoc_Some in Hj as [[Hlj Hj]|[-> <-]], Hk as [[Hlk Hk]|[-> <-]]; cbn; eauto. lia.
Qed.

Lemma reachable_inv id n m st : 2 ≤ n → 2 ≤ m < 65536 → reachable id n m st → inv id n m st.
Proof.
  intros Hn Hm. induction 1 as [|st st' _ IH Hstep]; [by apply inv_start; lia|].
  destruct Hstep as [st head c dwords q bufs|st o q h Hpop|st c Hne Hc|st cmp m' Hnf].
  - by eapply inv_submit.
  - by eapply inv_pop.
  - by eapply inv_fetch.
  - destruct (inv_m _ _ _ _ IH) as [E _]. subst m'. rewrite E in *. apply inv_post; try done; lia.
Qed.

(** C15: the rings deliver. Under every interleaving of a driver that submits commands and pops completions with a
    device that fetches and posts, for rings of any two sizes, and as long as the driver does not fill the ring up
    just at its end: the device has fetched the commands submitted, in order, without a gap, a repetition or an
    overwritten slot; the driver has popped the completions posted in the same way; its next [pop] gives the next
    one posted, or [None] if there is none; and [begin] gives a slot unless all but one are in use. *)
Theorem nvme_rings_deliver (id n m : Z) (st : sys) :
  2 ≤ n < 65536 → 2 ≤ m < 65536 → reachable id n m st →
  fetched st `prefix_of` submitted st
  ∧ (length (fetched st) < length (submitted st) →
       dev_head st ≠ tail_doorbell (sq st)
       ∧ sq_memory (sq st) !! Z.to_nat (dev_head st) = submitted st !! length (fetched st))%nat
  ∧ popped st `prefix_of` posted st
  ∧ (∃ q h, pop (cq st) (heads st) = Some (fst <$> posted st !! length (popped st), q, h))
  ∧ ∃ head o, heads st !! id = Some head ∧ begin head (sq st) = Some o
       ∧ (o = None → Z.of_nat (length (submitted st)) = Z.of_nat (retired st) + n - 1)
       ∧ (o ≠ None → Z.of_nat (length (submitted st)) < Z.of_nat (retired st) + n - 1 ∨ at_wrap st).
Proof.
  intros Hn Hm Hreach. pose proof (reachable_inv id n m st ltac:(lia) Hm Hreach) as Hinv.
  pose proof (pop_spec id n m st Hm Hinv) as Hpop. pose proof (retired_le _ _ _ _ Hinv) as HR.
  pose proof (prefix_length _ _ (inv_fetched _ _ _ _ Hinv)) as HFS.
  destruct Hinv as [(Hid & Hnn & Hsl0) _ [Ht Htd] Hdh Hf Hsl Hroom Hh _ _ Hpre _ _ _ _ _].
  split_and!; [done| |done| |].
  - intros Hlt. split; [|rewrite Hdh; apply Hsl; lia]. rewrite Htd, Ht, Hdh. intros E.
    apply (place_inj n) in E; [lia|lia|lia].
  - destruct (posted st !! length (popped st)) as [[cmp f]|]; rewrite Hpop; eauto.
  - exists (place n (retired st)). rewrite Hh, lookup_singleton_eq. unfold begin, full, u16add.
    set (S0 := length (submitted st)) in *. pose proof (place_range n S0 ltac:(lia)). rewrite Ht, Hnn.
    rewrite (proj2 (Z.ltb_lt (place n S0 + 1) 65536)) by lia. cbn [mbind option_bind].
    destruct (Z.eqb_spec (place n (retired st)) (place n S0 + 1)) as [E|E].
    + exists None. split_and!; try done. intros _.
      assert (place n (S S0) = place n (retired st)) as E'.
      { rewrite place_S by lia. unfold advance. pose proof (place_range n (retired st) ltac:(lia)).
        destruct (Z.eqb_spec (place n S0 + 1) n); lia. }
      destruct (decide (Z.of_nat S0 = Z.of_nat (retired st) + n - 1)) as [|Hne]; [done|].
      apply (place_inj n) in E'; [lia|lia|lia].
    + rewrite (proj2 (Z.eqb_neq n 0)) by lia. eexists. split_and!; try done. intros _.
      destruct (decide (Z.of_nat S0 = Z.of_nat (retired st) + n - 1)) as [Hs|Hs]; [right|left; lia].
      split; rewrite Hnn; [done|]. rewrite Ht. fold S0.
      assert (place n (S S0) = place n (retired st)) as E'.
      { destruct (place_lap n (retired st)) as [<- _]; [lia|]. f_equal. lia. }
      rewrite place_S in E' by lia. unfold advance in E'. destruct (Z.eqb_spec (place n S0 + 1) n); lia.
Qed.
End rings.

#[local] Existing Instance concrete_bit_field.

(** The property holds after one command has made the round through rings of four slots. *)
Definition answer : Completion :=
  {| cmp_cmd := 0; cmp_res := 0; cmp_head := 1; cmp_sqid := 7; cmp_id := 3; cmp_status := 1 |}.
Lemma nvme_rings_deliver_witness : ∃ st, reachable 7 4 4 st ∧ length (fetched st) = 1%nat
  ∧ popped st = [(answer, 1%nat)] ∧ ∃ q h, pop (cq st) (heads st) = Some (None, q, h).
Proof.
  assert (∃ st, reachable 7 4 4 st ∧ length (fetched st) = 1%nat ∧ popped st = [(answer, 1%nat)]
                ∧ posted st = [(answer, 1%nat)]) as (st & Hr & Hf & Hp & Hq).
  { eexists. split_and!.
    - eapply reach_step.
      { eapply reach_step.
        { eapply reach_step.
          { eapply reach_step; [apply reach_start|].
            eapply (step_submit _ 0 {| new_tail := 1; cmd := replicate 16 0; extra_data_ptr_buffers := [] |}
                     (replicate 16 5)); try reflexivity. unfold at_wrap. cbn. lia. }
          apply step_fetch; cbn; [lia|reflexivity]. }
        apply (step_post _ answer); try reflexivity. by vm_compute. }
      apply step_pop. vm_compute. reflexivity.
    - reflexivity.
    - reflexivity.
    - reflexivity. }
  exists st. split_and!; [done|done|done|].
  destruct (nvme_rings_deliver 7 4 4 st ltac:(lia) ltac:(lia) Hr) as (_ & _ & _ & Hpop & _).
  rewrite Hp, Hq in Hpop. exact Hpop.
Defined.

Section wrap.
Context {BF : BitField}.

(** A driver that submits commands while it still has [head] from the start. *)
Fixpoint submit_all (head : Z) (l : list (list Z)) (q : SubmissionQueue) : option SubmissionQueue :=
  match l with
  | [] => Some q
  | dwords :: l' =>
      o ← begin head q;
      c ← o;
      submit_all head l' (submit (set_cmd c dwords) q).1
  end.

Lemma submit_all_from n l : ∀ q, 2 ≤ n < 65536 → sq_entry_count q = n → 0 ≤ tail q →
  tail q + Z.of_nat (length l) ≤ n → tail_doorbell q = tail q →
  ∃ q', submit_all 0 l q = Some q' ∧ sq_entry_count q' = n
        ∧ tail_doorbell q' = if tail q + Z.of_nat (length l) =? n then (if tail q =? n then n else 0)
                             else tail q + Z.of_nat (length l).
Proof.
  induction l as [|x l IH]; intros q Hn Hc Ht Hlen Hd; cbn [submit_all length].
  { exists q. split_and!; [done|done|]. cbn in *. rewrite Z.add_0_r. destruct (Z.eqb_spec (tail q) n); lia. }
  cbn in Hlen. unfold begin, full, u16add. rewrite (proj2 (Z.ltb_lt (tail q + 1) 65536)) by lia. cbn [mbind option_bind].
  rewrite (proj2 (Z.eqb_neq 0 (tail q + 1))) by lia. rewrite Hc, (proj2 (Z.eqb_neq n 0)) by lia.
  cbn [mbind option_bind]. set (q1 := (submit _ q).1).
  rewrite (proj2 (Z.eqb_neq (tail q) n)) by lia.
  destruct (decide (tail q + 1 = n)) as [E|E].
  - assert (l = []) as -> by (destruct l; [done|cbn in *; lia]). cbn. exists q1. split_and!; [done|done|].
    change (Z.of_nat 1) with 1. rewrite E, Z.eqb_refl. subst q1. cbn. rewrite E. apply Z.mod_same. lia.
  - assert (tail q1 = tail q + 1) as Ht1 by (subst q1; cbn; apply Z.mod_small; lia).
    destruct (IH q1) as (q' & Hq' & Hc' & Hd'); try done; try lia.
    exists q'. split_and!; [done|done|]. rewrite Hd', Ht1, (proj2 (Z.eqb_neq (tail q + 1) n)) by lia.
    replace (tail q + Z.of_nat (S (length l))) with (tail q + 1 + Z.of_nat (length l)) by lia. done.
Qed.

(** A full ring looks empty. [full] compares the head with [tail + 1] without the wrap-around, so a driver that
    gets no completions can submit as many commands as the ring has slots, one too many: every [begin]
    succeeds, and the last submission puts the doorbell back to where the device's head is, which tells the device
    that there are no commands at all. *)
Theorem full_ring_looks_empty (id n : Z) (l : list (list Z)) :
  2 ≤ n < 65536 → Z.of_nat (length l) = n →
  ∃ q, submit_all 0 l (new_sq id n ∅).1 = Some q ∧ tail_doorbell q = tail_doorbell (new_sq id n ∅).1.
Proof.
  intros Hn Hl. destruct (submit_all_from n l (new_sq id n ∅).1 Hn eq_refl) as (q & Hq & _ & Hd);
    [done|cbn; lia|done|]. exists q. split; [done|]. rewrite Hd. cbn [new_sq fst tail tail_doorbell].
  rewrite Hl, Z.add_0_l, Z.eqb_refl, (proj2 (Z.eqb_neq 0 n)) by lia. done.
Qed.
End wrap.

(** The property holds of four commands in a ring of four. *)
Lemma full_ring_looks_empty_witness : ∃ q,
  submit_all 0 (replicate 4 (replicate 16 5)) (new_sq 1 4 ∅).1 = Some q ∧ tail_doorbell q = 0.
Proof. exact (full_ring_looks_empty 1 4 (replicate 4 (replicate 16 5)) ltac:(lia) ltac:(reflexivity)). Defined.

(** The sizes in the admin queue attributes are swapped: the field for the submission queue gets the size of the
    completion queue. *)
Lemma admin_sizes_swapped : let r := admin_queue_attrbs 256 64 in bit_range r 11 0 = 256 ∧ bit_range r 27 16 = 64.
Proof. by vm_compute. Qed.
