(* ===== verification/NvmeData.v ===== *)
(** The page lists of NVMe transfers name exactly the pages of the transfer, and every completion reaches
    the future that waits for it. *)
From stdpp Require Import base list gmap.
From S2P Require Import Prelude BitField Addresses BlockCache Nvme.

(** *** Reading a page list *)

(** A page list has [length page] entries; where more pages follow than fit, its last entry names the next list.
    [tight]: a list that would just be filled also ends in a link. This is how the driver writes them; a device
    takes all entries of a list that is just filled as pages. *)
Definition find_list (lists : list (Z * list Z)) (pa : Z) : option (list Z) :=
  snd <$> (snd <$> list_find (λ x, x.1 = pa) lists).

Fixpoint read_list (tight : bool) (fuel : nat) (lists : list (Z * list Z)) (page : list Z) (remaining : nat)
    : option (list Z) :=
  let cap := length page in
  if (if tight then cap <=? remaining else cap <? remaining)%nat then
    match fuel with
    | O => None
    | S fuel' =>
        link ← page !! (cap - 1)%nat;
        next ← find_list lists link;
        rest ← read_list tight fuel' lists next (remaining - (cap - 1));
        Some (take (cap - 1) page ++ rest)
    end
  else Some (take remaining page).

(** The pages a transfer of [n] pages uses, from the data pointer field of the command. *)
Definition read_prp (tight : bool) (c : Command) (n : nat) : option (list Z) :=
  read_list tight n (extra_data_ptr_buffers c) [entry_at (cmd c) 6; entry_at (cmd c) 8] n.

(** The pages of the regions of a transfer. *)
Definition region_pages (blocks_per_page : Z) (r : Z * Z) : list Z :=
  (λ i, r.1 + Z.of_nat i * PAGE_SIZE) <$> seq 0 (Z.to_nat (div_ceil r.2 blocks_per_page)).
Definition pages (blocks_per_page : Z) (regions : list (Z * Z)) : list Z :=
  regions ≫= region_pages blocks_per_page.

(** *** Lists under construction *)

Definition last_cap (cap : nat) (ls : list (Z * list Z)) : nat := match ls with [] => cap | _ => 512 end.

(** The lists hold the pages [ps], [off] of them in the last list. *)
Fixpoint chain (page : list Z) (ls : list (Z * list Z)) (off : nat) (ps : list Z) : Prop :=
  match ls with
  | [] => (off < length page)%nat ∧ take off page = ps
  | (pa, page') :: ls' =>
      (2 ≤ length page)%nat ∧ page !! (length page - 1)%nat = Some pa ∧ length page' = 512%nat
      ∧ ∃ ps', ps' ≠ [] ∧ ps = take (length page - 1) page ++ ps' ∧ chain page' ls' off ps'
  end.

Definition set_at (i : nat) (v : Z) (page : list Z) (ls : list (Z * list Z)) : list Z * list (Z * list Z) :=
  match ls with [] => (<[i := v]> page, []) | _ => (page, set_last i v ls) end.

Lemma set_at_cons i v page pa page' ls :
  set_at i v page ((pa, page') :: ls) =
    (page, (pa, (set_at i v page' ls).1) :: (set_at i v page' ls).2).
Proof. by destruct ls as [|[pa' page''] ls]. Qed.

Lemma chain_put page ls off ps v : chain page ls off ps → (S off < last_cap (length page) ls)%nat →
  let '(page1, ls1) := set_at off v page ls in
  chain page1 ls1 (S off) (ps ++ [v]) ∧ length page1 = length page ∧ fst <$> ls1 = fst <$> ls.
Proof.
  revert page ps. induction ls as [|[pa page'] ls IH]; intros page ps Hc Hoff; cbn in Hoff.
  - destruct Hc as [Hlt <-]. cbn. rewrite length_insert. split_and!; [lia| |done|done].
    erewrite take_S_r by (apply list_lookup_insert_eq; lia). by rewrite take_insert_ge.
  - destruct Hc as (H2 & Hlink & Hlen & ps' & Hne & -> & Hc'). rewrite set_at_cons.
    assert (S off < last_cap (length page') ls)%nat as Hoff' by (destruct ls; cbn; lia).
    specialize (IH page' ps' Hc' Hoff'). destruct (set_at off v page' ls) as [page1 ls1].
    destruct IH as (Hc1 & Hl1 & Hf). cbn [fst snd]. split_and!; [|done|by csimpl; rewrite Hf].
    cbn. split_and!; [done|done|lia|]. exists (ps' ++ [v]). split_and!; [by destruct ps'|by rewrite app_assoc|done].
Qed.

Lemma chain_next page ls off ps pa v : chain page ls off ps → S off = last_cap (length page) ls → (2 ≤ length page)%nat →
  let '(page1, ls1) := set_at off pa page ls in
  chain page1 (ls1 ++ [(pa, <[0%nat := v]> (replicate 512 0))]) 1 (ps ++ [v])
  ∧ length page1 = length page ∧ fst <$> ls1 = fst <$> ls.
Proof.
  revert page ps. induction ls as [|[pa' page'] ls IH]; intros page ps Hc Hoff H2; cbn in Hoff.
  - destruct Hc as [Hlt <-]. cbn [set_at fst snd app chain]. rewrite length_insert. split_and!; try done.
    + rewrite <- Hoff. cbn. rewrite Nat.sub_0_r. apply list_lookup_insert_eq. lia.
    + exists [v]. split_and!; [done| |cbn; lia|done]. f_equal. rewrite <- Hoff. cbn. rewrite Nat.sub_0_r.
      by rewrite take_insert_ge.
  - destruct Hc as (H2' & Hlink & Hlen & ps' & Hne & -> & Hc'). rewrite set_at_cons.
    assert (S off = last_cap (length page') ls) as Hoff' by (destruct ls; cbn; lia).
    specialize (IH page' ps' Hc' Hoff' ltac:(lia)). destruct (set_at off pa page' ls) as [page1 ls1].
    destruct IH as (Hc1 & Hl1 & Hf). cbn [fst snd app]. split_and!; [|done|by csimpl; rewrite Hf].
    cbn. split_and!; [done|done|lia|]. exists (ps' ++ [v]). split_and!; [by destruct ps'|by rewrite app_assoc|done].
Qed.

Lemma read_chain tight all : ∀ ls page off ps fuel, chain page ls off ps →
  (∀ pa pg, (pa, pg) ∈ ls → find_list all pa = Some pg) → (length ls ≤ fuel)%nat →
  (tight = false → (length ps < length page)%nat ∨ (Z.of_nat (length ps) - Z.of_nat (length page)) mod 511 ≠ 0) →
  read_list tight fuel all page (length ps) = Some ps.
Proof.
  induction ls as [|[pa page'] ls IH]; intros page off ps fuel Hc Hfind Hfuel Htight.
  - destruct Hc as [Hlt <-]. rewrite length_take_le by lia. unfold read_list.
    assert ((if tight then length page <=? off else length page <? off)%nat = false) as E.
    { destruct tight; [apply Nat.leb_gt|apply Nat.ltb_ge]; lia. }
    destruct fuel; cbn [read_list]; rewrite E; by rewrite ?take_take, ?Nat.min_id.
  - destruct Hc as (H2 & Hlink & Hlen & ps' & Hne & -> & Hc'). destruct fuel as [|fuel]; [cbn in Hfuel; lia|].
    rewrite length_app, length_take_le in * by lia.
    assert (length ps' ≠ 0%nat) as Hps' by (by destruct ps').
    assert ((if tight then length page <=? length page - 1 + length ps'
             else length page <? length page - 1 + length ps')%nat = true) as E.
    { destruct tight; [apply Nat.leb_le; lia|]. apply Nat.ltb_lt. destruct (Htight eq_refl) as [|Hm]; [lia|].
      assert (length ps' ≠ 1%nat); [|lia]. intros E. apply Hm.
      replace (Z.of_nat (length page - 1 + length ps') - Z.of_nat (length page)) with 0 by lia. done. }
    cbn [read_list]. rewrite E, Hlink. cbn [mbind option_bind]. rewrite (Hfind pa page') by set_solver.
    cbn [mbind option_bind]. replace (length page - 1 + length ps' - (length page - 1))%nat with (length ps') by lia.
    rewrite (IH page' off ps' fuel Hc'); [done| |cbn in Hfuel; lia|].
    + intros pa0 pg Hin. apply Hfind. set_solver.
    + intros Ht. destruct (Htight Ht) as [|Hm]; [lia|]. right. intros E'. apply Hm.
      replace (Z.of_nat (length page - 1 + length ps') - Z.of_nat (length page))
        with (Z.of_nat (length ps') - Z.of_nat (length page') + 1 * 511) by lia.
      by rewrite Z.mod_add.
Qed.

Lemma chain_length ls : ∀ page off ps, chain page ls off ps → (length ls ≤ length ps)%nat.
Proof.
  induction ls as [|[pa pg] ls IH]; intros page off ps Hc; cbn; [lia|].
  destruct Hc as (H2 & _ & _ & ps' & Hne & -> & Hc'). apply IH in Hc'. rewrite length_app, length_take. lia.
Qed.

(** *** Building the lists *)

Section build.
Context (alloc : nat → Z + MemoryError) (addr : nat → Z).
(** The first [N] allocations succeed. *)
Context (N : nat) (alloc_ok : ∀ n, (n < N)%nat → alloc n = inl (addr n) ∧ is_usize (addr n)).

Definition holds_pages (p : Prp) (ps : list Z) : Prop :=
  chain (data_ptr p) (lists p) (current_offset p) ps ∧ length (data_ptr p) = 2%nat
  ∧ Forall is_usize (data_ptr p) ∧ fst <$> lists p = addr <$> seq 0 (length (lists p)).

Lemma set_at_usize i v page ls : is_usize v → Forall is_usize page → Forall is_usize (set_at i v page ls).1.
Proof. intros Hv Hp. destruct ls; cbn; [by apply Forall_insert|done]. Qed.

Lemma prp_set_at v p : let '(page, ls) := set_at (current_offset p) v (data_ptr p) (lists p) in
  prp_set v p = {| data_ptr := page; lists := ls; current_offset := current_offset p |}.
Proof. unfold prp_set, set_at. destruct p as [d [|x l] o]; done. Qed.

Lemma put_page_spec v p ps : holds_pages p ps → is_usize v → (length ps < N)%nat → ∃ p', put_page alloc v p = inl p' ∧ holds_pages p' (ps ++ [v]).
Proof.
  intros (Hc & H2 & Hu & Hf) Hv HN. unfold put_page, prp_page_len.
  destruct (alloc_ok (length (lists p))) as [Ealloc Haddr]; [pose proof (chain_length _ _ _ _ Hc); lia|].
  assert (match lists p with [] => 2 | _ => 512 end = last_cap (length (data_ptr p)) (lists p))%nat as ->
    by (rewrite H2; done).
  assert (current_offset p < last_cap (length (data_ptr p)) (lists p))%nat as Hlt.
  { clear Hf. assert (∀ ls page ps, chain page ls (current_offset p) ps → (current_offset p < last_cap (length page) ls)%nat) as Hgen;
      [|by eapply Hgen]. clear. induction ls as [|[pa pg] ls IH]; intros page ps Hc; cbn; [by destruct Hc|].
    destruct Hc as (_ & _ & Hl & ps' & _ & _ & Hc'). apply IH in Hc'. destruct ls; cbn in Hc'; lia. }
  destruct (Nat.eqb_spec (current_offset p) (last_cap (length (data_ptr p)) (lists p) - 1)) as [E|E].
  - unfold next_list. rewrite Ealloc. pose proof (prp_set_at (addr (length (lists p))) p) as Hset.
    assert (S (current_offset p) = last_cap (length (data_ptr p)) (lists p)) as Hlast by lia.
    assert (2 ≤ length (data_ptr p))%nat as Hge by lia.
    pose proof (chain_next _ _ _ _ (addr (length (lists p))) v Hc Hlast Hge) as Hn.
    pose proof (set_at_usize (current_offset p) (addr (length (lists p))) (data_ptr p) (lists p) Haddr Hu) as Hu1.
    destruct (set_at _ _ (data_ptr p) (lists p)) as [page ls]. destruct Hn as (Hc1 & Hl1 & Hf1). rewrite Hset.
    cbn [data_ptr lists current_offset]. eexists. split; [done|].
    assert (length ls = length (lists p)) as Hll by (by rewrite <- (length_fmap fst ls), Hf1, length_fmap).
    assert (set_last 0 v (ls ++ [(addr (length (lists p)), replicate 512 0)])
            = ls ++ [(addr (length (lists p)), <[0%nat := v]> (replicate 512 0))]) as Hsl.
    { clear. induction ls as [|x ls IH]; [done|]. destruct ls; cbn in *; by rewrite ?IH; destruct x. }
    pose proof (prp_set_at v {| data_ptr := page; lists := ls ++ [(addr (length (lists p)), replicate 512 0)]; current_offset := 0 |}) as Hset2.
    cbn [data_ptr lists current_offset] in Hset2. unfold set_at in Hset2.
    destruct (ls ++ [(addr (length (lists p)), replicate 512 0)]) as [|y l] eqn:El; [by destruct ls|].
    rewrite Hset2. unfold holds_pages. cbn [data_ptr lists current_offset]. rewrite Hsl.
    split_and!; [done|lia|done|].
    rewrite fmap_app, Hf1, Hf, length_app, Hll. cbn [length fmap list_fmap fst]. rewrite seq_app, fmap_app. done.
  - pose proof (prp_set_at v p) as Hset. assert (S (current_offset p) < last_cap (length (data_ptr p)) (lists p))%nat as Hlast by lia.
    pose proof (chain_put _ _ _ _ v Hc Hlast) as Hn.
    pose proof (set_at_usize (current_offset p) v (data_ptr p) (lists p) Hv Hu) as Hu1.
    destruct (set_at _ _ (data_ptr p) (lists p)) as [page ls]. destruct Hn as (Hc1 & Hl1 & Hf1). rewrite Hset.
    eexists. split; [done|]. unfold holds_pages. cbn [data_ptr lists current_offset]. split_and!; [done|lia|done|].
    assert (length ls = length (lists p)) as Hll by (by rewrite <- (length_fmap fst ls), Hf1, length_fmap).
    by rewrite Hf1, Hf, Hll.
Qed.

Lemma region_loop_spec bpp size k : 0 < bpp → ∀ fuel num next p ps, holds_pages p ps →
  size ≤ num + Z.of_nat k * bpp → (k ≠ 0%nat → num + (Z.of_nat k - 1) * bpp < size) → (k ≤ fuel)%nat →
  0 ≤ next → next + Z.of_nat k * PAGE_SIZE < U64 → (length ps + k ≤ N)%nat →
  ∃ p', region_loop fuel alloc bpp size num next p = Some (inl p')
        ∧ holds_pages p' (ps ++ ((λ i, next + Z.of_nat i * PAGE_SIZE) <$> seq 0 k)).
Proof.
  intros Hbpp. induction k as [|k IH]; intros fuel num next p ps Hp Hle Hlt Hfuel Hn Hend HN.
  - exists p. rewrite app_nil_r. split; [|done]. destruct fuel; cbn [region_loop];
      by rewrite (proj2 (Z.ltb_ge _ _)) by lia.
  - destruct fuel as [|fuel]; [lia|]. cbn [region_loop]. rewrite (proj2 (Z.ltb_lt _ _)) by nia.
    destruct (put_page_spec next p ps Hp ltac:(split; plia) ltac:(lia)) as (p1 & -> & Hp1).
    assert (PhysicalAddress.add next PAGE_SIZE = next + PAGE_SIZE) as ->.
    { unfold PhysicalAddress.add, saturating_add. plia. }
    destruct (IH fuel (num + bpp) (next + PAGE_SIZE) p1 (ps ++ [next]) Hp1) as (p' & -> & Hp');
      [lia|nia|lia|plia|plia|rewrite length_app; cbn; lia|].
    exists p'. split; [done|]. rewrite <- app_assoc in Hp'. cbn [seq fmap list_fmap].
    replace (next + Z.of_nat 0 * PAGE_SIZE) with next by lia.
    assert ((λ i, next + Z.of_nat i * PAGE_SIZE) <$> seq 1 k
            = (λ i, next + PAGE_SIZE + Z.of_nat i * PAGE_SIZE) <$> seq 0 k) as E; [|by rewrite E].
    rewrite <- fmap_S_seq, <- list_fmap_compose. apply list_fmap_ext. intros i x _. cbn. lia.
Qed.

Definition region_ok (r : Z * Z) : Prop := 0 ≤ r.1 ∧ 0 ≤ r.2 ∧ r.1 + r.2 * PAGE_SIZE < U64.

Lemma regions_loop_spec bpp : 0 < bpp → ∀ regions p ps, holds_pages p ps → Forall region_ok regions →
  (length ps + length (pages bpp regions) ≤ N)%nat → ∃ p', regions_loop alloc bpp regions p = Some (inl p') ∧ holds_pages p' (ps ++ pages bpp regions).
Proof.
  intros Hbpp. induction regions as [|[pa n] regions IH]; intros p ps Hp Hok HN.
  { exists p. by rewrite app_nil_r. }
  inversion Hok as [|?? (Hpa & Hn & Hend) Hok']; subst. cbn [fst snd] in *. cbn [regions_loop].
  pose proof (div_ceil_spec n bpp Hbpp) as Hd. pose proof (div_ceil_nonneg n bpp Hbpp Hn) as Hd0.
  assert (div_ceil n bpp ≤ n) as Hdn by nia.
  change (pages bpp ((pa, n) :: regions)) with (region_pages bpp (pa, n) ++ pages bpp regions) in HN |- *.
  assert (length (region_pages bpp (pa, n)) = Z.to_nat (div_ceil n bpp)) as Hlen.
  { unfold region_pages. cbn [snd]. by rewrite length_fmap, length_seq. }
  rewrite length_app, Hlen in HN.
  destruct (region_loop_spec bpp n (Z.to_nat (div_ceil n bpp)) Hbpp (Z.to_nat n) 0 pa p ps Hp) as (p1 & -> & Hp1);
    [nia|nia|lia|done|pnia|lia|].
  change ((λ i, pa + Z.of_nat i * PAGE_SIZE) <$> _) with (region_pages bpp (pa, n)) in Hp1.
  cbn [mbind option_bind]. destruct (IH p1 _ Hp1 Hok') as (p' & -> & Hp');
    [rewrite length_app, Hlen; lia|]. exists p'. split; [done|].
  by rewrite <- app_assoc in Hp'.
Qed.
End build.

Lemma set_qword_entry i v c : (S i < length (cmd c))%nat → 0 ≤ v < U64 → entry_at (cmd (set_qword i v c)) i = v.
Proof.
  intros Hi Hv. unfold entry_at, set_qword. cbn [cmd set_cmd].
  rewrite list_lookup_insert_ne, !list_lookup_insert_eq by (rewrite ?length_insert; lia). cbn [default from_option id].
  rewrite Z.shiftr_div_pow2 by lia. change (2 ^ 32) with 4294967296.
  rewrite (Z.mod_small (v / 4294967296)); dlia.
Qed.
Lemma set_qword_entry_ne i j v c : (S i < j ∨ S j < i)%nat → entry_at (cmd (set_qword i v c)) j = entry_at (cmd c) j.
Proof.
  intros Hij. unfold entry_at, set_qword. cbn [cmd set_cmd]. by rewrite !list_lookup_insert_ne by lia.
Qed.

Section prp.
Context (alloc : nat → Z + MemoryError) (addr : nat → Z).
(** The first [N] allocations succeed, with different buffers. *)
Context (N : nat) (alloc_ok : ∀ n, (n < N)%nat → alloc n = inl (addr n) ∧ is_usize (addr n)).
Context (addr_inj : ∀ i j, (i < N)%nat → (j < N)%nat → addr i = addr j → i = j).

Lemma find_list_unique (ls : list (Z * list Z)) pa pg : NoDup (fst <$> ls) → (pa, pg) ∈ ls → find_list ls pa = Some pg.
Proof.
  unfold find_list. induction ls as [|[a b] ls IH]; cbn; intros Hnd Hin; [by apply not_elem_of_nil in Hin|].
  apply NoDup_cons in Hnd as [Hni Hnd]. apply elem_of_cons in Hin as [[= -> ->]|Hin].
  - by rewrite decide_True.
  - rewrite decide_False.
    + specialize (IH Hnd Hin). by destruct (list_find _ ls) as [[i x]|].
    + intros ->. apply Hni. apply list_elem_of_fmap. by exists (pa, pg).
Qed.

Lemma lists_found (ls : list (Z * list Z)) pa pg : fst <$> ls = addr <$> seq 0 (length ls) → (length ls ≤ N)%nat →
  (pa, pg) ∈ ls → find_list ls pa = Some pg.
Proof.
  intros Hf HN Hin. apply find_list_unique; [|done]. rewrite Hf. apply NoDup_fmap_2_strong; [|apply NoDup_seq].
  intros i j Hi%elem_of_seq Hj%elem_of_seq. apply addr_inj; lia.
Qed.

(** The page lists of a transfer name its pages. [set_data_ptrs] on a fresh command succeeds for every nonempty
    list of regions, however many page lists it takes (as long as buffers for them can be allocated), and following the lists from the command gives the pages of
    the regions, in order, by the driver's own rule for links always, and by a device's rule whenever no
    list is filled exactly; a transfer of two pages is such a case, and there the device takes the
    page list itself for the second page. *)
Theorem prp_lists_name_pages (bpp : Z) (regions : list (Z * Z)) (t : Z) :
  0 < bpp → regions ≠ [] → Forall region_ok regions → (length (pages bpp regions) ≤ N)%nat →
  let ps := pages bpp regions in let n := length ps in
  ∃ c, set_data_ptrs alloc regions bpp {| new_tail := t; cmd := replicate 16 0; extra_data_ptr_buffers := [] |} = Some (inl c)
    ∧ read_prp true c n = Some ps
    ∧ ((n < 2)%nat ∨ (Z.of_nat n - 2) mod 511 ≠ 0 → read_prp false c n = Some ps)
    ∧ (n = 2%nat → ∃ a b, ps = [a; b] ∧ read_prp false c n = Some [a; addr 0]).
Proof.
  intros Hbpp Hne Hok HN ps n. unfold set_data_ptrs. destruct regions as [|r0 regions]; [done|].
  set (c0 := {| new_tail := t; cmd := replicate 16 0; extra_data_ptr_buffers := [] |}).
  destruct (regions_loop_spec alloc addr N alloc_ok bpp Hbpp (r0 :: regions)
    {| data_ptr := [entry_at (cmd c0) 6; entry_at (cmd c0) 8]; lists := []; current_offset := 0 |} [])
    as (p & -> & Hc & H2 & Hu & Hf); [|done|exact HN|].
  { split_and!; [cbn; split; [lia|done]|done|by repeat constructor|done]. }
  cbn [mbind option_bind app] in *. fold ps in Hc. destruct (data_ptr p) as [|d0 [|d1 [|]]] eqn:Ed; try done.
  inversion Hu as [|?? Hd0 Hu']; subst. inversion Hu' as [|?? Hd1 _]; subst.
  change (default 0 ([d0; d1] !! 1%nat)) with d1. change (default 0 ([d0; d1] !! 0%nat)) with d0.
  eexists. split; [done|]. unfold read_prp. cbn [cmd extra_data_ptr_buffers].
  change (extra_data_ptr_buffers (set_qword 8 d1 (set_qword 6 d0 c0)) ++ lists p) with (lists p).
  rewrite (set_qword_entry 8) by (done || (cbn; lia)). rewrite (set_qword_entry_ne 8 6) by lia.
  rewrite (set_qword_entry 6) by (done || (cbn; lia)).
  pose proof (chain_length _ _ _ _ Hc) as Hfuel. fold n in Hfuel.
  assert (∀ pa pg, (pa, pg) ∈ lists p → find_list (lists p) pa = Some pg) as Hfound
    by (intros pa pg; apply lists_found; [done|fold ps in HN; fold n in HN; lia]).
  split_and!.
  - by eapply read_chain.
  - intros Hn. by eapply read_chain.
  - intros E. destruct (lists p) as [|[pa pg] ls].
    + destruct Hc as [Ho Hps]. apply (f_equal length) in Hps. rewrite length_take in Hps. cbn in *. fold n in Hps. lia.
    + destruct Hc as (_ & Hlink & _ & ps' & Hne' & Hps & _). cbn in Hlink, Hf. change (ps = d0 :: ps') in Hps.
      injection Hlink as ->. injection Hf as -> _. rewrite E. exists d0.
      assert (length ps' = 1%nat) as Hl by (apply (f_equal length) in Hps; change (n = S (length ps')) in Hps; lia).
      destruct ps' as [|b [|]]; [done| |done]. by exists b.
Qed.
End prp.

(** The property holds of a transfer of 1200 pages, which takes three page lists. *)
Lemma prp_lists_name_pages_witness : ∃ c,
  set_data_ptrs (λ n, inl (0x900000 + Z.of_nat n * PAGE_SIZE)) [(0x10000, 1200)] 1
    {| new_tail := 1; cmd := replicate 16 0; extra_data_ptr_buffers := [] |} = Some (inl c)
  ∧ read_prp false c 1200 = Some (pages 1 [(0x10000, 1200)]).
Proof.
  assert (length (pages 1 [(0x10000, 1200)]) = 1200%nat) as E by (vm_compute; reflexivity).
  destruct (prp_lists_name_pages (λ n, inl (0x900000 + Z.of_nat n * PAGE_SIZE)) (λ n, 0x900000 + Z.of_nat n * PAGE_SIZE)
    1200 ltac:(intros n Hn; split; [done|split; plia]) ltac:(intros i j _ _ Hij; plia) 1 [(0x10000, 1200)] 1)
    as (c & Hc & _ & Hread & _); [lia|done|by repeat constructor|by rewrite E|].
  exists c. split; [exact Hc|]. rewrite E in Hread. apply Hread. right. vm_compute. discriminate.
Defined.

(** *** Futures for completions *)

(** [live] are the futures not resolved yet; [inflight] the commands the device has still to complete. The last two
    fields record the completions that have arrived, and who was last told to wait. *)
Record waits := {
  handle : Handle;
  live : gset Z;
  inflight : gset Z;
  arrived : gmap Z Completion;
  last_poll : gmap Z nat;
}.

Section waits.
Context {BF : BitField}.

Definition no_waits : waits :=
  {| handle := {| next_cmd_id := 0; pending_completions := ∅ |}; live := ∅; inflight := ∅; arrived := ∅;
     last_poll := ∅ |}.

Inductive wait_step : waits → waits → Prop :=
  (* a command is submitted; its id is not in use (there are 65536 of them) *)
  | wait_start st c id c' h : wait_for_completion c (handle st) = (id, c', h) → id ∉ live st →
      wait_step st {| handle := h; live := {[ id ]} ∪ live st; inflight := {[ id ]} ∪ inflight st;
                      arrived := arrived st; last_poll := last_poll st |}
  (* the interrupt for a completion the device has posted *)
  | wait_interrupt st cmp w h : cmp_id cmp ∈ inflight st → handle_completion cmp (handle st) = Some (w, h) →
      wait_step st {| handle := h; live := live st; inflight := inflight st ∖ {[ cmp_id cmp ]};
                      arrived := <[ cmp_id cmp := cmp ]> (arrived st); last_poll := last_poll st |}
  (* a task polls a future *)
  | wait_pending st id w h : id ∈ live st → poll id w (handle st) = (None, h) →
      wait_step st {| handle := h; live := live st; inflight := inflight st; arrived := arrived st;
                      last_poll := <[ id := w ]> (last_poll st) |}
  | wait_ready st id w cmp h : id ∈ live st → poll id w (handle st) = (Some cmp, h) →
      wait_step st {| handle := h; live := live st ∖ {[ id ]}; inflight := inflight st;
                      arrived := delete id (arrived st); last_poll := delete id (last_poll st) |}.

Inductive waits_reachable : waits → Prop :=
  | waits_init : waits_reachable no_waits
  | waits_next st st' : waits_reachable st → wait_step st st' → waits_reachable st'.

(** What the map holds of each id. *)
Definition entry_ok (st : waits) (id : Z) : Prop :=
  pending_completions (handle st) !! id =
    match arrived st !! id with
    | Some cmp => Some (Ready cmp)
    | None => Waiting <$> last_poll st !! id
    end.

Record waits_inv (st : waits) : Prop := {
  wi_entry : ∀ id, entry_ok st id;
  wi_live : inflight st ⊆ live st;
  wi_poll : ∀ id, id ∉ live st → arrived st !! id = None ∧ last_poll st !! id = None;
  wi_arrived : ∀ id, id ∈ live st → (id ∈ inflight st ↔ arrived st !! id = None);
  wi_id : ∀ id cmp, arrived st !! id = Some cmp → cmp_id cmp = id;
}.

Lemma poll_pending st id w h : entry_ok st id → poll id w (handle st) = (None, h) →
  arrived st !! id = None
  ∧ ∀ i, pending_completions h !! i = if decide (i = id) then Some (Waiting w) else pending_completions (handle st) !! i.
Proof.
  unfold entry_ok, poll. intros He Hpoll.
  destruct (pending_completions (handle st) !! id) as [[w0|cmp]|] eqn:E; simplify_eq; cbn.
  - split; [by destruct (arrived st !! id)|]. intros i. case_decide; subst; [by rewrite lookup_insert_eq|].
    by rewrite lookup_insert_ne, lookup_delete_ne by done.
  - split; [by destruct (arrived st !! id)|]. intros i. case_decide; subst; [by rewrite lookup_insert_eq|].
    by rewrite lookup_insert_ne by done.
Qed.

Lemma poll_ready st id w cmp h : entry_ok st id → poll id w (handle st) = (Some cmp, h) →
  arrived st !! id = Some cmp
  ∧ ∀ i, pending_completions h !! i = if decide (i = id) then None else pending_completions (handle st) !! i.
Proof.
  unfold entry_ok, poll. intros He Hpoll.
  destruct (pending_completions (handle st) !! id) as [[w0|cmp0]|] eqn:E; simplify_eq; cbn.
  split; [destruct (arrived st !! id); [congruence|by destruct (last_poll st !! id)]|].
  intros i. case_decide; subst; [by rewrite lookup_delete_eq|by rewrite lookup_delete_ne].
Qed.

Lemma waits_reachable_inv st : waits_reachable st → waits_inv st.
Proof.
  induction 1 as [|st st' _ [He Hl Hp Ha Hid] Hstep].
  { split; cbn; try done; try set_solver. }
  destruct Hstep as [st c id c' h Hw Hnew|st cmp w h Hin Hh|st id w h Hlive Hpoll|st id w cmp h Hlive Hpoll].
  - unfold wait_for_completion in Hw. simplify_eq. destruct (Hp _ Hnew) as [Hna Hnp].
    split; cbn; [done|set_solver|intros i Hi; apply Hp; set_solver| |done].
    intros i Hi. destruct (decide (i = next_cmd_id (handle st))) as [->|Hne]; [set_solver|].
    rewrite <- Ha by set_solver. set_solver.
  - assert (cmp_id cmp ∈ live st) as Hlive by set_solver.
    assert (pending_completions h = <[cmp_id cmp := Ready cmp]> (pending_completions (handle st))) as Hpend.
    { unfold handle_completion in Hh. by repeat case_match; simplify_eq. }
    split; cbn; [|set_solver| | |].
    + intros i. unfold entry_ok. cbn. rewrite Hpend. destruct (decide (i = cmp_id cmp)) as [->|Hne].
      * by rewrite !lookup_insert_eq.
      * rewrite !lookup_insert_ne by done. apply He.
    + intros i Hi. rewrite lookup_insert_ne by set_solver. by apply Hp.
    + intros i Hi. destruct (decide (i = cmp_id cmp)) as [->|Hne].
      * rewrite lookup_insert_eq. set_solver.
      * rewrite lookup_insert_ne by done. rewrite <- Ha by done. set_solver.
    + intros i cmp' Hi. apply lookup_insert_Some in Hi as [[<- <-]|[_ Hi]]; [done|by apply Hid].
  - destruct (poll_pending st id w h (He id) Hpoll) as [Hna Hpend].
    split; cbn; try done.
    + intros i. unfold entry_ok. cbn. rewrite Hpend. case_decide; subst; [by rewrite Hna, lookup_insert_eq|].
      rewrite lookup_insert_ne by done. apply He.
    + intros i Hi. rewrite lookup_insert_ne by set_solver. by apply Hp.
  - destruct (poll_ready st id w cmp h (He id) Hpoll) as [Hna Hpend].
    assert (id ∉ inflight st) as Hnin by (rewrite Ha by done; by rewrite Hna).
    split; cbn; [|set_solver| | |].
    + intros i. unfold entry_ok. cbn. rewrite Hpend. case_decide; subst; [by rewrite !lookup_delete_eq|].
      rewrite !lookup_delete_ne by done. apply He.
    + intros i Hi. destruct (decide (i = id)) as [->|Hne]; [by rewrite !lookup_delete_eq|].
      rewrite !lookup_delete_ne by done. apply Hp. set_solver.
    + intros i Hi. rewrite lookup_delete_ne by set_solver. apply Ha. set_solver.
    + intros i cmp' Hi. apply lookup_delete_Some in Hi as [_ Hi]. by apply Hid.
Qed.

(** C31: every completion reaches the future that waits for it. However submissions, interrupts and polls are
    interleaved, as long as ids are not reused while their future is alive: a completion of a command in flight is
    accepted without a panic, and wakes the task that last polled its future, if one did; and polling a future
    gives [Ready] exactly when the completion of its own command has arrived, with that completion. *)
Theorem completions_reach_futures (st : waits) :
  waits_reachable st →
  (∀ cmp, cmp_id cmp ∈ inflight st → ∃ h, handle_completion cmp (handle st) = Some (last_poll st !! cmp_id cmp, h))
  ∧ (∀ id w, id ∈ live st →
       (poll id w (handle st)).1 = arrived st !! id ∧ (arrived st !! id = None ↔ id ∈ inflight st)
       ∧ ∀ cmp, arrived st !! id = Some cmp → cmp_id cmp = id).
Proof.
  intros Hr. destruct (waits_reachable_inv st Hr) as [He Hl Hp Ha Hid]. split.
  - intros cmp Hin. unfold handle_completion. rewrite (He (cmp_id cmp)).
    rewrite (proj1 (Ha _ (Hl _ Hin)) Hin). destruct (last_poll st !! cmp_id cmp); cbn; eauto.
  - intros id w Hlive. split_and!; [|by rewrite Ha|by apply Hid]. unfold poll. rewrite (He id).
    destruct (arrived st !! id) as [cmp|]; [done|]. by destruct (last_poll st !! id).
Qed.
End waits.

#[local] Existing Instance concrete_bit_field.

(** The property holds after a command was submitted, its future polled by task 9, and its completion handled. *)
Lemma completions_reach_futures_witness :
  let cmp := {| cmp_cmd := 0; cmp_res := 0; cmp_head := 1; cmp_sqid := 1; cmp_id := 0; cmp_status := 1 |} in
  ∃ st, waits_reachable st ∧ (poll 0 9 (handle st)).1 = Some cmp.
Proof.
  intros cmp.
  assert (∃ st, waits_reachable st ∧ 0 ∈ live st ∧ arrived st !! 0 = Some cmp) as (st & Hr & Hl & Ha).
  { eexists. split_and!.
    - eapply waits_next.
      { eapply waits_next.
        { eapply waits_next; [apply waits_init|].
          eapply (wait_start _ {| new_tail := 1; cmd := replicate 16 0; extra_data_ptr_buffers := [] |});
            [reflexivity|cbn; set_solver]. }
        apply (wait_pending _ 0 9); [cbn; set_solver|reflexivity]. }
      apply (wait_interrupt _ cmp (Some 9%nat)); [cbn; set_solver|reflexivity].
    - cbn. set_solver.
    - reflexivity. }
  exists st. split; [done|]. destruct (completions_reach_futures st Hr) as [_ Hp].
  destruct (Hp 0 9%nat Hl) as [E _]. by rewrite E.
Defined.
