(* ===== verification/Kernel.v ===== *)
(** The kernel around its processes: threads that exit, commands and their completions, tasks,
    system calls and exceptions ([kernel/src/process/mod.rs], [kernel/src/process/commands.rs],
    [kernel/src/process/thread/mod.rs], [kernel/src/exception/handlers.rs]).

    The state puts together those of the scheduler ([Sched]), of memory management and the
    processes ([World]), of the task executor and of the queues that processes share with the
    kernel. *)
From stdpp Require Import base list gmap.
From S2P Require Import Prelude BitField Addresses PhysAlloc VirtAlloc Frames PageEntry Paging.
From S2P Require Import PagingTree PagingIter Spaces PhysBuffer MsgQueue Error Process ProcWorld Gic Sched.

(** *** Messages ([kapi/src/commands.rs], [kapi/src/completions.rs]) *)

Inductive ThreadExit :=
  | NormalExit (code : Z)
  | PageFault
  | Killed.
#[export] Instance ThreadExit_eq_dec : EqDecision ThreadExit.
Proof. solve_decision. Defined.

(** Paths and parameters are a pointer of the process and a length. *)
Record SpawnProcess := {
  binary_path : Z * Z;
  parameters : Z * Z;
  send_completion_on_main_thread_exit : bool;
}.

Inductive CmdKind :=
  | InvalidCmd
  | Test (arg : Z)
  | CreateCompletionQueue (size : Z)
  | CreateSubmissionQueue (size associated_completion_queue : Z)
  | DestroyQueue (id : Z)
  | SpawnThread (entry_point stack_size user_data : Z) (send_completion_on_exit : bool)
  | WatchThread (thread_id : Z)
  | SpawnProcessCmd (info : SpawnProcess)
  | WatchProcess (process_id : Z)
  | KillProcess (process_id : Z).

Record Command := { cmd_kind : CmdKind; cmd_id : Z }.

Inductive CmplKind :=
  | InvalidCmpl
  | SuccessCmpl
  | TestCmpl (pid arg : Z)
  | NewQueue (id start : Z)
  | NewThread (id : Z)
  | ThreadExitCmpl (exit : ThreadExit)
  | NewProcess (id : Z)
  | ErrCmpl (code : ErrorCode).

Record Completion := { response_to_id : Z; cmpl_kind : CmplKind }.

(** *** State *)

Record ExitState := {
  code : option ThreadExit;     (* [Once] *)
  wakers : list Z;              (* by the task they wake *)
}.
Definition no_exit : ExitState := {| code := None; wakers := [] |}.

(** Whose [exit_state]: a thread's or a process's. *)
Abbreviation exit_key := (nat + Z)%type.

(** The futures that the kernel spawns.  [Watching] is what is left of a [Dispatch] that waits
    for an exit code. *)
Inductive Task :=
  | Dispatch (process : Z) (cmd : Command) (recv_queue : Z)
  | Watching (process : Z) (whose : exit_key) (cmd : Z) (recv_queue : Z)
  | ExitNotice (process : Z) (whose : exit_key) (cmd : Z) (recv_queue : Z)
  | OnPageFault (process : Z) (thread : nat) (address : Z).

(** The executor, as far as one thread sees it; [Executor] has the interleavings. *)
Record Tasks := {
  ready_queue : list Z;
  new_task_queue : list (Z * Task);
  next_task_id : Z;
  tasks : gmap Z Task;
}.

(** [submitted] and [completed] are the messages in the queues, by process and queue id. *)
Record Kernel := {
  ksched : Sched;
  kworld : World;
  processes : list Z;
  process_threads : gmap Z (list nat);
  exit_states : gmap exit_key ExitState;
  ktasks : Tasks;
  submitted : gmap (Z * Z) (list Command);
  completed : gmap (Z * Z) (list Completion);
  kbytes : gmap Z Z;             (* bytes by physical address *)
  next_pid : Z;                  (* [NEXT_PID] *)
}.

Abbreviation K := (M Kernel Error).

Definition set_sched (k : Kernel) (s : Sched) : Kernel :=
  Build_Kernel s (kworld k) (processes k) (process_threads k) (exit_states k) (ktasks k) (submitted k) (completed k) (kbytes k) (next_pid k).
Definition set_world (k : Kernel) (w : World) : Kernel :=
  Build_Kernel (ksched k) w (processes k) (process_threads k) (exit_states k) (ktasks k) (submitted k) (completed k) (kbytes k) (next_pid k).
Definition set_processes (k : Kernel) (l : list Z) : Kernel :=
  Build_Kernel (ksched k) (kworld k) l (process_threads k) (exit_states k) (ktasks k) (submitted k) (completed k) (kbytes k) (next_pid k).
Definition set_process_threads (k : Kernel) (i : Z) (l : list nat) : Kernel :=
  Build_Kernel (ksched k) (kworld k) (processes k) (<[i := l]> (process_threads k)) (exit_states k) (ktasks k)
    (submitted k) (completed k) (kbytes k) (next_pid k).
Definition set_exit_state (k : Kernel) (x : exit_key) (st : ExitState) : Kernel :=
  Build_Kernel (ksched k) (kworld k) (processes k) (process_threads k) (<[x := st]> (exit_states k)) (ktasks k)
    (submitted k) (completed k) (kbytes k) (next_pid k).
Definition set_tasks (k : Kernel) (t : Tasks) : Kernel :=
  Build_Kernel (ksched k) (kworld k) (processes k) (process_threads k) (exit_states k) t (submitted k) (completed k) (kbytes k) (next_pid k).
Definition set_submitted (k : Kernel) (q : Z * Z) (l : list Command) : Kernel :=
  Build_Kernel (ksched k) (kworld k) (processes k) (process_threads k) (exit_states k) (ktasks k)
    (<[q := l]> (submitted k)) (completed k) (kbytes k) (next_pid k).
Definition set_completed (k : Kernel) (q : Z * Z) (l : list Completion) : Kernel :=
  Build_Kernel (ksched k) (kworld k) (processes k) (process_threads k) (exit_states k) (ktasks k)
    (submitted k) (<[q := l]> (completed k)) (kbytes k) (next_pid k).
Definition set_bytes (k : Kernel) (m : gmap Z Z) : Kernel :=
  Build_Kernel (ksched k) (kworld k) (processes k) (process_threads k) (exit_states k) (ktasks k)
    (submitted k) (completed k) m (next_pid k).

Definition threads_of (k : Kernel) (i : Z) : list nat := default [] (process_threads k !! i).
Definition exit_state (k : Kernel) (x : exit_key) : ExitState := default no_exit (exit_states k !! x).
Definition messages {A} (m : gmap (Z * Z) (list A)) (q : Z * Z) : list A := default [] (m !! q).

(** Calls into the components. *)
Definition on_sched {A} (m : SM A) : K A := λ k,
  match m (ksched k) with
  | Ok a s => Ok a (set_sched k s)
  | Err e _ => match e with end
  | Stop w => Stop w
  end.
Definition on_process {A} (i : Z) (m : PM A) : K A := λ k,
  match procs (kworld k) !! i with
  | None => Stop Undefined
  | Some p =>
      match m (system_of (kworld k) p) with
      | Ok a s => Ok a (set_world k (set_system (kworld k) i s))
      | Err e s => Err e (set_world k (set_system (kworld k) i s))
      | Stop w => Stop w
      end
  end.
(** Operations on the kernel's own memory, whose errors the callers turn into panics. *)
Definition on_memory {A} (m : KM A) : K A := λ k,
  match m (wmem (kworld k)) with
  | Ok a s => Ok a (set_world k {| wmem := s; procs := procs (kworld k) |})
  | Err _ _ => Stop Panic
  | Stop w => Stop w
  end.

Definition READY_CAPACITY : nat := 128.
Definition NEW_TASK_CAPACITY : nat := 32.

(** [TaskWaker::wake_task] *)
Definition wake (id : Z) : K unit :=
  k ← get;
  let t := ktasks k in
  if (length (ready_queue t) <? READY_CAPACITY)%nat then
    put (set_tasks k (Build_Tasks (ready_queue t ++ [id]) (new_task_queue t) (next_task_id t) (tasks t)))
  else panic.

(** [tasks::spawn] *)
Definition spawn (task : Task) : K unit :=
  k ← get;
  let t := ktasks k in
  if (length (new_task_queue t) <? NEW_TASK_CAPACITY)%nat then
    put (set_tasks k (Build_Tasks (ready_queue t) (new_task_queue t ++ [(next_task_id t, task)])
                        ((next_task_id t + 1) mod 2 ^ 32) (tasks t)))
  else panic.

(** *** Exit *)

(** [ExitState::set] *)
Definition exit_set (x : exit_key) (val : ThreadExit) : K unit :=
  k ← get;
  let st := exit_state k x in
  put (set_exit_state k x {| code := match code st with Some c => Some c | None => Some val end; wakers := [] |});;
  for_each wake (wakers st).

(** [ExitFuture::poll] of a task: it looks at the code and then adds its waker, *)
Definition poll_code (x : exit_key) : K (option ThreadExit) := k ← get; mret (code (exit_state k x)).
Definition register_waker (x : exit_key) (waker : Z) : K unit :=
  k ← get;
  put (set_exit_state k x {| code := code (exit_state k x); wakers := wakers (exit_state k x) ++ [waker] |}).
(** here without anything in between. *)
Definition exit_poll (x : exit_key) (waker : Z) : K (option ThreadExit) :=
  o ← poll_code x;
  match o with
  | Some c => mret (Some c)
  | None => register_waker x waker;; mret None
  end.

(** [ConcurrentLinkedList::remove]: the first element with this id *)
Fixpoint remove_by_id (id : Z) (l : list nat) : SM (list nat) :=
  match l with
  | [] => mret []
  | p :: l' => t ← deref p; if tid t =? id then mret l' else l'' ← remove_by_id id l'; mret (p :: l'')
  end.
Definition forget_thread (id : Z) : SM unit :=
  s ← get;
  l ← remove_by_id id (threads s);
  update (λ s, set_threads s l).

Section kernel.
Context `{BF : BitField} (kernel_table : PageTable) (L : Layouts).

(** The stack of a kernel thread *)
Definition free_kernel_stack (start pages : Z) : K unit :=
  on_memory (
    regions ← with_tabs (unmap_range_custom kernel_table start pages);
    for_each (λ r, with_pma (free_pages (base_phys_addr r) (Paging.page_count r))) regions;;
    with_kva (VirtAlloc.free start pages)).

(** [Thread::exit] *)
Definition exit (p : nat) (exit_code : ThreadExit) : K unit :=
  on_sched (remove_thread p);;
  self ← on_sched (deref p);
  on_sched (forget_thread (tid self));;
  proc_if_last_thread ←
    match parent self with
    | Some i =>
        k ← get;
        ts ← on_sched (retain_other (tid self) (threads_of k i));
        k ← get;
        put (set_process_threads k i ts);;
        on_process i (free_memory (stack_start self) (stack_page_count self));;
        mret (if (length ts =? 0)%nat then Some i else None)
    | None => free_kernel_stack (stack_start self) (stack_page_count self);; mret None
    end;
  exit_set (inl p) exit_code;;
  match proc_if_last_thread with
  | Some i =>
      exit_set (inr i) exit_code;;
      k ← get;
      put (set_processes k (snd (remove_first (Z.eqb i) (processes k))))
  | None => mret tt
  end.

(** [process_for_id] *)
Definition process_for_id (i : Z) : K (option Z) := k ← get; mret (find (Z.eqb i) (processes k)).

Definition kill_process (process_id : Z) : K unit :=
  o ← process_for_id process_id;
  match o with
  | None => throw (Misc "find process to kill" (Some InvalidId))
  | Some i =>
      k ← get;
      for_each (λ p, exit p Killed) (threads_of k i)
  end.

(** *** Commands *)

(** [.context(InnerSnafu { reason })] *)
Definition inner {A} (reason : string) (m : K A) : K A := λ k,
  match m k with Ok a k' => Ok a k' | Err e k' => Err (Inner reason e) k' | Stop w => Stop w end.
Arguments inner {A} reason%_string_scope m.

(** [Arc::new] of a thread *)
Definition new_arc (t : Thread) : SM nat :=
  s ← get;
  let p := fresh (dom (arcs s)) in
  put (set_arcs s (<[p := t]> (arcs s)));;
  mret p.

Definition spawn_thread (i entry_point stack_size user_data : Z) (send_completion_on_exit : bool)
    (cmd recv_qu : Z) : K Z :=
  if stack_size =? 0 then throw (Misc "thread stack must have non-zero size" (Some InvalidSize))
  else
    let stack_page_count := div_ceil stack_size PAGE_SIZE in
    '(initial_stack_pointer, _) ← inner "allocate thread stack"
                                    (on_process i (alloc_memory kernel_table stack_page_count false));
    tid ← on_sched next_thread_id;
    regs ← lift (from_args [user_data]);
    t ← lift (user_thread i tid entry_point initial_stack_pointer stack_page_count Normal regs);
    p ← on_sched (new_arc t);
    (if send_completion_on_exit then spawn (ExitNotice i (inl p) cmd recv_qu) else mret tt);;
    k ← get;
    put (set_process_threads k i (threads_of k i ++ [p]));;
    on_sched (Sched.spawn_thread p);;
    mret tid.

Definition watch_thread (thread_id : Z) : K exit_key :=
  o ← on_sched (thread_for_id thread_id);
  match o with
  | Some p => mret (inl p)
  | None => throw (Misc "find thread to watch" (Some InvalidId))
  end.
Definition watch_process (process_id : Z) : K exit_key :=
  o ← process_for_id process_id;
  match o with
  | Some i => mret (inr i)
  | None => throw (Misc "find process to watch" (Some InvalidId))
  end.

(** [spawn_child], of the file [Spawn], as an argument. *)
Context (spawn_child : Z → SpawnProcess → Z → Z → K Z).

(** What a command leads to: a completion, or an exit code that it waits for. *)
Definition command (i : Z) (cmd : Command) (recv_qu : Z) : K (CmplKind + exit_key) :=
  match cmd_kind cmd with
  | Test arg => mret (inl (TestCmpl i arg))
  | CreateCompletionQueue size =>
      '(id, start) ← on_process i (create_completion_queue kernel_table L size); mret (inl (NewQueue id start))
  | CreateSubmissionQueue size c =>
      '(id, start) ← on_process i (create_submission_queue kernel_table L size c); mret (inl (NewQueue id start))
  | DestroyQueue id => on_process i (destroy_queue kernel_table L id);; mret (inl SuccessCmpl)
  | SpawnThread e n u b => id ← spawn_thread i e n u b (cmd_id cmd) recv_qu; mret (inl (NewThread id))
  | WatchThread id => x ← watch_thread id; mret (inr x)
  | SpawnProcessCmd info => id ← spawn_child i info (cmd_id cmd) recv_qu; mret (inl (NewProcess id))
  | WatchProcess id => x ← watch_process id; mret (inr x)
  | KillProcess id => kill_process id;; mret (inl SuccessCmpl)
  | InvalidCmd => throw (Misc "received unknown command" (Some UnknownCommand))
  end.

Definition dispatch_command (i : Z) (cmd : Command) (recv_qu : Z) : K (Completion + exit_key) := λ k,
  match command i cmd recv_qu k with
  | Ok (inl kind) k' => Ok (inl {| response_to_id := cmd_id cmd; cmpl_kind := kind |}) k'
  | Ok (inr x) k' => Ok (inr x) k'
  | Err e k' =>
      (c ← lift (as_code e); mret (inl {| response_to_id := cmd_id cmd; cmpl_kind := ErrCmpl c |})) k'
  | Stop w => Stop w
  end.

(** *** Queues and tasks *)

(** [Weak::upgrade] of a completion queue, and [post]; [None] if the queue is gone, else
    whether there was room. *)
Definition post (i recv_qu : Z) (c : Completion) : K (option bool) :=
  k ← get;
  match p ← procs (kworld k) !! i; find (has_id recv_qu) (recv_queues p) with
  | None => mret None
  | Some q =>
      let l := messages (completed k) (i, recv_qu) in
      if Z.of_nat (length l) <? capacity (uq_queue q) then
        put (set_completed k (i, recv_qu) (l ++ [c]));; mret (Some true)
      else mret (Some false)
  end.

(** The end of the task of a command; an overflow is a [todo!()]. *)
Definition answer (i recv_qu : Z) (c : Completion) : K unit :=
  o ← post i recv_qu c;
  match o with Some false => panic | _ => mret tt end.

Definition poll_watch (i : Z) (x : exit_key) (cmd recv_qu task : Z) : K (option Task) :=
  o ← exit_poll x task;
  match o with
  | None => mret (Some (Watching i x cmd recv_qu))
  | Some c => answer i recv_qu {| response_to_id := cmd; cmpl_kind := ThreadExitCmpl c |};; mret None
  end.

(** [Future::poll] of a task: what is left of it, if it is pending. *)
Definition poll_task (task : Z) (t : Task) : K (option Task) :=
  match t with
  | Dispatch i cmd recv_qu =>
      k ← get;
      match procs (kworld k) !! i with
      | None => mret None
      | Some _ =>
          r ← dispatch_command i cmd recv_qu;
          match r with
          | inl c => answer i recv_qu c;; mret None
          | inr x => poll_watch i x (cmd_id cmd) recv_qu task
          end
      end
  | Watching i x cmd recv_qu => poll_watch i x cmd recv_qu task
  | ExitNotice i x cmd recv_qu =>
      o ← exit_poll x task;
      match o with
      | None => mret (Some t)
      | Some c => post i recv_qu {| response_to_id := cmd; cmpl_kind := ThreadExitCmpl c |};; mret None
      end
  | OnPageFault _ p _ => exit p PageFault;; mret None
  end.

(** The body of [loop] of [run_forever]: take the new tasks, *)
Fixpoint take_new (fuel : nat) : K unit :=
  k ← get;
  let t := ktasks k in
  match new_task_queue t with
  | [] => mret tt
  | (id, task) :: q =>
      match fuel with
      | O => out_of_fuel
      | S fuel' =>
          put (set_tasks k (Build_Tasks (ready_queue t) q (next_task_id t) (<[id := task]> (tasks t))));;
          wake id;;
          take_new fuel'
      end
  end.
(** and poll those that are ready. *)
Fixpoint poll_ready (fuel : nat) : K unit :=
  k ← get;
  let t := ktasks k in
  match ready_queue t with
  | [] => mret tt
  | id :: q =>
      match fuel with
      | O => out_of_fuel
      | S fuel' =>
          put (set_tasks k (Build_Tasks q (new_task_queue t) (next_task_id t) (tasks t)));;
          match tasks t !! id with
          | None => poll_ready fuel'
          | Some task =>
              r ← poll_task id task;
              k ← get;
              let t := ktasks k in
              put (set_tasks k (Build_Tasks (ready_queue t) (new_task_queue t) (next_task_id t)
                     match r with Some task' => <[id := task']> (tasks t) | None => delete id (tasks t) end));;
              poll_ready fuel'
          end
      end
  end.

(** [while let Some(cmd) = send_qu.poll()] *)
Fixpoint poll_commands (fuel : nat) (i send_qu recv_qu : Z) : K unit :=
  k ← get;
  match messages (submitted k) (i, send_qu) with
  | [] => mret tt
  | cmd :: l =>
      match fuel with
      | O => out_of_fuel
      | S fuel' =>
          put (set_submitted k (i, send_qu) l);;
          spawn (Dispatch i cmd recv_qu);;
          poll_commands fuel' i send_qu recv_qu
      end
  end.

Definition queue_number (q : UserQueue) : Z := MsgQueue.id (uq_queue q).

Definition dispatch_new_commands (i : Z) : K unit :=
  k ← get;
  p ← lift (procs (kworld k) !! i);
  for_each (λ '(send_qu, recv_qu),
    k ← get;
    poll_commands (length (messages (submitted k) (i, queue_number send_qu))) i
      (queue_number send_qu) (queue_number recv_qu)) (send_queues p).

(** *** System calls *)

Definition le_bytes (n : nat) (v : Z) : list Z := (λ j, v / 2 ^ (8 * Z.of_nat j) mod 256) <$> seq 0 n.

(** Where the kernel reaches an address while the tables of a process are active: low addresses
    through those, high ones through its own. *)
Definition kernel_translate (k : Kernel) (pt : PageTable) (va : Z) : option (Z * bool * bool) :=
  let T := tables (ktabs (wmem (kworld k))) in
  match translate T false (level0_table pt) va with
  | Some x => Some x
  | None => translate T true (level0_table kernel_table) va
  end.

(** A write by the kernel through a pointer of the process.  Where nothing is mapped for
    writing it is a synchronous exception from the kernel, which panics. *)
Fixpoint write_user (i va : Z) (bytes : list Z) : K unit :=
  match bytes with
  | [] => mret tt
  | b :: bytes' =>
      k ← get;
      p ← lift (procs (kworld k) !! i);
      match kernel_translate k (page_tables p) va with
      | Some (pa, false, _) => put (set_bytes k (<[pa := b]> (kbytes k)));; write_user i (va + 1) bytes'
      | _ => panic
      end
  end.

(** The handlers of [register_system_call_handlers]; [WriteLog] (4) only logs.  The registers
    are those of the [Registers] that the exception saved. *)
Definition system_call (i : Z) (p : nat) (x : Registers) (id : Z) : K unit :=
  x0 ← lift (x !! 0%nat); x1 ← lift (x !! 1%nat); x2 ← lift (x !! 2%nat);
  if id =? 1 then exit p (NormalExit (x0 mod 2 ^ 16))
  else if id =? 2 then write_user i x0 (le_bytes 4 i)
  else if id =? 3 then t ← on_sched (deref p); write_user i x0 (le_bytes 4 (tid t))
  else if id =? 10 then on_sched schedule_next_thread
  else if id =? 11 then on_sched (set_state p Waiting);; panic
  else if id =? 20 then
    '(addr, size) ← on_process i (heap_allocate kernel_table x0);
    write_user i x1 (le_bytes 8 addr);; write_user i x2 (le_bytes 8 size)
  else if id =? 21 then on_process i (heap_free x0 x1)
  else mret tt.

(** *** Exceptions *)

(** [ExceptionSyndromeRegister] *)
Definition esr_ec (esr : Z) : Z := Z.land (Z.shiftr esr 26) 63.
Definition esr_iss (esr : Z) : Z := Z.land esr (2 ^ 25 - 1).
Definition is_system_call (ec : Z) : bool := ec =? 0x15.
Definition is_user_space_data_page_fault (ec : Z) : bool := ec =? 0x24.
Definition is_user_space_code_page_fault (ec : Z) : bool := ec =? 0x20.

Definition handle_synchronous_exception (esr far : Z) : K unit :=
  let ec := esr_ec esr in
  if negb (is_system_call ec) && negb (is_user_space_data_page_fault ec) &&
     negb (is_user_space_code_page_fault ec) then panic
  else
    k0 ← get;
    current_thread ← on_sched pause_current_thread;
    t ← on_sched (deref current_thread);
    match parent t with Some i => dispatch_new_commands i | None => mret tt end;;
    i ← lift (parent t);
    (if is_system_call ec then
       system_call i current_thread (regs (cpu (ksched k0))) (esr_iss esr mod 2 ^ 16)
     else
       on_sched (set_state current_thread Waiting);;
       spawn (OnPageFault i current_thread far);;
       on_sched make_task_executor_current);;
    on_sched resume_current_thread.

(** Interrupts: the kernel, what else the handlers of interrupts use ([X]), and the hardware of the
    interrupt controller.  [handlers] is the table of the registered handlers. *)
Section interrupts.
Context {X D : Type} `{Mmio D, BitVec} (ic : GenericInterruptController).
Context (handlers : Z → option (M (Kernel * X) Error unit)).
Local Abbreviation IM := (M (Kernel * X * D) Error).

Definition on_kernel {A} (m : K A) : IM A := λ '(k, x, d),
  match m k with Ok a k' => Ok a (k', x, d) | Err e k' => Err e (k', x, d) | Stop w => Stop w end.
Definition on_handler {A} (m : M (Kernel * X) Error A) : IM A := λ '(k, x, d),
  match m (k, x) with Ok a s => Ok a (s, d) | Err e s => Err e (s, d) | Stop w => Stop w end.
Definition on_device {A} (m : M D Error A) : IM A := λ '(k, x, d),
  match m d with Ok a d' => Ok a (k, x, d') | Err e d' => Err e (k, x, d') | Stop w => Stop w end.

(** [while let Some(id) = ic.ack_interrupt()] *)
Fixpoint interrupt_loop (fuel : nat) : IM unit :=
  o ← on_device (ack_interrupt ic);
  match o with
  | None => mret tt
  | Some id =>
      match fuel with
      | O => out_of_fuel
      | S fuel' =>
          match handlers id with Some h => on_handler h | None => mret tt end;;
          on_device (finish_interrupt ic id);;
          interrupt_loop fuel'
      end
  end.

Definition handle_interrupt (fuel : nat) : IM unit :=
  current_thread ← on_kernel (on_sched pause_current_thread);
  t ← on_kernel (on_sched (deref current_thread));
  interrupt_loop fuel;;
  match parent t with Some i => on_kernel (dispatch_new_commands i) | None => mret tt end;;
  on_kernel (on_sched resume_current_thread).

(** [handle_fast_interrupt]; the warning is only logged *)
Definition handle_fast_interrupt : IM unit :=
  id ← on_device (ack_interrupt ic);
  id ← lift id;
  on_device (finish_interrupt ic id).
End interrupts.
End kernel.
