(* ===== verification/KernelThreads.v ===== *)
(** The threads of the kernel as a whole: which threads there are, whose they are and in which
    queue, and how removing one ([ThreadScheduler::remove_thread], [Thread::exit]) and adding
    one change that. *)
From stdpp Require Import base list gmap.
From S2P Require Import Prelude BitField Addresses PhysAlloc VirtAlloc Frames PageEntry Paging.
From S2P Require Import PagingTree PagingIter Spaces PhysBuffer MsgQueue Error Process ProcWorld Sched SchedSpec Kernel.

Definition queue_at (s : Sched) (j : nat) : list nat := default [] (fst <$> queues s !! j).

(** Threads have different ids, are in the queue of their priority and in a valid state; there
    are no threads of high priority, and the task executor is ready to run. *)
Record threads_wf (s : Sched) : Prop := {
  tw_queues : length (queues s) = 3%nat;
  tw_valid : ∀ p, p ∈ threads s → ∃ t st pr, arcs s !! p = Some t ∧ state t = Some st ∧ priority t = Some pr;
  tw_queued : ∀ j p, p ∈ queue_at s j → p ∈ threads s ∧
    ∀ t, arcs s !! p = Some t → priority_index <$> priority t = Some j;
  tw_tids : ∀ p q t u, p ∈ threads s → q ∈ threads s → arcs s !! p = Some t → arcs s !! q = Some u →
    tid t = tid u → p = q;
  tw_nodup : NoDup (threads s);
  tw_current : current_thread s ∈ threads s;
  tw_bound : ∀ p t, p ∈ threads s → arcs s !! p = Some t → 0 ≤ tid t < next_tid s;
  tw_high : queue_at s 0 = [];
  tw_executor : ∃ e t, e ∈ queue_at s 1 ∧ arcs s !! e = Some t ∧ tid t = TASK_THREAD ∧ parent t = None ∧
    state t = Some Running;
}.

Definition others (p : nat) (l : list nat) : list nat := filter (λ q, q ≠ p) l.

Lemma elem_others p l x : x ∈ others p l ↔ x ∈ l ∧ x ≠ p.
Proof. unfold others. rewrite list_elem_of_filter. tauto. Qed.
Lemma others_not p l : p ∉ l → others p l = l.
Proof.
  induction l as [|q l IH]; intros Hp; [done|]. apply not_elem_of_cons in Hp as [Hne Hp].
  unfold others in *. rewrite filter_cons_True by done. by rewrite IH.
Qed.
Lemma others_cons_ne p q l : q ≠ p → others p (q :: l) = q :: others p l.
Proof. intros H. unfold others. by rewrite filter_cons_True. Qed.
Lemma others_cons_eq p l : others p (p :: l) = others p l.
Proof. unfold others. rewrite filter_cons_False; [done|]. by intros []. Qed.

(** Ids identify the threads of a list. *)
Definition tids_unique (s : Sched) (p : nat) (t : Thread) (l : list nat) : Prop :=
  ∀ q, q ∈ l → ∃ u, arcs s !! q = Some u ∧ (tid u = tid t ↔ q = p).

Lemma wf_unique s p t l : threads_wf s → p ∈ threads s → arcs s !! p = Some t →
  (∀ q, q ∈ l → q ∈ threads s) → tids_unique s p t l.
Proof.
  intros Hwf Hp Ht Hl q Hq. destruct (tw_valid s Hwf q (Hl q Hq)) as (u & _ & _ & Hu & _ & _).
  exists u. split; [done|]. split; [|intros ->; congruence]. intros E. by eapply (tw_tids s Hwf); eauto.
Qed.

Lemma retain_other_run s p t l : tids_unique s p t l → retain_other (tid t) l s = Ok (others p l) s.
Proof.
  induction l as [|q l IH]; intros Hu; cbn [retain_other]; [done|].
  destruct (Hu q ltac:(left)) as (u & Hq & Hiff).
  erewrite bind_run by (by apply deref_run).
  erewrite bind_run by (apply IH; intros x Hx; apply Hu; by right).
  destruct (Z.eqb_spec (tid u) (tid t)) as [E|E].
  - apply Hiff in E as ->. by rewrite others_cons_eq.
  - rewrite others_cons_ne; [done|]. by rewrite <- Hiff.
Qed.

Lemma remove_by_id_run s p t l : tids_unique s p t l → NoDup l → remove_by_id (tid t) l s = Ok (others p l) s.
Proof.
  induction l as [|q l IH]; intros Hu Hnd; cbn [remove_by_id]; [done|].
  apply NoDup_cons in Hnd as [Hq Hnd]. destruct (Hu q ltac:(left)) as (u & Hqu & Hiff).
  erewrite bind_run by (by apply deref_run).
  destruct (Z.eqb_spec (tid u) (tid t)) as [E|E].
  - apply Hiff in E as ->. rewrite others_cons_eq. by rewrite others_not.
  - erewrite bind_run by (apply IH; [intros x Hx; apply Hu; by right|done]).
    rewrite others_cons_ne; [done|]. by rewrite <- Hiff.
Qed.

(** *** Scheduling *)

Lemma wf_sched s : threads_wf s → sched_wf s.
Proof.
  intros Hwf. split; [apply Hwf|]. apply Forall_lookup. intros j [q n] Hj. apply Forall_forall. cbn.
  intros p Hp. destruct (tw_queued s Hwf j p) as [Hpt _]; [unfold queue_at; by rewrite Hj|].
  destruct (tw_valid s Hwf p Hpt) as (t & st & _ & ? & ? & _). by exists t, st.
Qed.

Lemma queue_at_ring s j r : rings s !! j = Some r → ∀ x, x ∈ queue_at s j ↔ x ∈ r.
Proof.
  unfold rings, queue_at. rewrite list_lookup_fmap. intros (q & Hq & ->)%fmap_Some x. rewrite Hq. cbn.
  unfold ring_of. by rewrite ring_elem.
Qed.

Lemma spec_schedule_elem (P : nat → Prop) `{!∀ p, Decision (P p)} rs p rs' :
  spec_schedule P rs = Some (p, rs') → P p ∧ length rs' = length rs ∧
  ∀ j r r', rs !! j = Some r → rs' !! j = Some r' → ∀ x, x ∈ r' ↔ x ∈ r.
Proof.
  revert rs'. induction rs as [|[|y r] rs IH]; intros rs'; cbn [spec_schedule]; [done| |].
  - destruct (spec_schedule P rs) as [[q rs'']|] eqn:E; [|done]. intros [= <- <-].
    destruct (IH _ eq_refl) as (Hp & Hl & Hj). split_and!; [done|cbn; lia|].
    intros [|j] r r'; cbn; [by intros [= <-] [= <-]|by apply Hj].
  - destruct (list_find P (y :: r)) as [[d q]|] eqn:E; [|done]. intros [= <- <-].
    apply list_find_Some in E as (_ & Hp & _). split_and!; [done|done|].
    intros [|j] r0 r1; cbn [lookup list_lookup]; [|by intros -> [= <-]].
    intros [= <-] [= <-] x. apply (ring_elem (y :: r) (S d)).
Qed.

(** What a call of the scheduler may change: the current thread and the order within queues. *)
Record rescheduled (s s' : Sched) : Prop := {
  rs_same : same_threads s s';
  rs_queues : length (queues s') = 3%nat;
  rs_elem : ∀ j x, x ∈ queue_at s' j ↔ x ∈ queue_at s j;
}.

Lemma rescheduled_wf s s' : threads_wf s → rescheduled s s' → current_thread s' ∈ threads s → threads_wf s'.
Proof.
  intros [Hq Hv Hqd Ht Hnd Hc Hb Hh (e & t & He & Hx)] [[Ha Hth Hn _] Hl Hel] Hcur.
  split; rewrite ?Ha, ?Hth, ?Hn; try done.
  - intros j p Hp%Hel. by apply Hqd.
  - apply elem_of_nil_inv. intros x Hx'%Hel. rewrite Hh in Hx'. by apply not_elem_of_nil in Hx'.
  - exists e, t. by rewrite Hel.
Qed.

Lemma schedule_wf s : threads_wf s → ∃ s', schedule_next_thread s = Ok tt s' ∧ rescheduled s s' ∧
  is_running s (current_thread s') ∧ ∃ j, current_thread s' ∈ queue_at s j.
Proof.
  intros Hwf. pose proof (schedule_run s (wf_sched s Hwf)) as Hrun. unfold scheduled in Hrun.
  destruct (tw_executor s Hwf) as (e & t & He & Ht & _ & _ & Hst).
  assert (∃ r, rings s !! 1%nat = Some r ∧ e ∈ r) as (r & Hr & Her).
  { pose proof (tw_queues s Hwf) as Hl. destruct (lookup_lt_is_Some_2 (queues s) 1) as [q Hq]; [lia|].
    exists (ring_of q). unfold rings. rewrite list_lookup_fmap, Hq. split; [done|].
    unfold ring_of. rewrite ring_elem. unfold queue_at in He. by rewrite Hq in He. }
  assert (∃ rs, rings s = [] :: r :: rs) as [rs Hrs].
  { pose proof (tw_high s Hwf) as Hh. destruct (rings s) as [|r0 [|r1 rs]] eqn:E; [done..|].
    injection Hr as ->. exists rs. f_equal. apply elem_of_nil_inv. intros x Hx.
    apply (queue_at_ring s 0 r0) in Hx; [|by rewrite E]. rewrite Hh in Hx. by apply not_elem_of_nil in Hx. }
  assert (is_Some (list_find (is_running s) r)) as [[d x] Hf].
  { apply list_find_elem_of with e; [done|]. by exists t. }
  destruct (spec_schedule (is_running s) (rings s)) as [[p rs']|] eqn:Hs.
  - destruct Hrun as (s' & -> & Hcur & Hsame & Hwf' & Hrs' & Hp). exists s'. split; [done|].
    destruct (spec_schedule_elem _ _ _ _ Hs) as (HPp & Hlen & Hel). rewrite take_0 in Hrs'. cbn [app] in Hrs'. split; [|split].
    + split; [done|apply Hwf'|]. intros j y.
      destruct (rings s !! j) as [r1|] eqn:E1.
      * destruct (lookup_lt_is_Some_2 rs' j) as [r2 E2]; [rewrite Hlen; by eapply lookup_lt_Some|].
        rewrite (queue_at_ring s' j r2), (queue_at_ring s j r1) by (done || by rewrite Hrs').
        by eapply Hel.
      * assert (rings s' !! j = None) as E2.
        { rewrite Hrs'. apply lookup_ge_None. rewrite Hlen. by apply lookup_ge_None. }
        unfold rings in E1, E2. rewrite list_lookup_fmap in E1, E2. apply fmap_None in E1, E2.
        unfold queue_at. by rewrite E1, E2.
    + by rewrite Hcur.
    + rewrite Hcur. apply list_elem_of_join in Hp as (r' & Hp & Hr').
      apply list_elem_of_lookup in Hr' as [j Hj]. exists j. by apply (queue_at_ring s j) in Hp.
  - exfalso. rewrite Hrs in Hs. cbn [spec_schedule] in Hs. destruct r as [|y r]; [done|]. by rewrite Hf in Hs.
Qed.

(** *** A thread less *)

Lemma queue_at_set s j k q n : (k < length (queues s))%nat →
  queue_at (set_queue s k (q, n)) j = if decide (j = k) then q else queue_at s j.
Proof.
  intros Hk. unfold queue_at. cbn. case_decide as E.
  - subst. by rewrite list_lookup_insert_eq.
  - by rewrite list_lookup_insert_ne.
Qed.

Lemma wf_unqueue s p t k n : threads_wf s → p ∈ threads s → arcs s !! p = Some t → tid t ≠ TASK_THREAD →
  (k < 3)%nat → threads_wf (set_queue s k (others p (queue_at s k), n)).
Proof.
  intros Hwf Hp Ht Hne Hk. pose proof (tw_queues s Hwf) as Hl.
  assert (∀ j x, x ∈ queue_at (set_queue s k (others p (queue_at s k), n)) j → x ∈ queue_at s j) as Hsub.
  { intros j x. rewrite queue_at_set by lia. case_decide as E; [subst; by intros [? _]%elem_others|done]. }
  destruct Hwf as [_ Hv Hqd Htid Hnd Hc Hb Hh (e & u & He & Hu & Hte & Hx)].
  split; cbn [threads arcs next_tid current_thread set_queue]; try done.
  - cbn. by rewrite length_insert.
  - intros j x Hx'%Hsub. by apply Hqd.
  - apply elem_of_nil_inv. intros x Hx'%Hsub. rewrite Hh in Hx'. by apply not_elem_of_nil in Hx'.
  - exists e, u. split; [|done]. rewrite queue_at_set by lia. case_decide as E; [|done]. subst k.
    apply elem_others. split; [done|]. intros ->. congruence.
Qed.

Record thread_removed (s : Sched) (p : nat) (s' : Sched) : Prop := {
  tr_arcs : arcs s' = arcs s;
  tr_threads : threads s' = others p (threads s);
  tr_next : next_tid s' = next_tid s;
  tr_cpu : cpu s' = cpu s;
  tr_elem : ∀ j x, x ∈ queue_at s' j ↔ x ∈ queue_at s j ∧ x ≠ p;
  tr_current : if decide (current_thread s = p)
    then is_running s (current_thread s') ∧ ∃ j, current_thread s' ∈ queue_at s' j
    else current_thread s' = current_thread s;
}.

Lemma queued_where s p t pr j : threads_wf s → arcs s !! p = Some t → priority t = Some pr →
  p ∈ queue_at s j → j = priority_index pr.
Proof.
  intros Hwf Ht Hpr Hp. apply (tw_queued s Hwf) in Hp as [_ Hp]. specialize (Hp t Ht).
  rewrite Hpr in Hp. by injection Hp as <-.
Qed.

Lemma remove_thread_run s p t : threads_wf s → p ∈ threads s → arcs s !! p = Some t → tid t ≠ TASK_THREAD →
  ∃ s', remove_thread p s = Ok tt s' ∧ threads_wf s' ∧ threads s' = threads s ∧
    thread_removed s p (set_threads s' (others p (threads s))).
Proof.
  intros Hwf Hp Ht Hne. destruct (tw_valid s Hwf p Hp) as (t' & _ & pr & Ht' & _ & Hpr).
  rewrite Ht in Ht'. injection Ht' as <-. set (k := priority_index pr).
  assert (k < 3)%nat as Hk by (unfold k; destruct pr; cbn; lia). pose proof (tw_queues s Hwf) as Hl.
  destruct (lookup_lt_is_Some_2 (queues s) k) as [[q n] Hq]; [lia|].
  assert (queue_at s k = q) as Hqk by (unfold queue_at; by rewrite Hq).
  set (s1 := set_queue s k (others p q, n)).
  assert (threads_wf s1) as Hwf1 by (unfold s1; rewrite <- Hqk; by eapply wf_unqueue).
  assert (∀ j x, x ∈ queue_at s1 j ↔ x ∈ queue_at s j ∧ x ≠ p) as Hel.
  { intros j x. unfold s1. rewrite queue_at_set by lia. case_decide as E.
    - subst j. rewrite elem_others, Hqk. done.
    - split; [|by intros []]. intros Hx. split; [done|]. intros ->. apply E. exact (queued_where s _ t pr j Hwf Ht Hpr Hx). }
  destruct (tw_valid s Hwf _ (tw_current s Hwf)) as (c & _ & _ & Hc & _ & _).
  unfold remove_thread. erewrite bind_run by (by apply deref_run). rewrite Hpr.
  erewrite bind_run by done. erewrite bind_run by done. fold k. rewrite Hq. erewrite bind_run by done.
  cbv beta iota. erewrite bind_run by (apply retain_other_run, (wf_unique s); [done..|];
    intros x Hx; eapply (tw_queued s Hwf k); by rewrite Hqk).
  erewrite bind_run by done. fold s1. erewrite bind_run by (by apply (deref_run s1)).
  destruct (Z.eqb_spec (tid t) (tid c)) as [E|E].
  - assert (current_thread s = p) as Hcur by (by apply (tw_tids s Hwf _ _ c t); [apply tw_current|..]).
    destruct (schedule_wf s1 Hwf1) as (s2 & Hrun & Hre & Hrn & j & Hj). rewrite Hrun. exists s2.
    pose proof Hre as [[Ha Hth Hn Hcp] Hl2 Hel2].
    split_and!; [done|eapply rescheduled_wf; [done..|]; apply (tw_queued s1 Hwf1 j _ Hj)|by rewrite Hth|].
    split; cbn; try done; [intros j' x; rewrite <- Hel; apply Hel2|].
    rewrite decide_True by done. split; [done|]. exists j. by apply Hel2.
  - exists s1. split_and!; [done..|]. split; cbn; try done.
    rewrite decide_False; [done|]. intros Hcur. rewrite Hcur in Hc. congruence.
Qed.

Lemma removed_wf s p t s' : threads_wf s → p ∈ threads s → arcs s !! p = Some t → tid t ≠ TASK_THREAD →
  length (queues s') = 3%nat → thread_removed s p s' → threads_wf s'.
Proof.
  intros Hwf Hp Ht Hne Hl [Ha Hth Hn Hc Hel Hcur].
  assert (∀ x, x ∈ threads s' → x ∈ threads s ∧ x ≠ p) as Hsub by (intros x; rewrite Hth; by intros ?%elem_others).
  destruct Hwf as [_ Hv Hqd Htid Hnd Hct Hb Hh (e & u & He & Hu & Hte & Hx)].
  assert (∀ j x, x ∈ queue_at s' j → x ∈ threads s') as Hq.
  { intros j x [Hx' Hxp]%Hel. rewrite Hth. apply elem_others. split; [by eapply Hqd|done]. }
  split; rewrite ?Ha, ?Hn; try done.
  - intros x [? _]%Hsub. by apply Hv.
  - intros j x Hx'. split; [by eapply Hq|]. apply Hel in Hx' as [Hx' _]. by apply Hqd.
  - intros x y v w [? _]%Hsub [? _]%Hsub. by apply Htid.
  - rewrite Hth. by apply NoDup_filter.
  - case_decide as E; [destruct Hcur as (_ & j & Hj); by eapply Hq|].
    rewrite Hcur, Hth. by apply elem_others.
  - intros x v [? _]%Hsub. by apply Hb.
  - apply elem_of_nil_inv. intros x [Hx' _]%Hel. rewrite Hh in Hx'. by apply not_elem_of_nil in Hx'.
  - exists e, u. split; [|done]. apply Hel. split; [done|]. intros ->. congruence.
Qed.

(** *** A thread more *)

Definition with_thread (s : Sched) (p : nat) (t : Thread) : Sched :=
  Build_Sched (<[p := t]> (arcs s)) (threads s) (next_tid s + 1) (queues s) (current_thread s) (cpu s).

Record thread_added (s : Sched) (p : nat) (t : Thread) (s' : Sched) : Prop := {
  ta_arcs : arcs s' = <[p := t]> (arcs s);
  ta_threads : threads s' = p :: threads s;
  ta_next : next_tid s' = next_tid s + 1;
  ta_cpu : cpu s' = cpu s;
  ta_current : current_thread s' = current_thread s;
  ta_queues : length (queues s') = 3%nat;
  ta_elem : ∀ j x, x ∈ queue_at s' j ↔ x ∈ queue_at s j ∨ j = 1%nat ∧ x = p;
}.

Lemma spawn_thread_run s p t : threads_wf s → priority t = Some Normal →
  ∃ s', Sched.spawn_thread p (with_thread s p t) = Ok tt s' ∧ thread_added s p t s'.
Proof.
  intros Hwf Hpr. pose proof (tw_queues s Hwf) as Hl.
  destruct (lookup_lt_is_Some_2 (queues s) 1) as [[q n] Hq]; [lia|].
  unfold Sched.spawn_thread. erewrite bind_run by done. unfold add_thread.
  erewrite bind_run by (apply deref_run, lookup_insert_eq). rewrite Hpr.
  erewrite bind_run by done. erewrite bind_run by done. cbn [priority_index queues set_threads with_thread].
  rewrite Hq. erewrite bind_run by done. eexists. split; [done|].
  split; cbn; try done; [by rewrite length_insert|].
  intros j x. unfold queue_at at 1. cbn. destruct (decide (j = 1%nat)) as [->|Hne].
  - rewrite list_lookup_insert_eq by lia. cbn. unfold queue_at. rewrite Hq. cbn.
    rewrite elem_of_app, list_elem_of_singleton. tauto.
  - rewrite list_lookup_insert_ne by done. fold (queue_at s j). tauto.
Qed.

Lemma added_wf s p t st s' : threads_wf s → p ∉ threads s → tid t = next_tid s → priority t = Some Normal →
  state t = Some st → thread_added s p t s' → threads_wf s'.
Proof.
  intros Hwf Hp Htid Hpr Hst [Ha Hth Hn _ Hc Hl Hel]. pose proof Hwf as [_ Hv Hqd Htids Hnd Hct Hb Hh He].
  assert (∀ x, x ∈ threads s → x ≠ p) as Hne by (intros x Hx ->; done).
  destruct (Hv _ Hct) as (c & _ & _ & Hcc & _ & _). pose proof (Hb _ _ Hct Hcc) as H0.
  split; rewrite ?Ha, ?Hth, ?Hn, ?Hc; try done.
  - intros x [->|Hx]%elem_of_cons; [rewrite lookup_insert_eq; by exists t, st, Normal|].
    rewrite lookup_insert_ne by (apply not_eq_sym; auto). by apply Hv.
  - intros j x [Hx|[-> ->]]%Hel.
    + destruct (Hqd j x Hx) as [Hxt Hxp]. split; [by right|].
      rewrite lookup_insert_ne by (apply not_eq_sym; auto). done.
    + split; [by left|]. rewrite lookup_insert_eq. intros ? [= <-]. by rewrite Hpr.
  - intros x y v w [->|Hx]%elem_of_cons [->|Hy]%elem_of_cons; [done| | |];
      rewrite ?lookup_insert_eq, ?lookup_insert_ne by (apply not_eq_sym; auto).
    + intros [= <-] Hw E. specialize (Hb _ _ Hy Hw). lia.
    + intros Hw [= <-] E. specialize (Hb _ _ Hx Hw). lia.
    + by apply Htids.
  - by apply NoDup_cons.
  - by right.
  - intros x v [->|Hx]%elem_of_cons; [rewrite lookup_insert_eq; intros [= <-]; lia|].
    rewrite lookup_insert_ne by (apply not_eq_sym; auto). intros Hv'. specialize (Hb _ _ Hx Hv'). lia.
  - apply elem_of_nil_inv. intros x [Hx|[? _]]%Hel; [|done]. rewrite Hh in Hx. by apply not_elem_of_nil in Hx.
  - destruct He as (e & u & He & Hu & Hx). exists e, u. split; [apply Hel; by left|]. split; [|done].
    rewrite lookup_insert_ne; [done|]. apply not_eq_sym, Hne. by apply (Hqd 1%nat).
Qed.

(** *** A thread in another state *)

(** The same thread, with another context or state. *)
Record like (t t' : Thread) : Prop := {
  lk_tid : tid t' = tid t;
  lk_parent : parent t' = parent t;
  lk_priority : atomic_priority t' = atomic_priority t;
  lk_start : stack_start t' = stack_start t;
  lk_pages : stack_page_count t' = stack_page_count t;
}.

Lemma like_lookup s p t t' q u : arcs s !! p = Some t → like t t' → <[p := t']> (arcs s) !! q = Some u →
  ∃ v, arcs s !! q = Some v ∧ like v u.
Proof.
  intros Ht Hl [[<- <-]|[_ Hq]]%lookup_insert_Some; [by exists t|]. exists u. split; [done|by split].
Qed.

Lemma touch_wf s p t t' st : threads_wf s → arcs s !! p = Some t → like t t' → state t' = Some st →
  (st = Running ∨ tid t ≠ TASK_THREAD) → threads_wf (set_arcs s (<[p := t']> (arcs s))).
Proof.
  intros [H1 Hv Hqd Htid Hnd Hc Hb Hh (e & u & He & Hu & Hte & Hpe & Hse)] Ht Hl Hst Hok.
  split; cbn [set_arcs arcs threads next_tid current_thread queues]; try done.
  - intros q Hq. destruct (decide (q = p)) as [->|Hne].
    + destruct (Hv p Hq) as (t0 & st0 & pr & Ht0 & _ & Hpr). exists t', st, pr. rewrite lookup_insert_eq.
      split_and!; [done|done|]. unfold priority in *. rewrite (lk_priority _ _ Hl). congruence.
    + rewrite lookup_insert_ne by done. by apply Hv.
  - intros j q Hq. destruct (Hqd j q Hq) as [Hqt Hqp]. split; [done|]. intros v Hv'.
    destruct (like_lookup _ _ _ _ _ _ Ht Hl Hv') as (w & Hw & Hlw). rewrite <- (Hqp w Hw). unfold priority.
    by rewrite (lk_priority _ _ Hlw).
  - intros x y v w Hx Hy Hvx Hwy E. destruct (like_lookup _ _ _ _ _ _ Ht Hl Hvx) as (v0 & Hv0 & Hlv).
    destruct (like_lookup _ _ _ _ _ _ Ht Hl Hwy) as (w0 & Hw0 & Hlw).
    apply (Htid x y v0 w0 Hx Hy Hv0 Hw0). rewrite <- (lk_tid _ _ Hlv), <- (lk_tid _ _ Hlw). done.
  - intros x v Hx Hvx. destruct (like_lookup _ _ _ _ _ _ Ht Hl Hvx) as (v0 & Hv0 & Hlv).
    rewrite (lk_tid _ _ Hlv). by eapply Hb.
  - destruct (decide (e = p)) as [->|Hne].
    + rewrite Ht in Hu. injection Hu as <-. destruct Hok as [->|Hok]; [|done].
      exists p, t'. rewrite lookup_insert_eq. destruct Hl. split_and!; try done; congruence.
    + exists e, u. by rewrite lookup_insert_ne by done.
Qed.

(** A thread that is not running is not the executor. *)
Lemma running_or_other s p t st : threads_wf s → p ∈ threads s → arcs s !! p = Some t → state t = Some st →
  st = Running ∨ tid t ≠ TASK_THREAD.
Proof.
  intros Hwf Hp Ht Hst. destruct (decide (tid t = TASK_THREAD)) as [E|E]; [left|by right].
  destruct (tw_executor s Hwf) as (e & u & He & Hu & Hte & _ & Hse).
  assert (p = e) as -> by (apply (tw_tids s Hwf p e t u); [done|by apply (tw_queued s Hwf 1)|done|done|congruence]).
  congruence.
Qed.

Lemma pause_run s t : arcs s !! current_thread s = Some t → ∃ t', like t t' ∧ state t' = state t ∧
  exec_state t' = save (cpu s) ∧
  pause_current_thread s = Ok (current_thread s) (set_arcs s (<[current_thread s := t']> (arcs s))).
Proof.
  intros Ht. unfold pause_current_thread. erewrite bind_run by done. erewrite bind_run by (by apply deref_run).
  eexists. split_and!; [| | |done]; [by split|done|done].
Qed.

Lemma set_state_run s p t st : arcs s !! p = Some t → ∃ t', like t t' ∧ state t' = Some st ∧
  exec_state t' = exec_state t ∧ set_state p st s = Ok tt (set_arcs s (<[p := t']> (arcs s))).
Proof.
  intros Ht. unfold set_state. erewrite bind_run by (by apply deref_run). eexists.
  split_and!; [| | |done]; [by split|by destruct st|done].
Qed.

Lemma thread_for_id_run s p t : threads_wf s → p ∈ threads s → arcs s !! p = Some t →
  thread_for_id (tid t) s = Ok (Some p) s.
Proof.
  intros Hwf Hp Ht. unfold thread_for_id. rewrite bind_unfold. cbn [get].
  assert (∀ l, p ∈ l → (∀ x, x ∈ l → x ∈ threads s) → find_thread l (tid t) s = Ok (Some p) s) as Hfind; [|by apply Hfind].
  induction l as [|x l IH]; intros Hel Hl; [by apply not_elem_of_nil in Hel|]. cbn [find_thread].
  destruct (tw_valid s Hwf x (Hl x ltac:(left))) as (u & _ & _ & Hu & _).
  erewrite bind_run by (by apply deref_run). destruct (Z.eqb_spec (tid u) (tid t)) as [E|E].
  - assert (x = p) as -> by (apply (tw_tids s Hwf x p u t); [apply Hl; left|done..]). done.
  - apply IH; [|intros y Hy; apply Hl; by right]. apply elem_of_cons in Hel as [->|?]; [congruence|done].
Qed.

(** [make_task_executor_current] finds the executor. *)
Lemma task_executor_run s : threads_wf s → ∃ e t, arcs s !! e = Some t ∧ tid t = TASK_THREAD ∧ e ∈ threads s ∧
  parent t = None ∧ state t = Some Running ∧ make_task_executor_current s = Ok tt (set_current s e).
Proof.
  intros Hwf. destruct (tw_executor s Hwf) as (e & t & He & Ht & Hte & Hpe & Hst).
  apply (tw_queued s Hwf) in He as [He _]. exists e, t. split_and!; try done.
  unfold make_task_executor_current. rewrite <- Hte. by erewrite bind_run by (by apply thread_for_id_run).
Qed.

Lemma set_current_wf s p : threads_wf s → p ∈ threads s → threads_wf (set_current s p).
Proof. intros [] Hp. by split. Qed.
Lemma set_cpu_wf s c : threads_wf s → threads_wf (set_cpu s c).
Proof. intros []. by split. Qed.

Lemma resume_run s t : arcs s !! current_thread s = Some t → ∃ c,
  resume_current_thread s = Ok tt (set_cpu s c) ∧ regs c = register_state (exec_state t) ∧
  spsr_el1 c = program_status (exec_state t) ∧ elr_el1 c = pc (exec_state t) ∧ sp_el0 c = sp (exec_state t) ∧
  ttbr0 c = match parent t with Some i => Some i | None => ttbr0 (cpu s) end.
Proof.
  intros Ht. unfold resume_current_thread. erewrite bind_run by done. erewrite bind_run by (by apply deref_run).
  eexists. split; [done|]. split_and!; try done. by destruct (parent t).
Qed.
