(* ===== verification/KernelSpec.v ===== *)
(** The kernel's invariant over threads and memory, and what [Thread::exit], killing a process
    and spawning a thread do to it. *)
From stdpp Require Import base list gmap.
From S2P Require Import Prelude BitField Addresses PhysAlloc VirtAlloc Frames PageEntry Paging.
From S2P Require Import PagingTree MapRange UnmapRange PagingIter Spaces PhysBuffer MsgQueue Error Process ProcMem.
From S2P Require Import ProcWorld ProcQueues Sched SchedSpec Kernel KernelThreads.

(** The stack of a user thread. *)
Definition stack_region (t : Thread) : option Region :=
  i ← parent t;
  Some {| rg_pid := i; rg_base := stack_start t; rg_pages := stack_page_count t; rg_kernel := None |}.
Definition stacks (s : Sched) (l : list nat) : list Region := omap (λ p, t ← arcs s !! p; stack_region t) l.

Lemma stacks_cons s p l : stacks s (p :: l) =
  match arcs s !! p ≫= stack_region with Some g => g :: stacks s l | None => stacks s l end.
Proof. done. Qed.

Lemma stacks_remove s p t g l : p ∈ l → NoDup l → arcs s !! p = Some t → stack_region t = Some g →
  stacks s l ≡ₚ g :: stacks s (others p l).
Proof.
  intros Hp Hnd Ht Hg. induction l as [|q l IH]; [by apply not_elem_of_nil in Hp|].
  apply NoDup_cons in Hnd as [Hq Hnd]. apply elem_of_cons in Hp as [->|Hp].
  - rewrite others_cons_eq, others_not by done. unfold stacks. cbn [omap list_omap]. by rewrite Ht; cbn; rewrite Hg.
  - rewrite others_cons_ne by (intros ->; done). specialize (IH Hp Hnd). unfold stacks in *. cbn [omap list_omap].
    destruct (arcs s !! q ≫= _) as [g'|]; [|done]. rewrite IH. apply Permutation_swap.
Qed.

Section spec.
Context `{BF : BitField} (kernel_table : PageTable) (R user : Z → Prop) (L : Layouts).
Context (HR : R (level0_table kernel_table)) (Hkh : high_addresses kernel_table = true).
Context (Huser : ∀ r, user r → R r ∧ r ≠ level0_table kernel_table).
Implicit Types (k : Kernel) (t : Thread).
Local Abbreviation all_ok := (all_ok kernel_table R user L).

Record kernel_wf k : Prop := {
  kw_threads : threads_wf (ksched k);
  kw_owned : ∀ i p, p ∈ threads_of k i ↔ p ∈ threads (ksched k) ∧
    ∃ t, arcs (ksched k) !! p = Some t ∧ parent t = Some i;
  kw_nodup : ∀ i, NoDup (threads_of k i);
  kw_memory : ∃ heap, all_ok (kworld k) (stacks (ksched k) (threads (ksched k)) ++ heap);
}.

(** *** Waking *)

Definition ready k : list Z := ready_queue (ktasks k).
Definition woken k (l : list Z) : Kernel :=
  set_tasks k (Build_Tasks (ready k ++ l) (new_task_queue (ktasks k)) (next_task_id (ktasks k)) (tasks (ktasks k))).

Lemma woken_nil k : woken k [] = k.
Proof. unfold woken, ready. rewrite app_nil_r. by destruct k as [? ? ? ? ? []]. Qed.

Lemma wake_all l : ∀ k, (length (ready k) + length l ≤ READY_CAPACITY)%nat → for_each wake l k = Ok tt (woken k l).
Proof.
  induction l as [|x l IH]; intros k Hl; cbn [for_each]; [by rewrite woken_nil|].
  assert (wake x k = Ok tt (woken k [x])) as Hw.
  { unfold wake. erewrite bind_run by done. cbv zeta. fold (ready k). cbn in Hl.
    destruct (Nat.ltb_spec (length (ready k)) READY_CAPACITY); [done|lia]. }
  erewrite bind_run by exact Hw. rewrite IH.
  - unfold woken, ready. cbn. by rewrite <- app_assoc.
  - unfold ready, woken. cbn. rewrite length_app. cbn in *. lia.
Qed.

(** The exit code of a thread or process, once it is set. *)
Definition exit_value k (x : exit_key) (val : ThreadExit) : ThreadExit := default val (code (exit_state k x)).

Lemma exit_set_run k x val : (length (ready k) + length (wakers (exit_state k x)) ≤ READY_CAPACITY)%nat →
  exit_set x val k = Ok tt (woken (set_exit_state k x {| code := Some (exit_value k x val); wakers := [] |})
                              (wakers (exit_state k x))).
Proof.
  intros Hl. unfold exit_set. erewrite bind_run by done. cbv zeta. erewrite bind_run by done.
  unfold exit_value. rewrite wake_all by exact Hl. by destruct (code (exit_state k x)).
Qed.

Lemma exit_state_set k x st y : exit_state (set_exit_state k x st) y = if decide (y = x) then st else exit_state k y.
Proof.
  unfold exit_state. cbn. case_decide as E; [subst; by rewrite lookup_insert_eq|by rewrite lookup_insert_ne].
Qed.

(** *** Exit *)

(** What is left of the state after a thread of process [i] has exited. *)
Record exited k p i (val : ThreadExit) k' : Prop := {
  ex_sched : thread_removed (ksched k) p (ksched k');
  ex_own : threads_of k' i = others p (threads_of k i);
  ex_others : ∀ j, j ≠ i → threads_of k' j = threads_of k j;
  ex_code : code (exit_state k' (inl p)) = Some (exit_value k (inl p) val);
  ex_process : code (exit_state k' (inr i)) =
    if decide (others p (threads_of k i) = []) then Some (exit_value k (inr i) val)
    else code (exit_state k (inr i));
  ex_states : ∀ x, x ≠ inl p → x ≠ inr i → exit_state k' x = exit_state k x;
  ex_processes : processes k' =
    if decide (others p (threads_of k i) = []) then snd (remove_first (Z.eqb i) (processes k)) else processes k;
  ex_ready : ready k' = ready k ++ wakers (exit_state k (inl p)) ++
    if decide (others p (threads_of k i) = []) then wakers (exit_state k (inr i)) else [];
  ex_wakers : wakers (exit_state k' (inr i)) =
    if decide (others p (threads_of k i) = []) then [] else wakers (exit_state k (inr i));
  ex_tasks : tasks (ktasks k') = tasks (ktasks k) ∧ new_task_queue (ktasks k') = new_task_queue (ktasks k);
  ex_queues : submitted k' = submitted k ∧ completed k' = completed k;
  ex_bytes : kbytes k' = kbytes k;
}.

(** How many tasks the exit of a thread wakes. *)
Definition to_wake k p i : nat :=
  length (wakers (exit_state k (inl p))) +
  if decide (others p (threads_of k i) = []) then length (wakers (exit_state k (inr i))) else 0.

Lemma on_sched_run {A} (m : SM A) k a s : m (ksched k) = Ok a s → on_sched m k = Ok a (set_sched k s).
Proof. unfold on_sched. by intros ->. Qed.
Lemma on_process_run {A} i (m : PM A) k p a s : procs (kworld k) !! i = Some p →
  m (system_of (kworld k) p) = Ok a s → on_process i m k = Ok a (set_world k (set_system (kworld k) i s)).
Proof. unfold on_process. by intros -> ->. Qed.

Lemma threads_of_set k i l j : threads_of (set_process_threads k i l) j = if decide (j = i) then l else threads_of k j.
Proof.
  unfold threads_of. cbn. case_decide as E; [subst; by rewrite lookup_insert_eq|by rewrite lookup_insert_ne].
Qed.

(** The first part of [exit]: the thread is no longer scheduled, listed or owned, and its stack
    is free. *)
Lemma leave_run k p t i : kernel_wf k → p ∈ threads (ksched k) → arcs (ksched k) !! p = Some t →
  parent t = Some i → ∃ s1 s2 P S,
  remove_thread p (ksched k) = Ok tt s1 ∧ arcs s1 = arcs (ksched k) ∧
  forget_thread (tid t) s1 = Ok tt s2 ∧ thread_removed (ksched k) p s2 ∧ threads_wf s2 ∧
  retain_other (tid t) (threads_of k i) s2 = Ok (others p (threads_of k i)) s2 ∧
  procs (kworld k) !! i = Some P ∧
  free_memory (stack_start t) (stack_page_count t) (system_of (kworld k) P) = Ok tt S ∧
  (∃ heap, all_ok (set_system (kworld k) i S) (stacks s2 (threads s2) ++ heap)) ∧
  page_tables (proc S) = page_tables P ∧
  (∀ x, free_cover (address_space_allocator (proc S)) x
          = free_cover (address_space_allocator P) x + covers x (stack_start t, stack_page_count t)) ∧
  ∀ va, stack_start t ≤ va < stack_start t + stack_page_count t * PAGE_SIZE →
    translate (tables (ktabs (mem S))) false (level0_table (page_tables P)) va = None ∧
    ∃ pa ro el0,
      translate (tables (ktabs (wmem (kworld k)))) false (level0_table (page_tables P)) va = Some (pa, ro, el0) ∧
      ¬ frame_allocated (frames (ktabs (mem S))) (page_base pa).
Proof.
  intros [Hwf Hown Hnd [heap Hmem]] Hp Ht Hpar.
  assert (tid t ≠ TASK_THREAD) as Hne.
  { intros E. destruct (tw_executor _ Hwf) as (e & u & He & Hu & Hte & Hpe & _).
    assert (p = e) as -> by (eapply (tw_tids _ Hwf); [done|by eapply (tw_queued _ Hwf 1)|done|done|congruence]).
    congruence. }
  destruct (remove_thread_run _ _ _ Hwf Hp Ht Hne) as (s1 & Hrem & Hwf1 & Hth1 & Htr).
  set (s2 := set_threads s1 (others p (threads (ksched k)))) in *. pose proof (tr_arcs _ _ _ Htr) as Harcs.
  assert (tids_unique s1 p t (threads s1)) as Hu.
  { rewrite Hth1. apply (wf_unique s1); try done; [by rewrite Hth1|by rewrite <- Ht, <- Harcs|by rewrite Hth1]. }
  assert (threads_wf s2) as Hwf2 by exact (removed_wf _ _ _ s2 Hwf Hp Ht Hne (tw_queues s1 Hwf1) Htr).
  destruct (free_heap_run kernel_table R user L HR Hkh Huser (kworld k) []
    {| rg_pid := i; rg_base := stack_start t; rg_pages := stack_page_count t; rg_kernel := None |}
    (stacks (ksched k) (others p (threads (ksched k))) ++ heap)) as (P & S & HP & Hrun & Hok & Hpt & _ & Hfc & Hgone).
  { eapply all_ok_permutation; [|exact Hmem]. cbn [app]. rewrite app_comm_cons. apply Permutation_app_tail.
    eapply stacks_remove; [done|apply Hwf|done|]. unfold stack_region. by rewrite Hpar. }
  exists s1, s2, P, S. split_and!; try done.
  - unfold forget_thread. erewrite bind_run by done.
    erewrite bind_run by (apply remove_by_id_run; [exact Hu|apply Hwf1]). by rewrite Hth1.
  - apply retain_other_run. intros q Hq. rewrite Harcs. apply (wf_unique _ _ _ [q] Hwf Hp Ht); [|by left].
    intros q' ->%list_elem_of_singleton. by apply Hown in Hq as [? _].
  - exists heap. cbn in Hok. unfold stacks in *. by rewrite Harcs.
Qed.

Lemma exited_wf k p t i s2 k' : kernel_wf k → p ∈ threads (ksched k) → arcs (ksched k) !! p = Some t →
  parent t = Some i → thread_removed (ksched k) p s2 → threads_wf s2 → ksched k' = s2 →
  (∀ j, threads_of k' j = if decide (j = i) then others p (threads_of k i) else threads_of k j) →
  (∃ heap, all_ok (kworld k') (stacks s2 (threads s2) ++ heap)) → kernel_wf k'.
Proof.
  intros [Hwf Hown Hnd _] Hp Ht Hpar Htr Hwf2 Hs Hth Hmem. split; rewrite ?Hs; try done.
  - intros j q. rewrite (tr_threads _ _ _ Htr), (tr_arcs _ _ _ Htr), Hth, elem_others.
    case_decide as E; [subst j; rewrite elem_others, Hown; tauto|]. rewrite Hown. split; [|tauto].
    intros [Hq (u & Hu & Hj)]. split; [|by eauto]. split; [done|]. intros ->. congruence.
  - intros j. rewrite Hth. case_decide; [by apply NoDup_filter|done].
Qed.

(** The rest of [exit]: the exit codes, and the end of the process. *)
Definition announce p i (ts : list nat) (val : ThreadExit) : K unit :=
  exit_set (inl p) val;;
  match (if (length ts =? 0)%nat then Some i else None) with
  | Some i => exit_set (inr i) val;; k ← get; put (set_processes k (snd (remove_first (Z.eqb i) (processes k))))
  | None => mret tt
  end.

Lemma announce_run k k1 p i val : let ts := others p (threads_of k i) in
  thread_removed (ksched k) p (ksched k1) →
  (∀ j, threads_of k1 j = if decide (j = i) then ts else threads_of k j) →
  k1 = Build_Kernel (ksched k1) (kworld k1) (processes k) (process_threads k1) (exit_states k) (ktasks k)
         (submitted k) (completed k) (kbytes k) (next_pid k) →
  (length (ready k) + to_wake k p i ≤ READY_CAPACITY)%nat →
  ∃ k', announce p i ts val k1 = Ok tt k' ∧ ksched k' = ksched k1 ∧ kworld k' = kworld k1 ∧
    process_threads k' = process_threads k1 ∧ exited k p i val k'.
Proof.
  intros ts Htr Hth Hk1 Hcap. unfold to_wake in Hcap. fold ts in Hcap.
  assert (∀ x, exit_state k1 x = exit_state k x) as Hes by (intros x; by rewrite Hk1).
  assert (ready k1 = ready k) as Hr by by rewrite Hk1.
  unfold announce. erewrite bind_run by (apply exit_set_run; rewrite Hes, Hr; lia).
  assert (exit_value k1 (inl p) val = exit_value k (inl p) val) as -> by (unfold exit_value; by rewrite Hes).
  rewrite Hes. set (k2 := woken _ _).
  assert (∀ x, exit_state k2 x = if decide (x = inl p)
    then {| code := Some (exit_value k (inl p) val); wakers := [] |} else exit_state k x) as Hes2.
  { intros x. rewrite <- Hes. exact (exit_state_set k1 (inl p) _ x). }
  assert (ready k2 = ready k ++ wakers (exit_state k (inl p))) as Hr2 by (rewrite <- Hr; done).
  assert (exit_value k2 (inr i) val = exit_value k (inr i) val) as Hv2.
  { unfold exit_value. by rewrite Hes2, decide_False. }
  destruct (decide (ts = [])) as [E|E].
  - rewrite E. cbn [length Nat.eqb].
    erewrite bind_run by (apply exit_set_run; rewrite Hr2, length_app, Hes2, decide_False by done; lia).
    erewrite bind_run by done. rewrite Hes2, decide_False, Hv2 by done. eexists. split_and!; [done..|].
    set (k3 := set_processes _ _).
    assert (∀ x, exit_state k3 x = if decide (x = inr i)
      then {| code := Some (exit_value k (inr i) val); wakers := [] |} else exit_state k2 x) as Hes3.
    { intros x. exact (exit_state_set k2 (inr i) _ x). }
    split; fold ts; rewrite ?(decide_True _ _ E); try done; try (by subst k3 k2; rewrite Hk1).
    + change (threads_of k3 i) with (threads_of k1 i). by rewrite Hth, decide_True.
    + intros j Hj. change (threads_of k3 j) with (threads_of k1 j). by rewrite Hth, decide_False.
    + by rewrite Hes3, decide_False, Hes2, decide_True.
    + by rewrite Hes3, decide_True.
    + intros x H1 H2. by rewrite Hes3, decide_False, Hes2, decide_False.
    + change (ready k3) with (ready k2 ++ wakers (exit_state k (inr i))). by rewrite Hr2, <- app_assoc.
    + by rewrite Hes3, decide_True.
  - destruct (Nat.eqb_spec (length ts) 0) as [E0|_]; [by apply nil_length_inv in E0|].
    exists k2. split_and!; [done..|].
    split; fold ts; rewrite ?(decide_False _ _ E); try done; try (by subst k2; rewrite Hk1).
    + change (threads_of k2 i) with (threads_of k1 i). by rewrite Hth, decide_True.
    + intros j Hj. change (threads_of k2 j) with (threads_of k1 j). by rewrite Hth, decide_False.
    + by rewrite Hes2, decide_True.
    + by rewrite Hes2, decide_False.
    + intros x H1 H2. by rewrite Hes2, decide_False.
    + by rewrite Hr2, app_nil_r.
    + by rewrite Hes2, decide_False.
Qed.

(** The stack of a thread is no longer mapped, the frames that it had are free, and its addresses
    are free in the process. *)
Definition stack_freed k t i k' : Prop := ∃ P P', procs (kworld k) !! i = Some P ∧ procs (kworld k') !! i = Some P' ∧
  page_tables P' = page_tables P ∧
  (∀ x, free_cover (address_space_allocator P') x
          = free_cover (address_space_allocator P) x + covers x (stack_start t, stack_page_count t)) ∧
  ∀ va, stack_start t ≤ va < stack_start t + stack_page_count t * PAGE_SIZE →
    translate (tables (ktabs (wmem (kworld k')))) false (level0_table (page_tables P)) va = None ∧
    ∃ pa ro el0,
      translate (tables (ktabs (wmem (kworld k)))) false (level0_table (page_tables P)) va = Some (pa, ro, el0) ∧
      ¬ frame_allocated (frames (ktabs (wmem (kworld k')))) (page_base pa).

Lemma exit_run k p t i val : kernel_wf k → p ∈ threads (ksched k) → arcs (ksched k) !! p = Some t →
  parent t = Some i → (length (ready k) + to_wake k p i ≤ READY_CAPACITY)%nat →
  ∃ k', exit kernel_table p val k = Ok tt k' ∧ kernel_wf k' ∧ exited k p i val k' ∧ stack_freed k t i k'.
Proof.
  intros Hwf Hp Ht Hpar Hcap.
  destruct (leave_run k p t i Hwf Hp Ht Hpar)
    as (s1 & s2 & P & S & Hrem & Ha1 & Hfor & Htr & Hwf2 & Hret & HP & Hfree & Hmem & Hpt & Hfc & Hgone).
  unfold exit. erewrite bind_run by (apply on_sched_run, Hrem).
  erewrite bind_run by (apply on_sched_run, deref_run; cbn; by rewrite Ha1).
  erewrite bind_run by (apply on_sched_run, Hfor). rewrite Hpar, bind_unfold.
  erewrite bind_run by done. erewrite bind_run by (apply on_sched_run; exact Hret).
  erewrite bind_run by done. erewrite bind_run by done.
  erewrite bind_run by (eapply (on_process_run i); [exact HP|exact Hfree]). cbn [mret M_ret].
  set (k1 := set_world _ _).
  assert (∀ j, threads_of k1 j = if decide (j = i) then others p (threads_of k i) else threads_of k j) as Hth.
  { intros j. apply (threads_of_set k). }
  destruct (announce_run k k1 p i val Htr Hth eq_refl Hcap) as (k' & Hrun & Hs & Hw & Hpts & Hex).
  exists k'. split; [exact Hrun|]. split; [|split; [done|]].
  - eapply (exited_wf k p t i s2); try done; [|by rewrite Hw]. intros j. rewrite <- Hth. unfold threads_of. by rewrite Hpts.
  - exists P, (proc S). rewrite Hw. split_and!; [done|apply lookup_insert_eq|done|done|done].
Qed.

(** *** Killing a process *)

Definition all_wakers k (ts : list nat) : list Z := concat (map (λ p, wakers (exit_state k (inl p))) ts).

Record killed k i (ts : list nat) k' : Prop := {
  kl_threads : threads (ksched k') = filter (λ p, p ∉ ts) (threads (ksched k));
  kl_arcs : arcs (ksched k') = arcs (ksched k);
  kl_current : current_thread (ksched k) ∉ ts → current_thread (ksched k') = current_thread (ksched k);
  kl_own : threads_of k' i = [];
  kl_others : ∀ j, j ≠ i → threads_of k' j = threads_of k j;
  kl_codes : ∀ p, p ∈ ts → code (exit_state k' (inl p)) = Some (exit_value k (inl p) Killed);
  kl_process : code (exit_state k' (inr i)) = Some (exit_value k (inr i) Killed);
  kl_states : ∀ x, x ≠ inr i → (∀ p, p ∈ ts → x ≠ inl p) → exit_state k' x = exit_state k x;
  kl_processes : processes k' = snd (remove_first (Z.eqb i) (processes k));
  kl_ready : ready k' = ready k ++ all_wakers k ts ++ wakers (exit_state k (inr i));
  kl_tasks : tasks (ktasks k') = tasks (ktasks k) ∧ new_task_queue (ktasks k') = new_task_queue (ktasks k);
  kl_queues : submitted k' = submitted k ∧ completed k' = completed k;
}.

Lemma filter_others p ts l : filter (λ q, q ∉ ts) (others p l) = filter (λ q, q ∉ p :: ts) l.
Proof.
  unfold others. induction l as [|q l IH]; [done|]. rewrite !filter_cons.
  destruct (decide (q ≠ p)) as [H1|H1], (decide (q ∉ p :: ts)) as [H2|H2].
  - rewrite filter_cons, decide_True by set_solver. by rewrite IH.
  - rewrite filter_cons, decide_False by set_solver. by rewrite IH.
  - set_solver.
  - by rewrite IH.
Qed.

Lemma exit_all ts : ∀ k i, kernel_wf k → threads_of k i = ts → ts ≠ [] →
  (length (ready k) + length (all_wakers k ts) + length (wakers (exit_state k (inr i))) ≤ READY_CAPACITY)%nat →
  ∃ k', for_each (λ p, exit kernel_table p Killed) ts k = Ok tt k' ∧ kernel_wf k' ∧ killed k i ts k'.
Proof.
  induction ts as [|p ts IH]; intros k i Hwf Hts Hne Hcap; [done|]. cbn [for_each].
  pose proof (kw_nodup _ Hwf i) as Hnd. rewrite Hts in Hnd. apply NoDup_cons in Hnd as [Hp Hnd].
  assert (others p (threads_of k i) = ts) as Ho by (by rewrite Hts, others_cons_eq, others_not).
  destruct (proj1 (kw_owned _ Hwf i p)) as [Hpt (t & Ht & Hpar)]; [rewrite Hts; by left|].
  unfold all_wakers in Hcap. cbn [map concat] in Hcap. rewrite length_app in Hcap.
  destruct (exit_run k p t i Killed Hwf Hpt Ht Hpar) as (k1 & Hrun & Hwf1 & Hex & _).
  { unfold to_wake. case_decide; lia. }
  erewrite bind_run by exact Hrun.
  destruct Hex as [Htr Hown Hoth Hcode Hproc Hst Hprocs Hready Hwk Htk Hq _]. rewrite Ho in *.
  assert (all_wakers k1 ts = all_wakers k ts) as Haw.
  { unfold all_wakers. f_equal. apply map_ext_in. intros q Hq'%list_elem_of_In.
    rewrite Hst; [done|intros [= ->]; done|done]. }
  destruct (decide (ts = [])) as [->|Hne'].
  - exists k1. split; [done|]. split; [done|]. destruct Htr as [Ha Hth _ _ _ Hcur].
    split; try done.
    + rewrite Hth, <- filter_others. unfold others. rewrite list_filter_filter. apply list_filter_iff. set_solver.
    + intros Hc. rewrite decide_False in Hcur by set_solver. done.
    + intros q ->%list_elem_of_singleton. done.
    + intros x H1 H2. apply Hst; [apply H2; by left|done].
    + unfold all_wakers. cbn. by rewrite app_nil_r.
  - destruct (IH k1 i Hwf1 Hown Hne') as (k2 & Hrun2 & Hwf2 & Hk).
    { rewrite Haw, Hready, Hwk, app_nil_r, length_app. unfold all_wakers. lia. }
    exists k2. split; [done|]. split; [done|]. destruct Htr as [Ha Hth _ _ _ Hcur].
    destruct Hk as [Kth Ka Kc Kown Koth Kcode Kproc Kst Kprocs Kready [Kt1 Kt2] [Kq1 Kq2]], Htk as [Tk1 Tk2], Hq as [Q1 Q2].
    split; try done; try congruence; try (split; congruence).
    + by rewrite Kth, Hth, filter_others.
    + intros Hc. rewrite decide_False in Hcur by set_solver. rewrite Kc; [done|]. rewrite Hcur. set_solver.
    + intros j Hj. rewrite Koth by done. by apply Hoth.
    + intros q [->|Hq]%elem_of_cons.
      * rewrite Kst; [done|done|]. intros q' Hq' [= ->]. done.
      * rewrite (Kcode q Hq). unfold exit_value. rewrite Hst; [done|intros [= ->]; done|done].
    + rewrite Kproc. unfold exit_value. by rewrite Hproc.
    + intros x H1 H2. rewrite Kst; [apply Hst; [apply H2; by left|done]|done|]. intros q Hq. apply H2. by right.
    + rewrite Kready, Haw, Hready, Hwk, app_nil_r. unfold all_wakers. cbn. by rewrite <- !app_assoc.
Qed.

Lemma kill_run k i : kernel_wf k → i ∈ processes k → threads_of k i ≠ [] →
  (length (ready k) + length (all_wakers k (threads_of k i)) + length (wakers (exit_state k (inr i)))
    ≤ READY_CAPACITY)%nat →
  ∃ k', kill_process kernel_table i k = Ok tt k' ∧ kernel_wf k' ∧ killed k i (threads_of k i) k'.
Proof.
  intros Hwf Hi Hne Hcap. destruct (exit_all _ k i Hwf eq_refl Hne Hcap) as (k' & Hrun & Hr).
  exists k'. split; [|done]. unfold kill_process, process_for_id. rewrite bind_unfold. erewrite bind_run by done.
  assert (find (Z.eqb i) (processes k) = Some i) as Hf.
  { destruct (find (Z.eqb i) (processes k)) as [j|] eqn:E; [apply find_some in E as [_ ->%Z.eqb_eq]; done|].
    eapply find_none in E; [|by apply list_elem_of_In]. by rewrite Z.eqb_refl in E. }
  cbn [mret M_ret]. rewrite Hf. erewrite bind_run by done. exact Hrun.
Qed.

(** *** Spawning a thread *)

Lemma alloc_private n s a ka s' : alloc_memory kernel_table n false s = Ok (a, ka) s' → ka = None.
Proof.
  unfold alloc_memory. intros (v & s1 & _ & H)%bind_Ok. apply bind_Ok in H as (kv & s2 & [= <- <-] & H).
  apply bind_Ok in H as ([] & s3 & _ & H). by injection H as <- <-.
Qed.

Lemma stacks_ext s s' l : (∀ p, p ∈ l → arcs s' !! p ≫= stack_region = arcs s !! p ≫= stack_region) →
  stacks s' l = stacks s l.
Proof.
  intros H. induction l as [|p l IH]; [done|]. rewrite !stacks_cons, H by left.
  rewrite IH; [done|]. intros q Hq. apply H. by right.
Qed.

Lemma spawned_wf k k' i p t st : kernel_wf k → p ∉ dom (arcs (ksched k)) → tid t = next_tid (ksched k) →
  parent t = Some i → priority t = Some Normal → state t = Some st → thread_added (ksched k) p t (ksched k') →
  (∀ j, threads_of k' j = if decide (j = i) then threads_of k i ++ [p] else threads_of k j) →
  (∃ heap, all_ok (kworld k') ({| rg_pid := i; rg_base := stack_start t; rg_pages := stack_page_count t;
     rg_kernel := None |} :: stacks (ksched k) (threads (ksched k)) ++ heap)) → kernel_wf k'.
Proof.
  intros [Hwf Hown Hnd _] Hp Htid Hpar Hpr Hst Hta Hth [heap Hmem].
  assert (p ∉ threads (ksched k)) as Hpt.
  { intros Hin. apply Hp. destruct (tw_valid _ Hwf p Hin) as (u & _ & _ & Hu & _). by apply elem_of_dom. }
  pose proof (added_wf _ _ _ _ _ Hwf Hpt Htid Hpr Hst Hta) as Hwf'. pose proof Hta as [Ha Ht _ _ _ _ _].
  split; [done| | |].
  - intros j q. rewrite Hth, Ha, Ht. destruct (decide (q = p)) as [->|Hne].
    + rewrite lookup_insert_eq. case_decide as E.
      * subst j. split; [intros _; split; [by left|by exists t]|]. intros _. apply elem_of_app. right. by left.
      * split; [by intros [? _]%Hown|]. intros [_ (u & [= <-] & Hj)]. congruence.
    + rewrite lookup_insert_ne by done. rewrite elem_of_cons.
      case_decide as E; [subst j; rewrite elem_of_app, list_elem_of_singleton|]; rewrite Hown; tauto.
  - intros j. rewrite Hth. case_decide; [|done]. apply NoDup_app. split_and!; [done| |apply NoDup_singleton].
    intros q [Hq _]%Hown ->%list_elem_of_singleton. done.
  - exists heap. assert (arcs (ksched k') !! p ≫= stack_region = Some {| rg_pid := i; rg_base := stack_start t;
      rg_pages := stack_page_count t; rg_kernel := None |}) as Hg.
    { rewrite Ha, lookup_insert_eq. cbn. unfold stack_region. by rewrite Hpar. }
    rewrite Ht, stacks_cons, Hg, (stacks_ext (ksched k)); [done|]. intros q Hq. rewrite Ha, lookup_insert_ne; [done|]. by intros ->.
Qed.
End spec.
