(* ===== verification/KernelCommands.v ===== *)
(** Commands from user space to their completions: what a process submits is taken from its
    queues when the kernel handles an exception, runs in tasks of the executor, and is
    answered in the completion queue ([kernel/src/process/mod.rs],
    [kernel/src/process/commands.rs]). *)
From stdpp Require Import base list gmap.
From S2P Require Import Prelude BitField Addresses PhysAlloc VirtAlloc Frames PageEntry Paging.
From S2P Require Import PagingTree MapRange UnmapRange PagingIter Spaces PhysBuffer MsgQueue Error Process ProcMem.
From S2P Require Import ProcWorld ProcQueues Sched SchedSpec Kernel KernelThreads KernelSpec.

(** *** Errors with a code, completion queues that stay *)

Definition coded (e : Error) : Prop := is_Some (as_code e).

(** The operation does not touch the completion queues, and its errors have codes. *)
Definition tidy {A} (m : PM A) : Prop := ∀ s,
  match m s with
  | Ok _ s' => recv_queues (proc s') = recv_queues (proc s)
  | Err e s' => coded e ∧ recv_queues (proc s') = recv_queues (proc s)
  | Stop _ => True
  end.

Create HintDb tidy.

Lemma tidy_bind {A B} (m : PM A) (f : A → PM B) : tidy m → (∀ a, tidy (f a)) → tidy (m ≫= f).
Proof.
  intros Hm Hf s. rewrite bind_unfold. specialize (Hm s). destruct (m s) as [a s1|e s1|w]; [|done|done].
  specialize (Hf a s1). rewrite Hm in Hf. exact Hf.
Qed.
Lemma tidy_ret {A} (a : A) : tidy (mret a).
Proof. by intros s. Qed.
Lemma tidy_get {A} (f : System → PM A) : (∀ x, tidy (f x)) → tidy (get ≫= f).
Proof. intros Hf s. apply (Hf s s). Qed.
Lemma tidy_lift {A} (o : option A) : tidy (lift o).
Proof. intros s. by destruct o. Qed.
Lemma tidy_in_mem {A} r (m : KM A) : tidy (in_mem r m).
Proof.
  intros s. unfold in_mem. destruct (m (mem s)) as [| |]; [done| |done]. split; [|done].
  unfold coded. destruct e as [| |[]]; by eexists.
Qed.
Lemma tidy_in_space {A} r (m : VAA A) : tidy (in_space r m).
Proof.
  intros s. unfold in_space. destruct (m _) as [| |]; [done| |done]. split; [|done].
  unfold coded. destruct e as [| |[]]; by eexists.
Qed.
Lemma tidy_misc {A} r c : tidy (A := A) (throw (Misc r (Some c))).
Proof. intros s. split; [by eexists|done]. Qed.
Lemma tidy_assert b : tidy (assert b).
Proof. intros s. by destruct b. Qed.
#[export] Hint Resolve tidy_ret tidy_lift tidy_in_mem tidy_in_space tidy_misc tidy_assert : tidy.

Ltac tidy_steps :=
  repeat first [apply tidy_get; intros ? | apply tidy_bind; [by auto with tidy|intros ?]];
  try (by auto with tidy).

Section commands.
Context `{BF : BitField} (kernel_table : PageTable) (R user : Z → Prop) (L : Layouts).
Context (HR : R (level0_table kernel_table)) (Hkh : high_addresses kernel_table = true).
Context (Huser : ∀ r, user r → R r ∧ r ≠ level0_table kernel_table).
Context (spawn_child : Z → SpawnProcess → Z → Z → K Z).
Implicit Types (k : Kernel) (t : Thread).
Local Abbreviation all_ok := (all_ok kernel_table R user L).
Local Abbreviation kernel_wf := (kernel_wf kernel_table R user L).

Lemma tidy_alloc_pages fuel : ∀ v kv n o, tidy (alloc_pages kernel_table fuel v kv n o).
Proof.
  induction fuel as [|fuel IH]; intros v kv n o; cbn [alloc_pages]; destruct (0 <? n); try apply tidy_ret; [done|].
  apply tidy_bind; [apply tidy_in_mem|intros [pa sz]]. apply tidy_get. intros s.
  apply tidy_bind; [apply tidy_in_mem|intros _].
  apply tidy_bind; [destruct kv; auto with tidy|intros _]. tidy_steps.
Qed.

Lemma tidy_alloc_memory n b : tidy (alloc_memory kernel_table n b).
Proof.
  unfold alloc_memory. apply tidy_bind; [apply tidy_in_space|intros v].
  apply tidy_bind; [destruct b; tidy_steps|intros kv].
  apply tidy_bind; [apply tidy_alloc_pages|intros _]. apply tidy_ret.
Qed.

Lemma tidy_free_memory a n : tidy (free_memory a n).
Proof. unfold free_memory. tidy_steps. Qed.

Lemma tidy_take_id : tidy take_queue_id.
Proof. intros s. unfold take_queue_id. rewrite bind_unfold. cbn. destruct (_ =? 0); [|done]. split; [by eexists|done]. Qed.

Lemma tidy_create_queue m n : tidy (create_queue kernel_table L m n).
Proof.
  unfold create_queue. destruct (n =? 0); [apply tidy_misc|].
  apply tidy_bind; [apply tidy_take_id|intros id]. apply tidy_bind; [apply tidy_lift|intros pages].
  apply tidy_bind; [apply tidy_alloc_memory|intros [u kb]]. tidy_steps.
Qed.

(** *** One command *)

(** The capacity of a completion queue that is there. *)
Definition room k (i rq : Z) : option Z :=
  p ← procs (kworld k) !! i; q ← find (has_id rq) (recv_queues p); Some (capacity (uq_queue q)).

(** What the commands below leave alone. *)
Record quiet (i rq : Z) k k' : Prop := {
  qu_tasks : ktasks k' = ktasks k;
  qu_submitted : submitted k' = submitted k;
  qu_completed : completed k' = completed k;
  qu_exits : exit_states k' = exit_states k;
  qu_processes : processes k' = processes k;
  qu_room : is_Some (room k i rq) → room k' i rq = room k i rq;
  qu_tid : next_tid (ksched k) ≤ next_tid (ksched k') ≤ next_tid (ksched k) + 1;
}.

(** Commands that end at once: no watching, killing or spawning of processes, and the completion
    queue stays.  The memory that is allocated for them in the state [s] is aligned for the page
    tables. *)
Definition enabled (rq : Z) (cmd : Command) (s : System) : Prop :=
  match cmd_kind cmd with
  | Test _ | InvalidCmd => True
  | CreateCompletionQueue n => queue_fits kernel_table L CompletionMsg n s
  | CreateSubmissionQueue n _ => queue_fits kernel_table L CommandMsg n s
  | DestroyQueue id => id ≠ rq
  | SpawnThread _ n _ b => b = false ∧ 0 ≤ n ∧ div_ceil n PAGE_SIZE * PAGE_SIZE < U64 ∧
      alloc_aligned kernel_table (div_ceil n PAGE_SIZE) false s = true
  | _ => False
  end.

(** Those that are in every state: with stacks and queues below 2 MiB. *)
Definition simple (rq : Z) (cmd : Command) : Prop :=
  match cmd_kind cmd with
  | Test _ | InvalidCmd => True
  | CreateCompletionQueue n => small_queue L CompletionMsg n
  | CreateSubmissionQueue n _ => small_queue L CommandMsg n
  | DestroyQueue id => id ≠ rq
  | SpawnThread _ n _ b => b = false ∧ 0 ≤ n ∧ div_ceil n PAGE_SIZE < 512
  | _ => False
  end.

Lemma simple_enabled rq cmd s : simple rq cmd → enabled rq cmd s.
Proof.
  unfold simple, enabled. destruct (cmd_kind cmd); try done; [by apply small_queue_fits..|].
  intros (-> & H0 & Hn). split_and!; [done|done|plia|by apply small_alloc].
Qed.

(** The kinds of completions that answer a command. *)
Definition answers (i : Z) (cmd : Command) (kind : CmplKind) : Prop :=
  match cmd_kind cmd, kind with
  | Test arg, TestCmpl j a => j = i ∧ a = arg
  | InvalidCmd, ErrCmpl c => c = UnknownCommand
  | CreateCompletionQueue _, (NewQueue _ _ | ErrCmpl _) => True
  | CreateSubmissionQueue _ _, (NewQueue _ _ | ErrCmpl _) => True
  | DestroyQueue _, SuccessCmpl => True
  | DestroyQueue _, ErrCmpl c => c = InUse ∨ c = InvalidId
  | SpawnThread _ n _ _, NewThread _ => n ≠ 0
  | SpawnThread _ n _ _, ErrCmpl c => n = 0 → c = InvalidSize
  | _, _ => False
  end.

Lemma set_world_wf k w : kernel_wf k →
  (∃ heap, all_ok w (stacks (ksched k) (threads (ksched k)) ++ heap)) → kernel_wf (set_world k w).
Proof. intros [H1 H2 H3 _] Hw. by split. Qed.

Lemma process_op {A} k i P (m : PM A) : kernel_wf k → procs (kworld k) !! i = Some P →
  (∀ heap, all_ok (kworld k) heap → ends_ok kernel_table R user L (kworld k) heap i (m (system_of (kworld k) P))) →
  match m (system_of (kworld k) P) with
  | Ok a s => on_process i m k = Ok a (set_world k (set_system (kworld k) i s)) ∧
      kernel_wf (set_world k (set_system (kworld k) i s))
  | Err e s => on_process i m k = Err e (set_world k (set_system (kworld k) i s)) ∧
      kernel_wf (set_world k (set_system (kworld k) i s))
  | Stop _ => False
  end.
Proof.
  intros Hwf HP Hm. destruct (kw_memory _ _ _ _ _ Hwf) as [heap Hheap]. specialize (Hm _ Hheap).
  unfold on_process. rewrite HP. destruct (m _) as [a s|e s|w]; cbn in Hm; [| |done];
    (split; [done|]; apply set_world_wf; [done|by exists heap]).
Qed.

Lemma quiet_process k i rq s P : procs (kworld k) !! i = Some P →
  (∀ q, find (has_id rq) (recv_queues P) = Some q → find (has_id rq) (recv_queues (proc s)) = Some q) →
  quiet i rq k (set_world k (set_system (kworld k) i s)).
Proof.
  intros HP Hq. split; try done; [|cbn; lia]. intros [c Hc]. rewrite Hc. revert Hc. unfold room. cbn.
  rewrite HP, lookup_insert_eq. cbn. destruct (find (has_id rq) (recv_queues P)) as [q|] eqn:E; [|done].
  by rewrite (Hq q).
Qed.

Lemma as_code_answer e cmd k i rq kc : command kernel_table L spawn_child i cmd rq k = Err e kc → coded e →
  ∃ c, as_code e = Some c ∧
    dispatch_command kernel_table L spawn_child i cmd rq k = Ok (inl {| response_to_id := cmd_id cmd; cmpl_kind := ErrCmpl c |}) kc.
Proof. intros H [c Hc]. exists c. split; [done|]. unfold dispatch_command. by rewrite H, Hc. Qed.

(** What is shown of a command. *)
Definition answered k i rq cmd : Prop := ∃ kind k',
  dispatch_command kernel_table L spawn_child i cmd rq k = Ok (inl {| response_to_id := cmd_id cmd; cmpl_kind := kind |}) k' ∧
  kernel_wf k' ∧ quiet i rq k k' ∧ answers i cmd kind.

Lemma find_recv_other k i P rq q q' : kernel_wf k → procs (kworld k) !! i = Some P → queue_id q = next_queue_id P →
  next_queue_id P ≠ 0 → find (has_id rq) (recv_queues P) = Some q' → has_id rq q = false.
Proof.
  intros Hwf HP Hq Hn Hf. destruct (kw_memory _ _ _ _ _ Hwf) as [heap [_ Hqs]].
  apply find_some in Hf as [Hin%list_elem_of_In Hid]. pose proof (qo_bound _ _ (Hqs i P HP)) as Hb.
  rewrite Forall_forall in Hb. specialize (Hb q'). unfold id_bound in Hb.
  rewrite (proj2 (Z.eqb_neq _ _) Hn) in Hb. unfold has_id in *. apply Z.eqb_eq in Hid. apply Z.eqb_neq.
  unfold queue_id in *. specialize (Hb ltac:(unfold all_queues; apply elem_of_app; by right)). lia.
Qed.

Lemma create_completion_answered k i P rq n c : kernel_wf k → procs (kworld k) !! i = Some P →
  queue_fits kernel_table L CompletionMsg n (system_of (kworld k) P) → answered k i rq {| cmd_kind := CreateCompletionQueue n; cmd_id := c |}.
Proof.
  intros Hwf HP Hfit. destruct (kw_memory _ _ _ _ _ Hwf) as [heap Hheap]. pose proof Hheap as [[own Hw] Hqs].
  pose proof (process_op k i P (create_completion_queue kernel_table L n) Hwf HP
    (λ h Hh, create_completion_ok kernel_table R user L HR Hkh Huser _ _ _ _ _ Hh HP Hfit)) as Hop.
  pose proof (create_queue_run kernel_table R user L HR Hkh Huser own (kworld k) _ i P CompletionMsg n Hw HP Hfit) as Hc.
  pose proof (tidy_create_queue CompletionMsg n (system_of (kworld k) P)) as Ht.
  unfold create_completion_queue at 1 in Hop. rewrite bind_unfold in Hop.
  destruct (create_queue _ _ _ _ _) as [[q [id start]] s|e s|w]; [| |done]; cbn in Hop, Hc, Ht.
  - destruct Hop as [Hrun Hwf']. exists (NewQueue id start). eexists. split; [|split; [exact Hwf'|split; [|done]]].
    + unfold dispatch_command, command. cbn [cmd_kind]. by erewrite bind_run by exact Hrun.
    + apply (quiet_process k i rq _ P HP). intros q' Hq'. cbn. rewrite Ht.
      destruct Hc as (Hid & Hnz & _). by rewrite (find_recv_other k i P rq q q' Hwf HP Hid Hnz Hq').
  - destruct Hop as [Hrun Hwf'], Ht as [He Ht].
    destruct (as_code_answer e {| cmd_kind := CreateCompletionQueue n; cmd_id := c |} k i rq
      (set_world k (set_system (kworld k) i s))) as (code & _ & Hd); [|done|].
    { unfold command. cbn [cmd_kind]. rewrite bind_unfold. by rewrite Hrun. }
    exists (ErrCmpl code). eexists. split; [exact Hd|]. split; [done|]. split; [|done].
    apply (quiet_process k i rq _ P HP). by rewrite Ht.
Qed.

Lemma tidy_create_submission n c : tidy (create_submission_queue kernel_table L n c).
Proof.
  unfold create_submission_queue. apply tidy_get. intros s. destruct (find _ _) as [rq|]; [|apply tidy_misc].
  apply tidy_bind; [apply tidy_create_queue|intros [oq nq]]. intros s'. by rewrite bind_unfold.
Qed.

Lemma create_submission_answered k i P rq n a c : kernel_wf k → procs (kworld k) !! i = Some P →
  queue_fits kernel_table L CommandMsg n (system_of (kworld k) P) → answered k i rq {| cmd_kind := CreateSubmissionQueue n a; cmd_id := c |}.
Proof.
  intros Hwf HP Hfit.
  pose proof (process_op k i P (create_submission_queue kernel_table L n a) Hwf HP
    (λ h Hh, create_submission_ok kernel_table R user L HR Hkh Huser _ _ _ _ _ _ Hh HP Hfit)) as Hop.
  pose proof (tidy_create_submission n a (system_of (kworld k) P)) as Ht.
  destruct (create_submission_queue _ _ _ _ _) as [[id start] s|e s|w]; [| |done].
  - destruct Hop as [Hrun Hwf']. exists (NewQueue id start). eexists. split; [|split; [exact Hwf'|split; [|done]]].
    + unfold dispatch_command, command. cbn [cmd_kind]. by erewrite bind_run by exact Hrun.
    + apply (quiet_process k i rq _ P HP). by rewrite Ht.
  - destruct Hop as [Hrun Hwf'], Ht as [He Ht].
    destruct (as_code_answer e {| cmd_kind := CreateSubmissionQueue n a; cmd_id := c |} k i rq
      (set_world k (set_system (kworld k) i s))) as (code & _ & Hd); [|done|].
    { unfold command. cbn [cmd_kind]. rewrite bind_unfold. by rewrite Hrun. }
    exists (ErrCmpl code). eexists. split; [exact Hd|]. split; [done|]. split; [|done].
    apply (quiet_process k i rq _ P HP). by rewrite Ht.
Qed.

(** Destroying a queue leaves the other completion queues. *)
Lemma destroy_recv c s s' : destroy_queue kernel_table L c s = Ok tt s' →
  recv_queues (proc s') = snd (remove_first (has_id c) (recv_queues (proc s))).
Proof.
  unfold destroy_queue. erewrite bind_run by done. destruct (existsb _ _); [done|].
  destruct (remove_first (has_id c) (recv_queues (proc s))) as [o rqs],
    (remove_first (λ x, has_id c (fst x)) (send_queues (proc s))) as [o' sqs].
  erewrite bind_run by done. set (s1 := set_proc _ _).
  destruct (match o with Some q => Some q | None => option_map fst o' end) as [q|]; [|done].
  assert (tidy ('(user_addr, kernel_addr, page_count) ← lift (memory_region L q);
    free_memory user_addr page_count;; in_mem "" (with_tabs (unmap_range kernel_table kernel_addr page_count)))) as Ht.
  { apply tidy_bind; [apply tidy_lift|intros [[u ka] n]]. apply tidy_bind; [apply tidy_free_memory|intros _].
    apply tidy_in_mem. }
  specialize (Ht s1). intros H. rewrite H in Ht. exact Ht.
Qed.

Lemma find_remove_other c rq l q : c ≠ rq → find (has_id rq) l = Some q →
  find (has_id rq) (snd (remove_first (has_id c) l)) = Some q.
Proof.
  intros Hne. induction l as [|x l IH]; [done|]. cbn [remove_first find]. intros Hf.
  destruct (has_id c x) eqn:Hc; cbn [snd].
  - destruct (has_id rq x) eqn:Hr; [|done]. exfalso. apply Hne. unfold has_id in *. lia.
  - destruct (remove_first (has_id c) l) as [o l'']. cbn in IH |- *. destruct (has_id rq x); [done|by apply IH].
Qed.

Lemma destroy_answered k i P rq id c : kernel_wf k → procs (kworld k) !! i = Some P → id ≠ rq →
  answered k i rq {| cmd_kind := DestroyQueue id; cmd_id := c |}.
Proof.
  intros Hwf HP Hne. destruct (kw_memory _ _ _ _ _ Hwf) as [heap Hheap].
  pose proof (process_op k i P (destroy_queue kernel_table L id) Hwf HP
    (λ h Hh, destroy_queue_ok kernel_table R user L HR Hkh Huser _ _ _ _ _ Hh HP)) as Hop.
  pose proof (destroy_queue_run kernel_table R user L HR Hkh Huser _ _ i P id Hheap HP) as Hd.
  pose proof (destroy_recv id (system_of (kworld k) P)) as Hr.
  destruct (destroy_queue _ _ _ _) as [[] s|e s|w]; [| |done].
  - destruct Hop as [Hrun Hwf']. exists SuccessCmpl. eexists. split; [|split; [exact Hwf'|split; [|done]]].
    + unfold dispatch_command, command. cbn [cmd_kind]. by erewrite bind_run by exact Hrun.
    + apply (quiet_process k i rq _ P HP). intros q Hq. rewrite (Hr s eq_refl). by apply find_remove_other.
  - destruct Hop as [Hrun Hwf'], Hd as [-> He].
    assert (∃ c', as_code e = Some c' ∧ (c' = InUse ∨ c' = InvalidId)) as (c' & Hc & Hcc).
    { destruct (existsb _ _); [subst e; by exists InUse; auto|destruct He as [-> _]; by exists InvalidId; auto]. }
    destruct (as_code_answer e {| cmd_kind := DestroyQueue id; cmd_id := c |} k i rq
      (set_world k (set_system (kworld k) i (system_of (kworld k) P)))) as (code & Hcode & Hd); [|by eexists|].
    { unfold command. cbn [cmd_kind]. rewrite bind_unfold. by rewrite Hrun. }
    exists (ErrCmpl code). eexists. split; [exact Hd|]. split; [done|].
    split; [by apply (quiet_process k i rq _ P HP)|]. cbn. congruence.
Qed.

(** [spawn_thread] once its stack is allocated. *)
Lemma start_thread_run k i P s a n e u c rq : kernel_wf k → procs (kworld k) !! i = Some P → 1 ≤ n → n * PAGE_SIZE < U64 →
  next_tid (ksched k) + 1 < 2 ^ 32 →
  alloc_memory kernel_table n false (system_of (kworld k) P) = Ok (a, None) s →
  (∃ heap, all_ok (set_system (kworld k) i s)
    ({| rg_pid := i; rg_base := a; rg_pages := n; rg_kernel := None |} ::
       stacks (ksched k) (threads (ksched k)) ++ heap)) →
  ∀ stack_size, stack_size ≠ 0 → div_ceil stack_size PAGE_SIZE = n →
  ∃ k', spawn_thread kernel_table i e stack_size u false c rq k = Ok (next_tid (ksched k)) k' ∧ kernel_wf k' ∧
    kworld k' = set_system (kworld k) i s ∧ ktasks k' = ktasks k ∧ submitted k' = submitted k ∧
    completed k' = completed k ∧ exit_states k' = exit_states k ∧ processes k' = processes k ∧
    next_tid (ksched k') = next_tid (ksched k) + 1.
Proof.
  intros Hwf HP Hn Hov Htid Hrun Hmem sz Hsz <-. unfold spawn_thread. rewrite (proj2 (Z.eqb_neq _ _) Hsz). cbv zeta.
  rewrite bind_unfold. unfold inner at 1. rewrite (on_process_run i _ k P _ s HP Hrun). cbv beta iota.
  set (n := div_ceil sz PAGE_SIZE) in *. set (k1 := set_world k _). set (p := fresh (dom (arcs (ksched k)))).
  erewrite bind_run by (by apply on_sched_run). cbn [ksched set_world next_tid].
  erewrite bind_run by done.
  destruct (user_thread i (next_tid (ksched k)) e a n Normal ([u] ++ replicate 30 0)) as [t|] eqn:Ht.
  2: { unfold user_thread in Ht. by rewrite umul_ok in Ht by plia. }
  erewrite bind_run by (apply lift_Ok; by split).
  unfold user_thread in Ht. rewrite umul_ok in Ht by plia. injection Ht as Ht.
  destruct (tw_valid _ (kw_threads _ _ _ _ _ Hwf) _ (tw_current _ (kw_threads _ _ _ _ _ Hwf))) as (cu & _ & _ & Hcu & _).
  pose proof (tw_bound _ (kw_threads _ _ _ _ _ Hwf) _ _ (tw_current _ (kw_threads _ _ _ _ _ Hwf)) Hcu).
  assert ((next_tid (ksched k) + 1) mod 2 ^ 32 = next_tid (ksched k) + 1) as Hmod by (apply Z.mod_small; lia).
  destruct (spawn_thread_run (ksched k) p t (kw_threads _ _ _ _ _ Hwf)) as (s' & Hsp & Hta); [by subst t|].
  assert (on_sched (new_arc t) (set_sched k1 (Build_Sched (arcs (ksched k)) (threads (ksched k))
    ((next_tid (ksched k) + 1) mod 2 ^ 32) (queues (ksched k)) (current_thread (ksched k)) (cpu (ksched k))))
    = Ok p (set_sched k1 (with_thread (ksched k) p t))) as Harc by (rewrite Hmod; done).
  erewrite bind_run by exact Harc. erewrite bind_run by done. erewrite bind_run by done.
  erewrite bind_run by done. erewrite bind_run by (apply on_sched_run; exact Hsp).
  eexists. split; [done|]. split; [|by rewrite <- (ta_next _ _ _ _ Hta)].
  eapply (spawned_wf kernel_table R user L k _ i p t); [done|by apply is_fresh|by subst t..|done| |by subst t].
  intros j. apply (threads_of_set (set_sched k1 (with_thread (ksched k) p t))).
Qed.

Lemma spawn_answered k i P rq e n u c : kernel_wf k → procs (kworld k) !! i = Some P →
  0 ≤ n → div_ceil n PAGE_SIZE * PAGE_SIZE < U64 →
  alloc_aligned kernel_table (div_ceil n PAGE_SIZE) false (system_of (kworld k) P) = true → next_tid (ksched k) + 1 < 2 ^ 32 →
  answered k i rq {| cmd_kind := SpawnThread e n u false; cmd_id := c |}.
Proof.
  intros Hwf HP Hn0 Hn Hal Htid. destruct (decide (n = 0)) as [->|Hnz].
  { exists (ErrCmpl InvalidSize), k. split_and!; [done|done|split; try done; cbn; lia|done]. }
  assert (1 ≤ div_ceil n PAGE_SIZE) as Hn1 by (unfold div_ceil; case_match; pdlia).
  destruct (kw_memory _ _ _ _ _ Hwf) as [heap Hheap].
  pose proof (alloc_heap_ok kernel_table R user L HR Hkh Huser _ _ i P (div_ceil n PAGE_SIZE) Hheap HP Hn1 Hal) as Ha.
  pose proof (tidy_alloc_memory (div_ceil n PAGE_SIZE) false (system_of (kworld k) P)) as Ht.
  pose proof (alloc_private kernel_table (div_ceil n PAGE_SIZE) (system_of (kworld k) P)) as Hpriv.
  destruct (alloc_memory _ _ _ _) as [[a ka] s|er s|w] eqn:Hrun; [| |done].
  - rewrite (Hpriv a ka s eq_refl) in *.
    destruct (start_thread_run k i P s a _ e u c rq Hwf HP Hn1 Hn Htid Hrun
      ltac:(by exists heap) n Hnz eq_refl) as (k' & Hsp & Hwf' & Hw & H1 & H2 & H3 & H4 & H5 & H6).
    exists (NewThread (next_tid (ksched k))), k'. split_and!; [|done| |done].
    + unfold dispatch_command, command. cbn [cmd_kind cmd_id]. by erewrite bind_run by exact Hsp.
    + split; try done; [|lia]. intros Hrm.
      destruct (quiet_process k i rq s P HP ltac:(by rewrite Ht)) as [_ _ _ _ _ Hroom _].
      rewrite <- (Hroom Hrm). unfold room. by rewrite Hw.
  - destruct Ht as [He Ht].
    destruct (as_code_answer (Inner "allocate thread stack" er) {| cmd_kind := SpawnThread e n u false; cmd_id := c |} k i rq
      (set_world k (set_system (kworld k) i s))) as (code & _ & Hd); [|done|].
    { unfold command, spawn_thread. cbn [cmd_kind]. rewrite bind_unfold, (proj2 (Z.eqb_neq _ _) Hnz). cbv zeta.
      rewrite bind_unfold. unfold inner, on_process. by rewrite HP, Hrun. }
    exists (ErrCmpl code). eexists. split; [exact Hd|]. split; [apply set_world_wf; [done|by exists heap]|].
    split; [apply (quiet_process k i rq _ P HP); by rewrite Ht|by intros ?].
Qed.

Lemma command_answered k i P rq cmd : kernel_wf k → procs (kworld k) !! i = Some P →
  enabled rq cmd (system_of (kworld k) P) → next_tid (ksched k) + 1 < 2 ^ 32 → answered k i rq cmd.
Proof.
  intros Hwf HP Hs Htid. destruct cmd as [kind c]. destruct kind; cbn in Hs; try done.
  - exists (ErrCmpl UnknownCommand), k. split_and!; [done|done|split; try done; cbn; lia|done].
  - exists (TestCmpl i arg), k. split_and!; [done|done|split; try done; cbn; lia|done].
  - by eapply create_completion_answered.
  - by eapply create_submission_answered.
  - by eapply destroy_answered.
  - destruct Hs as (-> & H0 & Hn & Hal). by eapply spawn_answered.
Qed.
End commands.
