(* ===== verification/KernelTasks.v ===== *)
(** The tasks of the kernel: from the submission queues through the executor to the completion
    queues ([Process::dispatch_new_commands], [Executor::run_forever]). *)
From stdpp Require Import base list gmap.
From S2P Require Import Prelude BitField Addresses PhysAlloc VirtAlloc Frames PageEntry Paging.
From S2P Require Import PagingTree MapRange UnmapRange PagingIter Spaces PhysBuffer MsgQueue Error Process ProcMem.
From S2P Require Import ProcWorld ProcQueues Sched SchedSpec Kernel KernelThreads KernelSpec KernelCommands.

(** Tasks with their ids. *)
Fixpoint numbered {A} (n : Z) (ts : list A) : list (Z * A) :=
  match ts with [] => [] | t :: ts' => (n, t) :: numbered (n + 1) ts' end.

Lemma numbered_app {A} n (ts ts' : list A) : numbered n (ts ++ ts') = numbered n ts ++ numbered (n + Z.of_nat (length ts)) ts'.
Proof.
  revert n. induction ts as [|t ts IH]; intros n; cbn [numbered app length]; [by rewrite Z.add_0_r|].
  rewrite IH. do 3 f_equal. lia.
Qed.
Lemma numbered_length {A} n (ts : list A) : length (numbered n ts) = length ts.
Proof. revert n. induction ts as [|t ts IH]; intros n; [done|]. cbn. by rewrite IH. Qed.
Lemma numbered_ids {A} n (ts : list A) x : x ∈ map fst (numbered n ts) → n ≤ x < n + Z.of_nat (length ts).
Proof.
  revert n. induction ts as [|t ts IH]; intros n; cbn; [by intros ?%not_elem_of_nil|].
  intros [->|Hx]%elem_of_cons; [lia|]. specialize (IH _ Hx). lia.
Qed.
Lemma numbered_nodup {A} n (ts : list A) : NoDup (map fst (numbered n ts)).
Proof.
  revert n. induction ts as [|t ts IH]; intros n; cbn; [apply NoDup_nil_2|].
  apply NoDup_cons. split; [|done]. intros Hx%numbered_ids. lia.
Qed.

Lemma numbered_fmap {A B} (f : A → B) n (ts : list A) :
  numbered n (f <$> ts) = (λ x, (x.1, f x.2)) <$> numbered n ts.
Proof. revert n. induction ts as [|t ts IH]; intros n; [done|]. cbn. f_equal. apply IH. Qed.
Lemma numbered_fst {A B} (f : A → B) n (ts : list A) : map fst (numbered n (f <$> ts)) = map fst (numbered n ts).
Proof. revert n. induction ts as [|t ts IH]; intros n; [done|]. cbn. f_equal. apply IH. Qed.
Lemma numbered_snd {A} n (ts : list A) : map snd (numbered n ts) = ts.
Proof. revert n. induction ts as [|t ts IH]; intros n; [done|]. cbn. f_equal. apply IH. Qed.

(** The state with these tasks spawned, and with other submissions. *)
Definition spawned (k : Kernel) (ts : list Task) : Kernel :=
  set_tasks k (Build_Tasks (ready_queue (ktasks k)) (new_task_queue (ktasks k) ++ numbered (next_task_id (ktasks k)) ts)
    (next_task_id (ktasks k) + Z.of_nat (length ts)) (tasks (ktasks k))).
Definition with_submitted (k : Kernel) (m : gmap (Z * Z) (list Command)) : Kernel :=
  Build_Kernel (ksched k) (kworld k) (processes k) (process_threads k) (exit_states k) (ktasks k) m (completed k) (kbytes k) (next_pid k).

Definition spawnable (k : Kernel) (n : nat) : Prop :=
  (length (new_task_queue (ktasks k)) + n ≤ NEW_TASK_CAPACITY)%nat ∧
  0 ≤ next_task_id (ktasks k) ∧ next_task_id (ktasks k) + Z.of_nat n < 2 ^ 32.

Lemma spawned_nil k : spawned k [] = k.
Proof. unfold spawned. cbn. rewrite app_nil_r, Z.add_0_r. by destruct k as [? ? ? ? ? []]. Qed.
Lemma spawned_app k ts ts' : spawned (spawned k ts) ts' = spawned k (ts ++ ts').
Proof.
  unfold spawned, set_tasks. cbn. rewrite numbered_app, <- app_assoc, length_app. do 2 f_equal. lia.
Qed.

Lemma spawn_run k t : spawnable k 1 → spawn t k = Ok tt (spawned k [t]).
Proof.
  intros (H1 & H2 & H3). unfold spawn. erewrite bind_run by done. cbv zeta.
  destruct (Nat.ltb_spec (length (new_task_queue (ktasks k))) NEW_TASK_CAPACITY); [|lia].
  unfold spawned. cbn [numbered length]. rewrite Z.mod_small by lia. done.
Qed.

Lemma spawnable_step k t n : spawnable k (S n) → spawnable (spawned k [t]) n.
Proof. intros (H1 & H2 & H3). split_and!; cbn; rewrite ?length_app; cbn; lia. Qed.

Lemma poll_commands_run i sq rq cmds : ∀ k fuel, messages (submitted k) (i, sq) = cmds →
  (length cmds ≤ fuel)%nat → spawnable k (length cmds) →
  ∃ m, poll_commands fuel i sq rq k = Ok tt (spawned (with_submitted k m) ((λ c, Dispatch i c rq) <$> cmds)) ∧
    ∀ q, messages m q = if decide (q = (i, sq)) then [] else messages (submitted k) q.
Proof.
  induction cmds as [|c cmds IH]; intros k fuel Hm Hf Hs.
  - exists (submitted k). split; [|intros q; case_decide as E; [by rewrite E|done]].
    cbn [fmap list_fmap]. rewrite spawned_nil.
    destruct fuel; cbn [poll_commands]; (erewrite bind_run by done); rewrite Hm; by destruct k.
  - destruct fuel as [|fuel]; [cbn in Hf; lia|]. cbn [poll_commands]. erewrite bind_run by done. rewrite Hm.
    erewrite bind_run by done. set (k1 := set_submitted k (i, sq) cmds).
    assert (spawnable k1 (S (length cmds))) as Hs1 by exact Hs.
    erewrite bind_run by (apply spawn_run; destruct Hs1 as (? & ? & ?); split_and!; cbn in *; lia).
    destruct (IH (spawned k1 [Dispatch i c rq]) fuel) as (m & Hrun & Hq).
    { unfold messages. cbn. by rewrite lookup_insert_eq. }
    { cbn in Hf. lia. }
    { by apply spawnable_step. }
    exists m. split.
    + rewrite Hrun. f_equal. apply (spawned_app (with_submitted k1 m) [Dispatch i c rq]).
    + intros q. rewrite Hq. case_decide as E; [done|]. unfold messages. cbn. by rewrite lookup_insert_ne.
Qed.

(** What the submission queues of a process hold, as tasks. *)
Definition pending (k : Kernel) (i : Z) (qs : list (UserQueue * UserQueue)) : list Task :=
  concat (map (λ x, (λ c, Dispatch i c (queue_number x.2)) <$> messages (submitted k) (i, queue_number x.1)) qs).

Lemma dispatch_loop i qs : ∀ k, NoDup (map (λ x, queue_number x.1) qs) → spawnable k (length (pending k i qs)) →
  ∃ m, for_each (λ '(send_qu, recv_qu),
    k ← get; poll_commands (length (messages (submitted k) (i, queue_number send_qu))) i
      (queue_number send_qu) (queue_number recv_qu)) qs k = Ok tt (spawned (with_submitted k m) (pending k i qs)) ∧
  ∀ q, messages m q = if decide (q ∈ map (λ x, (i, queue_number x.1)) qs) then [] else messages (submitted k) q.
Proof.
  induction qs as [|[sq rq] qs IH]; intros k Hnd Hs.
  - exists (submitted k). split; [cbn; rewrite spawned_nil; by destruct k|].
    intros q. by rewrite decide_False by apply not_elem_of_nil.
  - cbn [map] in Hnd. apply NoDup_cons in Hnd as [Hn Hnd]. unfold pending in *. cbn [map concat fst snd] in *.
    rewrite length_app, length_fmap in Hs. cbn [for_each].
    destruct (poll_commands_run i (queue_number sq) (queue_number rq) _ k _ eq_refl (le_n _)) as (m1 & Hrun1 & Hm1).
    { destruct Hs as (? & ? & ?). split_and!; lia. }
    erewrite bind_run by (rewrite bind_unfold; exact Hrun1).
    set (c1 := (λ c, Dispatch i c (queue_number rq)) <$> messages (submitted k) (i, queue_number sq)) in *.
    set (k1 := spawned (with_submitted k m1) c1).
    set (rest := concat _) in *.
    assert (concat (map (λ x, (λ c, Dispatch i c (queue_number x.2)) <$> messages (submitted k1) (i, queue_number x.1)) qs)
      = rest) as Hrest.
    { unfold rest. f_equal. apply map_ext_in. intros x Hx%list_elem_of_In. f_equal. cbn. rewrite Hm1, decide_False; [done|].
      intros [= E]. apply Hn. rewrite <- E. apply list_elem_of_fmap. by exists x. }
    destruct (IH k1 Hnd) as (m2 & Hrun2 & Hm2).
    { rewrite Hrest. destruct Hs as (H1 & H2 & H3). unfold k1, spawned, spawnable. cbn.
      rewrite length_app, numbered_length. unfold c1. rewrite length_fmap. split_and!; lia. }
    exists m2. split; [rewrite Hrun2, Hrest; f_equal; apply (spawned_app (with_submitted k m2))|].
    intros q. rewrite Hm2. cbn. rewrite Hm1. destruct (decide (q = (i, queue_number sq))) as [->|Hne].
    + rewrite (decide_True (P := _ ∈ _ :: _)) by left. by case_decide.
    + case_decide as E1; [by rewrite decide_True by by right|].
      rewrite decide_False; [done|]. by intros [?|?]%elem_of_cons.
Qed.

(** *** The executor *)

Definition with_tasks (k : Kernel) (rq : list Z) (nq : list (Z * Task)) (ts : gmap Z Task) : Kernel :=
  set_tasks k (Build_Tasks rq nq (next_task_id (ktasks k)) ts).

Lemma take_new_run l : ∀ k fuel, new_task_queue (ktasks k) = l → (length l ≤ fuel)%nat → NoDup (map fst l) →
  (length (ready k) + length l ≤ READY_CAPACITY)%nat →
  take_new fuel k = Ok tt (with_tasks k (ready k ++ map fst l) [] (list_to_map l ∪ tasks (ktasks k))).
Proof.
  induction l as [|[id t] l IH]; intros k fuel Hl Hf Hnd Hr.
  - destruct fuel; cbn [take_new]; (erewrite bind_run by done); cbv zeta; rewrite Hl; unfold with_tasks, ready; cbn;
      rewrite app_nil_r, left_id_L by apply _; rewrite <- Hl; by destruct k as [? ? ? ? ? []].
  - destruct fuel as [|fuel]; [cbn in Hf; lia|]. cbn [map length] in *. apply NoDup_cons in Hnd as [Hid Hnd].
    cbn [take_new]. erewrite bind_run by done. cbv zeta. rewrite Hl. erewrite bind_run by done.
    set (k1 := set_tasks k _).
    assert (wake id k1 = Ok tt (woken k1 [id])) as Hw.
    { unfold wake. erewrite bind_run by done. cbv zeta. change (ready_queue (ktasks k1)) with (ready k).
      destruct (Nat.ltb_spec (length (ready k)) READY_CAPACITY); [done|lia]. }
    erewrite bind_run by exact Hw. rewrite IH; [|done|cbn in Hf; lia|done|].
    2: { change (ready (woken k1 [id])) with (ready k ++ [id]). rewrite length_app. cbn. lia. }
    f_equal. unfold with_tasks. cbn. unfold ready. cbn. rewrite <- app_assoc. do 2 f_equal.
    rewrite <- insert_union_l. symmetry. apply insert_union_r.
    apply not_elem_of_list_to_map_1. exact Hid.
Qed.

Section tasks.
Context `{BF : BitField} (kernel_table : PageTable) (R user : Z → Prop) (L : Layouts).
Context (HR : R (level0_table kernel_table)) (Hkh : high_addresses kernel_table = true).
Context (Huser : ∀ r, user r → R r ∧ r ≠ level0_table kernel_table).
Context (spawn_child : Z → SpawnProcess → Z → Z → K Z).
Implicit Types (k : Kernel) (t : Thread).
Local Abbreviation kernel_wf := (kernel_wf kernel_table R user L).
Local Abbreviation simple := (simple L).

(** A completion answers a command. *)
Definition replies (i : Z) (cmd : Command) (c : Completion) : Prop :=
  response_to_id c = cmd_id cmd ∧ answers i cmd (cmpl_kind c).

(** What is left of the state when the tasks with the ids [ids] have finished. *)
Record served (i rq : Z) (ids : list Z) (cmds : list Command) k k' : Prop := {
  sv_wf : kernel_wf k';
  sv_ready : ready k' = [];
  sv_new : new_task_queue (ktasks k') = new_task_queue (ktasks k);
  sv_tasks : ∀ x, tasks (ktasks k') !! x = if decide (x ∈ ids) then None else tasks (ktasks k) !! x;
  sv_submitted : submitted k' = submitted k;
  sv_replies : ∃ cs, messages (completed k') (i, rq) = messages (completed k) (i, rq) ++ cs ∧ Forall2 (replies i) cmds cs;
  sv_others : ∀ q, q ≠ (i, rq) → messages (completed k') q = messages (completed k) q;
}.

Lemma wf_of_same k k' : ksched k' = ksched k → kworld k' = kworld k → process_threads k' = process_threads k →
  kernel_wf k → kernel_wf k'.
Proof.
  intros E1 E2 E3 [H1 H2 H3 H4]. unfold threads_of in *.
  split; unfold threads_of; rewrite ?E1, ?E2, ?E3; [exact H1|exact H2|exact H3|exact H4].
Qed.

Lemma answer_run k i rq c cap : room k i rq = Some cap →
  Z.of_nat (length (messages (completed k) (i, rq))) < cap →
  answer i rq c k = Ok tt (set_completed k (i, rq) (messages (completed k) (i, rq) ++ [c])).
Proof.
  unfold room, answer, post. intros Hr Hl. destruct (procs (kworld k) !! i) as [P|] eqn:HP; [|done]. cbn in Hr.
  destruct (find (has_id rq) (recv_queues P)) as [q|] eqn:Hf; [|done]. cbn in Hr. injection Hr as <-.
  rewrite bind_unfold. erewrite bind_run by done. rewrite HP. cbn [mbind option_bind]. rewrite Hf. cbv zeta.
  destruct (Z.ltb_spec (Z.of_nat (length (messages (completed k) (i, rq)))) (capacity (uq_queue q))); [done|lia].
Qed.

(** One task: a command that ends at once. *)
Lemma poll_dispatch_run k i rq cap cmd id : kernel_wf k → room k i rq = Some cap → simple rq cmd →
  Z.of_nat (length (messages (completed k) (i, rq))) < cap → next_tid (ksched k) + 1 < 2 ^ 32 →
  ∃ kc c, poll_task kernel_table L spawn_child id (Dispatch i cmd rq) k = Ok None kc ∧ kernel_wf kc ∧ replies i cmd c ∧
    room kc i rq = Some cap ∧ next_tid (ksched kc) ≤ next_tid (ksched k) + 1 ∧ ktasks kc = ktasks k ∧
    submitted kc = submitted k ∧ ∀ q, messages (completed kc) q =
      if decide (q = (i, rq)) then messages (completed k) (i, rq) ++ [c] else messages (completed k) q.
Proof.
  intros Hwf Hr Hs Hcap Htid. assert (∃ P, procs (kworld k) !! i = Some P) as [P HP].
  { unfold room in Hr. destruct (procs (kworld k) !! i); [by eexists|done]. }
  destruct (command_answered kernel_table R user L HR Hkh Huser spawn_child k i P rq cmd Hwf HP (simple_enabled _ _ _ _ _ Hs) Htid)
    as (kind & k1 & Hrun & Hwf1 & [Q1 Q2 Q3 _ _ Q6 Q7] & Hans).
  specialize (Q6 ltac:(by eexists)). rewrite Hr in Q6.
  set (c := {| response_to_id := cmd_id cmd; cmpl_kind := kind |}) in *.
  exists (set_completed k1 (i, rq) (messages (completed k) (i, rq) ++ [c])), c. split_and!; [|by eapply wf_of_same; [..|exact Hwf1]|by split|done|cbn; lia|done|done|].
  - cbn [poll_task]. erewrite bind_run by done. rewrite HP. erewrite bind_run by exact Hrun. cbv beta iota.
    erewrite bind_run by (apply (answer_run k1 i rq _ cap); [done|by rewrite Q3]). by rewrite Q3.
  - intros q. unfold messages at 1. cbn. case_decide as E; [subst; by rewrite lookup_insert_eq|].
    by rewrite lookup_insert_ne, Q3 by done.
Qed.

Lemma poll_ready_run i rq cap l : ∀ k fuel, kernel_wf k → ready k = map fst l → (length l ≤ fuel)%nat →
  NoDup (map fst l) → (∀ id cmd, (id, cmd) ∈ l → tasks (ktasks k) !! id = Some (Dispatch i cmd rq)) →
  Forall (simple rq) (map snd l) → room k i rq = Some cap →
  Z.of_nat (length (messages (completed k) (i, rq)) + length l) ≤ cap →
  next_tid (ksched k) + Z.of_nat (length l) < 2 ^ 32 →
  ∃ k', poll_ready kernel_table L spawn_child fuel k = Ok tt k' ∧ served i rq (map fst l) (map snd l) k k'.
Proof.
  induction l as [|[id cmd] l IH]; intros k fuel Hwf Hready Hf Hnd Hts Hs Hr Hcap Htid.
  - exists k. split.
    { destruct fuel; cbn [poll_ready]; (erewrite bind_run by done); cbv zeta; unfold ready in Hready; by rewrite Hready. }
    split; try done. exists []. by rewrite app_nil_r.
  - destruct fuel as [|fuel]; [cbn in Hf; lia|]. cbn [map fst snd length] in *.
    apply NoDup_cons in Hnd as [Hid Hnd]. apply Forall_cons in Hs as [Hs1 Hs].
    cbn [poll_ready]. erewrite bind_run by done. cbv zeta. unfold ready in Hready. rewrite Hready.
    erewrite bind_run by done. rewrite (Hts id cmd) by left. set (k1 := set_tasks k _).
    destruct (poll_dispatch_run k1 i rq cap cmd id) as (kc & c & Hrun & Hwfc & Hrep & Hrc & Htc & Htk & Hsub & Hcom);
      [by eapply wf_of_same; [..|exact Hwf]|exact Hr|done|cbn; lia|cbn; lia|].
    erewrite bind_run by exact Hrun. erewrite bind_run by done. cbv zeta. erewrite bind_run by done. rewrite Htk.
    set (k2 := set_tasks kc _).
    destruct (IH k2 fuel) as (k' & Hrun' & [V1 V2 V3 V4 V5 (cs & V6 & V7) V8]); try done.
    + by eapply wf_of_same; [..|exact Hwfc].
    + cbn in Hf. lia.
    + intros id' cmd' Hin. cbn. rewrite lookup_delete_ne; [apply Hts; by right|].
      intros ->. apply Hid, list_elem_of_fmap. by exists (id', cmd').
    + change (completed k2) with (completed kc). rewrite Hcom, decide_True, length_app by done. cbn in *. lia.
    + cbn in *. lia.
    + exists k'. split; [exact Hrun'|]. split; [done|done|exact V3| | | |].
      * intros x. rewrite V4. cbn. destruct (decide (x = id)) as [->|Hne].
        -- rewrite lookup_delete_eq, (decide_True (P := _ ∈ _ :: _)) by left. by case_decide.
        -- rewrite lookup_delete_ne by done. case_decide as E; [by rewrite decide_True by by right|].
           rewrite decide_False; [done|]. by intros [?|?]%elem_of_cons.
      * by rewrite V5.
      * exists (c :: cs). split; [|by constructor]. rewrite V6. change (completed k2) with (completed kc).
        rewrite Hcom, decide_True by done. cbn. by rewrite <- app_assoc.
      * intros q Hq. rewrite V8 by done. change (completed k2) with (completed kc). by rewrite Hcom, decide_False.
Qed.
End tasks.
