(* ===== verification/KernelProps.v ===== *)
(** What holds of the kernel as a whole: exits, kills, commands, watchers and page faults
    ([kernel/src/process/], [kernel/src/exception/handlers.rs]). *)
From stdpp Require Import base list gmap.
From S2P Require Import Prelude BitField Addresses PhysAlloc VirtAlloc Frames PageEntry Paging.
From S2P Require Import PagingTree MapRange UnmapRange PagingIter Spaces PhysBuffer MsgQueue Error Process ProcMem.
From S2P Require Import ProcWorld ProcQueues Sched SchedSpec Kernel KernelThreads KernelSpec KernelCommands KernelTasks.

Section props.
Context `{BF : BitField} (kernel_table : PageTable) (R user : Z → Prop) (L : Layouts).
Context (HR : R (level0_table kernel_table)) (Hkh : high_addresses kernel_table = true).
Context (Huser : ∀ r, user r → R r ∧ r ≠ level0_table kernel_table).
Context (spawn_child : Z → SpawnProcess → Z → Z → K Z).
Implicit Types (k : Kernel) (t : Thread).
Local Abbreviation kernel_wf := (kernel_wf kernel_table R user L).

(** The threads are the same, perhaps in another state or order. *)
Lemma resched_wf k s' : kernel_wf k → threads_wf s' → threads s' = threads (ksched k) →
  (∀ p u, arcs s' !! p = Some u → ∃ v, arcs (ksched k) !! p = Some v ∧ like v u) → kernel_wf (set_sched k s').
Proof.
  intros [H1 H2 H3 [heap H4]] Hwf Hth Hlike.
  assert (∀ p, p ∈ threads s' → ∃ u v, arcs s' !! p = Some u ∧ arcs (ksched k) !! p = Some v ∧ like v u) as Hboth.
  { intros p Hp. destruct (tw_valid _ Hwf p Hp) as (u & _ & _ & Hu & _).
    destruct (Hlike p u Hu) as (v & Hv & Hl). by exists u, v. }
  split; cbn [ksched kworld set_sched]; [done| |done|].
  - intros i p. change (threads_of (set_sched k s') i) with (threads_of k i). rewrite H2, Hth.
    split; intros [Hp (x & Hx & Hi)]; (split; [done|]); rewrite <- Hth in Hp;
      destruct (Hboth p Hp) as (u & v & Hu & Hv & Hl); pose proof (lk_parent _ _ Hl); [exists u|exists v];
      (split; [done|congruence]).
  - exists heap. rewrite Hth.
    assert (stacks s' (threads (ksched k)) = stacks (ksched k) (threads (ksched k))) as ->; [|done].
    apply stacks_ext. rewrite <- Hth. intros p Hp. destruct (Hboth p Hp) as (u & v & -> & -> & [_ Hpar _ Hs Hn]).
    cbn. unfold stack_region. by rewrite Hpar, Hs, Hn.
Qed.

Lemma wf_queues k i P : kernel_wf k → procs (kworld k) !! i = Some P → queues_ok L P.
Proof. intros Hwf HP. destruct (kw_memory _ _ _ _ _ Hwf) as [heap [_ Hq]]. by eapply Hq. Qed.

Lemma dispatch_run k i P : procs (kworld k) !! i = Some P → queues_ok L P →
  spawnable k (length (pending k i (send_queues P))) →
  ∃ m, dispatch_new_commands i k = Ok tt (spawned (with_submitted k m) (pending k i (send_queues P))) ∧
  ∀ x, messages m x =
    if decide (x ∈ map (λ y, (i, queue_number y.1)) (send_queues P)) then [] else messages (submitted k) x.
Proof.
  intros HP [_ Hids _ _ _] Hs. destruct (dispatch_loop i (send_queues P) k) as (m & Hrun & Hm); [|done|].
  - unfold all_queues in Hids. rewrite map_app, map_map in Hids. by apply NoDup_app in Hids as (? & _).
  - exists m. split; [|done]. unfold dispatch_new_commands. erewrite bind_run by done. rewrite HP.
    erewrite bind_run by done. exact Hrun.
Qed.

(** *** Threads and processes *)

(** C4: a thread of a process exits: it is in no queue and no list any more, another thread runs
    if it was the current one, none of its stack is mapped and the frames and the addresses of
    the stack are free again, its exit code is recorded once, and everyone who waits for it is
    woken; if it was the last of its process, the process ends with the same code and is taken
    from the table. All else, and the kernel's invariant, stay. Those who wait must fit in the
    ready queue, or waking them panics. *)
Theorem thread_exit_correct k p t i val : kernel_wf k → p ∈ threads (ksched k) →
  arcs (ksched k) !! p = Some t → parent t = Some i →
  (length (ready k) + to_wake k p i ≤ READY_CAPACITY)%nat →
  ∃ k', exit kernel_table p val k = Ok tt k' ∧ kernel_wf k' ∧ exited k p i val k' ∧ stack_freed k t i k'.
Proof. apply (exit_run kernel_table R user L HR Hkh Huser). Qed.

(** C18: killing a process ends each of its threads with the code [Killed]: none is left
    anywhere, the process has ended and is not in the table, those who wait are woken, and the
    threads of other processes stay as they are. The process has a thread, and those who wait
    fit in the ready queue. An unknown process is an error and changes nothing. *)
Theorem kill_process_correct k i : kernel_wf k →
  (i ∉ processes k →
     kill_process kernel_table i k = Err (Misc "find process to kill" (Some InvalidId)) k) ∧
  (i ∈ processes k → threads_of k i ≠ [] →
     (length (ready k) + length (all_wakers k (threads_of k i)) + length (wakers (exit_state k (inr i)))
        ≤ READY_CAPACITY)%nat →
     ∃ k', kill_process kernel_table i k = Ok tt k' ∧ kernel_wf k' ∧ killed k i (threads_of k i) k').
Proof.
  intros Hwf. split; [|by apply (kill_run kernel_table R user L HR Hkh Huser)].
  intros Hi. unfold kill_process, process_for_id. rewrite bind_unfold. erewrite bind_run by done.
  cbn [mret M_ret]. destruct (find (Z.eqb i) (processes k)) as [j|] eqn:E.
  - apply find_some in E as [Hin ->%Z.eqb_eq]. by apply list_elem_of_In in Hin.
  - done.
Qed.

(** *** Commands *)

(** C5: the commands that a process has submitted are answered: taken from its queues at the
    next exception and run by the executor, each gives exactly one completion, with the id of
    its command, of a kind that answers it, in order; no task is left over. This is for commands
    that end at once ([simple]: no watches, kills, new processes, notices of exits, nor the end
    of the completion queue itself; stacks and queues below 2 MiB), at most 32 of them, for one
    completion queue that has room for all the answers (a full one is a panic), and an executor
    with no other work. *)
Theorem commands_answered k i P rq cap cmds : let n := length cmds in
  kernel_wf k → procs (kworld k) !! i = Some P →
  pending k i (send_queues P) = (λ c, Dispatch i c rq) <$> cmds →
  Forall (simple L rq) cmds → room k i rq = Some cap →
  Z.of_nat (length (messages (completed k) (i, rq)) + n) ≤ cap →
  ready k = [] → new_task_queue (ktasks k) = [] → spawnable k n →
  (∀ x, is_Some (tasks (ktasks k) !! x) → x < next_task_id (ktasks k)) →
  next_tid (ksched k) + Z.of_nat n < 2 ^ 32 →
  ∃ k', (dispatch_new_commands i;; take_new n;; poll_ready kernel_table L spawn_child n) k = Ok tt k' ∧ kernel_wf k' ∧
    (∃ cs, messages (completed k') (i, rq) = messages (completed k) (i, rq) ++ cs ∧ Forall2 (replies i) cmds cs) ∧
    (∀ q, q ≠ (i, rq) → messages (completed k') q = messages (completed k) q) ∧
    (∀ x, x ∈ send_queues P → messages (submitted k') (i, queue_number x.1) = []) ∧
    ready k' = [] ∧ new_task_queue (ktasks k') = [] ∧ tasks (ktasks k') = tasks (ktasks k).
Proof.
  intros n Hwf HP Hpend Hs Hroom Hcap Hready Hnew Hsp Hids Htid.
  destruct (dispatch_run k i P HP (wf_queues k i P Hwf HP)) as (m & Hdis & Hm).
  { by rewrite Hpend, length_fmap. }
  erewrite bind_run by exact Hdis. rewrite Hpend. set (k1 := spawned (with_submitted k m) _).
  set (l := numbered (next_task_id (ktasks k)) ((λ c, Dispatch i c rq) <$> cmds)).
  assert (new_task_queue (ktasks k1) = l) as Hl by (unfold k1, spawned; cbn; by rewrite Hnew).
  assert (length l = n) as Hlen by (unfold l; by rewrite numbered_length, length_fmap).
  destruct Hsp as (Hsp1 & Hsp2 & Hsp3). unfold NEW_TASK_CAPACITY in Hsp1.
  erewrite bind_run.
  2: { apply (take_new_run l); [done|lia|apply numbered_nodup|].
       change (ready k1) with (ready k). rewrite Hready, Hlen. unfold READY_CAPACITY. cbn. lia. }
  change (ready k1) with (ready k). rewrite Hready. cbn [app]. set (k2 := with_tasks k1 _ _ _).
  assert (∀ x, x ∈ map fst (numbered (next_task_id (ktasks k)) cmds) → tasks (ktasks k) !! x = None) as Hfree.
  { intros x Hx%numbered_ids. apply eq_None_not_Some. intros Hsome%Hids. lia. }
  destruct (poll_ready_run kernel_table R user L HR Hkh Huser spawn_child i rq cap (numbered (next_task_id (ktasks k)) cmds) k2 n)
    as (k' & Hrun & [V1 V2 V3 V4 V5 V6 V7]).
  - by eapply wf_of_same; [..|exact Hwf].
  - unfold k2, with_tasks, ready, l. cbn. apply numbered_fst.
  - by rewrite numbered_length.
  - apply numbered_nodup.
  - intros id cmd Hin. cbn. apply lookup_union_Some_l. apply elem_of_list_to_map_1; [apply numbered_nodup|].
    unfold l. rewrite numbered_fmap. apply list_elem_of_fmap. by exists (id, cmd).
  - by rewrite numbered_snd.
  - done.
  - by rewrite numbered_length.
  - by rewrite numbered_length.
  - rewrite numbered_snd in V6. exists k'. split_and!; try done.
    + intros x Hx. rewrite V5. cbn. rewrite Hm, decide_True; [done|]. apply list_elem_of_fmap. by exists x.
    + apply map_eq. intros x. rewrite V4. case_decide as Hx; [by rewrite Hfree|]. cbn.
      apply lookup_union_r. apply not_elem_of_list_to_map_1. unfold l. by rewrite numbered_fst.
Qed.

(** *** Page faults *)

(** The processor continues where the thread was paused. *)
Definition resumes t (c : Cpu) : Prop :=
  regs c = register_state (exec_state t) ∧ spsr_el1 c = program_status (exec_state t) ∧
  elr_el1 c = pc (exec_state t) ∧ sp_el0 c = sp (exec_state t).

(** What the handler does with the scheduler when a user thread has faulted. *)
Lemma fault_sched s t i : threads_wf s → arcs s !! current_thread s = Some t → parent t = Some i →
  ∃ t0 t1 e te c, let s0 := set_arcs s (<[current_thread s := t0]> (arcs s)) in
    let s1 := set_arcs s0 (<[current_thread s := t1]> (arcs s0)) in
    pause_current_thread s = Ok (current_thread s) s0 ∧ parent t0 = Some i ∧
    set_state (current_thread s) Waiting s0 = Ok tt s1 ∧ like t t1 ∧ state t1 = Some Waiting ∧
    exec_state t1 = save (cpu s) ∧ make_task_executor_current s1 = Ok tt (set_current s1 e) ∧
    arcs s !! e = Some te ∧ e ≠ current_thread s ∧ tid te = TASK_THREAD ∧
    resume_current_thread (set_current s1 e) = Ok tt (set_cpu (set_current s1 e) c) ∧ resumes te c ∧
    threads_wf (set_cpu (set_current s1 e) c).
Proof.
  intros Hwf Ht Hpar. destruct (tw_valid s Hwf _ (tw_current s Hwf)) as (t' & st & _ & Ht' & Hst & _).
  rewrite Ht in Ht'. injection Ht' as <-.
  assert (tid t ≠ TASK_THREAD) as Hne.
  { intros E. destruct (tw_executor s Hwf) as (e & u & He & Hu & Hte & Hpe & _).
    assert (current_thread s = e) as Hce.
    { apply (tw_tids s Hwf _ _ t u); [apply Hwf|by apply (tw_queued s Hwf 1)|done|done|congruence]. }
    rewrite Hce in Ht. congruence. }
  destruct (pause_run s t Ht) as (t0 & Hl0 & Hst0 & Hex0 & Hpause).
  set (s0 := set_arcs s (<[current_thread s := t0]> (arcs s))) in *.
  assert (threads_wf s0) as Hwf0 by (eapply touch_wf; [done|done|done|by rewrite Hst0|by right]).
  assert (arcs s0 !! current_thread s = Some t0) as Ht0 by apply lookup_insert_eq.
  destruct (set_state_run s0 (current_thread s) t0 Waiting Ht0) as (t1 & Hl1 & Hst1 & Hex1 & Hset).
  set (s1 := set_arcs s0 (<[current_thread s := t1]> (arcs s0))) in *.
  assert (threads_wf s1) as Hwf1.
  { eapply touch_wf; [done|done|done|done|]. right. by rewrite (lk_tid _ _ Hl0). }
  destruct (task_executor_run s1 Hwf1) as (e & te & Hte & Htid & He & Hpe & _ & Hexec).
  assert (e ≠ current_thread s) as Hec.
  { intros ->. unfold s1 in Hte. cbn in Hte. rewrite lookup_insert_eq in Hte. injection Hte as <-.
    apply Hne. rewrite <- (lk_tid _ _ Hl0), <- (lk_tid _ _ Hl1). done. }
  destruct (resume_run (set_current s1 e) te Hte) as (c & Hres & Hc & Hc2 & Hc3 & Hc4 & _).
  exists t0, t1, e, te, c. split_and!; try done.
  - by rewrite (lk_parent _ _ Hl0).
  - destruct Hl0, Hl1. split; congruence.
  - congruence.
  - unfold s1, s0 in Hte. cbn in Hte. by rewrite !lookup_insert_ne in Hte by done.
  - by apply set_cpu_wf, set_current_wf.
Qed.

(** C17: a page fault of a user thread leaves it waiting with its context saved, and the
    processor continues with the task executor, whose queue ends with the task for the fault,
    after those for the commands that were waiting; that task ends the thread with the code
    [PageFault]. The new tasks must fit in the queue of new tasks, and those who watch the
    thread in the ready queue. *)
Theorem page_fault_handled k t i P esr far : let s := ksched k in let c := current_thread s in
  let new := pending k i (send_queues P) ++ [OnPageFault i c far] in
  kernel_wf k → arcs s !! c = Some t → parent t = Some i → procs (kworld k) !! i = Some P →
  esr_ec esr = 0x24 ∨ esr_ec esr = 0x20 → spawnable k (length new) →
  (length (ready k) + to_wake k c i ≤ READY_CAPACITY)%nat →
  ∃ k1 te t1, handle_synchronous_exception kernel_table esr far k = Ok tt k1 ∧ kernel_wf k1 ∧
    arcs s !! current_thread (ksched k1) = Some te ∧ tid te = TASK_THREAD ∧ resumes te (cpu (ksched k1)) ∧
    arcs (ksched k1) !! c = Some t1 ∧ state t1 = Some Waiting ∧ exec_state t1 = save (cpu s) ∧
    new_task_queue (ktasks k1) = new_task_queue (ktasks k) ++ numbered (next_task_id (ktasks k)) new ∧
    ∀ id, ∃ k2, poll_task kernel_table L spawn_child id (OnPageFault i c far) k1 = Ok None k2 ∧ kernel_wf k2 ∧
      exited k1 c i PageFault k2.
Proof.
  intros s c new Hwf Ht Hpar HP Hec Hsp Hcap.
  destruct (fault_sched s t i (kw_threads _ _ _ _ _ Hwf) Ht Hpar)
    as (t0 & t1 & e & te & cpu1 & Hpause & Hpar0 & Hset & Hlike & Hst1 & Hex1 & Hexec & Hte & Hne & Htid & Hres & Hcpu & Hwf1).
  fold c in Hpause, Hset, Hexec, Hne, Hres, Hwf1. set (s0 := set_arcs s (<[c := t0]> (arcs s))) in *.
  set (s1 := set_arcs s0 (<[c := t1]> (arcs s0))) in *. unfold new in Hsp. rewrite length_app in Hsp. cbn in Hsp.
  unfold handle_synchronous_exception.
  replace (negb (is_system_call (esr_ec esr)) && negb (is_user_space_data_page_fault (esr_ec esr)) &&
     negb (is_user_space_code_page_fault (esr_ec esr))) with false by (destruct Hec as [-> | ->]; done).
  replace (is_system_call (esr_ec esr)) with false by (destruct Hec as [-> | ->]; done).
  cbv zeta. erewrite bind_run by done. erewrite bind_run by (apply on_sched_run; exact Hpause).
  erewrite bind_run by (apply on_sched_run, deref_run, lookup_insert_eq). rewrite Hpar0.
  destruct (dispatch_run (set_sched k s0) i P HP (wf_queues k i P Hwf HP)) as (m & Hdis & _).
  { destruct Hsp as (? & ? & ?). split_and!; cbn; unfold pending in *; cbn; lia. }
  erewrite bind_run by exact Hdis. erewrite bind_run by done.
  change (pending (set_sched k s0) i) with (pending k i). set (kd := spawned _ _).
  rewrite bind_unfold. erewrite bind_run by (apply on_sched_run; exact Hset).
  erewrite bind_run.
  2: { apply spawn_run. destruct Hsp as (? & ? & ?). split_and!; cbn; rewrite ?length_app, ?numbered_length; lia. }
  erewrite on_sched_run by exact Hexec. erewrite on_sched_run by exact Hres.
  set (k1 := set_sched _ _). assert (kernel_wf k1) as Hwfk.
  { eapply (wf_of_same kernel_table R user L (set_sched k (ksched k1))); [done..|].
    apply resched_wf; [done|done|done|]. intros p u Hu. cbn in Hu. rewrite insert_insert_eq in Hu.
    exact (like_lookup s c t t1 p u Ht Hlike Hu). }
  exists k1, te, t1. split_and!; try done.
  - apply lookup_insert_eq.
  - unfold k1, kd, spawned. cbn. unfold new. by rewrite numbered_app, app_assoc.
  - intros id. destruct (exit_run kernel_table R user L HR Hkh Huser k1 c t1 i PageFault) as (k2 & Hrun & Hwf2 & Hexd & _).
    + done.
    + apply (tw_current s (kw_threads _ _ _ _ _ Hwf)).
    + apply lookup_insert_eq.
    + by rewrite (lk_parent _ _ Hlike).
    + exact Hcap.
    + exists k2. split; [|done]. cbn [poll_task]. by erewrite bind_run by exact Hrun.
Qed.

(** *** Watching *)

(** The operation leaves the completion queues of all processes. *)
Definition keeps_room {A} (m : K A) : Prop := ∀ k a k', m k = Ok a k' → ∀ j rq, room k' j rq = room k j rq.

Lemma room_bind {A B} (m : K A) (f : A → K B) : keeps_room m → (∀ a, keeps_room (f a)) → keeps_room (m ≫= f).
Proof. intros Hm Hf k b k' (a & k1 & H1 & H2)%bind_Ok j rq. by rewrite (Hf a _ _ _ H2), (Hm _ _ _ H1). Qed.
Lemma room_ret {A} (a : A) : keeps_room (mret a).
Proof. by intros k b k' [= _ <-]. Qed.
Lemma room_get : keeps_room get.
Proof. by intros k b k' [= _ <-]. Qed.
Lemma room_sched {A} (m : SM A) : keeps_room (on_sched m).
Proof. intros k a k'. unfold on_sched. destruct (m _) as [b s|[]|w]; [|done]. by intros [= _ <-]. Qed.
Lemma room_process {A} i (m : PM A) : tidy m → keeps_room (on_process i m).
Proof.
  intros Hm k a k'. unfold on_process. destruct (procs (kworld k) !! i) as [P|] eqn:HP; [|done].
  specialize (Hm (system_of (kworld k) P)). destruct (m _) as [b s|e s|w]; [|done|done]. intros [= _ <-] j rq.
  unfold room. cbn. destruct (decide (j = i)) as [->|Hne].
  - rewrite lookup_insert_eq, HP. cbn. by rewrite Hm.
  - by rewrite lookup_insert_ne.
Qed.
Lemma room_modify (f : Kernel → Kernel) : (∀ k, kworld (f k) = kworld k) → keeps_room (k ← get; put (f k)).
Proof. intros Hf k a k' H j rq. injection H as _ <-. unfold room. by rewrite Hf. Qed.
Lemma room_memory {A} (m : KM A) : keeps_room (on_memory m).
Proof. intros k a k'. unfold on_memory. destruct (m _) as [b s|e s|w]; [|done|done]. by intros [= _ <-]. Qed.
Lemma room_wake l : keeps_room (for_each wake l).
Proof.
  induction l as [|x l IH]; cbn [for_each]; [apply room_ret|]. apply room_bind; [|done].
  intros k a k'. unfold wake. rewrite bind_unfold. cbn [get]. cbv zeta. case_match; [|done]. by intros [= _ <-].
Qed.
Lemma room_exit_set x val : keeps_room (exit_set x val).
Proof.
  intros k a k'. unfold exit_set. rewrite bind_unfold. cbn [get]. cbv zeta. rewrite bind_unfold. cbn [put].
  intros H j rq. by rewrite (room_wake _ _ _ _ H).
Qed.

Lemma room_exit p val : keeps_room (exit kernel_table p val).
Proof.
  unfold exit. apply room_bind; [apply room_sched|intros _]. apply room_bind; [apply room_sched|intros self].
  apply room_bind; [apply room_sched|intros _]. apply room_bind.
  - destruct (parent self) as [i|].
    + apply room_bind; [apply room_get|intros k0]. apply room_bind; [apply room_sched|intros ts].
      intros k a k' H j rq. apply bind_Ok in H as (k1 & ? & [= <- <-] & H).
      apply bind_Ok in H as ([] & ? & [= <-] & H).
      exact (room_bind _ _ (room_process i _ (tidy_free_memory _ _)) (λ _, room_ret _) _ _ _ H j rq).
    + apply room_bind; [apply room_memory|intros _; apply room_ret].
  - intros [i|]; (apply room_bind; [apply room_exit_set|intros _]); [|apply room_ret].
    apply room_bind; [apply room_exit_set|intros _]. by apply room_modify.
Qed.

Lemma exit_poll_pending k x w : code (exit_state k x) = None →
  exit_poll x w k = Ok None (set_exit_state k x {| code := None; wakers := wakers (exit_state k x) ++ [w] |}).
Proof.
  intros Hc. unfold exit_poll, poll_code. rewrite bind_unfold, bind_unfold. cbn [get mret M_ret]. rewrite Hc.
  unfold register_waker. rewrite bind_unfold. by erewrite bind_run, Hc by done.
Qed.
Lemma exit_poll_ready k x w c : code (exit_state k x) = Some c → exit_poll x w k = Ok (Some c) k.
Proof. intros Hc. unfold exit_poll, poll_code. rewrite bind_unfold, bind_unfold. cbn [get mret M_ret]. by rewrite Hc. Qed.

(** A wake-up can be lost: when the thread exits after a watching task has looked at the
    exit code and before it has added its waker, the code is set, the task is not woken, and
    its waker is left where nothing will call it. *)
Theorem exit_wakeup_lost k x w val : code (exit_state k x) = None → w ∉ ready k → w ∉ wakers (exit_state k x) →
  (length (ready k) + length (wakers (exit_state k x)) ≤ READY_CAPACITY)%nat →
  ∃ k1 k2, poll_code x k = Ok None k ∧ exit_set x val k = Ok tt k1 ∧ register_waker x w k1 = Ok tt k2 ∧
    code (exit_state k2 x) = Some val ∧ (w ∉ ready k2) ∧ wakers (exit_state k2 x) = [w].
Proof.
  intros Hc Hr Hw Hcap. eexists _, _. split_and!.
  - unfold poll_code. rewrite bind_unfold. cbn [get mret M_ret]. by rewrite Hc.
  - by apply exit_set_run.
  - done.
  - rewrite exit_state_set, decide_True by done. cbn. change (exit_state (woken ?a _) x) with (exit_state a x).
    rewrite exit_state_set, decide_True by done. cbn. unfold exit_value. by rewrite Hc.
  - change (w ∉ (ready k ++ wakers (exit_state k x))). rewrite not_elem_of_app. done.
  - rewrite exit_state_set, decide_True by done. cbn. change (exit_state (woken ?a _) x) with (exit_state a x).
    rewrite exit_state_set, decide_True by done. done.
Qed.

(** C20: a command that watches a thread stays pending while the thread runs; when the thread
    exits, the task is woken, and its next poll answers the command with the exit code. The
    completion queue has room for the answer then, and the ready queue for all who wait. *)
Theorem watch_answered k j c rq cap p t i w val : let cmd := {| cmd_kind := WatchThread (tid t); cmd_id := c |} in
  kernel_wf k → p ∈ threads (ksched k) → arcs (ksched k) !! p = Some t → parent t = Some i →
  code (exit_state k (inl p)) = None → room k j rq = Some cap →
  Z.of_nat (length (messages (completed k) (j, rq))) < cap →
  (length (ready k) + to_wake k p i + 1 ≤ READY_CAPACITY)%nat →
  ∃ k1 k2 k3, poll_task kernel_table L spawn_child w (Dispatch j cmd rq) k = Ok (Some (Watching j (inl p) c rq)) k1 ∧
    exit kernel_table p val k1 = Ok tt k2 ∧ kernel_wf k2 ∧ w ∈ ready k2 ∧
    poll_task kernel_table L spawn_child w (Watching j (inl p) c rq) k2 = Ok None k3 ∧
    messages (completed k3) (j, rq) = messages (completed k) (j, rq) ++
      [{| response_to_id := c; cmpl_kind := ThreadExitCmpl val |}].
Proof.
  intros cmd Hwf Hp Ht Hpar Hcode Hroom Hcap Hrd.
  set (k1 := set_exit_state k (inl p) {| code := None; wakers := wakers (exit_state k (inl p)) ++ [w] |}).
  assert (kernel_wf k1) as Hwf1 by by eapply wf_of_same; [..|exact Hwf].
  assert (exit_state k1 (inl p) = {| code := None; wakers := wakers (exit_state k (inl p)) ++ [w] |}) as He1.
  { unfold k1. by rewrite exit_state_set, decide_True. }
  assert (exit_state k1 (inr i) = exit_state k (inr i)) as He2.
  { unfold k1. rewrite exit_state_set. by rewrite decide_False. }
  destruct (exit_run kernel_table R user L HR Hkh Huser k1 p t i val Hwf1 Hp Ht Hpar) as (k2 & Hexit & Hwf2 & Hex & _).
  { unfold to_wake in *. change (threads_of k1 i) with (threads_of k i). rewrite He1. cbn [wakers]. rewrite length_app.
    rewrite He2. change (ready k1) with (ready k). cbn. lia. }
  destruct Hex as [_ _ _ Hc2 _ _ _ Hr2 _ _ [_ Hcm] _]. unfold exit_value in Hc2. rewrite He1 in Hc2, Hr2. cbn in Hc2, Hr2.
  assert (room k2 j rq = Some cap) as Hroom2 by (by rewrite (room_exit p val _ _ _ Hexit)).
  exists k1, k2. eexists. split_and!; [|done|done| | |].
  - cbn [poll_task]. erewrite bind_run by done. unfold room in Hroom.
    destruct (procs (kworld k) !! j) as [P|] eqn:HP; [|done]. unfold dispatch_command, command. cbn [cmd_kind cmd].
    rewrite bind_unfold, bind_unfold. unfold watch_thread. rewrite bind_unfold.
    rewrite (on_sched_run _ k (Some p) (ksched k)) by (by apply thread_for_id_run; [apply Hwf|..]).
    cbv beta iota. cbn [mret M_ret]. replace (set_sched k (ksched k)) with k by by destruct k.
    unfold poll_watch. by erewrite bind_run by (by apply exit_poll_pending).
  - rewrite Hr2. set_solver.
  - cbn [poll_task]. unfold poll_watch. erewrite bind_run by (by apply exit_poll_ready). cbv beta iota.
    erewrite bind_run by (eapply answer_run; [exact Hroom2|]; by rewrite Hcm).
    done.
  - unfold messages at 1. cbn. rewrite lookup_insert_eq. cbn. by rewrite Hcm.
Qed.

(** *** Too many commands *)

Lemma poll_commands_overflow i sq rq cmds : ∀ k fuel, messages (submitted k) (i, sq) = cmds →
  (length cmds ≤ fuel)%nat → (length (new_task_queue (ktasks k)) ≤ NEW_TASK_CAPACITY)%nat →
  (NEW_TASK_CAPACITY < length (new_task_queue (ktasks k)) + length cmds)%nat →
  poll_commands fuel i sq rq k = Stop Panic.
Proof.
  induction cmds as [|c cmds IH]; intros k fuel Hm Hf Hle Hlt; [cbn in Hlt; lia|].
  destruct fuel as [|fuel]; [cbn in Hf; lia|]. cbn [poll_commands]. erewrite bind_run by done. rewrite Hm.
  erewrite bind_run by done. set (k1 := set_submitted k (i, sq) cmds). rewrite bind_unfold. unfold spawn.
  rewrite bind_unfold. cbn [get]. cbv zeta. change (ktasks k1) with (ktasks k).
  destruct (Nat.ltb_spec (length (new_task_queue (ktasks k))) NEW_TASK_CAPACITY) as [Hl|Hl]; [|done].
  cbn [put]. apply IH; cbn in *; rewrite ?length_app; cbn; try lia.
  unfold messages. cbn. by rewrite lookup_insert_eq.
Qed.

(** A process can make the kernel panic with its submission queues alone: if more commands
    are waiting when the kernel handles an exception of the process than the queue of new tasks
    has room for (a submission queue holds 64, the queue of new tasks 32), the task queue
    overflows; and a command that ends when the completion queue is full panics, too. *)
Theorem submission_overflow_panics k i P sq rq : procs (kworld k) !! i = Some P →
  (∀ qs, send_queues P = (sq, rq) :: qs →
    (length (new_task_queue (ktasks k)) ≤ NEW_TASK_CAPACITY)%nat →
    (NEW_TASK_CAPACITY < length (new_task_queue (ktasks k)) +
       length (messages (submitted k) (i, queue_number sq)))%nat →
    dispatch_new_commands i k = Stop Panic) ∧
  (∀ cap w arg c, room k i (queue_number rq) = Some cap →
    cap ≤ Z.of_nat (length (messages (completed k) (i, queue_number rq))) →
    poll_task kernel_table L spawn_child w (Dispatch i {| cmd_kind := Test arg; cmd_id := c |} (queue_number rq)) k = Stop Panic).
Proof.
  intros HP. split.
  - intros qs Hq Hle Hlt. unfold dispatch_new_commands. erewrite bind_run by done. rewrite HP.
    erewrite bind_run by done. rewrite Hq. cbn [for_each]. rewrite bind_unfold, bind_unfold. cbn [get].
    by rewrite (poll_commands_overflow i _ _ _ k _ eq_refl).
  - intros cap w arg c Hr Hfull. cbn [poll_task]. erewrite bind_run by done. rewrite HP.
    unfold dispatch_command, command. cbn [cmd_kind cmd_id]. rewrite bind_unfold. cbn [mret M_ret].
    rewrite bind_unfold. unfold answer, post. rewrite bind_unfold. erewrite bind_run by done. rewrite HP.
    unfold room in Hr. rewrite HP in Hr. cbn [mbind option_bind] in Hr |- *.
    destruct (find (has_id (queue_number rq)) (recv_queues P)) as [q|]; [|done]. injection Hr as <-. cbv zeta.
    destruct (Z.ltb_spec (Z.of_nat (length (messages (completed k) (i, queue_number rq)))) (capacity (uq_queue q))); [lia|].
    done.
Qed.

(** *** The invariant *)

(** The operations on threads, processes and queues, as far as they are within their limits. *)
Inductive kernel_step : Kernel → Kernel → Prop :=
  | ks_command k k' i P rq cmd r : procs (kworld k) !! i = Some P →
      enabled kernel_table L rq cmd (system_of (kworld k) P) →
      next_tid (ksched k) + 1 < 2 ^ 32 → dispatch_command kernel_table L spawn_child i cmd rq k = Ok r k' → kernel_step k k'
  | ks_exit k k' p t i val : p ∈ threads (ksched k) → arcs (ksched k) !! p = Some t → parent t = Some i →
      (length (ready k) + to_wake k p i ≤ READY_CAPACITY)%nat →
      exit kernel_table p val k = Ok tt k' → kernel_step k k'
  | ks_kill k k' i : i ∈ processes k → threads_of k i ≠ [] →
      (length (ready k) + length (all_wakers k (threads_of k i)) + length (wakers (exit_state k (inr i)))
        ≤ READY_CAPACITY)%nat →
      kill_process kernel_table i k = Ok tt k' → kernel_step k k'
  | ks_schedule k k' : on_sched schedule_next_thread k = Ok tt k' → kernel_step k k'
  | ks_pause k k' p : on_sched pause_current_thread k = Ok p k' → kernel_step k k'
  | ks_resume k k' : on_sched resume_current_thread k = Ok tt k' → kernel_step k k'.

Lemma on_sched_Ok {A} (m : SM A) k a k' : on_sched m k = Ok a k' → ∃ s, m (ksched k) = Ok a s ∧ k' = set_sched k s.
Proof. unfold on_sched. destruct (m _) as [b s|[]|w]; [|done]. intros [= <- <-]. by exists s. Qed.

Lemma like_refl t : like t t.
Proof. by split. Qed.

Lemma schedule_kernel k : kernel_wf k → ∃ s, on_sched schedule_next_thread k = Ok tt (set_sched k s) ∧ kernel_wf (set_sched k s).
Proof.
  intros Hwf. destruct (schedule_wf _ (kw_threads _ _ _ _ _ Hwf)) as (s & Hrun & Hre & _ & j & Hj). exists s.
  split; [by apply on_sched_run|]. pose proof Hre as [[Ha Hth _ _] _ _].
  apply resched_wf; [done| |done|].
  - eapply rescheduled_wf; [apply Hwf|done|]. by apply (tw_queued _ (kw_threads _ _ _ _ _ Hwf) j).
  - intros p u. rewrite Ha. intros Hu. exists u. by split.
Qed.

Lemma step_wf k k' : kernel_step k k' → kernel_wf k → kernel_wf k'.
Proof.
  intros [k0 k1 i P rq cmd r HP Hs Ht Hrun|k0 k1 p t i val Hp Ht Hpar Hc Hrun|k0 k1 i Hi Hne Hc Hrun|k0 k1 Hrun|k0 k1 p Hrun|k0 k1 Hrun] Hwf.
  - destruct (command_answered kernel_table R user L HR Hkh Huser spawn_child k0 i P rq cmd Hwf HP Hs Ht) as (kind & k2 & Hd & Hwf2 & _).
    rewrite Hrun in Hd. by injection Hd as _ ->.
  - destruct (exit_run kernel_table R user L HR Hkh Huser k0 p t i val Hwf Hp Ht Hpar Hc) as (k2 & Hd & Hwf2 & _).
    rewrite Hrun in Hd. by injection Hd as ->.
  - destruct (kill_run kernel_table R user L HR Hkh Huser k0 i Hwf Hi Hne Hc) as (k2 & Hd & Hwf2 & _).
    rewrite Hrun in Hd. by injection Hd as ->.
  - destruct (schedule_kernel k0 Hwf) as (s & Hd & Hwf2). rewrite Hrun in Hd. by injection Hd as ->.
  - apply on_sched_Ok in Hrun as (s & Hrun & ->).
    destruct (tw_valid _ (kw_threads _ _ _ _ _ Hwf) _ (tw_current _ (kw_threads _ _ _ _ _ Hwf))) as (t & st & _ & Ht & Hst & _).
    destruct (pause_run _ t Ht) as (t' & Hl & Hst' & _ & Hpause). rewrite Hrun in Hpause. injection Hpause as _ ->.
    apply resched_wf; [done| |done|intros q u Hu; exact (like_lookup _ _ t t' q u Ht Hl Hu)].
    eapply touch_wf; [apply Hwf|done|done|by rewrite Hst'|].
    eapply (running_or_other (ksched k0)); [apply Hwf|apply Hwf|done|done].
  - apply on_sched_Ok in Hrun as (s & Hrun & ->).
    destruct (tw_valid _ (kw_threads _ _ _ _ _ Hwf) _ (tw_current _ (kw_threads _ _ _ _ _ Hwf))) as (t & st & _ & Ht & Hst & _).
    destruct (resume_run _ t Ht) as (c & Hres & _). rewrite Hrun in Hres. injection Hres as ->.
    apply resched_wf; [done|by apply set_cpu_wf, Hwf|done|]. intros q u Hu. exists u. by split.
Qed.

(** C3: the kernel's state stays well typed. Steps are commands, exits of threads, kills of
    processes, scheduling, and saving and restoring the current thread. Every state that is
    reached from a well-formed one is well-formed: threads have valid states and priorities and
    their own ids, are in the queue of their priority, belong to the process that lists them,
    and their stacks, the queues and all other memory of the processes are mapped as they should
    be, isolated from each other. In each such state commands and exits end without a panic, and
    so does scheduling. Commands are those that [enabled] allows: they end at once (tests,
    unknown ones, queues created and destroyed other than the one that is answered in, threads
    spawned without a notice of their exit), memory that they allocate is aligned for the page
    tables, and thread ids are not used up; exits and kills are those whose watchers fit in the
    ready queue. *)
Theorem kernel_type_safe k k' : kernel_wf k → rtc kernel_step k k' → kernel_wf k' ∧
  (∀ i P rq cmd, procs (kworld k') !! i = Some P → enabled kernel_table L rq cmd (system_of (kworld k') P) →
     next_tid (ksched k') + 1 < 2 ^ 32 →
     ∃ r k2, dispatch_command kernel_table L spawn_child i cmd rq k' = Ok r k2) ∧
  (∀ i p val, p ∈ threads_of k' i → (length (ready k') + to_wake k' p i ≤ READY_CAPACITY)%nat →
     ∃ k2, exit kernel_table p val k' = Ok tt k2) ∧
  (∃ k2, on_sched schedule_next_thread k' = Ok tt k2).
Proof.
  intros Hwf Hr. assert (kernel_wf k') as Hwf'.
  { induction Hr as [k|k k1 k2 Hs Hr IH]; [done|]. by apply IH, (step_wf k). }
  split; [done|]. split_and!.
  - intros i P rq cmd HP Hs Ht.
    destruct (command_answered kernel_table R user L HR Hkh Huser spawn_child k' i P rq cmd Hwf' HP Hs Ht) as (kind & k2 & Hd & _).
    by eexists _, k2.
  - intros i p val [Hp (t & Ht & Hpar)]%(kw_owned _ _ _ _ _ Hwf') Hc.
    destruct (exit_run kernel_table R user L HR Hkh Huser k' p t i val Hwf' Hp Ht Hpar Hc) as (k2 & Hd & _). by exists k2.
  - destruct (schedule_kernel k' Hwf') as (s & Hd & _). by eexists.
Qed.
End props.

(** *** Witnesses *)

#[local] Existing Instance concrete_bit_field.

Definition demo_executor : Thread :=
  {| tid := TASK_THREAD; parent := None; atomic_state := state_into Running;
     atomic_priority := priority_into Normal;
     exec_state := {| register_state := replicate 31 0; program_status := initial_for_el1; pc := 0x8000; sp := 0x9000 |};
     stack_start := 0; stack_page_count := 0 |}.

(** The idle thread and the executor. *)
Definition demo_threads : Sched :=
  {| arcs := <[1%nat := demo_executor]> {[0%nat := idle_thread]}; threads := [1; 0]%nat; next_tid := 2;
     queues := [([], 0%nat); ([1%nat], 0%nat); ([0%nat], 0%nat)]; current_thread := 0%nat; cpu := demo_cpu 0 |}.

(** Nothing here spawns a process. *)
Definition demo_spawn (i : Z) (info : SpawnProcess) (cmd rq : Z) : K Z := throw (Misc "no file system" (Some UnsupportedOperation)).

Definition demo_kernel (w : World) : Kernel :=
  {| ksched := demo_threads; kworld := w; processes := [2; 1]; process_threads := ∅; exit_states := ∅;
     ktasks := Build_Tasks [] [] 1 ∅; submitted := ∅; completed := ∅; kbytes := ∅; next_pid := 3 |}.

Lemma demo_threads_wf : threads_wf demo_threads.
Proof.
  assert (∀ p t, arcs demo_threads !! p = Some t → p = 1%nat ∧ t = demo_executor ∨ p = 0%nat ∧ t = idle_thread) as Ha.
  { intros p t. cbn. intros [[<- <-]|[_ [<- <-]%lookup_singleton_Some]]%lookup_insert_Some; tauto. }
  assert (∀ p, p ∈ threads demo_threads → p = 1%nat ∨ p = 0%nat) as Ht by (intros p; cbn; set_solver).
  split; try done.
  - intros p [->| ->]%Ht; by do 3 eexists.
  - intros [|[|[|j]]] p; cbn; [by intros ?%not_elem_of_nil|intros ->%list_elem_of_singleton..|by intros ?%not_elem_of_nil];
      (split; [set_solver|]); intros t [[? ->]|[? ->]]%Ha; done.
  - intros p q t u _ _ [[-> ->]|[-> ->]]%Ha [[-> ->]|[-> ->]]%Ha; done.
  - repeat constructor; set_solver.
  - cbn. set_solver.
  - intros p t _ [[-> ->]|[-> ->]]%Ha; cbn; unfold TASK_THREAD, IDLE_THREAD; lia.
  - exists 1%nat, demo_executor. split_and!; try done. cbn. set_solver.
Qed.

(** Process 1 creates its queues and spawns a thread with a stack of 2 MiB. *)
Definition demo_stage (kt : PageTable) (c : CmdKind) (k : Kernel) : option Kernel :=
  match dispatch_command kt demo_layouts demo_spawn 1 {| cmd_kind := c; cmd_id := 0 |} 1 k with
  | Ok _ k' => match procs (kworld k') !! 1 with Some _ => Some k' | None => None end
  | _ => None
  end.
Definition demo_setup (kt : PageTable) (k : Kernel) : option Kernel :=
  k1 ← demo_stage kt (CreateCompletionQueue 4) k;
  k2 ← demo_stage kt (CreateSubmissionQueue 4 1) k1;
  P ← procs (kworld k2) !! 1;
  if alloc_aligned kt 512 false (system_of (kworld k2) P) then demo_stage kt (SpawnThread 0x4000 0x200000 7 false) k2
  else None.

Definition demo_check (k : Kernel) : bool :=
  bool_decide (threads (ksched k) = [2; 1; 0]%nat) &&
  bool_decide ((λ t, (parent t, tid t, stack_page_count t)) <$> arcs (ksched k) !! 2%nat = Some (Some 1, 2, 512)) &&
  bool_decide (threads_of k 1 = [2%nat]) && bool_decide (room k 1 1 = Some 4) &&
  bool_decide ((λ P, (λ x, (queue_number x.1, queue_number x.2)) <$> send_queues P) <$> procs (kworld k) !! 1 = Some [(2, 1)]) &&
  bool_decide (next_tid (ksched k) = 3).

Lemma demo_setup_runs : ∃ kt pt1 pt2 t k, demo_boot demo_tables = Ok (kt, pt1, pt2) t ∧
  demo_setup kt (demo_kernel (demo_world pt1 pt2 t)) = Some k ∧ demo_check k = true.
Proof.
  assert (match demo_boot demo_tables with
          | Ok (kt, pt1, pt2) t =>
              match demo_setup kt (demo_kernel (demo_world pt1 pt2 t)) with Some k => demo_check k | _ => false end
          | _ => false end = true) as E by (vm_compute; reflexivity).
  destruct (demo_boot demo_tables) as [[[kt pt1] pt2] t|e t|w]; [|discriminate E|discriminate E].
  destruct (demo_setup kt (demo_kernel (demo_world pt1 pt2 t))) as [k|] eqn:Ek; [|discriminate E].
  by exists kt, pt1, pt2, t, k.
Qed.

Lemma demo_kernel_wf kt pt1 pt2 t : demo_boot demo_tables = Ok (kt, pt1, pt2) t →
  kernel_wf kt (demo_roots kt pt1 pt2) (demo_users pt1 pt2) demo_layouts (demo_kernel (demo_world pt1 pt2 t)).
Proof.
  intros Hboot. destruct (demo_start _ _ _ _ Hboot) as (HR & Hkh & Huser & Hw & Hnew).
  split; [apply demo_threads_wf| | |].
  - intros i p. change (threads_of _ i) with (@nil nat). split; [by intros ?%not_elem_of_nil|].
    intros [_ (u & Hu & Hp)]. cbn in Hu.
    apply lookup_insert_Some in Hu as [[_ <-]|[_ [_ <-]%lookup_singleton_Some]]; done.
  - intros i. change (threads_of _ i) with (@nil nat). apply NoDup_nil_2.
  - exists []. change (stacks _ _ ++ []) with (@nil Region). by eapply start_ok.
Qed.

(** What the example gives: a kernel with a process that has a thread and a pair of queues. *)
Record demo_state (kt : PageTable) (R user : Z → Prop) (k : Kernel) (P : Process) (sq rq : UserQueue) (t : Thread) : Prop := {
  ds_root : R (level0_table kt);
  ds_high : high_addresses kt = true;
  ds_user : ∀ r, user r → R r ∧ r ≠ level0_table kt;
  ds_wf : kernel_wf kt R user demo_layouts k;
  ds_proc : procs (kworld k) !! 1 = Some P;
  ds_queues : send_queues P = [(sq, rq)] ∧ queue_number sq = 2 ∧ queue_number rq = 1 ∧ room k 1 1 = Some 4;
  ds_thread : threads (ksched k) = [2; 1; 0]%nat ∧ arcs (ksched k) !! 2%nat = Some t ∧ parent t = Some 1 ∧ tid t = 2;
  ds_stack : stack_page_count t = 512;
  ds_own : threads_of k 1 = [2%nat];
  ds_next : next_tid (ksched k) = 3;
  ds_tasks : ktasks k = Build_Tasks [] [] 1 ∅;
  ds_rest : submitted k = ∅ ∧ completed k = ∅ ∧ exit_states k = ∅ ∧ processes k = [2; 1];
}.

Lemma demo_stage_wf kt R user c k k' : R (level0_table kt) → high_addresses kt = true →
  (∀ r, user r → R r ∧ r ≠ level0_table kt) → kernel_wf kt R user demo_layouts k →
  is_Some (procs (kworld k) !! 1) →
  (∀ P, procs (kworld k) !! 1 = Some P → enabled kt demo_layouts 1 {| cmd_kind := c; cmd_id := 0 |} (system_of (kworld k) P)) →
  next_tid (ksched k) + 1 < 2 ^ 32 → demo_stage kt c k = Some k' →
  kernel_wf kt R user demo_layouts k' ∧ quiet 1 1 k k' ∧ is_Some (procs (kworld k') !! 1).
Proof.
  intros HR Hkh Huser Hwf [P HP] Hs Ht H. unfold demo_stage in H.
  destruct (command_answered kt R user demo_layouts HR Hkh Huser demo_spawn k 1 P 1 _ Hwf HP (Hs P HP) Ht) as (kind & k1 & Hrun & Hwf1 & Hq & _).
  rewrite Hrun in H. destruct (procs (kworld k1) !! 1) eqn:E; [|done]. injection H as <-. by rewrite E.
Qed.

Lemma demo_running : ∃ kt R user k P sq rq t, demo_state kt R user k P sq rq t.
Proof.
  destruct demo_setup_runs as (kt & pt1 & pt2 & t & k & Hboot & Hrun & Hc).
  pose proof (demo_kernel_wf _ _ _ _ Hboot) as Hwf. destruct (demo_start _ _ _ _ Hboot) as (HR & Hkh & Huser & _).
  set (k0 := demo_kernel (demo_world pt1 pt2 t)) in *. unfold demo_setup in Hrun.
  destruct (demo_stage kt _ k0) as [k1|] eqn:E1; [|done]. cbn [mbind option_bind] in Hrun.
  destruct (demo_stage kt _ k1) as [k2|] eqn:E2; [|done]. cbn [mbind option_bind] in Hrun.
  destruct (procs (kworld k2) !! 1) as [P2|] eqn:E3; [|done]. cbn [mbind option_bind] in Hrun.
  destruct (alloc_aligned _ _ _ _) eqn:Eal; [|done].
  destruct (demo_stage_wf _ _ _ (CreateCompletionQueue 4) _ _ HR Hkh Huser Hwf (ltac:(by eexists)) (λ _ _, small_queue_fits _ _ _ _ _ (demo_fits _)) ltac:(cbn; lia) E1) as (W1 & Q1 & S1).
  pose proof (qu_tid _ _ _ _ Q1) as T1. cbn in T1.
  destruct (demo_stage_wf _ _ _ (CreateSubmissionQueue 4 1) _ _ HR Hkh Huser W1 S1 (λ _ _, small_queue_fits _ _ _ _ _ (demo_fits _)) ltac:(lia) E2) as (W2 & Q2 & S2).
  pose proof (qu_tid _ _ _ _ Q2) as T2.
  destruct (demo_stage_wf _ _ _ (SpawnThread 0x4000 0x200000 7 false) _ _ HR Hkh Huser W2 S2
    ltac:(intros P; rewrite E3; intros [= <-]; split_and!; [done|lia|done|exact Eal]) ltac:(lia) Hrun) as (W3 & Q3 & [P HP]).
  unfold demo_check in Hc. rewrite !andb_true_iff, !bool_decide_eq_true in Hc.
  destruct Hc as (((((C1 & C2) & C3) & C4) & C5) & C6).
  apply fmap_Some in C2 as (u & Hu & C2). injection C2 as C2a C2b C2c. rewrite HP in C5. injection C5 as C5.
  destruct (send_queues P) as [|[sq rq] [|]] eqn:Esq; [done| |done]. injection C5 as C5a C5b.
  exists kt, (demo_roots kt pt1 pt2), (demo_users pt1 pt2), k, P, sq, rq, u.
  destruct Q1 as [A1 A2 A3 A4 A5 _ _], Q2 as [B1 B2 B3 B4 B5 _ _], Q3 as [D1 D2 D3 D4 D5 _ _].
  split; try done; [by rewrite D1, B1, A1|].
  by rewrite D2, B2, A2, D3, B3, A3, D4, B4, A4, D5, B5, A5.
Qed.

Example thread_exit_correct_witness : ∃ kt k t k', arcs (ksched k) !! 2%nat = Some t ∧ stack_page_count t = 512 ∧
  exit kt 2 (NormalExit 3) k = Ok tt k' ∧ code (exit_state k' (inr 1)) = Some (NormalExit 3) ∧ processes k' = [2].
Proof.
  destruct demo_running as (kt & R & user & k & P & sq & rq & t & [HR Hkh Huser Hwf HP Hq (Hth & Ht & Hpar & Htid) Hst Hown Hn Htk (Hs & Hcm & Hes & Hps)]).
  assert (∀ x, exit_state k x = no_exit) as He by (intros x; unfold exit_state; by rewrite Hes).
  destruct (thread_exit_correct kt R user demo_layouts HR Hkh Huser k 2 t 1 (NormalExit 3) Hwf) as (k' & Hrun & _ & Hex & _).
  - rewrite Hth. left.
  - exact Ht.
  - exact Hpar.
  - unfold ready, to_wake. rewrite Htk, !He. cbn. destruct (decide _); cbn; unfold READY_CAPACITY; lia.
  - exists kt, k, t, k'. split; [exact Ht|]. split; [exact Hst|]. split; [exact Hrun|].
    destruct Hex as [_ _ _ _ Hp _ Hl _ _ _ _ _]. rewrite Hown in Hp, Hl. unfold exit_value in Hp. rewrite He in Hp.
    rewrite Hps in Hl. split; [exact Hp|exact Hl].
Defined.

Example kill_process_correct_witness : ∃ kt k k', kill_process kt 1 k = Ok tt k' ∧ threads_of k' 1 = [] ∧ processes k' = [2] ∧
  kill_process kt 9 k = Err (Misc "find process to kill" (Some InvalidId)) k.
Proof.
  destruct demo_running as (kt & R & user & k & P & sq & rq & t & [HR Hkh Huser Hwf HP Hq Hth Hst Hown Hn Htk (Hs & Hcm & Hes & Hps)]).
  assert (∀ x, exit_state k x = no_exit) as He by (intros x; unfold exit_state; by rewrite Hes).
  destruct (kill_process_correct kt R user demo_layouts HR Hkh Huser k 1 Hwf) as [_ Hkill].
  destruct (kill_process_correct kt R user demo_layouts HR Hkh Huser k 9 Hwf) as [Hno _].
  destruct Hkill as (k' & Hrun & _ & Hk).
  - rewrite Hps. right. left.
  - by rewrite Hown.
  - unfold all_wakers, ready. rewrite Hown, Htk. cbn. rewrite !He. cbn. unfold READY_CAPACITY. lia.
  - exists kt, k, k'. split; [exact Hrun|]. split; [apply Hk|]. split; [rewrite (kl_processes _ _ _ _ Hk), Hps; reflexivity|].
    apply Hno. rewrite Hps. set_solver.
Defined.

(** What process 1 submits in the next example. *)
Definition demo_submission : list Command :=
  [{| cmd_kind := Test 7; cmd_id := 5 |}; {| cmd_kind := SpawnThread 0x4000 0 7 false; cmd_id := 6 |};
   {| cmd_kind := DestroyQueue 2; cmd_id := 7 |}].

Example commands_answered_witness : ∃ kt k k' c cs,
  (dispatch_new_commands 1;; take_new 3;; poll_ready kt demo_layouts demo_spawn 3) k = Ok tt k' ∧
  messages (completed k') (1, 1) = c :: cs ∧ c = {| response_to_id := 5; cmpl_kind := TestCmpl 1 7 |} ∧
  response_to_id <$> cs = [6; 7].
Proof.
  destruct demo_running as (kt & R & user & k & P & sq & rq & t & [HR Hkh Huser Hwf HP (Hq & Hsq & Hrq & Hroom) Hth Hst Hown Hn Htk (Hs & Hcm & Hes & Hps)]).
  set (k0 := set_submitted k (1, 2) demo_submission).
  assert (messages (completed k0) (1, 1) = []) as Hm0 by (unfold messages; cbn; rewrite Hcm; reflexivity).
  destruct (commands_answered kt R user demo_layouts HR Hkh Huser demo_spawn k0 1 P 1 4 demo_submission) as (k' & Hrun & _ & (cs & Hmsg & Hrep) & _).
  - eapply wf_of_same; [..|exact Hwf]; reflexivity.
  - exact HP.
  - unfold pending. rewrite Hq. cbn [map concat fst snd]. rewrite Hsq, Hrq. unfold messages. cbn [submitted k0 set_submitted].
    rewrite lookup_insert_eq. reflexivity.
  - unfold demo_submission. rewrite !Forall_cons. cbn. split_and!; [exact I|reflexivity|lia|vm_compute; reflexivity|lia|].
    apply Forall_nil. exact I.
  - exact Hroom.
  - rewrite Hm0. cbn. lia.
  - unfold ready. cbn. rewrite Htk. reflexivity.
  - cbn. rewrite Htk. reflexivity.
  - unfold spawnable. cbn. rewrite Htk. cbn. unfold NEW_TASK_CAPACITY. lia.
  - cbn. rewrite Htk. intros x [y Hy]. cbn in Hy. rewrite lookup_empty in Hy. discriminate Hy.
  - cbn. rewrite Hn. lia.
  - rewrite Hm0 in Hmsg. cbn [app] in Hmsg. revert Hmsg.
    inversion Hrep as [|? c ? cs' [Hc1 Hc2] Hrep1]; subst. inversion Hrep1 as [|? c2 ? cs2 [Hd1 _] Hrep2]; subst.
    inversion Hrep2 as [|? c3 ? cs3 [He1 _] Hrep3]; subst. inversion Hrep3; subst. intros Hmsg.
    exists kt, k0, k', c, [c2; c3]. split; [exact Hrun|]. split; [exact Hmsg|]. cbn in Hc1, Hc2, Hd1, He1.
    split; [|cbn; by rewrite Hd1, He1]. destruct c as [id kind]. cbn in Hc1, Hc2. destruct kind; try contradiction.
    destruct Hc2 as [-> ->]. by rewrite Hc1.
Defined.

Example page_fault_handled_witness : ∃ kt k k1 te, handle_synchronous_exception kt 0x90000007 0x1234 k = Ok tt k1 ∧
  arcs (ksched k) !! current_thread (ksched k1) = Some te ∧ tid te = TASK_THREAD.
Proof.
  destruct demo_running as (kt & R & user & k & P & sq & rq & t & [HR Hkh Huser Hwf HP (Hq & Hsq & Hrq & Hroom) (Hth & Ht & Hpar & Htid) Hst Hown Hn Htk (Hs & Hcm & Hes & Hps)]).
  set (k0 := set_sched k (set_current (ksched k) 2)).
  assert (∀ x, exit_state k0 x = no_exit) as He by (intros x; unfold exit_state; cbn; by rewrite Hes).
  destruct (page_fault_handled kt R user demo_layouts HR Hkh Huser demo_spawn k0 t 1 P 0x90000007 0x1234) as (k1 & te & t1 & Hrun & _ & Hte & Htask & _).
  - apply resched_wf; [exact Hwf| |reflexivity|].
    + apply set_current_wf; [apply Hwf|]. rewrite Hth. left.
    + intros p u Hu. exists u. split; [exact Hu|apply like_refl].
  - exact Ht.
  - exact Hpar.
  - exact HP.
  - left. vm_compute. reflexivity.
  - assert (pending k0 1 (send_queues P) = []) as ->.
    { unfold pending, messages. rewrite Hq. cbn [map concat k0 submitted set_sched]. rewrite Hs. reflexivity. }
    unfold spawnable. cbn. rewrite Htk. unfold NEW_TASK_CAPACITY. cbn. lia.
  - unfold ready, to_wake. cbn. rewrite Htk, !He. cbn. destruct (decide _); cbn; unfold READY_CAPACITY; lia.
  - exists kt, k0, k1, te. split; [exact Hrun|]. split; [exact Hte|exact Htask].
Defined.

Example exit_wakeup_lost_witness : ∃ k1 k2, let k := demo_kernel {| wmem := {| ktabs := demo_tables; kva := VirtAlloc.new 0x1000 1 |}; procs := ∅ |} in
  exit_set (inl 2%nat) Killed k = Ok tt k1 ∧ register_waker (inl 2%nat) 5 k1 = Ok tt k2 ∧ 5 ∉ ready k2.
Proof.
  destruct (exit_wakeup_lost (demo_kernel {| wmem := {| ktabs := demo_tables; kva := VirtAlloc.new 0x1000 1 |}; procs := ∅ |})
    (inl 2%nat) 5 Killed) as (k1 & k2 & _ & H1 & H2 & _ & H3 & _).
  - reflexivity.
  - apply not_elem_of_nil.
  - apply not_elem_of_nil.
  - vm_compute. lia.
  - exists k1, k2. split; [exact H1|]. split; [exact H2|exact H3].
Defined.

Example watch_answered_witness : ∃ kt k k3, poll_task kt demo_layouts demo_spawn 9 (Watching 1 (inl 2%nat) 8 1) k = Ok None k3 ∧
  messages (completed k3) (1, 1) = [{| response_to_id := 8; cmpl_kind := ThreadExitCmpl Killed |}].
Proof.
  destruct demo_running as (kt & R & user & k & P & sq & rq & t & [HR Hkh Huser Hwf HP (Hq & Hsq & Hrq & Hroom) (Hth & Ht & Hpar & Htid) Hst Hown Hn Htk (Hs & Hcm & Hes & Hps)]).
  assert (∀ x, exit_state k x = no_exit) as He by (intros x; unfold exit_state; by rewrite Hes).
  assert (messages (completed k) (1, 1) = []) as Hm0 by (unfold messages; rewrite Hcm; reflexivity).
  destruct (watch_answered kt R user demo_layouts HR Hkh Huser demo_spawn k 1 8 1 4 2 t 1 9 Killed) as (k1 & k2 & k3 & _ & _ & _ & _ & Hrun & Hmsg).
  - exact Hwf.
  - rewrite Hth. left.
  - exact Ht.
  - exact Hpar.
  - by rewrite He.
  - exact Hroom.
  - rewrite Hm0. cbn. lia.
  - unfold ready, to_wake. rewrite Htk, !He. cbn. destruct (decide _); cbn; unfold READY_CAPACITY; lia.
  - exists kt, k2, k3. split; [exact Hrun|]. by rewrite Hm0 in Hmsg.
Defined.

Example submission_overflow_panics_witness : ∃ k, dispatch_new_commands 1 k = Stop Panic.
Proof.
  destruct demo_running as (kt & R & user & k & P & sq & rq & t & [HR Hkh Huser Hwf HP (Hq & Hsq & Hrq & Hroom) Hth Hst Hown Hn Htk (Hs & Hcm & Hes & Hps)]).
  set (k0 := set_submitted k (1, 2) (replicate 33 {| cmd_kind := Test 0; cmd_id := 0 |})). exists k0.
  destruct (submission_overflow_panics kt demo_layouts demo_spawn k0 1 P sq rq HP) as [Hpanic _]. apply (Hpanic [] Hq).
  - cbn. rewrite Htk. cbn. unfold NEW_TASK_CAPACITY. lia.
  - rewrite Hsq. unfold messages. cbn [k0 set_submitted submitted]. rewrite lookup_insert_eq. unfold NEW_TASK_CAPACITY. cbn. lia.
Defined.

Example kernel_type_safe_witness : ∃ kt k k' k2, rtc (kernel_step kt demo_layouts demo_spawn) k k' ∧ threads_of k' 1 = [2%nat] ∧
  exit kt 2 Killed k' = Ok tt k2.
Proof.
  destruct demo_running as (kt & R & user & k & P & sq & rq & t & [HR Hkh Huser Hwf HP (Hq & Hsq & Hrq & Hroom) Hth Hst Hown Hn Htk (Hs & Hcm & Hes & Hps)]).
  assert (∀ x, exit_state k x = no_exit) as He by (intros x; unfold exit_state; by rewrite Hes).
  destruct (schedule_kernel kt R user demo_layouts k Hwf) as (s & Hsch & _).
  assert (rtc (kernel_step kt demo_layouts demo_spawn) k (set_sched k s)) as Hstep.
  { eapply rtc_l; [|apply rtc_refl]. by apply ks_schedule. }
  destruct (kernel_type_safe kt R user demo_layouts HR Hkh Huser demo_spawn k (set_sched k s) Hwf Hstep) as (_ & _ & Hexit & _).
  destruct (Hexit 1 2%nat Killed) as [k2 Hk2].
  - change (threads_of (set_sched k s) 1) with (threads_of k 1). rewrite Hown. left.
  - unfold ready, to_wake. cbn. rewrite Htk.
    change (exit_state (set_sched k s)) with (exit_state k). rewrite !He. cbn. destruct (decide _); cbn; unfold READY_CAPACITY; lia.
  - exists kt, k, (set_sched k s), k2. split; [exact Hstep|]. split; [exact Hown|exact Hk2].
Defined.
