(* ===== verification/TimeSlice.v ===== *)
(** Time slices ([kernel/src/timer.rs] and [configure_time_slicing] of [kernel/src/init.rs]): the
    generic timer of the processor, its interrupt in the device tree and at the interrupt
    controller, and the handler that takes the processor from the current thread.

    The timer's registers behave as the architecture says: the condition is met from the moment
    that the counter has reached the compare value, and writing the timer value sets the compare
    value that much later. *)
From stdpp Require Import base list gmap strings.
From S2P Require Import Prelude BitField Addresses Dtb DtbSpec Gic GicSpec.
From S2P Require Import PhysAlloc VirtAlloc Frames PageEntry Paging PhysBuffer Error Process ProcWorld Sched Kernel.

(** *** The registers *)

Record Timer := {
  cntp_ctl : Z;   (* bits 0 and 1, as written *)
  cntp_cval : Z;
  cntpct : Z;
  cntfrq : Z;
}.

Definition set_ctl (t : Timer) (c : Z) : Timer :=
  {| cntp_ctl := c; cntp_cval := cntp_cval t; cntpct := cntpct t; cntfrq := cntfrq t |}.
Definition set_cval (t : Timer) (c : Z) : Timer :=
  {| cntp_ctl := cntp_ctl t; cntp_cval := c; cntpct := cntpct t; cntfrq := cntfrq t |}.
(** Time passes. *)
Definition tick (n : Z) (t : Timer) : Timer :=
  {| cntp_ctl := cntp_ctl t; cntp_cval := cntp_cval t; cntpct := cntpct t + n; cntfrq := cntfrq t |}.

Definition sign_extend (v : Z) : Z := if v <? 2 ^ 31 then v else v - 2 ^ 32.
(** [ISTATUS] *)
Definition met (t : Timer) : bool := Z.testbit (cntp_ctl t) 0 && (cntp_cval t <=? cntpct t).

Section timer.
Context `{BF : BitField} {E : Type}.
Local Abbreviation TM := (M Timer E).

Definition read_compare_value : TM Z := t ← get; mret (cntp_cval t).
Definition write_compare_value (v : Z) : TM unit := t ← get; put (set_cval t v).
Definition read_timer_value : TM Z := t ← get; mret ((cntp_cval t - cntpct t) mod 2 ^ 32).
Definition write_timer_value (v : Z) : TM unit := t ← get; put (set_cval t ((cntpct t + sign_extend v) mod 2 ^ 64)).
Definition counter : TM Z := t ← get; mret (cntpct t).
Definition frequency : TM Z := t ← get; mret (cntfrq t mod 2 ^ 32).

(** [ISTATUS] is bit 2, and read only. *)
Definition read_control : TM Z := t ← get; mret (Z.lor (cntp_ctl t) (if met t then 4 else 0)).
Definition write_control (r : Z) : TM unit := t ← get; put (set_ctl t (Z.land r 3)).

Definition condition_met : TM bool := c ← read_control; mret (bit c 2).
Definition interrupts_enabled : TM bool := c ← read_control; mret (negb (bit c 1)).
Definition set_interrupts_enabled (enabled : bool) : TM unit :=
  c ← read_control; write_control (set_bit c 1 (negb enabled)).
Definition enabled : TM bool := c ← read_control; mret (bit c 0).
Definition set_enabled (enabled : bool) : TM unit :=
  c ← read_control; write_control (set_bit c 0 enabled).
End timer.

(** *** The timer's interrupt *)

Section properties.
Context {BE : BigEndian} (ic : GenericInterruptController).

(** The closure of [TimerProperties::from_device_tree]; its variable is [interrupt]. *)
Definition timer_property {E} (name data : list Z) (_ : option StandardProperty) : M (option Z) E unit :=
  if bool_decide (name = bytes_of "interrupts") then
    ib ← lift (device_tree_interrupt_spec_byte_size ic);
    ib2 ← lift (umul 2 ib);
    s ← lift (slice data ib ib2);
    spec ← lift (parse_interrupt_spec_from_device_tree ic s);
    put (fst <$> spec)
  else mret tt.

Definition timer_interrupt {S E} (dt : DeviceTree) : M S E Z :=
  '(_, interrupt) ← on_local (process_properties_for_node dt (bytes_of "timer") timer_property) None;
  lift interrupt.
End properties.

(** *** Time slicing *)

(** The processor's timer, the devices, and the table of handlers, which are closures over the
    kernel and the timer. *)
Definition Handler : Type := M (Kernel * Timer) Error unit.
Record Boot (D : Type) := { b_timer : Timer; b_device : D; b_handlers : gmap Z Handler }.
Arguments b_timer {D} b.
Arguments b_device {D} b.
Arguments b_handlers {D} b.
Arguments Build_Boot {D} b_timer b_device b_handlers.

Section slicing.
Context {BE : BigEndian} `{BF : BitField} {BV : BitVec} {D : Type} `{HM : Mmio D} (ic : GenericInterruptController).
Local Abbreviation BM := (M (Boot D) Error).

Definition on_timer {A} (m : M Timer Error A) : BM A := λ b,
  match m (b_timer b) with
  | Ok a t => Ok a (Build_Boot t (b_device b) (b_handlers b))
  | Err e t => Err e (Build_Boot t (b_device b) (b_handlers b))
  | Stop w => Stop w
  end.
Definition on_ic {A} (m : M D Error A) : BM A := λ b,
  match m (b_device b) with
  | Ok a d => Ok a (Build_Boot (b_timer b) d (b_handlers b))
  | Err e d => Err e (Build_Boot (b_timer b) d (b_handlers b))
  | Stop w => Stop w
  end.

(** The closure that is registered. *)
Definition timer_handler : Handler := λ s,
  match on_sched schedule_next_thread s.1 with
  | Ok _ k =>
      match (f ← frequency; write_timer_value (Z.shiftr f 5)) s.2 with
      | Ok _ t => Ok tt (k, t) | Err e t => Err e (k, t) | Stop w => Stop w
      end
  | Err e k => Err e (k, s.2)
  | Stop w => Stop w
  end.

Definition configure_time_slicing (dt : DeviceTree) : BM unit :=
  timer_irq ← timer_interrupt ic dt;
  on_ic (set_target_cpu ic timer_irq 0x1);;
  on_ic (set_priority ic timer_irq 0);;
  on_ic (set_config ic timer_irq Level);;
  on_ic (clear_pending ic timer_irq);;
  on_ic (set_enable ic timer_irq true);;
  on_timer (set_enabled true);;
  on_timer (set_interrupts_enabled true);;
  b ← get;
  put (Build_Boot (b_timer b) (b_device b) (<[timer_irq := timer_handler]> (b_handlers b)));;
  on_timer (write_timer_value 0).
End slicing.

(** *** Properties *)

(** The timer's interrupt line *)
Definition asserted (t : Timer) : bool := met t && negb (Z.testbit (cntp_ctl t) 1).

Section spec.
Context {BE : BigEndian} `{BF : BitField} {BV : BitVec} {D : Type} `{HM : Mmio D} (ic : GenericInterruptController).
Context {HW : GicHardware D (distributor_base ic) (cpu_base ic)}.

Lemma set_bit_testbit x n b i : 0 ≤ n → 0 ≤ i → Z.testbit (set_bit x n b) i = if i =? n then b else Z.testbit x i.
Proof.
  intros Hn Hi. destruct (Z.eqb_spec i n) as [->|].
  - rewrite <- bit_testbit by done. by apply bit_set_bit_same.
  - rewrite <- !bit_testbit by done. apply bit_set_bit_other; lia.
Qed.

(** Bit [n] of the control register is changed, and the other one kept. *)
Lemma control_run {E} n b t : 0 ≤ n < 2 → ∃ t',
  (c ← read_control; write_control (set_bit c n b)) t = Ok (E := E) tt t' ∧
  (∀ i, 0 ≤ i < 2 → Z.testbit (cntp_ctl t') i = if i =? n then b else Z.testbit (cntp_ctl t) i) ∧
  cntp_cval t' = cntp_cval t ∧ cntpct t' = cntpct t ∧ cntfrq t' = cntfrq t.
Proof.
  intros Hn. eexists. split; [done|]. split; [|done]. intros i Hi. cbn [cntp_ctl set_ctl].
  change 3 with (Z.ones 2). rewrite Z.land_spec, Z.ones_spec_low, andb_true_r, set_bit_testbit by lia.
  destruct (i =? n); [done|]. rewrite Z.lor_spec. destruct (met t); [|by rewrite Z.testbit_0_l, orb_false_r].
  assert (i = 0 ∨ i = 1) as [->| ->] by lia; by rewrite orb_false_r.
Qed.

Lemma on_ic_run {A} (m : M D Error A) b a d : m (b_device b) = Ok a d →
  on_ic m b = Ok a (Build_Boot (b_timer b) d (b_handlers b)).
Proof. intros H. unfold on_ic. by rewrite H. Qed.
Lemma on_timer_run {A} (m : M Timer Error A) b a t : m (b_timer b) = Ok a t →
  on_timer m b = Ok a (Build_Boot t (b_device b) (b_handlers (D := D) b)).
Proof. intros H. unfold on_timer. by rewrite H. Qed.

(** The handler gives the next thread a slice of a thirty-second of a second. *)
Lemma rearm_run k k' t : on_sched schedule_next_thread k = Ok tt k' → 0 ≤ cntpct t → 0 ≤ cntfrq t < 2 ^ 32 →
  cntpct t + 2 ^ 32 < 2 ^ 64 → Z.testbit (cntp_ctl t) 0 = true → Z.testbit (cntp_ctl t) 1 = false →
  ∃ t', timer_handler (k, t) = Ok tt (k', t') ∧ ∀ m, 0 ≤ m → asserted (tick m t') = bool_decide (cntfrq t / 32 ≤ m).
Proof.
  intros Hk Hc Hf Hw H0 H1. unfold timer_handler. cbn [fst snd]. rewrite Hk. eexists. split; [done|]. intros m Hm.
  cbn [asserted]. unfold asserted, met. cbn [tick cntp_ctl cntp_cval cntpct set_cval]. rewrite H0, H1. cbn [andb negb].
  rewrite andb_true_r, Z.shiftr_div_pow2, (Z.mod_small (cntfrq t)) by lia. change (2 ^ 5) with 32.
  assert (0 ≤ cntfrq t / 32 < 2 ^ 27) as Hq by dlia.
  unfold sign_extend. replace (cntfrq t / 32 <? 2 ^ 31) with true by lia.
  rewrite Z.mod_small by lia. case_bool_decide; lia.
Qed.

(** C37: time slicing.  After [configure_time_slicing] the timer's interrupt is enabled at the
    controller and asserted at once, other interrupts are as they were, and the handler is
    registered for it.  Whenever the handler runs, the scheduler picks the next thread, the line
    is no longer asserted, and it is again exactly a thirty-second of the counter's frequency
    later. *)
Theorem time_slices dt id b : timer_interrupt ic dt b = Ok (E := Error) id b → irq id →
  (∀ d, stuck d Enabled id = false) → 0 ≤ cntpct (b_timer b) < 2 ^ 63 → 32 ≤ cntfrq (b_timer b) < 2 ^ 32 →
  ∃ b', configure_time_slicing ic dt b = Ok tt b' ∧ flag (b_device b') Enabled id = true ∧
    only_flags ic (b_device b) (b_device b') id ∧ b_handlers b' !! id = Some timer_handler ∧ asserted (b_timer b') = true ∧
    ∀ k k' n, on_sched schedule_next_thread k = Ok tt k' → 0 ≤ n < 2 ^ 62 → ∃ t',
      timer_handler (k, tick n (b_timer b')) = Ok tt (k', t') ∧
      ∀ m, 0 ≤ m → asserted (tick m t') = bool_decide (cntfrq (b_timer b) / 32 ≤ m).
Proof.
  intros Hirq Hid Hst Hc Hf. destruct (configure_run (E := Error) ic id Level (b_device b) Hid Hst) as (d1 & d2 & d3 & d4 & d5 & H1 & H2 & H3 & H4 & H5 & Hen & Hoth).
  destruct (control_run (E := Error) 0 true (b_timer b)) as (t1 & Ht1 & Hb1 & Hv1 & Hc1 & Hf1); [lia|].
  destruct (control_run (E := Error) 1 false t1) as (t2 & Ht2 & Hb2 & Hv2 & Hc2 & Hf2); [lia|].
  unfold configure_time_slicing. erewrite bind_run by exact Hirq.
  erewrite bind_run by (by apply on_ic_run). erewrite bind_run by (by apply on_ic_run). erewrite bind_run by (by apply on_ic_run).
  erewrite bind_run by (by apply on_ic_run). erewrite bind_run by (by apply on_ic_run).
  erewrite bind_run by (by apply on_timer_run). erewrite bind_run by (by apply on_timer_run).
  erewrite bind_run by done. erewrite bind_run by done. eexists. split; [done|].
  assert (Z.testbit (cntp_ctl t2) 0 = true ∧ Z.testbit (cntp_ctl t2) 1 = false) as [Hb20 Hb21].
  { split; rewrite Hb2 by lia; [|done]. change (0 =? 1) with false. by rewrite Hb1 by lia. }
  cbn [b_timer b_device b_handlers]. split_and!; [done|done|apply lookup_insert_eq| |].
  - unfold asserted, met. cbn [cntp_ctl cntp_cval cntpct set_cval]. rewrite Hb20, Hb21. cbn [andb negb].
    rewrite andb_true_r. change (sign_extend 0) with 0. rewrite Z.mod_small by lia. lia.
  - intros k k' n Hk Hn. destruct (rearm_run k k' (tick n (set_cval t2 ((cntpct t2 + sign_extend 0) mod 2 ^ 64))) Hk)
      as (t' & Ht' & Has); cbn [tick set_cval cntp_ctl cntpct cntfrq]; [lia..|done|done|].
    exists t'. split; [done|]. intros m Hm. rewrite Has by done. cbn [tick set_cval cntfrq]. by rewrite Hf2, Hf1.
Qed.
End spec.

(** *** Witness *)

#[local] Existing Instance concrete_bit_field.
#[local] Existing Instance concrete_bit_vec.
#[local] Existing Instance concrete_big_endian.
#[local] Existing Instance demo_mmio.
#[local] Existing Instance demo_controller_hardware.

(** A tree whose timer has the interrupts 29 and 30. *)
Definition demo_timer_tree : DeviceTree :=
  {| buf := []; strings := bytes_of "interrupts" ++ [0]; mem_map := [];
     structure := pieces_bytes [PBegin []; PBegin (bytes_of "timer");
       PProp 0 (concat (u32_bytes <$> [1; 13; 4; 1; 14; 4])); PEnd; PEnd] ++ u32_bytes 9 |}.

Definition demo_boot_state : Boot demo_gic :=
  Build_Boot {| cntp_ctl := 2; cntp_cval := 0; cntpct := 1000; cntfrq := 62500000 |} demo_device ∅.

Lemma time_slices_witness : ∃ b', configure_time_slicing demo_controller demo_timer_tree demo_boot_state = Ok tt b' ∧
  flag (b_device b') Enabled 30 = true ∧ flag (b_device b') Enabled 29 = false ∧ asserted (b_timer b') = true.
Proof.
  destruct (time_slices demo_controller demo_timer_tree 30 demo_boot_state) as (b' & Hrun & Hf & Ho & _ & Ha & _).
  - vm_compute. reflexivity.
  - done.
  - done.
  - vm_compute. intuition congruence.
  - vm_compute. intuition congruence.
  - exists b'. split_and!; [exact Hrun|exact Hf| |exact Ha]. rewrite (Ho Enabled 29); done.
Defined.
