(* ===== verification/KernelInterrupts.v ===== *)
(** Interrupts ([handle_interrupt] of [kernel/src/exception/handlers.rs]): the handlers of the
    interrupts that the controller reports run in order, and the timer's takes the processor
    from the current thread and starts the next time slice. *)
From stdpp Require Import base list gmap.
From S2P Require Import Prelude BitField Addresses PhysAlloc VirtAlloc Frames PageEntry Paging.
From S2P Require Import PagingTree MapRange UnmapRange PagingIter Spaces PhysBuffer MsgQueue Error Process ProcMem.
From S2P Require Import ProcWorld ProcQueues Gic GicSpec Sched SchedSpec Kernel KernelThreads KernelSpec KernelCommands.
From S2P Require Import KernelTasks KernelProps TimeSlice.

Section interrupts.
Context `{BF : BitField} (kernel_table : PageTable) (R user : Z → Prop) (L : Layouts).
Context {X D : Type} `{Mmio D, BitVec} (ic : GenericInterruptController).
Context (handlers : Z → option (M (Kernel * X) Error unit)).
Implicit Types (k : Kernel) (t : Thread) (x : X) (d : D).
Local Abbreviation kernel_wf := (kernel_wf kernel_table R user L).

(** The controller reports these interrupts, each until it is finished. *)
Inductive acks : D → list Z → D → Prop :=
  | acks_none d d' : ack_interrupt (E := Error) ic d = Ok None d' → acks d [] d'
  | acks_some d d1 d2 d' id l : ack_interrupt (E := Error) ic d = Ok (Some id) d1 →
      finish_interrupt (E := Error) ic id d1 = Ok tt d2 → acks d2 l d' → acks d (id :: l) d'.

Definition handle (id : Z) : M (Kernel * X) Error unit := match handlers id with Some h => h | None => mret tt end.

Lemma interrupt_loop_run d l d' : acks d l d' → ∀ k x s fuel, (length l ≤ fuel)%nat →
  for_each handle l (k, x) = Ok tt s → interrupt_loop ic handlers fuel (k, x, d) = Ok tt (s, d').
Proof.
  induction 1 as [d d' Hack|d d1 d2 d' id l Hack Hfin Hacks IH]; intros k x s fuel Hf Hh.
  - injection Hh as <-. destruct fuel; cbn [interrupt_loop]; rewrite bind_unfold; unfold on_device; cbn; by rewrite Hack.
  - destruct fuel as [|fuel]; [cbn in Hf; lia|]. cbn [interrupt_loop for_each] in *.
    apply bind_Ok in Hh as ([] & [k1 x1] & H1 & Hh). rewrite bind_unfold. unfold on_device at 1. rewrite Hack.
    cbv beta iota. rewrite bind_unfold. unfold handle in H1.
    assert (match handlers id with Some h => on_handler h | None => mret tt end (k, x, d1) = Ok tt (k1, x1, d1)) as ->.
    { destruct (handlers id); [unfold on_handler; by rewrite H1|by injection H1 as <- <-]. }
    rewrite bind_unfold. unfold on_device at 1. rewrite Hfin. apply IH; [cbn in Hf; lia|done].
Qed.

(** The end of the handler: the commands of the interrupted thread's process are taken, and the
    current thread continues. *)
Lemma finish_handler k o x d : kernel_wf k →
  (∀ i, o = Some i → ∃ P, procs (kworld k) !! i = Some P ∧ spawnable k (length (pending k i (send_queues P)))) →
  ∃ k' t, (match o with Some i => on_kernel (dispatch_new_commands i) | None => mret tt end;;
           on_kernel (on_sched resume_current_thread)) (k, x, d) = Ok tt (k', x, d) ∧ kernel_wf k' ∧
    arcs (ksched k') = arcs (ksched k) ∧ current_thread (ksched k') = current_thread (ksched k) ∧
    arcs (ksched k) !! current_thread (ksched k) = Some t ∧ resumes t (cpu (ksched k')).
Proof.
  intros Hwf Ho.
  destruct (tw_valid _ (kw_threads _ _ _ _ _ Hwf) _ (tw_current _ (kw_threads _ _ _ _ _ Hwf))) as (t & _ & _ & Ht & _).
  assert (∃ k1, (match o with Some i => on_kernel (dispatch_new_commands i) | None => mret tt end) (k, x, d) = Ok tt (k1, x, d) ∧
    kernel_wf k1 ∧ ksched k1 = ksched k) as (k1 & Hdis & Hwf1 & Hs1).
  { destruct o as [i|]; [|by exists k]. destruct (Ho i eq_refl) as (P & HP & Hsp).
    destruct (dispatch_run L k i P HP (wf_queues _ _ _ _ _ _ _ Hwf HP) Hsp) as (m & Hrun & _).
    eexists. split; [unfold on_kernel; by rewrite Hrun|]. split; [by eapply wf_of_same; [..|exact Hwf]|done]. }
  erewrite bind_run by exact Hdis. destruct (resume_run (ksched k1) t) as (c & Hres & Hc1 & Hc2 & Hc3 & Hc4 & _); [by rewrite Hs1|].
  exists (set_sched k1 (set_cpu (ksched k1) c)), t.
  split_and!; [unfold on_kernel; by erewrite on_sched_run by exact Hres| |cbn; by rewrite Hs1..|done|done].
  apply resched_wf; [done|apply set_cpu_wf, Hwf1|done|]. intros p u Hu. exists u. by split.
Qed.

(** What pausing the current thread leaves. *)
Lemma paused_wf k t : kernel_wf k → arcs (ksched k) !! current_thread (ksched k) = Some t →
  ∃ t0 s0, pause_current_thread (ksched k) = Ok (current_thread (ksched k)) s0 ∧ like t t0 ∧
    exec_state t0 = save (cpu (ksched k)) ∧ s0 = set_arcs (ksched k) (<[current_thread (ksched k) := t0]> (arcs (ksched k))) ∧
    kernel_wf (set_sched k s0).
Proof.
  intros Hwf Ht. destruct (pause_run _ t Ht) as (t0 & Hl & Hst0 & Hex & Hpause).
  exists t0. eexists. split_and!; [exact Hpause|done|done|done|].
  destruct (tw_valid _ (kw_threads _ _ _ _ _ Hwf) _ (tw_current _ (kw_threads _ _ _ _ _ Hwf))) as (u & st & _ & Hu & Hst & _).
  apply resched_wf; [done| |done|intros q u' Hu'; exact (like_lookup _ _ t t0 q u' Ht Hl Hu')].
  assert (u = t) as -> by congruence.
  eapply touch_wf; [apply Hwf|done|done|by rewrite Hst0|]. eapply (running_or_other (ksched k)); [apply Hwf|apply Hwf|done|done].
Qed.
End interrupts.

Section preemption.
Context `{BF : BitField} (kernel_table : PageTable) (R user : Z → Prop) (L : Layouts).
Context {D : Type} `{Mmio D, BitVec} (ic : GenericInterruptController) (handlers : Z → option Handler).
Implicit Types (k : Kernel) (t : Thread) (d : D).
Local Abbreviation kernel_wf := (kernel_wf kernel_table R user L).

(** C19: the timer interrupt takes the processor from the current thread: its context is saved,
    the scheduler picks a thread that is running, and the processor continues where that thread
    was; the interrupt is acknowledged and finished once, and the timer raises it again exactly a
    thirty-second of the counter's frequency later.  The handler is the one that
    [configure_time_slicing] registers; no other interrupt is pending, and the commands that the
    interrupted process has submitted fit in the queue of new tasks. *)
Theorem timer_preempts k tm d d' irq t fuel : kernel_wf k →
  arcs (ksched k) !! current_thread (ksched k) = Some t → acks ic d [irq] d' → (1 ≤ fuel)%nat →
  handlers irq = Some timer_handler →
  0 ≤ cntpct tm → cntpct tm + 2 ^ 32 < 2 ^ 64 → 0 ≤ cntfrq tm < 2 ^ 32 →
  Z.testbit (cntp_ctl tm) 0 = true → Z.testbit (cntp_ctl tm) 1 = false →
  (∀ i, parent t = Some i → ∃ P, procs (kworld k) !! i = Some P ∧ spawnable k (length (pending k i (send_queues P)))) →
  ∃ k' tm' t', handle_interrupt ic handlers fuel (k, tm, d) = Ok tt (k', tm', d') ∧ kernel_wf k' ∧
    arcs (ksched k') !! current_thread (ksched k') = Some t' ∧ state t' = Some Running ∧ resumes t' (cpu (ksched k')) ∧
    (∃ t1, arcs (ksched k') !! current_thread (ksched k) = Some t1 ∧ exec_state t1 = save (cpu (ksched k))) ∧
    ∀ m, 0 ≤ m → asserted (tick m tm') = bool_decide (cntfrq tm / 32 ≤ m).
Proof.
  intros Hwf Ht Hacks Hf Hh Hp0 Hp1 Hfr Hb0 Hb1 Ho.
  destruct (paused_wf kernel_table R user L k t Hwf Ht) as (t0 & s0 & Hpause & Hl & Hex & Hs0 & Hwf0).
  set (k0 := set_sched k s0) in *.
  assert (on_sched pause_current_thread k = Ok (current_thread (ksched k)) k0) as Hp by by apply on_sched_run.
  assert (arcs s0 !! current_thread (ksched k) = Some t0) as Ht0 by (rewrite Hs0; apply lookup_insert_eq).
  destruct (schedule_wf s0 (kw_threads _ _ _ _ _ Hwf0)) as (s1 & Hsch & Hre & Hrun & j & Hj).
  pose proof Hre as [[Ha Hth _ _] _ _]. set (k1 := set_sched k0 s1).
  assert (kernel_wf k1) as Hwf1.
  { apply resched_wf; [done| |done|intros p u; rewrite Ha; intros Hu; exists u; by split].
    eapply rescheduled_wf; [apply Hwf0|done|]. by apply (tw_queued _ (kw_threads _ _ _ _ _ Hwf0) j). }
  destruct (rearm_run k0 k1 tm) as (tm' & Hhan & Has); [by apply on_sched_run|done..|].
  destruct (finish_handler kernel_table R user L k1 (parent t) tm' d' Hwf1) as (k' & t' & Hfin & Hwf' & Ha' & Hc' & Ht' & Hres);
    [exact Ho|].
  exists k', tm', t'. split_and!; [|done|by rewrite Ha', Hc'| |done| |done].
  - unfold handle_interrupt. rewrite bind_unfold. unfold on_kernel at 1. rewrite Hp. cbv beta iota.
    rewrite bind_unfold. unfold on_kernel at 1. rewrite (on_sched_run _ k0 t0 s0) by (by apply deref_run). cbv beta iota.
    erewrite bind_run. 2: { apply (interrupt_loop_run ic handlers d [irq] d' Hacks k0 tm (k1, tm')); [done|]. cbn [for_each].
      unfold handle. rewrite Hh, bind_unfold. by rewrite Hhan. }
    rewrite (lk_parent _ _ Hl). exact Hfin.
  - destruct Hrun as (u & Hu & Hst). cbn in Ht'. rewrite Ha in Ht'. congruence.
  - exists t0. split; [|done]. rewrite Ha'. cbn. by rewrite Ha.
Qed.
End preemption.

(** *** Witness *)

#[local] Existing Instance concrete_bit_field.
#[local] Existing Instance concrete_bit_vec.

Definition demo_ic : GenericInterruptController :=
  {| distributor_base := 0x8000000; cpu_base := 0x8010000; msi_ctrl := None; dt_interrupt_cells := 3 |}.

(** A controller that reports a list of interrupts. *)
#[local] Instance demo_pending : Mmio (list Z) := {|
  mmio_read p d :=
    if p =? ptr_offset (cpu_base demo_ic) cpu_regs.IAR then
      match d with [] => (INTID_NONE_PENDING, []) | x :: l => (x, l) end
    else (0, d);
  mmio_write _ _ d := d;
|}.

Definition demo_handlers (id : Z) : option Handler := if id =? 30 then Some timer_handler else None.

(** A timer whose interrupt is due. *)
Definition demo_timer : Timer := {| cntp_ctl := 1; cntp_cval := 900; cntpct := 1000; cntfrq := 62500000 |}.

Example timer_preempts_witness : ∃ k k' tm' t', handle_interrupt demo_ic demo_handlers 1 (k, demo_timer, [30]) = Ok tt (k', tm', []) ∧
  arcs (ksched k') !! current_thread (ksched k') = Some t' ∧ resumes t' (cpu (ksched k')) ∧
  asserted (tick 1953124 tm') = false ∧ asserted (tick 1953125 tm') = true.
Proof.
  destruct demo_running as (kt & R & user & k & P & sq & rq & t & [HR Hkh Huser Hwf HP (Hq & Hsq & Hrq & Hroom) (Hth & Ht & Hpar & Htid) Hst Hown Hn Htk (Hs & Hcm & Hes & Hps)]).
  set (k0 := set_sched k (set_current (ksched k) 2)).
  destruct (timer_preempts kt R user demo_layouts demo_ic demo_handlers k0 demo_timer [30] [] 30 t 1)
    as (k' & tm' & t' & Hrun & _ & Ht' & _ & Hres & _ & Has).
  - apply resched_wf; [exact Hwf| |reflexivity|].
    + apply set_current_wf; [apply Hwf|]. rewrite Hth. left.
    + intros p u Hu. exists u. split; [exact Hu|apply like_refl].
  - exact Ht.
  - eapply acks_some; [reflexivity|reflexivity|]. apply acks_none. reflexivity.
  - lia.
  - reflexivity.
  - cbn. lia.
  - cbn. lia.
  - cbn. lia.
  - reflexivity.
  - reflexivity.
  - intros i Hi. rewrite Hpar in Hi. injection Hi as <-. exists P. split; [exact HP|].
    assert (pending k0 1 (send_queues P) = []) as ->.
    { unfold pending, messages. rewrite Hq. cbn [map concat k0 submitted set_sched]. rewrite Hs. reflexivity. }
    unfold spawnable. cbn. rewrite Htk. unfold NEW_TASK_CAPACITY. cbn. lia.
  - exists k0, k', tm', t'. split; [exact Hrun|]. split; [exact Ht'|]. split; [exact Hres|].
    split; (rewrite Has; [reflexivity|lia]).
Defined.
