(* ===== verification/Spawn.v ===== *)
(** Spawning a process ([kernel/src/process/spawn.rs] and [spawn_child] of
    [kernel/src/process/commands.rs]): the binary is loaded into a buffer and parsed, its
    segments are copied into new memory that is mapped for the process, and the process gets
    its first queues, its stack and its main thread.

    The [File] trait, with the registry that opens one, and the ELF parser are arguments. *)
From stdpp Require Import base list gmap.
From S2P Require Import Heap.
From S2P Require Import Prelude BitField Addresses PhysAlloc VirtAlloc Frames PageEntry Paging.
From S2P Require Import PagingTree PagingIter Spaces PhysBuffer MsgQueue Error Process ProcWorld Dtb Sched Kernel.

(** [elf::segment::ProgramHeader] *)
Record ProgramHeader := {
  p_type : Z;
  p_flags : Z;
  p_offset : Z;
  p_vaddr : Z;
  p_filesz : Z;
  p_memsz : Z;
}.

Definition PATH_MAX_LEN : Z := 4096.
Definition FIRST_RECV_QUEUE_ID : Z := 1.
Definition FIRST_SEND_QUEUE_ID : Z := 2.
Definition FIRST_QUEUE_SIZE : Z := 64.

(** *** Bytes *)

Definition page_alignment_offset (seg : ProgramHeader) : Z := Z.land (p_vaddr seg) (PAGE_SIZE - 1).

(** What [load_segment] writes to the memory of a segment, whose bytes were [dest]; [None]
    where an index is out of range. *)
Definition segment_bytes (seg : ProgramHeader) (src_data dest : list Z) : option (list Z) :=
  let src_start := p_offset seg in
  src_end ← uadd src_start (p_filesz seg);
  dest_end ← uadd (page_alignment_offset seg) (p_filesz seg);
  dest' ← (if src_start <? src_end then
             src ← slice src_data src_start src_end;
             copy_into dest (page_alignment_offset seg) dest_end src
           else Some dest);
  if p_filesz seg <? p_memsz seg then fill_range dest' (p_filesz seg) (Z.of_nat (length dest')) 0
  else Some dest'.

(** Bytes at physical addresses. *)
Definition bytes_at (k : Kernel) (pa n : Z) : list Z :=
  (λ j, default 0 (kbytes k !! (pa + Z.of_nat j))) <$> seq 0 (Z.to_nat n).
Fixpoint write_bytes (m : gmap Z Z) (pa : Z) (l : list Z) : gmap Z Z :=
  match l with [] => m | b :: l' => write_bytes (<[pa := b]> m) (pa + 1) l' end.

(** *** Calls and clean-up *)

(** [.context(MemorySnafu { reason })] *)
Definition in_memory {A} (reason : string) (m : KM A) : K A := λ k,
  match m (wmem (kworld k)) with
  | Ok a s => Ok a (set_world k {| wmem := s; procs := procs (kworld k) |})
  | Err e s => Err (Memory reason e) (set_world k {| wmem := s; procs := procs (kworld k) |})
  | Stop w => Stop w
  end.
Arguments in_memory {A} reason%_string_scope m.

(** What is dropped when a block is left by [?], and at its end as well. *)
Definition on_error {A} (cleanup : K unit) (m : K A) : K A := λ k,
  match m k with
  | Err e k' =>
      match cleanup k' with Ok _ k'' => Err e k'' | Err _ _ => Stop Panic | Stop w => Stop w end
  | r => r
  end.
Definition finally {A} (cleanup : K unit) (m : K A) : K A :=
  a ← on_error cleanup m;
  cleanup;;
  mret a.

(** An operation on an allocator that is a local variable. *)
Definition on_allocator {A} (reason : string) (m : VAA A) (v : VirtualAddressAllocator) : K (A * VirtualAddressAllocator) := λ k,
  match m v with
  | Ok a v' => Ok (a, v') k
  | Err e _ => Err (Memory reason e) k
  | Stop w => Stop w
  end.
Arguments on_allocator {A} reason%_string_scope m v.

(** Memory as the kernel reads it, by canonical addresses. *)
Definition kernel_view (k : Kernel) (va : Z) : Z :=
  match VirtualAddress.to_physical_canonical va with
  | Some pa => default 0 (kbytes k !! pa)
  | None => 0
  end.

Section spawn.
Context `{BF : BitField} (kernel_table : PageTable) (L : Layouts).
(** [Registry::open_file] and the methods of [File]; [elf::ElfBytes::minimal_parse] with the
    entry point and the segments of the result *)
Context {File : Type} (open_file : list Z → K File) (file_len : File → Z) (load_pages : File → Z → Z → Z → K unit).
Context (minimal_parse : list Z → option (Z * option (list ProgramHeader))).

Definition drop_buf (buf : PhysicalBuffer) : K unit := on_memory (drop_buffer kernel_table buf).

Definition load_segment (seg : ProgramHeader) (src_data : list Z) (pt : PageTable) (v : VirtualAddressAllocator)
    : K VirtualAddressAllocator :=
  let page_aligned_vaddr := Z.ldiff (p_vaddr seg) (PAGE_SIZE - 1) in
  total ← lift (uadd (p_memsz seg) (page_alignment_offset seg));
  let page_count := div_ceil total PAGE_SIZE in
  dest_memory_segment ← in_memory "allocate process memory segement"
                          (PhysBuffer.alloc kernel_table page_count default_options);
  k ← get;
  let pa := phy_addr dest_memory_segment in
  bytes ← lift (segment_bytes seg src_data (bytes_at k pa (page_count * PAGE_SIZE)));
  put (set_bytes k (write_bytes (kbytes k) pa bytes));;
  '(pa, _) ← on_memory (PhysBuffer.unmap kernel_table dest_memory_segment);
  in_memory "map process segment"
    (with_tabs (map_range pt pa page_aligned_vaddr page_count true
                  {| read_only := negb (Z.testbit (p_flags seg) 1); el0_access := true |}));;
  match VirtAlloc.reserve page_aligned_vaddr page_count v with
  | Ok _ v' => mret v'
  | Err _ _ => panic
  | Stop w => λ _, Stop w
  end.

(** Only [PT_LOAD] segments are considered. *)
Fixpoint load_segments (segs : list ProgramHeader) (src_data : list Z) (pt : PageTable) (v : VirtualAddressAllocator)
    : K VirtualAddressAllocator :=
  match segs with
  | [] => mret v
  | seg :: segs' =>
      if p_type seg =? 1 then v' ← load_segment seg src_data pt v; load_segments segs' src_data pt v'
      else load_segments segs' src_data pt v
  end.

(** [NonZeroU32::new_unchecked(NEXT_PID.fetch_add(1))] *)
Definition take_pid : K Z :=
  k ← get;
  (if next_pid k =? 0 then undefined else mret tt);;
  put (Build_Kernel (ksched k) (kworld k) (processes k) (process_threads k) (exit_states k) (ktasks k)
         (submitted k) (completed k) (kbytes k) ((next_pid k + 1) mod 2 ^ 32));;
  mret (next_pid k).

(** The parameters' buffer becomes memory of the process. *)
Definition map_parameters (pt : PageTable) (v : VirtualAddressAllocator) (parameter_buffer : option (PhysicalBuffer * Z))
    : K (Z * Z * VirtualAddressAllocator) :=
  match parameter_buffer with
  | None => mret (0, 0, v)
  | Some (buf, actual_size) =>
      '(phy, page_count) ← on_memory (PhysBuffer.unmap kernel_table buf);
      '(addr, v') ← on_allocator "allocate virtual addresses for process parameters" (VirtAlloc.alloc page_count) v;
      in_memory "map process parameters"
        (with_tabs (map_range pt phy addr page_count true {| read_only := false; el0_access := true |}));;
      mret (addr, actual_size, v')
  end.

Definition drop_tables (pt : PageTable) : K unit := on_memory (with_tabs (drop_PageTable pt)).

Definition drop_parameters (parameter_buffer : option (PhysicalBuffer * Z)) : K unit :=
  match parameter_buffer with Some (buf, _) => drop_buf buf | None => mret tt end.

(** The process once its image is there: queues, stack, main thread. *)
Definition start_process (id : Z) (pt : PageTable) (v : VirtualAddressAllocator) (entry params_addr params_size : Z)
    (before_launch : Z → K unit) : K Z :=
  k ← get;
  put (set_processes (set_world k {| wmem := wmem (kworld k); procs := <[id :=
         {| pid := id; page_tables := pt; address_space_allocator := v; next_queue_id := FIRST_RECV_QUEUE_ID;
            send_queues := []; recv_queues := [] |}]> (procs (kworld k)) |}) (id :: processes k));;
  '(recv_id, recv_start) ← on_process id (create_completion_queue kernel_table L FIRST_QUEUE_SIZE);
  assert (recv_id =? FIRST_RECV_QUEUE_ID);;
  '(send_id, send_start) ← on_process id (create_submission_queue kernel_table L FIRST_QUEUE_SIZE recv_id);
  assert (send_id =? FIRST_SEND_QUEUE_ID);;
  let stack_page_count := 512 in
  '(stack_vaddr, _) ← on_process id (alloc_memory kernel_table stack_page_count false);
  tid ← on_sched next_thread_id;
  start_regs ← lift (from_args [send_start; FIRST_QUEUE_SIZE; recv_start; FIRST_QUEUE_SIZE; params_addr; params_size]);
  t ← lift (user_thread id tid entry stack_vaddr stack_page_count Normal start_regs);
  main_thread ← on_sched (new_arc t);
  k ← get;
  put (set_process_threads k id (threads_of k id ++ [main_thread]));;
  on_sched (update (λ s, set_threads s (main_thread :: threads s)));;
  before_launch id;;
  on_sched (add_thread main_thread);;
  mret id.

(** The tables of the process with the segments of the binary, and its allocator. *)
Definition load_image (f : File) (src_data : PhysicalBuffer) : K (Z * PageTable * VirtualAddressAllocator * Z) :=
  load_pages f 0 (phy_addr src_data) (pb_page_count src_data);;
  len ← lift (PhysBuffer.len src_data);
  k ← get;
  let bytes := bytes_at k (phy_addr src_data) len in
  match minimal_parse bytes with
  | None => throw (Other "parse ELF binary" None)
  | Some (entry, segments) =>
      id ← take_pid;
      pt ← in_memory "create process page tables" (with_tabs (empty false (id mod 2 ^ 16)));
      let address_space_allocator := VirtAlloc.new PAGE_SIZE (0xffffffffffff / PAGE_SIZE) in
      v ← on_error (drop_tables pt)
            match segments with
            | None => throw (Misc "expected binary to have at least one segment" (Some BadFormat))
            | Some segs => load_segments segs bytes pt address_space_allocator
            end;
      mret (id, pt, v, entry)
  end.

(** Until the parameters' buffer is moved it is dropped on errors, after the local variables. *)
Definition spawn_process (binary_path : list Z) (parameter_buffer : option (PhysicalBuffer * Z))
    (before_launch : Z → K unit) : K Z :=
  '(src_data, (id, pt, v, entry)) ← on_error (drop_parameters parameter_buffer) (
    f ← open_file binary_path;
    src_data ← in_memory "allocate temporary buffer for binary"
                 (PhysBuffer.alloc kernel_table (div_ceil (file_len f) PAGE_SIZE) default_options);
    image ← on_error (drop_buf src_data) (load_image f src_data);
    mret (src_data, image));
  finally (drop_buf src_data) (
    '(addr, size, v') ← on_error (drop_tables pt) (map_parameters pt v parameter_buffer);
    start_process id pt v' entry addr size before_launch).

(** [self.page_tables.mapped_copy_from(ptr, dst)] of process [i]; [fuel] bounds the walk of its
    tables. *)
Definition copy_from_process (fuel : nat) (k : Kernel) (i ptr : Z) : M (list Z) MemoryError unit :=
  p ← lift (procs (kworld k) !! i);
  mapped_copy_from (tables (ktabs (wmem (kworld k)))) (kernel_view k) fuel (page_tables p) ptr.

Definition copy_path (fuel : nat) (i text len : Z) : K (list Z) :=
  assert (len <=? PATH_MAX_LEN);;
  k ← get;
  match copy_from_process fuel k i text (replicate (Z.to_nat len) 0) with
  | Ok _ path => if from_utf8 path then mret path else throw (Utf8 "path")
  | Err e _ => throw (Memory "invalid path slice" e)
  | Stop w => λ _, Stop w
  end.

Definition alloc_zeroed (page_count : Z) (options : PageTableEntryOptions) : K PhysicalBuffer :=
  buf ← in_memory "allocate buffer for process parameters" (PhysBuffer.alloc kernel_table page_count options);
  k ← get;
  len ← lift (PhysBuffer.len buf);
  put (set_bytes k (write_bytes (kbytes k) (phy_addr buf) (replicate (Z.to_nat len) 0)));;
  mret buf.

(** What was copied before an error stays in the buffer. *)
Definition copy_parameters (fuel : nat) (i data len : Z) : K (option (PhysicalBuffer * Z)) :=
  if 0 <? len then
    buf ← alloc_zeroed (div_ceil len PAGE_SIZE) user_options;
    k ← get;
    on_error (drop_buf buf)
      match copy_from_process fuel k i data (replicate (Z.to_nat len) 0) with
      | Ok _ dst => put (set_bytes k (write_bytes (kbytes k) (phy_addr buf) dst))
      | Err e dst =>
          put (set_bytes k (write_bytes (kbytes k) (phy_addr buf) dst));;
          throw (Memory "copy process parameters into new process" e)
      | Stop w => λ _, Stop w
      end;;
    mret (Some (buf, len))
  else mret None.

Definition spawn_child (fuel : nat) (i : Z) (info : SpawnProcess) (cmd recv_qu : Z) : K Z :=
  let '(text, path_len) := binary_path info in
  path ← copy_path fuel i text path_len;
  let '(data, params_len) := parameters info in
  params_buf ← copy_parameters fuel i data params_len;
  spawn_process path params_buf (λ id,
    if send_completion_on_main_thread_exit info then Kernel.spawn (ExitNotice i (inr id) cmd recv_qu) else mret tt).
End spawn.
