(* ===== verification/SpawnSpec.v ===== *)
(** Loading the segments of a binary: what the memory of the new process holds afterwards.

    [load_segment] goes through a buffer of the kernel: the frames are allocated and filled
    while they are mapped for the kernel, taken from it and mapped for the process.  The
    invariant is that of physical buffers ([buffers_inv]) together with the address space of
    the process ([space_ok]). *)
From stdpp Require Import base list gmap.
From S2P Require Import Heap.
From S2P Require Import Prelude BitField Addresses PhysAlloc VirtAlloc Frames PageEntry Paging.
From S2P Require Import PagingTree MapRange UnmapRange PagingIter Spaces PhysBuffer MsgQueue Error Process ProcWorld.
From S2P Require Import ProcMem ProcQueues Dtb Sched Kernel KernelProps Spawn.

(** *** The bytes *)

Lemma write_bytes_other l m pa q : ¬ pa ≤ q < pa + Z.of_nat (length l) → write_bytes m pa l !! q = m !! q.
Proof.
  revert m pa. induction l as [|b l IH]; intros m pa Hq; cbn in *; [done|].
  rewrite IH by lia. by rewrite lookup_insert_ne by lia.
Qed.

Lemma write_bytes_lookup l m pa j b : l !! j = Some b → write_bytes m pa l !! (pa + Z.of_nat j) = Some b.
Proof.
  revert m pa j. induction l as [|b' l IH]; intros m pa [|j] Hj; cbn in *; try done.
  - injection Hj as ->. rewrite write_bytes_other by lia. rewrite Z.add_0_r. apply lookup_insert_eq.
  - rewrite <- (IH (<[pa:=b']> m) (pa + 1) j Hj). f_equal. lia.
Qed.

Lemma copy_into_spec (l : list Z) a b src : 0 ≤ a → a ≤ b ≤ Z.of_nat (length l) → Z.of_nat (length src) = b - a →
  ∃ l', copy_into l a b src = Some l' ∧ length l' = length l ∧
    ∀ k, a ≤ Z.of_nat k < b → l' !! k = src !! (k - Z.to_nat a)%nat.
Proof.
  intros Ha Hb Hs. unfold copy_into. rewrite (proj2 (range_ok_true _ _ _) Hb), Hs, Z.eqb_refl. cbn [andb].
  eexists. split; [done|]. split.
  - rewrite !length_app, length_take, length_drop. lia.
  - intros k Hk. rewrite lookup_app_r by (rewrite length_take; lia).
    rewrite lookup_app_l by (rewrite length_take; lia). f_equal. rewrite length_take. lia.
Qed.

(** The pages of a segment. *)
Definition page_aligned_vaddr (seg : ProgramHeader) : Z := Z.ldiff (p_vaddr seg) (PAGE_SIZE - 1).
Definition segment_pages (seg : ProgramHeader) : Z := div_ceil (p_memsz seg + page_alignment_offset seg) PAGE_SIZE.

(** A header that describes a part of the file, as the ELF format says. *)
Record segment_ok (seg : ProgramHeader) (src_data : list Z) : Prop := {
  sg_vaddr : is_usize (p_vaddr seg);
  sg_offset : 0 ≤ p_offset seg;
  sg_filesz : 0 ≤ p_filesz seg ≤ p_memsz seg;
  sg_file : p_offset seg + p_filesz seg ≤ Z.of_nat (length src_data);
  sg_src : Z.of_nat (length src_data) < U64;
  sg_pages : 1 ≤ segment_pages seg < 512;
}.

(** Byte [j] of the segment as the loader leaves it: zeroes start at [p_filesz] of the pages,
    not of the segment. *)
Definition segment_byte (seg : ProgramHeader) (src_data : list Z) (j : Z) : option Z :=
  if (p_filesz seg <? p_memsz seg) && (p_filesz seg <=? page_alignment_offset seg + j) then Some 0
  else src_data !! Z.to_nat (p_offset seg + j).
(** And as it should be. *)
Definition intended_byte (seg : ProgramHeader) (src_data : list Z) (j : Z) : option Z :=
  if p_filesz seg <=? j then Some 0 else src_data !! Z.to_nat (p_offset seg + j).

Lemma offset_bounds seg : 0 ≤ page_alignment_offset seg < PAGE_SIZE.
Proof.
  unfold page_alignment_offset. change (PAGE_SIZE - 1) with (Z.ones 12). rewrite Z.land_ones by lia.
  change PAGE_SIZE with (2 ^ 12). apply Z.mod_pos_bound. done.
Qed.

Lemma vaddr_split seg : page_aligned_vaddr seg + page_alignment_offset seg = p_vaddr seg.
Proof.
  unfold page_aligned_vaddr, page_alignment_offset. change (PAGE_SIZE - 1) with (Z.ones 12).
  rewrite Z.land_ones, Z.ldiff_ones_r, Z.shiftl_mul_pow2, Z.shiftr_div_pow2 by lia.
  pose proof (Z.div_mod (p_vaddr seg) (2 ^ 12)). lia.
Qed.

Lemma pages_enough seg :
  p_memsz seg + page_alignment_offset seg ≤ segment_pages seg * PAGE_SIZE.
Proof.
  pose proof (div_ceil_spec (p_memsz seg + page_alignment_offset seg) PAGE_SIZE ltac:(plia)).
  unfold segment_pages. lia.
Qed.

Lemma pages_cover seg j : 0 ≤ j < p_memsz seg →
  0 ≤ page_alignment_offset seg + j < segment_pages seg * PAGE_SIZE.
Proof.
  intros Hj. pose proof (offset_bounds seg). pose proof (pages_enough seg). lia.
Qed.

Lemma segment_bytes_run seg src dest : segment_ok seg src →
  Z.of_nat (length dest) = segment_pages seg * PAGE_SIZE →
  ∃ out, segment_bytes seg src dest = Some out ∧ length out = length dest ∧
    ∀ j, 0 ≤ j < p_memsz seg → out !! Z.to_nat (page_alignment_offset seg + j) = segment_byte seg src j.
Proof.
  intros Hs Hd. pose proof (offset_bounds seg) as Ho. pose proof Hs as [Hv Hoff [Hf0 Hf1] Hfile Hsrc Hpages].
  assert (page_alignment_offset seg + p_filesz seg ≤ Z.of_nat (length dest)) as Hend.
  { rewrite Hd. pose proof (pages_enough seg). lia. }
  unfold segment_bytes. rewrite !uadd_ok by plia. cbn [mbind option_bind].
  assert (∃ d1, (if p_offset seg <? p_offset seg + p_filesz seg then
             s ← slice src (p_offset seg) (p_offset seg + p_filesz seg);
             copy_into dest (page_alignment_offset seg) (page_alignment_offset seg + p_filesz seg) s
           else Some dest) = Some d1 ∧ length d1 = length dest ∧
      ∀ j, 0 ≤ j < p_filesz seg → d1 !! Z.to_nat (page_alignment_offset seg + j) = src !! Z.to_nat (p_offset seg + j))
    as (d1 & E1 & Hl1 & Hb1).
  { destruct (Z.ltb_spec (p_offset seg) (p_offset seg + p_filesz seg)); [|exists dest; split_and!; [done..|lia]].
    destruct (slice src (p_offset seg) (p_offset seg + p_filesz seg)) as [s|] eqn:Es.
    2: { unfold slice in Es. by rewrite (proj2 (range_ok_true _ _ _)) in Es by lia. }
    destruct (slice_spec _ _ _ _ Hoff Es) as (_ & Hls & Hlk). cbn [mbind option_bind].
    destruct (copy_into_spec dest (page_alignment_offset seg) (page_alignment_offset seg + p_filesz seg) s)
      as (d1 & -> & Hl & Hk); [lia..|]. exists d1. split_and!; [done..|]. intros j Hj.
    rewrite Hk, Hlk by lia. f_equal. lia. }
  rewrite E1. cbn [mbind option_bind]. unfold segment_byte.
  destruct (Z.ltb_spec (p_filesz seg) (p_memsz seg)) as [Hlt|Hge]; cbn [andb].
  2: { exists d1. split_and!; [done..|]. intros j Hj. apply Hb1. lia. }
  destruct (fill_range_Some d1 (p_filesz seg) (Z.of_nat (length d1)) 0) as [d2 E2]; [lia|]. exists d2.
  destruct (fill_range_spec _ _ _ _ _ Hf0 E2) as (_ & Hl2 & Hb2). split_and!; [done|lia|]. intros j Hj.
  rewrite Hb2. pose proof (pages_cover seg j Hj).
  destruct (Z.leb_spec (p_filesz seg) (page_alignment_offset seg + j)).
  - by rewrite decide_True by lia.
  - rewrite decide_False by lia. apply Hb1. lia.
Qed.

(** *** Address spaces *)

Lemma div_ceil_pages x : x mod PAGE_SIZE = 0 → div_ceil x PAGE_SIZE * PAGE_SIZE = x.
Proof. intros H. unfold div_ceil. rewrite H, Z.eqb_refl. pdlia. Qed.

(** The sizes of what is left of a block before and after a range. *)
Lemma pieces_exact b a n : a mod PAGE_SIZE = 0 → block_aligned b →
  div_ceil (a - address b) PAGE_SIZE * PAGE_SIZE = a - address b ∧
  div_ceil (address b + size b * PAGE_SIZE - (a + n * PAGE_SIZE)) PAGE_SIZE * PAGE_SIZE
    = address b + size b * PAGE_SIZE - (a + n * PAGE_SIZE).
Proof. intros Ha Hb. unfold block_aligned in Hb. split; apply div_ceil_pages; pdlia. Qed.

(** [reserve] keeps the free blocks aligned and in order, where no block starts at the range. *)
Lemma reserve_loop_keeps a n l l' : a mod PAGE_SIZE = 0 → 1 ≤ n → Forall block_wf l → Forall block_aligned l →
  sorted_blocks l → Forall (λ b, address b ≠ a) l → reserve_loop a n (a + n * PAGE_SIZE) l = Some (Some l') →
  Forall block_aligned l' ∧ sorted_blocks l' ∧ ∀ lo, Forall (λ b, lo ≤ address b) l → Forall (λ b, lo ≤ address b) l'.
Proof.
  intros Ha Hn Hwf Hal Hs. revert l' Hwf Hal. induction Hs as [|b l Hs IH Hhd]; intros l' Hwf Hal Hne; cbn; [done|].
  apply Forall_cons in Hwf as [Hw Hwf]. apply Forall_cons in Hal as [Hb Hal]. apply Forall_cons in Hne as [Hne Hnes].
  destruct (block_wf_bytes b Hw) as (-> & _ & Hback). cbn [mbind option_bind]. rewrite Hback. pose proof Hw as (? & ? & ?).
  destruct ((address b <=? a) && (a + n * PAGE_SIZE <=? address b + size b * PAGE_SIZE)) eqn:Ein.
  - replace (address b =? a) with false by lia.
    destruct (Z.eqb_spec (address b + size b * PAGE_SIZE) (a + n * PAGE_SIZE)) as [Hend|Hend].
    + destruct (usub (size b) n) as [sz|] eqn:Es; cbn; [|done]. apply usub_Some in Es as [-> ?]. intros [= <-]. split_and!.
      * by constructor.
      * constructor; [done|]. eapply Forall_impl; [exact Hhd|]. cbn. intros c Hc. plia.
      * intros lo [? ?]%Forall_cons. by constructor.
    + rewrite !(proj2 (usub_Some _ _ _)) by (split; [done|lia]). cbn. intros [= <-].
      split_and!.
      * repeat constructor; [done|unfold block_aligned; cbn; by rewrite Z.mod_add by plia|done].
      * destruct (pieces_exact b a n Ha Hb) as [E1 E2].
        constructor; [constructor; [done|]|constructor]; cbn; rewrite ?E1, ?E2; [|plia|].
        all: eapply Forall_impl; [exact Hhd|]; cbn; intros c Hc; plia.
      * intros lo [? ?]%Forall_cons. repeat constructor; cbn; [done|plia|done].
  - destruct (a + n * PAGE_SIZE <=? address b); [done|].
    destruct (reserve_loop a n (a + n * PAGE_SIZE) l) as [[r|]|]; cbn; [|done|done]. intros [= <-].
    destruct (IH r Hwf Hal Hnes eq_refl) as (Hr1 & Hr2 & Hr3). split_and!.
    + by constructor.
    + constructor; [done|]. by apply Hr3.
    + intros lo [? ?]%Forall_cons. constructor; [done|]. by apply Hr3.
Qed.

(** A free block that holds the range, from before its start. *)
Definition has_block (l : list FreeBlock) (a n : Z) : Prop := ∃ b, b ∈ l ∧ address b < a ∧ contains b a n.

(** Another range, apart from the one that is taken, is still inside a block. *)
Lemma reserve_loop_other a n l l' a' n' : a mod PAGE_SIZE = 0 → Forall block_wf l → Forall block_aligned l →
  Forall (λ b, address b ≠ a) l → reserve_loop a n (a + n * PAGE_SIZE) l = Some (Some l') →
  a' + n' * PAGE_SIZE ≤ a ∨ a + n * PAGE_SIZE < a' → 1 ≤ n' → has_block l a' n' → has_block l' a' n'.
Proof.
  intros Ha Hwf Hal. revert l' Hwf Hal. induction l as [|b l IH]; intros l' Hwf Hal Hne; cbn; [done|].
  apply Forall_cons in Hwf as [Hw Hwf]. apply Forall_cons in Hal as [Hb Hal]. apply Forall_cons in Hne as [Hne Hnes].
  destruct (block_wf_bytes b Hw) as (-> & _ & Hback). cbn [mbind option_bind]. rewrite Hback.
  intros Hl' Hap Hn' (c & Hc & Hlt & Hcon). revert Hl'.
  destruct ((address b <=? a) && (a + n * PAGE_SIZE <=? address b + size b * PAGE_SIZE)) eqn:Ein.
  - replace (address b =? a) with false by lia. apply elem_of_cons in Hc as [->|Hc].
    2: { destruct (_ =? _); [destruct (usub (size b) n); cbn; [|done]|destruct (usub a _); cbn; [|done]; destruct (usub _ _); cbn; [|done]];
           intros [= <-]; exists c; split; [by do 1 right|done|by do 2 right|done]. }
    destruct Hcon as [Hc1 Hc2].
    destruct (Z.eqb_spec (address b + size b * PAGE_SIZE) (a + n * PAGE_SIZE)) as [Hend|Hend].
    + destruct (usub (size b) n) as [sz|] eqn:Es; cbn; [|done]. apply usub_Some in Es as [-> ?]. intros [= <-].
      eexists. split; [by left|]. unfold contains. cbn. plia.
    + rewrite !(proj2 (usub_Some _ _ _)) by (split; [done|lia]). cbn. intros [= <-].
      destruct (pieces_exact b a n Ha Hb) as [E1 E2].
      destruct Hap; [eexists; split; [by left|]|eexists; split; [by right; left|]]; unfold contains; cbn; rewrite ?E1, ?E2; lia.
  - destruct (a + n * PAGE_SIZE <=? address b); [done|].
    destruct (reserve_loop a n (a + n * PAGE_SIZE) l) as [[r|]|]; cbn; [|done|done]. intros [= <-].
    apply elem_of_cons in Hc as [->|Hc]; [exists b; split; [by left|done]|].
    destruct (IH r Hwf Hal Hnes eq_refl Hap Hn') as (d & Hd & ?); [by exists c|]. exists d. split; [by right|done].
Qed.

Lemma no_start_inside l a n : sorted_blocks l → Forall block_wf l → 1 ≤ n → has_block l a n → Forall (λ b, address b ≠ a) l.
Proof.
  intros Hs Hwf Hn (b & Hb & Hlt & [_ Hc]). induction Hs as [|c l Hs IH Hhd]; [constructor|].
  apply Forall_cons in Hwf as [(? & ? & ?) Hwf]. apply elem_of_cons in Hb as [->|Hb]; constructor.
  - lia.
  - eapply Forall_impl; [exact Hhd|]. cbn. intros d Hd. plia.
  - rewrite Forall_forall in Hhd. specialize (Hhd b Hb). cbn in Hhd. plia.
  - by apply IH.
Qed.

Section loading.
Context `{BF : BitField} (kernel_table : PageTable) (R : Z → Prop).
Context (HR : R (level0_table kernel_table)).
(** Frames that hold other data. *)
Context (Y : Z → Prop).
(** The table of the new process. *)
Context (pt : PageTable) (Hpt : R (level0_table pt)) (Hne : level0_table pt ≠ level0_table kernel_table).
Implicit Types (m : KernelMem) (v : VirtualAddressAllocator) (k : Kernel).
Local Abbreviation kroot := (level0_table kernel_table).
Local Abbreviation buffers_inv := (buffers_inv kernel_table R Y).

Lemma space_reserve v T a n : space_ok pt v T → sorted_blocks (free_list v) → a mod PAGE_SIZE = 0 → 1 ≤ n →
  has_block (free_list v) a n →
  ∃ v', VirtAlloc.reserve a n v = Ok tt v' ∧ space_ok pt v' T ∧ fresh_range pt v' T a n ∧
    sorted_blocks (free_list v') ∧
    ∀ a' n', a' + n' * PAGE_SIZE ≤ a ∨ a + n * PAGE_SIZE < a' → 1 ≤ n' →
      has_block (free_list v) a' n' → has_block (free_list v') a' n'.
Proof.
  intros [Hwf Hal Honce Hfree] Hs Ha Hn Hhas. pose proof (no_start_inside _ _ _ Hs Hwf Hn Hhas) as Hnot.
  destruct Hhas as (b & Hb & Hlt & Hcon).
  pose proof Hwf as Hbw. unfold vaa_wf in Hbw. rewrite Forall_forall in Hbw. destruct (Hbw b Hb) as (Hb0 & Hb1 & Hb2).
  pose proof Hcon as [Hc1 Hc2].
  destruct (reserve_loop_spec a n (free_list v) b) as (l' & Hl' & Hw' & Hcov); try done; [lia|].
  destruct (reserve_loop_keeps a n _ l' Ha Hn Hwf Hal Hs Hnot Hl') as (Hal' & Hs' & _).
  exists {| free_list := l' |}. split.
  { unfold VirtAlloc.reserve. run_step. erewrite bind_run.
    2: { apply lift_Ok. split; [apply umul_Some; split; [done|plia]|done]. }
    cbv zeta. unfold VirtualAddress.add. rewrite wrapping_add_small by plia. rewrite Hl'. by run_step. }
  assert (∀ p, a ≤ p < a + n * PAGE_SIZE → free_cover v p = 1 ∧ free_cover {| free_list := l' |} p = 0) as Hin.
  { intros p Hp. specialize (Hcov p). specialize (Honce p). unfold free_cover in *. cbn [free_list] in *.
    pose proof (cover_count_nonneg (map range_of l') p). unfold covers in Hcov. cbn in Hcov.
    rewrite decide_True in Hcov by done. lia. }
  assert (∀ p, free_cover {| free_list := l' |} p ≤ free_cover v p) as Hle.
  { intros p. specialize (Hcov p). pose proof (covers_bound p (a, n)). unfold free_cover. cbn. lia. }
  split_and!.
  - split; [done|done| |].
    + intros p. specialize (Hle p). specialize (Honce p). lia.
    + intros p Hp. apply Hfree. specialize (Hle p). lia.
  - destruct (Hfree a) as (Hua & Hta & _); [destruct (Hin a ltac:(plia)); lia|].
    destruct (Hfree (a + n * PAGE_SIZE - 1)) as (_ & Ht2 & _); [destruct (Hin (a + n * PAGE_SIZE - 1) ltac:(plia)); lia|].
    pose proof (tag_ok_unique _ _ _ Hta Ht2) as Heq. split; [split|]; try done.
    + unfold tag_of in *. dlia.
    + plia.
    + intros p Hp. by apply Hin.
    + intros p Hp. apply Hfree. destruct (Hin p Hp). lia.
  - done.
  - intros a' n' Hap Hn' Hb'. by apply (reserve_loop_other a n (free_list v) l').
Qed.

(** *** The kernel's buffer does not touch other tables *)

Definition untouched (T T' : gmap Z LevelTable) : Prop :=
  ∀ r va, R r → r ≠ kroot → is_usize va → leaf T' r (idx va) = leaf T r (idx va).

Lemma alloc_untouched m live kept n options b m' : buffers_inv m live kept → 1 ≤ n < 512 →
  PhysBuffer.alloc kernel_table n options m = Ok b m' →
  pb_page_count b = n ∧ untouched (tables (ktabs m)) (tables (ktabs m')) ∧
  0 ≤ phy_addr b ∧ phy_addr b mod PAGE_SIZE = 0 ∧ phy_addr b + n * PAGE_SIZE ≤ 2 ^ 48.
Proof.
  intros Hinv Hn Ha. pose proof Hinv as [Hf Hsp _ _ _ _ _]. revert Ha. unfold PhysBuffer.alloc.
  rewrite bind_unfold. unfold with_pma, with_tabs, with_frames.
  destruct (alloc_contig n (frames (ktabs m))) as [a s'|e s'|w] eqn:Ha; [|done|done].
  rewrite bind_unfold. unfold with_kva. cbn [ktabs kva].
  destruct (space_alloc _ _ _ n Hsp ltac:(lia)) as [(va & v' & -> & _ & Hfr & _)| ->]; [|done].
  destruct (alloc_contig_frames _ _ _ _ (forest_frames _ _ _ Hf) Ha) as (_ & Hwf' & Hal & Ha0 & Hae & Hno & Hiff).
  assert (forest R (λ q, data Y live kept q ∨ frames_of a n q) (set_frames (ktabs m) s')) as Hf1.
  { apply (forest_take R (data Y live kept) (frames_of a n)); try done.
    intros q Hq. split; [apply Hq|by apply Hno]. }
  pose proof (map_fresh R _ _ kernel_table v' a va n options Hf1 HR Hfr Ha0 Hal Hae ltac:(lia)
    (small_aligned _ _ n ltac:(lia))) as Ho.
  unfold set_frames in Ho. rewrite bind_unfold. unfold expect_ok. cbn [ktabs kva].
  destruct (map_range _ _ _ _ _ _ _) as [[] s2|e s2|w]; [|done|done]. intros [= <- <-]. split; [done|].
  split; [|done]. destruct Ho as (_ & Hm & _). intros r p Hr Hrne Hp. cbn. specialize (Hm r p Hr Hp).
  rewrite decide_False in Hm by tauto. by apply Hm.
Qed.

Lemma unmap_untouched m live b kept : buffers_inv m (b :: live) kept →
  ∃ m', unmap kernel_table b m = Ok (phys_of b) m' ∧ buffers_inv m' live (phys_of b :: kept) ∧
    untouched (tables (ktabs m)) (tables (ktabs m')).
Proof.
  intros Hinv. destruct (unmap_virtual_run kernel_table R HR Y m [] b live kept Hinv) as (m' & Hrun & Hinv').
  exists m'. split; [unfold unmap; by erewrite bind_run by exact Hrun|]. split; [done|].
  pose proof Hinv as [Hf _ Hruns _ _ _ [Hb _]%Forall_cons]. pose proof Hb as [Htk [regions Hme] _].
  pose proof Hruns as [[Hn _] _]%Forall_cons. cbn in Hn.
  destruct (unmap_mapped R _ _ kernel_table (vir_addr b) (pb_page_count b) regions Hf HR)
    as (s1 & Hrun1 & _ & _ & Hu); [apply Htk|lia|apply Htk|done|].
  revert Hrun. unfold unmap_virtual, unmap_range, with_tabs, with_kva. rewrite bind_unfold.
  rewrite bind_unfold, Hrun1. cbn [mret M_ret ktabs kva].
  destruct (VirtAlloc.free _ _ _) as [[] v'|e v'|w]; [|done|done]. intros [= <-].
  intros r p Hr Hrne Hp. cbn. rewrite (Hu r p Hr Hp) by done. by rewrite decide_False by tauto.
Qed.

Lemma space_untouched v T T' : space_ok pt v T → untouched T T' → space_ok pt v T'.
Proof.
  intros [Hwf Hal Honce Hfree] Hu. split; [done..|]. intros p Hp. destruct (Hfree p Hp) as (H1 & H2 & H3).
  split_and!; [done..|]. by rewrite Hu.
Qed.

(** *** One segment *)

Definition mem_of k : KernelMem := wmem (kworld k).
Definition tables_of k : gmap Z LevelTable := tables (ktabs (mem_of k)).
Definition segment_options (seg : ProgramHeader) : PageTableEntryOptions :=
  {| read_only := negb (Z.testbit (p_flags seg) 1); el0_access := true |}.

Lemma mapped_inv m live kept v pa va n options j t : buffers_inv m live kept → taken_range pt v va n → 0 ≤ j ≤ n →
  mapped R pt pa va options (tables (ktabs m)) (tables t) 0 j → forest R (data Y live kept) t →
  buffers_inv {| ktabs := t; kva := kva m |} live kept.
Proof.
  intros [Hf Hsp Hruns Honce Hother Haddr Hlive] Htk Hj Hm Hf'. split; cbn [ktabs kva]; try done.
  - eapply space_mapped; [exact Hsp|done|exact Hm|apply Htk|]. intros Heq. by symmetry in Heq.
  - eapply Forall_impl; [exact Hlive|]. intros b Hb. eapply buffer_ok_keep; [exact Hb|]. cbn. intros p Hp.
    split; [by apply (tr_taken _ _ _ _ (bk_taken _ _ _ Hb))|].
    destruct (taken_in _ _ _ _ _ (bk_taken _ _ _ Hb) Hp) as [Hu _].
    specialize (Hm kroot p HR Hu). rewrite decide_False in Hm; [apply Hm|]; intros Heq; [by symmetry in Heq|].
    by destruct Heq as [Heq _]; symmetry in Heq.
Qed.

(** The bytes of frames in use stay. *)
Definition bytes_kept k k' (live : list PhysicalBuffer) (kept : list (Z * Z)) : Prop :=
  ∀ q d, data Y live kept q → 0 ≤ d < PAGE_SIZE → kbytes k' !! (q + d) = kbytes k !! (q + d).

(** The segment is in memory, in frames of its own. *)
Definition loaded_at k (base : Z) (seg : ProgramHeader) (src : list Z) : Prop :=
  ∀ j, 0 ≤ j < p_memsz seg → is_usize (p_vaddr seg + j) ∧
    translate (tables_of k) (high_addresses pt) (level0_table pt) (p_vaddr seg + j)
      = Some (base + (page_alignment_offset seg + j), negb (Z.testbit (p_flags seg) 1), true) ∧
    kbytes k !! (base + (page_alignment_offset seg + j)) = segment_byte seg src j.

(** A new buffer's frames hold nothing else. *)
Lemma fresh_frames m b live kept q d : buffers_inv m (b :: live) kept → data Y live kept q → 0 ≤ d < PAGE_SIZE →
  ¬ phy_addr b ≤ q + d < phy_addr b + pb_page_count b * PAGE_SIZE.
Proof.
  intros [Hf _ Hruns Honce Hother _ _] Hq Hd Hin. unfold runs in Honce, Hother, Hruns. cbn [map app] in *.
  assert (q mod PAGE_SIZE = 0) as Hqa.
  { apply (forest_data R _ _ q Hf). apply data_cons. by left. }
  apply Forall_cons in Hruns as [[_ Hba] _]. cbn in Hba.
  assert (covers q (phys_of b) = 1) as Hc.
  { unfold covers, phys_of. cbn. rewrite decide_True; [done|]. pdlia. }
  destruct Hq as [HY|(r & Hr & _ & Hq)].
  - specialize (Hother q HY). rewrite cover_count_cons, Hc in Hother.
    pose proof (cover_count_nonneg (map phys_of live ++ kept) q). lia.
  - specialize (Honce q). rewrite cover_count_cons, Hc in Honce.
    apply list_elem_of_lookup_1 in Hr as [i Hi]. pose proof (cover_count_lookup _ i r q Hi) as Hl.
    unfold runs, covers in Hl. rewrite decide_True in Hl by done. lia.
Qed.

Record segment_done k v (live : list PhysicalBuffer) (kept : list (Z * Z)) (seg : ProgramHeader) (src : list Z)
    (base : Z) k' v' : Prop := {
  sd_inv : buffers_inv (mem_of k') live ((base, segment_pages seg) :: kept);
  sd_space : space_ok pt v' (tables_of k');
  sd_sorted : sorted_blocks (free_list v');
  sd_blocks : ∀ a n, a + n * PAGE_SIZE ≤ page_aligned_vaddr seg ∨
      page_aligned_vaddr seg + segment_pages seg * PAGE_SIZE < a → 1 ≤ n →
    has_block (free_list v) a n → has_block (free_list v') a n;
  sd_loaded : loaded_at k' base seg src;
  sd_bytes : bytes_kept k k' live kept;
  sd_others : ∀ r va, R r → r ≠ kroot → is_usize va → (r = level0_table pt → tag_ok (high_addresses pt) (tag_of va) = true) →
    ¬ (r = level0_table pt ∧ page_aligned_vaddr seg ≤ va < page_aligned_vaddr seg + segment_pages seg * PAGE_SIZE) →
    leaf (tables_of k') r (idx va) = leaf (tables_of k) r (idx va);
}.

Lemma aligned_vaddr seg : page_aligned_vaddr seg mod PAGE_SIZE = 0.
Proof.
  unfold page_aligned_vaddr. change (PAGE_SIZE - 1) with (Z.ones 12).
  rewrite Z.ldiff_ones_r, Z.shiftl_mul_pow2 by lia. change (2 ^ 12) with PAGE_SIZE. by rewrite Z.mod_mul by plia.
Qed.

Lemma bytes_at_length k pa n : 0 ≤ n → Z.of_nat (length (bytes_at k pa n)) = n.
Proof. intros Hn. unfold bytes_at. rewrite length_fmap, length_seq. lia. Qed.

(** What follows the allocation of the buffer: the bytes are written and the buffer is
    taken from the kernel. *)
Definition with_mem k m : Kernel := set_world k {| wmem := m; procs := procs (kworld k) |}.

Lemma in_memory_run {A} reason (f : KM A) k :
  in_memory reason f k = match f (mem_of k) with
                         | Ok a m => Ok a (with_mem k m) | Err e m => Err (Memory reason e) (with_mem k m) | Stop w => Stop w end.
Proof. done. Qed.

Lemma fill_run k m1 live kept b seg src : buffers_inv m1 (b :: live) kept → segment_ok seg src →
  pb_page_count b = segment_pages seg →
  ∃ out m2, segment_bytes seg src (bytes_at (with_mem k m1) (phy_addr b) (segment_pages seg * PAGE_SIZE)) = Some out ∧
    Z.of_nat (length out) = segment_pages seg * PAGE_SIZE ∧
    (∀ j, 0 ≤ j < p_memsz seg → out !! Z.to_nat (page_alignment_offset seg + j) = segment_byte seg src j) ∧
    unmap kernel_table b m1 = Ok (phys_of b) m2 ∧ buffers_inv m2 live (phys_of b :: kept) ∧
    untouched (tables (ktabs m1)) (tables (ktabs m2)).
Proof.
  intros Hinv Hseg Hb. pose proof (sg_pages _ _ Hseg) as Hp.
  pose proof (bytes_at_length (with_mem k m1) (phy_addr b) (segment_pages seg * PAGE_SIZE) ltac:(plia)) as Hl.
  destruct (segment_bytes_run seg src _ Hseg Hl) as (out & Hout & Hlo & Hbytes).
  destruct (unmap_untouched _ _ _ _ Hinv) as (m2 & Hun & Hinv2 & Hu). exists out, m2.
  split_and!; try done. by rewrite Hlo.
Qed.

Lemma segment_done_intro k v live kept seg src b m1 m2 t v' out : segment_ok seg src →
  pb_page_count b = segment_pages seg → buffers_inv m1 (b :: live) kept →
  buffers_inv m2 live (phys_of b :: kept) → untouched (tables_of k) (tables (ktabs m1)) →
  untouched (tables (ktabs m1)) (tables (ktabs m2)) → Z.of_nat (length out) = segment_pages seg * PAGE_SIZE →
  (∀ j, 0 ≤ j < p_memsz seg → out !! Z.to_nat (page_alignment_offset seg + j) = segment_byte seg src j) →
  space_ok pt v' (tables (ktabs m2)) → sorted_blocks (free_list v') →
  fresh_range pt v' (tables (ktabs m2)) (page_aligned_vaddr seg) (segment_pages seg) →
  (∀ a n, a + n * PAGE_SIZE ≤ page_aligned_vaddr seg ∨ page_aligned_vaddr seg + segment_pages seg * PAGE_SIZE < a →
    1 ≤ n → has_block (free_list v) a n → has_block (free_list v') a n) →
  forest R (data Y live (phys_of b :: kept)) t →
  mapped R pt (phy_addr b) (page_aligned_vaddr seg) (segment_options seg) (tables (ktabs m2)) (tables t) 0 (segment_pages seg) →
  segment_done k v live kept seg src (phy_addr b)
    (with_mem (with_mem (set_bytes (with_mem k m1) (write_bytes (kbytes k) (phy_addr b) out)) m2)
       {| ktabs := t; kva := kva m2 |}) v'.
Proof.
  intros Hseg Hbn Hinv1 Hinv2 Hu1 Hu2 Hlo Hbytes Hsp Hs Hfr Hblocks Hf Hm.
  pose proof (sg_pages _ _ Hseg) as Hp. pose proof Hfr as [Htk _]. split.
  - rewrite <- Hbn.
    by apply (mapped_inv m2 live (phys_of b :: kept) v' (phy_addr b) (page_aligned_vaddr seg) (segment_pages seg)
      (segment_options seg) (segment_pages seg)); [| |lia|..].
  - change (space_ok pt v' (tables t)). eapply space_mapped; [exact Hsp|done|exact Hm|apply Htk|].
    intros _. split; [done|]. apply Htk.
  - done.
  - done.
  - intros j Hj. pose proof (pages_cover seg j Hj). pose proof (vaddr_split seg). split_and!.
    + apply (taken_in _ _ _ _ (p_vaddr seg + j) Htk). lia.
    + change (tables_of _) with (tables t).
      rewrite (translate_fresh R pt v' (phy_addr b) (page_aligned_vaddr seg) (segment_options seg) (tables (ktabs m2)) _
        (segment_pages seg) (segment_pages seg)); try done; [|lia..].
      cbn [segment_options read_only el0_access]. do 3 f_equal. lia.
    + change (kbytes _) with (write_bytes (kbytes k) (phy_addr b) out). rewrite <- (Hbytes j Hj).
      destruct (lookup_lt_is_Some_2 out (Z.to_nat (page_alignment_offset seg + j)) ltac:(lia)) as [x Hx].
      rewrite Hx. apply (write_bytes_lookup out (kbytes k) (phy_addr b)) in Hx. rewrite <- Hx. f_equal. lia.
  - intros q d Hq Hd. change (kbytes (with_mem _ _)) with (write_bytes (kbytes k) (phy_addr b) out).
    apply write_bytes_other. rewrite Hlo, <- Hbn. by eapply fresh_frames.
  - intros r va Hr Hrk Hva Htag Hout. change (leaf (tables t) r (idx va) = leaf (tables_of k) r (idx va)).
    rewrite <- Hu1, <- Hu2 by done.
    apply (mapped_leaf_other R pt v' (phy_addr b) (page_aligned_vaddr seg) (segment_options seg) _ _ (segment_pages seg));
      try done. intros Heq. eapply tag_ok_unique; [by apply Htag|apply Htk].
Qed.

(** [load_segment] does what its calls do: it fails if there is no memory for the buffer or
    for the tables of the process, and otherwise the segment is loaded. *)
Lemma load_segment_run k v live kept seg src : buffers_inv (mem_of k) live kept →
  space_ok pt v (tables_of k) → sorted_blocks (free_list v) → segment_ok seg src →
  has_block (free_list v) (page_aligned_vaddr seg) (segment_pages seg) →
  match PhysBuffer.alloc kernel_table (segment_pages seg) default_options (mem_of k) with
  | Stop _ => load_segment kernel_table seg src pt v k = Stop Panic
  | Err e m => load_segment kernel_table seg src pt v k = Err (Memory "allocate process memory segement" e) (with_mem k m) ∧
      buffers_inv m live kept
  | Ok b m1 => ∃ m2, unmap kernel_table b m1 = Ok (phys_of b) m2 ∧
      match map_range pt (phy_addr b) (page_aligned_vaddr seg) (segment_pages seg) true (segment_options seg) (ktabs m2) with
      | Ok _ t => ∃ v' k', load_segment kernel_table seg src pt v k = Ok v' k' ∧
          segment_done k v live kept seg src (phy_addr b) k' v'
      | Err e t => ∃ k', load_segment kernel_table seg src pt v k = Err (Memory "map process segment" e) k' ∧
          buffers_inv (mem_of k') live (phys_of b :: kept)
      | Stop _ => False
      end
  end.
Proof.
  intros Hinv Hsp Hs Hseg Hhas. pose proof (sg_pages _ _ Hseg) as Hp. pose proof (pages_enough seg) as Hen.
  pose proof (offset_bounds seg) as Hob.
  set (n := segment_pages seg) in *. set (a := page_aligned_vaddr seg) in *.
  unfold load_segment. change (Z.ldiff (p_vaddr seg) (PAGE_SIZE - 1)) with a.
  erewrite bind_run by (apply lift_Ok; split; [apply uadd_ok; plia|done]).
  change (div_ceil (p_memsz seg + page_alignment_offset seg) PAGE_SIZE) with n.
  rewrite bind_unfold, in_memory_run.
  pose proof (alloc_outcome kernel_table R HR Y (mem_of k) live kept n default_options Hinv ltac:(lia) ltac:(plia)
    (small_buffer n _ ltac:(lia))) as Hal.
  destruct (PhysBuffer.alloc kernel_table n default_options (mem_of k)) as [b m1|e m|w] eqn:Ealloc; [|by split|by subst w].
  destruct (alloc_untouched _ _ _ _ _ _ _ Hinv Hp Ealloc) as (Hbn & Hu1 & Hpa0 & Hpaa & Hpae).
  destruct (fill_run k m1 live kept b seg src Hal Hseg Hbn) as (out & m2 & Hout & Hlo & Hbytes & Hun & Hinv2 & Hu2).
  exists m2. split; [done|]. fold n in Hout, Hlo.
  erewrite bind_run by done. cbv zeta. erewrite bind_run by (apply lift_Ok; split; [exact Hout|done]).
  erewrite bind_run by done. rewrite bind_unfold. unfold on_memory.
  change (wmem (kworld (set_bytes (with_mem k m1) _))) with m1. rewrite Hun. cbn [phys_of].
  set (k2 := set_world _ _). rewrite bind_unfold, in_memory_run. unfold with_tabs. change (mem_of k2) with m2.
  destruct (space_reserve v (tables (ktabs m2)) a n) as (v' & Hres & Hsp2 & Hfr & Hs' & Hother);
    [|done|apply aligned_vaddr|lia|done|].
  { eapply space_untouched; [|exact Hu2]. by eapply space_untouched. }
  pose proof (bi_forest _ _ _ _ _ _ Hinv2) as Hf2.
  pose proof (map_fresh R _ _ pt v' (phy_addr b) a n (segment_options seg) Hf2 Hpt Hfr Hpa0 Hpaa Hpae ltac:(lia)
    (small_aligned _ _ n ltac:(lia))) as Hmap.
  fold (segment_options seg).
  destruct (map_range pt (phy_addr b) a n true (segment_options seg) (ktabs m2)) as [[] t|e t|w]; [| |done].
  2: { destruct Hmap as (Hf3 & j & Hj & Hm). eexists. split; [done|].
       by apply (mapped_inv m2 live (phys_of b :: kept) v' (phy_addr b) a n (segment_options seg) j); [done|apply Hfr|..]. }
  destruct Hmap as (Hf3 & Hm & _). rewrite Hres. eexists v', _. split; [done|].
  apply (segment_done_intro k v live kept seg src b m1 m2 t v' out); done.
Qed.

(** *** All segments *)

Definition loads (segs : list ProgramHeader) : list ProgramHeader := filter (λ s, p_type s = 1) segs.
Definition placed v (src : list Z) (s : ProgramHeader) : Prop :=
  segment_ok s src ∧ has_block (free_list v) (page_aligned_vaddr s) (segment_pages s).









(** Where a segment starts inside a page and has a part beyond the file's, loading it loses
    data: the zeroes start too early, and the last bytes that come from the file, as many as
    the segment's offset in its page, read as zero. *)
Theorem segment_tail_lost k v live kept seg src v' k' : buffers_inv (mem_of k) live kept →
  space_ok pt v (tables_of k) → sorted_blocks (free_list v) → placed v src seg →
  p_filesz seg < p_memsz seg → load_segment kernel_table seg src pt v k = Ok v' k' →
  ∀ j, 0 ≤ j → p_filesz seg - page_alignment_offset seg ≤ j < p_filesz seg → ∃ pa,
    translate (tables_of k') (high_addresses pt) (level0_table pt) (p_vaddr seg + j)
      = Some (pa, negb (Z.testbit (p_flags seg) 1), true) ∧ kbytes k' !! pa = Some 0.
Proof.
  intros Hinv Hsp Hs [Hseg Hhas] Hlt Hload j Hj0 Hj.
  pose proof (load_segment_run k v live kept seg src Hinv Hsp Hs Hseg Hhas) as Hrun. rewrite Hload in Hrun.
  destruct (PhysBuffer.alloc kernel_table (segment_pages seg) default_options (mem_of k)) as [b m1|e m|w];
    [|by destruct Hrun|done].
  destruct Hrun as (m2 & _ & Hrun).
  destruct (map_range pt (phy_addr b) (page_aligned_vaddr seg) (segment_pages seg) true (segment_options seg) (ktabs m2))
    as [[] t|e t|w]; [|by destruct Hrun as (? & ? & _)|done].
  destruct Hrun as (v2 & k2 & [= <- <-] & [_ _ _ _ Hl _ _]).
  destruct (Hl j ltac:(lia)) as (_ & Htr & Hby). eexists. split; [exact Htr|]. rewrite Hby. unfold segment_byte.
  by rewrite (proj2 (Z.ltb_lt _ _) Hlt), (proj2 (Z.leb_le _ _)) by lia.
Qed.
End loading.

(** *** Witnesses *)

#[local] Existing Instance concrete_bit_field.

(** Code, data that start inside a page, and a header that is not loaded. *)
Definition demo_file : list Z := [10; 11; 12; 13; 14; 15; 16; 17].
Definition demo_headers : list ProgramHeader :=
  [{| p_type := 1; p_flags := 5; p_offset := 1; p_vaddr := 0x3000; p_filesz := 3; p_memsz := 6 |};
   {| p_type := 2; p_flags := 0; p_offset := 100; p_vaddr := 0; p_filesz := 9; p_memsz := 1 |};
   {| p_type := 1; p_flags := 6; p_offset := 4; p_vaddr := 0x6010; p_filesz := 4; p_memsz := 4 |}].
(** Like the last, with one more byte in memory. *)
Definition demo_bss : ProgramHeader :=
  {| p_type := 1; p_flags := 6; p_offset := 4; p_vaddr := 0x6002; p_filesz := 4; p_memsz := 5 |}.

Lemma demo_segment_ok s : s ∈ demo_bss :: loads demo_headers → placed (VirtAlloc.new 0x1000 0x1000) demo_file s.
Proof.
  intros Hs. split.
  - split; repeat (apply elem_of_cons in Hs as [->|Hs]; [vm_compute; intuition congruence|]); by apply elem_of_nil in Hs.
  - eexists. split; [by left|].
    repeat (apply elem_of_cons in Hs as [->|Hs]; [vm_compute; intuition congruence|]); by apply elem_of_nil in Hs.
Qed.

(** A kernel with a process that has no memory yet. *)
Lemma demo_image_start kt pt1 pt2 t : demo_boot demo_tables = Ok (kt, pt1, pt2) t →
  let R := demo_roots kt pt1 pt2 in let k := demo_kernel (demo_world pt1 pt2 t) in
  R (level0_table kt) ∧ R (level0_table pt1) ∧ level0_table pt1 ≠ level0_table kt ∧
  buffers_inv kt R (λ _, False) (mem_of k) [] [] ∧ space_ok pt1 (VirtAlloc.new 0x1000 0x1000) (tables_of k).
Proof.
  intros Hboot R k. destruct (demo_start _ _ _ _ Hboot) as (HR & Hkh & Huser & Hw & _).
  destruct (Huser (level0_table pt1) (or_introl eq_refl)) as [HR1 Hne]. split_and!; try done.
  - split; try done.
    + eapply forest_weaken; [apply Hw|]. intros q [[]|(r & Hr & _)]. by apply elem_of_nil in Hr.
    + apply Hw.
    + intros p. change (cover_count _ p) with 0. rewrite Z.add_0_r. apply (so_once _ _ _ (wo_kernel _ _ _ _ _ _ Hw)).
  - by apply (wo_procs _ _ _ _ _ _ Hw 1 (demo_process 1 pt1)).
Qed.

Lemma demo_sorted : sorted_blocks (free_list (VirtAlloc.new 0x1000 0x1000)).
Proof. repeat constructor. Qed.


(** Bytes 16 and 17 of the file are lost. *)
Lemma segment_tail_lost_witness : ∃ kt pt1 k k' v', load_segment kt demo_bss demo_file pt1 (VirtAlloc.new 0x1000 0x1000) k = Ok v' k' ∧
  (∃ pa, translate (tables_of k') (high_addresses pt1) (level0_table pt1) 0x6005 = Some (pa, false, true) ∧ kbytes k' !! pa = Some 0) ∧
  intended_byte demo_bss demo_file 3 = Some 17.
Proof.
  assert (match demo_boot demo_tables with
          | Ok (kt, pt1, pt2) t =>
              is_ok (load_segment kt demo_bss demo_file pt1 (VirtAlloc.new 0x1000 0x1000) (demo_kernel (demo_world pt1 pt2 t)))
          | _ => false end = true) as E by (vm_compute; reflexivity).
  destruct (demo_boot demo_tables) as [[[kt pt1] pt2] t|e t|w] eqn:Hboot; [|discriminate E|discriminate E].
  destruct (demo_image_start _ _ _ _ Hboot) as (HR & HR1 & Hne & Hinv & Hsp).
  exists kt, pt1, (demo_kernel (demo_world pt1 pt2 t)).
  destruct (load_segment kt demo_bss demo_file pt1 _ _) as [v' k'|e k'|w] eqn:El; [|discriminate E|discriminate E].
  exists k', v'. split; [reflexivity|]. split; [|reflexivity].
  apply (segment_tail_lost kt _ HR (λ _, False) pt1 HR1 Hne _ _ [] [] demo_bss demo_file v' k' Hinv Hsp demo_sorted
    (demo_segment_ok demo_bss (list_elem_of_here _ _)) ltac:(reflexivity) El 3); vm_compute; intuition congruence.
Defined.
