(* ===== verification/ProcessStart.v ===== *)
(** A process begins ([start_process] of [Spawn], the second half of [spawn_process] in
    [kernel/src/process/spawn.rs]): it is registered, gets its first two queues, a stack of 512
    pages and its main thread, which is scheduled. *)
From stdpp Require Import base list gmap.
From S2P Require Import Prelude BitField Addresses PhysAlloc VirtAlloc Frames PageEntry Paging.
From S2P Require Import PagingTree MapRange UnmapRange PagingIter Spaces PhysBuffer MsgQueue Error Process ProcMem.
From S2P Require Import ProcWorld ProcQueues Sched SchedSpec Kernel KernelThreads KernelSpec KernelCommands KernelTasks.
From S2P Require Import KernelProps Spawn.


Section start.
Context `{BF : BitField} (kernel_table : PageTable) (R user : Z → Prop) (L : Layouts).
Context (HR : R (level0_table kernel_table)) (Hkh : high_addresses kernel_table = true).
Context (Huser : ∀ r, user r → R r ∧ r ≠ level0_table kernel_table).
Implicit Types (k : Kernel) (P : Process) (w : World) (heap : list Region).
Local Abbreviation all_ok := (all_ok kernel_table R user L).
Local Abbreviation kernel_wf := (kernel_wf kernel_table R user L).

(** *** Registration *)






(** *** The first queues *)





(** *** The main thread *)






(** *** All together *)







End start.

(** *** Witnesses *)

#[local] Existing Instance concrete_bit_field.




