(* ===== verification/Pcie.v ===== *)
(** The PCIe bus ([kernel/src/bus/pcie/mod.rs], [msix.rs]): the host controller is found in the
    device tree and its windows are mapped, every device on every bus is looked at through its
    block of configuration space, and the driver for its class is called.

    Registers are accessed with the width of the pointer's type. *)
From stdpp Require Import base list strings.
From S2P Require Import Prelude BitField Addresses PhysAlloc VirtAlloc Frames PageEntry Paging.
From S2P Require Import PagingTree Spaces Heap PhysBuffer Error Dtb Gic.

(** *** Registers of any width *)

(** [bus_read w p] reads [w] bytes at the virtual address [p]; a read may change the device. *)
Class Bus (D : Type) := {
  bus_read : Z → Z → D → Z * D;
  bus_write : Z → Z → Z → D → D;
}.

Definition read_at {D E} `{Bus D} (w p : Z) : M D E Z := λ d, let '(v, d') := bus_read w p d in Ok v d'.
Definition write_at {D E} `{Bus D} (w p v : Z) : M D E unit := λ d, Ok tt (bus_write w p v d).

(** *** The host controller *)

Record HostCtrlDeviceTreeNode := {
  size_cells : Z;
  address_cells : Z;
  interrupt_cells : Z;
  ranges : list Z;
  reg : list Z;
  interrupt_map : list Z;
}.

(** The local variables of [find_in_tree]. *)
Record HostSearch := {
  h_size_cells : option Z;
  h_address_cells : option Z;
  h_interrupt_cells : option Z;
  h_ranges : option (list Z);
  h_reg : option (list Z);
  h_interrupt_map : option (list Z);
}.

Record BaseAddresses := {
  mmio_phy : Z;
  mmio_vrt : Z;
  mmio_size : Z;
  pio : Z;
  pio_size : Z;
  ecam_phy : Z;
  ecam_vrt : Z;
  ecam_size : Z;
}.

(** *** Devices *)

Record DeviceId := { dev_bus : Z; dev_device : Z; dev_function : Z }.

Definition new_DeviceId (b device function : Z) : option DeviceId :=
  if (device <? 32) && (function <? 8) then Some {| dev_bus := b; dev_device := device; dev_function := function |}
  else None.

Record ConfigBlock := { cb_p : Z }.
(** The only kind of header there is. *)
Record Type0ConfigHeader := { hdr_p : Z }.
Record MsiXCapability := { msix_block : Z }.
Record MsiXTable := { msix_base : Z; msix_size : Z }.

Inductive CapabilityBlock :=
  | Msi
  | MsiX (c : MsiXCapability)
  | Unknown (id : Z).

Record CapabilityIter := { ci_p : Z; next_block : Z }.

Definition HEADER_VENDOR_ID : Z := 0x0.
Definition HEADER_DEVICE_ID : Z := 0x2.
Definition HEADER_CLASS_CODE : Z := 0x8.
Definition HEADER_TYPE_ID : Z := 0xe.
Definition CAPABILITY_ID_MSI : Z := 0x05.
Definition CAPABILITY_ID_MSIX : Z := 0x11.
Definition MSGCTRL : Z := 0x02.
Definition TABLE_OFFSET : Z := 0x04.
Definition PBA_OFFSET : Z := 0x08.

Section pcie.
Context {BE : BigEndian} `{BF : BitField} {D : Type} `{HB : Bus D} (kernel_table : PageTable).

(** The closure of [find_in_tree]. *)
Definition host_property {E} (name data : list Z) (std_interp : option StandardProperty) : M HostSearch E unit :=
  v ← get;
  if bool_decide (name = bytes_of "#size-cells") then
    match std_interp with
    | Some (SizeCells s) => put {| h_size_cells := Some s; h_address_cells := h_address_cells v;
        h_interrupt_cells := h_interrupt_cells v; h_ranges := h_ranges v; h_reg := h_reg v; h_interrupt_map := h_interrupt_map v |}
    | _ => panic
    end
  else if bool_decide (name = bytes_of "#address-cells") then
    match std_interp with
    | Some (AddressCells s) => put {| h_size_cells := h_size_cells v; h_address_cells := Some s;
        h_interrupt_cells := h_interrupt_cells v; h_ranges := h_ranges v; h_reg := h_reg v; h_interrupt_map := h_interrupt_map v |}
    | _ => panic
    end
  else if bool_decide (name = bytes_of "#interrupt-cells") then
    n ← lift (read_u32 data);
    put {| h_size_cells := h_size_cells v; h_address_cells := h_address_cells v;
           h_interrupt_cells := Some n; h_ranges := h_ranges v; h_reg := h_reg v; h_interrupt_map := h_interrupt_map v |}
  else if bool_decide (name = bytes_of "ranges") then
    put {| h_size_cells := h_size_cells v; h_address_cells := h_address_cells v;
           h_interrupt_cells := h_interrupt_cells v; h_ranges := Some data; h_reg := h_reg v; h_interrupt_map := h_interrupt_map v |}
  else if bool_decide (name = bytes_of "reg") then
    put {| h_size_cells := h_size_cells v; h_address_cells := h_address_cells v;
           h_interrupt_cells := h_interrupt_cells v; h_ranges := h_ranges v; h_reg := Some data; h_interrupt_map := h_interrupt_map v |}
  else if bool_decide (name = bytes_of "interrupt-map") then
    put {| h_size_cells := h_size_cells v; h_address_cells := h_address_cells v;
           h_interrupt_cells := h_interrupt_cells v; h_ranges := h_ranges v; h_reg := h_reg v; h_interrupt_map := Some data |}
  else mret tt.

Definition node_of (v : HostSearch) : option HostCtrlDeviceTreeNode :=
  s ← h_size_cells v; a ← h_address_cells v; i ← h_interrupt_cells v;
  r ← h_ranges v; g ← h_reg v; im ← h_interrupt_map v;
  Some {| size_cells := s; address_cells := a; interrupt_cells := i; ranges := r; reg := g; interrupt_map := im |}.

Definition find_in_tree {S E} (dt : DeviceTree) : M S E (option HostCtrlDeviceTreeNode) :=
  '(_, v) ← on_local (process_properties_for_node dt (bytes_of "pcie") host_property)
              {| h_size_cells := None; h_address_cells := None; h_interrupt_cells := None;
                 h_ranges := None; h_reg := None; h_interrupt_map := None |};
  mret (node_of v).

(** [BigEndian::read_u64(&l[offset..])] *)
Definition u64_at (l : list Z) (offset : Z) : option Z := rest ← slice_from l offset; read_u64 rest.

(** [.context(MemorySnafu { reason })] *)
Definition memory_context {A} (reason : string) (m : KM A) : M KernelMem Error A := λ s,
  match m s with Ok a s' => Ok a s' | Err e s' => Err (Memory reason e) s' | Stop w => Stop w end.
Arguments memory_context {A} reason%_string_scope m.

Definition from_dt (node : HostCtrlDeviceTreeNode) : M KernelMem Error BaseAddresses :=
  assert (size_cells node =? 2);;
  assert (address_cells node =? 3);;
  assert (Z.of_nat (length (reg node)) =? 16);;
  ecam_base ← lift (u64_at (reg node) 0);
  ecam_size ← lift (u64_at (reg node) 8);
  pio_base ← lift (u64_at (ranges node) 12);
  pio_size ← lift (u64_at (ranges node) 20);
  mmio_base ← lift (u64_at (ranges node) 40);
  mmio_size ← lift (u64_at (ranges node) 48);
  ecam_vrt ← memory_context "alloc ECAM region" (with_kva (VirtAlloc.alloc (div_ceil ecam_size PAGE_SIZE)));
  mmio_vrt ← memory_context "alloc MMIO region" (with_kva (VirtAlloc.alloc (div_ceil mmio_size PAGE_SIZE)));
  memory_context "map ECAM region"
    (with_tabs (map_range kernel_table ecam_base ecam_vrt (ecam_size / PAGE_SIZE) true default_options));;
  memory_context "map MMIO region"
    (with_tabs (map_range kernel_table mmio_base mmio_vrt (mmio_size / PAGE_SIZE) true default_options));;
  mret {| mmio_phy := mmio_base; mmio_vrt := mmio_vrt; mmio_size := mmio_size; pio := pio_base; pio_size := pio_size;
          ecam_phy := ecam_base; ecam_vrt := ecam_vrt; ecam_size := ecam_size |}.

(** *** Configuration space *)

Definition for_device (base : BaseAddresses) (id : DeviceId) : ConfigBlock :=
  {| cb_p := VirtualAddress.add (ecam_vrt base) ((dev_bus id * 256 + dev_device id * 8 + dev_function id) * 4096) |}.

Section blocks.
Context {E : Type}.
Local Abbreviation IO := (M D E).

Definition read_word (self : ConfigBlock) (offset : Z) : IO Z := read_at 2 (cb_p self + offset).
Definition vendor_id (self : ConfigBlock) : IO Z := read_word self HEADER_VENDOR_ID.
Definition device_id (self : ConfigBlock) : IO Z := read_word self HEADER_DEVICE_ID.
Definition class (self : ConfigBlock) : IO Z := read_at 4 (cb_p self + HEADER_CLASS_CODE).
Definition multifunction (self : ConfigBlock) : IO bool :=
  v ← read_at 1 (cb_p self + HEADER_TYPE_ID); mret (bit v 7).

(** Other types of headers are a [todo!]. *)
Definition header (self : ConfigBlock) : IO Type0ConfigHeader :=
  header_type ← read_at 1 (cb_p self + HEADER_TYPE_ID);
  if Z.land header_type 0x7f =? 0 then mret {| hdr_p := cb_p self |} else panic.

(** [bars[index]], of the slice of five words *)
Definition bar (self : Type0ConfigHeader) (index : Z) : IO Z :=
  if index <? 5 then read_at 4 (hdr_p self + 0x10 + 4 * index) else panic.

Definition base_address (self : Type0ConfigHeader) (index : Z) : IO Z :=
  barl ← bar self index;
  if bit barl 2 then
    barh ← bar self (index + 1);
    mret (Z.lor (Z.land barl 0xfffffff0) (Z.shiftl barh 32))
  else mret (Z.land barl 0xfffffff0).

Definition at_address (block : Z) : IO CapabilityBlock :=
  id ← read_at 1 block;
  mret (if id =? CAPABILITY_ID_MSI then Msi
        else if id =? CAPABILITY_ID_MSIX then MsiX {| msix_block := block |}
        else Unknown id).

Definition next_capability (self : CapabilityIter) : IO (option CapabilityBlock * CapabilityIter) :=
  if next_block self =? 0 then mret (None, self)
  else
    let block := ci_p self + next_block self in
    n ← read_at 1 (block + 1);
    c ← at_address block;
    mret (Some c, {| ci_p := ci_p self; next_block := Z.land n 0xfc |}).

Definition capabilities (self : Type0ConfigHeader) : IO CapabilityIter :=
  status ← read_at 1 (hdr_p self + 0x6);
  if bit status 4 then
    n ← read_at 1 (hdr_p self + 0x34);
    mret {| ci_p := hdr_p self; next_block := Z.land n 0xfc |}
  else mret {| ci_p := hdr_p self; next_block := 0 |}.

(** [for cap in hdr.capabilities()], to the end; [fuel] bounds the number of blocks. *)
Fixpoint collect_capabilities (fuel : nat) (it : CapabilityIter) : IO (list CapabilityBlock) :=
  match fuel with
  | O => out_of_fuel
  | S fuel' =>
      '(o, it) ← next_capability it;
      match o with
      | None => mret []
      | Some c => cs ← collect_capabilities fuel' it; mret (c :: cs)
      end
  end.

(** *** MSI-X *)

Definition enable (self : MsiXCapability) : IO unit :=
  let msg_ctrl := msix_block self + (MSGCTRL + 1) in
  v ← read_at 1 msg_ctrl;
  write_at 1 msg_ctrl (Z.lor v 0x80).

Definition table_size (self : MsiXCapability) : IO Z :=
  v ← read_at 2 (msix_block self + MSGCTRL);
  mret (Z.land v 0x03ff + 1).

Definition table_address (self : MsiXCapability) : IO (Z * Z) :=
  x ← read_at 4 (msix_block self + TABLE_OFFSET);
  mret (Z.land x 7, Z.ldiff x 7).

Definition pending_bit_array_address (self : MsiXCapability) : IO (Z * Z) :=
  x ← read_at 4 (msix_block self + PBA_OFFSET);
  mret (Z.land x 7, Z.ldiff x 7).

Definition from_config (header : Type0ConfigHeader) (caps : MsiXCapability) : IO MsiXTable :=
  '(bar_ix, offset) ← table_address caps;
  b ← base_address header bar_ix;
  base ← lift (uadd b offset);
  n ← table_size caps;
  mret {| msix_base := base; msix_size := n |}.

(** [base.add(n)] on a [*mut u32] *)
Definition set_mask (self : MsiXTable) (index : Z) (masked : bool) : IO unit :=
  assert (index <? msix_size self);;
  let vctrl := msix_base self + 4 * (4 * index + 3) in
  v ← read_at 4 vctrl;
  write_at 4 vctrl (set_bit v 0 masked).

Definition write_entry (self : MsiXTable) (index : Z) (msi : MsiDescriptor) : IO unit :=
  assert (index <? msix_size self);;
  set_mask self index true;;
  let entry := msix_base self + 4 * (4 * index) in
  write_at 8 entry (register_addr msi);;
  write_at 4 (entry + 4 * 2) (data_value msi).
End blocks.

(** *** The scan *)

Abbreviation PS := (M (KernelMem * D) Error).
Definition on_bus {A} (m : M D Error A) : PS A := λ s,
  match m s.2 with Ok a d => Ok a (s.1, d) | Err e d => Err e (s.1, d) | Stop w => Stop w end.

Definition DriverInitFn : Type := DeviceId → ConfigBlock → BaseAddresses → PS unit.

(** A driver's error is only logged. *)
Definition run_driver (f : DriverInitFn) (addr : DeviceId) (cfg : ConfigBlock) (base : BaseAddresses) : PS unit := λ s,
  match f addr cfg base s with Ok _ s' => Ok tt s' | Err _ s' => Ok tt s' | Stop w => Stop w end.

(** The body of the loops. *)
Definition visit (fuel : nat) (driver_registry : Z → option DriverInitFn) (base : BaseAddresses) (b device : Z) : PS unit :=
  addr ← lift (new_DeviceId b device 0);
  let cfg := for_device base addr in
  v ← on_bus (vendor_id cfg);
  if v =? 0xffff then mret tt
  else
    hdr ← on_bus (header cfg);
    it ← on_bus (capabilities hdr);
    _ ← on_bus (collect_capabilities fuel it);
    c ← on_bus (class cfg);
    match driver_registry (Z.ldiff c 0xff) with
    | Some driver_init => run_driver driver_init addr cfg base
    | None => mret tt
    end.

Definition upto (n : Z) : list Z := Z.of_nat <$> seq 0 (Z.to_nat n).

Definition scan (fuel : nat) (driver_registry : Z → option DriverInitFn) (base : BaseAddresses) : PS unit :=
  for_each (λ b, for_each (λ device, visit fuel driver_registry base b device) (upto 32)) (upto 256).

Definition pcie_init (fuel : nat) (ic : GenericInterruptController) (dt : DeviceTree)
    (driver_registry : Z → option DriverInitFn) : PS unit :=
  assert (msi_supported ic);;
  o ← find_in_tree dt;
  node ← lift o;
  base ← (λ s, match from_dt node s.1 with
               | Ok a m => Ok a (m, s.2) | Err _ _ => Stop Panic | Stop w => Stop w end);
  scan fuel driver_registry base.

(** *** The NVMe driver's part ([init_nvme_over_pcie]) *)

Definition REG_VS : Z := 0x8.

(** The first MSI-X capability: its table is located and it is enabled. *)
Fixpoint find_msix {E} (fuel : nat) (hdr : Type0ConfigHeader) (it : CapabilityIter) : M D E (option MsiXTable) :=
  match fuel with
  | O => out_of_fuel
  | S fuel' =>
      '(o, it) ← next_capability it;
      match o with
      | None => mret None
      | Some (MsiX msix) =>
          t ← from_config hdr msix;
          enable msix;;
          mret (Some t)
      | Some _ => find_msix fuel' hdr it
      end
  end.

(** [finish] is what follows: [configure] and the entry in the registry. *)
Definition init_nvme_over_pcie (fuel : nat) (finish : DeviceId → Z → MsiXTable → PS unit) : DriverInitFn :=
  λ addr config base,
  hdr ← on_bus (header config);
  b ← on_bus (base_address hdr 0);
  offset ← lift (usub b (mmio_phy base));
  let base_vaddress := VirtualAddress.add (mmio_vrt base) offset in
  _ ← on_bus (read_at 4 (VirtualAddress.add base_vaddress REG_VS));
  it ← on_bus (capabilities hdr);
  o ← on_bus (find_msix fuel hdr it);
  msix_table ← lift o;
  finish addr base_vaddress msix_table.
End pcie.
