(* ===== verification/PcieSpec.v ===== *)
(** The PCIe bus: the scan calls exactly the drivers of the devices that are there, the walk
    over the capabilities ends after at most 63 blocks or never, and the entries of an MSI-X
    table are programmed one by one. *)
From stdpp Require Import base list strings.
From S2P Require Import Prelude BitField Addresses PhysAlloc VirtAlloc Frames PageEntry Paging.
From S2P Require Import PagingTree MapRange Spaces PhysBuffer Error Dtb Gic Pcie.

(** *** Configuration space *)

(** Little endian values of bytes. *)
Fixpoint le_val (bytes : Z → Z) (off : Z) (n : nat) : Z :=
  match n with O => 0 | S n' => bytes off + 256 * le_val bytes (off + 1) n' end.

Definition block_at (p : Z) (bytes : Z → Z) (c : Z) : CapabilityBlock :=
  if bytes c =? CAPABILITY_ID_MSI then Msi
  else if bytes c =? CAPABILITY_ID_MSIX then MsiX {| msix_block := p + c |}
  else Unknown (bytes c).

(** The list of capabilities from an offset on. *)
Inductive chain (p : Z) (bytes : Z → Z) : Z → list CapabilityBlock → Prop :=
  | chain_end : chain p bytes 0 []
  | chain_next c cs : c ≠ 0 → chain p bytes (Z.land (bytes (c + 1)) 0xfc) cs →
      chain p bytes c (block_at p bytes c :: cs).

Lemma chain_unique p bytes c cs cs' : chain p bytes c cs → chain p bytes c cs' → cs = cs'.
Proof. intros H. revert cs'. induction H as [|c cs Hc H IH]; intros cs' H'; inversion H'; subst; [done..|]. f_equal. auto. Qed.

(** Offsets of blocks: multiples of four in the first 256 bytes. *)
Definition offsets : list Z := (λ i, 4 * Z.of_nat i) <$> seq 0 64.

Lemma offset_masked x : Z.land x 0xfc ∈ offsets.
Proof.
  assert (Z.land x 0xfc = 4 * (x / 4 mod 64)) as ->.
  { change 0xfc with (Z.shiftl (Z.ones 6) 2). apply Z.bits_inj'. intros i Hi.
    change (4 * (x / 4 mod 64)) with (2 ^ 2 * (x / 2 ^ 2 mod 2 ^ 6)).
    rewrite Z.mul_comm, <- Z.shiftl_mul_pow2, <- Z.land_ones, <- Z.shiftr_div_pow2 by lia.
    rewrite Z.land_spec, !Z.shiftl_spec, Z.land_spec by lia. destruct (Z.ltb_spec i 2).
    - by rewrite !(Z.testbit_neg_r _ (i - 2)), andb_false_r by lia.
    - rewrite Z.shiftr_spec by lia. by replace (i - 2 + 2) with i by lia. }
  apply list_elem_of_fmap. exists (Z.to_nat (x / 4 mod 64)). pose proof (Z.mod_pos_bound (x / 4) 64).
  split; [lia|]. apply elem_of_seq. lia.
Qed.

Lemma offset_bound c : c ∈ offsets → 0 ≤ c ≤ 252.
Proof. intros (i & -> & Hi%elem_of_seq)%list_elem_of_fmap. lia. Qed.

(** The offsets of a list of capabilities are all different. *)
Lemma chain_offsets p bytes c cs : chain p bytes c cs → c ∈ offsets →
  ∃ os, length os = length cs ∧ NoDup os ∧
    ∀ o, o ∈ os → o ∈ offsets ∧ o ≠ 0 ∧ ∃ cs', chain p bytes o cs' ∧ (length cs' ≤ length cs)%nat.
Proof.
  induction 1 as [|c cs Hc H IH]; intros Ho.
  { exists []. split_and!; [done|constructor|]. by intros o ?%elem_of_nil. }
  destruct (IH (offset_masked _)) as (os & Hlen & Hnd & Hin). exists (c :: os). split_and!.
  - cbn. lia.
  - constructor; [|done]. intros Hel. destruct (Hin c Hel) as (_ & _ & cs' & Hcs' & Hle).
    rewrite (chain_unique _ _ _ _ _ Hcs' (chain_next _ _ _ _ Hc H)) in Hle. cbn in Hle. lia.
  - intros o [->|Hel]%elem_of_cons.
    + split_and!; [done..|]. eexists. split; [by constructor|done].
    + destruct (Hin o Hel) as (? & ? & cs' & ? & ?). split_and!; [done..|]. exists cs'. split; [done|]. cbn. lia.
Qed.

Lemma capability_chain_length p bytes c cs : chain p bytes c cs → c ∈ offsets → (length cs ≤ 63)%nat.
Proof.
  intros H Ho. destruct (chain_offsets _ _ _ _ H Ho) as (os & <- & Hnd & Hin).
  assert (os ⊆+ tail offsets) as Hs.
  { apply NoDup_submseteq; [done|]. intros o Hel. destruct (Hin o Hel) as (Hoff & Hz & _).
    change offsets with (0 :: tail offsets) in Hoff. by apply elem_of_cons in Hoff as [->|]. }
  by apply submseteq_length in Hs.
Qed.

Section walk.
Context `{BF : BitField} {D : Type} `{HB : Bus D} {E : Type} (p : Z) (bytes : Z → Z) (d : D).
(** Reading does not change the device, and gives the bytes of its configuration space. *)
Context (Hread : ∀ w off, 1 ≤ w → 0 ≤ off → off + w ≤ 256 → bus_read w (p + off) d = (le_val bytes off (Z.to_nat w), d)).

Lemma read_run w q off : q = p + off → 1 ≤ w → 0 ≤ off → off + w ≤ 256 →
  read_at (E := E) w q d = Ok (le_val bytes off (Z.to_nat w)) d.
Proof. intros -> ? ? ?. unfold read_at. by rewrite Hread. Qed.

Lemma read_byte q off : q = p + off → 0 ≤ off < 256 → read_at (E := E) 1 q d = Ok (bytes off) d.
Proof.
  intros -> ?. erewrite (read_run 1 _ off) by lia || done.
  change (le_val bytes off (Z.to_nat 1)) with (bytes off + 256 * 0). f_equal. lia.
Qed.

Lemma next_end : next_capability (E := E) {| ci_p := p; next_block := 0 |} d = Ok (None, {| ci_p := p; next_block := 0 |}) d.
Proof. done. Qed.

Lemma next_some c : c ≠ 0 → c ∈ offsets →
  next_capability (E := E) {| ci_p := p; next_block := c |} d
    = Ok (Some (block_at p bytes c), {| ci_p := p; next_block := Z.land (bytes (c + 1)) 0xfc |}) d.
Proof.
  intros Hc Ho. apply offset_bound in Ho. unfold next_capability. cbn [next_block ci_p].
  destruct (Z.eqb_spec c 0); [done|]. erewrite bind_run by (apply (read_byte _ (c + 1)); lia).
  unfold at_address. rewrite bind_unfold. erewrite bind_run by (apply (read_byte _ c); lia). done.
Qed.

Lemma collect_capabilities_run c cs fuel : chain p bytes c cs → c ∈ offsets → (length cs < fuel)%nat →
  collect_capabilities (E := E) fuel {| ci_p := p; next_block := c |} d = Ok cs d.
Proof.
  intros H. revert fuel. induction H as [|c cs Hc H IH]; intros [|fuel] Ho Hf; cbn [length] in Hf; try lia;
    cbn [collect_capabilities].
  - by erewrite bind_run by apply next_end.
  - erewrite bind_run by (by apply next_some). cbn iota beta.
    erewrite bind_run by (apply IH; [apply offset_masked|lia]). done.
Qed.

(** It ends in no other way. *)
Lemma collect_outcome c fuel : c ∈ offsets →
  match collect_capabilities (E := E) fuel {| ci_p := p; next_block := c |} d with
  | Ok cs d' => d' = d ∧ chain p bytes c cs
  | Err _ _ => False
  | Stop w => w = OutOfFuel
  end.
Proof.
  revert c. induction fuel as [|fuel IH]; intros c Ho; [done|]. cbn [collect_capabilities].
  destruct (decide (c = 0)) as [->|Hc]; [erewrite bind_run by apply next_end; split; [done|constructor]|].
  erewrite bind_run by (by apply next_some). cbn iota beta. rewrite bind_unfold.
  specialize (IH _ (offset_masked (bytes (c + 1)))).
  destruct (collect_capabilities _ _ _) as [cs d'|e d'|w]; [|done|done].
  destruct IH as [-> IH]. split; [done|]. by constructor.
Qed.

(** The walk over the capabilities of a device ends within 64 steps with the list that the
    device describes, or it does not end at all, however long it runs. *)
Theorem capabilities_bounded c : c ∈ offsets → let it := {| ci_p := p; next_block := c |} in
  (∃ cs, chain p bytes c cs ∧ ∀ fuel, (64 ≤ fuel)%nat → collect_capabilities (E := E) fuel it d = Ok cs d) ∨
  (∀ fuel, collect_capabilities (E := E) fuel it d = Stop OutOfFuel).
Proof.
  intros Ho it.
  assert (∀ cs fuel, chain p bytes c cs → (64 ≤ fuel)%nat → collect_capabilities (E := E) fuel it d = Ok cs d) as Hrun.
  { intros cs fuel Hch Hf. pose proof (capability_chain_length _ _ _ _ Hch Ho). apply collect_capabilities_run; [done..|lia]. }
  pose proof (collect_outcome c 64 Ho) as H64. fold it in H64.
  destruct (collect_capabilities (E := E) 64 it d) as [cs d'|e d'|w] eqn:E64; [|done|].
  - left. exists cs. split; [apply H64|]. intros fuel Hf. by apply Hrun; [apply H64|].
  - right. intros fuel. pose proof (collect_outcome c fuel Ho) as Hf. fold it in Hf.
    destruct (collect_capabilities (E := E) fuel it d) as [cs d'|e d'|w']; [|done|by subst].
    destruct Hf as [_ Hch]. by rewrite (Hrun cs 64%nat Hch) in E64.
Qed.
End walk.

(** *** The scan *)

(** A loop whose body does, in states with [I], what a loop over a list does. *)
Lemma for_each_flat {S E A B} (I : S → Prop) (F : A → M S E unit) (G : B → M S E unit) (h : A → list B) l :
  (∀ x s, x ∈ l → I s → F x s = for_each G (h x) s ∧ ∃ s', F x s = Ok tt s' ∧ I s') →
  ∀ s, I s → for_each F l s = for_each G (concat (h <$> l)) s ∧ ∃ s', for_each F l s = Ok tt s' ∧ I s'.
Proof.
  intros H. induction l as [|x l IH]; intros s Hs; [split; [done|by exists s]|].
  destruct (H x s (list_elem_of_here _ _) Hs) as (Hx & s1 & Hs1 & HI1).
  destruct (IH (λ y s Hy, H y s (list_elem_of_further _ _ _ Hy)) s1 HI1) as (Hl & s2 & Hs2 & HI2).
  cbn [for_each fmap list_fmap concat]. rewrite for_each_app, !bind_unfold, <- Hx, Hs1.
  split; [done|]. by exists s2.
Qed.

Definition device (b dev : Z) : DeviceId := {| dev_bus := b; dev_device := dev; dev_function := 0 |}.
Definition vendor_of (bytes : Z → Z) : Z := le_val bytes HEADER_VENDOR_ID 2.
Definition class_of (bytes : Z → Z) : Z := le_val bytes HEADER_CLASS_CODE 4.

Section scan.
Context `{BF : BitField} {D : Type} `{HB : Bus D}.
Context (base : BaseAddresses) (driver_registry : Z → option (DriverInitFn (D := D))).
(** The configuration space of each device, and the states of the kernel and the devices in
    which it is that. *)
Context (space : Z → Z → Z → Z) (I : KernelMem * D → Prop).

Local Abbreviation block b dev := (cb_p (for_device base (device b dev))).

(** Devices that the driver supports: their headers are of type 0 and their capabilities form a list
    that ends.  Drivers do not panic and leave configuration space as it reads. *)
Record bus_ok : Prop := {
  bo_reads s b dev w off : I s → 0 ≤ b < 256 → 0 ≤ dev < 32 → 1 ≤ w → 0 ≤ off → off + w ≤ 256 →
    bus_read w (block b dev + off) s.2 = (le_val (space b dev) off (Z.to_nat w), s.2);
  bo_header b dev : 0 ≤ b < 256 → 0 ≤ dev < 32 → vendor_of (space b dev) ≠ 0xffff → Z.land (space b dev 0xe) 0x7f = 0;
  bo_chain b dev : 0 ≤ b < 256 → 0 ≤ dev < 32 → vendor_of (space b dev) ≠ 0xffff → Z.testbit (space b dev 0x6) 4 = true →
    ∃ cs, chain (block b dev) (space b dev) (Z.land (space b dev 0x34) 0xfc) cs;
  bo_drivers c f b dev s : driver_registry c = Some f → I s →
    match f (device b dev) (for_device base (device b dev)) base s with Ok _ s' => I s' | Err _ s' => I s' | Stop _ => False end;
}.
Context (Hok : bus_ok).

(** The driver of a device that is there. *)
Definition driver_of (b dev : Z) : list (DeviceId * DriverInitFn (D := D)) :=
  if vendor_of (space b dev) =? 0xffff then []
  else match driver_registry (Z.ldiff (class_of (space b dev)) 0xff) with
       | Some f => [(device b dev, f)]
       | None => []
       end.
Definition attached : list (DeviceId * DriverInitFn (D := D)) :=
  concat ((λ b, concat (driver_of b <$> upto 32)) <$> upto 256).
Definition call (x : DeviceId * DriverInitFn (D := D)) : M (KernelMem * D) Error unit :=
  run_driver x.2 x.1 (for_device base x.1) base.

Lemma upto_in n x : x ∈ upto n → 0 ≤ x < n.
Proof. intros (i & -> & Hi%elem_of_seq)%list_elem_of_fmap. lia. Qed.

Lemma on_bus_run {A} (m : M D Error A) s a d : m s.2 = Ok a d → on_bus m s = Ok a (s.1, d).
Proof. intros H. unfold on_bus. by rewrite H. Qed.

Lemma capabilities_run b dev s : 0 ≤ b < 256 → 0 ≤ dev < 32 → vendor_of (space b dev) ≠ 0xffff → I s →
  ∃ c, c ∈ offsets ∧ on_bus (capabilities {| hdr_p := block b dev |}) s
         = Ok {| ci_p := block b dev; next_block := c |} s ∧ ∃ cs, chain (block b dev) (space b dev) c cs.
Proof.
  intros Hb Hd Hv Hs. pose proof (λ w off, bo_reads Hok s b dev w off Hs Hb Hd) as Hread.
  assert (∀ x : CapabilityIter, Ok (E := Error) x s = Ok x (s.1, s.2)) as Hs2 by by destruct s.
  destruct (Z.testbit (space b dev 0x6) 4) eqn:Ht.
  - exists (Z.land (space b dev 0x34) 0xfc). split; [apply offset_masked|]. split; [|by apply (bo_chain Hok)].
    rewrite Hs2. apply on_bus_run. unfold capabilities.
    erewrite bind_run by (by apply (read_byte (block b dev) (space b dev) s.2 Hread _ 0x6)).
    rewrite bit_testbit, Ht by lia.
    by erewrite bind_run by (by apply (read_byte (block b dev) (space b dev) s.2 Hread _ 0x34)).
  - exists 0. split; [by left|]. split; [|exists []; constructor]. rewrite Hs2. apply on_bus_run. unfold capabilities.
    erewrite bind_run by (by apply (read_byte (block b dev) (space b dev) s.2 Hread _ 0x6)).
    by rewrite bit_testbit, Ht by lia.
Qed.

Lemma visit_run fuel b dev s : (64 ≤ fuel)%nat → 0 ≤ b < 256 → 0 ≤ dev < 32 → I s →
  visit fuel driver_registry base b dev s = for_each call (driver_of b dev) s ∧
  ∃ s', visit fuel driver_registry base b dev s = Ok tt s' ∧ I s'.
Proof.
  intros Hf Hb Hd Hs. assert (s = (s.1, s.2)) as Hs2 by by destruct s.
  pose proof (λ w off, bo_reads Hok s b dev w off Hs Hb Hd) as Hread.
  unfold visit, driver_of. erewrite bind_run.
  2: { unfold new_DeviceId. rewrite (proj2 (Z.ltb_lt dev 32)) by lia. done. }
  cbv zeta. fold (device b dev).
  erewrite bind_run.
  2: { apply on_bus_run. unfold vendor_id, read_word. by apply (read_run (block b dev) (space b dev) s.2 Hread 2 _ 0). }
  rewrite <- Hs2. change (le_val (space b dev) 0 (Z.to_nat 2)) with (vendor_of (space b dev)).
  destruct (Z.eqb_spec (vendor_of (space b dev)) 0xffff) as [|Hv]; [split; [done|by exists s]|].
  erewrite bind_run.
  2: { apply on_bus_run. unfold header. erewrite bind_run by (by apply (read_byte (block b dev) (space b dev) s.2 Hread _ 0xe)).
       rewrite (bo_header Hok) by done. done. }
  rewrite <- Hs2.
  destruct (capabilities_run b dev s Hb Hd Hv Hs) as (c & Hc & Hcap & cs & Hch).
  erewrite bind_run by exact Hcap.
  erewrite bind_run.
  2: { apply on_bus_run. pose proof (capability_chain_length _ _ _ _ Hch Hc). apply (collect_capabilities_run _ _ _ Hread c cs fuel); [done..|lia]. }
  rewrite <- Hs2. erewrite bind_run.
  2: { apply on_bus_run. unfold class. by apply (read_run (block b dev) (space b dev) s.2 Hread 4 _ HEADER_CLASS_CODE). }
  rewrite <- Hs2. change (le_val (space b dev) HEADER_CLASS_CODE (Z.to_nat 4)) with (class_of (space b dev)).
  destruct (driver_registry (Z.ldiff (class_of (space b dev)) 0xff)) as [f|] eqn:Ef; [|split; [done|by exists s]].
  pose proof (bo_drivers Hok _ f b dev s Ef Hs) as Hdrv. cbn [for_each]. unfold call. cbn [fst snd].
  rewrite bind_unfold. unfold run_driver.
  destruct (f (device b dev) (for_device base (device b dev)) base s) as [[] s'|e s'|w]; [| |done]; (split; [done|by exists s']).
Qed.

(** C21: the scan finds the devices. When configuration space reads as [space] says before and
    after every driver, the scan is the same as calling, bus by bus and device by device, the
    driver that is registered for the class of each device that is there, once each, whether or
    not earlier ones succeeded; it ends. Devices are those with a function 0; their headers are
    of type 0, their lists of capabilities are not cyclic, and drivers do not panic: the code
    panics at a bridge, and follows a cyclic list forever. *)
Theorem bus_scan_exact fuel s : (64 ≤ fuel)%nat → I s →
  scan fuel driver_registry base s = for_each call attached s ∧
  ∃ s', scan fuel driver_registry base s = Ok tt s' ∧ I s'.
Proof.
  intros Hf Hs. unfold scan, attached. apply (for_each_flat I); [|done]. intros b s1 Hb%upto_in Hs1.
  apply (for_each_flat I); [|done]. intros dev s2 Hd%upto_in Hs2. by apply visit_run.
Qed.
End scan.

(** *** MSI-X tables *)

Section msix.
Context `{BF : BitField} {D : Type} `{HB : Bus D} {E : Type}.
(** The table is memory of 32-bit words; a 64-bit write is two of them. *)
Context (word : D → Z → Z).

Record word_memory : Prop := {
  wm_read d a : bus_read 4 a d = (word d a, d);
  wm_write4 d a v b : (b - a) mod 4 = 0 → word (bus_write 4 a v d) b = if b =? a then v else word d b;
  wm_write8 d a v b : (b - a) mod 4 = 0 → word (bus_write 8 a v d) b
    = if b =? a then v mod 2 ^ 32 else if b =? a + 4 then v / 2 ^ 32 else word d b;
}.
Context (Hmem : word_memory).

(** Word [n] of entry [i]. *)
Definition entry_word (t : MsiXTable) (d : D) (i n : Z) : Z := word d (msix_base t + 16 * i + 4 * n).

Lemma set_mask_run t i masked d : 0 ≤ i < msix_size t →
  ∃ d', set_mask (E := E) t i masked d = Ok tt d' ∧
    ∀ j n, 0 ≤ n < 4 → entry_word t d' j n =
      if decide (j = i ∧ n = 3) then set_bit (entry_word t d i 3) 0 masked else entry_word t d j n.
Proof.
  intros Hi. unfold set_mask. rewrite (proj2 (Z.ltb_lt _ _)) by lia. erewrite bind_run by done. cbv zeta.
  erewrite bind_run by (unfold read_at; by rewrite (wm_read Hmem)). eexists. split; [done|]. intros j n Hn.
  unfold entry_word. rewrite (wm_write4 Hmem) by dlia.
  replace (msix_base t + 4 * (4 * i + 3)) with (msix_base t + 16 * i + 4 * 3) by lia.
  case_decide as Hc; destruct (Z.eqb_spec (msix_base t + 16 * j + 4 * n) (msix_base t + 16 * i + 4 * 3)); try done; lia.
Qed.

(** Programming an entry of an MSI-X table writes the address and the value of the message to
    that entry and leaves it masked; unmasking it then changes only the mask bit; the other
    entries stay as they are.  An index outside the table panics. *)
Theorem msix_entry_programmed t i msi d :
  (0 ≤ i < msix_size t → ∃ d1 d2, write_entry (E := E) t i msi d = Ok tt d1 ∧ set_mask (E := E) t i false d1 = Ok tt d2 ∧
     entry_word t d1 i 0 = register_addr msi mod 2 ^ 32 ∧ entry_word t d1 i 1 = register_addr msi / 2 ^ 32 ∧
     entry_word t d1 i 2 = data_value msi ∧ Z.testbit (entry_word t d1 i 3) 0 = true ∧
     (∀ n, 0 ≤ n < 3 → entry_word t d2 i n = entry_word t d1 i n) ∧ Z.testbit (entry_word t d2 i 3) 0 = false ∧
     (∀ k, 0 < k → Z.testbit (entry_word t d2 i 3) k = Z.testbit (entry_word t d i 3) k) ∧
     ∀ j n, j ≠ i → 0 ≤ n < 4 → entry_word t d2 j n = entry_word t d j n) ∧
  (msix_size t ≤ i → write_entry (E := E) t i msi d = Stop Panic ∧ ∀ b, set_mask (E := E) t i b d = Stop Panic).
Proof.
  split.
  2: { intros Hi. unfold write_entry, set_mask. by rewrite (proj2 (Z.ltb_ge i (msix_size t))). }
  intros Hi. destruct (set_mask_run t i true d Hi) as (d0 & H0 & Hw0).
  set (entry := msix_base t + 4 * (4 * i)).
  set (d1 := bus_write 4 (entry + 4 * 2) (data_value msi) (bus_write 8 entry (register_addr msi) d0)).
  assert (write_entry (E := E) t i msi d = Ok tt d1) as H1.
  { unfold write_entry. rewrite (proj2 (Z.ltb_lt _ _)) by lia. erewrite bind_run by done. by erewrite bind_run by exact H0. }
  assert (∀ j n, 0 ≤ n < 4 → entry_word t d1 j n =
     if decide (j = i ∧ n = 0) then register_addr msi mod 2 ^ 32 else if decide (j = i ∧ n = 1) then register_addr msi / 2 ^ 32
     else if decide (j = i ∧ n = 2) then data_value msi else entry_word t d0 j n) as Hw1.
  { intros j n Hn. unfold entry_word, d1. rewrite (wm_write4 Hmem), (wm_write8 Hmem) by (unfold entry; dlia).
    repeat match goal with |- context [?a =? ?b] => destruct (Z.eqb_spec a b) end; unfold entry in *;
      repeat case_decide; done || lia. }
  destruct (set_mask_run t i false d1 Hi) as (d2 & H2 & Hw2). exists d1, d2.
  split_and!; [done..| | | | | | | |].
  - by rewrite Hw1, decide_True by lia.
  - by rewrite Hw1, decide_False, decide_True by lia.
  - by rewrite Hw1, !decide_False, decide_True by lia.
  - rewrite Hw1, !decide_False, Hw0, decide_True by lia. rewrite <- bit_testbit by lia. by apply bit_set_bit_same.
  - intros n Hn. by rewrite Hw2, decide_False by lia.
  - rewrite Hw2, decide_True by lia. rewrite <- bit_testbit by lia. by apply bit_set_bit_same.
  - intros k Hk. rewrite Hw2, decide_True, Hw1, !decide_False, Hw0, decide_True by lia.
    rewrite <- !bit_testbit by lia. by rewrite !bit_set_bit_other by lia.
  - intros j n Hj Hn. by rewrite Hw2, decide_False, Hw1, !decide_False, Hw0, decide_False by lia.
Qed.
End msix.

(** *** Witnesses *)

#[local] Existing Instance concrete_bit_field.

(** An NVMe controller with an MSI-X capability is device 2 of bus 0, and nothing else is there. *)
Definition demo_base : BaseAddresses :=
  {| mmio_phy := 0x10000000; mmio_vrt := 0xffff000050000000; mmio_size := 0x100000; pio := 0; pio_size := 0;
     ecam_phy := 0x40000000; ecam_vrt := 0xffff000040000000; ecam_size := 0x10000000 |}.

Definition demo_space (b dev off : Z) : Z :=
  if (b =? 0) && (dev =? 2) then
    match off with
    | 0 => 0x36 | 1 => 0x1b | 0x6 => 0x10 | 0x9 => 0x02 | 0xa => 0x08 | 0xb => 0x01 | 0x34 => 0x40 | 0x40 => 0x11
    | _ => 0
    end
  else 0xff.

(** The device counts the calls of its driver. *)
#[local] Instance demo_bus : Bus Z :=
  {| bus_read w p d := let o := p - 0xffff000040000000 in
       (le_val (demo_space (o / 2 ^ 20) (o / 2 ^ 15 mod 32)) (o mod 4096) (Z.to_nat w), d);
     bus_write w p v d := d |}.

Definition demo_driver : DriverInitFn (D := Z) := λ _ _ _ s, Ok tt (s.1, s.2 + 1).
Definition demo_registry (c : Z) : option (DriverInitFn (D := Z)) := if c =? 0x01080200 then Some demo_driver else None.

Lemma demo_nvme_block b dev : 0 ≤ b < 256 → 0 ≤ dev < 32 →
  cb_p (for_device demo_base (device b dev)) = 0xffff000040000000 + (b * 256 + dev * 8) * 4096.
Proof.
  intros Hb Hd. unfold for_device, device. cbn [cb_p ecam_vrt demo_base dev_bus dev_device dev_function].
  unfold VirtualAddress.add. rewrite wrapping_add_small by lia. lia.
Qed.

Lemma demo_bus_ok : bus_ok demo_base demo_registry demo_space (λ _, True).
Proof.
  split.
  - intros s b dev w off _ Hb Hd Hw Ho He. rewrite demo_nvme_block by done. cbn [bus_read demo_bus]. cbv zeta.
    replace (0xffff000040000000 + (b * 256 + dev * 8) * 4096 + off - 0xffff000040000000)
      with (b * 2 ^ 20 + dev * 2 ^ 15 + off) by lia.
    replace ((b * 2 ^ 20 + dev * 2 ^ 15 + off) / 2 ^ 20) with b by dlia.
    replace ((b * 2 ^ 20 + dev * 2 ^ 15 + off) / 2 ^ 15 mod 32) with dev by dlia.
    by replace ((b * 2 ^ 20 + dev * 2 ^ 15 + off) mod 4096) with off by dlia.
  - intros b dev _ _. unfold vendor_of, demo_space. by destruct ((b =? 0) && (dev =? 2)).
  - intros b dev _ _. unfold vendor_of. destruct ((b =? 0) && (dev =? 2)) eqn:E.
    + intros _ _. assert (∀ off, demo_space b dev off = demo_space 0 2 off) as Hsp by (intros off; unfold demo_space; by rewrite E).
      rewrite Hsp. eexists. apply chain_next; [done|]. rewrite Hsp. apply chain_end.
    + unfold demo_space. by rewrite E.
  - intros c f b dev s. unfold demo_registry. destruct (c =? 0x01080200); [|done]. by intros [= <-].
Qed.

Definition demo_memory : KernelMem := {| ktabs := demo_tables; kva := VirtAlloc.new 0 1 |}.

Lemma bus_scan_exact_witness : scan 64 demo_registry demo_base (demo_memory, 0) = Ok tt (demo_memory, 1) ∧ (length (attached demo_registry demo_space) = 1)%nat.
Proof.
  destruct (bus_scan_exact demo_base demo_registry demo_space (λ _, True) demo_bus_ok 64 (demo_memory, 0) ltac:(lia) Logic.I) as [H _].
  rewrite H. assert (attached demo_registry demo_space = [(device 0 2, demo_driver)]) as -> by (vm_compute; reflexivity).
  split; reflexivity.
Defined.

(** A list of two capabilities, and one that goes round in a circle. *)
Definition demo_list (off : Z) : Z := if off =? 0x40 then 5 else if off =? 0x41 then 0x50 else if off =? 0x50 then 0x11 else 0.
Definition demo_circle (off : Z) : Z := if off =? 0x41 then 0x40 else 5.

Definition byte_bus (bytes : Z → Z) : Bus unit :=
  {| bus_read w p d := (le_val bytes p (Z.to_nat w), d); bus_write w p v d := d |}.

Lemma capabilities_bounded_witness :
  (∃ cs, @collect_capabilities unit (byte_bus demo_list) Error 64 {| ci_p := 0; next_block := 0x40 |} tt = Ok cs tt ∧ length cs = 2%nat) ∧
  ∀ fuel, @collect_capabilities unit (byte_bus demo_circle) Error fuel {| ci_p := 0; next_block := 0x40 |} tt = Stop OutOfFuel.
Proof.
  assert (∀ bytes w off, 1 ≤ w → 0 ≤ off → off + w ≤ 256 →
    @bus_read _ (byte_bus bytes) w (0 + off) tt = (le_val bytes off (Z.to_nat w), tt)) as Hr by done.
  assert (0x40 ∈ offsets) as Ho by (apply (offset_masked 0x40)). split.
  - destruct (@capabilities_bounded unit (byte_bus demo_list) Error 0 demo_list tt (Hr demo_list) 0x40 Ho) as [(cs & _ & H)|H].
    + exists cs. pose proof (H 64%nat (le_n _)) as H64. split; [exact H64|]. vm_compute in H64. injection H64 as <-. reflexivity.
    + specialize (H 64%nat). vm_compute in H. discriminate H.
  - destruct (@capabilities_bounded unit (byte_bus demo_circle) Error 0 demo_circle tt (Hr demo_circle) 0x40 Ho) as [(cs & _ & H)|H];
      [|exact H]. specialize (H 64%nat (le_n _)). vm_compute in H. discriminate H.
Defined.

(** Memory of words. *)
#[local] Instance word_bus : Bus (Z → Z) :=
  {| bus_read w p d := (d p, d);
     bus_write w p v d := λ a, if w =? 8 then if a =? p then v mod 2 ^ 32 else if a =? p + 4 then v / 2 ^ 32 else d a
                               else if a =? p then v else d a |}.

Lemma msix_entry_programmed_witness : ∃ d1 d2 : Z → Z,
  write_entry (E := Error) {| msix_base := 0x1000; msix_size := 4 |} 2 {| register_addr := 0x108020040; data_value := 81; intid := 81 |} (λ _, 0)
    = Ok tt d1 ∧ set_mask (E := Error) {| msix_base := 0x1000; msix_size := 4 |} 2 false d1 = Ok tt d2 ∧
  d1 0x1020 = 0x08020040 ∧ d1 0x1024 = 1 ∧ d1 0x1028 = 81 ∧ Z.testbit (d2 0x102c) 0 = false.
Proof.
  assert (word_memory (D := Z → Z) (λ d a, d a)) as Hm by by split.
  destruct (msix_entry_programmed (E := Error) (λ d a, d a) Hm {| msix_base := 0x1000; msix_size := 4 |} 2
    {| register_addr := 0x108020040; data_value := 81; intid := 81 |} (λ _, 0)) as [H _].
  destruct H as (d1 & d2 & H1 & H2 & Ha & Hb & Hc & _ & _ & Hd & _); [cbn; lia|].
  exists d1, d2. split_and!; [exact H1|exact H2|exact Ha|exact Hb|exact Hc|exact Hd].
Defined.
