(* ===== verification/NvmeSetup.v ===== *)
(** Starting an NVMe controller: the parts of [NvmeDeviceRegistryHandler::configure] of
    [kernel/src/storage/nvme/mod.rs] before the admin queues are made and from there until the
    controller is ready, and what registers of a controller do.  NvmeOpen.v has [configure]. *)
From stdpp Require Import base list.
From S2P Require Import Prelude BitField Addresses VirtAlloc Nvme Pcie.

Definition REG_CAP : Z := 0x00.
Definition REG_CC : Z := 0x14.
Definition REG_CSTS : Z := 0x1c.
Definition REG_AQA : Z := 0x24.
Definition REG_ASQ : Z := 0x28.
Definition REG_ACQ : Z := 0x30.

Section setup.
Context `{BF : BitField} {D : Type} `{HB : Bus D} {E : Type}.
Local Abbreviation IO := (M D E).

Fixpoint busy_wait_for_ready_bit (fuel : nat) (csts : Z) (value : bool) : IO unit :=
  match fuel with
  | O => out_of_fuel
  | S fuel' =>
      csts_v ← read_at 1 csts;
      if Bool.eqb (bit csts_v 0) value then mret tt
      else if bit csts_v 1 then panic
      else busy_wait_for_ready_bit fuel' csts value
  end.

(** [configure] up to the creation of the admin queues; the result is the capabilities. *)
Definition reset_controller (fuel : nat) (base_address : Z) : IO Z :=
  let reg r := VirtualAddress.add base_address r in
  cap ← read_at 8 (reg REG_CAP);
  busy_wait_for_ready_bit fuel (reg REG_CSTS) true;;
  r ← read_at 4 (reg REG_CC);
  write_at 4 (reg REG_CC) (set_bit r 0 false);;
  busy_wait_for_ready_bit fuel (reg REG_CSTS) false;;
  mret cap.

(** [configure] from there until the controller is ready. *)
Definition enable_controller (fuel : nat) (base_address admin_cq_address admin_sq_address : Z) : IO unit :=
  let reg r := VirtualAddress.add base_address r in
  write_at 4 (reg REG_AQA) (admin_queue_attrbs (PAGE_SIZE / COMPLETION_ENTRY_SIZE) (PAGE_SIZE / SUBMISSION_ENTRY_SIZE));;
  write_at 8 (reg REG_ASQ) admin_sq_address;;
  write_at 8 (reg REG_ACQ) admin_cq_address;;
  write_at 4 (reg REG_CC) controller_config;;
  busy_wait_for_ready_bit fuel (reg REG_CSTS) true.
End setup.

(** The controller's side: [RDY] follows [EN] after a time that is counted in reads of [CSTS].
    [history] is what the registers were set to so far, and whether the controller was ready then. *)
Section controller.
Context `{BF : BitField} {D : Type} `{HB : Bus D} {E : Type} (base : Z).
Context (cc : D → Z) (rdy : D → bool) (delay : D → nat) (aqa asq acq : D → Z) (caps : Z).
Context (history : D → list (Z * Z * bool)).

Definition en (d : D) : bool := Z.testbit (cc d) 0.
Local Abbreviation reg r := (VirtualAddress.add base r).

Record controller : Prop := {
  ct_cap d : bus_read 8 (reg REG_CAP) d = (caps, d);
  ct_cc d : bus_read 4 (reg REG_CC) d = (cc d, d);
  ct_csts d : ∃ v d', bus_read 1 (reg REG_CSTS) d = (v, d') ∧ Z.testbit v 0 = rdy d ∧ Z.testbit v 1 = false ∧
    rdy d' = match delay d with O => en d | S _ => rdy d end ∧ delay d' = pred (delay d) ∧
    cc d' = cc d ∧ aqa d' = aqa d ∧ asq d' = asq d ∧ acq d' = acq d ∧ history d' = history d;
  ct_write_cc d v : let d' := bus_write 4 (reg REG_CC) v d in
    cc d' = v ∧ rdy d' = rdy d ∧ aqa d' = aqa d ∧ asq d' = asq d ∧ acq d' = acq d ∧
    history d' = history d ++ [(REG_CC, v, rdy d)];
  ct_write_aqa d v : let d' := bus_write 4 (reg REG_AQA) v d in
    aqa d' = v ∧ cc d' = cc d ∧ rdy d' = rdy d ∧ asq d' = asq d ∧ acq d' = acq d ∧
    history d' = history d ++ [(REG_AQA, v, rdy d)];
  ct_write_asq d v : let d' := bus_write 8 (reg REG_ASQ) v d in
    asq d' = v ∧ cc d' = cc d ∧ rdy d' = rdy d ∧ aqa d' = aqa d ∧ acq d' = acq d ∧
    history d' = history d ++ [(REG_ASQ, v, rdy d)];
  ct_write_acq d v : let d' := bus_write 8 (reg REG_ACQ) v d in
    acq d' = v ∧ cc d' = cc d ∧ rdy d' = rdy d ∧ aqa d' = aqa d ∧ asq d' = asq d ∧
    history d' = history d ++ [(REG_ACQ, v, rdy d)];
}.
Context (Hct : controller) (bound : nat) (Hbound : ∀ d, (delay d ≤ bound)%nat).

(** The wait ends when [EN] is what is waited for. *)
Lemma busy_wait_run value fuel d : en d = value → (delay d + 2 ≤ fuel)%nat → ∃ d',
  busy_wait_for_ready_bit (E := E) fuel (reg REG_CSTS) value d = Ok tt d' ∧
  cc d' = cc d ∧ aqa d' = aqa d ∧ asq d' = asq d ∧ acq d' = acq d ∧ rdy d' = value ∧ history d' = history d.
Proof.
  revert d. induction fuel as [|fuel IH]; intros d Hen Hf; [lia|]. cbn [busy_wait_for_ready_bit].
  destruct (ct_csts Hct d) as (v & d1 & Hr & H0 & H1 & Hrdy & Hdel & Hcc & Ha & Hs & Hc & Hh).
  erewrite bind_run by (unfold read_at; by rewrite Hr). rewrite !bit_testbit, H0, H1 by lia.
  destruct (Bool.eqb (rdy d) value) eqn:Eq.
  { exists d1. split_and!; try done. rewrite Hrdy. apply eqb_prop in Eq. by destruct (delay d). }
  assert (en d1 = value) as Hen1 by (unfold en in *; by rewrite Hcc).
  destruct (delay d) as [|n] eqn:Ed.
  - destruct fuel as [|fuel]; [lia|]. cbn [busy_wait_for_ready_bit].
    destruct (ct_csts Hct d1) as (v2 & d2 & Hr2 & H02 & H12 & Hrdy2 & Hdel2 & Hcc2 & Ha2 & Hs2 & Hc2 & Hh2).
    erewrite bind_run by (unfold read_at; by rewrite Hr2). rewrite !bit_testbit, H02, Hrdy, Hen, eqb_reflx by lia.
    exists d2. split_and!; try done; try congruence. rewrite Hrdy2. destruct (delay d1); congruence.
  - destruct (IH d1 Hen1) as (d' & Hrun & Hcc' & Ha' & Hs' & Hc' & Hr' & Hh'); [rewrite Hdel; cbn; lia|].
    exists d'. split_and!; [exact Hrun|congruence..].
Qed.

(** Without [EN], waiting for the controller to be ready does not end. *)
Lemma busy_wait_forever fuel d : en d = false → rdy d = false →
  busy_wait_for_ready_bit (E := E) fuel (reg REG_CSTS) true d = Stop OutOfFuel.
Proof.
  revert d. induction fuel as [|fuel IH]; intros d Hen Hr; [done|]. cbn [busy_wait_for_ready_bit].
  destruct (ct_csts Hct d) as (v & d1 & Hrd & H0 & H1 & Hrdy & _ & Hcc & _).
  erewrite bind_run by (unfold read_at; by rewrite Hrd). rewrite !bit_testbit, H0, H1, Hr by lia. cbn [Bool.eqb].
  apply IH; [unfold en in *; congruence|]. rewrite Hrdy. by destruct (delay d).
Qed.

Lemma read_cap x : read_at (E := E) 8 (reg REG_CAP) x = Ok caps x.
Proof. unfold read_at. by rewrite (ct_cap Hct). Qed.

Lemma reset_run fuel d : (bound + 2 ≤ fuel)%nat → en d = true → ∃ d',
  reset_controller (E := E) fuel base d = Ok caps d' ∧ rdy d' = false ∧
  history d' = history d ++ [(REG_CC, set_bit (cc d) 0 false, true)].
Proof.
  intros Hf Hen. assert (∀ d, (delay d + 2 ≤ fuel)%nat) as Hd by (intros d0; specialize (Hbound d0); lia).
  unfold reset_controller. erewrite bind_run by apply read_cap.
  destruct (busy_wait_run true fuel d Hen (Hd d)) as (d1 & H1 & Hcc1 & _ & _ & _ & Hr1 & Hh1). erewrite bind_run by exact H1.
  erewrite bind_run by (unfold read_at; by rewrite (ct_cc Hct)). erewrite bind_run by done.
  set (d2 := bus_write 4 (reg REG_CC) (set_bit (cc d1) 0 false) d1).
  destruct (ct_write_cc Hct d1 (set_bit (cc d1) 0 false)) as (Hcc2 & _ & _ & _ & _ & Hh2).
  fold d2 in Hcc2, Hh2.
  destruct (busy_wait_run false fuel d2) as (d3 & H3 & _ & _ & _ & _ & Hr3 & Hh3); [|apply Hd|].
  { unfold en. rewrite Hcc2, <- bit_testbit by lia. by apply bit_set_bit_same. }
  erewrite bind_run by exact H3. exists d3. split_and!; [done|done|]. by rewrite Hh3, Hh2, Hr1, Hcc1, Hh1.
Qed.

Lemma reset_forever fuel d : en d = false → rdy d = false → reset_controller (E := E) fuel base d = Stop OutOfFuel.
Proof.
  intros Hen Hr. unfold reset_controller. erewrite bind_run by apply read_cap. rewrite bind_unfold. by rewrite busy_wait_forever.
Qed.

Lemma enable_run fuel cq sq d3 : (bound + 2 ≤ fuel)%nat →
  let q := admin_queue_attrbs (PAGE_SIZE / COMPLETION_ENTRY_SIZE) (PAGE_SIZE / SUBMISSION_ENTRY_SIZE) in
  ∃ d', enable_controller (E := E) fuel base cq sq d3 = Ok tt d' ∧
  rdy d' = true ∧ cc d' = controller_config ∧ asq d' = sq ∧ acq d' = cq ∧ aqa d' = q ∧
  history d' = history d3 ++ [(REG_AQA, q, rdy d3); (REG_ASQ, sq, rdy d3); (REG_ACQ, cq, rdy d3); (REG_CC, controller_config, rdy d3)].
Proof.
  intros Hf q. assert (∀ d, (delay d + 2 ≤ fuel)%nat) as Hd by (intros d0; specialize (Hbound d0); lia).
  unfold enable_controller. erewrite bind_run by done. fold q. set (d4 := bus_write 4 (reg REG_AQA) q d3).
  destruct (ct_write_aqa Hct d3 q) as (Ha4 & _ & Hr4 & _ & _ & Hh4). fold d4 in Ha4, Hr4, Hh4. erewrite bind_run by done.
  set (d5 := bus_write 8 (reg REG_ASQ) sq d4). destruct (ct_write_asq Hct d4 sq) as (Hs5 & _ & Hr5 & Ha5 & _ & Hh5).
  fold d5 in Hs5, Hr5, Ha5, Hh5. erewrite bind_run by done.
  set (d6 := bus_write 8 (reg REG_ACQ) cq d5). destruct (ct_write_acq Hct d5 cq) as (Hc6 & _ & Hr6 & Ha6 & Hs6 & Hh6).
  fold d6 in Hc6, Hr6, Ha6, Hs6, Hh6. erewrite bind_run by done.
  set (d7 := bus_write 4 (reg REG_CC) controller_config d6).
  destruct (ct_write_cc Hct d6 controller_config) as (Hcc7 & _ & Ha7 & Hs7 & Hc7 & Hh7). fold d7 in Hcc7, Ha7, Hs7, Hc7, Hh7.
  destruct (busy_wait_run true fuel d7) as (d8 & H8 & Hcc8 & Ha8 & Hs8 & Hc8 & Hr8 & Hh8); [|apply Hd|].
  { unfold en. rewrite Hcc7. unfold controller_config. rewrite <- bit_testbit by lia. by apply bit_set_bit_same. }
  exists d8. split_and!; [exact H8|done|congruence..|].
  rewrite Hh8, Hh7, Hh6, Hh5, Hh4, Hr6, Hr5, Hr4, <- !app_assoc. done.
Qed.
End controller.

(** *** A controller *)

#[local] Existing Instance concrete_bit_field.

(** A controller that may take a read more to follow. *)
Record demo_ctrl := { dc_cc : Z; dc_rdy : bool; dc_late : bool; dc_aqa : Z; dc_asq : Z; dc_acq : Z;
  dc_history : list (Z * Z * bool) }.
Definition NVME_BASE : Z := 0xffff000050000000.
Definition demo_caps : Z := Z.shiftl 1 32.

Definition demo_write (d : demo_ctrl) (r v : Z) : list (Z * Z * bool) := dc_history d ++ [(r, v, dc_rdy d)].

#[local] Instance ctrl_bus : Bus demo_ctrl := {|
  bus_read w p d :=
    if p =? NVME_BASE + REG_CSTS then
      ((if dc_rdy d then 1 else 0),
       {| dc_cc := dc_cc d; dc_rdy := if dc_late d then dc_rdy d else Z.testbit (dc_cc d) 0; dc_late := false;
          dc_aqa := dc_aqa d; dc_asq := dc_asq d; dc_acq := dc_acq d; dc_history := dc_history d |})
    else if p =? NVME_BASE + REG_CC then (dc_cc d, d) else (demo_caps, d);
  bus_write w p v d :=
    if p =? NVME_BASE + REG_CC then
      {| dc_cc := v; dc_rdy := dc_rdy d; dc_late := true; dc_aqa := dc_aqa d; dc_asq := dc_asq d; dc_acq := dc_acq d;
         dc_history := demo_write d REG_CC v |}
    else if p =? NVME_BASE + REG_AQA then
      {| dc_cc := dc_cc d; dc_rdy := dc_rdy d; dc_late := dc_late d; dc_aqa := v; dc_asq := dc_asq d; dc_acq := dc_acq d;
         dc_history := demo_write d REG_AQA v |}
    else if p =? NVME_BASE + REG_ASQ then
      {| dc_cc := dc_cc d; dc_rdy := dc_rdy d; dc_late := dc_late d; dc_aqa := dc_aqa d; dc_asq := v; dc_acq := dc_acq d;
         dc_history := demo_write d REG_ASQ v |}
    else
      {| dc_cc := dc_cc d; dc_rdy := dc_rdy d; dc_late := dc_late d; dc_aqa := dc_aqa d; dc_asq := dc_asq d; dc_acq := v;
         dc_history := demo_write d REG_ACQ v |}
|}.

Definition demo_delay (d : demo_ctrl) : nat := if dc_late d then 1 else 0.

Lemma ctrl_ok : controller NVME_BASE dc_cc dc_rdy demo_delay dc_aqa dc_asq dc_acq demo_caps dc_history.
Proof.
  split; try done. intros d. eexists _, _. split; [done|]. unfold demo_delay, en.
  by destruct (dc_rdy d), (dc_late d).
Qed.

Definition demo_ctrl_on : demo_ctrl := {| dc_cc := 0x460001; dc_rdy := true; dc_late := false; dc_aqa := 0; dc_asq := 0; dc_acq := 0;
  dc_history := [] |}.
Definition demo_ctrl_off : demo_ctrl := {| dc_cc := 0; dc_rdy := false; dc_late := false; dc_aqa := 0; dc_asq := 0; dc_acq := 0;
  dc_history := [] |}.
