(* ===== verification/Tlb.v ===== *)
(** The translations that the processor caches: switching between page tables
    ([PageTable::activate]), the operations that empty the TLB ([flush_tlb_total_el1],
    [flush_tlb_for_asid]), and the guard of the kernel's page table, which does so when it is
    dropped ([KernelTableGuard]), all of [kernel/src/memory/paging.rs].

    The processor may at any time walk the tables that are active and keep the result.  An entry
    whose [ng] bit is clear is global: it is kept for all address space ids.  [TLBI ASIDE1]
    takes the id from the top 16 bits of its operand and leaves global entries alone.  The
    address space id in use is that of [TTBR0_EL1] ([TCR_EL1.A1] is 0 in [start.S]). *)
From stdpp Require Import base list relations.
From S2P Require Import Prelude BitField Addresses Frames PageEntry Paging PagingTree MapRange UnmapRange.

Record TlbEntry := {
  te_asid : option Z;        (* [None]: global *)
  te_page : Z;
  te_frame : Z;
  te_read_only : bool;
  te_el0 : bool;
}.

Record Mmu := {
  ttbr0 : Z;
  ttbr1 : Z;
  tlb : list TlbEntry;
}.

Definition set_tlb (c : Mmu) (l : list TlbEntry) : Mmu :=
  {| ttbr0 := ttbr0 c; ttbr1 := ttbr1 c; tlb := l |}.

(** *** The instructions *)

Definition tlbi_vmalle1 (c : Mmu) : Mmu := set_tlb c [].
Definition tlbi_aside1 (x : Z) (c : Mmu) : Mmu :=
  set_tlb c (filter (λ t, te_asid t ≠ Some (Z.shiftr x 48)) (tlb c)).

(** *** The code *)

Definition activate (self : PageTable) (c : Mmu) : Mmu :=
  let v := Z.lor (Z.shiftl (asid self) 48) (level0_phy_addr self) in
  if negb (high_addresses self) then {| ttbr0 := v; ttbr1 := ttbr1 c; tlb := tlb c |}
  else {| ttbr0 := ttbr0 c; ttbr1 := v; tlb := tlb c |}.

Definition flush_tlb_total_el1 : Mmu → Mmu := tlbi_vmalle1.
Definition flush_tlb_for_asid (id : Z) : Mmu → Mmu := tlbi_aside1 id.

(** What [ThreadScheduler::resume_current_thread] does to it; [parent] is the page table of
    the thread's process. *)
Definition resume_mmu (parent : option PageTable) (previous_asid : option Z) (c : Mmu) : Mmu :=
  let c := match parent with Some pt => activate pt c | None => c end in
  flush_tlb_for_asid (default 0 previous_asid) c.

(** [Drop for KernelTableGuard] *)
Definition drop_guard {A} (table : PageTable) (s : Tables A) (c : Mmu) : Mmu :=
  if decide (level0_phy_addr table ∈ modified s) then flush_tlb_total_el1 c else c.

Section tlb.
Context `{BF : BitField}.
Implicit Types (c : Mmu) (T : gmap Z LevelTable).

Definition ng (e : PageTableEntry) : bool := bit e 11.

(** *** The processor *)

Definition current_asid c : Z := Z.shiftr (ttbr0 c) 48.
(** The pointer to the table that a [TTBR] holds the address of. *)
Definition root_of (ttbr : Z) : Z := ttbr mod 2 ^ 48 + CANONICAL.

Definition is_high (va : Z) : bool := tag_of va =? 0xffff.
Definition active c (va : Z) : Z := root_of (if is_high va then ttbr1 c else ttbr0 c).

Definition walk_tables T c (va : Z) : option TlbEntry :=
  '(pa, ro, el0) ← translate T (is_high va) (active c va) va;
  '(_, e) ← leaf T (active c va) (idx va);
  Some {| te_asid := if ng e then Some (current_asid c) else None;
          te_page := va / PAGE_SIZE; te_frame := pa / PAGE_SIZE; te_read_only := ro; te_el0 := el0 |}.

Definition fill T (va : Z) c : Mmu :=
  match walk_tables T c va with Some x => set_tlb c (x :: tlb c) | None => c end.

Definition hits c (va : Z) (x : TlbEntry) : Prop :=
  x ∈ tlb c ∧ te_page x = va / PAGE_SIZE ∧ (te_asid x = None ∨ te_asid x = Some (current_asid c)).

(** The translations that an access to [va] may use. *)
Definition uses T c (va : Z) (x : TlbEntry) : Prop := hits c va x ∨ walk_tables T c va = Some x.

(** The entry says what the table says of its page. *)
Definition agrees T (high : bool) (root : Z) (x : TlbEntry) : Prop :=
  ∀ va, is_usize va → va / PAGE_SIZE = te_page x →
    translate T high root va = Some (te_frame x * PAGE_SIZE + va mod PAGE_SIZE, te_read_only x, te_el0 x).
End tlb.

Section lemmas.
Context `{BF : BitField}.
Implicit Types (c : Mmu) (T : gmap Z LevelTable).

(** *** Pages *)

Lemma walk_level T π : ∀ p lvl l e, walk T p lvl π = Some (l, e) → lvl ≤ l < lvl + Z.of_nat (length π).
Proof.
  induction π as [|i π IH]; intros p lvl l e; cbn [walk length]; [done|]. intros H.
  destruct (entry T p i) as [e0|]; [|done]. cbn in H. destruct (table_ref e0 lvl) as [q|].
  - apply IH in H. lia.
  - simplify_eq. lia.
Qed.

Lemma same_page_parts va va' : is_usize va → is_usize va' → va / PAGE_SIZE = va' / PAGE_SIZE →
  idx va = idx va' ∧ tag_of va = tag_of va'.
Proof.
  unfold is_usize. intros Hu Hu' Hp. unfold PAGE_SIZE in Hp. change (4 * 1024) with 4096 in Hp. unfold tag_of.
  assert (∀ k, 0 ≤ k → va / 2 ^ (12 + k) = va' / 2 ^ (12 + k)) as Hk.
  { intros k Hk. rewrite Z.pow_add_r by lia. change (2 ^ 12) with 4096. by rewrite <- !Z.div_div, Hp by lia. }
  pose proof (Hk 0 ltac:(lia)) as H0. pose proof (Hk 9 ltac:(lia)) as H9. pose proof (Hk 18 ltac:(lia)) as H18.
  pose proof (Hk 27 ltac:(lia)) as H27. pose proof (Hk 36 ltac:(lia)) as H36.
  change (12 + 0) with 12 in H0. change (12 + 9) with 21 in H9. change (12 + 18) with 30 in H18.
  change (12 + 27) with 39 in H27. change (12 + 36) with 48 in H36.
  split; [|done]. rewrite !idx_digits by done. by rewrite H0, H9, H18, H27.
Qed.

(** Within a page, only the offset differs. *)
Lemma translate_same_page T high root va va' pa ro el0 : is_usize va → is_usize va' →
  va / PAGE_SIZE = va' / PAGE_SIZE → translate T high root va = Some (pa, ro, el0) →
  translate T high root va' = Some (pa / PAGE_SIZE * PAGE_SIZE + va' mod PAGE_SIZE, ro, el0).
Proof.
  intros Hu Hu' Hp. destruct (same_page_parts va va' Hu Hu' Hp) as [Hi Ht]. unfold translate.
  rewrite !to_parts_digits by done. unfold tag_of in Ht. rewrite Ht. destruct (tag_ok high _); [|done]. rewrite Hi.
  destruct (leaf T root (idx va')) as [[lvl e]|] eqn:Hl; [|done]. cbn.
  destruct ((lvl =? 0) || _) eqn:Hty; [done|]. intros [= <- <- <-]. do 3 f_equal.
  assert (1 ≤ lvl ≤ 3) as Hlvl.
  { unfold leaf in Hl. destruct (walk T root 0 (idx va')) as [[l0 e0]|] eqn:Hw; [|done]. cbn in Hl.
    destruct (valid e0); [|done]. simplify_eq. apply walk_level in Hw. rewrite idx_digits in Hw by done. cbn in Hw.
    destruct (Z.eqb_spec lvl 0); [done|lia]. }
  rewrite (span_pages lvl Hlvl). assert (0 < block_pages lvl) as Hb.
  { pose proof (span_pos lvl ltac:(lia)). rewrite span_pages in * by lia. unfold PAGE_SIZE in *. lia. }
  set (b := block_pages lvl) in *. set (x := entry_address e * PAGE_SIZE / (b * PAGE_SIZE)).
  assert (∀ v, v mod (b * PAGE_SIZE) = v mod PAGE_SIZE + PAGE_SIZE * ((v / PAGE_SIZE) mod b)) as Hmod.
  { intros v. rewrite (Z.mul_comm b). apply Z.rem_mul_r; unfold PAGE_SIZE; lia. }
  rewrite !Hmod, Hp. set (y := (va' / PAGE_SIZE) mod b).
  replace (x * (b * PAGE_SIZE) + (va mod PAGE_SIZE + PAGE_SIZE * y))
    with (va mod PAGE_SIZE + (x * b + y) * PAGE_SIZE) by lia.
  rewrite Z.div_add by (unfold PAGE_SIZE; lia).
  rewrite (Z.div_small (va mod PAGE_SIZE)) by (apply Z.mod_pos_bound; unfold PAGE_SIZE; lia). lia.
Qed.

Lemma walk_tables_Some T c va x : walk_tables T c va = Some x → ∃ pa lvl e,
  translate T (is_high va) (active c va) va = Some (pa, te_read_only x, te_el0 x) ∧
  leaf T (active c va) (idx va) = Some (lvl, e) ∧ te_page x = va / PAGE_SIZE ∧ te_frame x = pa / PAGE_SIZE ∧
  te_asid x = if ng e then Some (current_asid c) else None.
Proof.
  unfold walk_tables. destruct (translate T (is_high va) (active c va) va) as [[[pa ro] el0]|]; [|done]. cbn.
  destruct (leaf T (active c va) (idx va)) as [[lvl e]|]; [|done]. cbn. intros [= <-]. by exists pa, lvl, e.
Qed.

Lemma walk_agrees T c va x : is_usize va → walk_tables T c va = Some x →
  agrees T (is_high va) (active c va) x.
Proof.
  intros Hu (pa & lvl & e & Htr & _ & Hpg & Hfr & _)%walk_tables_Some va' Hu' Hp.
  rewrite Hpg in Hp. rewrite Hfr. by apply (translate_same_page T _ _ va va').
Qed.

Lemma is_high_page va va' : is_usize va → is_usize va' → va / PAGE_SIZE = va' / PAGE_SIZE → is_high va = is_high va'.
Proof. intros Hu Hu' Hp. unfold is_high. by destruct (same_page_parts va va' Hu Hu' Hp) as [_ ->]. Qed.
End lemmas.

(** *** What the operations keep *)

Definition preserves {S E X} (P : S → Prop) (m : M S E X) : Prop :=
  ∀ s, P s → match m s with Ok _ s' | Err _ s' => P s' | Stop _ => True end.

Lemma preserves_bind_ok {S E X Y} (P : S → Prop) (m : M S E X) (k : X → M S E Y) :
  preserves P m → (∀ x s s', m s = Ok x s' → preserves P (k x)) → preserves P (m ≫= k).
Proof.
  intros Hm Hk s Hs. rewrite bind_unfold. specialize (Hm s Hs). destruct (m s) as [x s'|e s'|w] eqn:E1; [|done|done].
  by apply (Hk x s s').
Qed.
Lemma preserves_bind {S E X Y} (P : S → Prop) (m : M S E X) (k : X → M S E Y) :
  preserves P m → (∀ x, preserves P (k x)) → preserves P (m ≫= k).
Proof. intros Hm Hk. apply preserves_bind_ok; [done|]. intros. apply Hk. Qed.
Lemma preserves_ret {S E X} (P : S → Prop) (x : X) : preserves (E := E) P (mret x).
Proof. by intros s Hs. Qed.
Lemma preserves_lift {S E X} (P : S → Prop) (o : option X) : preserves (E := E) P (lift o).
Proof. intros s Hs. by destruct o. Qed.
Lemma preserves_assert {S E} (P : S → Prop) b : preserves (E := E) P (assert b).
Proof. intros s Hs. by destruct b. Qed.
Lemma preserves_throw {S E X} (P : S → Prop) (e : E) : preserves (X := X) P (throw e).
Proof. by intros s Hs. Qed.
Lemma preserves_stop {S E X} (P : S → Prop) w : preserves (S := S) (E := E) (X := X) P (λ _, Stop w).
Proof. by intros s Hs. Qed.

Create HintDb preserves.
#[export] Hint Resolve preserves_bind preserves_ret preserves_lift preserves_assert preserves_throw preserves_stop : preserves.

Section invariants.
Context `{BF : BitField} {A : Type} `{FA : !FrameAllocator A}.
Context (P : Tables A → Prop).
Context (Hwrite : ∀ table i e, ng e = false → preserves P (write_entry table i e)).
Context (Halloc : preserves P allocate_table) (Hmod : ∀ pt, preserves P (set_modified pt)).

Lemma read_entry_preserves table i : preserves P (read_entry table i).
Proof.
  intros s Hs. unfold read_entry. rewrite bind_unfold. cbn. destruct (tables s !! table) as [t|]; [|done]. by destruct (t !! Z.to_nat i).
Qed.

Ltac plain := unfold ng, table_desc, page_entry, apply, set_valid, set_type, set_address, set_af,
  set_ap_read_only, set_ap_el0_access; autorewrite with bits; try done.
Lemma table_desc_plain p : ng (table_desc p) = false.
Proof. plain. Qed.
Lemma page_entry_plain p o : ng (apply o (page_entry p)) = false.
Proof. plain. Qed.
Lemma block_entry_plain p lvl e o : block_entry p lvl = Some e → ng (apply o e) = false.
Proof.
  unfold block_entry. destruct (if lvl =? 1 then _ else _); [|done]. intros [= <-]. plain.
Qed.
Lemma invalid_plain : ng invalid = false.
Proof. unfold invalid. plain. Qed.

Lemma descend_preserves phy n i o levels : ∀ table, preserves P (descend phy n i o levels table).
Proof.
  induction levels as [|[[[lvl j] can] size] levels IH]; intros table; cbn [descend]; [apply preserves_ret|].
  apply preserves_bind; [apply read_entry_preserves|]. intros e. destruct (table_ref e lvl); [apply IH|].
  apply preserves_bind; [apply preserves_assert|]. intros _.
  apply preserves_bind_ok.
  { destruct can; [|apply preserves_ret]. apply preserves_bind; [apply preserves_lift|]. intros left.
    destruct (size <=? left); eauto with preserves. }
  intros [b|] s s' Hb.
  - assert (∃ pa, block_entry pa lvl = Some b) as [pa Hpa].
    { destruct can; [|done]. apply bind_Ok in Hb as (left & s1 & _ & Hb). destruct (size <=? left); [|done].
      apply bind_Ok in Hb as (off & s2 & _ & Hb). apply bind_Ok in Hb as (pa & s3 & _ & Hb). exists pa. by injection Hb. }
    apply preserves_bind; [|intros; apply preserves_ret]. apply Hwrite. by eapply block_entry_plain.
  - apply preserves_bind; [apply Halloc|intros new]. apply preserves_bind; [apply Hwrite, table_desc_plain|].
    intros _. apply preserves_bind; [apply preserves_lift|]. intros next. apply IH.
Qed.

Lemma map_page_preserves pt phy va n o i : preserves P (map_page pt phy va n o i).
Proof.
  unfold map_page. apply preserves_bind; [apply preserves_lift|]. intros off.
  apply preserves_bind; [apply preserves_lift|]. intros st.
  destruct (VirtualAddress.to_parts st) as [[[[[tag i0] i1] i2] i3] po].
  apply preserves_bind; [apply descend_preserves|]. intros [table|k]; [|apply preserves_lift].
  apply preserves_bind; [apply preserves_lift|]. intros pa.
  apply preserves_bind; [apply Hwrite, page_entry_plain|]. intros _. apply preserves_lift.
Qed.

Lemma map_range_preserves pt phy va n b o : preserves P (map_range pt phy va n b o).
Proof.
  assert (∀ fuel i, preserves P (map_loop fuel pt phy va n o i)) as Hloop.
  { induction fuel as [|fuel IH]; intros i; cbn [map_loop]; destruct (i <? n);
      try apply preserves_ret; [apply preserves_stop|].
    apply preserves_bind; [apply map_page_preserves|]. intros. apply IH. }
  unfold map_range. destruct (VirtualAddress.to_parts va) as [[[[[tag i0] i1] i2] i3] po].
  destruct (negb (po =? 0)); [apply preserves_throw|]. destruct (negb (tag_ok _ tag)); [apply preserves_throw|].
  destruct (negb b); [apply preserves_stop|]. apply preserves_bind; [apply Hloop|]. intros _. apply Hmod.
Qed.

Lemma unmap_page_preserves a levels : ∀ table, preserves P (unmap_page a levels table).
Proof.
  induction levels as [|[[lvl j] size] levels IH]; intros table; cbn [unmap_page]; [apply preserves_ret|].
  apply preserves_bind; [apply read_entry_preserves|]. intros e. destruct (table_ref e lvl); [apply IH|].
  apply preserves_bind; [apply preserves_assert|]. intros _.
  apply preserves_bind; [apply Hwrite, invalid_plain|]. intros _. apply preserves_ret.
Qed.

Lemma unmap_range_custom_preserves pt va n : preserves P (unmap_range_custom pt va n).
Proof.
  assert (∀ fuel i, preserves P (unmap_loop fuel pt va n i)) as Hloop.
  { induction fuel as [|fuel IH]; intros i; cbn [unmap_loop]; destruct (i <? n);
      try apply preserves_ret; [apply preserves_stop|].
    apply preserves_bind; [apply preserves_lift|]. intros off. apply preserves_bind; [apply preserves_lift|].
    intros a. apply preserves_bind; [apply unmap_page_preserves|]. intros [k regions].
    apply preserves_bind; [apply preserves_lift|]. intros i'. apply preserves_bind; [apply IH|].
    intros. apply preserves_ret. }
  unfold unmap_range_custom. apply preserves_bind; [apply Hloop|]. intros regions.
  apply preserves_bind; [apply Hmod|]. intros. apply preserves_ret.
Qed.
End invariants.

(** The tables have no entry that is not global, and flags once set stay set. *)
Section kept.
Context `{BF : BitField} {A : Type} `{FA : !FrameAllocator A}.

Definition all_global (s : Tables A) : Prop :=
  ∀ table t i e, tables s !! table = Some t → t !! i = Some e → ng e = false.

Lemma global_write table i e : ng e = false → preserves all_global (write_entry table i e).
Proof.
  intros He s Hs. unfold write_entry. rewrite bind_unfold. cbn. destruct (tables s !! table) as [t|] eqn:Ht; [|done].
  destruct (t !! Z.to_nat i) as [e0|] eqn:Hi; [|done]. rewrite bind_unfold. cbn.
  intros q t' j e' Hq Hj. cbn in Hq. destruct (decide (q = table)) as [->|Hne].
  - rewrite lookup_insert_eq in Hq. simplify_eq. apply list_lookup_insert_Some in Hj as [(_ & <- & _)|[_ Hj]]; [done|].
    by eapply Hs.
  - rewrite lookup_insert_ne in Hq by done. by eapply Hs.
Qed.

Lemma global_alloc : preserves all_global allocate_table.
Proof.
  intros s Hs. unfold allocate_table, with_frames. rewrite bind_unfold.
  destruct (fa_alloc (frames s)) as [pa a|e a|w]; [|done|done].
  rewrite bind_unfold. destruct (PhysicalAddress.to_virtual_canonical pa) as [p|]; [|done]. cbn.
  intros q t j e Hq Hj. cbn in Hq. destruct (decide (q = p)) as [->|Hne].
  - rewrite lookup_insert_eq in Hq. simplify_eq. rewrite (zero_table_lookup j e Hj). apply invalid_plain.
  - rewrite lookup_insert_ne in Hq by done. by eapply Hs.
Qed.

Lemma global_modified pt : preserves all_global (set_modified pt).
Proof. intros s Hs. exact Hs. Qed.

Lemma flag_write (k : Z) table i e : ng e = false → preserves (λ s : Tables A, k ∈ modified s) (write_entry table i e).
Proof.
  intros _ s Hs. unfold write_entry. rewrite bind_unfold. cbn. destruct (tables s !! table) as [t|]; [|done].
  by destruct (t !! Z.to_nat i).
Qed.
Lemma flag_alloc (k : Z) : preserves (λ s : Tables A, k ∈ modified s) allocate_table.
Proof.
  intros s Hs. unfold allocate_table, with_frames. rewrite bind_unfold.
  destruct (fa_alloc (frames s)) as [pa a|e a|w]; [|done|done].
  rewrite bind_unfold. by destruct (PhysicalAddress.to_virtual_canonical pa).
Qed.
Lemma flag_modified (k : Z) pt : preserves (λ s : Tables A, k ∈ modified s) (set_modified pt).
Proof. intros s Hs. cbn. set_solver. Qed.

(** An operation that succeeds sets the flag. *)
Lemma map_range_flag pt phy va n b o s u s' : map_range pt phy va n b o s = Ok u s' → level0_phy_addr pt ∈ modified s'.
Proof.
  unfold map_range. destruct (VirtualAddress.to_parts va) as [[[[[tag i0] i1] i2] i3] po].
  destruct (negb (po =? 0)); [done|]. destruct (negb (tag_ok _ tag)); [done|]. destruct (negb b); [done|].
  intros (? & s1 & _ & Hm)%bind_Ok. injection Hm as _ <-. cbn. set_solver.
Qed.
Lemma unmap_range_flag pt va n (s s' : Tables A) r : unmap_range_custom pt va n s = Ok r s' → level0_phy_addr pt ∈ modified s'.
Proof.
  unfold unmap_range_custom. intros (? & s1 & _ & (? & s2 & Hm & Hr)%bind_Ok)%bind_Ok.
  injection Hm as _ <-. injection Hr as _ <-. cbn. set_solver.
Qed.
End kept.

(** *** The kernel's half

    The state is the tables, the processor and the number of guards that exist. *)
Section coherence.
Context `{BF : BitField} {A : Type} `{FA : !FrameAllocator A} (kernel : PageTable).
Local Abbreviation kroot := (level0_table kernel).

Inductive mmu_step : Tables A * Mmu * nat → Tables A * Mmu * nat → Prop :=
  (* the processor walks the tables, for an access or ahead of one *)
  | mmu_fill s c n va : is_usize va → mmu_step (s, c, n) (s, fill (tables s) va c, n)
  (* [kernel_table()], operations through the guard, and its end *)
  | mmu_take s c n : mmu_step (s, c, n) (s, c, S n)
  | mmu_map s c n phy va count b o u s' : map_range kernel phy va count b o s = Ok u s' →
      mmu_step (s, c, S n) (s', c, S n)
  | mmu_map_failed s c n phy va count b o e s' : map_range kernel phy va count b o s = Err e s' →
      level0_phy_addr kernel ∈ modified s → mmu_step (s, c, S n) (s', c, S n)
  | mmu_unmap s c n va count r s' : unmap_range_custom kernel va count s = Ok r s' →
      mmu_step (s, c, S n) (s', c, S n)
  | mmu_drop s c n : mmu_step (s, c, S n) (s, drop_guard kernel s c, n)
  (* an exception returns, to a thread of a process or of the kernel *)
  | mmu_resume s c n parent previous : (∀ pt, parent = Some pt → high_addresses pt = false) →
      mmu_step (s, c, n) (s, resume_mmu parent previous c, n)
  (* operations on other tables *)
  | mmu_other s c n s' : (∀ va, is_usize va → translate (tables s') true kroot va = translate (tables s) true kroot va) →
      modified s ⊆ modified s' → mmu_step (s, c, n) (s', c, n).

Definition high_page (p : Z) : bool := p / 2 ^ 36 =? 0xffff.

Lemma is_high_high va : is_high va = high_page (va / PAGE_SIZE).
Proof. unfold is_high, high_page, tag_of. by rewrite Z.div_div. Qed.

(** Every entry of the kernel's half agrees with the table, or its table was changed under a
    guard that still exists. *)
Definition coherent (x : Tables A * Mmu * nat) : Prop :=
  let '(s, c, n) := x in
  root_of (ttbr1 c) = kroot ∧
  ∀ t, t ∈ tlb c → high_page (te_page t) = true →
    agrees (tables s) true kroot t ∨ (n ≠ 0%nat ∧ level0_phy_addr kernel ∈ modified s).

Lemma resume_ttbr1 parent previous c : (∀ pt, parent = Some pt → high_addresses pt = false) →
  ttbr1 (resume_mmu parent previous c) = ttbr1 c ∧ ∀ t, t ∈ tlb (resume_mmu parent previous c) → t ∈ tlb c.
Proof.
  intros Hp. unfold resume_mmu, flush_tlb_for_asid, tlbi_aside1. cbn. split.
  - destruct parent as [pt|]; [|done]. unfold activate. by rewrite (Hp pt eq_refl).
  - intros t [_ Ht]%list_elem_of_filter. destruct parent as [pt|]; [|done].
    unfold activate in Ht. by destruct (negb (high_addresses pt)).
Qed.

Lemma coherent_step x y : mmu_step x y → coherent x → coherent y.
Proof.
  destruct 1 as [s c n va Hu|s c n|s c n phy va count b o u s' Hm|s c n phy va count b o e s' Hm Hmod
    |s c n va count r s' Hm|s c n|s c n parent previous Hp|s c n s' Hsame Hmod]; intros [Hr Hc]; unfold coherent in *.
  - unfold fill. destruct (walk_tables (tables s) c va) as [x|] eqn:Hw; [|done]. split; [done|].
    intros t [->|Ht]%elem_of_cons Hhigh; [|by apply Hc]. left.
    pose proof (walk_agrees _ _ _ _ Hu Hw) as Ha. apply walk_tables_Some in Hw as (_ & _ & _ & _ & _ & Hpg & _).
    rewrite Hpg, <- is_high_high in Hhigh. unfold active in Ha. by rewrite Hhigh, Hr in Ha.
  - split; [done|]. intros t Ht Hhigh. destruct (Hc t Ht Hhigh) as [|[_ ?]]; [by left|by right].
  - split; [done|]. intros. right. split; [done|]. by eapply map_range_flag.
  - split; [done|]. intros. right. split; [done|].
    pose proof (map_range_preserves _ (flag_write _) (flag_alloc _) (flag_modified _) kernel phy va count b o s Hmod) as Hk.
    by rewrite Hm in Hk.
  - split; [done|]. intros. right. split; [done|]. by eapply unmap_range_flag.
  - unfold drop_guard. case_decide as Hmod; [split; [done|]; by intros t ?%elem_of_nil|]. split; [done|].
    intros t Ht Hhigh. destruct (Hc t Ht Hhigh) as [|[_ ?]]; [by left|done].
  - destruct (resume_ttbr1 parent previous c Hp) as [Ht1 Hsub]. rewrite Ht1. split; [done|].
    intros t Ht. by apply Hc, Hsub.
  - split; [done|]. intros t Ht Hhigh. destruct (Hc t Ht Hhigh) as [Ha|[? ?]]; [left|right; set_solver].
    intros va Hu Hpg. rewrite Hsame by done. by apply Ha.
Qed.

Lemma coherent_steps x y : rtc mmu_step x y → coherent x → coherent y.
Proof. induction 1 as [|x y z Hs _ IH]; [done|]. intros Hx. by eapply IH, coherent_step. Qed.

(** C24: addresses of the kernel are translated as its page table says.  Start with an empty TLB
    and let the kernel map and unmap ranges under guards, switch between processes, and the
    processor walk the tables whenever it likes: while no guard exists, a translation that the
    processor uses for an address of the kernel's half, cached or not, is the one in the table.
    A call of [map_range] that fails may only come after one that succeeded, because it does not
    mark the table as changed. *)
Theorem kernel_translations_coherent s0 c0 s c va x : tlb c0 = [] → root_of (ttbr1 c0) = kroot →
  rtc mmu_step (s0, c0, 0%nat) (s, c, 0%nat) → is_usize va → is_high va = true → uses (tables s) c va x →
  translate (tables s) true kroot va = Some (te_frame x * PAGE_SIZE + va mod PAGE_SIZE, te_read_only x, te_el0 x).
Proof.
  intros Htlb Hroot Hs Hu Hhigh Huse. assert (coherent (s, c, 0%nat)) as [Hr Hc].
  { eapply coherent_steps; [exact Hs|]. split; [done|]. intros t Ht. rewrite Htlb in Ht. by apply elem_of_nil in Ht. }
  destruct Huse as [(Hin & Hpg & _)|Hw].
  - destruct (Hc x Hin) as [Ha|[? _]]; [by rewrite Hpg, <- is_high_high|by apply Ha|done].
  - pose proof (walk_agrees _ _ _ _ Hu Hw) as Ha. apply walk_tables_Some in Hw as (_ & _ & _ & _ & _ & Hpg & _).
    unfold active in Ha. rewrite Hhigh, Hr in Ha. by apply Ha.
Qed.
End coherence.

(** *** The half of the processes *)
Section shared.
Context `{BF : BitField} {A : Type} `{FA : !FrameAllocator A}.

Inductive table_step : Tables A → Tables A → Prop :=
  | ts_empty s high id pt s' : empty high id s = Ok pt s' → table_step s s'
  | ts_map s pt phy va n b o u s' : map_range pt phy va n b o s = Ok u s' → table_step s s'
  | ts_map_failed s pt phy va n b o e s' : map_range pt phy va n b o s = Err e s' → table_step s s'
  | ts_unmap s pt va n r s' : unmap_range_custom pt va n s = Ok r s' → table_step s s'.

Lemma table_step_global s s' : table_step s s' → all_global s → all_global s'.
Proof.
  destruct 1 as [s high id pt s' Hs|s pt phy va n b o u s' Hs|s pt phy va n b o e s' Hs|s pt va n r s' Hs]; intros Hg.
  - apply bind_Ok in Hs as (phy & s1 & Ha & (ptr & s2 & [_ ->]%lift_Ok & Hs)%bind_Ok). injection Hs as _ <-.
    pose proof (global_alloc s Hg) as Hk. by rewrite Ha in Hk.
  - pose proof (map_range_preserves _ global_write global_alloc global_modified pt phy va n b o s Hg) as Hk. by rewrite Hs in Hk.
  - pose proof (map_range_preserves _ global_write global_alloc global_modified pt phy va n b o s Hg) as Hk. by rewrite Hs in Hk.
  - pose proof (unmap_range_custom_preserves _ global_write global_modified pt va n s Hg) as Hk. by rewrite Hs in Hk.
Qed.

Lemma leaf_global (s : Tables A) root π lvl e : all_global s → leaf (tables s) root π = Some (lvl, e) → ng e = false.
Proof.
  intros Hg. unfold leaf. destruct (walk (tables s) root 0 π) as [[l e0]|] eqn:Hw; [|done]. cbn.
  destruct (valid e0); [|done]. intros [= -> ->]. revert Hw. generalize 0 root. induction π as [|i π IH]; intros k p; cbn [walk]; [done|].
  unfold entry. destruct (tables s !! p) as [t|] eqn:Ht; [|done]. cbn. destruct (t !! i) as [e1|] eqn:Hi; [|done]. cbn.
  destruct (table_ref e1 k) as [q|]; [apply IH|]. intros [= -> ->]. by eapply Hg.
Qed.

(** A page table of a process as the kernel creates them. *)
Definition user_table (pt : PageTable) : Prop :=
  high_addresses pt = false ∧ level0_table pt = level0_phy_addr pt + CANONICAL ∧ 0 ≤ level0_phy_addr pt < 2 ^ 48 ∧
  0 ≤ asid pt < 2 ^ 16.

Lemma activate_root pt c : user_table pt → root_of (ttbr0 (activate pt c)) = level0_table pt.
Proof.
  intros (Hh & Hl & Hp & Ha). unfold activate, root_of. rewrite Hh, Hl. cbn [negb ttbr0].
  rewrite (lor_add _ _ 48) by (rewrite ?Z.shiftl_mul_pow2, ?Z.mod_mul by lia; lia).
  rewrite Z.shiftl_mul_pow2, (Z.add_comm (asid pt * _)), Z.mod_add, Z.mod_small by lia. done.
Qed.

(** C25: cached translations of one process serve the next one.  Whatever tables the kernel has
    built: when the processor has walked the table of a process for a page of it, and the kernel
    then resumes a thread of any other process, emptying the TLB for the id of the first, the
    translation to the page of the first process is still there and is used for the second,
    with the first one's permissions. *)
Theorem user_translations_shared (s0 s : Tables A) (p q : PageTable) c va pa ro el0 :
  all_global s0 → rtc table_step s0 s → user_table p → user_table q → is_usize va → tag_of va = 0 →
  translate (tables s) false (level0_table p) va = Some (pa, ro, el0) →
  ∃ x, hits (resume_mmu (Some q) (Some (asid p)) (fill (tables s) va (activate p c))) va x ∧
    te_frame x * PAGE_SIZE + va mod PAGE_SIZE = pa ∧ te_read_only x = ro ∧ te_el0 x = el0.
Proof.
  intros Hg Hs Hp Hq Hu Htag Htr. assert (all_global s) as Hgs.
  { clear Htr. induction Hs as [|s1 s2 s3 H12 _ IH]; [done|]. by eapply IH, table_step_global. }
  assert (is_high va = false) as Hlow by (unfold is_high; by rewrite Htag).
  assert (active (activate p c) va = level0_table p) as Hact by (unfold active; rewrite Hlow; by apply activate_root).
  unfold fill. destruct (walk_tables (tables s) (activate p c) va) as [x|] eqn:Hw.
  2: { unfold walk_tables in Hw. rewrite Hact, Hlow, Htr in Hw. cbn in Hw. unfold translate in Htr.
       destruct (VirtualAddress.to_parts va) as [[[[[tag ?] ?] ?] ?] ?]. destruct (tag_ok false tag); [|done].
       destruct (leaf (tables s) (level0_table p) (idx va)) as [[lvl e]|]; done. }
  pose proof (walk_agrees _ _ _ _ Hu Hw) as Ha. apply walk_tables_Some in Hw as (pa' & lvl & e & _ & Hl & Hpg & _ & Has).
  rewrite (leaf_global s _ _ _ _ Hgs Hl) in Has. exists x. specialize (Ha va Hu ltac:(done)).
  rewrite Hlow, Hact, Htr in Ha. injection Ha as -> -> ->. split; [|done]. split; [|split; [done|by left]].
  unfold resume_mmu, flush_tlb_for_asid, tlbi_aside1. apply list_elem_of_filter. split; [by rewrite Has|].
  unfold activate at 1. destruct Hq as [-> _]. cbn. by left.
Qed.
End shared.

(** *** Witnesses *)

#[local] Existing Instance concrete_bit_field.

Definition state_of {E X} (m : M (Tables PhysAlloc.PhysicalMemoryAllocator) E X) (s : Tables PhysAlloc.PhysicalMemoryAllocator) :=
  match m s with Ok _ s' | Err _ s' => s' | Stop _ => s end.
Definition table_of (high : bool) (id : Z) (s : Tables PhysAlloc.PhysicalMemoryAllocator) : PageTable :=
  match empty high id s with
  | Ok pt _ => pt
  | _ => {| high_addresses := high; asid := id; level0_table := 0; level0_phy_addr := 0 |}
  end.

(** The kernel maps a page under a guard, after which the processor walks to it. *)
Definition demo_kernel_table : PageTable := table_of true 0 demo_tables.
Definition demo_kernel_page : Z := 0xffff000000001000.
Definition demo_map_kernel : PT PhysAlloc.PhysicalMemoryAllocator unit :=
  map_range demo_kernel_table 0x40008000 demo_kernel_page 1 true demo_options.
Definition demo_mapped : Tables PhysAlloc.PhysicalMemoryAllocator := state_of demo_map_kernel (state_of (empty true 0) demo_tables).
Definition demo_mmu : Mmu := {| ttbr0 := 0; ttbr1 := level0_phy_addr demo_kernel_table; tlb := [] |}.

Lemma kernel_translations_coherent_witness : ∃ x,
  hits (fill (tables demo_mapped) (demo_kernel_page + 8) (drop_guard demo_kernel_table demo_mapped demo_mmu)) (demo_kernel_page + 16) x ∧
  translate (tables demo_mapped) true (level0_table demo_kernel_table) (demo_kernel_page + 16)
  = Some (te_frame x * PAGE_SIZE + 16, te_read_only x, te_el0 x).
Proof.
  destruct (walk_tables (tables demo_mapped) (drop_guard demo_kernel_table demo_mapped demo_mmu) (demo_kernel_page + 8)) as [x|] eqn:Hw;
    [|exfalso; vm_compute in Hw; discriminate Hw].
  assert (hits (fill (tables demo_mapped) (demo_kernel_page + 8) (drop_guard demo_kernel_table demo_mapped demo_mmu)) (demo_kernel_page + 16) x) as Hh.
  { unfold fill. rewrite Hw. pose proof Hw as (_ & _ & _ & _ & _ & Hpg & _ & _)%walk_tables_Some.
    split; [by left|]. split; [rewrite Hpg; vm_compute; reflexivity|]. left. vm_compute in Hw. by simplify_eq. }
  exists x. split; [exact Hh|].
  apply (kernel_translations_coherent demo_kernel_table (state_of (empty true 0) demo_tables) demo_mmu demo_mapped
    (fill (tables demo_mapped) (demo_kernel_page + 8) (drop_guard demo_kernel_table demo_mapped demo_mmu)) (demo_kernel_page + 16) x);
    [reflexivity|vm_compute; reflexivity| |vm_compute; split; congruence|reflexivity|by left].
  eapply rtc_l; [apply mmu_take|].
  eapply rtc_l; [apply (mmu_map _ _ _ _ 0x40008000 demo_kernel_page 1 true demo_options tt demo_mapped); vm_compute; reflexivity|].
  eapply rtc_l; [apply mmu_drop|].
  apply rtc_once, (mmu_fill demo_kernel_table demo_mapped _ 0 (demo_kernel_page + 8)). vm_compute. split; congruence.
Defined.

(** Two processes, of which the first has a page. *)
Definition demo_first : PageTable := table_of false 1 demo_tables.
Definition demo_two : Tables PhysAlloc.PhysicalMemoryAllocator := state_of (empty false 1) demo_tables.
Definition demo_second : PageTable := table_of false 2 demo_two.
Definition demo_users : Tables PhysAlloc.PhysicalMemoryAllocator := state_of (empty false 2) demo_two.
Definition demo_user_options : PageTableEntryOptions := {| read_only := false; el0_access := true |}.
Definition demo_shared : Tables PhysAlloc.PhysicalMemoryAllocator :=
  state_of (map_range demo_first 0x40008000 0x10000 1 true demo_user_options) demo_users.

Lemma user_translations_shared_witness : ∃ x,
  hits (resume_mmu (Some demo_second) (Some 1) (fill (tables demo_shared) 0x10004 (activate demo_first demo_mmu))) 0x10004 x ∧
  te_frame x * PAGE_SIZE + 4 = 0x40008004 ∧ te_read_only x = false ∧ te_el0 x = true ∧
  translate (tables demo_shared) false (level0_table demo_second) 0x10004 = None.
Proof.
  destruct (user_translations_shared demo_tables demo_shared demo_first demo_second demo_mmu 0x10004 0x40008004 false true)
    as (x & Hh & Hf & Hr & He).
  - by intros table t i e Ht.
  - eapply rtc_l; [apply (ts_empty _ false 1 demo_first demo_two); vm_compute; reflexivity|].
    eapply rtc_l; [apply (ts_empty _ false 2 demo_second demo_users); vm_compute; reflexivity|].
    eapply rtc_l; [|apply rtc_refl]. apply (ts_map _ demo_first 0x40008000 0x10000 1 true demo_user_options tt); vm_compute; reflexivity.
  - vm_compute; intuition congruence.
  - vm_compute; intuition congruence.
  - vm_compute; split; congruence.
  - reflexivity.
  - vm_compute; reflexivity.
  - exists x. split; [exact Hh|]. split; [exact Hf|]. split; [exact Hr|]. split; [exact He|]. vm_compute; reflexivity.
Defined.
