(* ===== verification/NvmeOpen.v ===== *)
(** The NVMe driver from the reset of a controller to an open namespace
    ([NvmeDeviceRegistryHandler] of [kernel/src/storage/nvme/mod.rs], with the creation of queues
    of [queue.rs] and [register_completion_queue] of [interrupt.rs]).

    The driver runs against a controller that takes commands from the admin queue, answers them
    after a while and writes data to memory.  What the controller does with a command is an
    argument ([respond]), as is the number of times the driver looks before the answer to the
    [k]th command is there ([lag]).  The controller's rings have the sizes that the driver
    writes to its register.  Doorbells are the values last written to them. *)
From Stdlib Require Import Strings.Ascii Strings.String.
From stdpp Require Import base list gmap strings.
From S2P Require Import Prelude BitField Addresses PhysAlloc VirtAlloc Frames PageEntry Paging PhysBuffer.
From S2P Require Import BlockCache RegPath Error Gic Nvme Pcie NvmeSetup.

(** *** The controller's side *)

(** Admin commands, with sizes that count from one. *)
Inductive AdminCommand :=
  | CreateCq (id size vector : Z) (interrupts : bool) (address : Z)
  | CreateSq (id size completion_queue priority address : Z)
  | Identify (structure namespace address : Z)
  | DeleteCq (id : Z)
  | DeleteSq (id : Z).

(** The fields of a command as the NVMe specification has them. *)
Definition decode_command (c : list Z) : option AdminCommand :=
  let dw i := default 0 (c !! i) in
  let prp1 := dw 6%nat + 2 ^ 32 * dw 7%nat in
  let lo := dw 10%nat mod 2 ^ 16 in
  let hi i := dw i / 2 ^ 16 in
  match dw 0%nat mod 2 ^ 8 with
  | 0 => Some (DeleteSq lo)
  | 1 => Some (CreateSq lo (hi 10%nat + 1) (hi 11%nat) (dw 11%nat / 2 mod 4) prp1)
  | 4 => Some (DeleteCq lo)
  | 5 => Some (CreateCq lo (hi 10%nat + 1) (hi 11%nat) (Z.testbit (dw 11%nat) 1) prp1)
  | 6 => Some (Identify (dw 10%nat mod 2 ^ 8) (dw 1%nat) prp1)
  | _ => None
  end.
Definition command_id (c : list Z) : Z := default 0 (c !! 0%nat) / 2 ^ 16.

(** What the controller makes of a command: its status, the data it writes, its state. *)
Record Answer (X : Type) := { an_status : Z; an_data : list Z; an_state : X }.
Arguments an_status {X} _.
Arguments an_data {X} _.
Arguments an_state {X} _.
Arguments Build_Answer {X} _ _ _.

Record Controller (X : Type) := {
  c_head : Z;                (* the slot of the next command *)
  c_tail : Z;                (* the slot of the next completion *)
  c_phase : bool;
  c_done : nat;
  c_waited : nat;
  c_state : X;
}.
Arguments c_head {X} _.
Arguments c_tail {X} _.
Arguments c_phase {X} _.
Arguments c_done {X} _.
Arguments c_waited {X} _.
Arguments c_state {X} _.
Arguments Build_Controller {X} _ _ _ _ _ _.

(** *** The driver's side *)

Record AdminQueues := {
  a_sq : SubmissionQueue;
  a_cq : CompletionQueue;
  a_heads : gmap Z Z;
  a_sq_memory : PhysicalBuffer;
  a_cq_memory : PhysicalBuffer;
}.

(** A completion queue of its own, as the interrupt's handler keeps it. *)
Record IoCq := {
  io_cq : CompletionQueue;
  io_heads : gmap Z Z;
  io_cq_memory : PhysicalBuffer;
}.

Record NvmeDeviceRegistryHandler := {
  base_address : Z;
  cap : Z;
  msix_table : MsiXTable;
  nvme_namespaces : list Z;
}.

Record NamespaceBlockStore := {
  total_size : Z;
  capacity : Z;
  utilitization : Z;
  namespace_id : Z;
  supported_block_size : Z;
  io_sq : SubmissionQueue;
  io_sq_memory : PhysicalBuffer;
  io_handle : Handle;
  int_id : Z;
}.

(** The state: registers on the bus, memory, the admin queues once they exist, the controller,
    the interrupt controller and the handlers of interrupts. *)
Record Host (D G X : Type) := {
  h_bus : D;
  h_mem : KernelMem;
  h_bytes : gmap Z Z;        (* by physical address *)
  h_admin : option AdminQueues;
  h_ctrl : Controller X;
  h_gic : G;
  h_ic : GenericInterruptController;
  h_handlers : gmap Z IoCq;
}.
Arguments h_bus {D G X} _.
Arguments h_mem {D G X} _.
Arguments h_bytes {D G X} _.
Arguments h_admin {D G X} _.
Arguments h_ctrl {D G X} _.
Arguments h_gic {D G X} _.
Arguments h_ic {D G X} _.
Arguments h_handlers {D G X} _.
Arguments Build_Host {D G X} _ _ _ _ _ _ _ _.

(** *** Numbers in paths *)

Definition digit (c : ascii) : option Z :=
  let n := Z.of_N (N_of_ascii c) - 48 in if (0 <=? n) && (n <=? 9) then Some n else None.
Fixpoint parse_digits (acc : Z) (l : str) : option Z :=
  match l with
  | [] => Some acc
  | c :: l' => d ← digit c; if acc * 10 + d <? 2 ^ 32 then parse_digits (acc * 10 + d) l' else None
  end.
(** [str::parse::<u32>] *)
Definition parse_u32 (l : str) : option Z :=
  match l with
  | [] => None
  | c :: l' =>
      if decide (c = "+"%char) then match l' with [] => None | _ => parse_digits 0 l' end
      else parse_digits 0 l
  end.

(** Little endian numbers in memory *)
Fixpoint read_le (m : gmap Z Z) (a : Z) (n : nat) : Z :=
  match n with O => 0 | S n' => default 0 (m !! a) + 256 * read_le m (a + 1) n' end.
Fixpoint store_bytes (m : gmap Z Z) (a : Z) (l : list Z) : gmap Z Z :=
  match l with [] => m | b :: l' => store_bytes (<[a := b]> m) (a + 1) l' end.

Section driver.
Context `{BF : BitField} {BV : BitVec} {D G X : Type} `{HB : Bus D} `{HM : Mmio G}.
Context (kernel_table : PageTable) (respond : AdminCommand → X → Answer X) (lag : nat → nat).
Local Abbreviation Host := (Host D G X).
Local Abbreviation NM := (M Host Error).

Definition set_bus (h : Host) (d : D) : Host :=
  Build_Host d (h_mem h) (h_bytes h) (h_admin h) (h_ctrl h) (h_gic h) (h_ic h) (h_handlers h).
Definition set_memory (h : Host) (m : KernelMem) : Host :=
  Build_Host (h_bus h) m (h_bytes h) (h_admin h) (h_ctrl h) (h_gic h) (h_ic h) (h_handlers h).
Definition set_bytes (h : Host) (b : gmap Z Z) : Host :=
  Build_Host (h_bus h) (h_mem h) b (h_admin h) (h_ctrl h) (h_gic h) (h_ic h) (h_handlers h).
Definition set_admin (h : Host) (a : AdminQueues) : Host :=
  Build_Host (h_bus h) (h_mem h) (h_bytes h) (Some a) (h_ctrl h) (h_gic h) (h_ic h) (h_handlers h).
Definition set_ctrl (h : Host) (c : Controller X) : Host :=
  Build_Host (h_bus h) (h_mem h) (h_bytes h) (h_admin h) c (h_gic h) (h_ic h) (h_handlers h).
Definition set_gic (h : Host) (g : G) : Host :=
  Build_Host (h_bus h) (h_mem h) (h_bytes h) (h_admin h) (h_ctrl h) g (h_ic h) (h_handlers h).
Definition set_ic (h : Host) (ic : GenericInterruptController) : Host :=
  Build_Host (h_bus h) (h_mem h) (h_bytes h) (h_admin h) (h_ctrl h) (h_gic h) ic (h_handlers h).
Definition set_handlers (h : Host) (l : gmap Z IoCq) : Host :=
  Build_Host (h_bus h) (h_mem h) (h_bytes h) (h_admin h) (h_ctrl h) (h_gic h) (h_ic h) l.

Definition set_sq (a : AdminQueues) (q : SubmissionQueue) : AdminQueues :=
  {| a_sq := q; a_cq := a_cq a; a_heads := a_heads a; a_sq_memory := a_sq_memory a; a_cq_memory := a_cq_memory a |}.
Definition set_cq (a : AdminQueues) (q : CompletionQueue) (heads : gmap Z Z) : AdminQueues :=
  {| a_sq := a_sq a; a_cq := q; a_heads := heads; a_sq_memory := a_sq_memory a; a_cq_memory := a_cq_memory a |}.

(** *** What the controller does *)

Definition admin_attributes : Z := admin_queue_attrbs (PAGE_SIZE / COMPLETION_ENTRY_SIZE) (PAGE_SIZE / SUBMISSION_ENTRY_SIZE).
Definition ctrl_sq_size : Z := bit_range admin_attributes 11 0 + 1.
Definition ctrl_cq_size : Z := bit_range admin_attributes 27 16 + 1.

Definition ring_next (n i : Z) : Z := if i + 1 =? n then 0 else i + 1.

Definition put_completion (q : CompletionQueue) (i : Z) (c : Completion) : CompletionQueue :=
  {| cq_id := cq_id q; cq_memory := <[Z.to_nat i := c]> (cq_memory q); cq_entry_count := cq_entry_count q;
     cq_head := cq_head q; head_doorbell := head_doorbell q; current_phase := current_phase q |}.

(** A command that it does not know is answered with status 1. *)
Definition execute (c : list Z) (x : X) : Answer X :=
  match decode_command c with Some cmd => respond cmd x | None => Build_Answer 1 [] x end.

(** Between two accesses of the driver: nothing while there is no command, or it is not done. *)
Definition controller_step (h : Host) : Host :=
  match h_admin h with
  | None => h
  | Some a =>
      let c := h_ctrl h in
      if c_head c =? tail_doorbell (a_sq a) then h
      else if (c_waited c <? lag (c_done c))%nat then
        set_ctrl h (Build_Controller (c_head c) (c_tail c) (c_phase c) (c_done c) (S (c_waited c)) (c_state c))
      else
        let dwords := default (replicate 16 0) (sq_memory (a_sq a) !! Z.to_nat (c_head c)) in
        let r := execute dwords (c_state c) in
        let head := ring_next ctrl_sq_size (c_head c) in
        let cmp := {| cmp_cmd := 0; cmp_res := 0; cmp_head := head; cmp_sqid := 0; cmp_id := command_id dwords;
                      cmp_status := 2 * an_status r + Z.b2z (c_phase c) |} in
        let h := set_bytes h (store_bytes (h_bytes h) (default 0 (dwords !! 6%nat) + 2 ^ 32 * default 0 (dwords !! 7%nat)) (an_data r)) in
        let h := set_admin h (set_cq a (put_completion (a_cq a) (c_tail c) cmp) (a_heads a)) in
        set_ctrl h (Build_Controller head (ring_next ctrl_cq_size (c_tail c))
          (if c_tail c + 1 =? ctrl_cq_size then negb (c_phase c) else c_phase c) (S (c_done c)) 0 (an_state r))
  end.
(** *** Calls *)

Definition on_regs {A} (m : M D Error A) : NM A := λ h,
  match m (h_bus h) with Ok a d => Ok a (set_bus h d) | Err e d => Err e (set_bus h d) | Stop w => Stop w end.
Definition on_gic {A} (m : M G Error A) : NM A := λ h,
  match m (h_gic h) with Ok a g => Ok a (set_gic h g) | Err e g => Err e (set_gic h g) | Stop w => Stop w end.
Definition on_ic_state {A} (m : M GenericInterruptController Error A) : NM A := λ h,
  match m (h_ic h) with Ok a i => Ok a (set_ic h i) | Err e i => Err e (set_ic h i) | Stop w => Stop w end.
(** [.context(MemorySnafu { reason })] *)
Definition on_kmem {A} (reason : string) (m : KM A) : NM A := λ h,
  match m (h_mem h) with
  | Ok a s => Ok a (set_memory h s)
  | Err e s => Err (Memory reason e) (set_memory h s)
  | Stop w => Stop w
  end.
(** An error that drops an admin queue: its [drop] panics. *)
Definition or_panic {A} (m : NM A) : NM A := λ h,
  match m h with Err _ _ => Stop Panic | r => r end.
(** What is dropped when [m] returns an error *)
Definition on_failure {A} (cleanup : NM unit) (m : NM A) : NM A := λ h,
  match m h with
  | Err e h' => match cleanup h' with Ok _ h'' => Err e h'' | Err _ _ => Stop Panic | Stop w => Stop w end
  | r => r
  end.

Definition plain_options : PageTableEntryOptions := {| read_only := false; el0_access := false |}.
Definition new_buffer (reason : string) (page_count : Z) : NM PhysicalBuffer :=
  on_kmem reason (PhysBuffer.alloc kernel_table page_count plain_options).
Definition zeroed_buffer (reason : string) (page_count : Z) : NM PhysicalBuffer :=
  buf ← new_buffer reason page_count;
  len ← lift (PhysBuffer.len buf);
  h ← get;
  put (set_bytes h (store_bytes (h_bytes h) (phy_addr buf) (replicate (Z.to_nat len) 0)));;
  mret buf.
Definition release (buf : PhysicalBuffer) : NM unit := or_panic (on_kmem "" (drop_buffer kernel_table buf)).

(** *** The admin queues *)

Definition admin : NM AdminQueues := h ← get; lift (h_admin h).

(** [f] builds a command in the queue, whose head it is given, and submits it. *)
Definition submit_admin (f : Z → SubmissionQueue → option SubmissionQueue) : NM unit :=
  a ← admin;
  head ← lift (a_heads a !! sq_id (a_sq a));
  q ← lift (f head (a_sq a));
  h ← get;
  put (set_admin h (set_sq a q)).

Fixpoint busy_wait_for_completion (fuel : nat) : NM Completion :=
  match fuel with
  | O => out_of_fuel
  | S fuel' =>
      h ← get; put (controller_step h);;
      a ← admin;
      '(o, q, heads) ← lift (Nvme.pop (a_cq a) (a_heads a));
      h ← get; put (set_admin h (set_cq a q heads));;
      match o with
      | Some c => mret c
      | None => busy_wait_for_completion fuel'
      end
  end.

Definition send_identify (command namespace : Z) (structure_id : IdentifyStructure) (buf : PhysicalBuffer) : NM unit :=
  submit_admin (λ head q,
    o ← Nvme.begin head q; c ← o;
    Some (Nvme.submit (set_data_ptr_single (phy_addr buf)
      (set_namespace_id namespace (identify 0 structure_id (set_command_id command c)))) q).1).

(** *** Queues for reads and writes *)

(** [Drop]: the answer is not waited for. *)
Definition drop_io_cq (q : IoCq) : NM unit :=
  submit_admin (λ head p, drop_cq head p (cq_id (io_cq q)));;
  release (io_cq_memory q).
Definition drop_io_sq (id : Z) (buf : PhysicalBuffer) : NM unit :=
  submit_admin (λ head p, drop_sq head p id);;
  release buf.

Definition queue_refused {A} : NM A := throw (Other "NVMe device failed to create queue" (Some Device)).

Definition new_io_cq (fuel : nat) (id entry_count : Z) (interrupt_index : option Z) : NM IoCq :=
  assert (0 <? id);;
  buf ← zeroed_buffer "failed to allocate memory for NVMe completion queue" (cq_page_count entry_count);
  let s := {| io_cq := new_cq id entry_count; io_heads := ∅; io_cq_memory := buf |} in
  submit_admin (λ head p, request_cq head p id entry_count (phy_addr buf) interrupt_index);;
  cmpl ← busy_wait_for_completion fuel;
  r ← lift (cq_create_result (cmp_status cmpl));
  match r with
  | inl _ => mret s
  | inr _ => drop_io_cq s;; queue_refused
  end.

(** The head is shared with the completion queue from the start. *)
Definition new_io_sq (fuel : nat) (id entry_count : Z) (cq : IoCq) (priority : QueuePriority)
    : NM (SubmissionQueue * PhysicalBuffer * IoCq) :=
  assert (0 <? id);;
  let '(s, heads) := new_sq id entry_count (io_heads cq) in
  let cq := {| io_cq := io_cq cq; io_heads := heads; io_cq_memory := io_cq_memory cq |} in
  buf ← zeroed_buffer "allocate backing memory for NVMe submission queue" (sq_page_count entry_count);
  submit_admin (λ head p, request_sq head p id entry_count (cq_id (io_cq cq)) (phy_addr buf) priority);;
  cmpl ← busy_wait_for_completion fuel;
  r ← lift (sq_create_result (cmp_status cmpl));
  match r with
  | inl _ => mret (s, buf, cq)
  | inr _ => drop_io_sq id buf;; queue_refused
  end.

Definition enable_interrupts (id : Z) : NM unit :=
  h ← get;
  let ic := h_ic h in
  on_gic (set_target_cpu ic id 0x1);;
  on_gic (set_priority ic id 0);;
  on_gic (set_config ic id Edge);;
  on_gic (clear_pending ic id);;
  on_gic (set_enable ic id true).

(** [insert_blocking] drops a handler that it replaces. *)
Definition register_completion_queue (id : Z) (q : IoCq) : NM Handle :=
  h ← get;
  put (set_handlers h (<[id := q]> (h_handlers h)));;
  match h_handlers h !! id with Some old => drop_io_cq old | None => mret tt end;;
  enable_interrupts id;;
  mret {| next_cmd_id := 0; pending_completions := ∅ |}.

(** [Drop for CompletionQueueHandle]: the handler goes, and the queue with it. *)
Definition drop_handle (id : Z) : NM unit :=
  h ← get;
  put (set_handlers h (delete id (h_handlers h)));;
  match h_handlers h !! id with Some q => drop_io_cq q | None => mret tt end.

(** *** The registry handler *)

(** Word [i] of the answer *)
Definition words_of (m : gmap Z Z) (a : Z) (n : nat) : list Z := (λ i, read_le m (a + 4 * Z.of_nat i) 4) <$> seq 0 n.

(** The end of [configure]: the controller's data, which is only logged, and the namespaces. *)
Definition active_namespaces (fuel : nat) : NM (list Z) :=
  id_res_buf ← or_panic (new_buffer "create buffer for identify command result" 1);
  submit_admin (λ head q,
    o ← Nvme.begin head q; c ← o;
    Some (Nvme.submit (set_data_ptr_single (phy_addr id_res_buf) (identify 0 Nvme.Controller (set_command_id 0xa000 c))) q).1);;
  busy_wait_for_completion fuel;;
  send_identify 0xa001 0 ActiveNamespaceList id_res_buf;;
  busy_wait_for_completion fuel;;
  h ← get;
  let ids := namespace_ids (words_of (h_bytes h) (phy_addr id_res_buf) 1024) in
  release id_res_buf;;
  mret ids.

Definition configure (fuel : nat) (base : Z) (msix : MsiXTable) : NM NvmeDeviceRegistryHandler :=
  cap ← on_regs (reset_controller fuel base);
  cq_buf ← zeroed_buffer "allocate admin completion queue" (cq_page_count (PAGE_SIZE / COMPLETION_ENTRY_SIZE));
  let '(sq, heads) := new_sq 0 (PAGE_SIZE / SUBMISSION_ENTRY_SIZE) ∅ in
  sq_buf ← or_panic (zeroed_buffer "allocate admin submission queue" (sq_page_count (PAGE_SIZE / SUBMISSION_ENTRY_SIZE)));
  h ← get;
  put (set_admin h {| a_sq := sq; a_cq := new_cq 0 (PAGE_SIZE / COMPLETION_ENTRY_SIZE); a_heads := heads;
                      a_sq_memory := sq_buf; a_cq_memory := cq_buf |});;
  on_regs (enable_controller fuel base (phy_addr cq_buf) (phy_addr sq_buf));;
  ids ← active_namespaces fuel;
  mret {| base_address := base; cap := cap; msix_table := msix; nvme_namespaces := ids |}.

(** The store, once there are queues: the controller is asked for the namespace's data. *)
Definition identify_namespace (fuel : nat) (self : NvmeDeviceRegistryHandler) (namespace : Z) (msi : MsiDescriptor)
    (io_sq : SubmissionQueue) (sq_buf : PhysicalBuffer) (handle : Handle) : NM NamespaceBlockStore :=
  id_res_buf ← on_failure (drop_handle (intid msi);; drop_io_sq 1 sq_buf)
                 (new_buffer "failed to allocate memory to recieve NVMe device properties" 1);
  send_identify 0xa000 namespace Namespace id_res_buf;;
  busy_wait_for_completion fuel;;
  h ← get;
  let info := phy_addr id_res_buf in
  let flbas := Z.land (read_le (h_bytes h) (info + 26) 1) 7 in
  let lbaf := read_le (h_bytes h) (info + 128 + 4 * flbas) 4 in
  on_regs (set_mask (msix_table self) (namespace mod 2 ^ 16) false);;
  size ← lift (let n := bit_range lbaf 23 16 in if n <? 64 then Some (Z.shiftl 1 n) else None);
  release id_res_buf;;
  mret {| total_size := read_le (h_bytes h) info 8; capacity := read_le (h_bytes h) (info + 8) 8;
          utilitization := read_le (h_bytes h) (info + 16) 8; namespace_id := namespace;
          supported_block_size := size; io_sq := io_sq; io_sq_memory := sq_buf; io_handle := handle;
          int_id := intid msi |}.

(** The queues, once there is an interrupt *)
Definition open_queues (fuel : nat) (self : NvmeDeviceRegistryHandler) (namespace : Z) (msi : MsiDescriptor)
    : NM NamespaceBlockStore :=
  io_cq ← new_io_cq fuel 1 (2 * PAGE_SIZE / COMPLETION_ENTRY_SIZE) (Some (namespace mod 2 ^ 16));
  '(io_sq, sq_buf, io_cq) ←
    on_failure (drop_io_cq io_cq) (new_io_sq fuel 1 (2 * PAGE_SIZE / SUBMISSION_ENTRY_SIZE) io_cq Medium);
  handle ← register_completion_queue (intid msi) io_cq;
  identify_namespace fuel self namespace msi io_sq sq_buf handle.

Definition open_block_store (fuel : nat) (self : NvmeDeviceRegistryHandler) (subpath : str) : NM NamespaceBlockStore :=
  '(c, _) ← lift (RegPath.next (new_components subpath));
  namespace ← match c with
    | Some (Name n) =>
        match parse_u32 n with
        | Some v => mret v
        | None => throw (Other "failed to parse NVMe device ID number" (Some BadFormat))
        end
    | _ => throw (Registry "discover namespace ID from path" InvalidPath)
    end;
  if negb (bool_decide (namespace ∈ nvme_namespaces self)) then
    throw (Registry "unknown namespace ID" (NotFound subpath))
  else
    o ← on_ic_state alloc_msi;
    msi ← lift o;
    on_regs (write_entry (msix_table self) (namespace mod 2 ^ 16) msi);;
    open_queues fuel self namespace msi.

Definition open_file {A} (self : NvmeDeviceRegistryHandler) (subpath : str) : NM A :=
  throw (Registry "" Unsupported).
End driver.
