(* ===== verification/NvmeOpenSpec.v ===== *)
(** What opening a namespace does: the commands that the controller gets, the queues, the
    interrupt and the block store that result, and what opening it again does to them. *)
From Stdlib Require Import Strings.Ascii Strings.String.
From stdpp Require Import base list gmap strings.
From S2P Require Import Prelude BitField Addresses PhysAlloc VirtAlloc Frames PageEntry Paging PagingTree MapRange Spaces PhysBuffer.
From S2P Require Import BlockCache RegPath Error Gic GicSpec Nvme Pcie PcieSpec NvmeSetup NvmeOpen.

Section commands.
Context `{BF : BitField}.

(** *** What the driver writes is what the controller reads *)

(** The submission queue with one command more *)
Definition sent (q : SubmissionQueue) (dwords : list Z) : SubmissionQueue :=
  {| sq_id := sq_id q; sq_memory := <[Z.to_nat (tail q) := dwords]> (sq_memory q); sq_entry_count := sq_entry_count q;
     tail := tail q + 1; tail_doorbell := tail q + 1 |}.

(** The admin queue before its first wrap-around, with everything fetched *)
Definition sq_room (q : SubmissionQueue) (k : Z) : Prop :=
  sq_id q = 0 ∧ sq_entry_count q = 64 ∧ length (sq_memory q) = 64%nat ∧ tail q = k ∧ tail_doorbell q = k ∧ 0 ≤ k < 63.

Lemma begin_run q k : sq_room q k → begin k q = Some (Some {| new_tail := k + 1; cmd := replicate 16 0; extra_data_ptr_buffers := [] |}).
Proof.
  intros (_ & Hn & _ & Ht & _ & Hk). unfold begin, full, u16add. rewrite Ht. replace (k + 1 <? 65536) with true by lia. cbn.
  replace (k =? k + 1) with false by lia. rewrite Hn. change (64 =? 0) with false. cbn. by rewrite Z.mod_small by lia.
Qed.

Lemma opcode_byte w op : 0 ≤ op < 256 → set_bit_range w 7 0 op mod 2 ^ 8 = op.
Proof.
  intros Hop. pose proof (get_set_same w 7 0 op ltac:(lia)) as H. rewrite bit_range_div_mod in H by lia.
  change (7 - 0 + 1) with 8 in H. change (2 ^ 0) with 1 in H. rewrite Z.div_1_r in H. rewrite H. by apply Z.mod_small.
Qed.

Lemma pair_word n i : 0 ≤ n < 2 ^ 16 → 0 ≤ i < 2 ^ 16 → Z.lor (Z.shiftl n 16) i mod 2 ^ 32 = n * 2 ^ 16 + i.
Proof.
  intros Hn Hi. rewrite Z.shiftl_mul_pow2 by lia. rewrite (lor_add _ _ 16) by (rewrite ?Z.mod_mul; lia). apply Z.mod_small. lia.
Qed.

Lemma qword_parts v : 0 ≤ v < U64 → v mod 2 ^ 32 + 2 ^ 32 * (Z.shiftr v 32 mod 2 ^ 32) = v.
Proof. intros Hv. rewrite Z.shiftr_div_pow2 by lia. dlia. Qed.

(** The dwords of a command that was built from zeroes *)
Ltac read_fields := cbn -[Z.mul Z.add Z.modulo Z.div Z.lor Z.shiftl Z.shiftr Z.pow set_bit_range]; unfold decode_command;
  cbn -[Z.mul Z.add Z.modulo Z.div Z.lor Z.shiftl Z.shiftr Z.pow Z.testbit set_bit_range].

Lemma request_cq_run q k id size address iv : sq_room q k → 0 < id < 2 ^ 16 → 1 ≤ size ≤ 2 ^ 16 → 0 ≤ iv < 2 ^ 16 →
  0 ≤ address < U64 → ∃ dwords, request_cq k q id size address (Some iv) = Some (sent q dwords) ∧
    decode_command dwords = Some (CreateCq id size iv true address).
Proof.
  intros Hq Hid Hs Hiv Ha. unfold request_cq. replace (0 <? id) with true by lia. rewrite (begin_run q k Hq). cbn [mbind option_bind].
  unfold create_io_completion_queue, u16sub. replace (1 <=? size) with true by lia. cbn [mbind option_bind].
  destruct Hq as (_ & _ & _ & Ht & _ & _). eexists. split; [unfold submit, sent; by rewrite Ht|].
  read_fields.
  rewrite opcode_byte by lia. rewrite qword_parts by done. rewrite (pair_word (size - 1) id) by lia.
  assert (Z.lor (Z.lor (Z.shiftl iv 16) 2) 1 mod 2 ^ 32 = iv * 2 ^ 16 + 3) as ->.
  { rewrite <- Z.lor_assoc. change (Z.lor 2 1) with 3. apply pair_word; lia. }
  do 2 f_equal; try dlia. rewrite Z.testbit_odd, Z.shiftr_div_pow2 by lia.
  replace ((iv * 2 ^ 16 + 3) / 2 ^ 1) with (1 + 2 * (iv * 2 ^ 14)) by dlia. by rewrite Z.odd_add_mul_2.
Qed.

Lemma request_sq_run q k id size cqid address p : sq_room q k → 0 < id < 2 ^ 16 → 1 ≤ size ≤ 2 ^ 16 → 0 ≤ cqid < 2 ^ 16 →
  0 ≤ address < U64 → ∃ dwords, request_sq k q id size cqid address p = Some (sent q dwords) ∧
    decode_command dwords = Some (CreateSq id size cqid (priority_code p) address).
Proof.
  intros Hq Hid Hs Hc Ha. unfold request_sq. replace (0 <? id) with true by lia. rewrite (begin_run q k Hq). cbn [mbind option_bind].
  unfold create_io_submission_queue, u16sub. replace (1 <=? size) with true by lia. cbn [mbind option_bind].
  destruct Hq as (_ & _ & _ & Ht & _ & _). eexists. split; [unfold submit, sent; by rewrite Ht|]. read_fields.
  rewrite opcode_byte by lia. rewrite qword_parts by done. rewrite (pair_word (size - 1) id) by lia.
  assert (Z.lor (Z.lor (Z.shiftl cqid 16) (Z.shiftl (priority_code p) 1)) 1 mod 2 ^ 32
    = cqid * 2 ^ 16 + (2 * priority_code p + 1)) as ->.
  { rewrite <- Z.lor_assoc. replace (Z.lor (Z.shiftl (priority_code p) 1) 1) with (2 * priority_code p + 1) by by destruct p.
    apply pair_word; [lia|destruct p; cbn; lia]. }
  do 2 f_equal; [dlia..| |]; destruct p; cbn [priority_code]; dlia.
Qed.

Definition identify_command (cid namespace : Z) (st : IdentifyStructure) (address : Z) (c : Command) : Command :=
  set_data_ptr_single address (set_namespace_id namespace (identify 0 st (set_command_id cid c))).

Lemma send_identify_run q k cid namespace st address : sq_room q k → 0 ≤ address < U64 → ∃ dwords,
  (o ← begin k q; c ← o; Some (submit (identify_command cid namespace st address c) q).1) = Some (sent q dwords) ∧
  decode_command dwords = Some (Identify (identify_code st) namespace address).
Proof.
  intros Hq Ha. rewrite (begin_run q k Hq). cbn [mbind option_bind]. destruct Hq as (_ & _ & _ & Ht & _ & _).
  eexists. split; [unfold submit, sent; by rewrite Ht|]. unfold identify_command. read_fields.
  rewrite opcode_byte by lia. rewrite qword_parts by done. by destruct st.
Qed.

(** [set_namespace_id] is not called for the controller's structure; the field is 0 anyway. *)
Lemma identify_controller_run q k cid address : sq_room q k → 0 ≤ address < U64 → ∃ dwords,
  (o ← begin k q; c ← o;
   Some (submit (set_data_ptr_single address (identify 0 Nvme.Controller (set_command_id cid c))) q).1) = Some (sent q dwords) ∧
  decode_command dwords = Some (Identify 1 0 address).
Proof.
  intros Hq Ha. rewrite (begin_run q k Hq). cbn [mbind option_bind]. destruct Hq as (_ & _ & _ & Ht & _ & _).
  eexists. split; [unfold submit, sent; by rewrite Ht|]. read_fields.
  rewrite opcode_byte by lia. by rewrite qword_parts.
Qed.

Lemma drop_cq_run q k id : sq_room q k → 0 ≤ id < 2 ^ 16 → ∃ dwords,
  drop_cq k q id = Some (sent q dwords) ∧ decode_command dwords = Some (DeleteCq id).
Proof.
  intros Hq Hid. unfold drop_cq. rewrite (begin_run q k Hq). cbn [mbind option_bind]. destruct Hq as (_ & _ & _ & Ht & _ & _).
  eexists. split; [unfold submit, sent; by rewrite Ht|]. read_fields.
  rewrite opcode_byte by lia. do 2 f_equal. dlia.
Qed.
End commands.

Section admin.
Context `{BF : BitField} {BV : BitVec} {D G X : Type} `{HB : Bus D} `{HM : Mmio G}.
Context (kernel_table : PageTable) (respond : AdminCommand → X → Answer X) (lag : nat → nat).
Local Abbreviation Host := (Host D G X).
Implicit Types (h : Host) (a : AdminQueues) (k : Z).

(** *** One command *)

Lemma ring_sizes : ctrl_sq_size = 257 ∧ ctrl_cq_size = 65.
Proof.
  assert (∀ x y, 0 ≤ x < 2 ^ 12 → 0 ≤ y < 2 ^ 12 → let r := admin_queue_attrbs x y in
    bit_range r 11 0 = x ∧ bit_range r 27 16 = y) as H.
  { intros x y Hx Hy r. unfold r, admin_queue_attrbs, set_completion_queue_size, set_submission_queue_size. split.
    - rewrite get_set_other by lia. rewrite get_set_same by lia. by apply Z.mod_small.
    - rewrite get_set_same by lia. by apply Z.mod_small. }
  unfold ctrl_sq_size, ctrl_cq_size, admin_attributes. destruct (H 256 64) as [H1 H2]; [lia..|].
  split; [exact (f_equal (λ x, x + 1) H1)|exact (f_equal (λ x, x + 1) H2)].
Qed.

(** The completion ring, of which the driver has taken [k] entries; what lies ahead is old. *)
Record cq_room (a : AdminQueues) (k : Z) : Prop := {
  cr_count : cq_entry_count (a_cq a) = 256 ∧ length (cq_memory (a_cq a)) = 256%nat;
  cr_head : cq_head (a_cq a) = k ∧ current_phase (a_cq a) = true;
  cr_old i c : (Z.to_nat k ≤ i)%nat → cq_memory (a_cq a) !! i = Some c → phase_tag (cmp_status c) = false;
  cr_heads : a_heads a !! 0 = Some k;
}.

(** Everything that was sent is answered, and every answer taken. *)
Record idle (k : Z) (h : Host) (a : AdminQueues) : Prop := {
  id_admin : h_admin h = Some a;
  id_sq : sq_room (a_sq a) k;
  id_cq : cq_room a k;
  id_head : c_head (h_ctrl h) = k ∧ c_tail (h_ctrl h) = k;
  id_phase : c_phase (h_ctrl h) = true ∧ c_waited (h_ctrl h) = 0%nat;
}.

(** Nothing but the admin queues, memory and the controller *)
Definition same_rest (h h' : Host) : Prop :=
  h_bus h' = h_bus h ∧ h_mem h' = h_mem h ∧ h_gic h' = h_gic h ∧ h_ic h' = h_ic h ∧ h_handlers h' = h_handlers h.

Lemma same_rest_trans h1 h2 h3 : same_rest h1 h2 → same_rest h2 h3 → same_rest h1 h3.
Proof. unfold same_rest. intuition congruence. Qed.

(** The state when command [dwords] was sent and the controller has looked at it [w] times *)
Record waiting (k : Z) (dwords : list Z) (w : nat) (x : X) (n : nat) (h : Host) (a : AdminQueues) : Prop := {
  wt_admin : h_admin h = Some a;
  wt_sq : ∃ q, sq_room q k ∧ a_sq a = sent q dwords;
  wt_cq : cq_room a k;
  wt_ctrl : h_ctrl h = Build_Controller k k true n w x;
}.

Lemma submit_run k h a f dwords : idle k h a → f k (a_sq a) = Some (sent (a_sq a) dwords) → ∃ h' a',
  submit_admin f h = Ok tt h' ∧ waiting k dwords 0 (c_state (h_ctrl h)) (c_done (h_ctrl h)) h' a' ∧ same_rest h h' ∧
  h_bytes h' = h_bytes h ∧ a_sq_memory a' = a_sq_memory a ∧ a_cq_memory a' = a_cq_memory a.
Proof.
  intros [Ha Hsq Hcq Hh Hp] Hf. exists (set_admin h (set_sq a (sent (a_sq a) dwords))), (set_sq a (sent (a_sq a) dwords)). split.
  - unfold submit_admin, admin. rewrite bind_unfold. erewrite bind_run by done. rewrite Ha. cbn [lift mret M_ret].
    destruct Hsq as (Hid & _). rewrite Hid. erewrite bind_run by (by rewrite (cr_heads _ _ Hcq)). rewrite Hf. done.
  - split; [|done]. split; [done|by exists (a_sq a)| |].
    + destruct Hcq as [? ? ? ?]. by split.
    + cbn. destruct (h_ctrl h) as [c1 c2 c3 c4 c5 c6]. cbn in *. destruct Hh as [-> ->], Hp as [-> ->]. done.
Qed.

(** The controller is not done yet: nothing is found. *)
Lemma wait_more k dwords w x n h a fuel : waiting k dwords w x n h a → (w < lag n)%nat → ∃ h' a',
  busy_wait_for_completion respond lag (S fuel) h = busy_wait_for_completion respond lag fuel h' ∧
  waiting k dwords (S w) x n h' a' ∧ same_rest h h' ∧ h_bytes h' = h_bytes h ∧
  a_sq_memory a' = a_sq_memory a ∧ a_cq_memory a' = a_cq_memory a.
Proof.
  intros [Ha (q & Hq & Hsq) Hcq Hc] Hw. pose proof Hq as (_ & _ & _ & Ht & _ & Hk).
  assert (controller_step respond lag h = set_ctrl h (Build_Controller k k true n (S w) x)) as Hstep.
  { unfold controller_step. rewrite Ha, Hc. cbn [c_head c_waited c_done c_tail c_phase c_state]. rewrite Hsq. cbn [tail_doorbell sent].
    rewrite Ht. replace (k =? k + 1) with false by lia. by rewrite (proj2 (Nat.ltb_lt _ _) Hw). }
  destruct (lookup_lt_is_Some_2 (cq_memory (a_cq a)) (Z.to_nat k)) as [c Hc']; [rewrite (proj2 (cr_count _ _ Hcq)); lia|].
  assert (pop (a_cq a) (a_heads a) = Some (None, a_cq a, a_heads a)) as Hpop.
  { unfold pop. destruct (cr_head _ _ Hcq) as [-> ->]. rewrite Hc'. cbn [mbind option_bind].
    by rewrite (cr_old _ _ Hcq _ _ (le_n _) Hc'). }
  exists (set_admin (set_ctrl h (Build_Controller k k true n (S w) x)) (set_cq a (a_cq a) (a_heads a))), (set_cq a (a_cq a) (a_heads a)). split.
  - cbn [busy_wait_for_completion]. erewrite bind_run by done. erewrite bind_run by done. rewrite Hstep.
    erewrite bind_run by (unfold admin; erewrite bind_run by done; cbn; by rewrite Ha).
    rewrite Hpop. erewrite bind_run by done. cbv beta iota. erewrite bind_run by done. by erewrite bind_run by done.
  - split; [|done]. split; [done| |by destruct Hcq; split|done]. by exists q.
Qed.

Definition the_completion (k : Z) (dwords : list Z) (r : Answer X) : Completion :=
  {| cmp_cmd := 0; cmp_res := 0; cmp_head := k + 1; cmp_sqid := 0; cmp_id := command_id dwords; cmp_status := 2 * an_status r + 1 |}.

Definition prp1 (dwords : list Z) : Z := default 0 (dwords !! 6%nat) + 2 ^ 32 * default 0 (dwords !! 7%nat).

Lemma phase_of_status z : phase_tag (2 * z + 1) = true.
Proof. unfold phase_tag. rewrite bit_testbit by lia. apply Z.testbit_odd_0. Qed.

(** The controller is done: the completion is taken. *)
Lemma wait_done k dwords w x n h a fuel : waiting k dwords w x n h a → (lag n ≤ w)%nat → k < 62 →
  let r := execute respond dwords x in ∃ h' a',
  busy_wait_for_completion respond lag (S fuel) h = Ok (the_completion k dwords r) h' ∧ idle (k + 1) h' a' ∧
  same_rest h h' ∧ h_bytes h' = store_bytes (h_bytes h) (prp1 dwords) (an_data r) ∧
  c_state (h_ctrl h') = an_state r ∧ a_sq_memory a' = a_sq_memory a ∧ a_cq_memory a' = a_cq_memory a.
Proof.
  intros [Ha (q & Hq & Hsq) Hcq Hc] Hw Hk62 r. pose proof Hq as (Hid & Hn & Hlen & Ht & Htd & Hk). destruct ring_sizes as [Hs1 Hs2].
  set (cmp := the_completion k dwords r). set (a1 := set_cq a (put_completion (a_cq a) k cmp) (a_heads a)).
  set (h1 := set_ctrl (set_admin (set_bytes h (store_bytes (h_bytes h) (prp1 dwords) (an_data r))) a1)
    (Build_Controller (k + 1) (k + 1) true (S n) 0 (an_state r))).
  assert (controller_step respond lag h = h1) as Hstep.
  { unfold controller_step. rewrite Ha, Hc. cbn [c_head c_waited c_done c_tail c_phase c_state]. rewrite Hsq. cbn [tail_doorbell sent sq_memory].
    rewrite Ht. replace (k =? k + 1) with false by lia. rewrite (proj2 (Nat.ltb_ge _ _) Hw).
    rewrite list_lookup_insert_eq by (rewrite Hlen; lia). cbn [default]. unfold ring_next. rewrite Hs1, Hs2.
    replace (k + 1 =? 257) with false by lia. replace (k + 1 =? 65) with false by lia. reflexivity. }
  set (q' := {| cq_id := cq_id (a_cq a); cq_memory := <[Z.to_nat k := cmp]> (cq_memory (a_cq a)); cq_entry_count := 256;
                cq_head := k + 1; head_doorbell := k + 1; current_phase := true |}).
  destruct (cr_count _ _ Hcq) as [Hcn Hcl]. destruct (cr_head _ _ Hcq) as [Hch Hcp].
  assert (pop (a_cq a1) (a_heads a1) = Some (Some cmp, q', <[0 := k + 1]> (a_heads a))) as Hpop.
  { unfold pop. cbn [a1 a_cq set_cq put_completion cq_memory cq_head current_phase cq_entry_count a_heads cq_id].
    rewrite Hch, Hcp, list_lookup_insert_eq by (rewrite Hcl; lia). cbn [mbind option_bind cmp_status cmp the_completion cmp_sqid cmp_head].
    rewrite phase_of_status. cbn [Bool.eqb]. unfold u16add. replace (k + 1 <? 65536) with true by lia. cbn [mbind option_bind].
    rewrite Hcn. replace (256 <=? k + 1) with false by lia. rewrite (cr_heads _ _ Hcq). reflexivity. }
  exists (set_admin h1 (set_cq a1 q' (<[0 := k + 1]> (a_heads a)))), (set_cq a1 q' (<[0 := k + 1]> (a_heads a))). split.
  - cbn [busy_wait_for_completion]. erewrite bind_run by done. erewrite bind_run by done. rewrite Hstep.
    erewrite bind_run by (unfold admin; by erewrite bind_run by done).
    rewrite Hpop. erewrite bind_run by done. cbv beta iota. erewrite bind_run by done. by erewrite bind_run by done.
  - split; [|done]. split; cbn; try done.
    + rewrite Hsq. unfold sq_room. cbn. rewrite length_insert, Ht. split_and!; lia || done.
    + split; cbn; [by rewrite length_insert|done| |apply lookup_insert_eq].
      intros i c Hi Hl. rewrite list_lookup_insert_ne in Hl by lia. eapply (cr_old _ _ Hcq); [|exact Hl]. lia.
Qed.

(** A command is answered once, with what the controller makes of it. *)
Lemma command_run k h a f dwords fuel : idle k h a → f k (a_sq a) = Some (sent (a_sq a) dwords) → k < 62 →
  (∀ n, (lag n < fuel)%nat) → let r := execute respond dwords (c_state (h_ctrl h)) in ∃ h' a',
  (submit_admin f;; busy_wait_for_completion respond lag fuel) h = Ok (the_completion k dwords r) h' ∧ idle (k + 1) h' a' ∧
  same_rest h h' ∧ h_bytes h' = store_bytes (h_bytes h) (prp1 dwords) (an_data r) ∧
  c_state (h_ctrl h') = an_state r ∧ a_sq_memory a' = a_sq_memory a ∧ a_cq_memory a' = a_cq_memory a.
Proof.
  intros Hidle Hf Hk Hlag r. destruct (submit_run k h a f dwords Hidle Hf) as (h1 & a1 & H1 & Hw & Hr1 & Hb1 & Hm1 & Hm2).
  assert (∀ d w fuel h1 a1, (lag (c_done (h_ctrl h)) - w ≤ d)%nat → (d < fuel)%nat →
    waiting k dwords w (c_state (h_ctrl h)) (c_done (h_ctrl h)) h1 a1 → ∃ h' a',
    busy_wait_for_completion respond lag fuel h1 = Ok (the_completion k dwords r) h' ∧ idle (k + 1) h' a' ∧
    same_rest h1 h' ∧ h_bytes h' = store_bytes (h_bytes h1) (prp1 dwords) (an_data r) ∧
    c_state (h_ctrl h') = an_state r ∧ a_sq_memory a' = a_sq_memory a1 ∧ a_cq_memory a' = a_cq_memory a1) as Hloop.
  { clear Hlag fuel h1 a1 H1 Hw Hr1 Hb1 Hm1 Hm2.
    induction d as [|d IH]; intros w [|fuel] h1 a1 Hd Hfuel Hw; [lia| |lia|].
    { apply (wait_done k dwords w _ _ h1 a1 fuel Hw); lia. }
    destruct (decide (lag (c_done (h_ctrl h)) ≤ w)%nat) as [Hle|Hlt]; [by apply (wait_done k dwords w _ _ h1 a1 fuel Hw)|].
    destruct (wait_more k dwords w _ _ h1 a1 fuel Hw ltac:(lia)) as (h2 & a2 & H2 & Hw2 & Hr2 & Hb2 & Hm3 & Hm4).
    destruct (IH (S w) fuel h2 a2 ltac:(lia) ltac:(lia) Hw2) as (h3 & a3 & H3 & Hi3 & Hr3 & Hb3 & Hc3 & Hm5 & Hm6).
    exists h3, a3. rewrite H2, H3. split_and!; [done|done|by eapply same_rest_trans|by rewrite Hb3, Hb2|done|congruence|congruence]. }
  destruct (Hloop (lag (c_done (h_ctrl h))) 0%nat fuel h1 a1 ltac:(lia) (Hlag _) Hw) as (h' & a' & H' & Hi' & Hr' & Hb' & Hc' & Hm' & Hm'').
  exists h', a'. erewrite bind_run by exact H1. split_and!; [exact H'|done|by eapply same_rest_trans|by rewrite Hb', Hb1|done|congruence|congruence].
Qed.
End admin.

(** *** Buffers and queues *)

Section queues.
Context `{BF : BitField} {BV : BitVec} {D G X : Type} `{HB : Bus D} `{HM : Mmio G}.
Context (kernel_table : PageTable) (respond : AdminCommand → X → Answer X) (lag : nat → nat).
Context (R : Z → Prop) (Hr : R (level0_table kernel_table)) (Y : Z → Prop).
Local Abbreviation Host := (Host D G X).
Local Abbreviation inv := (buffers_inv kernel_table R Y).
Implicit Types (h : Host) (a : AdminQueues) (k : Z) (b : PhysicalBuffer).

Lemma alloc_buffer m live kept n o b m' : inv m live kept → 1 ≤ n < 512 →
  PhysBuffer.alloc kernel_table n o m = Ok b m' →
  inv m' (b :: live) kept ∧ pb_page_count b = n ∧ 0 ≤ phy_addr b < 2 ^ 48.
Proof.
  intros Hinv Hn Ha. split.
  { pose proof (alloc_outcome kernel_table R Hr Y m live kept n o Hinv ltac:(lia) ltac:(plia)
      (small_buffer n _ ltac:(lia))) as Ho. by rewrite Ha in Ho. }
  unfold PhysBuffer.alloc in Ha. apply bind_Ok in Ha as (p & m1 & Hp & Ha).
  apply bind_Ok in Ha as (v & m2 & _ & Ha). apply bind_Ok in Ha as (u & m3 & _ & Ha). injection Ha as <- <-. cbn.
  unfold with_pma, with_tabs, with_frames in Hp. destruct (alloc_contig n (frames (ktabs m))) as [p' s'|e s'|w] eqn:Hc; [|done..].
  injection Hp as <- _. pose proof (forest_frames _ _ _ (bi_forest _ _ _ _ _ _ Hinv)) as Hf.
  destruct (alloc_contig_frames _ _ _ _ Hf Hc) as (_ & _ & _ & H0 & H1 & _). split; [done|]. plia.
Qed.

Lemma new_buffer_run reason n h b m : PhysBuffer.alloc kernel_table n plain_options (h_mem h) = Ok b m →
  new_buffer kernel_table reason n h = Ok b (set_memory h m).
Proof. intros H. unfold new_buffer, on_kmem. by rewrite H. Qed.

Lemma zeroed_buffer_run reason n h b m : PhysBuffer.alloc kernel_table n plain_options (h_mem h) = Ok b m →
  pb_page_count b = n → 1 ≤ n < 512 → ∃ bytes, zeroed_buffer kernel_table reason n h = Ok b (set_bytes (set_memory h m) bytes).
Proof.
  intros H Hb Hn. unfold zeroed_buffer. erewrite bind_run by (by apply new_buffer_run).
  assert (len b = Some (n * PAGE_SIZE)) as ->.
  { unfold len. rewrite Hb. apply umul_Some. plia. }
  eexists. by repeat erewrite bind_run by done.
Qed.

Lemma release_buffer_run h live1 b live2 kept : inv (h_mem h) (live1 ++ b :: live2) kept → ∃ m,
  release kernel_table b h = Ok tt (set_memory h m) ∧ inv m (live1 ++ live2) kept.
Proof.
  intros Hinv. destruct (drop_buffer_run kernel_table R Hr Y _ _ _ _ _ Hinv) as (m & Hm & Hinv'). exists m.
  unfold release, or_panic, on_kmem. by rewrite Hm.
Qed.

Lemma then_run {S E A B C} (m : M S E A) (n : M S E B) (f : B → M S E C) s c s' :
  (m;; n) s = Ok c s' → (m;; x ← n; f x) s = f c s'.
Proof. intros H. apply bind_Ok in H as (x & s1 & H1 & H2). erewrite bind_run by exact H1. by erewrite bind_run by exact H2. Qed.

Lemma status_parts t c : 0 ≤ t < 8 → 0 ≤ c < 256 → let s := 2 * (256 * t + c) + 1 in status_code_type s = t ∧ status_code s = c.
Proof. intros Ht Hc. unfold status_code_type, status_code. rewrite !bit_range_div_mod by lia. cbn -[Z.div Z.modulo Z.mul Z.add]. dlia. Qed.

(** [h'] is [h] after an admin command, with new memory. *)
Definition after_command k h m (r : Answer X) h' : Prop :=
  (∃ a', idle k h' a') ∧ same_rest (set_memory h m) h' ∧ c_state (h_ctrl h') = an_state r.

Lemma idle_memory k h a m bytes : idle k h a → idle k (set_bytes (set_memory h m) bytes) a.
Proof. by intros [? ? ? ? ?]. Qed.

Context (fuel : nat) (Hlag : ∀ n, (lag n < fuel)%nat).

(** A queue's memory, the command that announces it, and its answer *)
Lemma requested_run k h a b m f dwords reason n : idle k h a → k < 62 →
  PhysBuffer.alloc kernel_table n plain_options (h_mem h) = Ok b m → pb_page_count b = n → 1 ≤ n < 512 →
  f k (a_sq a) = Some (sent (a_sq a) dwords) → let r := execute respond dwords (c_state (h_ctrl h)) in
  ∃ h1 h', zeroed_buffer kernel_table reason n h = Ok b h1 ∧
    (submit_admin f;; busy_wait_for_completion respond lag fuel) h1 = Ok (the_completion k dwords r) h' ∧
    after_command (k + 1) h m r h'.
Proof.
  intros Hidle Hk Ha Hb Hn Hf r. destruct (zeroed_buffer_run reason n h b m Ha Hb Hn) as [bytes Hz].
  destruct (command_run respond lag k (set_bytes (set_memory h m) bytes) a f dwords fuel) as (h' & a' & Hrun & Hi & Hs & _ & Hc & _);
    [by apply idle_memory|done..|].
  exists (set_bytes (set_memory h m) bytes), h'. split_and!; [exact Hz|exact Hrun|]. split_and!; [by exists a'|exact Hs|exact Hc].
Qed.

Lemma new_io_cq_run k h a b m live kept iv : idle k h a → k < 62 → inv (h_mem h) live kept →
  PhysBuffer.alloc kernel_table 2 plain_options (h_mem h) = Ok b m → 0 ≤ iv < 2 ^ 16 →
  let r := respond (CreateCq 1 512 iv true (phy_addr b)) (c_state (h_ctrl h)) in ∃ h', after_command (k + 1) h m r h' ∧
  (an_status r = 0 → new_io_cq kernel_table respond lag fuel 1 512 (Some iv) h
     = Ok {| io_cq := new_cq 1 512; io_heads := ∅; io_cq_memory := b |} h') ∧
  (an_status r = 257 → new_io_cq kernel_table respond lag fuel 1 512 (Some iv) h
     = (drop_io_cq kernel_table {| io_cq := new_cq 1 512; io_heads := ∅; io_cq_memory := b |};; queue_refused) h').
Proof.
  intros Hidle Hk Hinv Ha Hiv r. destruct (alloc_buffer _ _ _ 2 _ _ _ Hinv ltac:(lia) Ha) as (_ & Hb & Hp).
  destruct (request_cq_run (a_sq a) k 1 512 (phy_addr b) iv (id_sq _ _ _ Hidle)) as (dw & Hf & Hd); [plia..|].
  destruct (requested_run k h a b m (λ head p, request_cq head p 1 512 (phy_addr b) (Some iv)) dw
    "failed to allocate memory for NVMe completion queue" 2 Hidle Hk Ha Hb ltac:(lia) Hf) as (h1 & h' & Hz & Hrun & Haf).
  unfold execute in Hrun, Haf. rewrite Hd in Hrun, Haf. fold r in Hrun, Haf. exists h'. split; [exact Haf|].
  assert (∀ res, cq_create_result (2 * an_status r + 1) = Some res → new_io_cq kernel_table respond lag fuel 1 512 (Some iv) h
    = match res with inl _ => mret {| io_cq := new_cq 1 512; io_heads := ∅; io_cq_memory := b |}
      | inr _ => drop_io_cq kernel_table {| io_cq := new_cq 1 512; io_heads := ∅; io_cq_memory := b |};; queue_refused end h') as H.
  { intros res Hres. unfold new_io_cq. erewrite bind_run by done. erewrite bind_run by exact Hz. cbv zeta.
    erewrite then_run by exact Hrun. cbn [cmp_status the_completion]. rewrite Hres. by erewrite bind_run by done. }
  split; intros Hst; rewrite Hst in H.
  - destruct (status_parts 0 0) as [H1 H2]; [lia..|]. apply (H (inl tt)). unfold cq_create_result.
    change (2 * 0 + 1) with (2 * (256 * 0 + 0) + 1). by rewrite H1, H2.
  - destruct (status_parts 1 1) as [H1 H2]; [lia..|]. apply (H (inr InvalidQueueId)). unfold cq_create_result.
    change (2 * 257 + 1) with (2 * (256 * 1 + 1) + 1). by rewrite H1, H2.
Qed.

Lemma new_io_sq_run k h a b m live kept q : idle k h a → k < 62 → inv (h_mem h) live kept →
  PhysBuffer.alloc kernel_table 2 plain_options (h_mem h) = Ok b m → cq_id (io_cq q) = 1 → io_heads q = ∅ →
  let r := respond (CreateSq 1 128 1 2 (phy_addr b)) (c_state (h_ctrl h)) in an_status r = 0 →
  ∃ h', after_command (k + 1) h m r h' ∧
    new_io_sq kernel_table respond lag fuel 1 128 q Medium h
    = Ok ((new_sq 1 128 ∅).1, b, {| io_cq := io_cq q; io_heads := {[1 := 0]}; io_cq_memory := io_cq_memory q |}) h'.
Proof.
  intros Hidle Hk Hinv Ha Hid Hh r Hst. destruct (alloc_buffer _ _ _ 2 _ _ _ Hinv ltac:(lia) Ha) as (_ & Hb & Hp).
  destruct (request_sq_run (a_sq a) k 1 128 1 (phy_addr b) Medium (id_sq _ _ _ Hidle)) as (dw & Hf & Hd); [plia..|].
  destruct (requested_run k h a b m (λ head p, request_sq head p 1 128 1 (phy_addr b) Medium) dw
    "allocate backing memory for NVMe submission queue" 2 Hidle Hk Ha Hb ltac:(lia) Hf) as (h1 & h' & Hz & Hrun & Haf).
  unfold execute in Hrun, Haf. rewrite Hd in Hrun, Haf. change (priority_code Medium) with 2 in Hrun, Haf. fold r in Hrun, Haf.
  exists h'. split; [exact Haf|]. unfold new_io_sq. erewrite bind_run by done. unfold new_sq. cbv zeta beta iota.
  erewrite bind_run by exact Hz. cbn [io_cq]. rewrite Hid. erewrite then_run by exact Hrun.
  cbn [cmp_status the_completion]. rewrite Hst. destruct (status_parts 0 0) as [H1 H2]; [lia..|].
  unfold sq_create_result. change (2 * 0 + 1) with (2 * (256 * 0 + 0) + 1). rewrite H1, H2. rewrite Hh. done.
Qed.
End queues.

(** *** Opening a namespace *)

(** Little endian numbers *)
Definition le (l : list Z) : Z := foldr (λ b acc, b + 256 * acc) 0 l.

Lemma store_bytes_other m a l p : p < a → store_bytes m a l !! p = m !! p.
Proof.
  revert m a. induction l as [|x l IH]; intros m a Hp; [done|]. cbn. rewrite IH by lia. by rewrite lookup_insert_ne by lia.
Qed.
Lemma store_bytes_lookup m a l i x : l !! i = Some x → store_bytes m a l !! (a + Z.of_nat i) = Some x.
Proof.
  revert m a i. induction l as [|y l IH]; intros m a [|i] Hi; [done..| |].
  - injection Hi as ->. cbn. rewrite store_bytes_other by lia. rewrite Z.add_0_r. apply lookup_insert_eq.
  - cbn [store_bytes]. replace (a + Z.of_nat (S i)) with (a + 1 + Z.of_nat i) by lia. by apply IH.
Qed.
Lemma read_le_stored m a l i n : (i + n ≤ length l)%nat →
  read_le (store_bytes m a l) (a + Z.of_nat i) n = le (take n (drop i l)).
Proof.
  revert i. induction n as [|n IH]; intros i Hn; [done|]. destruct (lookup_lt_is_Some_2 l i) as [x Hx]; [lia|].
  rewrite (drop_S l x i Hx). cbn. rewrite (store_bytes_lookup _ _ _ _ _ Hx). cbn.
  replace (a + Z.of_nat i + 1) with (a + Z.of_nat (S i)) by lia. by rewrite IH by lia.
Qed.

(** What the Identify data of a namespace says: sizes in blocks, and a block's size from the
    format in use. *)
Definition format_index (data : list Z) : nat := Z.to_nat (Z.land (data !!! 26%nat) 7).
Definition block_shift (data : list Z) : Z := data !!! (128 + 4 * format_index data + 2)%nat.
Record describes (data : list Z) (ns : Z) (s : NamespaceBlockStore) : Prop := {
  ds_size : total_size s = le (take 8 data);
  ds_capacity : capacity s = le (take 8 (drop 8 data));
  ds_utilization : utilitization s = le (take 8 (drop 16 data));
  ds_namespace : namespace_id s = ns;
  ds_block : supported_block_size s = 2 ^ block_shift data;
}.

Lemma format_small data : (format_index data < 8)%nat ∧ Z.of_nat (format_index data) = Z.land (data !!! 26%nat) 7.
Proof.
  unfold format_index. change 7 with (Z.ones 3). rewrite Z.land_ones by lia. split; dlia.
Qed.

Lemma third_byte (l : list Z) : length l = 4%nat → Forall (λ x, 0 ≤ x < 256) l → (le l / 2 ^ 16) mod 2 ^ 8 = l !!! 2%nat.
Proof.
  intros Hl Hb. destruct l as [|b0 [|b1 [|b2 [|b3 [|]]]]]; try done. unfold le. cbn -[Z.mul Z.add Z.div Z.modulo Z.pow].
  rewrite !Forall_cons in Hb. destruct Hb as (? & ? & ? & ? & _). change (2 ^ 16) with 65536. change (2 ^ 8) with 256. dlia.
Qed.

Lemma read_format `{BF : BitField} m a data : (160 ≤ length data)%nat → Forall (λ x, 0 ≤ x < 256) data →
  let flbas := Z.land (read_le (store_bytes m a data) (a + 26) 1) 7 in
  bit_range (read_le (store_bytes m a data) (a + 128 + 4 * flbas) 4) 23 16 = block_shift data.
Proof.
  intros Hl Hb flbas. destruct (format_small data) as [Hi Hz].
  assert (flbas = Z.of_nat (format_index data)) as ->.
  { rewrite Hz. unfold flbas. change (a + 26) with (a + Z.of_nat 26). rewrite read_le_stored by lia.
    destruct (lookup_lt_is_Some_2 data 26) as [x Hx]; [lia|]. rewrite (drop_S _ _ _ Hx), (list_lookup_total_correct _ _ _ Hx).
    rewrite firstn_cons, take_0. cbn -[Z.land Z.mul Z.add]. by replace (x + 256 * 0) with x by lia. }
  set (i := (128 + 4 * format_index data)%nat).
  replace (a + 128 + 4 * Z.of_nat (format_index data)) with (a + Z.of_nat i) by (unfold i; lia).
  rewrite read_le_stored by (unfold i; lia). rewrite bit_range_div_mod by lia. change (23 - 16 + 1) with 8.
  rewrite third_byte; [|rewrite length_take, length_drop; unfold i; lia|by apply Forall_take, Forall_drop].
  unfold block_shift. fold i. rewrite lookup_total_take by lia. by rewrite lookup_total_drop.
Qed.

Lemma identify_address dw st ns address : decode_command dw = Some (Identify st ns address) → prp1 dw = address.
Proof. unfold decode_command. intros H. by repeat case_match; simplify_eq. Qed.

Section open.
Context `{BF : BitField} {BV : BitVec} {D G X : Type} `{HB : Bus D} `{HM : Mmio G}.
Context (kernel_table : PageTable) (respond : AdminCommand → X → Answer X) (lag : nat → nat).
Context (R : Z → Prop) (Hr : R (level0_table kernel_table)) (Y : Z → Prop).
Context (fuel : nat) (Hlag : ∀ n, (lag n < fuel)%nat).
(** The registers of the MSI-X table are memory. *)
Context (word : D → Z → Z) (Hword : word_memory word).
Local Abbreviation Host := (Host D G X).
Local Abbreviation inv := (buffers_inv kernel_table R Y).
Implicit Types (h : Host) (a : AdminQueues) (k : Z) (b : PhysicalBuffer).

Lemma enable_interrupts_run (ic : GenericInterruptController) {HW : GicHardware G (distributor_base ic) (cpu_base ic)} id h :
  h_ic h = ic → irq id → (∀ g, stuck g Enabled id = false) → ∃ g,
  enable_interrupts id h = Ok tt (set_gic h g) ∧ flag g Enabled id = true ∧ only_flags ic (h_gic h) g id.
Proof.
  intros Hic Hid Hst. destruct (configure_run (E := Error) ic id Edge (h_gic h) Hid Hst)
    as (d1 & d2 & d3 & d4 & d5 & H1 & H2 & H3 & H4 & H5 & Hf & Ho).
  exists d5. split; [|done]. unfold enable_interrupts. erewrite bind_run by done. rewrite Hic. unfold on_gic.
  rewrite bind_unfold, H1. rewrite bind_unfold. cbn [h_gic set_gic]. rewrite H2. rewrite bind_unfold. cbn [h_gic set_gic]. rewrite H3.
  rewrite bind_unfold. cbn [h_gic set_gic]. rewrite H4. cbn [h_gic set_gic]. by rewrite H5.
Qed.

Lemma identify_run k h a cid ns st b : idle k h a → k < 62 → 0 ≤ phy_addr b < U64 →
  let r := respond (Identify (identify_code st) ns (phy_addr b)) (c_state (h_ctrl h)) in ∃ c h',
  (send_identify cid ns st b;; busy_wait_for_completion respond lag fuel) h = Ok c h' ∧
  after_command (k + 1) h (h_mem h) r h' ∧ h_bytes h' = store_bytes (h_bytes h) (phy_addr b) (an_data r).
Proof.
  intros Hidle Hk Hp r. destruct (send_identify_run (a_sq a) k cid ns st (phy_addr b) (id_sq _ _ _ Hidle) Hp) as (dw & Hf & Hd).
  destruct (command_run respond lag k h a (λ head q, o ← begin head q; c ← o;
    Some (submit (identify_command cid ns st (phy_addr b) c) q).1) dw fuel Hidle Hf Hk Hlag) as (h' & a' & Hrun & Hi & Hs & Hb & Hc & _).
  unfold execute in Hrun, Hb, Hc. rewrite Hd in Hrun, Hb, Hc. rewrite (identify_address _ _ _ _ Hd) in Hb.
  exists (the_completion k dw r), h'. split; [exact Hrun|]. split; [|exact Hb]. split_and!; [by exists a'|by destruct h|exact Hc].
Qed.

(** The descriptor of the next message interrupt *)
Definition next_msi (c : V2mMsiController) : MsiDescriptor :=
  {| register_addr := v2m_register_addr c; data_value := next_spi c; intid := next_spi c |}.
Definition taken_msi (ic : GenericInterruptController) (c : V2mMsiController) : GenericInterruptController :=
  {| distributor_base := distributor_base ic; cpu_base := cpu_base ic;
     msi_ctrl := Some {| v2m_register_addr := v2m_register_addr c; spi_start := spi_start c; num_spis := num_spis c;
                         next_spi := next_spi c + 1 |};
     dt_interrupt_cells := dt_interrupt_cells ic |}.

Lemma alloc_msi_run h c : msi_ctrl (h_ic h) = Some c → next_spi c ≤ spi_start c + num_spis c →
  on_ic_state alloc_msi h = Ok (Some (next_msi c)) (set_ic h (taken_msi (h_ic h) c)).
Proof.
  intros Hc Hn. unfold on_ic_state, alloc_msi. rewrite bind_unfold. cbn [get]. rewrite Hc.
  assert (v2m_alloc_msi (E := Error) c = Ok (next_msi c) {| v2m_register_addr := v2m_register_addr c; spi_start := spi_start c;
    num_spis := num_spis c; next_spi := next_spi c + 1 |}) as Hm.
  { unfold v2m_alloc_msi. rewrite bind_unfold. cbn [get]. by rewrite (proj2 (Z.ltb_ge _ _) Hn). }
  rewrite bind_unfold. unfold Dtb.on_local. by rewrite Hm.
Qed.

(** The part of [open_block_store] before queues are made *)
Definition path_names (subpath : str) (ns : Z) : Prop :=
  ∃ name rest, RegPath.next (new_components subpath) = Some (Some (Name name), rest) ∧ parse_u32 name = Some ns.

(** The entry of the table for the message, which leaves the other entries alone *)
Definition entry_for (t : MsiXTable) (msi : MsiDescriptor) (i : Z) (masked : bool) (d d' : D) : Prop :=
  entry_word word t d' i 0 = register_addr msi mod 2 ^ 32 ∧ entry_word word t d' i 1 = register_addr msi / 2 ^ 32 ∧
  entry_word word t d' i 2 = data_value msi ∧ Z.testbit (entry_word word t d' i 3) 0 = masked ∧
  ∀ j n, j ≠ i → 0 ≤ n < 4 → entry_word word t d' j n = entry_word word t d j n.

Lemma entry_run t i msi d : 0 ≤ i < msix_size t → ∃ d1 d2, write_entry (E := Error) t i msi d = Ok tt d1 ∧
  entry_for t msi i true d d1 ∧ set_mask (E := Error) t i false d1 = Ok tt d2 ∧ entry_for t msi i false d d2.
Proof.
  intros Hi. destruct (msix_entry_programmed (E := Error) word Hword t i msi d) as [H _].
  destruct (H Hi) as (d1 & d2 & H1 & H2 & Ha & Hb & Hc & Hm & Hn & Hu & _ & Ho). exists d1, d2. split_and!; try done.
  - split_and!; try done. intros j n Hj Hn'. destruct (set_mask_run (E := Error) word Hword t i false d1 Hi) as (d2' & H2' & Hw).
    rewrite H2 in H2'. injection H2' as <-. rewrite <- (Ho j n) by done. by rewrite Hw, decide_False by naive_solver.
  - split_and!; rewrite ?Hn by lia; done.
Qed.

(** What [open_block_store] does up to the making of queues *)
Lemma open_start h self subpath ns c : path_names subpath ns → ns ∈ nvme_namespaces self →
  ns mod 2 ^ 16 < msix_size (msix_table self) → msi_ctrl (h_ic h) = Some c → next_spi c ≤ spi_start c + num_spis c →
  ∃ d1 d2, entry_for (msix_table self) (next_msi c) (ns mod 2 ^ 16) true (h_bus h) d1 ∧
    set_mask (E := Error) (msix_table self) (ns mod 2 ^ 16) false d1 = Ok tt d2 ∧
    entry_for (msix_table self) (next_msi c) (ns mod 2 ^ 16) false (h_bus h) d2 ∧
    open_block_store kernel_table respond lag fuel self subpath h =
    open_queues kernel_table respond lag fuel self ns (next_msi c) (set_bus (set_ic h (taken_msi (h_ic h) c)) d1).
Proof.
  intros (name & rest & Hp & Hn) Hin Hsz Hc Hs.
  destruct (entry_run (msix_table self) (ns mod 2 ^ 16) (next_msi c) (h_bus h)) as (d1 & d2 & H1 & He1 & H2 & He2).
  { split; [apply Z.mod_pos_bound; lia|done]. }
  exists d1, d2. split_and!; try done. unfold open_block_store. erewrite bind_run by (by rewrite Hp). cbv beta iota.
  rewrite Hn. erewrite bind_run by done. rewrite bool_decide_true by done. cbn [negb].
  erewrite bind_run by (by apply alloc_msi_run). erewrite bind_run by done. cbv zeta.
  erewrite bind_run; [done|]. unfold on_regs. cbn [h_bus set_ic]. by rewrite H1.
Qed.

(** The controller's answers to the three commands of opening [ns] with buffers [b1], [b2] and [b3] *)
Definition answer_cq ns b1 (x : X) : Answer X := respond (CreateCq 1 512 (ns mod 2 ^ 16) true (phy_addr b1)) x.
Definition answer_sq ns b1 b2 (x : X) : Answer X := respond (CreateSq 1 128 1 2 (phy_addr b2)) (an_state (answer_cq ns b1 x)).
Definition answer_identify ns b1 b2 b3 (x : X) : Answer X :=
  respond (Identify 0 ns (phy_addr b3)) (an_state (answer_sq ns b1 b2 x)).

(** The three buffers that opening takes *)
Definition buffers_from (m0 : KernelMem) b1 b2 b3 (m3 : KernelMem) : Prop := ∃ m1 m2,
  PhysBuffer.alloc kernel_table 2 plain_options m0 = Ok b1 m1 ∧ PhysBuffer.alloc kernel_table 2 plain_options m1 = Ok b2 m2 ∧
  PhysBuffer.alloc kernel_table 1 plain_options m2 = Ok b3 m3.

Lemma describes_read data ns (m : gmap Z Z) p sq buf hd id size : (160 ≤ length data)%nat → size = 2 ^ block_shift data →
  let m' := store_bytes m p data in
  describes data ns {| total_size := read_le m' p 8; capacity := read_le m' (p + 8) 8; utilitization := read_le m' (p + 16) 8;
    namespace_id := ns; supported_block_size := size; io_sq := sq; io_sq_memory := buf; io_handle := hd; int_id := id |}.
Proof.
  intros Hl Hs m'. split; cbn [total_size capacity utilitization]; [|change (p + 8) with (p + Z.of_nat 8)|change (p + 16) with (p + Z.of_nat 16)|done|done].
  - pose proof (read_le_stored m p data 0 8 ltac:(lia)) as H. by rewrite Z.add_0_r in H.
  - unfold m'. by rewrite read_le_stored by lia.
  - unfold m'. by rewrite read_le_stored by lia.
Qed.

Lemma on_failure_run {A} (c : M Host Error unit) (m : M Host Error A) h x h' : m h = Ok x h' → on_failure c m h = Ok x h'.
Proof. intros H. unfold on_failure. by rewrite H. Qed.

(** The second half: the data of the namespace is read, its interrupt unmasked, its buffer returned. *)
Lemma identify_namespace_run k h a live kept self ns msi b m d2 sq buf hd :
  let r := respond (Identify 0 ns (phy_addr b)) (c_state (h_ctrl h)) in
  idle k h a → k < 62 → inv (h_mem h) live kept → PhysBuffer.alloc kernel_table 1 plain_options (h_mem h) = Ok b m →
  set_mask (E := Error) (msix_table self) (ns mod 2 ^ 16) false (h_bus h) = Ok tt d2 →
  (160 ≤ length (an_data r))%nat → Forall (λ v, 0 ≤ v < 256) (an_data r) → block_shift (an_data r) < 64 →
  ∃ s h' m', identify_namespace kernel_table respond lag fuel self ns msi sq buf hd h = Ok s h' ∧
    after_command (k + 1) (set_bus h d2) m' r h' ∧ inv m' live kept ∧ describes (an_data r) ns s ∧
    io_sq s = sq ∧ io_sq_memory s = buf ∧ io_handle s = hd ∧ int_id s = intid msi.
Proof.
  intros r Hidle Hk Hinv Ha Hmask Hlen Hb Hsh.
  destruct (alloc_buffer _ R Hr Y _ _ _ 1 _ _ _ Hinv ltac:(lia) Ha) as (Hinv1 & _ & Hp).
  destruct (identify_run k (set_memory h m) a 0xa000 ns Namespace b) as (c & h1 & Hrun & ((a1 & Hi) & Hsame & Hx) & Hby);
    [by destruct Hidle|lia..|]. change (identify_code Namespace) with 0 in Hx, Hby. cbn [h_ctrl set_memory h_bytes] in Hx, Hby. fold r in Hx, Hby.
  destruct Hsame as (Hbus & Hmem & Hg & Hic & Hh). cbn in Hbus, Hmem, Hg, Hic, Hh.
  destruct (release_buffer_run kernel_table R Hr Y (set_bus h1 d2) [] b live kept) as (m' & Hrel & Hinv'); [by cbn; rewrite Hmem|].
  pose proof (read_format (h_bytes h) (phy_addr b) (an_data r) Hlen Hb) as Hfmt. cbv zeta in Hfmt.
  eexists _, (set_memory (set_bus h1 d2) m'), m'. split.
  { unfold identify_namespace. erewrite bind_run by (apply on_failure_run, new_buffer_run, Ha).
    erewrite then_run by exact Hrun. erewrite bind_run by done. cbv zeta. rewrite Hby, Hfmt.
    erewrite bind_run by (unfold on_regs; by rewrite Hbus, Hmask). rewrite (proj2 (Z.ltb_lt _ _) Hsh).
    erewrite bind_run by done. by erewrite bind_run by exact Hrel. }
  split; [|split; [exact Hinv'|]].
  - split; [exists a1; by destruct Hi|]. split; [|done]. split_and!; cbn; done.
  - split; [|done]. apply describes_read; [done|]. rewrite Z.shiftl_1_l. done.
Qed.

(** A namespace was opened: the store is what the data says, with queues of its own; the
    completion queue is with the handler of the interrupt, which is enabled; the memory of the
    queues, and no more, is taken; the admin queues are as idle as before. *)
Record opened (ic : GenericInterruptController) {HW : GicHardware G (distributor_base ic) (cpu_base ic)}
    k h live kept ns (msi : MsiDescriptor) b1 b2 (r : Answer X) (s : NamespaceBlockStore) h' : Prop := {
  od_store : describes (an_data r) ns s;
  od_sq : io_sq s = (new_sq 1 128 ∅).1 ∧ io_sq_memory s = b2;
  od_handle : io_handle s = {| next_cmd_id := 0; pending_completions := ∅ |} ∧ int_id s = intid msi;
  od_handlers : h_handlers h' = <[intid msi := {| io_cq := new_cq 1 512; io_heads := {[1 := 0]}; io_cq_memory := b1 |}]> (h_handlers h);
  od_enabled : flag (h_gic h') Enabled (intid msi) = true;
  od_flags : only_flags ic (h_gic h) (h_gic h') (intid msi);
  od_memory : inv (h_mem h') (b2 :: b1 :: live) kept;
  od_idle : ∃ a', idle (k + 3) h' a';
  od_ctrl : c_state (h_ctrl h') = an_state r;
}.

Lemma queues_run (ic : GenericInterruptController) {HW : GicHardware G (distributor_base ic) (cpu_base ic)}
    k h a live kept self ns msi b1 b2 b3 m3 d2 : let x := c_state (h_ctrl h) in let r := answer_identify ns b1 b2 b3 x in
  idle k h a → k ≤ 59 → inv (h_mem h) live kept → buffers_from (h_mem h) b1 b2 b3 m3 →
  h_ic h = ic → irq (intid msi) → (∀ g, stuck g Enabled (intid msi) = false) → h_handlers h !! intid msi = None →
  set_mask (E := Error) (msix_table self) (ns mod 2 ^ 16) false (h_bus h) = Ok tt d2 →
  an_status (answer_cq ns b1 x) = 0 → an_status (answer_sq ns b1 b2 x) = 0 →
  (160 ≤ length (an_data r))%nat → Forall (λ v, 0 ≤ v < 256) (an_data r) → block_shift (an_data r) < 64 →
  ∃ s h', open_queues kernel_table respond lag fuel self ns msi h = Ok s h' ∧ h_bus h' = d2 ∧
    opened ic k h live kept ns msi b1 b2 r s h'.
Proof.
  intros x r Hidle Hk Hinv (m1 & m2 & Ha1 & Ha2 & Ha3) Hic Hirq Hst Hno Hmask Hs1 Hs2 Hlen Hb Hsh.
  destruct (alloc_buffer _ R Hr Y _ _ _ 2 _ _ _ Hinv ltac:(lia) Ha1) as (Hinv1 & _ & _).
  destruct (alloc_buffer _ R Hr Y _ _ _ 2 _ _ _ Hinv1 ltac:(lia) Ha2) as (Hinv2 & _ & _).
  destruct (new_io_cq_run kernel_table respond lag R Hr Y fuel Hlag k h a b1 m1 live kept (ns mod 2 ^ 16) Hidle ltac:(lia) Hinv Ha1)
    as (h1 & ((a1 & Hi1) & (Hb1 & Hm1 & Hg1 & Hc1 & Hh1) & Hx1) & Hrun1 & _); [apply Z.mod_pos_bound; lia|].
  specialize (Hrun1 Hs1). fold (answer_cq ns b1 x) in Hx1. cbn in Hb1, Hm1, Hg1, Hc1, Hh1.
  rewrite <- Hm1 in Ha2, Hinv1.
  destruct (new_io_sq_run kernel_table respond lag R Hr Y fuel Hlag (k + 1) h1 a1 b2 m2 _ kept
    {| io_cq := new_cq 1 512; io_heads := ∅; io_cq_memory := b1 |} Hi1 ltac:(lia) Hinv1 Ha2 eq_refl eq_refl)
    as (h2 & ((a2 & Hi2) & (Hb2 & Hm2 & Hg2 & Hc2 & Hh2) & Hx2) & Hrun2); [by rewrite Hx1|].
  rewrite Hx1 in Hx2. fold (answer_sq ns b1 b2 x) in Hx2. cbn in Hb2, Hm2, Hg2, Hc2, Hh2.
  set (q := {| io_cq := new_cq 1 512; io_heads := {[1 := 0]}; io_cq_memory := b1 |}).
  destruct (enable_interrupts_run ic (intid msi) (set_handlers h2 (<[intid msi := q]> (h_handlers h2)))) as (g & Hen & Hf & Ho);
    [cbn; congruence|done..|].
  set (h3 := set_gic (set_handlers h2 (<[intid msi := q]> (h_handlers h2))) g) in *.
  assert (idle (k + 1 + 1) h3 a2) as Hi3 by (destruct Hi2; by split).
  destruct (identify_namespace_run _ h3 a2 (b2 :: b1 :: live) kept self ns msi b3 m3 d2 (new_sq 1 128 ∅).1 b2
    {| next_cmd_id := 0; pending_completions := ∅ |} Hi3) as (s & h' & m' & Hrun4 & ((a4 & Hi4) & (Hb4 & Hm4 & Hg4 & Hc4 & Hh4) & Hx4)
      & Hinv4 & Hds & Hsq & Hbuf & Hhd & Hid); unfold h3; cbn; rewrite ?Hx2, ?Hm2; [lia|done|done|by rewrite Hb2, Hb1|done..|].
  exists s, h'. split; [|split].
  - unfold open_queues. change (2 * PAGE_SIZE / COMPLETION_ENTRY_SIZE) with 512. change (2 * PAGE_SIZE / SUBMISSION_ENTRY_SIZE) with 128.
    erewrite bind_run by exact Hrun1. erewrite bind_run by (apply on_failure_run; exact Hrun2). cbv beta iota.
    erewrite bind_run; [exact Hrun4|]. unfold register_completion_queue. erewrite bind_run by done. erewrite bind_run by done.
    replace (h_handlers h2 !! intid msi) with (@None IoCq) by congruence. erewrite bind_run by done. by erewrite bind_run by exact Hen.
  - exact Hb4.
  - change (c_state (h_ctrl h3)) with (c_state (h_ctrl h2)) in Hx4. cbn in Hg4, Hh4, Hm4. rewrite Hx2 in Hx4. split; [|by split|by split|..].
    + change (c_state (h_ctrl h3)) with (c_state (h_ctrl h2)) in Hds. by rewrite Hx2 in Hds.
    + by rewrite Hh4, Hh2, Hh1.
    + by rewrite Hg4.
    + rewrite Hg4, <- Hg1, <- Hg2. exact Ho.
    + by rewrite Hm4.
    + exists a4. by replace (k + 3) with (k + 1 + 1 + 1) by lia.
    + exact Hx4.
Qed.

(** C22: opening a namespace that the controller has.  The controller is asked for a completion
    queue of 512 entries that interrupts through the namespace's vector, a submission queue of 128
    entries of medium priority and the namespace's data, in this order.  If it makes the queues,
    the store has the sizes of the data and two to the power of its format's shift as block
    size; the vector's entry of the MSI-X table holds the message of a fresh interrupt and is
    not masked, while the other entries are as before; that interrupt, and no other, is enabled
    and handled; and the memory of the two queues is all the memory that stays taken. *)
Theorem namespace_opened k h {HW : GicHardware G (distributor_base (h_ic h)) (cpu_base (h_ic h))}
    a live kept self subpath ns c b1 b2 b3 m3 : let x := c_state (h_ctrl h) in let r := answer_identify ns b1 b2 b3 x in
  idle k h a → k ≤ 59 → inv (h_mem h) live kept → buffers_from (h_mem h) b1 b2 b3 m3 →
  path_names subpath ns → ns ∈ nvme_namespaces self → ns mod 2 ^ 16 < msix_size (msix_table self) →
  msi_ctrl (h_ic h) = Some c → next_spi c ≤ spi_start c + num_spis c →
  irq (next_spi c) → (∀ g, stuck g Enabled (next_spi c) = false) → h_handlers h !! next_spi c = None →
  an_status (answer_cq ns b1 x) = 0 → an_status (answer_sq ns b1 b2 x) = 0 →
  (160 ≤ length (an_data r))%nat → Forall (λ v, 0 ≤ v < 256) (an_data r) → block_shift (an_data r) < 64 →
  ∃ s h', open_block_store kernel_table respond lag fuel self subpath h = Ok s h' ∧
    entry_for (msix_table self) (next_msi c) (ns mod 2 ^ 16) false (h_bus h) (h_bus h') ∧
    opened (h_ic h) k h live kept ns (next_msi c) b1 b2 r s h'.
Proof.
  intros x r Hidle Hk Hinv Hbuf Hpath Hin Hsz Hc Hn Hirq Hst Hno Hs1 Hs2 Hlen Hb Hsh.
  destruct (open_start h self subpath ns c Hpath Hin Hsz Hc Hn) as (d1 & d2 & _ & Hm & He & Heq).
  destruct (queues_run (taken_msi (h_ic h) c) (HW := HW) k (set_bus (set_ic h (taken_msi (h_ic h) c)) d1) a live kept self ns
    (next_msi c) b1 b2 b3 m3 d2) as (s & h' & Hrun & Hbus & Hop); try done; [by destruct Hidle|].
  exists s, h'. rewrite Heq, Hbus. split_and!; [exact Hrun|exact He|]. by destruct Hop.
Qed.

(** The first queue is refused: what was begun is undone, up to the controller's answer. *)
Lemma queues_refused k h a live kept self ns msi b m : idle k h a → k ≤ 59 → inv (h_mem h) live kept →
  PhysBuffer.alloc kernel_table 2 plain_options (h_mem h) = Ok b m →
  an_status (answer_cq ns b (c_state (h_ctrl h))) = 257 → ∃ h' a' dw n m',
  open_queues kernel_table respond lag fuel self ns msi h = Err (Other "NVMe device failed to create queue" (Some Device)) h' ∧
  waiting (k + 1) dw 0 (an_state (answer_cq ns b (c_state (h_ctrl h)))) n h' a' ∧ decode_command dw = Some (DeleteCq 1) ∧
  same_rest (set_memory h m') h' ∧ inv m' live kept.
Proof.
  intros Hidle Hk Hinv Ha Hs. destruct (alloc_buffer _ R Hr Y _ _ _ 2 _ _ _ Hinv ltac:(lia) Ha) as (Hinv1 & _ & _).
  destruct (new_io_cq_run kernel_table respond lag R Hr Y fuel Hlag k h a b m live kept (ns mod 2 ^ 16) Hidle ltac:(lia) Hinv Ha)
    as (h1 & ((a1 & Hi1) & (Hb1 & Hm1 & Hg1 & Hc1 & Hh1) & Hx1) & _ & Hrun); [apply Z.mod_pos_bound; lia|].
  specialize (Hrun Hs). fold (answer_cq ns b (c_state (h_ctrl h))) in Hx1. cbn in Hb1, Hm1, Hg1, Hc1, Hh1.
  destruct (drop_cq_run (a_sq a1) (k + 1) 1 (id_sq _ _ _ Hi1) ltac:(lia)) as (dw & Hf & Hd).
  destruct (submit_run (k + 1) h1 a1 (λ head p, drop_cq head p 1) dw Hi1 Hf) as (h2 & a2 & Hrun2 & Hw & (Hb2 & Hm2 & Hg2 & Hc2 & Hh2) & _).
  rewrite <- Hm1, <- Hm2 in Hinv1.
  destruct (release_buffer_run kernel_table R Hr Y h2 [] b live kept Hinv1) as (m' & Hrel & Hinv').
  exists (set_memory h2 m'), a2, dw, (c_done (h_ctrl h1)), m'. split_and!; [| |done| |done].
  - unfold open_queues. change (2 * PAGE_SIZE / COMPLETION_ENTRY_SIZE) with 512. rewrite bind_unfold, Hrun.
    unfold drop_io_cq. cbn [io_cq new_cq cq_id io_cq_memory]. rewrite bind_unfold. rewrite bind_unfold, Hrun2, Hrel. done.
  - rewrite <- Hx1. by destruct Hw.
  - split_and!; cbn; congruence.
Qed.

(** C39: opening when the controller refuses the completion queue, as it does for a second open: the
    driver's identifier is always 1, and 1 is in use.  The caller gets an error and the memory
    is returned.  But the vector's entry of the MSI-X table, by which the first store is told of
    completions, now has another message and is masked; the command that is outstanding, whose
    answer nobody will have waited for, deletes completion queue 1, which is the first store's;
    and the message interrupt that was taken stays taken. *)
Theorem reopen_breaks_store k h a live kept self subpath ns c b m :
  idle k h a → k ≤ 59 → inv (h_mem h) live kept → PhysBuffer.alloc kernel_table 2 plain_options (h_mem h) = Ok b m →
  path_names subpath ns → ns ∈ nvme_namespaces self → ns mod 2 ^ 16 < msix_size (msix_table self) →
  msi_ctrl (h_ic h) = Some c → next_spi c ≤ spi_start c + num_spis c →
  an_status (answer_cq ns b (c_state (h_ctrl h))) = 257 → ∃ h' a' dw n,
  open_block_store kernel_table respond lag fuel self subpath h = Err (Other "NVMe device failed to create queue" (Some Device)) h' ∧
  entry_for (msix_table self) (next_msi c) (ns mod 2 ^ 16) true (h_bus h) (h_bus h') ∧
  waiting (k + 1) dw 0 (an_state (answer_cq ns b (c_state (h_ctrl h)))) n h' a' ∧ decode_command dw = Some (DeleteCq 1) ∧
  h_ic h' = taken_msi (h_ic h) c ∧ h_handlers h' = h_handlers h ∧ inv (h_mem h') live kept.
Proof.
  intros Hidle Hk Hinv Ha Hpath Hin Hsz Hc Hn Hs.
  destruct (open_start h self subpath ns c Hpath Hin Hsz Hc Hn) as (d1 & d2 & He & _ & _ & Heq).
  destruct (queues_refused k (set_bus (set_ic h (taken_msi (h_ic h) c)) d1) a live kept self ns (next_msi c) b m)
    as (h' & a' & dw & n & m' & Hrun & Hw & Hd & (Hb & Hm & Hg & Hic & Hh) & Hinv'); try done; [by destruct Hidle|].
  exists h', a', dw, n. rewrite Heq. cbn in Hb, Hm, Hg, Hic, Hh. rewrite Hb, Hm. split_and!; done.
Qed.
End open.

(** *** Configuring a controller *)

Section configure.
Context `{BF : BitField} {BV : BitVec} {D G X : Type} `{HB : Bus D} `{HM : Mmio G}.
Context (kernel_table : PageTable) (respond : AdminCommand → X → Answer X) (lag : nat → nat).
Context (R : Z → Prop) (Hr : R (level0_table kernel_table)) (Y : Z → Prop).
Context (base : Z) (cc : D → Z) (rdy : D → bool) (delay : D → nat) (aqa asq acq : D → Z) (caps : Z) (history : D → list (Z * Z * bool)).
Context (Hct : controller base cc rdy delay aqa asq acq caps history) (bound : nat) (Hbound : ∀ d, (delay d ≤ bound)%nat).
Local Abbreviation Host := (Host D G X).
Local Abbreviation inv := (buffers_inv kernel_table R Y).
Implicit Types (h : Host) (a : AdminQueues) (b : PhysicalBuffer).

(** The words of a list of namespaces *)
Definition lists_ids (data : list Z) (ids : list Z) : Prop :=
  length data = 4096%nat ∧ (length ids ≤ 1024)%nat ∧ Forall (λ i, i ≠ 0) ids ∧
  ∀ i, (i < 1024)%nat → le (take 4 (drop (4 * i) data)) = default 0 (ids !! i).

Lemma namespace_ids_list ids n : (length ids ≤ n)%nat → Forall (λ i, i ≠ 0) ids →
  namespace_ids ((λ i, default 0 (ids !! i)) <$> seq 0 n) = ids.
Proof.
  revert ids. induction n as [|n IH]; intros [|i ids] Hl Hn; cbn [length] in Hl; try lia; [done|done|].
  apply Forall_cons in Hn as [Hi Hn]. cbn [seq]. rewrite fmap_cons. cbn [namespace_ids lookup list_lookup default].
  rewrite (proj2 (Z.eqb_neq _ _)) by done. f_equal. rewrite <- fmap_S_seq, <- list_fmap_compose. apply IH; [lia|done].
Qed.

Lemma listed_ids m p data ids : lists_ids data ids → namespace_ids (words_of (store_bytes m p data) p 1024) = ids.
Proof.
  intros (Hd & Hl & Hn & Hw). transitivity (namespace_ids ((λ i, default 0 (ids !! i)) <$> seq 0 1024));
    [|by apply namespace_ids_list]. f_equal. unfold words_of.
  apply list_fmap_ext. intros j i Hi. apply lookup_seq in Hi as [-> Hj]. cbn [Nat.add].
  rewrite <- Hw by done. replace (4 * Z.of_nat j) with (Z.of_nat (4 * j)) by lia. apply read_le_stored. lia.
Qed.

(** Queues that were just made, and a controller that was just enabled *)
Lemma fresh_idle h a n x b1 b2 : h_admin h = Some a → h_ctrl h = Build_Controller 0 0 true n 0 x →
  a = {| a_sq := (new_sq 0 64 ∅).1; a_cq := new_cq 0 256; a_heads := (new_sq 0 64 ∅).2; a_sq_memory := b2; a_cq_memory := b1 |} →
  idle 0 h a.
Proof.
  intros Ha Hc ->. split; [done| | |by rewrite Hc..].
  - by split_and!.
  - split; [done|done| |apply lookup_insert_eq]. intros i c _ Hi. cbn [a_cq new_cq cq_memory] in Hi.
    apply lookup_replicate in Hi as [-> _]. unfold phase_tag. cbn [cmp_status]. rewrite bit_testbit by lia. apply Z.testbit_0_l.
Qed.

Lemma identify_controller_wait h a b fuel : idle 0 h a → 0 ≤ phy_addr b < U64 → (∀ n, (lag n < fuel)%nat) →
  let r := respond (Identify 1 0 (phy_addr b)) (c_state (h_ctrl h)) in ∃ c h' a',
  (submit_admin (λ head q, o ← Nvme.begin head q; c ← o;
     Some (Nvme.submit (set_data_ptr_single (phy_addr b) (identify 0 Nvme.Controller (set_command_id 0xa000 c))) q).1);;
   busy_wait_for_completion respond lag fuel) h = Ok c h' ∧ idle 1 h' a' ∧ same_rest h h' ∧ c_state (h_ctrl h') = an_state r.
Proof.
  intros Hidle Hp Hlag r. destruct (identify_controller_run (a_sq a) 0 0xa000 (phy_addr b) (id_sq _ _ _ Hidle) Hp) as (dw & Hf & Hd).
  destruct (command_run respond lag 0 h a (λ head q, o ← Nvme.begin head q; c ← o;
    Some (Nvme.submit (set_data_ptr_single (phy_addr b) (identify 0 Nvme.Controller (set_command_id 0xa000 c))) q).1)
    dw fuel Hidle Hf ltac:(lia) Hlag) as (h' & a' & Hrun & Hi & Hs & _ & Hc & _).
  unfold execute in Hrun, Hc. rewrite Hd in Hrun, Hc. by exists (the_completion 0 dw r), h', a'.
Qed.

Definition answer_controller b (x : X) : Answer X := respond (Identify 1 0 (phy_addr b)) x.
Definition answer_list b (x : X) : Answer X := respond (Identify 2 0 (phy_addr b)) (an_state (answer_controller b x)).

Lemma active_namespaces_run h a live kept b m fuel ids : idle 0 h a → (∀ n, (lag n < fuel)%nat) → inv (h_mem h) live kept →
  PhysBuffer.alloc kernel_table 1 plain_options (h_mem h) = Ok b m → let r := answer_list b (c_state (h_ctrl h)) in
  lists_ids (an_data r) ids → ∃ h' m', active_namespaces kernel_table respond lag fuel h = Ok ids h' ∧
    after_command 2 h m' r h' ∧ inv m' live kept.
Proof.
  intros Hidle Hlag Hinv Ha r Hids. destruct (alloc_buffer _ R Hr Y _ _ _ 1 _ _ _ Hinv ltac:(lia) Ha) as (Hinv1 & _ & Hp).
  destruct (identify_controller_wait (set_memory h m) a b fuel) as (c1 & h1 & a1 & Hrun1 & Hi1 & (Hb1 & Hm1 & Hg1 & Hc1 & Hh1) & Hx1);
    [by destruct Hidle|lia|done|]. cbn [h_ctrl set_memory] in Hx1. cbn in Hb1, Hm1, Hg1, Hc1, Hh1.
  destruct (identify_run respond lag fuel Hlag 1 h1 a1 0xa001 0 ActiveNamespaceList b Hi1 ltac:(lia) ltac:(lia))
    as (c2 & h2 & Hrun2 & ((a2 & Hi2) & (Hb2 & Hm2 & Hg2 & Hc2 & Hh2) & Hx2) & Hby).
  rewrite Hx1 in Hx2, Hby. change (identify_code ActiveNamespaceList) with 2 in Hx2, Hby.
  fold (answer_controller b (c_state (h_ctrl h))) in Hx2, Hby. fold (answer_list b (c_state (h_ctrl h))) in Hx2, Hby. fold r in Hx2, Hby.
  cbn in Hb2, Hm2, Hg2, Hc2, Hh2.
  destruct (release_buffer_run kernel_table R Hr Y h2 [] b live kept) as (m' & Hrel & Hinv'); [by rewrite Hm2, Hm1|].
  exists (set_memory h2 m'), m'. split; [|split; [split; [by exists a2; destruct Hi2|split; [split_and!; cbn; congruence|done]]|done]].
  unfold active_namespaces. erewrite bind_run by (unfold or_panic; by erewrite new_buffer_run by exact Ha).
  erewrite then_run by exact Hrun1. erewrite then_run by exact Hrun2. erewrite bind_run by done.
  rewrite Hby, (listed_ids _ _ _ ids) by exact Hids. by erewrite bind_run by exact Hrel.
Qed.

(** The three buffers of [configure]: the admin queues and a page for data *)
Definition pages_from (m0 : KernelMem) b1 b2 b3 (m3 : KernelMem) : Prop := ∃ m1 m2,
  PhysBuffer.alloc kernel_table 1 plain_options m0 = Ok b1 m1 ∧ PhysBuffer.alloc kernel_table 1 plain_options m1 = Ok b2 m2 ∧
  PhysBuffer.alloc kernel_table 1 plain_options m2 = Ok b3 m3.

(** The admin queues are made, and the controller is told of them and enabled. *)
Lemma admin_queues_run h live kept b1 m1 b2 m2 fuel n x d1 : inv (h_mem h) live kept → (bound + 2 ≤ fuel)%nat →
  PhysBuffer.alloc kernel_table 1 plain_options (h_mem h) = Ok b1 m1 → PhysBuffer.alloc kernel_table 1 plain_options m1 = Ok b2 m2 →
  h_ctrl h = Build_Controller 0 0 true n 0 x → reset_controller (E := Error) fuel base (h_bus h) = Ok caps d1 →
  ∃ h2 a d2, (∀ msix, configure kernel_table respond lag fuel base msix h =
      (ids ← active_namespaces kernel_table respond lag fuel;
       mret {| base_address := base; cap := caps; msix_table := msix; nvme_namespaces := ids |}) h2) ∧
    idle 0 h2 a ∧ h_bus h2 = d2 ∧ enable_controller (E := Error) fuel base (phy_addr b1) (phy_addr b2) d1 = Ok tt d2 ∧
    h_mem h2 = m2 ∧ c_state (h_ctrl h2) = x ∧ inv m2 (b2 :: b1 :: live) kept.
Proof.
  intros Hinv Hf Ha1 Ha2 Hc Hreset.
  destruct (alloc_buffer _ R Hr Y _ _ _ 1 _ _ _ Hinv ltac:(lia) Ha1) as (Hinv1 & Hb1 & _).
  destruct (alloc_buffer _ R Hr Y _ _ _ 1 _ _ _ Hinv1 ltac:(lia) Ha2) as (Hinv2 & Hb2 & _).
  destruct (zeroed_buffer_run kernel_table "allocate admin completion queue" 1 (set_bus h d1) b1 m1) as [by1 Hz1]; [done|done|lia|].
  destruct (zeroed_buffer_run kernel_table "allocate admin submission queue" 1 (set_bytes (set_memory (set_bus h d1) m1) by1) b2 m2)
    as [by2 Hz2]; [done|done|lia|].
  destruct (enable_run (E := Error) base cc rdy delay aqa asq acq caps history Hct bound Hbound fuel (phy_addr b1) (phy_addr b2) d1 Hf)
    as (d2 & Hen & _).
  set (a := {| a_sq := (new_sq 0 64 ∅).1; a_cq := new_cq 0 256; a_heads := (new_sq 0 64 ∅).2; a_sq_memory := b2; a_cq_memory := b1 |}).
  set (h2 := set_bus (set_admin (set_bytes (set_memory (set_bytes (set_memory (set_bus h d1) m1) by1) m2) by2) a) d2).
  exists h2, a, d2. split_and!; [|by apply (fresh_idle _ _ n x b1 b2)|done|done|done|by cbn; rewrite Hc|done].
  intros msix. unfold configure. erewrite bind_run by (unfold on_regs; by rewrite Hreset).
  change (cq_page_count (PAGE_SIZE / COMPLETION_ENTRY_SIZE)) with 1. change (sq_page_count (PAGE_SIZE / SUBMISSION_ENTRY_SIZE)) with 1.
  erewrite bind_run by exact Hz1. unfold new_sq. cbv beta iota. erewrite bind_run by (unfold or_panic; by rewrite Hz2).
  erewrite bind_run by done. erewrite bind_run by done. erewrite bind_run; [done|]. unfold on_regs. cbn [h_bus set_admin set_bytes set_memory set_bus].
  by rewrite Hen.
Qed.

(** C38: configuring a controller.  The driver sets five registers of a controller that is enabled,
    in this order: it clears the enable bit, and when the controller is no longer ready, it sets
    the sizes and addresses of the fresh admin queues and enables the controller with its own
    configuration.  The handler then has exactly the namespaces that the controller lists; the
    admin queues are idle, with the two commands answered, and their memory is all the memory that
    stays taken.  A controller that is not enabled to begin with makes the driver wait forever.
    The controller follows the enable bit within bounded time, without a fatal status, and there
    are three pages for the queues and for the list. *)
Theorem controller_configured h live kept b1 b2 b3 m3 fuel msix n x ids : (bound + 2 ≤ fuel)%nat → (∀ n, (lag n < fuel)%nat) →
  inv (h_mem h) live kept → pages_from (h_mem h) b1 b2 b3 m3 → h_ctrl h = Build_Controller 0 0 true n 0 x →
  lists_ids (an_data (answer_list b3 x)) ids →
  (en cc (h_bus h) = true → ∃ h' a', configure kernel_table respond lag fuel base msix h
       = Ok {| base_address := base; cap := caps; msix_table := msix; nvme_namespaces := ids |} h' ∧
     idle 2 h' a' ∧ c_state (h_ctrl h') = an_state (answer_list b3 x) ∧ inv (h_mem h') (b2 :: b1 :: live) kept ∧
     rdy (h_bus h') = true ∧ cc (h_bus h') = controller_config ∧ acq (h_bus h') = phy_addr b1 ∧ asq (h_bus h') = phy_addr b2 ∧
     aqa (h_bus h') = admin_queue_attrbs 256 64 ∧
     history (h_bus h') = history (h_bus h) ++
       [(REG_CC, set_bit (cc (h_bus h)) 0 false, true); (REG_AQA, admin_queue_attrbs 256 64, false);
        (REG_ASQ, phy_addr b2, false); (REG_ACQ, phy_addr b1, false); (REG_CC, controller_config, false)]) ∧
  (en cc (h_bus h) = false → rdy (h_bus h) = false → ∀ fuel', configure kernel_table respond lag fuel' base msix h = Stop OutOfFuel).
Proof.
  intros Hf Hlag Hinv (m1 & m2 & Ha1 & Ha2 & Ha3) Hc Hids. split.
  2: { intros Hen Hrd fuel'. unfold configure, on_regs. rewrite bind_unfold.
    by rewrite (reset_forever (E := Error) base cc rdy delay aqa asq acq caps history Hct). }
  intros Hen. destruct (reset_run (E := Error) base cc rdy delay aqa asq acq caps history Hct bound Hbound fuel (h_bus h) Hf Hen)
    as (d1 & Hreset & Hrd1 & Hh1).
  destruct (admin_queues_run h live kept b1 m1 b2 m2 fuel n x d1 Hinv Hf Ha1 Ha2 Hc Hreset)
    as (h2 & a & d2 & Heq & Hidle & Hb2 & Hen2 & Hm2 & Hx2 & Hinv2).
  rewrite <- Hm2 in Ha3, Hinv2. rewrite <- Hx2 in Hids.
  destruct (active_namespaces_run h2 a _ kept b3 m3 fuel ids Hidle Hlag Hinv2 Ha3 Hids)
    as (h' & m' & Hrun & ((a' & Hi') & (Hb' & Hm' & _) & Hx') & Hinv'). cbn in Hb', Hm'.
  destruct (enable_run (E := Error) base cc rdy delay aqa asq acq caps history Hct bound Hbound fuel (phy_addr b1) (phy_addr b2) d1 Hf)
    as (d2' & Hen2' & Hrd & Hcc & Hs & Hq & Haq & Hh2). rewrite Hh1, Hrd1, <- app_assoc in Hh2. rewrite Hen2 in Hen2'. injection Hen2' as <-.
  exists h', a'. rewrite Heq. erewrite bind_run by exact Hrun. rewrite Hb', Hb2, Hm', <- Hx2. by split_and!.
Qed.
End configure.

(** *** Witnesses *)

#[local] Existing Instance concrete_bit_field.
#[local] Existing Instance concrete_bit_vec.
#[local] Existing Instance demo_mmio.
#[local] Existing Instance demo_hardware.

(** Three buffers from a kernel's memory *)
Definition take_three (kt : PageTable) (n1 n2 n3 : Z) : KM (PhysicalBuffer * PhysicalBuffer * PhysicalBuffer) :=
  b1 ← PhysBuffer.alloc kt n1 plain_options; b2 ← PhysBuffer.alloc kt n2 plain_options;
  b3 ← PhysBuffer.alloc kt n3 plain_options; mret (b1, b2, b3).
Definition takes_three (n1 n2 n3 : Z) : bool :=
  match empty true 0 demo_tables with
  | Ok kt s => is_ok (take_three kt n1 n2 n3 {| ktabs := s; kva := VirtAlloc.new START_ADDRESS TOTAL_SIZE |})
  | _ => false
  end.

Lemma demo_three n1 n2 n3 : takes_three n1 n2 n3 = true → ∃ kt m0 b1 m1 b2 m2 b3 m3,
  buffers_inv kt (with_root (λ _, False) (level0_table kt)) (λ _, False) m0 [] [] ∧
  PhysBuffer.alloc kt n1 plain_options m0 = Ok b1 m1 ∧ PhysBuffer.alloc kt n2 plain_options m1 = Ok b2 m2 ∧
  PhysBuffer.alloc kt n3 plain_options m2 = Ok b3 m3.
Proof.
  intros E. destruct demo_kernel as (kt & s & He & _ & Hf & Hsp). unfold takes_three in E. rewrite He in E.
  set (m0 := {| ktabs := s; kva := VirtAlloc.new START_ADDRESS TOTAL_SIZE |}) in *.
  destruct (take_three kt n1 n2 n3 m0) as [[[b1 b2] b3] m3|e m3|w] eqn:Ht; [|discriminate E|discriminate E]. unfold take_three in Ht.
  apply bind_Ok in Ht as (b1' & m1 & H1 & Ht). apply bind_Ok in Ht as (b2' & m2 & H2 & Ht). apply bind_Ok in Ht as (b3' & m3' & H3 & Ht).
  exists kt, m0, b1', m1, b2', m2, b3', m3'. split; [by apply no_buffers|done].
Qed.

(** A controller with one namespace of 1000 blocks of 512 bytes, which knows whether there is a queue 1. *)
Definition demo_namespace : list Z :=
  [232; 3; 0; 0; 0; 0; 0; 0] ++ [232; 3; 0; 0; 0; 0; 0; 0] ++ [44; 1; 0; 0; 0; 0; 0; 0] ++ replicate 106 0 ++ [9; 0] ++ replicate 3964 0.
Definition demo_respond (c : AdminCommand) (x : bool) : Answer bool :=
  match c with
  | CreateCq _ _ _ _ _ => if x then Build_Answer 257 [] x else Build_Answer 0 [] true
  | DeleteCq _ => Build_Answer 0 [] false
  | Identify 0 _ _ => Build_Answer 0 demo_namespace x
  | Identify 2 _ _ => Build_Answer 0 ([1; 0; 0; 0] ++ replicate 4092 0) x
  | _ => Build_Answer 0 [] x
  end.

(** Registers that are memory *)
#[local] Existing Instance word_bus.
Definition demo_table : MsiXTable := {| msix_base := 0x1000; msix_size := 4 |}.
Definition demo_v2m : V2mMsiController := {| v2m_register_addr := 0x8020040; spi_start := 80; num_spis := 64; next_spi := 80 |}.
Definition demo_ic : GenericInterruptController :=
  {| distributor_base := demo_dist; cpu_base := demo_cpu; msi_ctrl := Some demo_v2m; dt_interrupt_cells := 3 |}.

Definition demo_buffer : PhysicalBuffer := {| phy_addr := 0; vir_addr := 0; pb_page_count := 1 |}.
Definition demo_admin : AdminQueues :=
  {| a_sq := (new_sq 0 64 ∅).1; a_cq := new_cq 0 256; a_heads := (new_sq 0 64 ∅).2; a_sq_memory := demo_buffer; a_cq_memory := demo_buffer |}.
Definition demo_host (m : KernelMem) (x : bool) : Host (Z → Z) demo_gic bool :=
  Build_Host (λ _, 0) m ∅ (Some demo_admin) (Build_Controller 0 0 true 0 0 x) demo_device demo_ic ∅.
Definition demo_nvme : NvmeDeviceRegistryHandler :=
  {| base_address := 0; NvmeOpen.cap := 0; msix_table := demo_table; nvme_namespaces := [1] |}.
Definition demo_path : str := list_ascii_of_string "1".

Lemma demo_path_names : path_names demo_path 1.
Proof. eexists _, _. split; [vm_compute; reflexivity|]. vm_compute. reflexivity. Qed.
Lemma demo_host_idle m x : idle 0 (demo_host m x) demo_admin.
Proof. by apply (fresh_idle _ _ 0 x demo_buffer demo_buffer). Qed.
Lemma demo_lag (n : nat) : (3 < 5)%nat.
Proof. lia. Qed.
Lemma demo_word : word_memory (D := Z → Z) (λ d a, d a).
Proof. by split. Qed.
Lemma demo_namespace_bytes : Forall (λ v, 0 ≤ v < 256) demo_namespace.
Proof. unfold demo_namespace. rewrite !Forall_app. split_and!; try apply Forall_replicate; repeat constructor; lia. Qed.

Lemma namespace_opened_witness : ∃ kt m (s : NamespaceBlockStore) h',
  open_block_store kt demo_respond (λ _, 3%nat) 5 demo_nvme demo_path (demo_host m false) = Ok s h' ∧
  total_size s = 1000 ∧ utilitization s = 300 ∧ supported_block_size s = 512 ∧ h_bus h' 0x1018 = 80 ∧ flag (h_gic h') Enabled 80 = true.
Proof.
  destruct (demo_three 2 2 1) as (kt & m0 & b1 & m1 & b2 & m2 & b3 & m3 & Hinv & H1 & H2 & H3); [vm_compute; reflexivity|].
  exists kt, m0.
  destruct (namespace_opened kt demo_respond (λ _, 3%nat) (with_root (λ _, False) (level0_table kt)) (or_intror eq_refl) (λ _, False)
    5 demo_lag (λ d a, d a) demo_word 0 (demo_host m0 false) (HW := demo_hardware) demo_admin [] [] demo_nvme demo_path 1 demo_v2m b1 b2 b3 m3)
    as (s & h' & Hrun & He & Hop); try done.
  - apply demo_host_idle.
  - by exists m1, m2.
  - apply demo_path_names.
  - by left.
  - apply Nat.leb_le. vm_compute. reflexivity.
  - apply demo_namespace_bytes.
  - exists s, h'. destruct Hop as [[Hs _ Hu _ Hb] _ _ _ Hf _ _ _ _]. split; [exact Hrun|].
    split; [rewrite Hs; vm_compute; reflexivity|]. split; [rewrite Hu; vm_compute; reflexivity|].
    split; [rewrite Hb; vm_compute; reflexivity|]. split; [|exact Hf]. destruct He as (_ & _ & Hv & _). exact Hv.
Defined.

Lemma reopen_breaks_store_witness : ∃ kt m h' a' dw n,
  open_block_store kt demo_respond (λ _, 3%nat) 5 demo_nvme demo_path (demo_host m true)
    = Err (Other "NVMe device failed to create queue" (Some Device)) h' ∧
  waiting 1 dw 0 true n h' a' ∧ decode_command dw = Some (DeleteCq 1) ∧ Z.testbit (h_bus h' 0x101c) 0 = true.
Proof.
  destruct (demo_three 2 2 1) as (kt & m0 & b1 & m1 & _ & _ & _ & _ & Hinv & H1 & _); [vm_compute; reflexivity|].
  exists kt, m0.
  destruct (reopen_breaks_store kt demo_respond (λ _, 3%nat) (with_root (λ _, False) (level0_table kt)) (or_intror eq_refl) (λ _, False)
    5 demo_lag (λ d a, d a) demo_word 0 (demo_host m0 true) demo_admin [] [] demo_nvme demo_path 1 demo_v2m b1 m1)
    as (h' & a' & dw & n & Hrun & He & Hw & Hd & _); try done.
  - apply demo_host_idle.
  - apply demo_path_names.
  - by left.
  - exists h', a', dw, n. destruct He as (_ & _ & _ & Hm & _). split; [exact Hrun|]. split; [exact Hw|]. split; [exact Hd|exact Hm].
Defined.

#[local] Existing Instance ctrl_bus.

Definition demo_fresh (d : demo_ctrl) (m : KernelMem) : Host demo_ctrl demo_gic bool :=
  Build_Host d m ∅ None (Build_Controller 0 0 true 0 0 false) demo_device demo_ic ∅.
Definition demo_list : list Z := [1; 0; 0; 0] ++ replicate 4092 0.

Lemma demo_lists : lists_ids demo_list [1].
Proof.
  split_and!; [vm_compute; reflexivity|cbn; lia|by repeat constructor|].
  intros [|i] Hi; [vm_compute; reflexivity|]. cbn [lookup list_lookup default]. unfold demo_list.
  rewrite drop_app_ge by (cbn; lia). rewrite drop_replicate, take_replicate. destruct i; cbn [lookup list_lookup default].
  all: match goal with |- le (replicate ?n 0) = 0 => induction n as [|n' IH]; [done|cbn; unfold le in IH; by rewrite IH] end.
Qed.

Lemma controller_configured_witness : ∃ kt m,
  (∃ x h', configure kt demo_respond (λ _, 3%nat) 5 NVME_BASE demo_table (demo_fresh demo_ctrl_on m) = Ok x h' ∧
     nvme_namespaces x = [1] ∧ dc_rdy (h_bus h') = true ∧ ∃ a', idle 2 h' a') ∧
  configure kt demo_respond (λ _, 3%nat) 1000 NVME_BASE demo_table (demo_fresh demo_ctrl_off m) = Stop OutOfFuel.
Proof.
  destruct (demo_three 1 1 1) as (kt & m0 & b1 & m1 & b2 & m2 & b3 & m3 & Hinv & H1 & H2 & H3); [vm_compute; reflexivity|].
  exists kt, m0. assert (∀ d, (demo_delay d ≤ 1)%nat) as Hb by (intros d; unfold demo_delay; destruct (dc_late d); lia).
  pose proof (λ d, controller_configured kt demo_respond (λ _, 3%nat) (with_root (λ _, False) (level0_table kt)) (or_intror eq_refl)
    (λ _, False) NVME_BASE dc_cc dc_rdy demo_delay dc_aqa dc_asq dc_acq demo_caps dc_history ctrl_ok 1 Hb (demo_fresh d m0) [] [] b1 b2 b3 m3 5
    demo_table 0 false [1] ltac:(lia) demo_lag Hinv (ex_intro _ m1 (ex_intro _ m2 (conj H1 (conj H2 H3)))) eq_refl demo_lists) as H.
  split.
  - destruct (H demo_ctrl_on) as [Hon _]. destruct (Hon eq_refl) as (h' & a' & Hrun & Hi & _ & _ & Hr & _).
    eexists _, h'. split; [exact Hrun|]. split; [reflexivity|]. split; [exact Hr|]. by exists a'.
  - destruct (H demo_ctrl_off) as [_ Hoff]. apply Hoff; reflexivity.
Defined.
