(* ===== verification/Interrupts.v ===== *)
(** Interrupts and the code that they interrupt: the mask of the processor and the guard that
    sets it ([kernel/src/exception/mod.rs]), spin locks that an interrupt's handler takes too,
    and the entry to and return from an exception ([kernel/src/exception/table.S]).

    There is one processor.  A thread that waits for a spin lock, or that is interrupted, keeps
    the processor until the lock is free or the handler is done. *)
From stdpp Require Import base list relations.
From S2P Require Import Prelude BitField.

(** ** The mask *)

Section masks.
Context `{BF : BitField}.

(** The bits of [DAIF]; 0 is enabled and 1 is disabled. *)
Definition set_debug (m : Z) (b : bool) : Z := set_bit m 9 b.
Definition set_sys_error (m : Z) (b : bool) : Z := set_bit m 8 b.
Definition set_irq (m : Z) (b : bool) : Z := set_bit m 7 b.
Definition set_frq (m : Z) (b : bool) : Z := set_bit m 6 b.
Definition irq_masked (m : Z) : bool := bit m 7.

Definition all_enabled : Z := 0.
Definition all_disabled : Z := set_sys_error (set_irq (set_frq (set_debug 0 true) true) true) true.

(** [msr DAIF]: the register has four bits. *)
Definition write_interrupt_mask (m : Z) : Z := Z.land m 0x3c0.

(** A register that holds [d] gives [d mod 2^10] without the low six bits. *)
Definition mask_value (d : Z) : Prop := Z.land d 0x3c0 = d.
End masks.

(** ** Code with guards and a lock

    What matters of a piece of code: where it has an [InterruptGuard], and where it holds the
    lock that the handler of an interrupt takes.  Both are values of a scope, given back at its
    end, in the opposite order. *)
Inductive code :=
  | Work
  | Seq (c1 c2 : code)
  | Guarded (c : code)       (* [let _guard = InterruptGuard::disable_interrupts_until_drop(); ..] *)
  | Locked (c : code).       (* [let l = mutex.lock(); ..] *)

Inductive instr := IWork | IGuard | IDrop | ILock | IUnlock.

Fixpoint flat (c : code) : list instr :=
  match c with
  | Work => [IWork]
  | Seq c1 c2 => flat c1 ++ flat c2
  | Guarded c => IGuard :: flat c ++ [IDrop]
  | Locked c => ILock :: flat c ++ [IUnlock]
  end.

(** [PageTable::map_range], [unmap_range_custom], [physical_address_of], [drop] and
    [PageTableIter], with the lock of the table *)
Definition table_access : code := Guarded (Locked Work).
(** [enable_interrupts] of the NVMe driver: the lock of the interrupt controller is held for five
    calls of it, and there is no guard. *)
Definition enable_interrupts_code : code := Locked (Seq Work (Seq Work (Seq Work (Seq Work Work)))).

(** The handler waits for the lock, or has it; either way with the mask that it will restore. *)
Inductive handling := HSpin (saved : Z) | HIn (saved : Z).

Record Processor := {
  daif : Z;
  held : bool;               (* by the thread *)
  guards : list Z;           (* the [previous_mask] of each guard that is alive *)
  todo : list instr;
  handler : option handling;
}.

Section processor.
Context `{BF : BitField}.
Implicit Types (p : Processor) (c : code) (k : list instr).

Definition disable_interrupts_until_drop p k : Processor :=
  {| daif := write_interrupt_mask all_disabled; held := held p; guards := daif p :: guards p; todo := k; handler := None |}.
Definition drop_interrupt_guard p (previous_mask : Z) (gs : list Z) k : Processor :=
  {| daif := write_interrupt_mask previous_mask; held := held p; guards := gs; todo := k; handler := None |}.
Definition continue p (l : bool) k : Processor :=
  {| daif := daif p; held := l; guards := guards p; todo := k; handler := None |}.
Definition with_handler p (d : Z) (h : option handling) : Processor :=
  {| daif := d; held := held p; guards := guards p; todo := todo p; handler := h |}.

Inductive thread_step : Processor → Processor → Prop :=
  | ts_work p k : handler p = None → todo p = IWork :: k → thread_step p (continue p (held p) k)
  | ts_guard p k : handler p = None → todo p = IGuard :: k → thread_step p (disable_interrupts_until_drop p k)
  | ts_drop p g gs k : handler p = None → todo p = IDrop :: k → guards p = g :: gs → thread_step p (drop_interrupt_guard p g gs k)
  | ts_lock p k : handler p = None → todo p = ILock :: k → held p = false → thread_step p (continue p true k)
  | ts_unlock p k : handler p = None → todo p = IUnlock :: k → thread_step p (continue p false k).

(** The handler runs to its end once it has the lock; [eret] restores the mask. *)
Inductive handler_step : Processor → Processor → Prop :=
  | hs_lock p d : handler p = Some (HSpin d) → held p = false → handler_step p (with_handler p (daif p) (Some (HIn d)))
  | hs_done p d : handler p = Some (HIn d) → handler_step p (with_handler p d None).

(** An interrupt is taken when it is not masked; the processor then masks everything. *)
Inductive interrupt : Processor → Processor → Prop :=
  | int_take p : handler p = None → irq_masked (daif p) = false →
      interrupt p (with_handler p (write_interrupt_mask all_disabled) (Some (HSpin (daif p)))).

Inductive cpu_step : Processor → Processor → Prop :=
  | cs_thread p q : thread_step p q → cpu_step p q
  | cs_handler p q : handler_step p q → cpu_step p q
  | cs_interrupt p q : interrupt p q → cpu_step p q.

Definition start (d : Z) c : Processor := {| daif := d; held := false; guards := []; todo := flat c; handler := None |}.
End processor.

(** The lock is not taken. *)
Fixpoint lock_free (c : code) : bool :=
  match c with
  | Work => true
  | Seq c1 c2 => lock_free c1 && lock_free c2
  | Guarded c => lock_free c
  | Locked _ => false
  end.
(** The lock is not taken by a thread that has it. *)
Fixpoint well_locked (c : code) : bool :=
  match c with
  | Work => true
  | Seq c1 c2 => well_locked c1 && well_locked c2
  | Guarded c => well_locked c
  | Locked c => lock_free c
  end.
(** It is only taken under a guard. *)
Fixpoint guarded (under : bool) (c : code) : bool :=
  match c with
  | Work => true
  | Seq c1 c2 => guarded under c1 && guarded under c2
  | Guarded c => guarded true c
  | Locked c => under && lock_free c
  end.
(** Somewhere it is taken without one. *)
Fixpoint exposed (c : code) : bool :=
  match c with
  | Work => false
  | Seq c1 c2 => exposed c1 || well_locked c1 && exposed c2
  | Guarded _ => false
  | Locked _ => true
  end.

(** Instructions of a thread with [n] guards that holds the lock or does not *)
Fixpoint fits (n : nat) (l : bool) (k : list instr) : bool :=
  match k with
  | [] => (n =? 0)%nat && negb l
  | IWork :: k => fits n l k
  | IGuard :: k => fits (S n) l k
  | IDrop :: k => match n with O => false | S n' => (negb l || (0 <? n')%nat) && fits n' l k end
  | ILock :: k => negb l && (0 <? n)%nat && fits n true k
  | IUnlock :: k => l && fits n false k
  end.

Section proofs.
Context `{BF : BitField}.
Implicit Types (p : Processor) (c : code) (k : list instr).

Lemma all_disabled_value : all_disabled = 0x3c0.
Proof.
  apply Z.bits_inj'. intros i Hi. unfold all_disabled, set_sys_error, set_irq, set_frq, set_debug, set_bit.
  rewrite !set_bit_range_law by lia. destruct (decide (6 ≤ i ≤ 9)) as [Hr|Hr].
  - assert (i = 6 ∨ i = 7 ∨ i = 8 ∨ i = 9) as [->|[->|[->| ->]]] by lia; done.
  - rewrite !(proj2 (andb_false_iff _ _)) by (rewrite !Z.leb_gt; lia). rewrite Z.testbit_0_l. symmetry.
    destruct (decide (i < 6)) as [Hlt|Hge].
    + assert (i = 0 ∨ i = 1 ∨ i = 2 ∨ i = 3 ∨ i = 4 ∨ i = 5) as Hc by lia. by destruct Hc as [->|[->|[->|[->|[->| ->]]]]].
    + apply Z.bits_above_log2; [lia|]. cbn. lia.
Qed.

Lemma disabled_masked : write_interrupt_mask all_disabled = all_disabled ∧ irq_masked all_disabled = true.
Proof. unfold irq_masked. rewrite bit_testbit by lia. by rewrite all_disabled_value. Qed.

Lemma lock_free_guarded c b : lock_free c = true → guarded b c = true.
Proof.
  revert b. induction c as [|c1 IH1 c2 IH2|c IH|c IH]; intros b Hf; cbn in *; try done; [|by apply IH].
  apply andb_true_iff in Hf as [??]. by rewrite IH1, IH2.
Qed.

Lemma fits_flat c n l k : fits n l k = true → (l = true → lock_free c = true ∧ n ≠ 0%nat) →
  guarded (0 <? n)%nat c = true → fits n l (flat c ++ k) = true.
Proof.
  revert n l k. induction c as [|c1 IH1 c2 IH2|c IH|c IH]; intros n l k Hk Hl Hg; cbn [guarded] in Hg; cbn [flat app fits].
  - done.
  - rewrite <- app_assoc. apply andb_true_iff in Hg as [Hg1 Hg2].
    assert (l = true → lock_free c1 = true ∧ lock_free c2 = true ∧ n ≠ 0%nat) as Hl'.
    { intros H. destruct (Hl H) as [Hf ?]. cbn in Hf. apply andb_true_iff in Hf. tauto. }
    apply IH1; [|naive_solver|done]. apply IH2; [done|naive_solver|done].
  - rewrite <- app_assoc. apply IH; [|naive_solver|done]. cbn [app fits]. rewrite Hk, andb_true_r.
    destruct l; [|done]. destruct (Hl eq_refl) as [_ Hn]. by destruct n.
  - apply andb_true_iff in Hg as [Hn Hf]. destruct l; [by destruct (Hl eq_refl)|]. rewrite Hn. cbn [negb andb].
    rewrite <- app_assoc. apply IH; [done|split; [done|by destruct n]|].
    by apply lock_free_guarded.
Qed.

(** *** Guarded code *)

(** The mask of the thread, also while it is interrupted *)
Definition thread_mask p : Z :=
  match handler p with None => daif p | Some (HSpin d) | Some (HIn d) => d end.

(** The first guard has the mask from the beginning, the others found everything disabled. *)
Fixpoint chain (d0 : Z) (gs : list Z) (d : Z) : Prop :=
  match gs with [] => d = d0 | g :: gs' => d = all_disabled ∧ chain d0 gs' g end.

Record thread_inv (d0 : Z) p : Prop := {
  ti_chain : chain d0 (guards p) (thread_mask p);
  ti_fits : fits (length (guards p)) (held p) (todo p) = true;
  ti_held : held p = true → guards p ≠ [];
  ti_taken h : handler p = Some h → irq_masked (thread_mask p) = false;
}.

Lemma chain_mask d0 gs d : mask_value d0 → chain d0 gs d → write_interrupt_mask d = d.
Proof. intros Hd. destruct gs; cbn; [by intros ->|]. intros [-> _]. apply disabled_masked. Qed.

Lemma thread_step_inv d0 p q : mask_value d0 → thread_step p q → thread_inv d0 p → thread_inv d0 q.
Proof.
  intros Hd Hs [Hc Hf Hh _].
  destruct Hs as [p k Hn Ht|p k Hn Ht|p g gs k Hn Ht Hg|p k Hn Ht Hl|p k Hn Ht]; unfold thread_mask in Hc; rewrite Hn in Hc;
    rewrite Ht in Hf; cbn [fits] in Hf; split; cbn [handler guards held todo thread_mask daif continue]; try done.
  - cbn. rewrite (proj1 disabled_masked). done.
  - rewrite Hg in Hc. destruct Hc as [_ Hc]. cbn. by rewrite (chain_mask _ _ _ Hd Hc).
  - rewrite Hg in Hf. cbn [length] in Hf. by apply andb_true_iff in Hf as [_ Hf].
  - intros Hl Hgs. rewrite Hg in Hf. cbn [length] in Hf. apply andb_true_iff in Hf as [Hf _]. cbn in Hl, Hgs. rewrite Hl, Hgs in Hf. done.
  - by apply andb_true_iff in Hf as [_ Hf].
  - intros _ Hgs. by rewrite Hgs, andb_false_r in Hf.
  - by apply andb_true_iff in Hf as [_ Hf].
Qed.

Lemma cpu_step_inv d0 p q : mask_value d0 → cpu_step p q → thread_inv d0 p → thread_inv d0 q.
Proof.
  intros Hd Hs Hinv. destruct Hs as [p q Hs|p q Hs|p q Hs]; [by eapply thread_step_inv| |]; destruct Hinv as [Hc Hf Hh Ht].
  - destruct Hs as [p d Hp Hl|p d Hp]; specialize (Ht _ Hp); unfold thread_mask in Hc, Ht; rewrite Hp in Hc, Ht; by split.
  - destruct Hs as [p Hp Hm]. unfold thread_mask in Hc. rewrite Hp in Hc. by split.
Qed.

Lemma cpu_steps_inv d0 c p : mask_value d0 → guarded false c = true → rtc cpu_step (start d0 c) p → thread_inv d0 p.
Proof.
  intros Hd Hc Hs. assert (thread_inv d0 (start d0 c)) as H0.
  { split; try done. cbn. rewrite <- (app_nil_r (flat c)). by apply fits_flat. }
  revert H0. induction Hs; [done|]. eauto using cpu_step_inv.
Qed.

(** The handler finds the lock free. *)
Lemma spinning_free d0 p d : thread_inv d0 p → handler p = Some (HSpin d) → held p = false.
Proof.
  intros [Hc _ Hh Ht] Hp. specialize (Ht _ Hp). destruct (held p); [|done]. specialize (Hh eq_refl).
  destruct (guards p) as [|g gs]; [done|]. destruct Hc as [Hm _]. rewrite Hm in Ht. by rewrite (proj2 disabled_masked) in Ht.
Qed.

(** C23: code that takes a lock which interrupts' handlers take too, but only under a guard, as the
    operations on page tables do.  However interrupts arrive, a handler that wants the lock finds
    it free; the processor can always go on without another interrupt until the code is done;
    and then the lock is free and the interrupts are masked as they were before the code, however
    its guards were nested. *)
Theorem guarded_code_goes_on d0 c p : mask_value d0 → guarded false c = true → rtc cpu_step (start d0 c) p →
  (∀ d, handler p = Some (HSpin d) → held p = false) ∧
  (todo p ≠ [] ∨ handler p ≠ None → ∃ q, thread_step p q ∨ handler_step p q) ∧
  (todo p = [] → handler p = None → daif p = d0 ∧ held p = false ∧ guards p = []).
Proof.
  intros Hd Hc Hs. pose proof (cpu_steps_inv d0 c p Hd Hc Hs) as Hinv. split_and!.
  - intros d. by eapply spinning_free.
  - intros Hm. destruct (handler p) as [[d|d]|] eqn:Hp.
    + eexists. right. eapply hs_lock; [done|]. by eapply spinning_free.
    + eexists. right. by eapply hs_done.
    + destruct Hm as [Hm|]; [|done]. destruct Hinv as [_ Hf _ _]. destruct (todo p) as [|i k] eqn:Ht; [done|].
      destruct i; cbn [fits] in Hf.
      * eexists. left. by eapply ts_work.
      * eexists. left. by eapply ts_guard.
      * destruct (guards p) eqn:Hg; [done|]. eexists. left. by eapply ts_drop.
      * eexists. left. eapply ts_lock; [done..|]. by destruct (held p).
      * eexists. left. by eapply ts_unlock.
  - intros Ht Hn. destruct Hinv as [Hch Hf _ _]. rewrite Ht in Hf. cbn [fits] in Hf. apply andb_true_iff in Hf as [Hl Hh].
    unfold thread_mask in Hch. rewrite Hn in Hch. destruct (guards p); [|done]. cbn in Hch. by destruct (held p).
Qed.

(** *** Unguarded code *)

(** Without interrupts, code that does not lock twice runs to its end. *)
Lemma runs_to_end c d gs l k : mask_value d → well_locked c = true → (l = true → lock_free c = true) →
  rtc cpu_step {| daif := d; held := l; guards := gs; todo := flat c ++ k; handler := None |}
    {| daif := d; held := l; guards := gs; todo := k; handler := None |}.
Proof.
  revert d gs l k. induction c as [|c1 IH1 c2 IH2|c IH|c IH]; intros d gs l k Hd Hw Hl; cbn [flat app well_locked lock_free] in *.
  - apply rtc_once, cs_thread, (ts_work {| daif := d; held := l; guards := gs; todo := IWork :: k; handler := None |}); done.
  - rewrite <- app_assoc. apply andb_true_iff in Hw as [Hw1 Hw2].
    assert (l = true → lock_free c1 = true ∧ lock_free c2 = true) as Hl' by (intros H; by apply andb_true_iff, Hl).
    etrans; [apply IH1|apply IH2]; naive_solver.
  - rewrite <- app_assoc. destruct disabled_masked as [Hm _]. eapply rtc_l.
    { apply cs_thread, (ts_guard {| daif := d; held := l; guards := gs; todo := _; handler := None |}); done. }
    unfold disable_interrupts_until_drop. cbn [daif held guards]. rewrite Hm. etrans; [by apply IH|].
    eapply rtc_l.
    { apply cs_thread, (ts_drop {| daif := all_disabled; held := l; guards := d :: gs; todo := _; handler := None |} d gs); done. }
    unfold drop_interrupt_guard. cbn [held]. unfold write_interrupt_mask. by rewrite Hd.
  - rewrite <- app_assoc. destruct l; [by specialize (Hl eq_refl)|]. eapply rtc_l.
    { apply cs_thread, (ts_lock {| daif := d; held := false; guards := gs; todo := _; handler := None |}); done. }
    unfold continue. cbn [daif guards]. etrans; [apply IH; [done| |done]|].
    { clear -Hw. induction c as [|c1 IH1 c2 IH2|c IH|c IH]; cbn in *; try done; [|by apply IH].
      apply andb_true_iff in Hw as [??]. by rewrite IH1, IH2. }
    apply rtc_once, cs_thread, (ts_unlock {| daif := d; held := true; guards := gs; todo := IUnlock :: k; handler := None |}); done.
Qed.

Definition dead p : Prop := (∃ d, handler p = Some (HSpin d)) ∧ held p = true ∧ ∀ q, ¬ cpu_step p q.

Lemma exposed_dead c d k : mask_value d → irq_masked d = false → exposed c = true → ∃ p,
  rtc cpu_step {| daif := d; held := false; guards := []; todo := flat c ++ k; handler := None |} p ∧ dead p.
Proof.
  intros Hd Hm. revert k. induction c as [|c1 IH1 c2 IH2|c IH|c IH]; intros k He; cbn [flat app exposed] in *; try done.
  - rewrite <- app_assoc. apply orb_true_iff in He as [He|He]; [by apply IH1|]. apply andb_true_iff in He as [Hw He].
    destruct (IH2 k He) as (p & Hp & Hdead). exists p. split; [|done]. etrans; [by apply runs_to_end|done].
  - set (p1 := {| daif := d; held := true; guards := []; todo := (flat c ++ [IUnlock]) ++ k; handler := None |}).
    exists (with_handler p1 (write_interrupt_mask all_disabled) (Some (HSpin d))). split.
    + eapply rtc_l; [apply cs_thread, (ts_lock {| daif := d; held := false; guards := []; todo := _; handler := None |}); done|].
      apply rtc_once, cs_interrupt, (int_take p1); done.
    + split; [by exists d|]. split; [done|]. intros q Hq. inversion Hq as [? ? Hs|? ? Hs|? ? Hs]; inversion Hs; done.
Qed.

(** [enable_interrupts] of the NVMe driver, called while interrupts are enabled, can stop the
    processor for good: an interrupt arrives while the lock of the interrupt controller is held,
    [handle_interrupt] waits for the lock, and nothing else ever runs. *)
Theorem enable_interrupts_deadlocks d0 : mask_value d0 → irq_masked d0 = false →
  ∃ p, rtc cpu_step (start d0 enable_interrupts_code) p ∧ dead p.
Proof.
  intros Hd Hm. destruct (exposed_dead enable_interrupts_code d0 [] Hd Hm eq_refl) as (p & Hp & Hdead).
  exists p. split; [|done]. unfold start. by rewrite app_nil_r in Hp.
Qed.
End proofs.

#[local] Existing Instance concrete_bit_field.

(** An operation on a page table, within another guard, with an interrupt before it *)
Lemma guarded_code_goes_on_witness :
  let p := {| daif := 0x3c0; held := true; guards := [0x3c0; 0]; todo := [IWork; IUnlock; IDrop; IDrop]; handler := None |} in
  rtc cpu_step (start 0 (Guarded table_access)) p ∧ ∃ q, thread_step p q ∨ handler_step p q.
Proof.
  assert (∀ d g k l, l = false → rtc cpu_step {| daif := d; held := l; guards := g; todo := ILock :: k; handler := None |}
    {| daif := d; held := true; guards := g; todo := k; handler := None |}) as Hlock.
  { intros d g k l ->. apply rtc_once, cs_thread, (ts_lock {| daif := d; held := false; guards := g; todo := ILock :: k; handler := None |}); done. }
  set (p := {| daif := 0x3c0; held := true; guards := [0x3c0; 0]; todo := [IWork; IUnlock; IDrop; IDrop]; handler := None |}).
  assert (rtc cpu_step (start 0 (Guarded table_access)) p) as Hs.
  { eapply rtc_l; [apply cs_interrupt, int_take; vm_compute; reflexivity|].
    eapply rtc_l; [apply cs_handler; eapply hs_lock; reflexivity|]. eapply rtc_l; [apply cs_handler; eapply hs_done; reflexivity|].
    eapply rtc_l; [apply cs_thread; eapply ts_guard; reflexivity|]. eapply rtc_l; [apply cs_thread; eapply ts_guard; reflexivity|].
    apply Hlock. reflexivity. }
  split; [exact Hs|].
  destruct (guarded_code_goes_on 0 (Guarded table_access) p) as (_ & H & _); [reflexivity|reflexivity|exact Hs|].
  apply H. left. discriminate.
Defined.

Lemma enable_interrupts_deadlocks_witness : ∃ p, rtc cpu_step (start all_enabled enable_interrupts_code) p ∧ dead p.
Proof. apply (enable_interrupts_deadlocks all_enabled); vm_compute; reflexivity. Defined.
