(* ===== verification/ExceptionEntry.v ===== *)
(** The entry to and the return from an exception ([kernel/src/exception/table.S]): the assembly
    that saves the registers of what was interrupted, calls a handler with a pointer to them and
    restores them.

    Memory is read and written by words of eight bytes, at multiples of eight.  The stack
    pointer is [SP_EL1]: that of the interrupted code if it used it, as the idle thread does. *)
From stdpp Require Import base list.
From S2P Require Import Prelude.

Record Machine := {
  x : nat → Z;               (* x0 to x30 *)
  sp : Z;
  mem : Z → Z;
}.

Inductive asm :=
  | sub_sp (n : Z)
  | add_sp (n : Z)
  | stp (r1 r2 : nat) (off : Z)
  | str (r : nat) (off : Z)
  | ldp (r1 r2 : nat) (off : Z)
  | ldr (r : nat) (off : Z)
  | mov_sp (r : nat)
  | mrs (r : nat) (v : Z)    (* with the register's value *)
  | bl.

Definition set {A} (f : A → Z) `{EqDecision A} (a : A) (v : Z) : A → Z := λ b, if decide (b = a) then v else f b.
Definition set_x (m : Machine) (r : nat) (v : Z) : Machine := {| x := set (x m) r v; sp := sp m; mem := mem m |}.
Definition set_mem (m : Machine) (a v : Z) : Machine := {| x := x m; sp := sp m; mem := set (mem m) a v |}.

Section entry.
(** The handler: it gets three registers and memory, and may leave any values in memory; what
    it leaves in registers is lost.  It returns with the stack pointer that it was called with. *)
Context (handler : Z → Z → Z → (Z → Z) → (Z → Z)) (scratch : nat → Z).

Definition exec (i : asm) (m : Machine) : Machine :=
  match i with
  | sub_sp n => {| x := x m; sp := sp m - n; mem := mem m |}
  | add_sp n => {| x := x m; sp := sp m + n; mem := mem m |}
  | stp r1 r2 off => set_mem (set_mem m (sp m + off) (x m r1)) (sp m + off + 8) (x m r2)
  | str r off => set_mem m (sp m + off) (x m r)
  | ldp r1 r2 off => set_x (set_x m r1 (mem m (sp m + off))) r2 (mem m (sp m + off + 8))
  | ldr r off => set_x m r (mem m (sp m + off))
  | mov_sp r => set_x m r (sp m)
  | mrs r v => set_x m r v
  | bl => {| x := scratch; sp := sp m; mem := handler (x m 0%nat) (x m 1%nat) (x m 2%nat) (mem m) |}
  end.
Fixpoint run (l : list asm) (m : Machine) : Machine :=
  match l with [] => m | i :: l' => run l' (exec i m) end.

Definition save_regs : list asm :=
  [stp 0 1 (0*16); stp 2 3 (1*16); stp 4 5 (2*16); stp 6 7 (3*16); stp 8 9 (4*16); stp 10 11 (5*16);
   stp 12 13 (6*16); stp 14 15 (7*16); stp 16 17 (8*16); stp 18 19 (9*16); stp 20 21 (10*16); stp 22 23 (11*16);
   stp 24 25 (12*16); stp 26 27 (13*16); stp 28 29 (14*16); str 30 (15*16)].
Definition restore_regs : list asm :=
  [ldp 0 1 (0*16); ldp 2 3 (1*16); ldp 4 5 (2*16); ldp 6 7 (3*16); ldp 8 9 (4*16); ldp 10 11 (5*16);
   ldp 12 13 (6*16); ldp 14 15 (7*16); ldp 16 17 (8*16); ldp 18 19 (9*16); ldp 20 21 (10*16); ldp 22 23 (11*16);
   ldp 24 25 (12*16); ldp 26 27 (13*16); ldp 28 29 (14*16); ldr 30 (15*16)].
Definition exception_handler (esr far : Z) : list asm :=
  [sub_sp (8*30)] ++ save_regs ++ [mov_sp 0; mrs 1 esr; mrs 2 far; bl] ++ restore_regs ++ [add_sp (8*30)].
End entry.

Section proofs.
Context (handler : Z → Z → Z → (Z → Z) → (Z → Z)) (scratch : nat → Z).
Local Abbreviation run := (run handler scratch).
Implicit Types m : Machine.

Lemma run_app l1 l2 m : run (l1 ++ l2) m = run l2 (run l1 m).
Proof. revert m. induction l1 as [|i l1 IH]; intros m; [done|]. apply IH. Qed.

(** *** The frame *)

Definition saves (n : nat) : list asm := (λ i, stp (2 * i) (2 * i + 1) (16 * Z.of_nat i)) <$> seq 0 n.
Definition restores (n : nat) : list asm := (λ i, ldp (2 * i) (2 * i + 1) (16 * Z.of_nat i)) <$> seq 0 n.

Lemma saves_S n : saves (S n) = saves n ++ [stp (2 * n) (2 * n + 1) (16 * Z.of_nat n)].
Proof. unfold saves. by rewrite seq_S, fmap_app. Qed.
Lemma restores_S n : restores (S n) = restores n ++ [ldp (2 * n) (2 * n + 1) (16 * Z.of_nat n)].
Proof. unfold restores. by rewrite seq_S, fmap_app. Qed.

Lemma saves_run n m : let m' := run (saves n) m in x m' = x m ∧ sp m' = sp m ∧
  (∀ i, (i < 2 * n)%nat → mem m' (sp m + 8 * Z.of_nat i) = x m i) ∧
  (∀ b, b < sp m ∨ sp m + 16 * Z.of_nat n ≤ b → mem m' b = mem m b).
Proof.
  induction n as [|n IH]; [cbn; split_and!; try done; lia|]. rewrite saves_S, run_app.
  destruct IH as (Hx & Hsp & Hin & Hout). set (m1 := run (saves n) m) in *. cbn. rewrite Hx, Hsp. split_and!; try done.
  - intros i Hi. unfold set. repeat case_decide; try (f_equal; lia). apply Hin. lia.
  - intros b Hb. unfold set. repeat case_decide; try lia. apply Hout. lia.
Qed.

Lemma restores_run n m : let m' := run (restores n) m in mem m' = mem m ∧ sp m' = sp m ∧
  (∀ i, (i < 2 * n)%nat → x m' i = mem m (sp m + 8 * Z.of_nat i)) ∧ (∀ i, (2 * n ≤ i)%nat → x m' i = x m i).
Proof.
  induction n as [|n IH]; [cbn; split_and!; try done; lia|]. rewrite restores_S, run_app.
  destruct IH as (Hm & Hsp & Hin & Hout). set (m1 := run (restores n) m) in *. cbn -[Nat.mul]. rewrite Hm, Hsp. split_and!; try done.
  - intros i Hi. unfold set. repeat case_decide; try (f_equal; lia). apply Hin. lia.
  - intros i Hi. unfold set. repeat case_decide; try lia. apply Hout. lia.
Qed.

(** The registers are at the stack pointer, the last one beyond the 30 words *)
Lemma save_regs_run m : let m' := run save_regs m in sp m' = sp m ∧
  (∀ i, (i < 31)%nat → mem m' (sp m + 8 * Z.of_nat i) = x m i) ∧
  (∀ b, b < sp m ∨ sp m + 248 ≤ b → mem m' b = mem m b).
Proof.
  change save_regs with (saves 15 ++ [str 30 240]). rewrite run_app. destruct (saves_run 15 m) as (Hx & Hsp & Hin & Hout).
  set (m1 := run (saves 15) m) in *. clearbody m1. cbn. rewrite Hx, Hsp. split_and!; try done.
  - intros i Hi. unfold set. case_decide as Hd; [f_equal; lia|]. apply Hin. lia.
  - intros b Hb. unfold set. case_decide as Hd; [lia|]. apply Hout. lia.
Qed.

Lemma restore_regs_run m : let m' := run restore_regs m in mem m' = mem m ∧ sp m' = sp m ∧
  ∀ i, (i < 31)%nat → x m' i = mem m (sp m + 8 * Z.of_nat i).
Proof.
  change restore_regs with (restores 15 ++ [ldr 30 240]). rewrite run_app. destruct (restores_run 15 m) as (Hm & Hsp & Hin & _).
  set (m1 := run (restores 15) m) in *. clearbody m1. cbn. rewrite Hm, Hsp. split_and!; try done.
  intros i Hi. unfold set. case_decide as Hd; [f_equal; lia|]. apply Hin. lia.
Qed.

(** Up to the return of the handler *)
Lemma handler_call esr far m : let f := sp m - 240 in ∃ called m3,
  run ([sub_sp (8 * 30)] ++ save_regs ++ [mov_sp 0; mrs 1 esr; mrs 2 far; bl]) m = m3 ∧
  sp m3 = f ∧ mem m3 = handler f esr far called ∧
  (∀ i, (i < 31)%nat → called (f + 8 * Z.of_nat i) = x m i) ∧ (∀ b, b < f ∨ sp m + 8 ≤ b → called b = mem m b).
Proof.
  intros f. rewrite !run_app. destruct (save_regs_run (run [sub_sp (8 * 30)] m)) as (Hsp & Hin & Hout).
  generalize dependent (run save_regs (run [sub_sp (8 * 30)] m)). intros m2 Hsp Hin Hout. cbn in Hsp, Hin, Hout.
  exists (mem m2). eexists. split; [done|]. cbn. rewrite Hsp. split_and!; [done|done|exact Hin|]. intros b Hb. apply Hout. unfold f in Hb. lia.
Qed.

(** C40: an exception.  The handler is called with a pointer to the 31 registers of what was
    interrupted, and whatever it leaves there is in the registers when the exception returns; the
    stack pointer is as before.  But the frame has room for 30 registers: the word at the
    interrupted stack pointer, which is the interrupted code's, is overwritten by its x30 before
    the handler runs.  So a handler that keeps to its own stack and changes no register returns
    to code whose registers and memory are as they were, that word excepted. *)
Theorem exception_overwrites_stack esr far m : let m' := run (exception_handler esr far) m in
  let f := sp m - 240 in ∃ called, mem m' = handler f esr far called ∧ sp m' = sp m ∧
  (∀ i, (i < 31)%nat → called (f + 8 * Z.of_nat i) = x m i) ∧
  (∀ b, b < f ∨ sp m + 8 ≤ b → called b = mem m b) ∧ called (sp m) = x m 30%nat ∧
  (∀ i, (i < 31)%nat → x m' i = mem m' (f + 8 * Z.of_nat i)) ∧
  ((∀ b, f ≤ b → mem m' b = called b) →
     (∀ i, (i < 31)%nat → x m' i = x m i) ∧ (∀ b, sp m + 8 ≤ b → mem m' b = mem m b) ∧
     mem m' (sp m) = x m 30%nat).
Proof.
  intros m' f. destruct (handler_call esr far m) as (called & m3 & H3 & Hs3 & Hm3 & Hin & Hout). fold f in Hs3, Hm3, Hin, Hout.
  destruct (restore_regs_run m3) as (Hm & Hsp4 & Hx).
  assert (x m' = x (run restore_regs m3) ∧ mem m' = mem (run restore_regs m3) ∧ sp m' = sp (run restore_regs m3) + 240) as (-> & -> & ->).
  { unfold m'. change (exception_handler esr far)
      with ((([sub_sp (8 * 30)] ++ save_regs ++ [mov_sp 0; mrs 1 esr; mrs 2 far; bl]) ++ restore_regs) ++ [add_sp (8 * 30)]).
    rewrite (run_app _ [add_sp (8 * 30)]), (run_app _ restore_regs), H3. by generalize (run restore_regs m3). }
  clear m'. generalize dependent (run restore_regs m3). intros m4 Hm Hsp4 Hx. rewrite Hm, Hm3. rewrite Hm3, Hs3 in Hx.
  assert (called (sp m) = x m 30%nat) as Htop by (rewrite <- (Hin 30%nat) by lia; f_equal; unfold f; lia).
  exists called. split_and!; [done|rewrite Hsp4, Hs3; unfold f; lia|done|done|done|exact Hx|].
  intros Hk. split_and!; [|intros b Hb; rewrite Hk by (unfold f; lia); apply Hout; lia|by rewrite Hk by (unfold f; lia)].
  intros i Hi. rewrite Hx, Hk by lia. by apply Hin.
Qed.
End proofs.
