(* ===== verification/Startup.v ===== *)
(** Pieces of the boot process ([kernel/src/init.rs]): the boot options, which the device tree has
    as JSON, the drivers that are offered to the PCIe bus, the path under which an NVMe device is
    registered and opened ([kernel/src/storage/nvme/mod.rs], [kernel/src/registry/mod.rs]), and
    the status with which the system ends.  The JSON parser, a library with code derived from the structure, is an argument: for
    the text it gives an error or the field, which may be missing. *)
From Stdlib Require Import Strings.Ascii Strings.String.
From stdpp Require Import base list.
From S2P Require Import RegPath RegSpec.
From S2P Require Import Prelude BitField Addresses PhysAlloc VirtAlloc PhysBuffer Error Dtb DtbSpec Gic Sched Kernel Pcie.

Record BootOptions := { init_process_path : list Z }.
Definition default_init_process_path : list Z := bytes_of "/volumes/root/bin/init".

(** *** Text *)

(** The characters of bytes that [from_utf8] accepts *)
Fixpoint chars (l : list Z) : list Z :=
  match l with
  | [] => []
  | a :: l1 =>
      if a <=? 0x7f then a :: chars l1
      else match l1 with
      | [] => []
      | b :: l2 =>
          if a <=? 0xdf then (a - 0xc0) * 2 ^ 6 + (b - 0x80) :: chars l2
          else match l2 with
          | [] => []
          | c :: l3 =>
              if a <=? 0xef then (a - 0xe0) * 2 ^ 12 + (b - 0x80) * 2 ^ 6 + (c - 0x80) :: chars l3
              else match l3 with
              | [] => []
              | d :: l4 => (a - 0xf0) * 2 ^ 18 + (b - 0x80) * 2 ^ 12 + (c - 0x80) * 2 ^ 6 + (d - 0x80) :: chars l4
              end
          end
      end
  end.
(** [char::is_whitespace] *)
Definition is_whitespace (c : Z) : bool :=
  ((0x9 <=? c) && (c <=? 0xd)) || (c =? 0x20) || (c =? 0x85) || (c =? 0xa0) || (c =? 0x1680) ||
  ((0x2000 <=? c) && (c <=? 0x200a)) || (c =? 0x2028) || (c =? 0x2029) || (c =? 0x202f) || (c =? 0x205f) || (c =? 0x3000).
(** [s.trim().is_empty()] *)
Definition blank (s : list Z) : bool := forallb is_whitespace (chars s).
(** [CStr::from_bytes_until_nul] *)
Fixpoint from_bytes_until_nul (l : list Z) : option (list Z) :=
  match l with
  | [] => None
  | b :: l' => if b =? 0 then Some [] else cons b <$> from_bytes_until_nul l'
  end.

Section options.
Context {BE : BigEndian} (from_json : list Z → option (option (list Z))).

(** The closure of [find_boot_options] *)
Definition bootargs_property {E} (name data : list Z) (_ : option StandardProperty) : M (option BootOptions) E unit :=
  if bool_decide (name = bytes_of "bootargs") then
    s ← lift (from_bytes_until_nul data);
    assert (from_utf8 s);;
    if blank s then mret tt
    else match from_json s with
    | Some o => put (Some {| init_process_path := default default_init_process_path o |})
    | None => panic
    end
  else mret tt.

(** [unwrap_or_default]: the derived default has the empty string. *)
Definition find_boot_options {S E} (dt : DeviceTree) : M S E BootOptions :=
  '(_, opts) ← on_local (process_properties_for_node dt (bytes_of "chosen") bootargs_property) None;
  mret (default {| init_process_path := [] |} opts).
End options.

(** *** Drivers and the end *)

Definition pcie {D} `{HB : Bus D} `{BF : BitField} {BE : BigEndian} (kernel_table : Paging.PageTable) (fuel : nat)
    (ic : GenericInterruptController) (dt : DeviceTree) (init_nvme_over_pcie : DriverInitFn) : M (KernelMem * D) Error unit :=
  pcie_init kernel_table fuel ic dt (λ class, if class =? 0x01080200 then Some init_nvme_over_pcie else None).

(** The end of [finish_boot]: what the emulator is told, by how the main thread of init ended *)
Definition exit_status (ec : ThreadExit) : Z :=
  match ec with
  | NormalExit c => c
  | PageFault => 0x10000
  | Killed => 0x10001
  end.

(** *** The registry *)

(** [Display for DeviceId], of numbers that fit in eight bits *)
Definition hex_digit (d : Z) : ascii := ascii_of_N (Z.to_N (if d <? 10 then 48 + d else 87 + d)).
Definition hex (n : Z) : str := if n <? 16 then [hex_digit n] else [hex_digit (n / 16); hex_digit (n mod 16)].
Definition device_name (a : DeviceId) : str :=
  list_ascii_of_string "pci@" ++ hex (dev_bus a) ++ [":"%char] ++ hex (dev_device a) ++ [":"%char] ++ hex (dev_function a).

(** The end of [init_nvme_over_pcie] *)
Definition register_device {H} (reg : RegPath.Node H) (addr : DeviceId) (h : H) : outcome unit * RegPath.Node H :=
  register reg (push (list_ascii_of_string "/dev/nvme/") (device_name addr)) h.

(** [Registry::open_block_store] and [Registry::open_file], which differ in the handler's method *)
Definition open_path {S A H} (open : H → str → M S Error A) (reg : RegPath.Node H) (p : str) : M S Error A :=
  match find_handler reg p with
  | Fine (subpath, h) => open h subpath
  | Failed e => throw (Registry "find handler for path" e)
  | Panicked => panic
  end.

Lemma hex_plain n : 0 ≤ n < 256 → Forall (λ c, c ≠ PATH_SEP ∧ c ≠ "."%char) (hex n).
Proof.
  intros Hn. assert (∀ d, 0 ≤ d < 16 → hex_digit d ≠ PATH_SEP ∧ hex_digit d ≠ "."%char) as Hd.
  { intros d Hd. assert (∃ i, (i < 16)%nat ∧ d = Z.of_nat i) as (i & Hi & ->) by (exists (Z.to_nat d); lia).
    do 16 (destruct i as [|i]; [split; discriminate|]). lia. }
  unfold hex. destruct (Z.ltb_spec n 16); repeat constructor; apply Hd; dlia.
Qed.

Definition valid_id (a : DeviceId) : Prop := 0 ≤ dev_bus a < 256 ∧ 0 ≤ dev_device a < 32 ∧ 0 ≤ dev_function a < 8.

Lemma device_name_plain a : valid_id a → plain (device_name a).
Proof.
  intros (Hb & Hd & Hf). assert (PATH_SEP ∉ device_name a) as Hno.
  { assert (∀ n, 0 ≤ n < 256 → PATH_SEP ∉ hex n) as Hx.
    { intros n Hn Hin. pose proof (hex_plain n Hn) as Hp. rewrite Forall_forall in Hp. by destruct (Hp _ Hin). }
    unfold device_name. rewrite !not_elem_of_app. split_and!; try (apply Hx; lia).
    all: refine (bool_decide_eq_true_1 _ _); vm_compute; reflexivity. }
  split; [by split|]. unfold from_str. by rewrite !decide_False.
Qed.

(** A device that was registered is opened under its path, with the namespace as the rest of it;
    so the path of [finish_boot] is namespace 1 of device 2 of the first bus. *)
Theorem device_opened {S A H} (open : H → str → M S Error A) (reg reg' : RegPath.Node H) a h n : valid_id a → plain n →
  register_device reg a h = (Fine tt, reg') →
  open_path open reg' (list_ascii_of_string "/dev/nvme/" ++ device_name a ++ PATH_SEP :: n) = open h n.
Proof.
  intros Ha Hn Hreg. assert (Forall plain [list_ascii_of_string "dev"; list_ascii_of_string "nvme"]) as Hp.
  { repeat constructor; try done; refine (bool_decide_eq_true_1 _ _); vm_compute; reflexivity. }
  pose proof (register_then_find reg [list_ascii_of_string "dev"; list_ascii_of_string "nvme"] (device_name a) h Hp (device_name_plain a Ha)) as H0.
  change (file_path [list_ascii_of_string "dev"; list_ascii_of_string "nvme"] (device_name a))
    with (push (list_ascii_of_string "/dev/nvme/") (device_name a)) in H0.
  unfold register_device in Hreg. rewrite Hreg in H0. destruct H0 as [_ H0]. specialize (H0 [n] (Forall_cons_2 _ _ _ Hn (Forall_nil_2 _))).
  unfold open_path. change (find_handler reg' (list_ascii_of_string "/dev/nvme/" ++ device_name a ++ PATH_SEP :: n) = Fine (n, h)) in H0.
  by rewrite H0.
Qed.

(** The path of [finish_boot] *)
Example boot_store_path {H} (h : H) : ∃ reg, register_device new_registry {| dev_bus := 0; dev_device := 2; dev_function := 0 |} h = (Fine tt, reg) ∧
  ∀ S A (open : H → str → M S Error A), open_path open reg (list_ascii_of_string "/dev/nvme/pci@0:2:0/1") = open h (list_ascii_of_string "1").
Proof.
  eexists. split; [vm_compute; reflexivity|]. intros S A open.
  apply (device_opened open new_registry _ {| dev_bus := 0; dev_device := 2; dev_function := 0 |} h (list_ascii_of_string "1"));
    [split_and!; cbn; lia| |vm_compute; reflexivity].
  split; [split; [done|]|done]. refine (bool_decide_eq_true_1 _ _); vm_compute; reflexivity.
Qed.

(** Nothing is found under an empty path, such as that of the default boot options. *)
Lemma empty_path_invalid {S A H} (open : H → str → M S Error A) reg s :
  open_path open reg [] s = Err (Registry "find handler for path" InvalidPath) s.
Proof. done. Qed.

(** Each way to end has a status of its own. *)
Lemma exit_status_inj e1 e2 : (∀ c, e1 = NormalExit c ∨ e2 = NormalExit c → 0 ≤ c < 2 ^ 16) →
  exit_status e1 = exit_status e2 → e1 = e2.
Proof.
  intros Hc H. destruct e1 as [c1| |], e2 as [c2| |]; cbn in H; try done; try (by subst);
    first [specialize (Hc c1 (or_introl eq_refl)); lia|specialize (Hc c2 (or_intror eq_refl)); lia].
Qed.

Section spec.
Context {BE : BigEndian} (from_json : list Z → option (option (list Z))).

Definition not_bootargs (p : prop) : Prop := p.1.1 ≠ bytes_of "bootargs".

Lemma other_properties {E} l o : Forall not_bootargs l → for_each (call (bootargs_property (E := E) from_json)) l o = Ok tt o.
Proof.
  induction 1 as [|p l Hp _ IH]; [done|]. cbn [for_each]. erewrite bind_run; [exact IH|].
  unfold call, bootargs_property. by rewrite bool_decide_false.
Qed.

Lemma until_nul a rest : Forall (λ b, b ≠ 0) a → from_bytes_until_nul (a ++ 0 :: rest) = Some a.
Proof.
  induction 1 as [|b a Hb _ IH]; [done|]. cbn. rewrite (proj2 (Z.eqb_neq _ _)) by done. by rewrite IH.
Qed.

Lemma the_property {E} l1 p l2 : Forall not_bootargs (l1 ++ l2) →
  for_each (call (bootargs_property (E := E) from_json)) (l1 ++ p :: l2) None = call (bootargs_property from_json) p None.
Proof.
  intros [H1 H2]%Forall_app. rewrite for_each_app. erewrite bind_run by by apply other_properties. cbn [for_each].
  rewrite bind_unfold. destruct (call _ p None) as [[] o|e o|w]; [|done|done]. by apply other_properties.
Qed.

Lemma argument_run {E} a rest std : Forall (λ v, v ≠ 0) a → from_utf8 a = true →
  call (bootargs_property (E := E) from_json) (bytes_of "bootargs", a ++ 0 :: rest, std) None =
    if blank a then Ok tt None
    else match from_json a with
    | Some o => Ok tt (Some {| init_process_path := default default_init_process_path o |})
    | None => Stop Panic
    end.
Proof.
  intros Ha Hutf. unfold call, bootargs_property. cbn [fst snd]. rewrite bool_decide_true by done.
  erewrite bind_run by by rewrite until_nul. erewrite bind_run by by rewrite Hutf. destruct (blank a); [done|].
  by destruct (from_json a).
Qed.

(** The boot options.  If the node [chosen] has arguments, they are what the JSON text gives, with
    init's path as the default of a missing field; text that is not JSON ends the boot.  But if
    there are no arguments, or blank ones, the path is empty, and not the default. *)
Theorem boot_options_found {S E} mem addr b tree dt (s : S) : blob_at mem addr b → blob_items b = node_items tree →
  Dtb.at_address mem addr = Some dt → (∀ n, find_node (bytes_of "chosen") tree = Some n → unmatched (bytes_of "chosen") (node_children n)) →
  ((∀ n, find_node (bytes_of "chosen") tree = Some n → Forall not_bootargs (node_props n)) →
     find_boot_options (E := E) from_json dt s = Ok {| init_process_path := [] |} s) ∧
  ∀ n l1 a rest std l2, find_node (bytes_of "chosen") tree = Some n →
    node_props n = l1 ++ (bytes_of "bootargs", a ++ 0 :: rest, std) :: l2 → Forall not_bootargs (l1 ++ l2) →
    Forall (λ v, v ≠ 0) a → from_utf8 a = true → find_boot_options (E := E) from_json dt s =
      if blank a then Ok {| init_process_path := [] |} s
      else match from_json a with
      | Some o => Ok {| init_process_path := default default_init_process_path o |} s
      | None => Stop Panic
      end.
Proof.
  intros Hb Ht Hdt Hu.
  pose proof (node_properties_found (S := option BootOptions) (E := E) mem addr b tree (bytes_of "chosen") dt
    (bootargs_property from_json) None Hb Ht Hdt Hu) as Hp. unfold find_boot_options, on_local. split.
  - intros Hno. rewrite bind_unfold, Hp. destruct (find_node _ tree) as [n|]; [|done].
    by erewrite bind_run by (by apply other_properties, Hno).
  - intros n l1 a rest std l2 Hn Hps Hl Ha Hutf. rewrite bind_unfold, Hp, Hn, Hps, bind_unfold, the_property by done.
    rewrite (argument_run a rest std Ha Hutf). destruct (blank a); [done|]. by destruct (from_json a) as [o|].
Qed.
End spec.

(** *** Witness *)

#[local] Existing Instance concrete_big_endian.

(** A tree whose node [chosen] has an empty object as arguments, and a parser that knows that much *)
Definition args_tree : node :=
  Node [] [] [Node (bytes_of "chosen") [(bytes_of "bootargs", bytes_of "{}" ++ [0], None)] []].
Definition args_blob : blob :=
  {| b_total := 300; b_off_struct := 40; b_off_strings := 260; b_off_rsvmap := 200; b_version := 17;
     b_last_comp := 16; b_boot_cpu := 0;
     b_pieces := [PBegin []; PBegin (bytes_of "chosen"); PProp 0 (bytes_of "{}" ++ [0]); PEnd; PEnd];
     b_strings := bytes_of "bootargs" ++ [0]; b_regions := [] |}.
Definition args_mem : Z → Z := blob_mem args_blob 4096.
Definition demo_json (s : list Z) : option (option (list Z)) := if bool_decide (s = bytes_of "{}") then Some None else None.

Lemma args_blob_at : blob_at args_mem 4096 args_blob.
Proof. unfold args_blob. check_blob. Qed.
Lemma args_items : blob_items args_blob = node_items args_tree.
Proof. vm_compute. reflexivity. Qed.

(** With the empty object init is found; with a tree without arguments it is not. *)
Lemma boot_options_found_witness :
  (∃ dt, Dtb.at_address args_mem 4096 = Some dt ∧
     find_boot_options (S := unit) (E := unit) demo_json dt tt = Ok {| init_process_path := default_init_process_path |} tt) ∧
  (∃ dt, Dtb.at_address demo_mem 4096 = Some dt ∧
     find_boot_options (S := unit) (E := unit) demo_json dt tt = Ok {| init_process_path := [] |} tt).
Proof.
  split.
  - destruct (at_address_run args_mem 4096 args_blob args_blob_at) as (dt & Hat & _). exists dt. split; [exact Hat|].
    destruct (boot_options_found (S := unit) (E := unit) demo_json args_mem 4096 args_blob args_tree dt tt args_blob_at args_items Hat)
      as [_ H].
    { intros n Hn. vm_compute in Hn. injection Hn as <-. vm_compute. constructor. }
    apply (H (Node (bytes_of "chosen") [(bytes_of "bootargs", bytes_of "{}" ++ [0], None)] []) [] (bytes_of "{}") [] None []);
      [vm_compute; reflexivity|reflexivity|constructor|repeat constructor; discriminate|vm_compute; reflexivity].
  - destruct (at_address_run demo_mem 4096 demo_blob demo_blob_at) as (dt & Hat & _). exists dt. split; [exact Hat|].
    destruct (boot_options_found (S := unit) (E := unit) demo_json demo_mem 4096 demo_blob demo_tree dt tt demo_blob_at demo_items Hat)
      as [H _]; [|apply H]; intros n Hn; vm_compute in Hn; discriminate Hn.
Defined.
