(* ===== verification/Kapi.v ===== *)
(** The wrappers of system calls in user space ([kapi/src/system_calls.rs]).

    Each wrapper is a piece of assembly whose operands the compiler puts into registers of its
    choice, a different one for each operand; the assembly moves them to the registers in which
    the kernel expects the arguments, one after the other, and makes the call. *)
From stdpp Require Import base list.
From S2P Require Import Prelude.

Inductive SystemCallNumber :=
  | ExitCall
  | GetCurrentProcessId
  | GetCurrentThreadId
  | WriteLog
  | Yield
  | WaitForMessage
  | HeapAllocate
  | HeapFree.
Definition number (c : SystemCallNumber) : Z :=
  match c with
  | ExitCall => 1 | GetCurrentProcessId => 2 | GetCurrentThreadId => 3 | WriteLog => 4
  | Yield => 10 | WaitForMessage => 11
  | HeapAllocate => 20 | HeapFree => 21
  end.

(** An operand is named by its place in the list of operands. *)
Inductive uasm :=
  | Mov (dst : nat) (operand : nat)
  | MovW (dst : nat) (operand : nat)   (* the low half, the rest becomes zero *)
  | Svc (n : Z).

Definition exit_asm : list uasm := [MovW 0 0; Svc 1].
Definition current_process_id_asm : list uasm := [Mov 0 0; Svc 2].
Definition current_thread_id_asm : list uasm := [Mov 0 0; Svc 3].
Definition heap_allocate_asm : list uasm := [Mov 0 0; Mov 1 1; Mov 2 2; Svc 20].
Definition heap_free_asm : list uasm := [Mov 0 0; Mov 1 1; Svc 21].
Definition yield_now_asm : list uasm := [Svc 10].
Definition log_record_asm : list uasm := [Mov 0 0; Svc 4].

(** Registers by number, and where the compiler put the operands *)
Definition set_reg (r : nat → Z) (i : nat) (v : Z) : nat → Z := λ j, if decide (j = i) then v else r j.
(** The number of the call that is made, with the registers at that point *)
Fixpoint run_asm (assigned : nat → nat) (l : list uasm) (r : nat → Z) : option (Z * (nat → Z)) :=
  match l with
  | [] => None
  | Mov d o :: l' => run_asm assigned l' (set_reg r d (r (assigned o)))
  | MovW d o :: l' => run_asm assigned l' (set_reg r d (r (assigned o) mod 2 ^ 32))
  | Svc n :: _ => Some (n, r)
  end.

(** Operands in different registers, with the values [v] *)
Definition holds (assigned : nat → nat) (v : list Z) (r : nat → Z) : Prop :=
  (∀ i j, (i < length v)%nat → (j < length v)%nat → assigned i = assigned j → i = j) ∧
  ∀ i x, v !! i = Some x → r (assigned i) = x.

(** The arguments of a call, in the registers from x0 *)
Definition passes (v : list Z) (n : Z) (o : option (Z * (nat → Z))) : Prop :=
  ∃ r, o = Some (n, r) ∧ ∀ i x, v !! i = Some x → r i = x.

Definition moves (k : nat) (n : Z) : list uasm := ((λ i, Mov i i) <$> seq 0 k) ++ [Svc n].

Lemma moves_from assigned v r n i k : (i + k = length v)%nat → (∀ j x, v !! j = Some x → (j < i)%nat → r j = x) →
  (∀ j x, v !! j = Some x → (i ≤ j)%nat → r (assigned j) = x) → (∀ i j, (i < j)%nat → (j < length v)%nat → assigned j ≠ i) →
  passes v n (run_asm assigned (((λ i, Mov i i) <$> seq i k) ++ [Svc n]) r).
Proof.
  revert i r. induction k as [|k IH]; intros i r Hk Hdone Hleft Hsafe.
  - exists r. split; [done|]. intros j x Hj. apply (Hdone j x Hj). apply lookup_lt_Some in Hj. lia.
  - cbn [seq fmap list_fmap app run_asm]. apply IH; [lia| | |done].
    + intros j x Hj Hlt. unfold set_reg. case_decide as He; [|apply Hdone; [done|lia]]. subst j. by apply Hleft.
    + intros j x Hj Hle. unfold set_reg. rewrite decide_False; [apply Hleft; [done|lia]|].
      apply Hsafe; [lia|]. by apply lookup_lt_Some in Hj.
Qed.

(** The arguments arrive if no operand is in a register that an earlier move overwrites.  The
    compiler is not told that the moves do, and with two or more arguments it may choose such a
    register: the call is then made with another argument's value. *)
Theorem wrappers_pass_arguments assigned v r n : holds assigned v r →
  ((∀ i j, (i < j)%nat → (j < length v)%nat → assigned j ≠ i) → passes v n (run_asm assigned (moves (length v) n) r)) ∧
  (∀ x0 x1 v', v = x0 :: x1 :: v' → assigned 1%nat = 0%nat → ∃ r', run_asm assigned (moves (length v) n) r = Some (n, r') ∧ r' 1%nat = x0).
Proof.
  intros [Hinj Hv]. split.
  - intros Hsafe. apply (moves_from assigned v r n 0 (length v)); [done|lia|naive_solver|done].
  - intros x0 x1 v' -> H1. cbn [length]. unfold moves. cbn [seq fmap list_fmap app run_asm]. rewrite H1.
    assert (∀ k i r', (2 ≤ i)%nat → ∃ r'', run_asm assigned (((λ i, Mov i i) <$> seq i k) ++ [Svc n]) r' = Some (n, r'') ∧ r'' 1%nat = r' 1%nat) as Hk.
    { induction k as [|k IH]; intros i r' Hi; [by exists r'|]. cbn [seq fmap list_fmap app run_asm].
      destruct (IH (S i) (set_reg r' i (r' (assigned i)))) as (r'' & Hrun & Hr); [lia|]. exists r''. split; [done|].
      rewrite Hr. unfold set_reg. by rewrite decide_False by lia. }
    destruct (Hk (length v') 2%nat (set_reg (set_reg r 0 (r (assigned 0%nat))) 1 (set_reg r 0 (r (assigned 0%nat)) 0%nat)) ltac:(lia))
      as (r'' & Hrun & Hr). exists r''. split; [exact Hrun|]. rewrite Hr. unfold set_reg. cbn. by apply Hv.
Qed.

Lemma wrappers_are_moves : current_process_id_asm = moves 1 (number GetCurrentProcessId) ∧ current_thread_id_asm = moves 1 (number GetCurrentThreadId) ∧
  heap_allocate_asm = moves 3 (number HeapAllocate) ∧ heap_free_asm = moves 2 (number HeapFree) ∧
  yield_now_asm = moves 0 (number Yield) ∧ log_record_asm = moves 1 (number WriteLog).
Proof. done. Qed.

(** [heap_free] of an address and a size, when the size was put into x0 *)
Example heap_free_loses_size : ∃ assigned r, holds assigned [0x5000; 4096] r ∧
  ∃ r', run_asm assigned heap_free_asm r = Some (number HeapFree, r') ∧ r' 0%nat = 0x5000 ∧ r' 1%nat = 0x5000.
Proof.
  exists (λ i, if decide (i = 0%nat) then 1%nat else 0%nat), (λ i, if decide (i = 0%nat) then 4096 else 0x5000). split.
  - split; [|intros [|[|i]] x; cbn; naive_solver].
    intros [|[|i]] [|[|j]]; cbn; try lia; intros; repeat case_decide; done.
  - eexists. split; [reflexivity|]. done.
Qed.
